(* ===== verification/_CoqProject ===== *)
-Q . S2P
Prelude.v
GoStrings.v
Json.v
RouterPolicy.v
Policies.v
Capabilities.v
Privacy.v
Config.v
Fields.v
PrivacyFacts.v
Settings.v
Profiles.v
Sha256.v
ProfileFacts.v
Picker.v
Fixtures.v
Targets.v
TargetFacts.v
TargetSystem.v
TargetTheorems.v
RetryBudget.v
RetryBudgetTheorems.v
Retry.v
Plan.v
Validate.v
PlanFacts.v
PlanTheorems.v
SnapshotTheorems.v
ValidateFacts.v
Compiled.v
Runtime.v
PlanWitnesses.v
CompiledWitnesses.v
Endpoints.v
Ledger.v
EndpointTheorems.v
Lifecycle.v
Activation.v
LifecycleStatus.v
StatusTheorems.v
Admission.v
Coordinator.v
Threads.v
CoordinatorFacts.v
CoordinatorStatus.v
CoordinatorSystem.v
CoordinatorTheorems.v
CoordinatorWitnesses.v
LifecycleStart.v
EventStream.v
EventStreamTheorems.v
AsyncWriter.v
AsyncWriterTheorems.v
Gateway.v
AttemptState.v
Attempts.v
AttemptProtocol.v
AttemptLoop.v
AttemptTheorems.v
AttemptSystem.v
AttemptWitnesses.v
Identity.v
PromptCache.v
PromptCacheTheorems.v
PromptCacheWitnesses.v
Regex.v
Detector.v
PiiSession.v
PiiTheorems.v
PiiStream.v
PiiWitnesses.v
ClientCredentials.v
CredentialTheorems.v
SecretSources.v
Health.v
ModelRouter.v
RouterTheorems.v
Responses.v
ProviderState.v
UpstreamHeaders.v
