(* ===== verification/Prelude.v ===== *)
(** * SparkRoute: a verification of the routing core

    SparkRoute is a gateway between clients of language models and the
    deployments that serve them.  An operator writes a configuration document;
    the gateway validates and compiles it to a snapshot.  A request is
    authenticated, a model is selected for it, a plan orders the deployments
    that may serve that model, and the request is admitted to one of them and
    retried on the next when it fails.  Deployments may be dynamic: a controller
    starts the workload on demand, and requests wait in an admission queue until
    an endpoint is ready.  This library is a shallow embedding of that core.
    Its definitions keep the names of the source, and follow it function by
    function; Go methods carry the name of the method.

    ** Conventions

    A Go integer is a [Z]; where it may overflow, the wrap-around of [int64] is
    written out ([int64], [int64_add], ...).  A duration is an [int64] of
    nanoseconds and an instant a [Z] of nanoseconds, the zero time being given
    by its own predicate.  A [float64] is a [spec_float].  A string is the list
    of its bytes.  A Go map is a [gmap]; where the code ranges over one, either
    the result is shown not to depend on the order or the order is an input
    ([visit]).  A function that may fail returns [string + A], the string being
    the format of the source's error; [None] is a Go panic.  A critical section
    of a mutex is one function on the guarded state; concurrent use is a step
    relation (or an interaction tree) in which the sections of several threads
    interleave freely.  The attempt loop of a request is a program over its
    calls ([prog], AttemptState.v), whose answers are arbitrary.

    Code that is not in the repository is a parameter, usually a class:
    [UnicodeTables] (GoStrings.v), [UnicodeUpper] and [UnicodeFields] for the
    tables of [unicode]; [Entropy] for [crypto/rand] and [MathLog] for
    [math.Log] (Picker.v); [HttpTime] for [http.ParseTime] (Retry.v); [NetURL]
    for [url.Parse], [EncodingJSON] for what [encoding/json] makes of a raw value
    (whether it is valid, its members, its rewritten text, the length of an
    encoding; Fields.v) and [JsonText] for the canonical text of a JSON value
    (PromptCache.v); in the model router,
    the hyperbolic tangent, draws, formatting and the size of a JSON object are
    arguments.  What the source itself leaves open is a class too: [Detector]
    and [StreamingDetector] (Detector.v), the prompt-cache [Backend], the
    credential [Store].  Laws, where a theorem needs some, are classes of their
    own ([EntropyLaws], [MathLogLaws], [BackendLaws], [StoreLaws], [TokenLaws],
    [StreamingLaws], ...) with concrete instances, so that each can hold.

    ** Files and the code they model

    Shared: Prelude.v (this file: notations, tactics, lemmas on lists, sorting,
    sums, integers and floating point), GoStrings.v ([strings]), Sha256.v
    ([crypto/sha256]), Json.v ([encoding/base64] and the strings of
    [encoding/json]), Regex.v ([regexp]), Fixtures.v (data for examples).

    Configuration, [pkg/config]: Policies.v (circuit, retry, limit, selection,
    recovery policies), Capabilities.v ([capabilities.go]), Privacy.v (PII
    policies), Config.v (the document), Fields.v (identifiers, headers,
    credentials, URLs), Settings.v (endpoint sources, [observability.go],
    [mmprojection.go], [sparkrun_overrides.go]), Profiles.v
    ([request_profiles.go], [policy_profiles.go]), Validate.v
    ([Document.Validate] and [Compile]).
    ValidateFacts.v states what a validated document guarantees
    ([well_formed]), PrivacyFacts.v and ProfileFacts.v the parts of it about
    privacy and inheritance (with what a second resolution of the profiles
    changes), Compiled.v what it gives to the running components.

    Callers: Identity.v ([pkg/identity], [pkg/gateway/selection.go]),
    ClientCredentials.v ([pkg/clientcredentials] with its SQLite store) and
    CredentialTheorems.v.

    Model selection, [pkg/modelrouter]: RouterPolicy.v (the policy document, its
    validation, compilation and publication, and discovered metadata),
    ModelRouter.v (planning, strategies, stage routing, observations, the answer
    to the gateway), RouterTheorems.v.

    Routing, [pkg/routing]: Picker.v ([picker.go]), Plan.v ([snapshot.go]),
    Targets.v ([targets.go]), RetryBudget.v ([retry_budget.go]), and Retry.v for
    [pkg/gateway/retry.go].  PlanFacts.v has the specification of a plan and its
    interface [Oracle] to eligibility, readiness and randomness; PlanTheorems.v
    and SnapshotTheorems.v the theorems; Runtime.v discharges [Oracle] with the
    target manager.  TargetFacts.v has the abstract circuit breaker,
    TargetSystem.v the concurrent use of a manager, TargetTheorems.v the
    theorems; RetryBudgetTheorems.v those of retry budgets.

    Requests, [pkg/gateway/chatcompletions.go] and the files it calls: Gateway.v
    (operations, headers, statuses and error classes), AttemptState.v (programs,
    the variables of [ServeHTTP] and its calls, the ledger record of a request),
    Attempts.v (the attempt loop, [serve_plan]).  AttemptProtocol.v is the
    abstract protocol, AttemptLoop.v shows that the loop follows it,
    AttemptTheorems.v draws the consequences, AttemptSystem.v composes the loop
    with the target manager and the retry budget ([connected]),
    AttemptWitnesses.v runs it.

    Endpoints and lifecycle: Endpoints.v ([pkg/endpointregistry/registry.go])
    and EndpointTheorems.v; of [pkg/lifecycle], Lifecycle.v ([lifecycle.go],
    [config.go]) with Activation.v, LifecycleStatus.v ([status.go]) with
    StatusTheorems.v, and [coordinator.go] in two layers: Admission.v has every
    critical section and Coordinator.v every method.  Threads.v is a proof
    system for what a thread holds, CoordinatorFacts.v and CoordinatorStatus.v
    prove each method in it, CoordinatorSystem.v is the system of concurrent
    threads and its invariant, CoordinatorTheorems.v the theorems,
    CoordinatorWitnesses.v concrete runs, LifecycleStart.v the step from a
    validated document to a coordinator.

    Personal data, [pkg/pii]: Detector.v ([builtin.go] over Regex.v),
    PiiSession.v ([privacy.go], [stream.go]), PiiTheorems.v, PiiStream.v,
    PiiWitnesses.v.

    Gateway services: SecretSources.v ([pkg/credentials]) and Health.v
    ([pkg/gateway/health.go]) over it; UpstreamHeaders.v ([pkg/headers]);
    PromptCache.v ([pkg/promptcache],
    [pkg/gateway/promptcache.go]) with PromptCacheTheorems.v and
    PromptCacheWitnesses.v; Responses.v ([pkg/responsesstate]) and
    ProviderState.v (the requests that refer to it,
    [pkg/gateway/provider_state_selector.go]), against an interface that
    Responses.v implements; Ledger.v ([pkg/ledger/types.go]), AsyncWriter.v ([async.go]) and
    AsyncWriterTheorems.v; EventStream.v ([pkg/gateway/aws_eventstream.go]) with
    EventStreamTheorems.v.

    PlanWitnesses.v and CompiledWitnesses.v apply theorems to a concrete fleet
    and document.

    ** How the parts interact

    [Compile] (Validate.v) turns a document into the snapshot (Plan.v) that
    [BuildPlanFor] reads; the plan asks the target manager (Targets.v) who is
    eligible and a picker (Picker.v) for the order.  [serve_plan] (Attempts.v)
    acquires the candidates in that order, reserves retries (Retry.v) against
    the budget of the model (RetryBudget.v), reports the outcome to the circuit
    breaker, and writes the records (Ledger.v) that the asynchronous writer
    stores.  A dynamic deployment goes through the admission coordinator
    (Coordinator.v), which uses the endpoint registry (Endpoints.v), the
    controllers, and the activation coordinator (Lifecycle.v), so that one
    replica at a time starts a workload.  Before that, a bearer key gives the
    identity of the caller (ClientCredentials.v), which scopes prompt-cache
    affinity and the stored resources (Responses.v), and the model router
    chooses the model (ModelRouter.v), unless provider-owned state pins it
    (ProviderState.v), in which case the plan is pinned to its target.

    ** What the theorems show

    - A compiled document is the one validated, is well formed, routes every
      model and starts every component that runs it (Compiled.v,
      LifecycleStart.v); policy inheritance terminates and takes the nearest
      ancestor; effective policies are bounded (PrivacyFacts.v).
    - A plan has exactly the routable targets as candidates, in the order of
      preference, readiness, priority and class; empty plans are diagnosed, and
      every candidate can be acquired (PlanTheorems.v, Runtime.v).  Lemmas on
      the way: the weighted draw is fair, the rendezvous order stable.
    - Every run of the attempt loop follows its protocol, whatever its calls
      answer: leases, retries, timers and bodies are given back once, attempts
      are recorded in order and the request once, with the status that was sent
      (AttemptTheorems.v); composed with the real target manager and retry
      budget, a request leaves their counters as it found them
      (AttemptSystem.v).
    - Under every interleaving the counters of targets, retry budgets and
      admission queues are exact and within their limits; a half-open circuit
      has one probe; the ring buffer and the doubling loop refine a sliding
      window and a closed formula; circuits recover (TargetTheorems.v,
      RetryBudgetTheorems.v).
    - The coordinator never panics, gives back all it took whatever the outside
      answers, and leases only endpoints that fit and were authorized; claims
      are fenced and exclusive (CoordinatorTheorems.v, Activation.v).
    - Registrations are fenced, cursors round-trip, pages cover the listing and
      the walk over them ends (EndpointTheorems.v); published statuses are well
      typed (StatusTheorems.v).
    - The model router narrows the gateway's candidates, honours pins (outside
      the names of selectors), takes turns fairly and chooses best scores; its
      policy stays valid, publication is fenced by revisions, and discovery only
      fills gaps, conservatively (RouterTheorems.v).
    - A bearer key opens exactly what the keyring of issued keys grants,
      revocation is final, and the audit log explains the store
      (CredentialTheorems.v); the status of the sources of secrets tells what
      happened (SecretSources.v), and the health listing previews admission
      (Health.v).
    - The headers of an upstream request are the merge of what the gateway and
      the configuration set, and no value can smuggle one in (UpstreamHeaders.v).
    - Substituted personal data comes back, sessions stay within their limits,
      and a redacted stream is the redaction of its text (PiiTheorems.v,
      PiiStream.v).
    - The prompt-cache directory serves what its worker recorded
      (PromptCacheTheorems.v); bindings of stored resources are final and the
      pages of files cover them (Responses.v), and the state a request names
      pins its model and its target exactly when its references agree
      (ProviderState.v); the ledger writer accounts for
      every record and drains (AsyncWriterTheorems.v); event streams are framed
      and relayed faithfully (EventStreamTheorems.v).

    Where the code falls short of what it says, an example or a lemma shows it:
    [stale_admission_error_refuses], [pinned_selector_reroutes],
    [expired_record_conflicts], [cursor_refused], [pagination_stuck], and the
    examples of PiiWitnesses.v and PromptCacheWitnesses.v.

    ** Bounds and fuel

    [draw_group] gets as many rounds as the group has targets and removes one
    per round; [search] the length of its interval; [read_members] the length
    of its input, of which each round consumes a part; [make_room] and [evict]
    the number of entries, of which each round removes one; the walks over pages
    one round per registration or entry, which [pagination_complete] and
    [file_pages_cover] prove enough; the loops over texts and streams
    ([base32_bits], [decode_headers], [proxy_loop]) the length of their input;
    [ancestors_loop] two turns more than there are models, as it visits no name
    twice ([ancestors_enough_fuel]); [merge_parameters] the longest text of the
    overlay, as the members of an object are shorter than its text
    ([merge_enough_fuel]).  The polling loops of the coordinator may
    run forever and are [ITree.iter]; theorems about them are about every finite
    prefix.  Counters that the source keeps in an [int] and only moves by one
    are unbounded integers.

    ** Not modelled

    The translations between the chat dialects of providers and the other HTTP
    handlers are JSON and streaming glue around the calls modelled here; of
    [chatCompletionsHandler.ServeHTTP] the pins of provider-owned state
    (ProviderState.v) and the part from the plan to the answer are modelled, the
    reading of the request before them is not.  The encrypted
    storage of PII mappings and the traversal of JSON bodies, stores in SQL and
    files, external services (catalogs, workload managers, OAuth), telemetry,
    the admin interface and process setup are input and output.  Of the
    document its JSON codec is left out, but for what [CloneProfileValue] makes
    of a value.  The JSON columns of the SQLite store of credentials are read
    back as they were written, which holds for UTF-8.  The
    router's own policy is modelled, but not how the text and the tool history
    of a request are read out of its JSON.  What is left would mostly model JSON values and HTTP messages
    as the standard library decodes them, which the repository does not
    contain. *)

From stdpp Require Import base tactics option list gmap strings sorting.
From Stdlib Require Import ZArith Lia SpecFloat.

(** The scope of the development's own notations. *)
Declare Scope go_scope.
Delimit Scope go_scope with go.

Create HintDb go_db.
Create Rewrite HintDb go_db.

(** ** Machine integers

    Go's [int] and [int64] are 64-bit two's complement; [uint64] is 64-bit
    unsigned.  A value is a [Z]; an operation that the source performs without
    a guard is wrapped explicitly. *)
Section MachineIntegers.
Local Open Scope Z_scope.

Definition MaxInt64 : Z := 9223372036854775807.
Definition MinInt64 : Z := -9223372036854775808.

(** The two's complement wrap of a mathematical integer. *)
Definition int64 (z : Z) : Z := (z - MinInt64) mod 18446744073709551616 + MinInt64.

Definition uint64 (z : Z) : Z := z mod 18446744073709551616.

Arguments int64 : simpl never.
Arguments uint64 : simpl never.

Definition is_int64 (z : Z) : Prop := MinInt64 <= z <= MaxInt64.

Lemma int64_id z : is_int64 z -> int64 z = z.
Proof.
  unfold is_int64, int64, MinInt64, MaxInt64. intros H.
  rewrite Z.mod_small; lia.
Qed.

Lemma int64_bounds z : is_int64 (int64 z).
Proof.
  unfold is_int64, int64, MinInt64, MaxInt64.
  pose proof (Z.mod_pos_bound (z - -9223372036854775808) 18446744073709551616).
  lia.
Qed.

Definition is_uint64 (z : Z) : Prop := 0 <= z < 18446744073709551616.

Lemma uint64_id z : is_uint64 z -> uint64 z = z.
Proof. apply Z.mod_small. Qed.

Lemma uint64_bounds z : is_uint64 (uint64 z).
Proof. apply Z.mod_pos_bound. lia. Qed.
End MachineIntegers.

Lemma uint64_add a b : uint64 (uint64 a + b) = uint64 (a + b).
Proof. unfold uint64. by rewrite Z.add_mod_idemp_l. Qed.

Lemma int64_add a b : int64 (int64 a + b) = int64 (a + b).
Proof.
  unfold int64. generalize MinInt64 as lo, 18446744073709551616%Z as width. intros lo width.
  replace ((a - lo) mod width + lo + b - lo)%Z with ((a - lo) mod width + b)%Z by ring.
  rewrite Zplus_mod_idemp_l. do 2 f_equal. ring.
Qed.

#[global] Opaque int64 uint64.

#[export] Hint Resolve int64_bounds uint64_bounds : go_db.
#[export] Hint Rewrite int64_id uint64_id
  using (unfold is_int64, is_uint64, MinInt64, MaxInt64 in *; lia) : go_db.

(** ** Time

    [time.Duration] is an [int64] count of nanoseconds.  [time.Time] is the
    number of nanoseconds since Go's zero time, so [time.Time{}] is [0]; its
    range (292 billion years) is not bounded here. *)
Section Time.
Local Open Scope Z_scope.
Definition Nanosecond : Z := 1.
Definition Millisecond : Z := 1000000.
Definition Second : Z := 1000000000.
Definition Minute : Z := 60 * Second.
Definition Hour : Z := 60 * Minute.

Definition time_Before (t u : Z) : bool := t <? u.
Definition time_Add (t d : Z) : Z := t + d.
Definition time_IsZero (t : Z) : bool := t =? 0.

(** [Time.Sub] saturates at the bounds of a [Duration]. *)
Definition time_Sub (t u : Z) : Z := Z.max MinInt64 (Z.min MaxInt64 (t - u)).
End Time.

(** ** Capped doubling

    The loop by which the source doubles a duration per repetition up to a
    maximum, [n] iterations left:
    [if d >= max || d > max/2 { return max }; d *= 2], and the cap after it. *)
Section Doubling.
Local Open Scope Z_scope.

Fixpoint doubling_loop (n : nat) (d maximum : Z) : Z :=
  match n with
  | O => if maximum <? d then maximum else d
  | S n' =>
      if (maximum <=? d) || (Z.quot maximum 2 <? d) then maximum
      else doubling_loop n' (int64 (d * 2)) maximum
  end.

(** It never overflows, and computes the capped power of two. *)
Lemma doubling_loop_spec n d maximum :
  0 < d -> 0 < maximum <= MaxInt64 ->
  doubling_loop n d maximum = Z.min maximum (d * 2 ^ Z.of_nat n).
Proof.
  intros Hd Hm. revert d Hd. induction n as [|n IH]; intros d Hd.
  - simpl. rewrite Z.mul_1_r. destruct (Z.ltb_spec maximum d); lia.
  - cbn [doubling_loop]. rewrite Nat2Z.inj_succ, Z.pow_succ_r by lia.
    pose proof (Z.pow_pos_nonneg 2 (Z.of_nat n)). rewrite Z.quot_div_nonneg by lia.
    pose proof (Z.div_mod maximum 2). pose proof (Z.mod_pos_bound maximum 2).
    destruct (Z.leb_spec maximum d); simpl; [nia|].
    destruct (Z.ltb_spec (maximum / 2) d); simpl.
    { rewrite Z.min_l; [done|]. nia. }
    rewrite int64_id by (unfold is_int64, MinInt64; lia). rewrite IH by lia.
    f_equal. ring.
Qed.
End Doubling.

(** ** float64

    IEEE-754 binary64 as the Standard Library's [SpecFloat] defines it: round
    to nearest even on 53 bits. *)
Section Float.
Local Open Scope Z_scope.

Definition float64 : Type := spec_float.
Definition f64_of_int (z : Z) : float64 := binary_normalize 53 1024 z 0 false.
Definition f64_mul : float64 -> float64 -> float64 := SFmul 53 1024.
Definition f64_div : float64 -> float64 -> float64 := SFdiv 53 1024.
Definition f64_add : float64 -> float64 -> float64 := SFadd 53 1024.
Definition f64_neg : float64 -> float64 := SFopp.
Definition f64_lt : float64 -> float64 -> bool := SFltb.
Definition f64_le : float64 -> float64 -> bool := SFleb.
Definition f64_eq : float64 -> float64 -> bool := SFeqb.
Definition f64_zero : float64 := S754_zero false.

(** [int(math.Ceil(x))].  The conversion of a value outside [int64] (or of a
    NaN) is implementation-defined in Go; the value written here is the one
    amd64 produces, [math.MinInt64]. *)
Definition f64_ceil_int (x : float64) : Z :=
  let clamp z := if (MinInt64 <=? z) && (z <=? MaxInt64) then z else MinInt64 in
  match x with
  | S754_zero _ => 0
  | S754_finite s m e =>
      let v := if s then Z.neg m else Z.pos m in
      clamp (if 0 <=? e then v * 2 ^ e else - ((- v) / 2 ^ (- e)))
  | S754_infinity _ | S754_nan => MinInt64
  end.
End Float.

Example f64_ratio_rounds_up :
  f64_ceil_int (f64_mul (f64_of_int 11) (S754_finite false 7205759403792794 (-55))) = 3%Z.
Proof. vm_compute. reflexivity. Qed.

(** The order of binary64 values: [f64_key] maps a value other than NaN to a
    triple whose lexicographic order is [SFcompare]. *)
Section FloatOrder.
Local Open Scope Z_scope.

Definition f64_key (x : float64) : Z * Z * Z :=
  match x with
  | S754_nan => (0, 0, 0)
  | S754_zero _ => (0, 0, 0)
  | S754_infinity s => (if s then -2 else 2, 0, 0)
  | S754_finite false m e => (1, e, Z.pos m)
  | S754_finite true m e => (-1, - e, - Z.pos m)
  end.

Definition lex_lt (x y : Z * Z * Z) : bool :=
  let '(a, b, c) := x in
  let '(a', b', c') := y in
  (a <? a') || ((a =? a') && ((b <? b') || ((b =? b') && (c <? c')))).

Definition is_nan (x : float64) : bool :=
  match x with S754_nan => true | _ => false end.

Lemma f64_lt_key x y :
  is_nan x = false -> is_nan y = false -> f64_lt x y = lex_lt (f64_key x) (f64_key y).
Proof.
  unfold f64_lt, SFltb, lex_lt.
  destruct x as [[]|[]| |[] m e], y as [[]|[]| |[] m' e']; cbn -[Z.opp]; try discriminate; intros _ _;
    try reflexivity;
    change (Pos.compare_cont Eq m m') with (Pos.compare m m');
    destruct (Z.compare_spec e e'), (Pos.compare_spec m m'); cbn -[Z.opp]; subst; lia.
Qed.

Lemma f64_eq_key x y :
  is_nan x = false -> is_nan y = false ->
  f64_eq x y = negb (lex_lt (f64_key x) (f64_key y)) && negb (lex_lt (f64_key y) (f64_key x)).
Proof.
  unfold f64_eq, SFeqb, lex_lt.
  destruct x as [[]|[]| |[] m e], y as [[]|[]| |[] m' e']; cbn -[Z.opp]; try discriminate; intros _ _;
    try reflexivity;
    change (Pos.compare_cont Eq m m') with (Pos.compare m m');
    destruct (Z.compare_spec e e'), (Pos.compare_spec m m'); cbn -[Z.opp]; subst; lia.
Qed.
End FloatOrder.

(** Which operations can produce a NaN or a zero. *)
Section FloatRange.
Local Open Scope Z_scope.

Lemma iter_pos_iter {A} (f : A -> A) n x : iter_pos f n x = Nat.iter (Pos.to_nat n) f x.
Proof.
  revert x. induction n as [n IH|n IH|]; intros x; cbn [iter_pos]; [| |done].
  - rewrite !IH, <- Nat.iter_add, <- Nat.iter_succ_r.
    by replace (Pos.to_nat n~1) with (S (Pos.to_nat n + Pos.to_nat n)) by lia.
  - rewrite !IH, <- Nat.iter_add.
    by replace (Pos.to_nat n~0) with (Pos.to_nat n + Pos.to_nat n)%nat by lia.
Qed.

Lemma shr_1_bounds s :
  0 <= shr_m s ->
  0 <= shr_m (shr_1 s) /\ Zdigits2 (shr_m s) - 1 <= Zdigits2 (shr_m (shr_1 s)).
Proof.
  destruct s as [[|[p|p|]|p] r b]; simpl; intros; try lia; split; try done; lia.
Qed.

Lemma shr_bounds n s :
  0 <= shr_m s ->
  0 <= shr_m (Nat.iter n shr_1 s) /\
  Zdigits2 (shr_m s) - Z.of_nat n <= Zdigits2 (shr_m (Nat.iter n shr_1 s)).
Proof.
  intros Hs. induction n as [|n [IH1 IH2]]; simpl; [lia|].
  destruct (shr_1_bounds _ IH1). lia.
Qed.

Lemma shr_m_of_loc m l : shr_m (shr_record_of_loc m l) = m.
Proof. by destruct l as [|[]]. Qed.

(** A shift to the format of binary64 keeps the sign, and a positive number
    that is not subnormal stays positive. *)
Lemma shr_fexp_bounds m e l :
  0 <= m ->
  let '(mrs, e') := shr_fexp 53 1024 m e l in
  0 <= shr_m mrs /\ e <= e' /\ (0 < m -> -1022 <= e -> 0 < shr_m mrs).
Proof.
  intros Hm. unfold shr_fexp, shr, fexp, emin.
  set (n := Z.max _ _ - e). destruct n as [|p|p] eqn:En; rewrite ?shr_m_of_loc; [lia| |lia].
  rewrite iter_pos_iter. destruct (shr_bounds (Pos.to_nat p) (shr_record_of_loc m l)) as [H1 H2];
    [by rewrite shr_m_of_loc|]. rewrite shr_m_of_loc in H2.
  split; [done|]. split; [lia|]. intros Hp He.
  assert (Hd : 1 <= Zdigits2 m) by (destruct m; simpl; lia).
  destruct (shr_m (Nat.iter (Pos.to_nat p) shr_1 (shr_record_of_loc m l))) eqn:E; simpl in *; lia.
Qed.

Lemma round_bounds m l :
  0 <= m -> 0 <= round_nearest_even m l /\ (0 < m -> 0 < round_nearest_even m l).
Proof. intros Hm. destruct l as [|[]]; simpl; try destruct (Z.even m); lia. Qed.

Definition is_zero (x : float64) : bool := match x with S754_zero _ => true | _ => false end.

Lemma binary_round_aux_range s m e l :
  0 <= m ->
  is_nan (binary_round_aux 53 1024 s m e l) = false /\
  (0 < m -> -1022 <= e -> is_zero (binary_round_aux 53 1024 s m e l) = false).
Proof.
  intros Hm. unfold binary_round_aux.
  pose proof (shr_fexp_bounds m e l Hm) as H1. destruct (shr_fexp _ _ m e l) as [r1 e1].
  destruct H1 as (A1 & A2 & A3).
  destruct (round_bounds (shr_m r1) (loc_of_shr_record r1) A1) as [B1 B2].
  pose proof (shr_fexp_bounds _ e1 loc_Exact B1) as H2. destruct (shr_fexp _ _ _ e1 _) as [r2 e2].
  destruct H2 as (C1 & C2 & C3).
  destruct (shr_m r2) as [|p|p] eqn:E; simpl; [|by destruct (_ <=? _)|lia].
  split; [done|]. intros Hp He. specialize (C3 (B2 (A3 Hp He)) ltac:(lia)). lia.
Qed.

(** A positive integer converts to neither a NaN nor a zero. *)
Lemma f64_of_int_pos z :
  0 < z -> is_nan (f64_of_int z) = false /\ is_zero (f64_of_int z) = false.
Proof.
  destruct z as [|m|]; try done. intros _. unfold f64_of_int, binary_normalize, binary_round.
  unfold shl_align. destruct (_ - 0) as [|p|p] eqn:E.
  1, 2: destruct (binary_round_aux_range false (Z.pos m) 0 loc_Exact) as [H1 H2];
    [done|split; [done|by apply H2]].
  set (e := fexp _ _ _) in *. assert (He : -1022 <= e) by (unfold e, fexp, emin; lia).
  destruct (binary_round_aux_range false (Z.pos (Pos.iter xO m p)) e loc_Exact) as [H1 H2];
    [done|split; [done|by apply H2]].
Qed.

Lemma f64_div_not_nan x y :
  (match x with S754_zero _ | S754_finite _ _ _ => True | _ => False end) ->
  is_nan y = false -> is_zero y = false -> is_nan (f64_div x y) = false.
Proof.
  unfold f64_div. destruct x as [| | |s m e], y as [| | |s' m' e']; try done.
  intros _ _ _. cbn [SFdiv]. unfold SFdiv_core_binary.
  set (k := match _ with Z0 => _ | Z.pos _ => _ | Z.neg _ => _ end).
  assert (Hk : 0 <= k).
  { unfold k. destruct (_ - _ - _); [lia| |lia]. apply Z.shiftl_nonneg. lia. }
  pose proof (Z.div_eucl_eq k (Z.pos m')) as Hq. pose proof (Z_div_pos k (Z.pos m')) as Hd.
  unfold Z.div in Hd. destruct (Z.div_eucl k (Z.pos m')) as [q r].
  apply binary_round_aux_range. lia.
Qed.
End FloatRange.

(** ** Sorting

    [sort.SliceStable less] and, where [less] is total on the elements,
    [sort.Slice less] and [sort.Strings]: a stable insertion sort. *)
Class StrictWeakOrder {A : Type} (less : A -> A -> bool) : Prop := {
  less_asym x y : less x y = true -> less y x = false;
  less_neg_trans x y z : less y x = false -> less z y = false -> less z x = false;
}.

Section StableSort.
Context {A : Type} (less : A -> A -> bool).

Fixpoint insert_by (x : A) (l : list A) : list A :=
  match l with
  | [] => [x]
  | y :: l' => if less y x then y :: insert_by x l' else x :: l
  end.

Definition stable_sort (l : list A) : list A := foldr insert_by [] l.

Definition sorted_by : list A -> Prop := StronglySorted (fun x y => less y x = false).

Lemma insert_by_Permutation x l : insert_by x l ≡ₚ x :: l.
Proof.
  induction l as [|y l IH]; simpl; [done|].
  destruct (less y x); [|done]. rewrite IH. apply Permutation_swap.
Qed.

Lemma stable_sort_Permutation l : stable_sort l ≡ₚ l.
Proof.
  induction l as [|x l IH]; simpl; [done|]. by rewrite insert_by_Permutation, IH.
Qed.

Lemma insert_by_filter_false (P : A -> bool) x l :
  P x = false -> List.filter P (insert_by x l) = List.filter P l.
Proof.
  intros Hx. induction l as [|y l IH]; simpl; [by rewrite Hx|].
  destruct (less y x); simpl; [by rewrite IH|by rewrite Hx].
Qed.

(** Elements that [less] does not separate keep their order. *)
Lemma stable_sort_stable (P : A -> bool) l :
  (forall x y, P x = true -> P y = true -> less x y = false) ->
  List.filter P (stable_sort l) = List.filter P l.
Proof.
  intros HP. induction l as [|x l IH]; simpl; [done|].
  destruct (P x) eqn:Hx; [|by rewrite insert_by_filter_false].
  rewrite <- IH. clear IH. induction (stable_sort l) as [|y s IH]; simpl; [by rewrite Hx|].
  destruct (less y x) eqn:Hyx; simpl; [|by rewrite Hx].
  destruct (P y) eqn:Hy; [by rewrite (HP y x) in Hyx|done].
Qed.

Context `{!StrictWeakOrder less}.

Lemma insert_by_sorted x l : sorted_by l -> sorted_by (insert_by x l).
Proof.
  unfold sorted_by. induction 1 as [|y l Hl IH Hy]; simpl; [by repeat constructor|].
  destruct (less y x) eqn:Hyx; constructor.
  - done.
  - rewrite insert_by_Permutation. constructor; [by apply less_asym|done].
  - by constructor.
  - constructor; [done|]. eapply Forall_impl; [exact Hy|].
    intros z Hz. by apply (less_neg_trans x y z).
Qed.

Lemma stable_sort_sorted l : sorted_by (stable_sort l).
Proof.
  induction l as [|x l IH]; simpl; [constructor|]. by apply insert_by_sorted.
Qed.

Lemma stable_sort_id l : sorted_by l -> stable_sort l = l.
Proof.
  induction 1 as [|x l Hl IH Hx]; simpl; [done|]. rewrite IH.
  destruct Hx as [|y l Hy ?]; simpl; [done|]. by rewrite Hy.
Qed.

Lemma insert_by_head x l : Forall (fun y => less y x = false) l -> insert_by x l = x :: l.
Proof. destruct 1 as [|y l Hy ?]; simpl; [done|]. by rewrite Hy. Qed.

(** A stable sort refines the order the list was already in. *)
Lemma stable_sort_lex (R : A -> A -> Prop) l :
  StronglySorted R l ->
  StronglySorted (fun x y => less y x = false /\ (less x y = false -> R x y)) (stable_sort l).
Proof.
  induction 1 as [|x l Hl IH Hx]; simpl; [constructor|].
  assert (Hs : Forall (R x) (stable_sort l)) by (by rewrite stable_sort_Permutation).
  clear Hl Hx. induction IH as [|y s Hys IH Hy]; simpl; [by repeat constructor|].
  inversion Hs as [|? ? Hxy Hxs]; subst. specialize (IH Hxs).
  destruct (less y x) eqn:Hyx; constructor.
  - done.
  - rewrite insert_by_Permutation. constructor; [|done]. split; [by apply less_asym|congruence].
  - by constructor.
  - constructor; [done|]. apply Forall_forall. intros z Hz.
    rewrite Forall_forall in Hy, Hxs. destruct (Hy z Hz) as [Hzy _].
    split; [by apply (less_neg_trans x y z)|]. intros _. by apply Hxs.
Qed.

(** Sorting commutes with dropping elements. *)
Lemma stable_sort_filter (P : A -> bool) l :
  List.filter P (stable_sort l) = stable_sort (List.filter P l).
Proof.
  induction l as [|x l IH]; simpl; [done|].
  destruct (P x) eqn:Hx; simpl; [|by rewrite insert_by_filter_false].
  rewrite <- IH. clear IH. pose proof (stable_sort_sorted l) as Hs.
  induction Hs as [|y s Hs IH Hy]; simpl; [by rewrite Hx|].
  destruct (less y x) eqn:Hyx; simpl.
  - destruct (P y) eqn:Py; simpl; [by rewrite Hyx, IH|done].
  - rewrite Hx.
    assert (Hall : Forall (fun z => less z x = false) (List.filter P s)).
    { apply List.Forall_forall. intros z Hz%filter_In.
      apply (less_neg_trans x y z); [done|].
      eapply List.Forall_forall in Hy; [exact Hy|]. apply Hz. }
    destruct (P y); symmetry; apply insert_by_head; [by constructor|done].
Qed.
End StableSort.

#[export] Instance Zkey_order {A} (key : A -> Z) :
  StrictWeakOrder (fun x y => Z.ltb (key x) (key y)).
Proof. split; intros; lia. Qed.

Lemma string_ltb_false x y : String.ltb y x = false <-> String.le x y.
Proof.
  unfold String.le, String.ltb, String.leb. rewrite (String.compare_antisym x y).
  by destruct (y ?= x)%string.
Qed.

#[export] Instance string_order : StrictWeakOrder String.ltb.
Proof.
  split.
  - intros x y. unfold String.ltb. rewrite (String.compare_antisym y x).
    by destruct (x ?= y)%string.
  - intros x y z Hyx%string_ltb_false Hzy%string_ltb_false.
    apply string_ltb_false. by transitivity y.
Qed.

(** A comparison by one key, ties broken by another. *)
Definition lex_less {A} (first second : A -> A -> bool) (x y : A) : bool :=
  first x y || (negb (first y x) && second x y).

#[export] Instance lex_order {A} (first second : A -> A -> bool) :
  StrictWeakOrder first -> StrictWeakOrder second -> StrictWeakOrder (lex_less first second).
Proof.
  unfold lex_less. intros [As Nt] [As' Nt']. split.
  - intros x y. specialize (As x y). specialize (As' x y).
    destruct (first x y), (first y x), (second x y), (second y x); naive_solver.
  - intros x y z. pose proof (As x y). pose proof (As y x). pose proof (As y z).
    pose proof (As z y). pose proof (As x z). pose proof (As z x).
    pose proof (Nt x y z). pose proof (Nt z y x). pose proof (Nt y x z). pose proof (Nt x z y).
    pose proof (Nt y z x). pose proof (Nt z x y). pose proof (Nt' x y z).
    destruct (first x y), (first y x), (first y z), (first z y), (first x z), (first z x);
      simpl in *; try naive_solver.
Qed.

(** A comparison of images under [f]. *)
#[export] Instance preimage_order {A B} (f : A -> B) (less : B -> B -> bool) :
  StrictWeakOrder less -> StrictWeakOrder (fun x y => less (f x) (f y)).
Proof.
  intros [As Nt]. split; [intros x y; apply As|]. intros x y z. apply (Nt (f x) (f y) (f z)).
Qed.

#[export] Instance lex_lt_order : StrictWeakOrder lex_lt.
Proof. split; intros; repeat match goal with x : _ * _ |- _ => destruct x end; unfold lex_lt in *; lia. Qed.

Section SortMap.
Context {A B : Type}.

Lemma stable_sort_fmap (lessA : A -> A -> bool) (lessB : B -> B -> bool) (f : A -> B) l :
  (forall x y, lessB (f x) (f y) = lessA x y) ->
  stable_sort lessB (f <$> l) = f <$> stable_sort lessA l.
Proof.
  intros Hf. induction l as [|x l IH]; [done|].
  change (insert_by lessB (f x) (stable_sort lessB (f <$> l))
    = f <$> insert_by lessA x (stable_sort lessA l)).
  rewrite IH. clear IH. induction (stable_sort lessA l) as [|y s IH]; [done|].
  rewrite fmap_cons. cbn [insert_by]. rewrite Hf. destruct (lessA y x); [|done].
  by rewrite fmap_cons, IH.
Qed.

(** Comparisons that agree on the elements sort alike. *)
Lemma stable_sort_ext (less less' : A -> A -> bool) l :
  (forall x y, x ∈ l -> y ∈ l -> less x y = less' x y) ->
  stable_sort less l = stable_sort less' l.
Proof.
  induction l as [|x l IH]; simpl; intros H; [done|].
  rewrite <- IH by (intros; apply H; by right).
  assert (Hs : forall y, y ∈ stable_sort less l -> less y x = less' y x).
  { intros y Hy. rewrite stable_sort_Permutation in Hy. apply H; [by right|by left]. }
  clear IH H. induction (stable_sort less l) as [|y s IH]; simpl; [done|].
  rewrite <- Hs by (by left). destruct (less y x); [|done]. f_equal. apply IH.
  intros z Hz. apply Hs. by right.
Qed.
End SortMap.

(** [sort.Strings] *)
Definition sort_Strings : list string -> list string := stable_sort String.ltb.

Lemma sort_Strings_Permutation l : sort_Strings l ≡ₚ l.
Proof. apply stable_sort_Permutation. Qed.

#[export] Hint Resolve stable_sort_Permutation sort_Strings_Permutation : go_db.

(** ** Sums over lists *)
Section Sums.
Local Open Scope Z_scope.

Fixpoint zsum {A} (f : A -> Z) (l : list A) : Z :=
  match l with
  | [] => 0
  | x :: l => f x + zsum f l
  end.

Lemma zsum_app {A} (f : A -> Z) l k : zsum f (l ++ k) = zsum f l + zsum f k.
Proof. induction l as [|x l IH]; cbn; [done|]. rewrite IH. lia. Qed.

#[export] Instance zsum_perm {A} (f : A -> Z) : Proper ((≡ₚ) ==> (=)) (zsum f).
Proof. induction 1; cbn; lia. Qed.

Lemma zsum_ext {A} (f g : A -> Z) l : (forall x, f x = g x) -> zsum f l = zsum g l.
Proof. intros Hfg. induction l as [|x l IH]; cbn; [done|]. by rewrite Hfg, IH. Qed.

Lemma zsum_fmap {A B} (f : B -> Z) (g : A -> B) l : zsum f (g <$> l) = zsum (fun x => f (g x)) l.
Proof. induction l as [|x l IH]; cbn; [done|]. by rewrite IH. Qed.
End Sums.

(** ** Effects

    A step of the program that reads and changes a world [W] and may return
    early with an error [E]. *)
Definition M (W E A : Type) : Type := W -> (E + A) * W.

#[export] Instance M_ret {W E} : MRet (M W E) := fun _ a w => (inr a, w).
#[export] Instance M_bind {W E} : MBind (M W E) := fun _ _ f m w =>
  match m w with
  | (inr a, w') => f a w'
  | (inl e, w') => (inl e, w')
  end.

Definition throw {W E A} (e : E) : M W E A := fun w => (inl e, w).

(** A read or update of the world that cannot fail. *)
Definition act {W E A} (f : W -> A * W) : M W E A := fun w => let '(a, w') := f w in (inr a, w').

(** The source's [for] loops with an accumulator and an early return. *)
Fixpoint for_each {W E A B} (f : B -> A -> M W E B) (b : B) (l : list A) : M W E B :=
  match l with
  | [] => mret b
  | a :: l' => f b a ≫= fun b' => for_each f b' l'
  end.

Lemma bind_inr {W E A B} (m : M W E A) (f : A -> M W E B) w b w'' :
  (m ≫= f) w = (inr b, w'') <->
  exists a w', m w = (inr a, w') /\ f a w' = (inr b, w'').
Proof.
  unfold mbind, M_bind. destruct (m w) as [[e|a] w'] eqn:Hm.
  - split; [done|]. intros (a & v & Hv & _). simplify_eq.
  - split; [eauto|]. intros (a' & v & Hv & H). by simplify_eq.
Qed.

(** The outcome of a step: [Q] holds of a result and the world after it, [QE]
    of an error. *)
Definition wp {W E A} (m : M W E A) (QE : E -> W -> Prop) (Q : A -> W -> Prop) (w : W) : Prop :=
  match m w with
  | (inr a, w') => Q a w'
  | (inl e, w') => QE e w'
  end.

Section EffectLemmas.
Context {W E : Type} (QE : E -> W -> Prop).

Lemma wp_ret {A} (a : A) Q w : Q a w -> wp (mret a) QE Q w.
Proof. done. Qed.

Lemma wp_throw {A} (e : E) (Q : A -> W -> Prop) w : QE e w -> wp (throw e) QE Q w.
Proof. done. Qed.

Lemma wp_act {A} (f : W -> A * W) Q w : Q (f w).1 (f w).2 -> wp (E := E) (act f) QE Q w.
Proof. unfold wp, act. by destruct (f w). Qed.

Lemma wp_bind {A B} (m : M W E A) (f : A -> M W E B) Q w :
  wp m QE (fun a => wp (f a) QE Q) w -> wp (m ≫= f) QE Q w.
Proof. unfold wp, mbind, M_bind. by destruct (m w) as [[e|a] w']. Qed.

Lemma wp_mono {A} (m : M W E A) (Q Q' : A -> W -> Prop) w :
  wp m QE Q w -> (forall a w', Q a w' -> Q' a w') -> wp m QE Q' w.
Proof. unfold wp. destruct (m w) as [[e|a] w']; auto. Qed.

(** A loop invariant: [I prefix b w] holds of the accumulator and the world
    after a prefix of the list. *)
Lemma wp_for_each {A B} (I : list A -> B -> W -> Prop) (f : B -> A -> M W E B) l b0 w :
  I [] b0 w ->
  (forall prefix a rest b w, l = prefix ++ a :: rest -> I prefix b w ->
     wp (f b a) QE (I (prefix ++ [a])) w) ->
  wp (for_each f b0 l) QE (I l) w.
Proof.
  intros H0 Hstep.
  enough (H : forall prefix rest b w, l = prefix ++ rest -> I prefix b w ->
     wp (for_each f b rest) QE (I l) w) by (by apply (H [])).
  clear H0 b0 w. intros prefix rest. revert prefix.
  induction rest as [|a rest IH]; intros prefix b w Hl HI; simpl.
  - by rewrite Hl, app_nil_r.
  - apply wp_bind. eapply wp_mono; [by eapply Hstep|]. intros b' w' HI'.
    apply (IH (prefix ++ [a])); [by rewrite <- app_assoc|done].
Qed.
End EffectLemmas.

(** ** Validation errors

    A Go [error] is its text without the formatted operands; [None] is [nil]. *)
Definition fail_if (b : bool) (msg : string) : option string := if b then Some msg else None.

(** [fmt.Errorf("<prefix>%w", err)] *)
Definition wrap (prefix : string) (e : option string) : option string :=
  String.append prefix <$> e.

(** The first error of a sequence of checks. *)
Fixpoint first_error (l : list (option string)) : option string :=
  match l with
  | [] => None
  | Some e :: _ => Some e
  | None :: l => first_error l
  end.

Definition check_all {A} (f : A -> option string) (l : list A) : option string :=
  first_error (f <$> l).

(** [if err := e; err != nil { return err }], then [k]. *)
Definition check_then {A} (e : option string) (k : string + A) : string + A :=
  match e with Some err => inl err | None => k end.

#[global] Notation "e ?; k" := (check_then e k) (at level 100, right associativity) : go_scope.

(** A loop with an accumulator that may return an error. *)
Fixpoint scan {A S} (step : S -> A -> string + S) (s : S) (l : list A) : string + S :=
  match l with
  | [] => inr s
  | a :: l => match step s a with inl e => inl e | inr s => scan step s l end
  end.

(** The error of a check that also computes. *)
Definition error_of {A} (r : string + A) : option string :=
  match r with inl e => Some e | inr _ => None end.

Section ErrorLemmas.
Lemma fail_if_None b msg : fail_if b msg = None <-> b = false.
Proof. by destruct b. Qed.

Lemma wrap_None prefix e : wrap prefix e = None <-> e = None.
Proof. by destruct e. Qed.

Lemma first_error_cons e l : first_error (e :: l) = None <-> e = None /\ first_error l = None.
Proof. destruct e; simpl; naive_solver. Qed.

Lemma first_error_nil : first_error [] = None <-> True.
Proof. done. Qed.

Lemma check_all_None {A} (f : A -> option string) l :
  check_all f l = None <-> Forall (fun a => f a = None) l.
Proof.
  unfold check_all. induction l as [|a l IH]; [done|].
  rewrite fmap_cons, first_error_cons, IH, Forall_cons. done.
Qed.

Lemma check_then_inr {A} e (k : string + A) a : check_then e k = inr a <-> e = None /\ k = inr a.
Proof. destruct e; simpl; naive_solver. Qed.

Lemma error_of_None {A} (r : string + A) : error_of r = None <-> exists a, r = inr a.
Proof. destruct r; simpl; naive_solver. Qed.

Context {A S : Type} (step : S -> A -> string + S).

Lemma scan_app s l k :
  scan step s (l ++ k) = match scan step s l with inl e => inl e | inr s => scan step s k end.
Proof. revert s. induction l as [|a l IH]; intros s; simpl; [done|]. by destruct (step s a). Qed.

(** A loop invariant of [scan]. *)
Lemma scan_invariant (I : list A -> S -> Prop) s l s' :
  I [] s ->
  (forall prefix a s s', I prefix s -> step s a = inr s' -> I (prefix ++ [a]) s') ->
  scan step s l = inr s' -> I l s'.
Proof.
  intros H0 Hstep. revert s'. induction l as [|a l IH] using rev_ind; intros s'.
  - simpl. by intros [= <-].
  - rewrite scan_app. destruct (scan step s l) as [e|s1] eqn:E; [done|]. simpl.
    destruct (step s1 a) as [e|s2] eqn:E2; [done|]. intros [= <-]. eauto.
Qed.

(** When [scan] succeeds. *)
Lemma scan_snoc s l a s' :
  scan step s (l ++ [a]) = inr s' <-> exists s1, scan step s l = inr s1 /\ step s1 a = inr s'.
Proof.
  rewrite scan_app. destruct (scan step s l) as [e|s1]; simpl.
  - split; [done|]. by intros (s1 & ? & _).
  - split.
    + intros H. exists s1. by destruct (step s1 a).
    + intros (s2 & [= <-] & ->). done.
Qed.
End ErrorLemmas.

#[export] Hint Rewrite fail_if_None wrap_None first_error_cons first_error_nil @check_all_None
  @check_then_inr @error_of_None : go_db.

(** ** Lists *)
Definition count_true (l : list bool) : Z := foldr (fun (b : bool) n => (if b then 1 else 0) + n)%Z 0%Z l.

(** The number of elements that satisfy a test. *)
Definition count_if {A} (P : A -> bool) (l : list A) : Z := count_true (P <$> l).

Section ListLemmas.
Context {A : Type}.

Lemma count_true_app l k : count_true (l ++ k) = (count_true l + count_true k)%Z.
Proof. induction l; simpl; lia. Qed.

Lemma count_if_snoc (P : A -> bool) l x :
  count_if P (l ++ [x]) = (count_if P l + if P x then 1 else 0)%Z.
Proof. unfold count_if. rewrite fmap_app, count_true_app. simpl. lia. Qed.

Lemma count_true_bounds l : (0 <= count_true l <= Z.of_nat (length l))%Z.
Proof. induction l as [|[] l IH]; simpl; lia. Qed.

Lemma filter_split_Permutation (P : A -> bool) l :
  List.filter P l ++ List.filter (fun x => negb (P x)) l ≡ₚ l.
Proof.
  induction l as [|x l IH]; simpl; [done|].
  destruct (P x); simpl; [by rewrite IH|]. by rewrite <- Permutation_middle, IH.
Qed.

Lemma filter_Permutation (f : A -> bool) l l' : l ≡ₚ l' -> List.filter f l ≡ₚ List.filter f l'.
Proof.
  induction 1; cbn; repeat match goal with |- context [f ?x] => destruct (f x) end; try done.
  - by constructor.
  - by constructor.
  - by etransitivity.
Qed.

Lemma filter_sublist (f : A -> bool) l : List.filter f l `sublist_of` l.
Proof.
  induction l as [|x l IH]; cbn; [constructor|]. by destruct (f x); constructor.
Qed.

Lemma StronglySorted_lookup (R : A -> A -> Prop) l i j x y :
  StronglySorted R l -> i < j -> l !! i = Some x -> l !! j = Some y -> R x y.
Proof.
  intros Hs. revert i j. induction Hs as [|z l Hl IH Hz]; intros i j Hij Hi Hj; [done|].
  destruct j as [|j]; [lia|]. destruct i as [|i]; simpl in Hi, Hj.
  - injection Hi as ->. rewrite Forall_forall in Hz. by apply Hz, (list_elem_of_lookup_2 _ j).
  - apply (IH i j); [lia|done..].
Qed.

(** The last [n] elements. *)
Definition last_n (n : nat) (l : list A) : list A := drop (length l - n) l.

Lemma length_last_n n l : length (last_n n l) = Nat.min n (length l).
Proof. unfold last_n. rewrite length_drop. lia. Qed.
End ListLemmas.

(** ** Counting the entries of a map *)
Section Count.
Local Open Scope Z_scope.
Context {A : Type} (P : A -> bool).

Definition count_map (leases : gmap nat A) : Z :=
  Z.of_nat (size (filter (fun kv => P kv.2 = true) leases)).

Lemma count_map_empty : count_map ∅ = 0.
Proof. unfold count_map. by rewrite map_filter_empty, map_size_empty. Qed.

Lemma count_map_insert leases i x :
  leases !! i = None ->
  count_map (<[i := x]> leases) = count_map leases + (if P x then 1 else 0).
Proof.
  intros Hi. unfold count_map. destruct (P x) eqn:Hx.
  - rewrite map_filter_insert_True by done.
    rewrite map_size_insert_None; [lia|]. by rewrite map_lookup_filter_None; left.
  - rewrite map_filter_insert_False by (simpl; congruence).
    rewrite delete_id by done. lia.
Qed.

Lemma count_map_update leases i x y :
  leases !! i = Some y ->
  count_map (<[i := x]> leases) =
    count_map leases - (if P y then 1 else 0) + (if P x then 1 else 0).
Proof.
  intros Hi. rewrite <- (insert_delete_eq leases i x).
  rewrite count_map_insert by apply lookup_delete_eq.
  pose proof (count_map_insert (delete i leases) i y (lookup_delete_eq leases i)) as E.
  rewrite insert_delete_id in E by done. lia.
Qed.

Lemma count_map_pos leases i x : leases !! i = Some x -> P x = true -> 1 <= count_map leases.
Proof.
  intros Hi Hx. pose proof (count_map_insert (delete i leases) i x (lookup_delete_eq leases i)) as E.
  rewrite insert_delete_id, Hx in E by done. unfold count_map in *. lia.
Qed.
End Count.

(** Summing over the entries of a map. *)
Section Sum.
Local Open Scope Z_scope.
Context `{Countable K} {A : Type} (f : A -> Z).

Definition sum_map (m : gmap K A) : Z := map_fold (fun _ x acc => f x + acc) 0 m.

Lemma sum_map_empty : sum_map ∅ = 0.
Proof. apply map_fold_empty. Qed.

Lemma sum_map_insert m i x : m !! i = None -> sum_map (<[i := x]> m) = f x + sum_map m.
Proof.
  intros Hi. apply (map_fold_insert_L (fun _ x acc => f x + acc)); [intros; lia|done].
Qed.

Lemma sum_map_delete m i x : m !! i = Some x -> sum_map (delete i m) = sum_map m - f x.
Proof.
  intros Hi. pose proof (sum_map_insert (delete i m) i x (lookup_delete_eq m i)) as E.
  rewrite insert_delete_id in E by done. lia.
Qed.

Lemma sum_map_update m i x y :
  m !! i = Some y -> sum_map (<[i := x]> m) = sum_map m - f y + f x.
Proof.
  intros Hi. rewrite <- (insert_delete_eq m i x).
  rewrite sum_map_insert by apply lookup_delete_eq. rewrite (sum_map_delete _ _ y) by done. lia.
Qed.

Lemma sum_map_nonneg m : (forall i x, m !! i = Some x -> 0 <= f x) -> 0 <= sum_map m.
Proof.
  induction m as [|i x m Hi IH] using map_ind; intros Hf; [by rewrite sum_map_empty|].
  rewrite sum_map_insert by done.
  assert (0 <= f x) by (apply (Hf i); apply lookup_insert_eq).
  enough (0 <= sum_map m) by lia. apply IH. intros j y Hj. apply (Hf j).
  rewrite lookup_insert_ne; [done|]. by intros ->; rewrite Hj in Hi.
Qed.

Lemma sum_map_ge m i x : (forall i x, m !! i = Some x -> 0 <= f x) -> m !! i = Some x -> f x <= sum_map m.
Proof.
  intros Hf Hi. pose proof (sum_map_delete m i x Hi) as E.
  enough (0 <= sum_map (delete i m)) by lia. apply sum_map_nonneg.
  intros j y [_ Hj]%lookup_delete_Some. by apply (Hf j).
Qed.
End Sum.

(** Case analysis on the boolean tests of a translated condition. *)
Ltac destruct_tests :=
  repeat match goal with
  | |- context [Z.leb ?a ?b] => destruct (Z.leb_spec a b)
  | |- context [Z.ltb ?a ?b] => destruct (Z.ltb_spec a b)
  | |- context [Z.eqb ?a ?b] => destruct (Z.eqb_spec a b)
  end.

(** Split a step that succeeded into its checks. *)
Ltac split_checks :=
  repeat match goal with
  | H : check_then _ _ = inr _ |- _ => apply check_then_inr in H as [? H]
  | H : wrap _ _ = None |- _ => apply wrap_None in H
  | H : fail_if _ _ = None |- _ => apply fail_if_None in H
  | H : first_error (_ :: _) = None |- _ => apply first_error_cons in H as [? H]
  | H : inr _ = inr _ |- _ => apply (inj inr) in H
  end.

(** Turn the boolean hypotheses of a translated condition into propositions. *)
Ltac prop_tests :=
  repeat match goal with
  | H : _ && _ = true |- _ => apply andb_true_iff in H as [? ?]
  | H : _ || _ = false |- _ => apply orb_false_iff in H as [? ?]
  | H : negb _ = true |- _ => apply negb_true_iff in H
  | H : negb _ = false |- _ => apply negb_false_iff in H
  | H : Z.leb _ _ = true |- _ => apply Z.leb_le in H
  | H : Z.leb _ _ = false |- _ => apply Z.leb_gt in H
  | H : Z.ltb _ _ = true |- _ => apply Z.ltb_lt in H
  | H : Z.ltb _ _ = false |- _ => apply Z.ltb_ge in H
  | H : Z.eqb _ _ = true |- _ => apply Z.eqb_eq in H
  | H : Z.eqb _ _ = false |- _ => apply Z.eqb_neq in H
  | H : String.eqb _ _ = true |- _ => apply String.eqb_eq in H
  | H : String.eqb _ _ = false |- _ => apply String.eqb_neq in H
  end.
