(* ===== verification/GoStrings.v ===== *)
(** * Go strings

    The parts of Go's [strings] package the components use, on byte strings.
    The Unicode tables are a parameter, consulted only for non-ASCII input. *)

From stdpp Require Import base list strings.
From Stdlib Require Import Ascii Lia.
From S2P Require Import Prelude.

Local Open Scope nat_scope.

(** [strings.Map(unicode.ToLower, s)] and [strings.TrimFunc(s, unicode.IsSpace)]. *)
Class UnicodeTables := {
  unicode_ToLower : string -> string;
  unicode_TrimSpace : string -> string;
}.

Definition byte_of (c : ascii) : nat := nat_of_ascii c.

(** [c >= utf8.RuneSelf] *)
Definition non_ascii (c : ascii) : bool := 128 <=? byte_of c.

Definition lower_byte (c : ascii) : ascii :=
  if (65 <=? byte_of c) && (byte_of c <=? 90) then ascii_of_nat (byte_of c + 32) else c.

Definition upper_byte (c : ascii) : ascii :=
  if (97 <=? byte_of c) && (byte_of c <=? 122) then ascii_of_nat (byte_of c - 32) else c.

Definition ascii_space (c : ascii) : bool :=
  ((9 <=? byte_of c) && (byte_of c <=? 13)) || (byte_of c =? 32).

Definition bytes (s : string) : list ascii := String.list_ascii_of_string s.
Definition of_bytes (l : list ascii) : string := String.string_of_list_ascii l.
Definition len (s : string) : nat := String.length s.

Lemma of_bytes_bytes s : of_bytes (bytes s) = s.
Proof. apply String.string_of_list_ascii_of_string. Qed.

Lemma bytes_of_bytes l : bytes (of_bytes l) = l.
Proof. apply String.list_ascii_of_string_of_list_ascii. Qed.

Lemma bytes_app s t : bytes (s +:+ t) = bytes s ++ bytes t.
Proof.
  induction s as [|c s IH]; [done|].
  change (c :: bytes (s +:+ t) = c :: bytes s ++ bytes t). by rewrite IH.
Qed.

Lemma length_of_bytes l : String.length (of_bytes l) = length l.
Proof. unfold of_bytes. induction l as [|c l IH]; simpl; [done|]. by rewrite IH. Qed.

Lemma length_bytes s : length (bytes s) = len s.
Proof. unfold bytes, len. induction s as [|c s IH]; simpl; [done|]. by rewrite IH. Qed.

Fixpoint trim_right (rl : list ascii) : (list ascii * bool) :=
  match rl with
  | [] => ([], false)
  | c :: rl' =>
      if non_ascii c then (rl, true)
      else if ascii_space c then trim_right rl' else (rl, false)
  end.

Section WithTables.
Context `{UnicodeTables}.

Definition ToLower (s : string) : string :=
  if existsb non_ascii (bytes s) then unicode_ToLower s
  else of_bytes (lower_byte <$> bytes s).

Fixpoint trim_left (l : list ascii) : string :=
  match l with
  | [] => String.EmptyString
  | c :: l' =>
      if non_ascii c then unicode_TrimSpace (of_bytes l)
      else if ascii_space c then trim_left l'
      else
        let '(kept, slow) := trim_right (reverse l) in
        if slow then unicode_TrimSpace (of_bytes (reverse kept)) else of_bytes (reverse kept)
  end.

Definition TrimSpace (s : string) : string := trim_left (bytes s).
End WithTables.

(** Tables for ASCII-only input. *)
#[local] Instance ascii_tables : UnicodeTables := {|
  unicode_ToLower s := s;
  unicode_TrimSpace s := s;
|}.

Example TrimSpace_ascii : TrimSpace "  Open AI	 " = "Open AI".
Proof. reflexivity. Qed.

Example ToLower_ascii : ToLower "OpenAI-2" = "openai-2".
Proof. reflexivity. Qed.

(** [lower_byte] fixes its image, so lower-casing an ASCII name twice is the
    same as once. *)
Lemma lower_byte_idem c : lower_byte (lower_byte c) = lower_byte c.
Proof. destruct c as [[] [] [] [] [] [] [] []]; reflexivity. Qed.

(** The bytes an identifier of the configuration may use:
    [a-z], [0-9], [_], [-] and [.]. *)
Definition identifier_byte (c : ascii) : bool :=
  ((97 <=? byte_of c) && (byte_of c <=? 122)) ||
  ((48 <=? byte_of c) && (byte_of c <=? 57)) ||
  (byte_of c =? 95) || (byte_of c =? 45) || (byte_of c =? 46).

Lemma identifier_byte_lower c : identifier_byte c = true -> lower_byte c = c.
Proof. destruct c as [[] [] [] [] [] [] [] []]; vm_compute; congruence. Qed.

Lemma identifier_byte_ascii c : identifier_byte c = true -> non_ascii c = false.
Proof. destruct c as [[] [] [] [] [] [] [] []]; vm_compute; congruence. Qed.

(** ** [strconv.ParseInt(s, 10, 64)] *)
Section ParseInt.
Local Open Scope Z_scope.

(** A decimal digit. *)
Definition digit_value (c : ascii) : option Z :=
  let n := Z.of_nat (byte_of c) in
  if (48 <=? n) && (n <=? 57) then Some (n - 48) else None.

Fixpoint parse_digits (acc : Z) (l : list ascii) : option Z :=
  match l with
  | [] => Some acc
  | c :: l' => d ← digit_value c; parse_digits (acc * 10 + d) l'
  end.

(** [None] when Go returns an error: no digits, another byte, or a value
    outside [int64]. *)
Definition ParseInt (s : string) : option Z :=
  let '(negative, digits) :=
    match bytes s with
    | c :: l =>
        if Nat.eqb (byte_of c) 45 then (true, l)
        else if Nat.eqb (byte_of c) 43 then (false, l) else (false, bytes s)
    | [] => (false, [])
    end in
  match digits with
  | [] => None
  | _ =>
      n ← parse_digits 0 digits;
      let z := if negative then - n else n in
      if (MinInt64 <=? z) && (z <=? MaxInt64) then Some z else None
  end.

Lemma ParseInt_range s z : ParseInt s = Some z -> is_int64 z.
Proof.
  unfold ParseInt. destruct (match bytes s with [] => _ | _ => _ end) as [negative [|c digits]]; [done|].
  intros (n & _ & E)%bind_Some. destruct (_ && _) eqn:Hz in E; [|done]. injection E as <-.
  apply andb_true_iff in Hz as [E1%Z.leb_le E2%Z.leb_le]. done.
Qed.
End ParseInt.

Example ParseInt_examples :
  ParseInt "120" = Some 120%Z /\ ParseInt "-7" = Some (-7)%Z /\ ParseInt "+5" = Some 5%Z /\
  ParseInt "" = None /\ ParseInt "1.5" = None /\ ParseInt "9223372036854775808" = None.
Proof. repeat split; reflexivity. Qed.

(** ** Runes

    [for _, ch := range s]: the UTF-8 decoder of Go, which yields U+FFFD for
    each byte that starts no valid encoding. *)
Section Runes.
Local Open Scope Z_scope.

Definition rune_error : Z := 65533.

Definition in_range (lo hi : Z) (c : ascii) : bool :=
  (lo <=? Z.of_nat (byte_of c)) && (Z.of_nat (byte_of c) <=? hi).

(** The low six bits of a continuation byte. *)
Definition low_bits (c : ascii) : Z := Z.land (Z.of_nat (byte_of c)) 63.

(** The number of bytes of the encoding that a lead byte starts, and the range
    of its second byte; [None] for a byte that starts none. *)
Definition lead_byte (c : ascii) : option (nat * Z * Z) :=
  if in_range 194 223 c then Some (2%nat, 128, 191)
  else if in_range 224 224 c then Some (3%nat, 160, 191)
  else if in_range 237 237 c then Some (3%nat, 128, 159)
  else if in_range 225 239 c then Some (3%nat, 128, 191)
  else if in_range 240 240 c then Some (4%nat, 144, 191)
  else if in_range 241 243 c then Some (4%nat, 128, 191)
  else if in_range 244 244 c then Some (4%nat, 128, 143)
  else None.

Fixpoint decode (l : list ascii) : list Z :=
  match l with
  | [] => []
  | a :: l1 =>
      if negb (non_ascii a) then Z.of_nat (byte_of a) :: decode l1
      else
        match lead_byte a, l1 with
        | Some (n, lo, hi), b :: l2 =>
            if negb (in_range lo hi b) then rune_error :: decode l1
            else if Nat.eqb n 2 then
              Z.lor (Z.shiftl (Z.land (Z.of_nat (byte_of a)) 31) 6) (low_bits b) :: decode l2
            else
              match l2 with
              | c :: l3 =>
                  if negb (in_range 128 191 c) then rune_error :: decode l1
                  else if Nat.eqb n 3 then
                    Z.lor (Z.shiftl (Z.land (Z.of_nat (byte_of a)) 15) 12)
                      (Z.lor (Z.shiftl (low_bits b) 6) (low_bits c)) :: decode l3
                  else
                    match l3 with
                    | d :: l4 =>
                        if negb (in_range 128 191 d) then rune_error :: decode l1
                        else
                          Z.lor (Z.shiftl (Z.land (Z.of_nat (byte_of a)) 7) 18)
                            (Z.lor (Z.shiftl (low_bits b) 12)
                              (Z.lor (Z.shiftl (low_bits c) 6) (low_bits d))) :: decode l4
                    | [] => rune_error :: decode l1
                    end
              | [] => rune_error :: decode l1
              end
        | _, _ => rune_error :: decode l1
        end
  end.

Definition runes (s : string) : list Z := decode (bytes s).

(** [unicode.IsControl] *)
Definition IsControl (r : Z) : bool := ((0 <=? r) && (r <=? 31)) || ((127 <=? r) && (r <=? 159)).

(** [unicode.IsSpace] *)
Definition IsSpace (r : Z) : bool :=
  ((9 <=? r) && (r <=? 13)) || (r =? 32) || (r =? 133) || (r =? 160) || (r =? 5760) ||
  ((8192 <=? r) && (r <=? 8202)) || (r =? 8232) || (r =? 8233) || (r =? 8239) || (r =? 8287) ||
  (r =? 12288).

(** [strings.IndexFunc(s, unicode.IsControl) >= 0] *)
Definition has_control (s : string) : bool := existsb IsControl (runes s).

(** [int(len(s))] *)
Definition zlen (s : string) : Z := Z.of_nat (len s).
End Runes.

Example runes_examples :
  runes "a~" = [97; 126]%Z /\
  decode (ascii_of_nat <$> [194; 128; 226; 130; 172; 240; 159; 152; 128; 255; 226; 130]) =
    [128; 8364; 128512; 65533; 65533; 65533]%Z.
Proof. split; vm_compute; reflexivity. Qed.

(** ** Searching *)

(** [strings.Cut(s, "://")] *)
Fixpoint cut_scheme (before l : list ascii) : option (list ascii * list ascii) :=
  match l with
  | [] => None
  | a :: rest =>
      match rest with
      | b :: c :: after =>
          if Nat.eqb (byte_of a) 58 && Nat.eqb (byte_of b) 47 && Nat.eqb (byte_of c) 47
          then Some (before, after) else cut_scheme (before ++ [a]) rest
      | _ => cut_scheme (before ++ [a]) rest
      end
  end.

(** [value[:strings.LastIndex(value, ":")]]; [None] when there is no colon. *)
Fixpoint before_last_colon (l : list ascii) : option (list ascii) :=
  match l with
  | [] => None
  | a :: rest =>
      match before_last_colon rest with
      | Some before => Some (a :: before)
      | None => if Nat.eqb (byte_of a) 58 then Some [] else None
      end
  end.

Lemma before_last_colon_shorter l before :
  before_last_colon l = Some before -> length before < length l.
Proof.
  revert before. induction l as [|a l IH]; intros before; simpl; [done|].
  destruct (before_last_colon l) as [b|].
  - intros [= <-]. simpl. specialize (IH b eq_refl). lia.
  - destruct (Nat.eqb _ _); [|done]. intros [= <-]. simpl. lia.
Qed.

(** [strings.HasSuffix] *)
Definition HasSuffix (s suffix : string) : bool :=
  bool_decide (drop (len s - len suffix) (bytes s) = bytes suffix) && (len suffix <=? len s).
