(* ===== verification/Json.v ===== *)
(** * Base64 and JSON strings ([encoding/base64], [encoding/json])

    [base64.RawURLEncoding], the unpadded, URL-safe alphabet, over bytes: what the
    endpoint registry encodes its page cursors with.  Then how Go writes a string
    as JSON and reads it back: the escapes of [json.Marshal] (with its HTML
    escapes) and the string literals of [json.Decoder], both on bytes and with
    U+FFFD for what is not UTF-8. *)

From stdpp Require Import base list strings.
From Stdlib Require Import Ascii ZArith Lia.
From S2P Require Import Prelude GoStrings.

Local Open Scope Z_scope.

(** ** [base64.RawURLEncoding] *)
Definition byte_val (c : ascii) : Z := Z.of_nat (byte_of c).
Definition val_byte (z : Z) : ascii := ascii_of_nat (Z.to_nat (Z.land z 255)).

(** [encodeURL] *)
Definition alphabet : list ascii :=
  bytes "ABCDEFGHIJKLMNOPQRSTUVWXYZabcdefghijklmnopqrstuvwxyz0123456789-_".

Definition encode_sextet (z : Z) : ascii := nth (Z.to_nat (Z.land z 63)) alphabet "A"%char.

Fixpoint index_of (c : ascii) (l : list ascii) : option Z :=
  match l with
  | [] => None
  | d :: l => if Ascii.eqb c d then Some 0 else Z.succ <$> index_of c l
  end.

(** [enc.decodeMap[c]] *)
Definition decode_sextet (c : ascii) : option Z := index_of c alphabet.

(** [Encoding.EncodeToString] *)
Fixpoint EncodeToString (src : list ascii) : list ascii :=
  match src with
  | [] => []
  | [a] =>
      let val := Z.shiftl (byte_val a) 16 in
      [encode_sextet (Z.shiftr val 18); encode_sextet (Z.shiftr val 12)]
  | [a; b] =>
      let val := Z.lor (Z.shiftl (byte_val a) 16) (Z.shiftl (byte_val b) 8) in
      [encode_sextet (Z.shiftr val 18); encode_sextet (Z.shiftr val 12);
       encode_sextet (Z.shiftr val 6)]
  | a :: b :: c :: rest =>
      let val := Z.lor (Z.shiftl (byte_val a) 16) (Z.lor (Z.shiftl (byte_val b) 8) (byte_val c)) in
      encode_sextet (Z.shiftr val 18) :: encode_sextet (Z.shiftr val 12) ::
      encode_sextet (Z.shiftr val 6) :: encode_sextet val :: EncodeToString rest
  end.

(** Line breaks are skipped wherever they occur. *)
Definition is_line_break (c : ascii) : bool := Ascii.eqb c "010" || Ascii.eqb c "013".

(** The quanta of the text without its line breaks. *)
Fixpoint decode_quanta (src : list Z) : option (list ascii) :=
  match src with
  | [] => Some []
  | [_] => None
  | [s; t] =>
      let val := Z.lor (Z.shiftl s 18) (Z.shiftl t 12) in
      Some [val_byte (Z.shiftr val 16)]
  | [s; t; u] =>
      let val := Z.lor (Z.shiftl s 18) (Z.lor (Z.shiftl t 12) (Z.shiftl u 6)) in
      Some [val_byte (Z.shiftr val 16); val_byte (Z.shiftr val 8)]
  | s :: t :: u :: v :: rest =>
      let val := Z.lor (Z.shiftl s 18) (Z.lor (Z.shiftl t 12) (Z.lor (Z.shiftl u 6) v)) in
      decoded ← decode_quanta rest;
      Some (val_byte (Z.shiftr val 16) :: val_byte (Z.shiftr val 8) :: val_byte val :: decoded)
  end.

(** [Encoding.DecodeString]; [None] is a [CorruptInputError]. *)
Definition DecodeString (s : list ascii) : option (list ascii) :=
  sextets ← mapM decode_sextet (List.filter (fun c => negb (is_line_break c)) s);
  decode_quanta sextets.

Example base64_examples :
  of_bytes (EncodeToString (bytes "any carnal pleas")) = "YW55IGNhcm5hbCBwbGVhcw"%string /\
  of_bytes <$> DecodeString (bytes "YW55IGNhcm5hbCBwbGVhcw") = Some "any carnal pleas"%string /\
  DecodeString (bytes "YW55=") = None /\ DecodeString (bytes "YW55I") = None.
Proof. split_and!; vm_compute; reflexivity. Qed.

(** ** Decoding what was encoded *)
Lemma byte_val_bounds c : 0 <= byte_val c < 256.
Proof. unfold byte_val, byte_of. pose proof (nat_ascii_bounded c). lia. Qed.

Lemma val_byte_val c : val_byte (byte_val c) = c.
Proof.
  unfold val_byte, byte_val, byte_of. pose proof (nat_ascii_bounded c).
  change 255 with (Z.ones 8). rewrite Z.land_ones, Z.mod_small by (try change (2^8) with 256; lia).
  by rewrite Nat2Z.id, ascii_nat_embedding.
Qed.

Lemma sextet_inverse_all :
  forallb (fun n => match decode_sextet (nth n alphabet "A"%char) with
                    | Some z => z =? Z.of_nat n | None => false end &&
                    negb (is_line_break (nth n alphabet "A"%char))) (seq 0 64) = true.
Proof. vm_compute. reflexivity. Qed.

Lemma sextet_inverse z :
  decode_sextet (encode_sextet z) = Some (Z.land z 63) /\ is_line_break (encode_sextet z) = false.
Proof.
  pose proof sextet_inverse_all as Ha. rewrite forallb_forall in Ha.
  assert (Hz : 0 <= Z.land z 63 < 64).
  { change 63 with (Z.ones 6). rewrite Z.land_ones by lia. apply Z.mod_pos_bound. lia. }
  specialize (Ha (Z.to_nat (Z.land z 63))). rewrite in_seq in Ha. specialize (Ha ltac:(lia)).
  apply andb_true_iff in Ha as [A1 A2]. apply negb_true_iff in A2. unfold encode_sextet.
  split; [|done]. destruct (decode_sextet _) as [w|]; [|done]. apply Z.eqb_eq in A1.
  rewrite A1, Z2Nat.id by lia. done.
Qed.

Lemma testbit_byte c i : 8 <= i -> Z.testbit (byte_val c) i = false.
Proof.
  intros Hi. pose proof (byte_val_bounds c). destruct (Z.eq_dec (byte_val c) 0) as [->|].
  { apply Z.testbit_0_l. }
  apply Z.bits_above_log2; [lia|]. apply Z.lt_le_trans with 8; [|done].
  apply Z.log2_lt_pow2; lia.
Qed.

Lemma val_byte_eq z c : Z.land z 255 = byte_val c -> val_byte z = c.
Proof.
  intros E. unfold val_byte. rewrite E. rewrite <- (val_byte_val c) at 2. unfold val_byte.
  f_equal. f_equal. pose proof (byte_val_bounds c). change 255 with (Z.ones 8).
  rewrite Z.land_ones, Z.mod_small by (try change (2^8) with 256; lia). done.
Qed.

(** The bits of a combination of shifted bytes at a literal position. *)
Ltac literal_index :=
  match goal with
  | |- context [Z.testbit (Zpos ?p) ?i] =>
      let b := eval vm_compute in (Z.testbit (Zpos p) i) in
      change (Z.testbit (Zpos p) i) with b
  | |- context [Z.testbit ?x ?i] =>
      let j := eval vm_compute in i in progress change (Z.testbit x i) with (Z.testbit x j)
  end.
Ltac literal_bits :=
  repeat first
    [ literal_index
    | match goal with
      | |- context [Z.testbit ?x (Zneg ?p)] => rewrite (Z.testbit_neg_r x (Zneg p)) by reflexivity
      | |- context [Z.testbit (byte_val ?c) ?i] => rewrite (testbit_byte c i) by lia
      end
    | rewrite Z.land_spec | rewrite Z.lor_spec
    | rewrite Z.shiftr_spec by lia | rewrite Z.shiftl_spec by lia ];
  rewrite ?andb_true_r, ?andb_false_r, ?orb_false_r, ?orb_false_l.

(** Equality of the low eight bits with a byte. *)
Lemma low_byte_eq z c :
  (forall i, i ∈ [0; 1; 2; 3; 4; 5; 6; 7] -> Z.testbit z i = Z.testbit (byte_val c) i) ->
  val_byte z = c.
Proof.
  intros Hb. apply val_byte_eq. apply Z.bits_inj'. intros i Hi. rewrite Z.land_spec.
  change 255 with (Z.ones 8). rewrite Z.testbit_ones_nonneg by lia.
  destruct (Z.ltb_spec i 8); [|by rewrite andb_false_r, testbit_byte by lia].
  rewrite andb_true_r. apply Hb.
  assert (E : i = 0 \/ i = 1 \/ i = 2 \/ i = 3 \/ i = 4 \/ i = 5 \/ i = 6 \/ i = 7) by lia.
  destruct_or! E; subst; repeat first [apply list_elem_of_here | apply list_elem_of_further].
Qed.

Ltac same_byte :=
  apply low_byte_eq; intros i Hi;
  repeat (apply elem_of_cons in Hi as [->|Hi]); [..|by apply elem_of_nil in Hi];
  literal_bits; reflexivity.

(** The bytes of a quantum, from its sextets. *)
Lemma quantum_inverse (a b c : ascii) val :
  val = Z.lor (Z.shiftl (byte_val a) 16) (Z.lor (Z.shiftl (byte_val b) 8) (byte_val c)) ->
  let s := Z.land (Z.shiftr val 18) 63 in
  let t := Z.land (Z.shiftr val 12) 63 in
  let u := Z.land (Z.shiftr val 6) 63 in
  let v := Z.land val 63 in
  let w := Z.lor (Z.shiftl s 18) (Z.lor (Z.shiftl t 12) (Z.lor (Z.shiftl u 6) v)) in
  val_byte (Z.shiftr w 16) = a /\ val_byte (Z.shiftr w 8) = b /\ val_byte w = c.
Proof. intros ->. cbn zeta. split_and!; same_byte. Qed.

Lemma half_quantum_inverse (a b : ascii) val :
  val = Z.lor (Z.shiftl (byte_val a) 16) (Z.shiftl (byte_val b) 8) ->
  let s := Z.land (Z.shiftr val 18) 63 in
  let t := Z.land (Z.shiftr val 12) 63 in
  let u := Z.land (Z.shiftr val 6) 63 in
  let w := Z.lor (Z.shiftl s 18) (Z.lor (Z.shiftl t 12) (Z.shiftl u 6)) in
  val_byte (Z.shiftr w 16) = a /\ val_byte (Z.shiftr w 8) = b.
Proof. intros ->. cbn zeta. split_and!; same_byte. Qed.

Lemma single_quantum_inverse (a : ascii) val :
  val = Z.shiftl (byte_val a) 16 ->
  let s := Z.land (Z.shiftr val 18) 63 in
  let t := Z.land (Z.shiftr val 12) 63 in
  val_byte (Z.shiftr (Z.lor (Z.shiftl s 18) (Z.shiftl t 12)) 16) = a.
Proof. intros ->. cbn zeta. same_byte. Qed.

(** A triple induction on byte lists, as [EncodeToString] recurses. *)
Lemma triple_ind (P : list ascii -> Prop) :
  P [] -> (forall a, P [a]) -> (forall a b, P [a; b]) ->
  (forall a b c l, P l -> P (a :: b :: c :: l)) -> forall l, P l.
Proof.
  intros H0 H1 H2 H3. fix IH 1. intros [|a [|b [|c l]]]; [done|apply H1|apply H2|].
  apply H3, IH.
Qed.

Lemma EncodeToString_sextets l :
  exists sextets,
    mapM decode_sextet (EncodeToString l) = Some sextets /\
    List.filter (fun c => negb (is_line_break c)) (EncodeToString l) = EncodeToString l /\
    decode_quanta sextets = Some l.
Proof.
  set (keep := fun c => negb (is_line_break c)).
  assert (Hf : forall z l, List.filter keep (encode_sextet z :: l)
                 = encode_sextet z :: List.filter keep l).
  { intros z l'. unfold keep. simpl. by rewrite (proj2 (sextet_inverse z)). }
  assert (Hm : forall z l k, mapM decode_sextet l = Some k ->
                 mapM decode_sextet (encode_sextet z :: l) = Some (Z.land z 63 :: k)).
  { intros z l' k E. simpl. rewrite (proj1 (sextet_inverse z)). simpl. by rewrite E. }
  induction l as [|a|a b|a b c l IH] using triple_ind.
  - by exists [].
  - eexists. split_and!; cbn [EncodeToString]; [repeat apply Hm; reflexivity|by rewrite !Hf|].
    cbn [decode_quanta]. by rewrite (single_quantum_inverse a).
  - eexists. split_and!; cbn [EncodeToString]; [repeat apply Hm; reflexivity|by rewrite !Hf|].
    cbn [decode_quanta]. by destruct (half_quantum_inverse a b _ eq_refl) as [-> ->].
  - destruct IH as (k & E1 & E2 & E3). eexists.
    split_and!; cbn [EncodeToString]; [repeat apply Hm; exact E1|by rewrite !Hf, E2|].
    cbn [decode_quanta]. rewrite E3. cbn [mbind option_bind].
    by destruct (quantum_inverse a b c _ eq_refl) as (-> & -> & ->).
Qed.

(** [DecodeString] inverts [EncodeToString]. *)
Lemma DecodeString_EncodeToString l : DecodeString (EncodeToString l) = Some l.
Proof.
  unfold DecodeString. destruct (EncodeToString_sextets l) as (k & E1 & -> & E3).
  by rewrite E1.
Qed.

(** The length of an encoding: four characters for every three bytes, rounded up. *)
Lemma length_EncodeToString l :
  Z.of_nat (length (EncodeToString l)) = (Z.of_nat (length l) * 8 + 5) / 6.
Proof.
  induction l as [|a|a b|a b c l IH] using triple_ind; [done..|].
  cbn [EncodeToString length]. rewrite !Nat2Z.inj_succ, IH.
  replace (Z.succ (Z.succ (Z.succ (Z.of_nat (length l)))) * 8 + 5)
    with (Z.of_nat (length l) * 8 + 5 + 4 * 6) by lia.
  rewrite Z.div_add by lia. lia.
Qed.

(** ** JSON strings *)

(** The width of the multi-byte encoding at the head of [l]; [None] when there
    is no valid one. *)
Definition rune_width (l : list ascii) : option nat :=
  match l with
  | a :: b :: l2 =>
      '(n, lo, hi) ← lead_byte a;
      if negb (in_range lo hi b) then None
      else if Nat.eqb n 2 then Some 2%nat
      else
        match l2 with
        | [] => None
        | c :: l3 =>
            if negb (in_range 128 191 c) then None
            else if Nat.eqb n 3 then Some 3%nat
            else match l3 with
                 | d :: _ => if in_range 128 191 d then Some 4%nat else None
                 | [] => None
                 end
        end
  | _ => None
  end.

(** [utf8.ValidString]; [raw] bytes belong to the encoding before. *)
Fixpoint valid_from (raw : nat) (l : list ascii) : bool :=
  match raw, l with
  | O, [] => true
  | S _, [] => false
  | S raw, _ :: l => valid_from raw l
  | O, b :: l' =>
      if negb (non_ascii b) then valid_from O l'
      else match rune_width l with Some n => valid_from (Nat.pred n) l' | None => false end
  end.

Definition ValidString (s : string) : bool := valid_from O (bytes s).

(** ** Writing *)
Definition hex_digits : list ascii := bytes "0123456789abcdef".
Definition hex_digit (z : Z) : ascii := nth (Z.to_nat (Z.land z 15)) hex_digits "0"%char.

Definition quotation : ascii := "034".
Definition backslash : ascii := "092".

(** [htmlSafeSet] *)
Definition html_safe (b : ascii) : bool :=
  in_range 32 127 b && negb (existsb (Ascii.eqb b) (quotation :: backslash :: bytes "&<>")).

(** The letter of a two-character escape. *)
Definition short_escape (b : ascii) : option ascii :=
  if Ascii.eqb b quotation then Some quotation
  else if Ascii.eqb b backslash then Some backslash
  else if Ascii.eqb b "008" then Some "b"%char
  else if Ascii.eqb b "012" then Some "f"%char
  else if Ascii.eqb b "010" then Some "n"%char
  else if Ascii.eqb b "013" then Some "r"%char
  else if Ascii.eqb b "009" then Some "t"%char
  else None.

Definition escape_byte (b : ascii) : list ascii :=
  if html_safe b then [b]
  else match short_escape b with
       | Some e => [backslash; e]
       | None => bytes "\u00" ++ [hex_digit (Z.shiftr (byte_val b) 4); hex_digit (byte_val b)]
       end.

(** U+2028 and U+2029 *)
Definition line_separator (l : list ascii) : option Z :=
  match l with
  | a :: b :: c :: _ =>
      if Ascii.eqb a "226" && Ascii.eqb b "128" && (Ascii.eqb c "168" || Ascii.eqb c "169")
      then Some (byte_val c) else None
  | _ => None
  end.

(** [appendString] without the surrounding quotes; the next [raw] bytes are
    copied. *)
Fixpoint quote_from (raw : nat) (l : list ascii) : list ascii :=
  match l with
  | [] => []
  | b :: l' =>
      match raw with
      | S raw => b :: quote_from raw l'
      | O =>
          if negb (non_ascii b) then escape_byte b ++ quote_from O l'
          else
            match rune_width l with
            | None => bytes "\ufffd" ++ quote_from O l'
            | Some n =>
                match line_separator l, l' with
                | Some c, _ :: _ :: l3 => bytes "\u202" ++ [hex_digit c] ++ quote_from O l3
                | _, _ => b :: quote_from (Nat.pred n) l'
                end
            end
      end
  end.

(** A JSON string literal. *)
Definition quote (l : list ascii) : list ascii := quotation :: quote_from O l ++ [quotation].

(** ** Reading *)
Definition hex_value (c : ascii) : option Z :=
  let v := byte_val c in
  if in_range 48 57 c then Some (v - 48)
  else if in_range 97 102 c then Some (v - 87)
  else if in_range 65 70 c then Some (v - 55)
  else None.

(** The four digits after [\u]. *)
Definition hex4 (a b c d : ascii) : option Z :=
  a ← hex_value a; b ← hex_value b; c ← hex_value c; d ← hex_value d;
  Some (((a * 16 + b) * 16 + c) * 16 + d).

(** [utf8.EncodeRune] *)
Definition encode_rune (r : Z) : list ascii :=
  let tail n := val_byte (Z.lor 128 (Z.land (Z.shiftr r n) 63)) in
  if (0 <=? r) && (r <=? 127) then [val_byte r]
  else if (0 <=? r) && (r <=? 2047) then [val_byte (Z.lor 192 (Z.shiftr r 6)); tail 0]
  else if (r <? 0) || (1114111 <? r) || ((55296 <=? r) && (r <=? 57343)) then
    ascii_of_nat <$> [239; 191; 189]%nat
  else if r <=? 65535 then [val_byte (Z.lor 224 (Z.shiftr r 12)); tail 6; tail 0]
  else [val_byte (Z.lor 240 (Z.shiftr r 18)); tail 12; tail 6; tail 0].

(** [utf16.IsSurrogate], [utf16.DecodeRune] *)
Definition IsSurrogate (r : Z) : bool := (55296 <=? r) && (r <? 57344).
Definition DecodeRune (r1 r2 : Z) : Z :=
  if (55296 <=? r1) && (r1 <? 56320) && (56320 <=? r2) && (r2 <? 57344)
  then Z.lor (Z.shiftl (r1 - 55296) 10) (r2 - 56320) + 65536
  else rune_error.

Definition unescape (e : ascii) : option ascii :=
  if Ascii.eqb e quotation || Ascii.eqb e backslash || Ascii.eqb e "/" then Some e
  else if Ascii.eqb e "b" then Some "008"%char
  else if Ascii.eqb e "f" then Some "012"%char
  else if Ascii.eqb e "n" then Some "010"%char
  else if Ascii.eqb e "r" then Some "013"%char
  else if Ascii.eqb e "t" then Some "009"%char
  else None.

Definition before (prefix : list ascii) (r : option (list ascii * list ascii))
  : option (list ascii * list ascii) :=
  '(s, rest) ← r; Some (prefix ++ s, rest).

(** The bytes of a string literal after its opening quote, and what follows
    its closing quote; the next [raw] bytes are copied.  [None] is a syntax
    error or an unexpected end. *)
Fixpoint unquote_from (raw : nat) (l : list ascii) : option (list ascii * list ascii) :=
  match l with
  | [] => None
  | b :: l' =>
      match raw with
      | S raw => before [b] (unquote_from raw l')
      | O =>
          if Ascii.eqb b quotation then Some ([], l')
          else if Ascii.eqb b backslash then
            match l' with
            | e :: l2 =>
                if Ascii.eqb e "u" then
                  match l2 with
                  | h1 :: h2 :: h3 :: h4 :: l6 =>
                      rr ← hex4 h1 h2 h3 h4;
                      if IsSurrogate rr then
                        match l6 with
                        | b' :: u :: g1 :: g2 :: g3 :: g4 :: l12 =>
                            if Ascii.eqb b' backslash && Ascii.eqb u "u" then
                              rr1 ← hex4 g1 g2 g3 g4;
                              if DecodeRune rr rr1 =? rune_error
                              then before (encode_rune rune_error) (unquote_from O l6)
                              else before (encode_rune (DecodeRune rr rr1)) (unquote_from O l12)
                            else before (encode_rune rune_error) (unquote_from O l6)
                        | _ => before (encode_rune rune_error) (unquote_from O l6)
                        end
                      else before (encode_rune rr) (unquote_from O l6)
                  | _ => None
                  end
                else c ← unescape e; before [c] (unquote_from O l2)
            | [] => None
            end
          else if negb (in_range 32 255 b) then None
          else if negb (non_ascii b) then before [b] (unquote_from O l')
          else
            match rune_width l with
            | None => before (encode_rune rune_error) (unquote_from O l')
            | Some n => before [b] (unquote_from (Nat.pred n) l')
            end
      end
  end.

Definition unquote : list ascii -> option (list ascii * list ascii) := unquote_from O.

Example quote_examples :
  of_bytes (quote (bytes "a<b\/" ++ (ascii_of_nat <$> [10; 1; 255; 226; 128; 168; 195; 169]%nat)))
    = of_bytes ([quotation] ++ bytes "a\u003cb\\/\n\u0001\ufffd\u2028" ++
                (ascii_of_nat <$> [195; 169; 34]%nat)).
Proof. vm_compute. reflexivity. Qed.

Example unquote_examples :
  unquote (bytes "\u00e9\ud83d\ude00\ud83dx" ++ [quotation]) =
    Some (ascii_of_nat <$> [195; 169; 240; 159; 152; 128; 239; 191; 189; 120]%nat, []) /\
  unquote (bytes "\x") = None.
Proof. split; vm_compute; reflexivity. Qed.

(** ** Reading what was written *)

(** Reading an escape consumes it and continues. *)
Lemma unquote_escape b rest :
  non_ascii b = false ->
  unquote_from O (escape_byte b ++ rest) = before [b] (unquote_from O rest).
Proof.
  intros Hb.
  assert (Ha : forallb (fun n => let b := ascii_of_nat n in
     match escape_byte b with
     | [c] => Ascii.eqb c b && negb (Ascii.eqb c quotation) && negb (Ascii.eqb c backslash) &&
              in_range 32 255 c
     | [s; e] => Ascii.eqb s backslash && negb (Ascii.eqb e "u") &&
                 bool_decide (unescape e = Some b)
     | [s; u; h1; h2; h3; h4] =>
         Ascii.eqb s backslash && Ascii.eqb u "u" &&
         match hex4 h1 h2 h3 h4 with
         | Some r => negb (IsSurrogate r) && bool_decide (encode_rune r = [b])
         | None => false
         end
     | _ => false
     end) (seq 0 128) = true) by (vm_compute; reflexivity).
  rewrite forallb_forall in Ha. specialize (Ha (byte_of b)). rewrite in_seq in Ha.
  unfold non_ascii in Hb. apply Nat.leb_gt in Hb. specialize (Ha ltac:(lia)).
  unfold byte_of in Ha. rewrite ascii_nat_embedding in Ha. cbn zeta in Ha.
  destruct (escape_byte b) as [|c [|e [|h1 [|h2 [|h3 [|h4 [|]]]]]]]; try done.
  - prop_tests. repeat match goal with H : Ascii.eqb _ _ = true |- _ => apply Ascii.eqb_eq in H end.
    subst c. cbn [app unquote_from].
    repeat match goal with H : _ = _ |- _ => rewrite H end. cbn [negb].
    assert (Hn : non_ascii b = false) by (unfold non_ascii; by apply Nat.leb_gt).
    by rewrite Hn.
  - prop_tests. repeat match goal with H : Ascii.eqb _ _ = true |- _ => apply Ascii.eqb_eq in H end.
    subst c. cbn [app unquote_from]. cbn [Ascii.eqb Bool.eqb backslash quotation].
    repeat match goal with
      | H : Ascii.eqb e _ = false |- _ => rewrite H
      | H : bool_decide _ = true |- _ => apply bool_decide_eq_true in H; rewrite H
      end. done.
  - prop_tests. repeat match goal with H : Ascii.eqb _ _ = true |- _ => apply Ascii.eqb_eq in H end.
    subst c e. cbn [app unquote_from]. cbn [Ascii.eqb Bool.eqb backslash quotation].
    destruct (hex4 h1 h2 h3 h4) as [r|]; [|done]. prop_tests. cbn [mbind option_bind].
    repeat match goal with
      | H : bool_decide _ = true |- _ => apply bool_decide_eq_true in H; rewrite H
      | H : _ = _ |- _ => rewrite H
      end. done.
Qed.

(** A valid encoding is recognised by its own bytes. *)
Lemma rune_width_prefix l n k :
  rune_width l = Some n ->
  (2 <= n <= 4)%nat /\ (n <= length l)%nat /\ rune_width (take n l ++ k) = Some n.
Proof.
  destruct l as [|a [|b l2]]; [done..|]. cbn [rune_width].
  intros ([[m lo] hi] & E & Hw)%bind_Some.
  assert (Hm : m = 2%nat \/ m = 3%nat \/ m = 4%nat).
  { unfold lead_byte in E. repeat case_match; naive_solver. }
  destruct (negb (in_range lo hi b)) eqn:Hb; [done|].
  destruct l2 as [|c l3]; [|destruct l3 as [|d l4]];
    destruct Hm as [->|[->| ->]]; cbn [Nat.eqb] in Hw;
    repeat case_match; simplify_eq; cbn [take app length rune_width];
    (split; [lia|]; split; [lia|]); rewrite E; cbn [mbind option_bind];
    rewrite Hb; cbn [Nat.eqb];
    repeat match goal with Hx : _ = _ |- _ => rewrite Hx end; done.
Qed.

Lemma quote_from_raw n l :
  (n <= length l)%nat -> quote_from n l = take n l ++ quote_from O (drop n l).
Proof.
  revert l. induction n as [|n IH]; intros l Hn; [done|].
  destruct l as [|b l]; simpl in Hn; [lia|]. simpl. by rewrite IH by lia.
Qed.

Lemma non_ascii_not b :
  non_ascii b = true ->
  Ascii.eqb b quotation = false /\ Ascii.eqb b backslash = false /\ in_range 32 255 b = true.
Proof.
  unfold non_ascii. intros Hb%Nat.leb_le. pose proof (byte_val_bounds b). unfold byte_val in *.
  split_and!.
  - apply Ascii.eqb_neq. intros ->. by apply Nat.leb_le in Hb.
  - apply Ascii.eqb_neq. intros ->. by apply Nat.leb_le in Hb.
  - unfold in_range. apply andb_true_intro. split; apply Z.leb_le; lia.
Qed.

Lemma line_separator_inv l c :
  line_separator l = Some c ->
  exists l3, (l = ("226" :: "128" :: "168" :: l3)%char /\ c = 168) \/
             (l = ("226" :: "128" :: "169" :: l3)%char /\ c = 169).
Proof.
  destruct l as [|x [|y [|z l3]]]; try done. simpl.
  destruct (Ascii.eqb x _) eqn:E1; [|done]. destruct (Ascii.eqb y _) eqn:E2; [|done]. simpl.
  apply Ascii.eqb_eq in E1, E2. subst. exists l3.
  destruct (Ascii.eqb z "168") eqn:E3; [apply Ascii.eqb_eq in E3; subst; left; naive_solver|].
  destruct (Ascii.eqb z "169") eqn:E4; [apply Ascii.eqb_eq in E4; subst; right; naive_solver|done].
Qed.

Lemma unquote_quote_from raw l rest :
  valid_from raw l = true ->
  unquote_from raw (quote_from raw l ++ quotation :: rest) = Some (l, rest).
Proof.
  remember (length l) as n eqn:Hn. revert raw l Hn.
  induction n as [n IH] using lt_wf_ind. intros raw l Hn Hv.
  destruct l as [|b l]; [by destruct raw|]. simpl in Hn.
  destruct raw as [|raw].
  2: { simpl in Hv |- *. by rewrite (IH (length l)) by (try done; lia). }
  cbn [valid_from quote_from] in Hv |- *.
  destruct (negb (non_ascii b)) eqn:Hb.
  { apply negb_true_iff in Hb. rewrite <- app_assoc, unquote_escape by done.
    by rewrite (IH (length l)) by (try done; lia). }
  apply negb_false_iff in Hb.
  destruct (rune_width (b :: l)) as [w|] eqn:Hw; [|done].
  destruct (line_separator (b :: l)) as [c|] eqn:Hs.
  { apply line_separator_inv in Hs as [l3 [[E ->]|[E ->]]]; injection E as -> ->;
      injection Hw as <-; simpl in Hv, Hn;
      rewrite <- !app_assoc;
      assert (IH' := IH (length l3) ltac:(lia) O l3 eq_refl Hv);
      cbn; rewrite IH'; reflexivity. }
  destruct (non_ascii_not b Hb) as (E1 & E2 & E3).
  destruct (rune_width_prefix _ _ (quote_from O (drop w (b :: l)) ++ quotation :: rest) Hw)
    as (H2 & Hl & Hp).
  assert (Hq : rune_width (b :: quote_from (Nat.pred w) l ++ quotation :: rest) = Some w).
  { rewrite <- Hp. f_equal. destruct w as [|w]; [lia|]. simpl in Hl |- *.
    rewrite quote_from_raw by lia. by rewrite <- app_assoc. }
  cbn [app unquote_from]. rewrite E1, E2, E3, Hb. cbn [negb]. rewrite Hq.
  by rewrite (IH (length l)) by (try done; lia).
Qed.

(** Reading a string literal gives back the bytes it was written from. *)
Lemma unquote_quote l rest :
  valid_from O l = true -> unquote (quote_from O l ++ quotation :: rest) = Some (l, rest).
Proof. apply unquote_quote_from. Qed.
