(* ===== verification/RouterPolicy.v ===== *)
(** * The routing policy of the model router ([pkg/modelrouter])

    The policy document with its validation ([policy.go]), its compiled form
    ([compiled.go]), the metadata discovered about models
    ([discovered_metadata.go], [deployment_metadata.go]), and the manager that
    publishes policies under a revision.

    Maps are visited in the order [visit] gives them, as [range] leaves it open.
    The size of the JSON of a preset is a parameter. *)

From stdpp Require Import base gmap list strings.
From Stdlib Require Import Ascii ZArith Lia SpecFloat.
From S2P Require Import Prelude GoStrings.

Local Open Scope Z_scope.
Local Open Scope go_scope.

Definition RoutingPolicyVersion : Z := 2.
Definition maxRoutingVirtualModels : Z := 256.
Definition maxRoutingModels : Z := 4096.
Definition maxRoutingKeywordRules : Z := 256.
Definition maxRoutingCandidateModels : Z := 4096.
Definition maxRoutingKeywordsPerRule : Z := 128.
Definition maxRoutingTagsPerModel : Z := 128.
Definition maxRoutingPublicEndpoints : Z := 4096.
Definition maxDiscoveredMetadataSources : Z := 64.

Definition ErrRevisionConflict : string := "routing policy revision conflict".

(** ** Data *)

(** A value of [map[string]any]: decoded JSON, or a [[]string] of the program. *)
Inductive json :=
  | JNull
  | JBool (b : bool)
  | JNumber (text : string)
  | JString (s : string)
  | JStrings (l : list string)
  | JArray (l : list json)
  | JObject (l : list (string * json)).

Definition kwargs : Type := gmap string json.

Definition StagePickerEfficientFirst : string := "efficient_first".
Definition StagePickerCapableFirst : string := "capable_first".

Record StageRouterPolicy := mkStageRouterPolicy {
  sr_CapableModel : string;
  sr_EfficientModel : string;
  sr_Picker : string;
  sr_ConfidenceThreshold : option float64;
  sr_RecentTurnWindow : Z;
}.

Record MMProjectionPolicy := mkMMProjectionPolicy {
  pr_AnalyzerModel : string;
  pr_FailureMode : string;
  pr_TimeoutMS : Z;
}.

Record VirtualModel := mkVirtualModel {
  vm_Strategy : string;
  vm_Models : list string;
  vm_Aliases : list string;
  vm_Kwargs : gmap string (option kwargs);
  vm_StageRouter : option StageRouterPolicy;
  vm_MMProjection : option MMProjectionPolicy;
}.

Record ModelMetadata := mkModelMetadata {
  md_Enabled : bool;
  md_Weight : Z;
  md_Priority : Z;
  md_SizeB : float64;
  md_InputPrice : float64;
  md_OutputPrice : float64;
  md_Context : Z;
  md_Tags : list string;
  md_MMProjection : option MMProjectionPolicy;
  md_MMProjectionDisabled : bool;
  md_DiscoveryDisabled : bool;
}.

(** What reading a missing key of the map of metadata gives. *)
Definition no_metadata : ModelMetadata :=
  mkModelMetadata false 0 0 f64_zero f64_zero f64_zero 0 [] None false false.

Record KeywordRule := mkKeywordRule {
  kr_Name : string;
  kr_Keywords : list string;
  kr_MatchAll : bool;
  kr_Strategy : string;
  kr_Models : list string;
  kr_VirtualModel : string;
}.

Record RoutingPolicy := mkRoutingPolicy {
  rp_Version : Z;
  rp_Revision : Z;
  rp_DefaultVirtualModel : string;
  rp_VirtualModels : gmap string VirtualModel;
  rp_Models : gmap string ModelMetadata;
  rp_KeywordRules : list KeywordRule;
}.

Definition with_version (version : Z) (p : RoutingPolicy) : RoutingPolicy :=
  mkRoutingPolicy version (rp_Revision p) (rp_DefaultVirtualModel p) (rp_VirtualModels p) (rp_Models p) (rp_KeywordRules p).
Definition with_revision (revision : Z) (p : RoutingPolicy) : RoutingPolicy :=
  mkRoutingPolicy (rp_Version p) revision (rp_DefaultVirtualModel p) (rp_VirtualModels p) (rp_Models p) (rp_KeywordRules p).
Definition with_models (models : gmap string ModelMetadata) (p : RoutingPolicy) : RoutingPolicy :=
  mkRoutingPolicy (rp_Version p) (rp_Revision p) (rp_DefaultVirtualModel p) (rp_VirtualModels p) models (rp_KeywordRules p).

Definition effectivePicker (p : StageRouterPolicy) : string :=
  if String.eqb (sr_Picker p) "" then StagePickerEfficientFirst else sr_Picker p.

(** The constant [0.5]. *)
Definition f64_half : float64 := f64_div (f64_of_int 1) (f64_of_int 2).

Definition effectiveThreshold (p : StageRouterPolicy) : float64 := default f64_half (sr_ConfidenceThreshold p).
Definition effectiveWindow (p : StageRouterPolicy) : Z :=
  if sr_RecentTurnWindow p <=? 0 then 3 else sr_RecentTurnWindow p.

(** The keys of [strategies]. *)
Definition strategies : list string :=
  ["random"; "round_robin"; "weighted_round_robin"; "smallest"; "largest"; "lowest_cost"; "fastest"; "balanced";
   "stage_router"]%string.
Definition known_strategy (name : string) : bool := bool_decide (name ∈ strategies).

(** ** Strings *)

(** [strings.Contains] *)
Fixpoint is_prefix (p l : list ascii) : bool :=
  match p, l with
  | [], _ => true
  | a :: p, b :: l => Ascii.eqb a b && is_prefix p l
  | _ :: _, [] => false
  end.
Fixpoint contains_from (p l : list ascii) : bool :=
  is_prefix p l || match l with [] => false | _ :: l => contains_from p l end.
Definition Contains (s substr : string) : bool := contains_from (bytes substr) (bytes s).

Example Contains_examples :
  Contains "please review this" "review" = true /\ Contains "re" "review" = false /\ Contains "" "" = true.
Proof. vm_compute. done. Qed.

(** A rune outside ASCII has no byte below 128. *)
Definition hasControlCharacter (value : string) : bool :=
  existsb (fun c => (byte_of c <? 32)%nat || (byte_of c =? 127)%nat) (bytes value).

Definition byte_between (low high : nat) (c : ascii) : bool := ((low <=? byte_of c) && (byte_of c <=? high))%nat.
Definition byte_of_set (set : string) (c : ascii) : bool := existsb (Ascii.eqb c) (bytes set).

Definition validRoutingPresetName (value : string) : bool :=
  match bytes value with
  | [] => false
  | c :: l =>
      let alphanumeric c := byte_between 97 122 c || byte_between 65 90 c || byte_between 48 57 c in
      (len value <=? 64)%nat && alphanumeric c && forallb (fun c => alphanumeric c || byte_of_set "-_." c) l
  end.

Definition validBackendID (id : string) : bool :=
  match bytes id with
  | [] => false
  | c :: l =>
      let alphanumeric c := byte_between 97 122 c || byte_between 48 57 c in
      (len id <=? 64)%nat && alphanumeric c && forallb (fun c => alphanumeric c || byte_of_set "-_" c) l
  end.

(** [strings.Split(typed, ",")] *)
Fixpoint split_commas (l : list ascii) : list (list ascii) :=
  match l with
  | [] => [[]]
  | c :: l =>
      match split_commas l with
      | part :: parts => if Ascii.eqb c "," then [] :: part :: parts else (c :: part) :: parts
      | [] => [[]]
      end
  end.

(** The name and the suffix around the last colon, both not empty. *)
Definition cut_preset (requested : string) : option (string * string) :=
  match before_last_colon (bytes requested) with
  | Some before =>
      let after := drop (S (length before)) (bytes requested) in
      if bool_decide (before = []) || bool_decide (after = []) then None else Some (of_bytes before, of_bytes after)
  | None => None
  end.

Example cut_preset_examples :
  cut_preset "auto:high" = Some ("auto", "high")%string /\ cut_preset ":high" = None /\ cut_preset "auto:" = None /\
  cut_preset "a:b:c" = Some ("a:b", "c")%string.
Proof. vm_compute. done. Qed.

(** ** Validation *)
Section Validation.
Context `{UnicodeTables}.
Context (visit : forall A, gmap string A -> list (string * A)).

(** [len(encoded)] of [json.Marshal(kwargs)]; [None] when it fails. *)
Context (json_size : kwargs -> option Z).

Definition is_blank (s : string) : bool := String.eqb (TrimSpace s) "".

Definition invalid_text (limit : Z) (s : string) : bool := is_blank s || (limit <? zlen s) || hasControlCharacter s.

(** The loop of [routingStringList]. *)
Definition list_step (out : list string) (raw : string) : option (list string) :=
  let item := TrimSpace raw in
  if String.eqb item "" || (256 <? zlen item) || hasControlCharacter item then None
  else if bool_decide (item ∈ out) then Some out else Some (out ++ [item]).

Fixpoint list_items (out : list string) (l : list string) : option (list string) :=
  match l with
  | [] => Some out
  | raw :: l => out ← list_step out raw; list_items out l
  end.

Definition json_string (j : json) : option string := match j with JString s => Some s | _ => None end.

(** [routingStringList]; a missing key is [nil]. *)
Definition routingStringList (value : option json) (allowCSV : bool) : option (list string) :=
  match value with
  | Some (JString s) => if allowCSV then list_items [] (of_bytes <$> split_commas (bytes s)) else None
  | Some (JStrings l) => list_items [] l
  | Some (JArray l) => items ← mapM json_string l; list_items [] items
  | _ => None
  end.

Definition validateMMProjectionPolicy (policy : option MMProjectionPolicy) : option string :=
  match policy with
  | None => None
  | Some policy =>
      let mode := TrimSpace (pr_FailureMode policy) in
      let mode := if String.eqb mode "" then "fallback"%string else mode in
      let analyzer := TrimSpace (pr_AnalyzerModel policy) in
      first_error
        [fail_if (negb (String.eqb mode "fallback") && negb (String.eqb mode "fail_closed"))
           "mm_projection failure_mode must be fallback or fail_closed";
         fail_if (negb (pr_TimeoutMS policy =? 0) && ((pr_TimeoutMS policy <? 1000) || (900000 <? pr_TimeoutMS policy)))
           "mm_projection timeout_ms must be between 1000 and 900000";
         fail_if ((256 <? zlen analyzer) || hasControlCharacter analyzer)
           "mm_projection analyzer_model must be at most 256 characters without control characters"]
  end.

Definition known_model_step (models : gmap string ModelMetadata) (seen : list string) (n : string) : string + list string :=
  if bool_decide (n ∈ seen) then inl "duplicate model %q"%string
  else if bool_decide (is_Some (models !! n)) then inr (seen ++ [n]) else inl "unknown model %q"%string.

Definition validateModels (names : list string) (models : gmap string ModelMetadata) : option string :=
  match scan (known_model_step models) [] names with inl err => Some err | inr _ => None end.

Definition is_finite (x : float64) : bool :=
  match x with S754_zero _ | S754_finite _ _ _ => true | _ => false end.

Definition validateStageRouterPolicy (virtual : VirtualModel) : option string :=
  if negb (String.eqb (vm_Strategy virtual) "stage_router") then
    fail_if (bool_decide (is_Some (vm_StageRouter virtual))) "stage_router settings require strategy stage_router"
  else
    match vm_StageRouter virtual with
    | None => Some "strategy stage_router requires stage_router settings"%string
    | Some policy =>
        let capable := sr_CapableModel policy in
        let efficient := sr_EfficientModel policy in
        let threshold := effectiveThreshold policy in
        first_error
          [fail_if (String.eqb capable "" || String.eqb efficient "" || String.eqb capable efficient)
             "stage_router requires distinct capable_model and efficient_model values";
           fail_if (negb (length (vm_Models virtual) =? 2)%nat || negb (bool_decide (capable ∈ vm_Models virtual)) ||
                    negb (bool_decide (efficient ∈ vm_Models virtual)))
             "stage_router models must contain exactly capable_model and efficient_model";
           fail_if (negb (String.eqb (effectivePicker policy) StagePickerEfficientFirst) &&
                    negb (String.eqb (effectivePicker policy) StagePickerCapableFirst))
             "stage_router picker must be efficient_first or capable_first";
           fail_if (negb (is_finite threshold) || f64_lt threshold f64_zero || f64_lt (f64_of_int 1) threshold)
             "stage_router confidence_threshold must be between 0 and 1";
           fail_if ((sr_RecentTurnWindow policy <? 0) || (32 <? sr_RecentTurnWindow policy))
             "stage_router recent_turn_window must be between 1 and 32, or 0 for the default"]
    end.

Definition validateRoutingKwargs (args : kwargs) (models : gmap string ModelMetadata) : option string :=
  first_error
    [fail_if (64 <? Z.of_nat (size args)) "kwargs object has more than 64 keys";
     fail_if match json_size args with Some n => 65536 <? n | None => true end
       "kwargs object must be JSON and at most 64 KiB";
     check_all (fun kv => fail_if (invalid_text 128 kv.1) "invalid kwargs key %q") (visit json args);
     match args !! "strategy"%string with
     | Some raw =>
         fail_if match raw with JString s => negb (known_strategy s) | _ => true end
           "strategy kwarg must name a supported Go fallback strategy"
     | None => None
     end;
     match args !! "models"%string with
     | Some raw =>
         match routingStringList (Some raw) false with
         | Some (n :: names) => validateModels (n :: names) models
         | _ => Some "models kwarg must be a non-empty list of model IDs"%string
         end
     | None => None
     end;
     match args !! "provider_priority"%string with
     | Some raw =>
         match routingStringList (Some raw) true with
         | Some (n :: providers) =>
             first_error
               [fail_if (64 <? Z.of_nat (length (n :: providers)))
                  "provider_priority kwarg must be a provider ID or bounded list of provider IDs";
                check_all (fun provider => fail_if (negb (validBackendID (ToLower (TrimSpace provider))))
                    "provider_priority contains invalid provider %q") (n :: providers)]
         | _ => Some "provider_priority kwarg must be a provider ID or bounded list of provider IDs"%string
         end
     | None => None
     end].

(** *** The namespace of selectors *)
Definition selector_alias_step (name : string) (owners : gmap string string) (rawAlias : string) : string + gmap string string :=
  let alias := TrimSpace rawAlias in
  if String.eqb alias "" || negb (String.eqb alias rawAlias) || (256 <? zlen alias) || Contains alias ":" ||
     hasControlCharacter alias
  then inl "virtual model %q has invalid alias %q"%string
  else if bool_decide (is_Some (owners !! alias)) then
    inl "virtual alias %q conflicts with virtual model or alias owned by %q"%string
  else inr (<[alias := name]> owners).

Definition preset_error (policy : RoutingPolicy) (name : string) (virtual : VirtualModel)
    (preset : string * option kwargs) : option string :=
  first_error
    [fail_if (negb (validRoutingPresetName preset.1) || negb (bool_decide (is_Some preset.2)))
       "virtual model %q has invalid kwargs preset %q";
     check_all (fun endpoint => fail_if (bool_decide (is_Some (rp_VirtualModels policy !! (endpoint +:+ ":" +:+ preset.1))))
         "virtual kwargs endpoint %q conflicts with a virtual model") (name :: vm_Aliases virtual)].

Definition namespace_step (policy : RoutingPolicy) (state : gmap string string * Z) (entry : string * VirtualModel)
  : string + gmap string string * Z :=
  let '(owners, totalEndpoints) := state in
  let '(name, virtual) := entry in
  if 64 <? Z.of_nat (length (vm_Aliases virtual)) then inl "virtual model %q has more than 64 aliases"%string
  else
    match scan (selector_alias_step name) owners (vm_Aliases virtual) with
    | inl err => inl err
    | inr owners =>
        let totalEndpoints :=
          totalEndpoints + (1 + Z.of_nat (length (vm_Aliases virtual))) * (1 + Z.of_nat (size (vm_Kwargs virtual))) in
        match first_error
            [fail_if (64 <? Z.of_nat (size (vm_Kwargs virtual))) "virtual model %q has more than 64 kwargs presets";
             fail_if (maxRoutingPublicEndpoints <? totalEndpoints) "virtual namespace publishes more than %d endpoints";
             check_all (preset_error policy name virtual) (visit _ (vm_Kwargs virtual))] with
        | Some err => inl err
        | None => inr (owners, totalEndpoints)
        end
    end.

Definition validateVirtualNamespace (policy : RoutingPolicy) : option string :=
  let entries := visit _ (rp_VirtualModels policy) in
  first_error
    [check_all (fun entry => fail_if (invalid_text 256 entry.1 || Contains entry.1 ":")
         "virtual model %q has an invalid name") entries;
     match scan (namespace_step policy) (list_to_map ((fun entry => (entry.1, entry.1)) <$> entries), 0) entries with
     | inl err => Some err
     | inr _ => None
     end].

(** *** The policy *)
Definition virtual_error (p : RoutingPolicy) (entry : string * VirtualModel) : option string :=
  let vm := entry.2 in
  first_error
    [fail_if (negb (known_strategy (vm_Strategy vm))) "virtual model %q: unknown strategy %q";
     fail_if (maxRoutingCandidateModels <? Z.of_nat (length (vm_Models vm))) "virtual model %q has more than %d candidates";
     wrap "virtual model %q: " (validateModels (vm_Models vm) (rp_Models p));
     wrap "virtual model %q: " (validateStageRouterPolicy vm);
     check_all (fun preset =>
         let args := default ∅ preset.2 in
         first_error
           [wrap "virtual model %q kwargs %q: " (validateRoutingKwargs args (rp_Models p));
            fail_if (String.eqb (vm_Strategy vm) "stage_router" && bool_decide (is_Some (args !! "strategy"%string)))
              "virtual model %q kwargs %q: stage_router presets cannot override strategy";
            fail_if (String.eqb (vm_Strategy vm) "stage_router" && bool_decide (is_Some (args !! "models"%string)))
              "virtual model %q kwargs %q: stage_router presets cannot override models"])
       (visit (option kwargs) (vm_Kwargs vm));
     wrap "virtual model %q: " (validateMMProjectionPolicy (vm_MMProjection vm))].

Definition invalid_number (x : float64) : bool := f64_lt x f64_zero || negb (is_finite x).

Definition metadata_error (entry : string * ModelMetadata) : option string :=
  let m := entry.2 in
  first_error
    [fail_if (invalid_text 256 entry.1) "model metadata has invalid model name %q";
     fail_if ((md_Weight m <? 0) || (10000 <? md_Weight m)) "model %q weight must be between 0 and 10000";
     fail_if (invalid_number (md_InputPrice m) || invalid_number (md_OutputPrice m) || invalid_number (md_SizeB m) ||
              (md_Context m <? 0)) "model %q has invalid numeric metadata";
     fail_if (maxRoutingTagsPerModel <? Z.of_nat (length (md_Tags m))) "model %q has more than %d tags";
     check_all (fun tag => fail_if (invalid_text 128 tag) "model %q has invalid tag %q") (md_Tags m);
     wrap "model %q: " (validateMMProjectionPolicy (md_MMProjection m));
     fail_if (md_MMProjectionDisabled m && bool_decide (is_Some (md_MMProjection m)))
       "model %q: mm_projection and mm_projection_disabled cannot both be set"].

Definition rule_error (p : RoutingPolicy) (rule : KeywordRule) : option string :=
  first_error
    [fail_if (bool_decide (kr_Keywords rule = [])) "rule %d has no keywords";
     fail_if (maxRoutingKeywordsPerRule <? Z.of_nat (length (kr_Keywords rule))) "rule %d has more than %d keywords";
     fail_if (maxRoutingCandidateModels <? Z.of_nat (length (kr_Models rule))) "rule %d has more than %d candidates";
     check_all (fun k => fail_if (invalid_text 256 k) "rule %d has empty keyword") (kr_Keywords rule);
     if negb (String.eqb (kr_VirtualModel rule) "") then
       first_error
         [fail_if (negb (bool_decide (is_Some (rp_VirtualModels p !! kr_VirtualModel rule))))
            "rule %d references unknown virtual model %q";
          fail_if (negb (String.eqb (kr_Strategy rule) "") || negb (bool_decide (kr_Models rule = [])))
            "rule %d mixes virtual_model with strategy/models"]
     else
       first_error
         [fail_if (String.eqb (kr_Strategy rule) "stage_router")
            "rule %d: stage_router must be selected through virtual_model so its two-tier policy is retained";
          fail_if (negb (known_strategy (kr_Strategy rule))) "rule %d has unknown strategy %q";
          wrap "rule %d: " (validateModels (kr_Models rule) (rp_Models p))]].

Definition ValidateRoutingPolicy (p : RoutingPolicy) : option string :=
  first_error
    [fail_if (negb (rp_Version p =? RoutingPolicyVersion)) "unsupported routing policy version %d";
     fail_if (bool_decide (size (rp_VirtualModels p) = 0%nat)) "at least one virtual model is required";
     fail_if (maxRoutingVirtualModels <? Z.of_nat (size (rp_VirtualModels p)))
       "routing policy has %d virtual models; maximum is %d";
     fail_if (maxRoutingModels <? Z.of_nat (size (rp_Models p)))
       "routing policy has %d model metadata entries; maximum is %d";
     fail_if (maxRoutingKeywordRules <? Z.of_nat (length (rp_KeywordRules p)))
       "routing policy has %d keyword rules; maximum is %d";
     fail_if (negb (bool_decide (is_Some (rp_VirtualModels p !! "auto"%string)))) "virtual model auto is required";
     validateVirtualNamespace p;
     check_all (virtual_error p) (visit _ (rp_VirtualModels p));
     fail_if (negb (String.eqb (rp_DefaultVirtualModel p) "") &&
              negb (bool_decide (is_Some (rp_VirtualModels p !! rp_DefaultVirtualModel p))))
       "unknown default virtual model %q";
     check_all metadata_error (visit _ (rp_Models p));
     check_all (rule_error p) (rp_KeywordRules p)].
End Validation.

(** ** The compiled policy *)
Record compiledVirtualBase := mkCompiledVirtualBase {
  cb_name : string;
  cb_alias : string;
  cb_virtual : VirtualModel;
}.

Record compiledKeywordRule := mkCompiledKeywordRule {
  ck_rule : KeywordRule;
  ck_keywords : list string;
}.

Record compiledRoutingPolicy := mkCompiledRoutingPolicy {
  cp_policy : RoutingPolicy;
  cp_virtualBases : gmap string compiledVirtualBase;
  cp_rules : list compiledKeywordRule;
}.

Record virtualRequestMatch := mkVirtualRequestMatch {
  vr_Name : string;
  vr_Alias : string;
  vr_Preset : string;
  vr_Virtual : VirtualModel;
  vr_Kwargs : kwargs;
}.

Section Compiled.
Context `{UnicodeTables}.
Context (visit : forall A, gmap string A -> list (string * A)).

Definition add_bases (bases : gmap string compiledVirtualBase) (entry : string * VirtualModel)
  : gmap string compiledVirtualBase :=
  let '(name, virtual) := entry in
  foldl (fun bases alias => <[alias := mkCompiledVirtualBase name alias virtual]> bases)
    (<[name := mkCompiledVirtualBase name "" virtual]> bases) (vm_Aliases virtual).

Definition compileRoutingPolicy (policy : RoutingPolicy) : compiledRoutingPolicy :=
  mkCompiledRoutingPolicy policy (foldl add_bases ∅ (visit _ (rp_VirtualModels policy)))
    ((fun rule => mkCompiledKeywordRule rule ((fun keyword => ToLower (TrimSpace keyword)) <$> kr_Keywords rule))
       <$> rp_KeywordRules policy).

(** A preset that is [nil] reads like an empty one. *)
Definition match_of_base (base : compiledVirtualBase) (preset : string) (args : kwargs) : virtualRequestMatch :=
  mkVirtualRequestMatch (cb_name base) (cb_alias base) preset (cb_virtual base) args.

(** [resolveVirtualRequest]: no error and no match is [inr None]. *)
Definition resolveVirtualRequest (compiled : compiledRoutingPolicy) (requested : string)
  : string + option virtualRequestMatch :=
  match cp_virtualBases compiled !! requested with
  | Some base =>
      inr (Some match vm_Kwargs (cb_virtual base) !! "default"%string with
                | Some configured => match_of_base base "default" (default ∅ configured)
                | None => match_of_base base "" ∅
                end)
  | None =>
      match cut_preset requested with
      | None => inr None
      | Some (name, preset) =>
          match cp_virtualBases compiled !! name with
          | None => inr None
          | Some base =>
              match vm_Kwargs (cb_virtual base) !! preset with
              | None => inl "unknown kwargs preset %q for virtual model %q"%string
              | Some args => inr (Some (match_of_base base preset (default ∅ args)))
              end
          end
      end
  end.

Definition ownsVirtualRequest (compiled : compiledRoutingPolicy) (requested : string) : bool :=
  let requested := TrimSpace requested in
  bool_decide (is_Some (cp_virtualBases compiled !! requested)) ||
  match cut_preset requested with
  | Some (name, _) =>
      match cp_virtualBases compiled !! name with Some base => negb (String.eqb (cb_name base) "") | None => false end
  | None => false
  end.

Definition virtualModelsWithOverrides (virtual : VirtualModel) (args : kwargs) : list string :=
  match routingStringList (args !! "models"%string) false with
  | Some (n :: names) => n :: names
  | _ => vm_Models virtual
  end.

Definition isIdentityVirtualModel (compiled : compiledRoutingPolicy) (name : string) : bool :=
  match cp_virtualBases compiled !! name with
  | None => false
  | Some base =>
      if negb (String.eqb (cb_alias base) "") || negb (String.eqb (cb_name base) name) then false
      else
        let args := default ∅ (mjoin (vm_Kwargs (cb_virtual base) !! "default"%string)) in
        bool_decide (virtualModelsWithOverrides (cb_virtual base) args = [name])
  end.

(** [compiledKeywordRule.matches] *)
Definition rule_matches (compiled : compiledKeywordRule) (text : string) : bool :=
  let matched := length (List.filter (Contains text) (ck_keywords compiled)) in
  if kr_MatchAll (ck_rule compiled) then Nat.eqb matched (length (ck_keywords compiled)) else (0 <? matched)%nat.
End Compiled.

(** ** Discovered metadata *)
Record DiscoveredModelMetadata := mkDiscoveredModelMetadata {
  dm_SizeB : option float64;
  dm_InputPrice : option float64;
  dm_OutputPrice : option float64;
  dm_Context : option Z;
  dm_Tags : list string;
}.

Definition no_discovery : DiscoveredModelMetadata := mkDiscoveredModelMetadata None None None None [].

Record DiscoveredMetadataSnapshot := mkDiscoveredMetadataSnapshot {
  ds_Source : string;
  ds_ObservedAt : Z;
  ds_Models : gmap string DiscoveredModelMetadata;
}.

(** [math.SmallestNonzeroFloat64] *)
Definition SmallestNonzeroFloat64 : float64 := S754_finite false 1 (-1074).

(** The loops of [reduceDiscoveredModelMetadata]: the lesser context, the greater
    size and prices. *)
Definition reduce_min (current next : option Z) : option Z :=
  match next, current with
  | None, _ => current
  | Some n, None => Some n
  | Some n, Some c => if n <? c then Some n else Some c
  end.
Definition reduce_max (current next : option float64) : option float64 :=
  match next, current with
  | None, _ => current
  | Some n, None => Some n
  | Some n, Some c => if f64_lt c n then Some n else Some c
  end.

Definition compact_step (result : list string) (value : string) : list string :=
  match last result with
  | Some l => if String.eqb value l then result else result ++ [value]
  | None => [value]
  end.

Definition compactStrings (values : list string) : list string := foldl compact_step [] values.

Section Discovery.
Context `{UnicodeTables}.
Context (visit : forall A, gmap string A -> list (string * A)).

Definition normalizeDiscoveredTags (tags : list string) : list string :=
  compactStrings (sort_Strings (TrimSpace <$> tags)).

Definition reduceDiscoveredModelMetadata (current next : DiscoveredModelMetadata) : DiscoveredModelMetadata :=
  mkDiscoveredModelMetadata (reduce_max (dm_SizeB current) (dm_SizeB next))
    (reduce_max (dm_InputPrice current) (dm_InputPrice next))
    (reduce_max (dm_OutputPrice current) (dm_OutputPrice next))
    (reduce_min (dm_Context current) (dm_Context next))
    (normalizeDiscoveredTags (dm_Tags current ++ dm_Tags next)).

(** [aggregateDiscoveredMetadata]; the models of one source are independent. *)
Definition aggregate_step (result : gmap string DiscoveredModelMetadata) (entry : string * DiscoveredModelMetadata)
  : gmap string DiscoveredModelMetadata :=
  <[entry.1 := reduceDiscoveredModelMetadata (default no_discovery (result !! entry.1)) entry.2]> result.

Definition by_name {A} (l : list (string * A)) : list (string * A) :=
  stable_sort (fun x y => String.ltb x.1 y.1) l.

Definition aggregateDiscoveredMetadata (sources : list DiscoveredMetadataSnapshot)
  : gmap string DiscoveredModelMetadata :=
  foldl (fun result source => foldl aggregate_step result (by_name (visit _ (ds_Models source)))) ∅ sources.

Definition invalid_discovered (minimum : float64) (value : option float64) : bool :=
  match value with Some x => f64_lt x minimum || negb (is_finite x) | None => false end.

Definition validateDiscoveredModelMetadata (metadata : DiscoveredModelMetadata) : option string :=
  first_error
    [fail_if (invalid_discovered SmallestNonzeroFloat64 (dm_SizeB metadata) ||
              invalid_discovered f64_zero (dm_InputPrice metadata) ||
              invalid_discovered f64_zero (dm_OutputPrice metadata)) "discovered model %q has invalid %s";
     fail_if match dm_Context metadata with Some c => c <=? 0 | None => false end
       "discovered model %q has invalid context";
     fail_if (maxRoutingTagsPerModel <? Z.of_nat (length (dm_Tags metadata)))
       "discovered model %q has more than %d tags";
     check_all (fun tag => fail_if (invalid_text 128 tag) "discovered model %q has invalid tag %q") (dm_Tags metadata)].

Definition normalize_model (models : gmap string DiscoveredModelMetadata) (entry : string * DiscoveredModelMetadata)
  : string + gmap string DiscoveredModelMetadata :=
  let '(model, metadata) := entry in
  let model := TrimSpace model in
  if String.eqb model "" || (256 <? zlen model) || hasControlCharacter model
  then inl "discovered metadata has invalid model name %q"%string
  else
    match validateDiscoveredModelMetadata metadata with
    | Some err => inl err
    | None =>
        inr (<[model := mkDiscoveredModelMetadata (dm_SizeB metadata) (dm_InputPrice metadata) (dm_OutputPrice metadata)
                 (dm_Context metadata) (normalizeDiscoveredTags (dm_Tags metadata))]> models)
    end.

Definition invalid_source (source : string) : bool :=
  String.eqb source "" || (128 <? zlen source) || hasControlCharacter source.

(** [normalizeDiscoveredMetadataSnapshot]; [now] is the clock. *)
Definition normalizeDiscoveredMetadataSnapshot (now : Z) (snapshot : DiscoveredMetadataSnapshot)
  : string + DiscoveredMetadataSnapshot :=
  let source := TrimSpace (ds_Source snapshot) in
  if invalid_source source then inl "discovered metadata source is invalid"%string
  else if maxRoutingModels <? Z.of_nat (size (ds_Models snapshot))
  then inl "discovered metadata source %q has more than %d models"%string
  else
    let observedAt := if time_IsZero (ds_ObservedAt snapshot) then now else ds_ObservedAt snapshot in
    match scan normalize_model ∅ (visit _ (ds_Models snapshot)) with
    | inl err => inl err
    | inr models => inr (mkDiscoveredMetadataSnapshot source observedAt models)
    end.

(** A configured field keeps its value unless it is zero. *)
Definition or_discovered (configured : float64) (discovered : option float64) : float64 :=
  if f64_eq configured f64_zero then default configured discovered else configured.

Definition merge_step (models : gmap string ModelMetadata) (entry : string * DiscoveredModelMetadata)
  : gmap string ModelMetadata :=
  let '(name, discovered) := entry in
  let metadata := default no_metadata (models !! name) in
  if md_DiscoveryDisabled metadata then models
  else
    <[name :=
        mkModelMetadata (md_Enabled metadata || negb (bool_decide (is_Some (models !! name))))
          (md_Weight metadata) (md_Priority metadata)
          (or_discovered (md_SizeB metadata) (dm_SizeB discovered))
          (or_discovered (md_InputPrice metadata) (dm_InputPrice discovered))
          (or_discovered (md_OutputPrice metadata) (dm_OutputPrice discovered))
          (if md_Context metadata =? 0 then default (md_Context metadata) (dm_Context discovered) else md_Context metadata)
          (if bool_decide (md_Tags metadata = []) then dm_Tags discovered else md_Tags metadata)
          (md_MMProjection metadata) (md_MMProjectionDisabled metadata) (md_DiscoveryDisabled metadata)]> models.

Definition by_source (sources : list DiscoveredMetadataSnapshot) : list DiscoveredMetadataSnapshot :=
  stable_sort (fun x y => String.ltb (ds_Source x) (ds_Source y)) sources.

Definition mergeDiscoveredMetadata (policy : RoutingPolicy) (sources : gmap string DiscoveredMetadataSnapshot)
  : RoutingPolicy :=
  let ordered := by_source (visit _ sources).*2 in
  with_models (foldl merge_step (rp_Models policy) (visit _ (aggregateDiscoveredMetadata ordered))) policy.

(** A deployment overrides the fields it sets; tags that are [nil] are none. *)
Definition deployment_override (models : gmap string ModelMetadata) (entry : string * DiscoveredModelMetadata)
  : gmap string ModelMetadata :=
  let '(name, fields) := entry in
  let model := default no_metadata (models !! name) in
  <[name :=
      mkModelMetadata (md_Enabled model || negb (bool_decide (is_Some (models !! name))))
        (md_Weight model) (md_Priority model)
        (default (md_SizeB model) (dm_SizeB fields)) (default (md_InputPrice model) (dm_InputPrice fields))
        (default (md_OutputPrice model) (dm_OutputPrice fields)) (default (md_Context model) (dm_Context fields))
        (if bool_decide (dm_Tags fields = []) then md_Tags model else dm_Tags fields)
        (md_MMProjection model) (md_MMProjectionDisabled model) (md_DiscoveryDisabled model)]> models.
End Discovery.

(** ** The manager *)
Record ModelObservation := mkModelObservation {
  ob_Inflight : Z;
  ob_Requests : Z;
  ob_Errors : Z;
  ob_EWMALatencyMS : float64;
  ob_LastStatus : Z;
}.

Definition no_observation : ModelObservation := mkModelObservation 0 0 0 f64_zero 0.

Record RouterManager := mkRouterManager {
  rm_policy : RoutingPolicy;
  rm_runtime : compiledRoutingPolicy;
  rm_metadata : gmap string DiscoveredMetadataSnapshot;
  rm_metadataGeneration : Z;
  rm_deploymentMetadata : gmap string DiscoveredModelMetadata;
  rm_counters : gmap string Z;
  rm_observations : gmap string ModelObservation;
}.

Definition with_counters (counters : gmap string Z) (r : RouterManager) : RouterManager :=
  mkRouterManager (rm_policy r) (rm_runtime r) (rm_metadata r) (rm_metadataGeneration r) (rm_deploymentMetadata r)
    counters (rm_observations r).
Definition with_observations (observations : gmap string ModelObservation) (r : RouterManager) : RouterManager :=
  mkRouterManager (rm_policy r) (rm_runtime r) (rm_metadata r) (rm_metadataGeneration r) (rm_deploymentMetadata r)
    (rm_counters r) observations.

Section Manager.
Context `{UnicodeTables}.
Context (visit : forall A, gmap string A -> list (string * A)).
Context (json_size : kwargs -> option Z).

Definition effectivePolicy (metadata : gmap string DiscoveredMetadataSnapshot)
    (deployments : gmap string DiscoveredModelMetadata) (policy : RoutingPolicy) : RoutingPolicy :=
  let effective := mergeDiscoveredMetadata visit policy metadata in
  with_models (foldl deployment_override (rp_Models effective) (visit _ deployments)) effective.

(** The compiled policy of a manager, from what it stores. *)
Definition runtime_of (policy : RoutingPolicy) (metadata : gmap string DiscoveredMetadataSnapshot)
    (deployments : gmap string DiscoveredModelMetadata) : compiledRoutingPolicy :=
  compileRoutingPolicy visit (effectivePolicy metadata deployments policy).

Definition installPolicyLocked (policy : RoutingPolicy) (r : RouterManager) : RouterManager :=
  mkRouterManager policy (runtime_of policy (rm_metadata r) (rm_deploymentMetadata r)) (rm_metadata r)
    (rm_metadataGeneration r) (rm_deploymentMetadata r) ∅ (rm_observations r).

Definition NewRouterManager (policy : RoutingPolicy) : string + RouterManager :=
  let policy := if rp_Version policy =? 0 then with_version RoutingPolicyVersion policy else policy in
  let policy := if rp_Revision policy =? 0 then with_revision 1 policy else policy in
  match ValidateRoutingPolicy visit json_size policy with
  | Some err => inl err
  | None => inr (mkRouterManager policy (runtime_of policy ∅ ∅) ∅ 0 ∅ ∅ ∅)
  end.

Definition DefaultRoutingPolicy : RoutingPolicy :=
  mkRoutingPolicy RoutingPolicyVersion 1 "auto" {["auto"%string := mkVirtualModel "balanced" [] [] ∅ None None]} ∅ [].

(** [NewDefaultRouterManager] drops the error; [None] is its [nil]. *)
Definition NewDefaultRouterManager : option RouterManager :=
  match NewRouterManager DefaultRoutingPolicy with inl _ => None | inr r => Some r end.

Definition migrateRoutingPolicy (policy : RoutingPolicy) : RoutingPolicy :=
  if (rp_Version policy =? 0) || (rp_Version policy =? 1) then with_version RoutingPolicyVersion policy else policy.

Definition SetPolicy (p : RoutingPolicy) (expectedRevision : Z) (r : RouterManager) : option string * RouterManager :=
  match ValidateRoutingPolicy visit json_size p with
  | Some err => (Some err, r)
  | None =>
      if negb (expectedRevision =? rp_Revision (rm_policy r)) then (Some ErrRevisionConflict, r)
      else (None, installPolicyLocked (with_revision (uint64 (rp_Revision (rm_policy r) + 1)) p) r)
  end.

(** [Publish]; [write] is [writePolicyAtomic] on a path that is not empty, and the
    file is what a reader of that path finds.  It is one step, because the policy
    only changes under [publishMu]. *)
Definition Publish (write : option (RoutingPolicy -> option string)) (p : RoutingPolicy) (expectedRevision : Z)
    (r : RouterManager) (file : option RoutingPolicy) : option string * RouterManager * option RoutingPolicy :=
  match ValidateRoutingPolicy visit json_size p with
  | Some err => (Some err, r, file)
  | None =>
      if negb (expectedRevision =? rp_Revision (rm_policy r)) then (Some ErrRevisionConflict, r, file)
      else
        let p := with_revision (uint64 (rp_Revision (rm_policy r) + 1)) p in
        match write with
        | None => (None, installPolicyLocked p r, file)
        | Some write =>
            match write p with
            | Some err => (Some err, r, file)
            | None => (None, installPolicyLocked p r, Some p)
            end
        end
  end.

(** [Save] writes the policy in force. *)
Definition Save (write : RoutingPolicy -> option string) (expectedRevision : Z) (r : RouterManager)
    (file : option RoutingPolicy) : option string * option RoutingPolicy :=
  if negb (expectedRevision =? rp_Revision (rm_policy r)) then (Some ErrRevisionConflict, file)
  else
    match write (rm_policy r) with
    | Some err => (Some err, file)
    | None => (None, Some (rm_policy r))
    end.

Definition with_metadata (metadata : gmap string DiscoveredMetadataSnapshot) (generation : Z) (r : RouterManager)
  : RouterManager :=
  mkRouterManager (rm_policy r) (runtime_of (rm_policy r) metadata (rm_deploymentMetadata r)) metadata generation
    (rm_deploymentMetadata r) (rm_counters r) (rm_observations r).

Definition ReplaceDiscoveredMetadata (now : Z) (snapshot : DiscoveredMetadataSnapshot) (r : RouterManager)
  : option string * RouterManager :=
  match normalizeDiscoveredMetadataSnapshot visit now snapshot with
  | inl err => (Some err, r)
  | inr normalized =>
      if negb (bool_decide (is_Some (rm_metadata r !! ds_Source normalized))) &&
         (maxDiscoveredMetadataSources <=? Z.of_nat (size (rm_metadata r)))
      then (Some "discovered metadata has more than %d sources"%string, r)
      else
        (None, with_metadata (<[ds_Source normalized := normalized]> (rm_metadata r))
                 (uint64 (rm_metadataGeneration r + 1)) r)
  end.

Definition RemoveDiscoveredMetadata (source : string) (r : RouterManager) : option string * RouterManager :=
  let source := TrimSpace source in
  if invalid_source source then (Some "discovered metadata source is invalid"%string, r)
  else
    match rm_metadata r !! source with
    | None => (None, r)
    | Some _ => (None, with_metadata (delete source (rm_metadata r)) (uint64 (rm_metadataGeneration r + 1)) r)
    end.

Definition ReplaceDeploymentMetadata (now : Z) (models : gmap string DiscoveredModelMetadata) (r : RouterManager)
  : option string * RouterManager :=
  match normalizeDiscoveredMetadataSnapshot visit now (mkDiscoveredMetadataSnapshot "deployments" 0 models) with
  | inl err => (Some err, r)
  | inr normalized =>
      (None, mkRouterManager (rm_policy r) (runtime_of (rm_policy r) (rm_metadata r) (ds_Models normalized))
               (rm_metadata r) (rm_metadataGeneration r) (ds_Models normalized) (rm_counters r) (rm_observations r))
  end.

(** [DiscoveredMetadata]: the generation, the sources and their reduction. *)
Definition DiscoveredMetadata (r : RouterManager)
  : Z * list DiscoveredMetadataSnapshot * gmap string DiscoveredModelMetadata :=
  let sources := by_source (visit _ (rm_metadata r)).*2 in
  (rm_metadataGeneration r, sources, aggregateDiscoveredMetadata visit sources).

(** [PublicModels] *)
Definition public_names (entry : string * VirtualModel) : list string :=
  (entry.1 :: vm_Aliases entry.2) ≫= fun endpoint =>
    endpoint :: ((fun preset => endpoint +:+ ":" +:+ preset.1) <$> visit (option kwargs) (vm_Kwargs entry.2)).
Definition PublicModels (r : RouterManager) : list string :=
  sort_Strings (visit _ (rp_VirtualModels (rm_policy r)) ≫= public_names).

Definition OwnsVirtualRequest (requested : string) (r : RouterManager) : bool :=
  ownsVirtualRequest (rm_runtime r) requested.
End Manager.
