(* ===== verification/Policies.v ===== *)
(** * Routing policies ([pkg/config/config.go], [pkg/config/validate.go])

    The circuit, retry, limit, selection and recovery policies of a
    configuration document: the raw records, the [Effective] records with the
    defaults filled in, and the [Validate] checks.  A duration is an [int64] of
    nanoseconds, a rate a binary64 value; an error is the format string of the
    source's [fmt.Errorf]. *)

From stdpp Require Import base list strings.
From Stdlib Require Import ZArith Lia SpecFloat.
From S2P Require Import Prelude.

Local Open Scope Z_scope.

(** ** Constants *)
Definition maxAttempts : Z := 16.
Definition maxConcurrency_limit : Z := 1000000.
Definition maxCircuitSamples : Z := 10000.
Definition maxRetryConcurrency : Z := 1000000.
Definition defaultCircuitConsecutiveFailures : Z := 5.
Definition defaultCircuitMinimumSamples : Z := 20.
Definition defaultCircuitSampleWindow : Z := 50.
(** 0.5 *)
Definition defaultCircuitFailureRate : float64 := S754_finite false 4503599627370496 (-53).
Definition defaultCircuitBaseEjectionTime : Z := 30 * Second.
Definition defaultCircuitMaxEjectionTime : Z := 10 * Minute.
Definition maxConfiguredEjectionTime : Z := 24 * Hour.
Definition defaultOverallTimeout : Z := 10 * Minute.
Definition defaultStreamIdleTimeout : Z := 2 * Minute.
Definition maxConfiguredTimeout : Z := 24 * Hour.
Definition defaultRetryBaseBackoff : Z := 100 * Millisecond.
Definition defaultRetryMaxBackoff : Z := 2 * Second.
Definition defaultRetryMaxRetryAfter : Z := 30 * Second.
(** 0.2 *)
Definition defaultRetryBudgetRatio : float64 := S754_finite false 7205759403792794 (-55).
Definition defaultRetryMinConcurrency : Z := 1.
(** 10 *)
Definition maxRetryBudgetRatio : float64 := f64_of_int 10.
Definition defaultPromptCacheAffinityTTL : Z := 5 * Minute.
Definition maxPromptCacheAffinityTTL : Z := 24 * Hour.
Definition defaultPromptCacheMinPrefixBytes : Z := 4096.
Definition maxPromptCacheMinPrefixBytes : Z := 33554432.
Definition defaultPromptCacheMaxPrefixes : Z := 8.
Definition maxPromptCacheMaxPrefixes : Z := 64.

(** [if value == 0 { value = default }] *)
Definition or_default (v d : Z) : Z := if v =? 0 then d else v.
Definition or_default_str (v d : string) : string := if String.eqb v "" then d else v.

(** ** Circuit policy *)
Record CircuitPolicy := mkCircuitPolicy {
  cp_Disabled : bool;
  cp_ConsecutiveFailures : Z;
  cp_MinimumSamples : Z;
  cp_SampleWindow : Z;
  cp_FailureRate : float64;
  cp_BaseEjectionTime : Z;
  cp_MaxEjectionTime : Z;
}.

Record EffectiveCircuitPolicy := mkEffectiveCircuitPolicy {
  ecp_Disabled : bool;
  ecp_ConsecutiveFailures : Z;
  ecp_MinimumSamples : Z;
  ecp_SampleWindow : Z;
  ecp_FailureRate : float64;
  ecp_BaseEjectionTime : Z;
  ecp_MaxEjectionTime : Z;
}.

Definition CircuitPolicy_Effective (p : CircuitPolicy) : EffectiveCircuitPolicy :=
  let consecutive := or_default (cp_ConsecutiveFailures p) defaultCircuitConsecutiveFailures in
  let minimum := or_default (cp_MinimumSamples p) defaultCircuitMinimumSamples in
  let window :=
    if cp_SampleWindow p =? 0 then
      (if defaultCircuitSampleWindow <? minimum then minimum else defaultCircuitSampleWindow)
    else cp_SampleWindow p in
  let rate :=
    if f64_eq (cp_FailureRate p) f64_zero then defaultCircuitFailureRate else cp_FailureRate p in
  let base := or_default (cp_BaseEjectionTime p) defaultCircuitBaseEjectionTime in
  let maximum :=
    if cp_MaxEjectionTime p =? 0 then
      (if defaultCircuitMaxEjectionTime <? base then base else defaultCircuitMaxEjectionTime)
    else cp_MaxEjectionTime p in
  {| ecp_Disabled := cp_Disabled p;
     ecp_ConsecutiveFailures := consecutive;
     ecp_MinimumSamples := minimum;
     ecp_SampleWindow := window;
     ecp_FailureRate := rate;
     ecp_BaseEjectionTime := base;
     ecp_MaxEjectionTime := maximum |}.

Arguments CircuitPolicy_Effective : simpl never.

Definition CircuitPolicy_Validate (p : CircuitPolicy) : option string :=
  let effective := CircuitPolicy_Effective p in
  let consecutive := ecp_ConsecutiveFailures effective in
  let minimum := ecp_MinimumSamples effective in
  let window := ecp_SampleWindow effective in
  let rate := ecp_FailureRate effective in
  let base := ecp_BaseEjectionTime effective in
  let maximum := ecp_MaxEjectionTime effective in
  if (consecutive <? 1) || (maxCircuitSamples <? consecutive) then
    Some "consecutive_failures must be between 1 and %d, or 0 for default"%string
  else if (minimum <? 1) || (maxCircuitSamples <? minimum) then
    Some "minimum_samples must be between 1 and %d, or 0 for default"%string
  else if (window <? minimum) || (maxCircuitSamples <? window) then
    Some "sample_window must be between effective minimum_samples (%d) and %d"%string
  else if f64_le rate f64_zero || f64_lt (f64_of_int 1) rate then
    Some "failure_rate must be greater than 0 and at most 1, or 0 for default"%string
  else if (base <=? 0) || (maxConfiguredEjectionTime <? base) then
    Some "base_ejection_time must be positive and at most %s"%string
  else if (maximum <? base) || (maxConfiguredEjectionTime <? maximum) then
    Some "max_ejection_time must be at least base_ejection_time and at most %s"%string
  else None.

(** ** Retry policy *)
Record RetryBudgetPolicy := mkRetryBudgetPolicy {
  rb_Disabled : bool;
  rb_Ratio : float64;
  rb_MinConcurrency : Z;
}.

Record RetryPolicy := mkRetryPolicy {
  rp_Disabled : bool;
  rp_BaseBackoff : Z;
  rp_MaxBackoff : Z;
  rp_MaxRetryAfter : Z;
  rp_Budget : RetryBudgetPolicy;
}.

Record EffectiveRetryBudgetPolicy := mkEffectiveRetryBudgetPolicy {
  erb_Disabled : bool;
  erb_Ratio : float64;
  erb_MinConcurrency : Z;
}.

Record EffectiveRetryPolicy := mkEffectiveRetryPolicy {
  erp_Disabled : bool;
  erp_BaseBackoff : Z;
  erp_MaxBackoff : Z;
  erp_MaxRetryAfter : Z;
  erp_Budget : EffectiveRetryBudgetPolicy;
}.

Definition RetryPolicy_Effective (p : RetryPolicy) : EffectiveRetryPolicy :=
  let base := or_default (rp_BaseBackoff p) defaultRetryBaseBackoff in
  let maximum :=
    if rp_MaxBackoff p =? 0 then
      (if defaultRetryMaxBackoff <? base then base else defaultRetryMaxBackoff)
    else rp_MaxBackoff p in
  let maxRetryAfter := or_default (rp_MaxRetryAfter p) defaultRetryMaxRetryAfter in
  let ratio :=
    if f64_eq (rb_Ratio (rp_Budget p)) f64_zero then defaultRetryBudgetRatio
    else rb_Ratio (rp_Budget p) in
  let minimum := or_default (rb_MinConcurrency (rp_Budget p)) defaultRetryMinConcurrency in
  {| erp_Disabled := rp_Disabled p;
     erp_BaseBackoff := base;
     erp_MaxBackoff := maximum;
     erp_MaxRetryAfter := maxRetryAfter;
     erp_Budget := {|
       erb_Disabled := rb_Disabled (rp_Budget p);
       erb_Ratio := ratio;
       erb_MinConcurrency := minimum |} |}.

Arguments RetryPolicy_Effective : simpl never.

Definition RetryPolicy_Validate (p : RetryPolicy) : option string :=
  let effective := RetryPolicy_Effective p in
  if (erp_BaseBackoff effective <=? 0) || (maxConfiguredTimeout <? erp_BaseBackoff effective) then
    Some "base_backoff must be positive and at most %s"%string
  else if (erp_MaxBackoff effective <? erp_BaseBackoff effective) ||
          (maxConfiguredTimeout <? erp_MaxBackoff effective) then
    Some "max_backoff must be at least base_backoff and at most %s"%string
  else if (erp_MaxRetryAfter effective <=? 0) ||
          (maxConfiguredTimeout <? erp_MaxRetryAfter effective) then
    Some "max_retry_after must be positive and at most %s"%string
  else if f64_le (erb_Ratio (erp_Budget effective)) f64_zero ||
          f64_lt maxRetryBudgetRatio (erb_Ratio (erp_Budget effective)) then
    Some "budget.ratio must be greater than 0 and at most %g, or 0 for the default"%string
  else if (erb_MinConcurrency (erp_Budget effective) <? 1) ||
          (maxRetryConcurrency <? erb_MinConcurrency (erp_Budget effective)) then
    Some "budget.min_concurrency must be between 1 and %d, or 0 for the default"%string
  else None.

(** ** Limits *)
Record ModelLimits := mkModelLimits {
  ml_MaxAttempts : Z;
  ml_OverallTimeout : Z;
  ml_PerTryTimeout : Z;
  ml_StreamIdleTimeout : Z;
}.

Record EffectiveModelLimits := mkEffectiveModelLimits {
  eml_MaxAttempts : Z;
  eml_OverallTimeout : Z;
  eml_PerTryTimeout : Z;
  eml_StreamIdleTimeout : Z;
}.

Definition ModelLimits_Effective (p : ModelLimits) : EffectiveModelLimits :=
  let attempts := or_default (ml_MaxAttempts p) 3 in
  let overall := or_default (ml_OverallTimeout p) defaultOverallTimeout in
  let perTry := or_default (ml_PerTryTimeout p) overall in
  let streamIdle := or_default (ml_StreamIdleTimeout p) defaultStreamIdleTimeout in
  {| eml_MaxAttempts := attempts;
     eml_OverallTimeout := overall;
     eml_PerTryTimeout := perTry;
     eml_StreamIdleTimeout := streamIdle |}.

Definition ModelLimits_Validate (p : ModelLimits) : option string :=
  let effective := ModelLimits_Effective p in
  if (ml_MaxAttempts p <? 0) || (maxAttempts <? ml_MaxAttempts p) then
    Some "max_attempts must be between 1 and %d, or 0 for the default"%string
  else if (eml_OverallTimeout effective <=? 0) ||
          (maxConfiguredTimeout <? eml_OverallTimeout effective) then
    Some "overall_timeout must be positive and at most %s"%string
  else if (eml_PerTryTimeout effective <=? 0) ||
          (maxConfiguredTimeout <? eml_PerTryTimeout effective) then
    Some "per_try_timeout must be positive and at most %s"%string
  else if (eml_StreamIdleTimeout effective <=? 0) ||
          (maxConfiguredTimeout <? eml_StreamIdleTimeout effective) then
    Some "stream_idle_timeout must be positive and at most %s"%string
  else None.

(** ** Selection *)
Definition SelectionWeightedRandom : string := "weighted_random".
Definition SelectionWeightedHash : string := "weighted_hash".

Definition SelectionHashTenant : string := "tenant".
Definition SelectionHashPrincipal : string := "principal".
Definition SelectionHashUser : string := "user".
Definition SelectionHashWorkspace : string := "workspace".
Definition SelectionHashThreadID : string := "thread_id".
Definition SelectionHashTaskID : string := "task_id".
Definition SelectionHashExperiment : string := "experiment".
Definition SelectionHashSession : string := "session".

Definition PromptCacheAffinityCaller : string := "caller".
Definition PromptCacheAffinityTenant : string := "tenant".

Record PromptCacheAffinityPolicy := mkPromptCacheAffinityPolicy {
  pca_Enabled : bool;
  pca_TTL : Z;
  pca_MinPrefixBytes : Z;
  pca_MaxPrefixesPerRequest : Z;
  pca_Scope : string;
}.

(** [EffectivePromptCacheAffinityPolicy] has the same fields. *)
Definition PromptCacheAffinityPolicy_Effective (p : PromptCacheAffinityPolicy)
  : PromptCacheAffinityPolicy :=
  {| pca_Enabled := pca_Enabled p;
     pca_TTL := or_default (pca_TTL p) defaultPromptCacheAffinityTTL;
     pca_MinPrefixBytes := or_default (pca_MinPrefixBytes p) defaultPromptCacheMinPrefixBytes;
     pca_MaxPrefixesPerRequest :=
       or_default (pca_MaxPrefixesPerRequest p) defaultPromptCacheMaxPrefixes;
     pca_Scope := or_default_str (pca_Scope p) PromptCacheAffinityCaller |}.

Definition PromptCacheAffinityPolicy_Validate (p : PromptCacheAffinityPolicy) : option string :=
  let effective := PromptCacheAffinityPolicy_Effective p in
  if (pca_TTL effective <=? 0) || (maxPromptCacheAffinityTTL <? pca_TTL effective) then
    Some "ttl must be positive and at most %s"%string
  else if (pca_MinPrefixBytes effective <? 1) ||
          (maxPromptCacheMinPrefixBytes <? pca_MinPrefixBytes effective) then
    Some "min_prefix_bytes must be between 1 and %d, or 0 for the default"%string
  else if (pca_MaxPrefixesPerRequest effective <? 1) ||
          (maxPromptCacheMaxPrefixes <? pca_MaxPrefixesPerRequest effective) then
    Some "max_prefixes_per_request must be between 1 and %d, or 0 for the default"%string
  else if String.eqb (pca_Scope effective) PromptCacheAffinityCaller ||
          String.eqb (pca_Scope effective) PromptCacheAffinityTenant then None
  else Some "scope must be caller, tenant, or empty"%string.

Record SelectionPolicy := mkSelectionPolicy {
  sp_PreferRunning : option bool;
  sp_Mode : string;
  sp_HashKey : string;
  sp_PromptCacheAffinity : PromptCacheAffinityPolicy;
}.

(** [PreferRunning == nil || *PreferRunning] *)
Definition PrefersRunning (p : SelectionPolicy) : bool :=
  match sp_PreferRunning p with None => true | Some b => b end.

Definition selectionHashKeys : list string :=
  [""%string; SelectionHashTenant; SelectionHashPrincipal; SelectionHashUser;
   SelectionHashWorkspace; SelectionHashThreadID; SelectionHashTaskID;
   SelectionHashExperiment; SelectionHashSession].

Definition SelectionPolicy_Validate (p : SelectionPolicy) : option string :=
  let key_check :=
    if existsb (String.eqb (sp_HashKey p)) selectionHashKeys then
      match PromptCacheAffinityPolicy_Validate (sp_PromptCacheAffinity p) with
      | Some _ => Some "prompt_cache_affinity: %w"%string
      | None => None
      end
    else
      Some "hash_key must be tenant, principal, user, workspace, thread_id, task_id, experiment, or session"%string in
  if String.eqb (sp_Mode p) "" || String.eqb (sp_Mode p) SelectionWeightedRandom then
    if negb (String.eqb (sp_HashKey p) "") then
      Some "hash_key requires mode weighted_hash"%string
    else key_check
  else if String.eqb (sp_Mode p) SelectionWeightedHash then
    if String.eqb (sp_HashKey p) "" then
      Some "hash_key is required for mode weighted_hash"%string
    else key_check
  else Some "mode must be weighted_random, weighted_hash, or empty"%string.

(** ** Recovery policy ([pkg/config/recovery.go]) *)
Record RecoveryPolicy := mkRecoveryPolicy {
  rec_Action : string;
  rec_FailedProbes : Z;
  rec_UnhealthyFor : Z;
  rec_DrainTimeout : Z;
  rec_Backoff : Z;
  rec_MaxBackoff : Z;
  rec_MaxRestarts : Z;
}.

#[export] Instance RecoveryPolicy_eq_dec : EqDecision RecoveryPolicy.
Proof. solve_decision. Defined.

Definition zeroRecoveryPolicy : RecoveryPolicy :=
  {| rec_Action := ""; rec_FailedProbes := 0; rec_UnhealthyFor := 0; rec_DrainTimeout := 0;
     rec_Backoff := 0; rec_MaxBackoff := 0; rec_MaxRestarts := 0 |}.

Definition RecoveryPolicy_Effective (p : RecoveryPolicy) : RecoveryPolicy :=
  if String.eqb (rec_Action p) "" then zeroRecoveryPolicy
  else
    {| rec_Action := rec_Action p;
       rec_FailedProbes := or_default (rec_FailedProbes p) 3;
       rec_UnhealthyFor := or_default (rec_UnhealthyFor p) (2 * Minute);
       rec_DrainTimeout := or_default (rec_DrainTimeout p) (30 * Second);
       rec_Backoff := or_default (rec_Backoff p) Minute;
       rec_MaxBackoff := or_default (rec_MaxBackoff p) (15 * Minute);
       rec_MaxRestarts := or_default (rec_MaxRestarts p) 3 |}.

Definition RecoveryPolicy_Validate (p : RecoveryPolicy) : option string :=
  if String.eqb (rec_Action p) "" then
    if decide (p = zeroRecoveryPolicy) then None
    else Some "action is required when recovery settings are supplied"%string
  else if negb (String.eqb (rec_Action p) "restart") && negb (String.eqb (rec_Action p) "stop") then
    Some "action must be restart or stop"%string
  else
    let p := RecoveryPolicy_Effective p in
    if (rec_FailedProbes p <? 1) || (100 <? rec_FailedProbes p) then
      Some "failed_probes must be between 1 and 100"%string
    else if (rec_MaxRestarts p <? 1) || (100 <? rec_MaxRestarts p) then
      Some "max_restarts must be between 1 and 100"%string
    else if existsb (fun value => (value <=? 0) || (24 * Hour <? value))
              [rec_UnhealthyFor p; rec_DrainTimeout p; rec_Backoff p; rec_MaxBackoff p] then
      Some "%s must be greater than zero and at most 24h"%string
    else if rec_MaxBackoff p <? rec_Backoff p then
      Some "max_backoff must be at least backoff"%string
    else None.

(** ** What validation guarantees

    The facts the runtime components rely on. *)
Record circuit_ok (p : EffectiveCircuitPolicy) : Prop := {
  cok_consecutive : 1 <= ecp_ConsecutiveFailures p <= maxCircuitSamples;
  cok_minimum : 1 <= ecp_MinimumSamples p <= ecp_SampleWindow p;
  cok_window : ecp_SampleWindow p <= maxCircuitSamples;
  cok_rate : f64_lt f64_zero (ecp_FailureRate p) = true \/ is_nan (ecp_FailureRate p) = true;
  cok_base : 0 < ecp_BaseEjectionTime p <= ecp_MaxEjectionTime p;
  cok_max : ecp_MaxEjectionTime p <= maxConfiguredEjectionTime;
}.

Record retry_ok (p : EffectiveRetryPolicy) : Prop := {
  rok_base : 0 < erp_BaseBackoff p <= erp_MaxBackoff p;
  rok_max : erp_MaxBackoff p <= maxConfiguredTimeout;
  rok_after : 0 < erp_MaxRetryAfter p <= maxConfiguredTimeout;
  rok_min : 1 <= erb_MinConcurrency (erp_Budget p) <= maxRetryConcurrency;
}.

(** Split a nest of error checks whose result is [None]. *)
Ltac split_nest H :=
  repeat match type of H with
  | (if ?c then Some _ else _) = None =>
      let E := fresh "Hcheck" in
      destruct c eqn:E; [discriminate H|]
  end.

Lemma f64_not_le_zero x :
  f64_le x f64_zero = false -> f64_lt f64_zero x = true \/ is_nan x = true.
Proof. destruct x as [[]|[]| |[] m e]; cbn; auto. Qed.

Lemma circuit_validate_ok p :
  CircuitPolicy_Validate p = None -> circuit_ok (CircuitPolicy_Effective p).
Proof.
  unfold CircuitPolicy_Validate. intros H. split_nest H. clear H.
  repeat match goal with H : _ || _ = false |- _ => apply orb_false_iff in H as [? ?] end.
  split; try (prop_tests; lia). by apply f64_not_le_zero.
Qed.

Lemma retry_validate_ok p :
  RetryPolicy_Validate p = None -> retry_ok (RetryPolicy_Effective p).
Proof.
  unfold RetryPolicy_Validate. intros H. split_nest H. clear H.
  repeat match goal with H : _ || _ = false |- _ => apply orb_false_iff in H as [? ?] end.
  split; prop_tests; lia.
Qed.

#[export] Hint Resolve circuit_validate_ok retry_validate_ok : go_db.

(** The zero policies, as an omitted section of a document decodes. *)
Definition zeroCircuitPolicy : CircuitPolicy :=
  {| cp_Disabled := false; cp_ConsecutiveFailures := 0; cp_MinimumSamples := 0;
     cp_SampleWindow := 0; cp_FailureRate := f64_zero; cp_BaseEjectionTime := 0;
     cp_MaxEjectionTime := 0 |}.
Definition zeroRetryPolicy : RetryPolicy :=
  {| rp_Disabled := false; rp_BaseBackoff := 0; rp_MaxBackoff := 0; rp_MaxRetryAfter := 0;
     rp_Budget := {| rb_Disabled := false; rb_Ratio := f64_zero; rb_MinConcurrency := 0 |} |}.

Lemma zero_circuit_valid : CircuitPolicy_Validate zeroCircuitPolicy = None.
Proof. vm_compute. reflexivity. Qed.

Lemma zero_retry_valid : RetryPolicy_Validate zeroRetryPolicy = None.
Proof. vm_compute. reflexivity. Qed.
