(* ===== verification/Capabilities.v ===== *)
(** * Capabilities ([pkg/config/capabilities.go], [config.go], [validate.go])

    The request semantics a deployment declares, the policy for the ones it
    does not, and the classification that routing uses. *)

From stdpp Require Import base list strings sorting.
From Stdlib Require Import Ascii Lia.
From S2P Require Import Prelude GoStrings.

Local Open Scope nat_scope.

Abbreviation Capability := string.

Definition CapabilityTools : Capability := "tools".
Definition CapabilityVision : Capability := "vision".
Definition CapabilityAudioInput : Capability := "audio_input".
Definition CapabilityAudioOutput : Capability := "audio_output".
Definition CapabilityFileInput : Capability := "file_input".
Definition CapabilityFiles : Capability := "files".
Definition CapabilityDeveloperMessages : Capability := "developer_messages".
Definition CapabilityStructuredOutputs : Capability := "structured_outputs".
Definition CapabilityJSONMode : Capability := "json_mode".
Definition CapabilityReasoning : Capability := "reasoning".
Definition CapabilityLogprobs : Capability := "logprobs".
Definition CapabilitySeed : Capability := "seed".
Definition CapabilityMultipleChoices : Capability := "multiple_choices".
Definition CapabilityParallelTools : Capability := "parallel_tool_calls".
Definition CapabilityPrediction : Capability := "prediction".
Definition CapabilityServiceTier : Capability := "service_tier".
Definition CapabilityProviderTools : Capability := "provider_hosted_tools".
Definition CapabilityStreamUsage : Capability := "stream_usage".
Definition CapabilityStoredCompletion : Capability := "stored_completions".
Definition CapabilityResponses : Capability := "responses".
Definition CapabilityResponsesCompact : Capability := "responses_compact".
Definition CapabilityBackgroundResponses : Capability := "background_responses".
Definition CapabilityConversations : Capability := "conversations".
Definition CapabilitySingleVectorEmbedding : Capability := "single_vector_embedding".
Definition CapabilityTokenCounting : Capability := "token_counting".
Definition CapabilityPromptCaching : Capability := "prompt_caching".
Definition CapabilityCitations : Capability := "citations".
Definition CapabilityProviderGuardrails : Capability := "provider_guardrails".
Definition CapabilityProviderPrompts : Capability := "provider_prompts".

Definition standardCapabilities : list Capability :=
  [CapabilityTools; CapabilityVision; CapabilityAudioInput; CapabilityAudioOutput;
   CapabilityFileInput; CapabilityFiles; CapabilityDeveloperMessages;
   CapabilityStructuredOutputs; CapabilityJSONMode; CapabilityReasoning;
   CapabilityLogprobs; CapabilitySeed; CapabilityMultipleChoices;
   CapabilityParallelTools; CapabilityPrediction; CapabilityServiceTier;
   CapabilityProviderTools; CapabilityStreamUsage; CapabilityStoredCompletion;
   CapabilityResponses; CapabilityResponsesCompact; CapabilityBackgroundResponses;
   CapabilityConversations; CapabilitySingleVectorEmbedding;
   CapabilityTokenCounting; CapabilityPromptCaching; CapabilityCitations;
   CapabilityProviderGuardrails; CapabilityProviderPrompts].

(** The vocabulary a request may try without a declaration. *)
Definition safeUnknownCapabilities : list Capability :=
  [CapabilityTools; CapabilityVision; CapabilityAudioInput; CapabilityAudioOutput;
   CapabilityFileInput; CapabilityDeveloperMessages; CapabilityStructuredOutputs;
   CapabilityJSONMode; CapabilityReasoning; CapabilityLogprobs; CapabilitySeed;
   CapabilityMultipleChoices; CapabilityParallelTools; CapabilityPrediction;
   CapabilityServiceTier; CapabilityProviderTools; CapabilityStreamUsage;
   CapabilityPromptCaching; CapabilityCitations; CapabilityProviderGuardrails;
   CapabilityProviderPrompts].

Definition UnknownCapabilityReject : string := "reject".
Definition UnknownCapabilityTry : string := "try".

(** [CapabilityPolicy] *)
Record CapabilityPolicy := mkCapabilityPolicy {
  capol_Unknown : string;
  capol_Unsupported : list Capability;
}.

Definition CapabilityPolicy_IsZero (p : CapabilityPolicy) : bool :=
  String.eqb (capol_Unknown p) "" && (length (capol_Unsupported p) =? 0).

(** [UnknownCapabilityPolicy.Effective] *)
Definition UnknownCapabilityPolicy_Effective (p : string) : string :=
  if String.eqb p "" then UnknownCapabilityTry else p.

Inductive CapabilityMatch :=
  | CapabilityMatchRejected
  | CapabilityMatchUnknown
  | CapabilityMatchDeclared.

#[export] Instance CapabilityMatch_eq_dec : EqDecision CapabilityMatch.
Proof. solve_decision. Defined.

(** Membership of a string in a list, as the source's loops and map lookups
    decide it. *)
Definition mem (x : string) (l : list string) : bool := existsb (String.eqb x) l.
Arguments mem : simpl never.

Lemma mem_spec x l : mem x l = true <-> x ∈ l.
Proof.
  unfold mem. rewrite existsb_exists. setoid_rewrite <- list_elem_of_In.
  split; [intros (y & Hy & ->%String.eqb_eq); done|].
  intros Hx. exists x. by rewrite String.eqb_refl.
Qed.

Lemma mem_false x l : mem x l = false <-> x ∉ l.
Proof. rewrite <- mem_spec. by destruct (mem x l). Qed.

(** [Deployment.DeclaresCapability], on the deployment's policy and
    declarations. *)
Definition DeclaresCapability (policy : CapabilityPolicy) (capabilities : list Capability)
    (capability : Capability) : bool :=
  if mem capability (capol_Unsupported policy) then false
  else mem capability capabilities.

(** The loop of [Deployment.MatchCapabilities] over the required set. *)
Fixpoint match_loop (policy : CapabilityPolicy) (supported : list Capability)
    (result : CapabilityMatch) (required : list Capability) : CapabilityMatch :=
  match required with
  | [] => result
  | capability :: required' =>
      if mem capability (capol_Unsupported policy) then CapabilityMatchRejected
      else if mem capability supported then match_loop policy supported result required'
      else if negb (String.eqb (UnknownCapabilityPolicy_Effective (capol_Unknown policy))
                      UnknownCapabilityTry) then CapabilityMatchRejected
      else if negb (mem capability safeUnknownCapabilities) then CapabilityMatchRejected
      else match_loop policy supported CapabilityMatchUnknown required'
  end.

(** [Deployment.MatchCapabilities] *)
Definition MatchCapabilities (policy : CapabilityPolicy) (supported required : list Capability)
  : CapabilityMatch :=
  match required with
  | [] => CapabilityMatchDeclared
  | _ => match_loop policy supported CapabilityMatchDeclared required
  end.

(** ** Validation *)
Section Validation.
Context `{UnicodeTables}.

Definition maxCapabilities : nat := 64.
Definition maxCapabilityLength : nat := 64.

(** [validateCapability] *)
Definition validateCapability (capability : Capability) : option string :=
  if String.eqb capability "" || (maxCapabilityLength <? len capability) then
    Some "capability length must be between 1 and %d"%string
  else if negb (String.eqb capability (ToLower capability)) then
    Some "capability %q must be lowercase"%string
  else if negb (forallb identifier_byte (bytes capability)) then
    Some "capability %q contains invalid character %q"%string
  else if mem capability standardCapabilities then None
  else if String.prefix "x-" capability && (2 <? len capability) then None
  else Some "unknown capability %q; extensions must use the x- prefix"%string.

(** The loop of [validateCapabilities] with its [seen] set. *)
Fixpoint validate_each (seen : list Capability) (capabilities : list Capability)
  : option string :=
  match capabilities with
  | [] => None
  | capability :: rest =>
      match validateCapability capability with
      | Some _ => Some "[%d]: %w"%string
      | None =>
          if mem capability seen then Some "[%d]: duplicate capability %q"%string
          else validate_each (capability :: seen) rest
      end
  end.

(** [validateCapabilities], which [ValidateCapabilitySet] exports. *)
Definition validateCapabilities (capabilities : list Capability) : option string :=
  if maxCapabilities <? length capabilities then
    Some "too many capabilities: %d > %d"%string
  else validate_each [] capabilities.

Definition validateCapabilityDefaults (unknown : string) : option string :=
  if mem unknown [""%string; UnknownCapabilityReject; UnknownCapabilityTry] then None
  else Some "unknown must be reject, try, or empty"%string.

Definition validateCapabilityPolicy (policy : CapabilityPolicy) (supported : list Capability)
  : option string :=
  if negb (mem (capol_Unknown policy)
             [""%string; UnknownCapabilityReject; UnknownCapabilityTry]) then
    Some "unknown must be reject, try, or empty"%string
  else
    match validateCapabilities (capol_Unsupported policy) with
    | Some _ => Some "unsupported: %w"%string
    | None =>
        if existsb (fun capability => mem capability supported) (capol_Unsupported policy) then
          Some "unsupported[%d]: capability %q is also declared supported"%string
        else None
    end.
End Validation.

(** ** Lemmas *)
Section Lemmas.
Context (policy : CapabilityPolicy) (supported : list Capability).

(** One required capability that does not reject. *)
Definition admits (c : Capability) : bool :=
  negb (mem c (capol_Unsupported policy)) &&
  (mem c supported ||
   (String.eqb (UnknownCapabilityPolicy_Effective (capol_Unknown policy)) UnknownCapabilityTry &&
    mem c safeUnknownCapabilities)).

Lemma match_loop_spec result required :
  match_loop policy supported result required =
    if forallb admits required then
      (if forallb (fun c => mem c supported) required then result else CapabilityMatchUnknown)
    else CapabilityMatchRejected.
Proof.
  revert result. induction required as [|c required IH]; intros result; [done|].
  simpl. unfold admits at 1.
  destruct (mem c (capol_Unsupported policy)); simpl; [done|].
  destruct (mem c supported); simpl; [by rewrite IH|].
  destruct (String.eqb _ UnknownCapabilityTry); simpl; [|done].
  destruct (mem c safeUnknownCapabilities); simpl; [|done].
  rewrite IH. by repeat case_match.
Qed.

Lemma MatchCapabilities_spec required :
  MatchCapabilities policy supported required =
    if forallb admits required then
      (if forallb (fun c => mem c supported) required then CapabilityMatchDeclared
       else CapabilityMatchUnknown)
    else CapabilityMatchRejected.
Proof. destruct required; [done|]. apply match_loop_spec. Qed.
End Lemmas.
