(* ===== verification/Privacy.v ===== *)
(** * Privacy policies ([pkg/config/config.go], [pkg/config/validate.go])

    The PII policy of a virtual model or a profile: its data, the effective
    policy with its defaults, and its validation. *)

From stdpp Require Import base list strings.
From Stdlib Require Import ZArith Lia.
From S2P Require Import Prelude Policies Capabilities.

Local Open Scope Z_scope.
Local Open Scope go_scope.

(** ** Data *)
Definition PIIModeDisabled : string := "disabled".
Definition PIIModeSubstitute : string := "substitute".

Definition PIIEntityEmail : string := "email".
Definition PIIEntityPhone : string := "phone".
Definition PIIEntitySSN : string := "ssn".
Definition PIIEntityCreditCard : string := "credit_card".
Definition PIIEntityIPv4 : string := "ipv4".
Definition PIIEntityPerson : string := "person".
Definition PIIEntityAddress : string := "address".

Definition PIIScopeRequest : string := "request".
Definition PIIScopeConversation : string := "conversation".
Definition PIIResponseRestore : string := "restore".
Definition PIIResponseMasked : string := "masked".
Definition PIITraceMasked : string := "masked".
Definition PIITraceCallerVisible : string := "caller_visible".
Definition PIITraceDisabled : string := "disabled".
Definition PIIFailOpen : string := "fail_open".
Definition PIIFailClosed : string := "fail_closed".
Definition PIIMediaTextBestEffort : string := "best_effort".
Definition PIIMediaTextRequired : string := "required".
Definition PIIFileTextDisabled : string := "disabled".
Definition PIIFileTextBestEffort : string := "best_effort".
Definition PIIFileTextRequired : string := "required".

Definition maxPIIFileTextBytes : Z := 33554432.
Definition defaultPIIFileMaxTextBytes : Z := 4194304.

Definition knownPIIEntities : list string :=
  [PIIEntityEmail; PIIEntityPhone; PIIEntitySSN; PIIEntityCreditCard; PIIEntityIPv4;
   PIIEntityPerson; PIIEntityAddress].

Definition defaultPIIEntities : list string :=
  [PIIEntityEmail; PIIEntityPhone; PIIEntitySSN; PIIEntityCreditCard; PIIEntityIPv4].

Record PIIFilePolicy := mkPIIFilePolicy {
  piif_Text : string;
  piif_Metadata : bool;
  piif_MaxTextBytes : Z;
}.

Record PIIPolicy := mkPIIPolicy {
  pii_Mode : string;
  pii_Entities : list string;
  pii_Scope : string;
  pii_Response : string;
  pii_TraceContent : string;
  pii_FailureMode : string;
  pii_MediaText : string;
  pii_Files : option PIIFilePolicy;
}.

(** [EffectivePIIFilePolicy] has the fields of [PIIFilePolicy]. *)
Record EffectivePIIPolicy := mkEffectivePIIPolicy {
  epii_Mode : string;
  epii_Entities : list string;
  epii_Scope : string;
  epii_Response : string;
  epii_TraceContent : string;
  epii_FailureMode : string;
  epii_MediaText : string;
  epii_Files : PIIFilePolicy;
}.

Record PrivacyPolicy := mkPrivacyPolicy { priv_PII : option PIIPolicy }.

(** The policy [PIIPolicy{Mode: mode}]. *)
Definition pii_mode_only (mode : string) : PIIPolicy :=
  {| pii_Mode := mode; pii_Entities := []; pii_Scope := ""; pii_Response := "";
     pii_TraceContent := ""; pii_FailureMode := ""; pii_MediaText := ""; pii_Files := None |}.

(** ** The effective policy *)

(** [PIIPolicy.Effective] on a pointer; a nil policy is [None]. *)
Definition PIIPolicy_Effective (p : option PIIPolicy) : EffectivePIIPolicy :=
  let disabled :=
    {| epii_Mode := PIIModeDisabled; epii_Entities := []; epii_Scope := ""; epii_Response := "";
       epii_TraceContent := ""; epii_FailureMode := ""; epii_MediaText := "";
       epii_Files := {| piif_Text := ""; piif_Metadata := false; piif_MaxTextBytes := 0 |} |} in
  match p with
  | None => disabled
  | Some p =>
      if String.eqb (pii_Mode p) PIIModeDisabled then disabled
      else
        {| epii_Mode := or_default_str (pii_Mode p) PIIModeSubstitute;
           epii_Entities :=
             match pii_Entities p with [] => defaultPIIEntities | entities => entities end;
           epii_Scope := or_default_str (pii_Scope p) PIIScopeRequest;
           epii_Response := or_default_str (pii_Response p) PIIResponseRestore;
           epii_TraceContent := or_default_str (pii_TraceContent p) PIITraceMasked;
           epii_FailureMode := or_default_str (pii_FailureMode p) PIIFailClosed;
           epii_MediaText := or_default_str (pii_MediaText p) PIIMediaTextBestEffort;
           epii_Files :=
             match pii_Files p with
             | None =>
                 {| piif_Text := PIIFileTextDisabled; piif_Metadata := false;
                    piif_MaxTextBytes := defaultPIIFileMaxTextBytes |}
             | Some f =>
                 {| piif_Text := or_default_str (piif_Text f) PIIFileTextDisabled;
                    piif_Metadata := piif_Metadata f;
                    piif_MaxTextBytes :=
                      if 0 <? piif_MaxTextBytes f then piif_MaxTextBytes f
                      else defaultPIIFileMaxTextBytes |}
             end |}
  end.

(** ** Validation *)

(** The loop over the entities with its [seen] set. *)
Definition entity_step (seen : list string) (entity : string) : string + list string :=
  fail_if (negb (mem entity knownPIIEntities)) ".pii.entities[%d]: unknown entity %q" ?;
  fail_if (mem entity seen) ".pii.entities[%d]: duplicate entity %q" ?;
  inr (entity :: seen).

Definition validate_pii_files (scope : string) (f : PIIFilePolicy) : option string :=
  first_error [
    fail_if (negb (mem (piif_Text f)
               [""%string; PIIFileTextDisabled; PIIFileTextBestEffort; PIIFileTextRequired]))
      ".pii.files.text: must be disabled, best_effort, required, or empty";
    fail_if ((piif_MaxTextBytes f <? 0) || (maxPIIFileTextBytes <? piif_MaxTextBytes f))
      ".pii.files.max_text_bytes: must be at most %d bytes";
    fail_if ((String.eqb (piif_Text f) PIIFileTextBestEffort ||
              String.eqb (piif_Text f) PIIFileTextRequired || piif_Metadata f) &&
             negb (String.eqb scope PIIScopeConversation))
      ".pii.files: inspection requires scope conversation"].

Definition validatePrivacy (policy : option PrivacyPolicy) : option string :=
  match policy ≫= priv_PII with
  | None => None
  | Some pii =>
      if negb (mem (pii_Mode pii) [""%string; PIIModeDisabled; PIIModeSubstitute]) then
        Some ".pii.mode: must be disabled, substitute, or empty"%string
      else if String.eqb (pii_Mode pii) PIIModeDisabled then
        fail_if (negb (Z.of_nat (length (pii_Entities pii)) =? 0) ||
                 negb (String.eqb (pii_Scope pii) "") || negb (String.eqb (pii_Response pii) "") ||
                 negb (String.eqb (pii_TraceContent pii) "") ||
                 negb (String.eqb (pii_FailureMode pii) "") ||
                 negb (String.eqb (pii_MediaText pii) "") || bool_decide (is_Some (pii_Files pii)))
          ".pii: disabled policy must not contain other fields"
      else
        first_error [
          fail_if (32 <? Z.of_nat (length (pii_Entities pii)))
            ".pii.entities: must not contain more than 32 entries";
          error_of (scan entity_step [] (pii_Entities pii));
          fail_if (negb (mem (pii_Scope pii) [""%string; PIIScopeRequest; PIIScopeConversation]))
            ".pii.scope: must be request, conversation, or empty";
          fail_if (negb (mem (pii_Response pii) [""%string; PIIResponseRestore; PIIResponseMasked]))
            ".pii.response: must be restore, masked, or empty";
          fail_if (negb (mem (pii_TraceContent pii)
                     [""%string; PIITraceMasked; PIITraceCallerVisible; PIITraceDisabled]))
            ".pii.trace_content: must be masked, caller_visible, disabled, or empty";
          fail_if (negb (mem (pii_FailureMode pii) [""%string; PIIFailOpen; PIIFailClosed]))
            ".pii.failure_mode: must be fail_open, fail_closed, or empty";
          fail_if (negb (mem (pii_MediaText pii)
                     [""%string; PIIMediaTextBestEffort; PIIMediaTextRequired]))
            ".pii.media_text: must be best_effort, required, or empty";
          match pii_Files pii with
          | None => None
          | Some f => validate_pii_files (pii_Scope pii) f
          end]
  end.
