(* ===== verification/Config.v ===== *)
(** * Configuration document ([pkg/config/config.go])

    The document that validation checks and routing compiles, with the data of
    [pkg/config/request_profiles.go].  The sections for the model router have the
    types of RouterPolicy.v.  A [json.RawMessage] is its text, a Go map a [gmap],
    a nil pointer [None]. *)

From stdpp Require Import base gmap list strings sorting.
From Stdlib Require Import ZArith Lia.
From S2P Require Import Prelude GoStrings RouterPolicy Policies Capabilities Privacy.

Local Open Scope Z_scope.

(** ** Providers *)
Definition ProtocolOpenAI : string := "openai".
Definition ProtocolAnthropic : string := "anthropic".
Definition ProtocolGemini : string := "gemini".
Definition ProtocolBedrock : string := "bedrock".

Definition standardProtocols : list string :=
  [ProtocolOpenAI; ProtocolAnthropic; ProtocolGemini; ProtocolBedrock].

Record ProviderAuth := mkProviderAuth {
  auth_Type : string;
  auth_Header : string;
  auth_Prefix : string;
  auth_Credential : string;
}.

Record HeaderValue := mkHeaderValue {
  hv_Value : string;
  hv_ValueFrom : string;
  hv_Scope : string;
}.

Record Provider := mkProvider {
  prov_Name : string;
  prov_Type : string;
  prov_BaseURL : string;
  prov_SubscriptionProfile : string;
  prov_Region : string;
  prov_Auth : ProviderAuth;
  prov_DefaultHeaders : gmap string HeaderValue;
  prov_Continuations : string;
  prov_ExtraBody : gmap string string;
  prov_CapabilityDefaults : string;
}.

(** ** Deployments *)
Record EndpointSource := mkEndpointSource {
  es_Recovery : RecoveryPolicy;
  es_IdleAction : string;
  es_Type : string;
  es_Controller : string;
  es_Revision : string;
  es_Recipe : string;
  es_RecipeRevision : string;
  es_ClusterCandidates : list string;
  es_Overrides : gmap string string;
  es_ActivationTimeout : Z;
  es_IdleTTL : Z;
  es_MaxQueuedWaiters : Z;
  es_MaxQueuedBodyBytes : Z;
  es_ColdStart : string;
}.

Definition EndpointSource_IsZero (s : EndpointSource) : bool :=
  String.eqb (es_Type s) "" && String.eqb (es_Controller s) "" &&
  String.eqb (es_Revision s) "" && String.eqb (es_Recipe s) "" &&
  String.eqb (es_RecipeRevision s) "" &&
  (Z.of_nat (length (es_ClusterCandidates s)) =? 0) &&
  (Z.of_nat (size (es_Overrides s)) =? 0) &&
  (es_ActivationTimeout s =? 0) && (es_IdleTTL s =? 0) && String.eqb (es_IdleAction s) "" &&
  (es_MaxQueuedWaiters s =? 0) && (es_MaxQueuedBodyBytes s =? 0) &&
  String.eqb (es_ColdStart s) "" && bool_decide (es_Recovery s = zeroRecoveryPolicy).

(** *** Request profiles ([request_profiles.go]) *)

(** Parameters by operation; a parameter is its JSON text. *)
Definition RequestParameters : Type := gmap string (gmap string string).

Record RequestProfileImplementation := mkRequestProfileImplementation {
  rpi_IngressOverrides : RequestParameters;
  rpi_UpstreamOverrides : RequestParameters;
  rpi_SupportedOperations : list string;
}.

Record RequestProfilePatch := mkRequestProfilePatch {
  rpp_IngressOverrides : RequestParameters;
  rpp_UpstreamOverrides : RequestParameters;
  rpp_RemoveIngress : gmap string (list string);
  rpp_RemoveUpstream : gmap string (list string);
}.

Record RequestProfileBinding := mkRequestProfileBinding {
  rpb_Parent : string;
  rpb_Selector : string;
  rpb_Manual : bool;
  rpb_Patch : RequestProfilePatch;
  rpb_DeploymentOverrides : gmap string RequestProfilePatch;
  rpb_ExcludedDeployments : list string;
}.

Record RequestProfileSource := mkRequestProfileSource {
  rps_Recipe : string;
  rps_RecipeRevision : string;
  rps_Kind : string;
  rps_BaselineRevision : string;
  rps_Revision : string;
  rps_Profiles : gmap string RequestProfileImplementation;
  rps_Error : string;
}.

Record Deployment := mkDeployment {
  dep_RequestProfiles : gmap string RequestProfileImplementation;
  dep_ProfileSource : option RequestProfileSource;
  dep_DiscoveryJobIDs : list string;
  dep_ModelMetadata : option DiscoveredModelMetadata;
  dep_Name : string;
  dep_Title : string;
  dep_Provider : string;
  dep_Model : string;
  dep_NativeProtocols : list string;
  dep_EndpointSource : EndpointSource;
  dep_Credential : string;
  dep_UpstreamHeaders : gmap string HeaderValue;
  dep_ExtraBody : gmap string string;
  dep_Capabilities : list Capability;
  dep_CapabilityPolicy : CapabilityPolicy;
  dep_MaxConcurrency : Z;
  dep_Circuit : CircuitPolicy;
}.

Definition Deployment_MatchCapabilities (d : Deployment) (required : list Capability)
  : CapabilityMatch :=
  MatchCapabilities (dep_CapabilityPolicy d) (dep_Capabilities d) required.

Definition ProtocolForProviderType (providerType : string) : string :=
  if mem providerType ["sparkrun"%string; "openai"%string; "openai_compatible"%string;
                       "openai_responses"%string; "openai_subscription"%string]
  then ProtocolOpenAI
  else if String.eqb providerType "anthropic" then ProtocolAnthropic
  else if String.eqb providerType "gemini" then ProtocolGemini
  else if String.eqb providerType "bedrock" then ProtocolBedrock
  else ""%string.

Definition EffectiveNativeProtocols (d : Deployment) (provider : Provider) : list string :=
  match dep_NativeProtocols d with
  | [] =>
      let protocol := ProtocolForProviderType (prov_Type provider) in
      if String.eqb protocol "" then [] else [protocol]
  | protocols => protocols
  end.

Definition SupportsNativeProtocol (d : Deployment) (provider : Provider) (protocol : string)
  : bool := mem protocol (EffectiveNativeProtocols d provider).

(** The loop of [validateNativeProtocols] with its [seen] set. *)
Fixpoint validate_protocols (seen protocols : list string) : option string :=
  match protocols with
  | [] => None
  | protocol :: rest =>
      if negb (mem protocol standardProtocols) then
        Some "[%d]: unsupported protocol %q; must be openai, anthropic, gemini, or bedrock"%string
      else if mem protocol seen then Some "[%d]: duplicate protocol %q"%string
      else validate_protocols (protocol :: seen) rest
  end.

Definition validateNativeProtocols (protocols : list string) : option string :=
  validate_protocols [] protocols.

(** ** Virtual models *)
Definition ModelVisibilityPublic : string := "public".
Definition ModelVisibilityHidden : string := "hidden".
Definition ModelVisibilityInternal : string := "internal".

Definition ModelVisibility_Effective (v : string) : string :=
  if String.eqb v "" then ModelVisibilityPublic else v.

Definition ResponseModelVirtual : string := "virtual".
Definition ResponseModelRequested : string := "requested".
Definition ResponseModelUpstream : string := "upstream".

Record Guardrail := mkGuardrail {
  gr_Name : string;
  gr_Model : string;
  gr_Prompt : string;
  gr_FailureMode : string;
  gr_AllowReplacement : bool;
}.

Record GuardrailStreamPolicy := mkGuardrailStreamPolicy {
  gsp_WindowBytes : Z;
  gsp_ContextBytes : Z;
}.

(** [EffectiveGuardrailStreamPolicy] has the same fields. *)
Definition GuardrailStreamPolicy_Effective (p : GuardrailStreamPolicy) : GuardrailStreamPolicy :=
  {| gsp_WindowBytes := or_default (gsp_WindowBytes p) 16384;
     gsp_ContextBytes := or_default (gsp_ContextBytes p) 65536 |}.

Record GuardrailPolicy := mkGuardrailPolicy {
  gp_Pre : list Guardrail;
  gp_Post : list Guardrail;
  gp_Stream : option GuardrailStreamPolicy;
}.

Record WeightedTarget := mkWeightedTarget {
  wt_Deployment : string;
  wt_Weight : Z;
}.

Record RoutingPool := mkRoutingPool {
  pool_Priority : Z;
  pool_Targets : list WeightedTarget;
}.

Record VirtualModel := mkVirtualModel {
  vm_Profile : option RequestProfileBinding;
  vm_RequestOverrides : RequestParameters;
  vm_Name : string;
  vm_Aliases : list string;
  vm_Visibility : string;
  vm_RequiredCapabilities : list Capability;
  vm_ResponseModel : string;
  vm_Selection : SelectionPolicy;
  vm_Limits : ModelLimits;
  vm_Retry : RetryPolicy;
  vm_Guardrails : GuardrailPolicy;
  vm_Privacy : option PrivacyPolicy;
  vm_Pools : list RoutingPool;
}.

(** The zero [config.VirtualModel]. *)
Definition zeroVirtualModel : VirtualModel :=
  {| vm_Profile := None; vm_RequestOverrides := ∅; vm_Name := ""; vm_Aliases := [];
     vm_Visibility := ""; vm_RequiredCapabilities := [];
     vm_ResponseModel := "";
     vm_Selection :=
       {| sp_PreferRunning := None; sp_Mode := ""; sp_HashKey := "";
          sp_PromptCacheAffinity :=
            {| pca_Enabled := false; pca_TTL := 0; pca_MinPrefixBytes := 0;
               pca_MaxPrefixesPerRequest := 0; pca_Scope := "" |} |};
     vm_Limits := {| ml_MaxAttempts := 0; ml_OverallTimeout := 0; ml_PerTryTimeout := 0;
                     ml_StreamIdleTimeout := 0 |};
     vm_Retry := zeroRetryPolicy;
     vm_Guardrails := {| gp_Pre := []; gp_Post := []; gp_Stream := None |};
     vm_Privacy := None;
     vm_Pools := [] |}.

(** ** Process settings *)
Record MMProjectionConfig := mkMMProjectionConfig {
  mm_Enabled : bool;
  mm_URL : string;
  mm_TokenRef : string;
  mm_AnalyzerModel : string;
  mm_TimeoutMS : Z;
}.

Record SavedTraceConfig := mkSavedTraceConfig {
  st_Enabled : bool;
  st_Storage : string;
  st_Path : string;
  st_MaxBodyBytes : Z;
  st_QueueCapacity : Z;
  st_Overflow : string;
}.

Record OTLPTraceConfig := mkOTLPTraceConfig {
  otlp_Enabled : bool;
  otlp_Endpoint : string;
  otlp_ServiceName : string;
  otlp_SampleRatio : option float64;
  otlp_HeaderEnv : gmap string string;
}.

Record Observability := mkObservability {
  obs_SavedTraces : option SavedTraceConfig;
  obs_OTLPTraces : option OTLPTraceConfig;
}.

Record SparkrunOverrides := mkSparkrunOverrides { so_ExcludedDeployments : list string }.

(** An assignment of policy profiles to a model; a nil reference is [None]. *)
Record ModelPolicyAssignment := mkModelPolicyAssignment {
  mpa_PIIProfile : option string;
  mpa_GuardrailProfile : option string;
}.

(** ** Documents *)
Record Document := mkDocument {
  doc_RequestProfileSources : gmap string RequestProfileSource;
  doc_SparkrunOverrides : option SparkrunOverrides;
  doc_MMProjection : option MMProjectionConfig;
  doc_PIIProfiles : gmap string PIIPolicy;
  doc_GuardrailProfiles : gmap string GuardrailPolicy;
  doc_ModelPolicies : gmap string ModelPolicyAssignment;
  doc_Observability : option Observability;
  doc_CapabilityDefaults : string;
  doc_ModelRouting : option RoutingPolicy;
  doc_Providers : list Provider;
  doc_Deployments : list Deployment;
  doc_VirtualModels : list VirtualModel;
}.

(** [hasCapableTarget] *)
Definition hasCapableTarget (model : VirtualModel) (deployments : gmap string Deployment) : bool :=
  existsb (fun pool =>
    existsb (fun target =>
      match deployments !! wt_Deployment target with
      | Some deployment =>
          negb (bool_decide (Deployment_MatchCapabilities deployment (vm_RequiredCapabilities model)
                             = CapabilityMatchRejected))
      | None => false
      end) (pool_Targets pool)) (vm_Pools model).

Definition with_capabilities (d : Deployment) (capabilities : list Capability)
    (policy : CapabilityPolicy) : Deployment :=
  {| dep_RequestProfiles := dep_RequestProfiles d;
     dep_ProfileSource := dep_ProfileSource d;
     dep_DiscoveryJobIDs := dep_DiscoveryJobIDs d;
     dep_ModelMetadata := dep_ModelMetadata d;
     dep_Name := dep_Name d;
     dep_Title := dep_Title d;
     dep_Provider := dep_Provider d;
     dep_Model := dep_Model d;
     dep_NativeProtocols := dep_NativeProtocols d;
     dep_EndpointSource := dep_EndpointSource d;
     dep_Credential := dep_Credential d;
     dep_UpstreamHeaders := dep_UpstreamHeaders d;
     dep_ExtraBody := dep_ExtraBody d;
     dep_Capabilities := capabilities;
     dep_CapabilityPolicy := policy;
     dep_MaxConcurrency := dep_MaxConcurrency d;
     dep_Circuit := dep_Circuit d |}.

(** The value copy of a deployment with other profiles. *)
Definition with_RequestProfiles (d : Deployment) (profiles : gmap string RequestProfileImplementation) : Deployment :=
  {| dep_RequestProfiles := profiles;
     dep_ProfileSource := dep_ProfileSource d;
     dep_DiscoveryJobIDs := dep_DiscoveryJobIDs d;
     dep_ModelMetadata := dep_ModelMetadata d;
     dep_Name := dep_Name d;
     dep_Title := dep_Title d;
     dep_Provider := dep_Provider d;
     dep_Model := dep_Model d;
     dep_NativeProtocols := dep_NativeProtocols d;
     dep_EndpointSource := dep_EndpointSource d;
     dep_Credential := dep_Credential d;
     dep_UpstreamHeaders := dep_UpstreamHeaders d;
     dep_ExtraBody := dep_ExtraBody d;
     dep_Capabilities := dep_Capabilities d;
     dep_CapabilityPolicy := dep_CapabilityPolicy d;
     dep_MaxConcurrency := dep_MaxConcurrency d;
     dep_Circuit := dep_Circuit d |}.

Definition with_Deployments (d : Document) (deployments : list Deployment) : Document :=
  {| doc_RequestProfileSources := doc_RequestProfileSources d;
     doc_SparkrunOverrides := doc_SparkrunOverrides d;
     doc_MMProjection := doc_MMProjection d;
     doc_PIIProfiles := doc_PIIProfiles d;
     doc_GuardrailProfiles := doc_GuardrailProfiles d;
     doc_ModelPolicies := doc_ModelPolicies d;
     doc_Observability := doc_Observability d;
     doc_CapabilityDefaults := doc_CapabilityDefaults d;
     doc_ModelRouting := doc_ModelRouting d;
     doc_Providers := doc_Providers d;
     doc_Deployments := deployments;
     doc_VirtualModels := doc_VirtualModels d |}.

Definition with_VirtualModels (d : Document) (models : list VirtualModel) : Document :=
  {| doc_RequestProfileSources := doc_RequestProfileSources d;
     doc_SparkrunOverrides := doc_SparkrunOverrides d;
     doc_MMProjection := doc_MMProjection d;
     doc_PIIProfiles := doc_PIIProfiles d;
     doc_GuardrailProfiles := doc_GuardrailProfiles d;
     doc_ModelPolicies := doc_ModelPolicies d;
     doc_Observability := doc_Observability d;
     doc_CapabilityDefaults := doc_CapabilityDefaults d;
     doc_ModelRouting := doc_ModelRouting d;
     doc_Providers := doc_Providers d;
     doc_Deployments := doc_Deployments d;
     doc_VirtualModels := models |}.

(** The value copy of a model with other policies. *)
Definition with_policies (m : VirtualModel) (privacy : option PrivacyPolicy)
    (guardrails : GuardrailPolicy) : VirtualModel :=
  {| vm_Profile := vm_Profile m;
     vm_RequestOverrides := vm_RequestOverrides m;
     vm_Name := vm_Name m;
     vm_Aliases := vm_Aliases m;
     vm_Visibility := vm_Visibility m;
     vm_RequiredCapabilities := vm_RequiredCapabilities m;
     vm_ResponseModel := vm_ResponseModel m;
     vm_Selection := vm_Selection m;
     vm_Limits := vm_Limits m;
     vm_Retry := vm_Retry m;
     vm_Guardrails := guardrails;
     vm_Privacy := privacy;
     vm_Pools := vm_Pools m |}.

(** [Document.ResolveCapabilityPolicies] *)
Definition ResolveCapabilityPolicies (d : Document) (editionDefault : string) : Document :=
  let editionDefault := or_default_str editionDefault UnknownCapabilityTry in
  let globalDefault := or_default_str (doc_CapabilityDefaults d) editionDefault in
  let providerDefaults : gmap string string :=
    foldl (fun m p => <[prov_Name p := or_default_str (prov_CapabilityDefaults p) globalDefault]> m)
      ∅ (doc_Providers d) in
  let providerResponses : gmap string bool :=
    foldl (fun m p => <[prov_Name p := String.eqb (prov_Type p) "openai_responses"]> m)
      ∅ (doc_Providers d) in
  let resolve (deployment : Deployment) : Deployment :=
    let capabilities :=
      if default false (providerResponses !! dep_Provider deployment) &&
         negb (mem CapabilityResponses (dep_Capabilities deployment))
      then dep_Capabilities deployment ++ [CapabilityResponses]
      else dep_Capabilities deployment in
    let policy := dep_CapabilityPolicy deployment in
    let unknown :=
      if negb (String.eqb (capol_Unknown policy) "") then capol_Unknown policy
      else or_default_str (default ""%string (providerDefaults !! dep_Provider deployment))
             globalDefault in
    with_capabilities deployment capabilities
      {| capol_Unknown := unknown; capol_Unsupported := capol_Unsupported policy |} in
  with_Deployments d (resolve <$> doc_Deployments d).
