(* ===== verification/Fields.v ===== *)
(** * Field validation ([pkg/config/validate.go], [pkg/config/subscription.go],
    [pkg/credentials/credentials.go])

    Identifiers, headers, credentials, URLs and JSON defaults.  [url.Parse] and
    [encoding/json] on raw values are parameters.  A Go map is visited in an unspecified order;
    the loops over maps take the entries as a list, and the verdict is shown to
    depend on the map alone. *)

From stdpp Require Import base gmap list strings.
From Stdlib Require Import Ascii ZArith Lia.
From S2P Require Import Prelude GoStrings RouterPolicy Policies Capabilities Config.

Local Open Scope Z_scope.
Local Open Scope go_scope.

(** ** Parameters *)

(** The parts of a [*url.URL] the validators read. *)
Record URL := mkURL {
  url_Scheme : string;
  url_Host : string;
  url_User : bool;
  url_RawQuery : string;
  url_Fragment : string;
}.

(** [url.Parse]; [None] is an error. *)
Class NetURL := url_Parse : string -> option URL.

(** [encoding/json] on raw values.  A [json.RawMessage] is its text; the empty
    text is nil, which is no valid JSON. *)
Class EncodingJSON := {
  (** [json.Valid] *)
  json_Valid : string -> bool;
  (** a valid raw value as [json.Marshal] writes it *)
  json_Raw : string -> string;
  (** [json.Unmarshal] into a [map[string]json.RawMessage]; [None] is an error
      or [null] *)
  json_Members : string -> option (gmap string string);
  (** [json.Marshal] of a [map[string]json.RawMessage]; empty on an error *)
  json_Object : gmap string string -> string;
  (** [json.Unmarshal] into an [any]; [None] is an error *)
  json_Value : string -> option json;
  (** the length of what [json.Marshal] writes; [None] is an error *)
  json_profiles_size : gmap string RequestProfileImplementation -> option Z;
  json_patch_size : RequestProfilePatch -> option Z;
  json_kwargs_size : kwargs -> option Z;
}.

(** ** Limits *)
Definition maxHeaders : Z := 64.
Definition maxExtraBodyFields : Z := 64.
Definition maxExtraBodyName : Z := 128.
Definition maxExtraBodyValue : Z := 1048576.
Definition maxExtraBodyBytes : Z := 4194304.
Definition maxHeaderName : Z := 128.
Definition maxHeaderValue : Z := 8192.
Definition maxIDLength : Z := 256.

Definition protectedHeaders : list string :=
  ["authorization"; "anthropic-beta"; "anthropic-user-profile-id"; "anthropic-version";
   "connection"; "content-length"; "host"; "proxy-authorization"; "proxy-connection"; "te";
   "traceparent"; "tracestate"; "trailer"; "transfer-encoding"; "upgrade"; "x-api-key";
   "x-amz-content-sha256"; "x-amz-date"; "x-amz-security-token"; "x-goog-api-key";
   "x-request-id"; "x-sparkroute-request-id"]%string.

Definition protectedExtraBodyFields : list string :=
  ["extra_body"; "input"; "messages"; "model"; "prompt"; "stream"; "stream_options";
   "tool_choice"; "tools"]%string.

(** ** Credential references ([credentials.Ref]) *)
Definition ascii_letter (c : ascii) : bool := in_range 97 122 c || in_range 65 90 c.
Definition ascii_digit (c : ascii) : bool := in_range 48 57 c.
Definition byte_in (set : string) (c : ascii) : bool := existsb (Ascii.eqb c) (bytes set).

Definition isSchemeChar (c : ascii) : bool := ascii_letter c || ascii_digit c || byte_in "+-." c.

(** [Ref.Validate]; every rune outside ASCII is refused like its bytes are. *)
Definition Ref_Validate (r : string) : option string :=
  match cut_scheme [] (bytes r) with
  | Some (first :: scheme, _ :: _) =>
      if negb (ascii_letter first) then
        Some "credential reference scheme must start with a letter"%string
      else fail_if (negb (forallb isSchemeChar scheme)) "credential reference has invalid scheme %q"
  | _ => Some "credential reference must be scheme-qualified"%string
  end.

Section Fields.
Context `{UnicodeTables}.

(** ** Names *)
Definition validateID (value : string) : option string :=
  first_error [
    fail_if (String.eqb value "") "required";
    fail_if (maxIDLength <? zlen value) "must not exceed %d bytes";
    fail_if (negb (String.eqb value (TrimSpace value))) "must not have surrounding whitespace";
    fail_if (existsb (fun ch => IsSpace ch || IsControl ch) (runes value))
      "must not contain whitespace or control characters"].

(** [ValidateSubscriptionProfile] *)
Definition ValidateSubscriptionProfile (profile : string) : option string :=
  first_error [
    fail_if ((zlen profile <? 1) || (64 <? zlen profile))
      "subscription profile must contain 1–64 letters, digits, underscores, or hyphens";
    fail_if (negb (forallb (fun c => ascii_letter c || ascii_digit c || byte_in "_-" c)
                     (bytes profile)))
      "subscription profile must contain only letters, digits, underscores, or hyphens"].

Definition ProviderAuth_IsZero (a : ProviderAuth) : bool :=
  String.eqb (auth_Type a) "" && String.eqb (auth_Header a) "" && String.eqb (auth_Prefix a) "" &&
  String.eqb (auth_Credential a) "".

Definition validateSubscriptionProvider (provider : Provider) : option string :=
  if negb (String.eqb (prov_Type provider) "openai_subscription") then
    fail_if (negb (String.eqb (prov_SubscriptionProfile provider) ""))
      "subscription_profile requires an openai_subscription provider"
  else
    first_error [
      ValidateSubscriptionProfile (prov_SubscriptionProfile provider);
      fail_if (negb (String.eqb (prov_BaseURL provider) "") ||
               negb (ProviderAuth_IsZero (prov_Auth provider)) ||
               negb (String.eqb (prov_Region provider) ""))
        "subscription providers use the fixed Codex endpoint and managed sign-in; omit base_url, auth, and region"].

(** ** Headers *)

(** [isTokenChar] on the runes of a name; a rune outside ASCII is no token
    character, and neither are its bytes. *)
Definition isTokenChar (c : ascii) : bool :=
  ascii_digit c || ascii_letter c || byte_in "!#$%&'*+-.^_`|~" c.

Definition validateHeaderName (name : string) : option string :=
  first_error [
    fail_if ((zlen name =? 0) || (maxHeaderName <? zlen name)) "length must be between 1 and %d";
    fail_if (negb (forallb isTokenChar (bytes name))) "contains invalid HTTP token character %q"].

Definition validateHeaderValue (value : string) : option string :=
  first_error [
    fail_if (maxHeaderValue <? zlen value) "exceeds %d bytes";
    fail_if (existsb (fun ch => (ch =? 13) || (ch =? 10) || (IsControl ch && negb (ch =? 9)))
               (runes value))
      "contains a control character"].

Definition isAuthenticationLike (lowerName : string) : bool :=
  HasSuffix lowerName "-key" || HasSuffix lowerName "-secret" || HasSuffix lowerName "-token".

(** The checks of one header after the test for duplicates. *)
Definition validate_header (name : string) (value : HeaderValue) : option string :=
  let hasValue := negb (String.eqb (hv_Value value) "") in
  let hasRef := negb (String.eqb (hv_ValueFrom value) "") in
  first_error [
    wrap "%q: " (validateHeaderName name);
    fail_if (mem (ToLower name) protectedHeaders)
      "%q is controlled by the gateway or provider adapter";
    fail_if (Bool.eqb hasValue hasRef) "%q must set exactly one of value or value_from";
    (if hasValue then
       first_error [
         fail_if (isAuthenticationLike (ToLower name)) "%q must use value_from";
         wrap "%q.value: " (validateHeaderValue (hv_Value value))]
     else wrap "%q.value_from: " (Ref_Validate (hv_ValueFrom value)));
    fail_if (negb (mem (hv_Scope value) [""%string; "both"%string; "inference"%string; "health"%string]))
      "%q.scope: must be inference, health, or empty for both"].

(** One turn of the loop of [validateHeaders]: [seen] holds the lower-cased
    names so far. *)
Definition header_step (seen : list string) (entry : string * HeaderValue)
  : string + list string :=
  fail_if (mem (ToLower entry.1) seen) "duplicate case-insensitive names %q and %q" ?;
  validate_header entry.1 entry.2 ?;
  inr (ToLower entry.1 :: seen).

Definition validate_header_entries (entries : list (string * HeaderValue)) : option string :=
  error_of (scan header_step [] entries).

Definition validateHeaders (headers : gmap string HeaderValue) : option string :=
  first_error [
    fail_if (maxHeaders <? Z.of_nat (size headers)) "too many headers: %d > %d";
    validate_header_entries (map_to_list headers)].

(** ** JSON defaults *)
Context `{EncodingJSON}.

Definition validate_field (name value : string) : option string :=
  let trimmed := TrimSpace name in
  first_error [
    fail_if (String.eqb trimmed "" || negb (String.eqb trimmed name) ||
             (maxExtraBodyName <? zlen name) || has_control name)
      "invalid field name %q";
    fail_if (mem (ToLower name) protectedExtraBodyFields) "field %q is protocol-owned";
    fail_if ((maxExtraBodyValue <? zlen value) || negb (json_Valid value))
      "field %q is invalid JSON or exceeds %d bytes"].

(** One turn of the loop of [validateExtraBody]. *)
Definition field_step (total : Z) (entry : string * string) : string + Z :=
  validate_field entry.1 entry.2 ?;
  let total := total + (zlen entry.1 + zlen entry.2) in
  fail_if (maxExtraBodyBytes <? total) "fields exceed %d bytes" ?;
  inr total.

Definition validate_field_entries (entries : list (string * string)) : option string :=
  error_of (scan field_step 0 entries).

Definition validateExtraBody (defaults : gmap string string) : option string :=
  first_error [
    fail_if (maxExtraBodyFields <? Z.of_nat (size defaults)) "too many fields: %d > %d";
    validate_field_entries (map_to_list defaults)].

Definition structureFields : list string :=
  ["contents"; "system"; "system_instruction"; "systemInstruction"; "instructions"; "history";
   "conversation"; "previous_response_id"]%string.

Definition overridableOperations : list string :=
  ["chat_completions"; "responses"; "responses_compact"; "messages"; "messages_count_tokens";
   "generate_content"; "stream_generate_content"; "count_tokens"; "converse"; "converse_stream";
   "embeddings"; "embed_content"; "batch_embed_contents"]%string.

Definition validate_override (entry : string * gmap string string) : option string :=
  first_error [
    fail_if (existsb (fun key => bool_decide (is_Some (entry.2 !! key))) structureFields)
      "%s: request structure field %s cannot be overridden";
    fail_if (negb (mem entry.1 overridableOperations)) "unsupported operation %q";
    wrap "%s: " (validateExtraBody entry.2)].

Definition ValidateRequestOverrides (values : gmap string (gmap string string)) : option string :=
  check_all validate_override (map_to_list values).

(** ** Authentication and URLs *)
Definition AuthNone : string := "".
Definition AuthBearer : string := "bearer".
Definition AuthHeader : string := "header".
Definition AuthAWSSigV4 : string := "aws_sigv4".

Definition isAWSWorkloadReference (ref : string) : bool :=
  let value := ToLower ref in
  String.eqb value "workload://aws" || String.eqb value "workload://aws/default".

Definition transportHeaders : list string :=
  ["connection"; "content-length"; "host"; "proxy-connection"; "te"; "trailer";
   "transfer-encoding"; "upgrade"]%string.

Definition validateAuth (auth : ProviderAuth) : option string :=
  if String.eqb (auth_Type auth) AuthNone then
    fail_if (negb (String.eqb (auth_Header auth) "") || negb (String.eqb (auth_Prefix auth) "") ||
             negb (String.eqb (auth_Credential auth) ""))
      "type is required when auth fields are set"
  else
    first_error [
      (if String.eqb (auth_Type auth) AuthBearer then
         fail_if (negb (String.eqb (auth_Header auth) "") || negb (String.eqb (auth_Prefix auth) ""))
           "bearer auth does not accept header or prefix overrides"
       else if String.eqb (auth_Type auth) AuthHeader then
         first_error [
           wrap "header: " (validateHeaderName (auth_Header auth));
           fail_if (mem (ToLower (auth_Header auth)) transportHeaders)
             "header %q is transport-controlled";
           wrap "prefix: " (validateHeaderValue (auth_Prefix auth))]
       else if String.eqb (auth_Type auth) AuthAWSSigV4 then
         fail_if (negb (String.eqb (auth_Header auth) "") || negb (String.eqb (auth_Prefix auth) ""))
           "aws_sigv4 auth does not accept header or prefix overrides"
       else Some "type must be bearer, header, aws_sigv4, or empty"%string);
      fail_if (String.eqb (auth_Credential auth) "") "credential is required";
      wrap "credential: " (Ref_Validate (auth_Credential auth));
      fail_if (String.eqb (auth_Type auth) AuthAWSSigV4 &&
               negb (isAWSWorkloadReference (auth_Credential auth)))
        "aws_sigv4 requires a workload:// credential"].

(** The characters of a region: a hyphen neither first nor last. *)
Definition region_byte (value : string) (index : nat) (c : ascii) : bool :=
  in_range 97 122 c || ascii_digit c ||
  (byte_in "-" c && (0 <? Z.of_nat index) && (Z.of_nat index <? zlen value - 1)).

Definition validateAWSRegion (value : string) : option string :=
  first_error [
    fail_if (String.eqb value "") "required";
    fail_if ((64 <? zlen value) || negb (String.eqb value (ToLower value)))
      "must be a lowercase AWS region identifier";
    fail_if (negb (forallb id (imap (region_byte value) (bytes value))))
      "must be a lowercase AWS region identifier"].

Context `{NetURL}.

Definition validateBaseURL (value : string) : option string :=
  match url_Parse value with
  | None => Some "parse: %w"%string
  | Some parsed =>
      first_error [
        fail_if (negb (mem (url_Scheme parsed) ["http"%string; "https"%string]))
          "scheme must be http or https";
        fail_if (String.eqb (url_Host parsed) "") "host is required";
        fail_if (url_User parsed) "userinfo is not allowed";
        fail_if (negb (String.eqb (url_RawQuery parsed) "") ||
                 negb (String.eqb (url_Fragment parsed) ""))
          "query and fragment are not allowed"]
  end.
End Fields.

(** ** The order of a map's entries *)
Section Order.
Context `{UnicodeTables} `{EncodingJSON}.

Lemma validate_header_entries_spec entries :
  validate_header_entries entries = None <->
  Forall (fun e => validate_header e.1 e.2 = None) entries /\
  NoDup ((fun e => ToLower e.1) <$> entries).
Proof.
  unfold validate_header_entries. rewrite error_of_None.
  enough (Hs : forall seen,
    scan header_step [] entries = inr seen <->
    Forall (fun e => validate_header e.1 e.2 = None) entries /\
    NoDup ((fun e => ToLower e.1) <$> entries) /\
    seen = reverse ((fun e => ToLower e.1) <$> entries)) by naive_solver.
  induction entries as [|e entries IH] using rev_ind; intros seen.
  { simpl. split; [intros [= <-]; split_and!; constructor|by intros (_ & _ & ->)]. }
  rewrite scan_snoc, Forall_app, Forall_singleton, fmap_app, reverse_app, NoDup_app.
  unfold header_step. setoid_rewrite check_then_inr. setoid_rewrite check_then_inr.
  setoid_rewrite fail_if_None. setoid_rewrite mem_false. setoid_rewrite IH.
  split.
  - intros (s & (Hv & Hn & ->) & Hm & Hx & [= <-]). rewrite elem_of_reverse in Hm.
    split_and!; try done; [|apply NoDup_singleton].
    intros x Hx1 ->%list_elem_of_singleton. done.
  - intros ((Hv & Hx) & (Hn & Hd & _) & ->). exists (reverse ((fun e => ToLower e.1) <$> entries)).
    split_and!; try done. rewrite elem_of_reverse. intros Hin. eapply Hd; [exact Hin|]. by left.
Qed.

Lemma validate_header_entries_order l k :
  l ≡ₚ k -> validate_header_entries l = None <-> validate_header_entries k = None.
Proof. intros Hp. rewrite !validate_header_entries_spec. by rewrite Hp. Qed.

(** The bytes of the entries. *)
Definition entry_bytes (entries : list (string * string)) : Z :=
  foldr (fun e n => zlen e.1 + zlen e.2 + n) 0 entries.

Lemma entry_bytes_app l k : entry_bytes (l ++ k) = entry_bytes l + entry_bytes k.
Proof. induction l as [|e l IH]; simpl; [done|]. unfold entry_bytes in *. simpl. lia. Qed.

Lemma entry_bytes_nonneg l : 0 <= entry_bytes l.
Proof. induction l as [|e l IH]; simpl; unfold zlen in *; lia. Qed.

Lemma validate_field_entries_spec entries :
  validate_field_entries entries = None <->
  Forall (fun e => validate_field e.1 e.2 = None) entries /\ entry_bytes entries <= maxExtraBodyBytes.
Proof.
  unfold validate_field_entries. rewrite error_of_None.
  enough (Hs : forall total,
    scan field_step 0 entries = inr total <->
    Forall (fun e => validate_field e.1 e.2 = None) entries /\
    entry_bytes entries <= maxExtraBodyBytes /\ total = entry_bytes entries) by naive_solver.
  induction entries as [|e entries IH] using rev_ind; intros total.
  { simpl. unfold maxExtraBodyBytes. split; [intros [= <-]; split_and!; [constructor|lia|done]|].
    by intros (_ & _ & ->). }
  rewrite scan_snoc, Forall_app, Forall_singleton, entry_bytes_app.
  unfold field_step. setoid_rewrite check_then_inr. setoid_rewrite check_then_inr.
  setoid_rewrite fail_if_None. setoid_rewrite IH. setoid_rewrite Z.ltb_ge.
  pose proof (entry_bytes_nonneg [e]). simpl in *. split.
  - intros (s & (Hv & Hb & ->) & Hx & Ht & [= <-]). split_and!; [done|done|lia|lia].
  - intros ((Hv & Hx) & Hb & ->). exists (entry_bytes entries). split_and!; try done; try lia.
    f_equal. lia.
Qed.

Lemma entry_bytes_Permutation l k : l ≡ₚ k -> entry_bytes l = entry_bytes k.
Proof. induction 1; simpl in *; lia. Qed.

Lemma validate_field_entries_order l k :
  l ≡ₚ k -> validate_field_entries l = None <-> validate_field_entries k = None.
Proof.
  intros Hp. rewrite !validate_field_entries_spec. by rewrite (entry_bytes_Permutation l k Hp), Hp.
Qed.
End Order.
