(* ===== verification/PrivacyFacts.v ===== *)
(** * Validated fields

    What validation of privacy policies, headers and JSON defaults
    guarantees. *)

From stdpp Require Import base gmap list strings.
From Stdlib Require Import ZArith Lia.
From S2P Require Import Prelude GoStrings Policies Capabilities Privacy Config Fields.

Local Open Scope Z_scope.
Local Open Scope go_scope.

(** ** Entities *)
Lemma entities_scan entities seen :
  scan entity_step [] entities = inr seen ->
  NoDup entities /\ Forall (fun e => e ∈ knownPIIEntities) entities.
Proof.
  intros Hs. enough (NoDup entities /\ Forall (fun e => e ∈ knownPIIEntities) entities /\
    seen = reverse entities) by naive_solver.
  revert Hs. apply (scan_invariant entity_step (fun l seen =>
    NoDup l /\ Forall (fun e => e ∈ knownPIIEntities) l /\ seen = reverse l)).
  { split_and!; constructor. }
  intros l e s s1 (Hn & Hf & ->) Hstep. unfold entity_step in Hstep.
  rewrite !check_then_inr, !fail_if_None in Hstep. destruct Hstep as (Hk & Hm & [= <-]).
  apply negb_false_iff, mem_spec in Hk. apply mem_false in Hm. rewrite elem_of_reverse in Hm.
  rewrite reverse_app, Forall_app, Forall_singleton. split_and!; try done.
  apply NoDup_app. split_and!; [done| |apply NoDup_singleton].
  by intros x Hx ->%list_elem_of_singleton.
Qed.

Lemma or_default_in v d l : v ∈ ""%string :: l -> d ∈ l -> or_default_str v d ∈ l.
Proof.
  unfold or_default_str. intros Hv Hd. destruct (String.eqb_spec v ""); [done|].
  by apply elem_of_cons in Hv as [?|?].
Qed.

(** The values an effective policy may have. *)
Record pii_substitutes (p : EffectivePIIPolicy) : Prop := {
  ps_entities : epii_Entities p <> [] /\ NoDup (epii_Entities p) /\
    Forall (fun e => e ∈ knownPIIEntities) (epii_Entities p) /\
    Z.of_nat (length (epii_Entities p)) <= 32;
  ps_scope : epii_Scope p ∈ [PIIScopeRequest; PIIScopeConversation];
  ps_response : epii_Response p ∈ [PIIResponseRestore; PIIResponseMasked];
  ps_trace : epii_TraceContent p ∈ [PIITraceMasked; PIITraceCallerVisible; PIITraceDisabled];
  ps_failure : epii_FailureMode p ∈ [PIIFailOpen; PIIFailClosed];
  ps_media : epii_MediaText p ∈ [PIIMediaTextBestEffort; PIIMediaTextRequired];
  ps_files : piif_Text (epii_Files p) ∈ [PIIFileTextDisabled; PIIFileTextBestEffort; PIIFileTextRequired];
  ps_bytes : 1 <= piif_MaxTextBytes (epii_Files p) <= maxPIIFileTextBytes;
  ps_inspection :
    piif_Text (epii_Files p) <> PIIFileTextDisabled \/ piif_Metadata (epii_Files p) = true ->
    epii_Scope p = PIIScopeConversation;
}.

(** Validated file settings under their defaults. *)
Lemma pii_files_ok scope f :
  validate_pii_files scope f = None ->
  or_default_str (piif_Text f) PIIFileTextDisabled ∈
    [PIIFileTextDisabled; PIIFileTextBestEffort; PIIFileTextRequired] /\
  1 <= (if 0 <? piif_MaxTextBytes f then piif_MaxTextBytes f else defaultPIIFileMaxTextBytes)
    <= maxPIIFileTextBytes /\
  (or_default_str (piif_Text f) PIIFileTextDisabled <> PIIFileTextDisabled \/
   piif_Metadata f = true -> scope = PIIScopeConversation).
Proof.
  unfold validate_pii_files. rewrite !first_error_cons, !fail_if_None.
  intros (Ht & Hb & Hs & _). apply negb_false_iff, mem_spec in Ht. prop_tests. split_and!.
  - apply or_default_in; [exact Ht|by left].
  - destruct (Z.ltb_spec 0 (piif_MaxTextBytes f)); [lia|].
    unfold defaultPIIFileMaxTextBytes, maxPIIFileTextBytes. lia.
  - unfold maxPIIFileTextBytes in *. destruct (Z.ltb_spec 0 (piif_MaxTextBytes f)); [lia|].
    unfold defaultPIIFileMaxTextBytes. lia.
  - intros Hi. apply andb_false_iff in Hs as [Hs|Hs]; [|by apply negb_false_iff, String.eqb_eq in Hs].
    exfalso. apply orb_false_iff in Hs as [[Hs1 Hs2]%orb_false_iff Hs3].
    destruct Hi as [Hi|Hi]; [|congruence]. apply Hi. unfold or_default_str.
    destruct (String.eqb_spec (piif_Text f) ""); [done|].
    rewrite !elem_of_cons in Ht. destruct Ht as [?|[?|[E|[E|?%not_elem_of_nil]]]]; try done;
      rewrite E in *; discriminate.
Qed.

(** A validated PII policy has a complete effective policy: either it is
    disabled, or it substitutes a non-empty set of distinct known entities and
    every setting has one of its documented values; the text of files is
    inspected only within a conversation's scope and up to a positive,
    bounded size. *)
Theorem validated_pii_effective p :
  validatePrivacy (Some {| priv_PII := Some p |}) = None ->
  let effective := PIIPolicy_Effective (Some p) in
  epii_Mode effective = PIIModeDisabled \/
  (epii_Mode effective = PIIModeSubstitute /\ pii_substitutes effective).
Proof.
  unfold validatePrivacy, PIIPolicy_Effective. cbn [mbind option_bind priv_PII].
  destruct (mem (pii_Mode p) _) eqn:Hmode; simpl negb; [|done]. apply mem_spec in Hmode.
  destruct (String.eqb_spec (pii_Mode p) PIIModeDisabled) as [|Hd]; [by left|].
  rewrite !first_error_cons, !fail_if_None, !negb_false_iff, !mem_spec, error_of_None.
  intros (Hlen & [seen Hent] & Hsc & Hre & Htr & Hfa & Hme & Hfi & _). right.
  apply entities_scan in Hent as [Hn Hk]. apply Z.ltb_ge in Hlen. cbn [epii_Mode]. split.
  - unfold or_default_str. destruct (String.eqb_spec (pii_Mode p) ""); [done|].
    rewrite !elem_of_cons in Hmode. by destruct Hmode as [?|[?|[?|?%not_elem_of_nil]]].
  - assert (Hf : exists scope f, f = match pii_Files p with
        | None => {| piif_Text := PIIFileTextDisabled; piif_Metadata := false;
                     piif_MaxTextBytes := defaultPIIFileMaxTextBytes |}
        | Some f => f end /\ scope = pii_Scope p /\ validate_pii_files scope f = None).
    { do 2 eexists. split_and!; [done|done|]. by destruct (pii_Files p). }
    destruct Hf as (scope & f & Ef & -> & Hv). apply pii_files_ok in Hv as (H1 & H2 & H3).
    assert (Ee : epii_Files (PIIPolicy_Effective (Some p)) =
      {| piif_Text := or_default_str (piif_Text f) PIIFileTextDisabled; piif_Metadata := piif_Metadata f;
         piif_MaxTextBytes := if 0 <? piif_MaxTextBytes f then piif_MaxTextBytes f
                              else defaultPIIFileMaxTextBytes |}).
    { unfold PIIPolicy_Effective. rewrite (proj2 (String.eqb_neq _ _) Hd). rewrite Ef.
      by destruct (pii_Files p). }
    unfold PIIPolicy_Effective in Ee. rewrite (proj2 (String.eqb_neq _ _) Hd) in Ee.
    cbn [epii_Files] in Ee.
    split; cbn [epii_Entities epii_Scope epii_Response epii_TraceContent epii_FailureMode
                epii_MediaText epii_Files].
    + destruct (pii_Entities p) as [|e es]; [|by split_and!].
      split_and!; [discriminate| | |vm_compute; discriminate];
        apply (bool_decide_unpack _); vm_compute; exact I.
    + apply or_default_in; [exact Hsc|by left].
    + apply or_default_in; [exact Hre|by left].
    + apply or_default_in; [exact Htr|by left].
    + apply or_default_in; [exact Hfa|right; by left].
    + apply or_default_in; [exact Hme|by left].
    + rewrite Ee. exact H1.
    + rewrite Ee. exact H2.
    + rewrite Ee. intros Hi. rewrite (H3 Hi). reflexivity.
Qed.

(** The verdict on a map of headers does not depend on the order in which
    its entries are visited: it is accepted exactly when every header is
    acceptable by itself and no two names differ in case only.  Likewise for
    JSON defaults: every field acceptable and the bytes within the limit. *)
Theorem map_validation_exact `{UnicodeTables} `{EncodingJSON}
    (headers : gmap string HeaderValue) (defaults : gmap string string) :
  (forall entries, entries ≡ₚ map_to_list headers ->
     validate_header_entries entries = None <->
     (forall name value, headers !! name = Some value -> validate_header name value = None) /\
     (forall name name', is_Some (headers !! name) -> is_Some (headers !! name') ->
        ToLower name = ToLower name' -> name = name')) /\
  (forall entries, entries ≡ₚ map_to_list defaults ->
     validate_field_entries entries = None <->
     (forall name value, defaults !! name = Some value -> validate_field name value = None) /\
     entry_bytes (map_to_list defaults) <= maxExtraBodyBytes).
Proof.
  assert (Hall : forall A (m : gmap string A) (f : string -> A -> option string) entries,
    entries ≡ₚ map_to_list m ->
    Forall (fun e => f e.1 e.2 = None) entries <-> (forall n v, m !! n = Some v -> f n v = None)).
  { intros A m f entries Hp. rewrite Hp, Forall_forall. split.
    - intros Hf n v Hm. by apply (Hf (n, v)), elem_of_map_to_list.
    - intros Hf [n v] Hm%elem_of_map_to_list. by apply Hf. }
  split; intros entries Hp.
  - rewrite validate_header_entries_spec, (Hall _ _ _ _ Hp). apply and_iff_compat_l.
    rewrite Hp. clear Hp entries.
    split.
    + intros Hn name name' [v Hv] [v' Hv'] E. apply elem_of_map_to_list in Hv, Hv'.
      apply list_elem_of_lookup in Hv as [i Hi], Hv' as [j Hj].
      assert (i = j) as <-; [|congruence].
      apply (NoDup_lookup _ i j (ToLower name) Hn); rewrite list_lookup_fmap; [by rewrite Hi|].
      rewrite Hj. simpl. by rewrite E.
    + intros Hinj.
      assert (Hl : forall l : list string, NoDup l -> (forall n, n ∈ l -> is_Some (headers !! n)) ->
        NoDup (ToLower <$> l)).
      { induction l as [|n l IH]; intros Hnd Hin; [constructor|].
        apply NoDup_cons in Hnd as [Hx Hnd]. rewrite fmap_cons. constructor.
        - intros (n' & E & Hn')%list_elem_of_fmap. apply Hx.
          rewrite (Hinj n n'); [done|apply Hin; by left|apply Hin; by right|done].
        - apply IH; [done|]. intros; apply Hin. by right. }
      change (NoDup ((ToLower ∘ fst) <$> map_to_list headers)). rewrite list_fmap_compose.
      apply Hl; [apply NoDup_fst_map_to_list|].
      intros n ([n' v] & -> & Hv)%list_elem_of_fmap. apply elem_of_map_to_list in Hv. by exists v.
  - rewrite validate_field_entries_spec, (Hall _ _ _ _ Hp). by rewrite (entry_bytes_Permutation _ _ Hp).
Qed.
