(* ===== verification/Settings.v ===== *)
(** * Process settings of a document ([pkg/config/observability.go],
    [pkg/config/mmprojection.go], [pkg/config/sparkrun_overrides.go]) and endpoint
    sources ([pkg/config/config.go], [pkg/config/validate.go])

    The effective settings and the validation of an endpoint source, and the
    validation of the sections that configure the gateway process.  A section
    that is left out is [None] and always valid. *)

From stdpp Require Import base gmap list strings.
From Stdlib Require Import Ascii ZArith Lia SpecFloat.
From S2P Require Import Prelude GoStrings Policies Capabilities Config Fields.

Local Open Scope Z_scope.
Local Open Scope go_scope.

(** ** How a deployment obtains its endpoint ([config.go], [validate.go]) *)
Definition EndpointSourceStatic : string := "static".
Definition EndpointSourceDiscovered : string := "discovered".
Definition EndpointSourceActivatable : string := "activatable".

(** [EndpointSourceType.Effective] *)
Definition EndpointSourceType_Effective (t : string) : string :=
  or_default_str t EndpointSourceStatic.

Definition ColdStartWait : string := "wait".
Definition ColdStartReject : string := "reject".

Definition ColdStartPolicy_Effective (p : string) : string := or_default_str p ColdStartWait.

Definition defaultActivationTimeout : Z := 30 * Minute.
Definition maxConfiguredActivationTimeout : Z := 24 * Hour.
Definition maxConfiguredIdleTTL : Z := 30 * (24 * Hour).
Definition defaultMaxQueuedWaiters : Z := 100.
Definition defaultMaxQueuedBodyBytes : Z := 268435456.
Definition maxClusterCandidates : Z := 64.
Definition maxEndpointOverrides : Z := 64.
Definition maxQueuedWaiters : Z := 100000.
Definition maxQueuedBodyBytes : Z := 1099511627776.

Definition EffectiveActivationTimeout (s : EndpointSource) : Z :=
  or_default (es_ActivationTimeout s) defaultActivationTimeout.
Definition EffectiveMaxQueuedWaiters (s : EndpointSource) : Z :=
  or_default (es_MaxQueuedWaiters s) defaultMaxQueuedWaiters.
Definition EffectiveMaxQueuedBodyBytes (s : EndpointSource) : Z :=
  or_default (es_MaxQueuedBodyBytes s) defaultMaxQueuedBodyBytes.

Section Sources.
Context `{UnicodeTables}.

(** Whether a field of an activation is set. *)
Definition has_activation_fields (s : EndpointSource) : bool :=
  negb (String.eqb (es_Revision s) "") || negb (String.eqb (es_Recipe s) "") ||
  negb (String.eqb (es_RecipeRevision s) "") ||
  negb (Z.of_nat (length (es_ClusterCandidates s)) =? 0) ||
  negb (Z.of_nat (size (es_Overrides s)) =? 0) || negb (es_ActivationTimeout s =? 0) ||
  negb (es_IdleTTL s =? 0) || negb (String.eqb (es_IdleAction s) "") ||
  negb (es_MaxQueuedWaiters s =? 0) || negb (es_MaxQueuedBodyBytes s =? 0) ||
  negb (String.eqb (es_ColdStart s) "").

Definition cluster_step (seen : list string) (candidate : string) : string + list string :=
  wrap "cluster_candidates[%d]: " (validateID candidate) ?;
  fail_if (mem candidate seen) "cluster_candidates[%d]: duplicate %q" ?;
  inr (candidate :: seen).

Definition override_step (overrideBytes : Z) (entry : string * string) : string + Z :=
  wrap "overrides[%q]: invalid key: " (validateID entry.1) ?;
  fail_if ((4096 <? zlen entry.2) || has_control entry.2) "overrides[%q]: value is invalid" ?;
  let overrideBytes := overrideBytes + (zlen entry.1 + zlen entry.2) in
  fail_if (65536 <? overrideBytes) "overrides: values exceed 65536 bytes" ?;
  inr overrideBytes.

Definition validate_activatable (s : EndpointSource) : option string :=
  first_error [
    wrap "controller: " (validateID (es_Controller s));
    wrap "revision: " (validateID (es_Revision s));
    wrap "recipe: " (validateID (es_Recipe s));
    (if String.eqb (es_RecipeRevision s) "" then None
     else wrap "recipe_revision: " (validateID (es_RecipeRevision s)));
    fail_if (maxClusterCandidates <? Z.of_nat (length (es_ClusterCandidates s)))
      "cluster_candidates: too many entries";
    error_of (scan cluster_step [] (es_ClusterCandidates s));
    fail_if (maxEndpointOverrides <? Z.of_nat (size (es_Overrides s)))
      "overrides: too many entries";
    error_of (scan override_step 0 (map_to_list (es_Overrides s)));
    fail_if (negb (mem (es_IdleAction s) [""%string; "stop"%string; "sleep"%string]))
      "idle_action: must be stop or sleep";
    fail_if (String.eqb (es_IdleAction s) "sleep" && negb (String.eqb (es_Controller s) "sparkrun"))
      "idle sleep requires the sparkrun controller";
    fail_if ((es_ActivationTimeout s <? 0) ||
             (maxConfiguredActivationTimeout <? es_ActivationTimeout s))
      "activation_timeout: must be between zero and %s";
    fail_if ((es_IdleTTL s <? 0) || (maxConfiguredIdleTTL <? es_IdleTTL s))
      "idle_ttl: must be between zero and %s";
    fail_if ((es_MaxQueuedWaiters s <? 0) || (maxQueuedWaiters <? es_MaxQueuedWaiters s))
      "max_queued_waiters: must be between zero and %d";
    fail_if ((es_MaxQueuedBodyBytes s <? 0) || (maxQueuedBodyBytes <? es_MaxQueuedBodyBytes s))
      "max_queued_body_bytes: must be between zero and %d";
    fail_if (negb (mem (ColdStartPolicy_Effective (es_ColdStart s)) [ColdStartWait; ColdStartReject]))
      "cold_start: must be wait, reject, or empty"].

(** [EndpointSource.Validate] *)
Definition EndpointSource_Validate (s : EndpointSource) : option string :=
  first_error [
    wrap "recovery: " (RecoveryPolicy_Validate (es_Recovery s));
    fail_if (negb (String.eqb (rec_Action (es_Recovery s)) "") &&
             (negb (String.eqb (es_Type s) EndpointSourceActivatable) ||
              negb (String.eqb (es_Controller s) "sparkrun")))
      "recovery requires an activatable sparkrun source";
    let sourceType := EndpointSourceType_Effective (es_Type s) in
    if String.eqb sourceType EndpointSourceStatic then
      fail_if (negb (String.eqb (es_Controller s) "") || has_activation_fields s)
        "static source must not contain lifecycle fields"
    else if String.eqb sourceType EndpointSourceDiscovered then
      first_error [
        wrap "controller: " (validateID (es_Controller s));
        fail_if (has_activation_fields s) "discovered source must not contain activation fields"]
    else if String.eqb sourceType EndpointSourceActivatable then validate_activatable s
    else Some "type: must be static, discovered, activatable, or empty"%string].
End Sources.

(** ** Sections of the process *)
Section Settings.
Context `{UnicodeTables} `{NetURL}.

(** The test of both URLs: an absolute HTTP(S) URL and nothing but its path. *)
Definition plain_http_url (value : string) : bool :=
  match url_Parse value with
  | None => false
  | Some u =>
      negb (String.eqb (url_Host u) "") && mem (url_Scheme u) ["http"%string; "https"%string] &&
      negb (url_User u) && String.eqb (url_RawQuery u) "" && String.eqb (url_Fragment u) ""
  end.

(** [MMProjectionConfig.Validate] *)
Definition MMProjection_Validate (m : option MMProjectionConfig) : option string :=
  match m with
  | None => None
  | Some m =>
      first_error [
        fail_if ((mm_Enabled m || negb (String.eqb (mm_URL m) "")) &&
                 negb (plain_http_url (TrimSpace (mm_URL m))))
          "url must be an HTTP(S) base URL without credentials, query, or fragment";
        fail_if (mm_Enabled m && String.eqb (mm_TokenRef m) "")
          "token_ref is required when enabled";
        (if String.eqb (mm_TokenRef m) "" then None
         else fail_if (bool_decide (is_Some (Ref_Validate (mm_TokenRef m))))
                "token_ref must be a credential reference, such as env://MMBRIDGE_TOKEN");
        fail_if ((256 <? zlen (mm_AnalyzerModel m)) ||
                 existsb (fun r => (r <? 32) || (r =? 127)) (runes (mm_AnalyzerModel m)))
          "analyzer_model must be at most 256 bytes without control characters";
        fail_if (negb (mm_TimeoutMS m =? 0) &&
                 ((mm_TimeoutMS m <? 1000) || (900000 <? mm_TimeoutMS m)))
          "timeout_ms must be 0 (10 minute default) or between 1000 and 900000"]
  end.

Definition SavedTraceConfig_Validate (s : SavedTraceConfig) : option string :=
  first_error [
    fail_if (negb (mem (st_Storage s) [""%string; "database"%string; "filesystem"%string]))
      "saved_traces.storage must be database or filesystem";
    fail_if (st_Enabled s && (String.eqb (st_Storage s) "" || negb (String.prefix "/" (st_Path s))))
      "saved_traces requires a storage type and an absolute path on the gateway host";
    fail_if ((st_MaxBodyBytes s <? 0) || (268435456 <? st_MaxBodyBytes s))
      "saved_traces.max_body_bytes must be between 0 (default) and 268435456";
    fail_if ((st_QueueCapacity s <? 0) || (65536 <? st_QueueCapacity s))
      "saved_traces.queue_capacity must be between 0 (default) and 65536";
    fail_if (negb (mem (st_Overflow s) [""%string; "block"%string; "drop"%string]))
      "saved_traces.overflow must be block or drop"].

(** [traceEnvName] *)
Definition trace_env_name (name : string) : bool :=
  match bytes name with
  | [] => false
  | c :: rest =>
      (ascii_letter c || byte_in "_" c) &&
      forallb (fun c => ascii_letter c || ascii_digit c || byte_in "_" c) rest
  end.

(** [traceHeaderName]: a non-empty sequence of the characters of a token. *)
Definition trace_header_name (name : string) : bool :=
  negb (String.eqb name "") && forallb isTokenChar (bytes name).

(** One turn of the loop over [HeaderEnv]; [seen] is its map. *)
Definition header_env_step (seen : list string) (entry : string * string) : string + list string :=
  let lower := ToLower entry.1 in
  fail_if (negb (trace_header_name entry.1) || negb (trace_env_name entry.2) || mem lower seen)
    "otlp_traces.header_env requires distinct HTTP headers mapped to environment variable names" ?;
  fail_if (mem lower ["host"; "content-length"; "transfer-encoding"; "connection"; "content-type"]%string)
    "otlp_traces.header_env cannot override transport headers" ?;
  inr (lower :: seen).

Definition OTLPTraceConfig_Validate (t : OTLPTraceConfig) : option string :=
  first_error [
    fail_if ((otlp_Enabled t || negb (String.eqb (otlp_Endpoint t) "")) &&
             negb (plain_http_url (otlp_Endpoint t)))
      "otlp_traces.endpoint must be an HTTP(S) URL without credentials, query, or fragment";
    match otlp_SampleRatio t with
    | None => None
    | Some ratio =>
        fail_if (f64_lt ratio f64_zero || f64_lt (f64_of_int 1) ratio)
          "otlp_traces.sample_ratio must be between 0 and 1"
    end;
    fail_if ((256 <? zlen (otlp_ServiceName t)) ||
             existsb (fun c => mem (String c "") [String "010" ""; String "013" ""; String "000" ""])
               (bytes (otlp_ServiceName t)))
      "otlp_traces.service_name is invalid";
    fail_if (32 <? Z.of_nat (size (otlp_HeaderEnv t)))
      "otlp_traces.header_env accepts at most 32 headers";
    error_of (scan header_env_step [] (map_to_list (otlp_HeaderEnv t)))].

(** [Observability.Validate] *)
Definition Observability_Validate (o : option Observability) : option string :=
  match o with
  | None => None
  | Some o =>
      first_error [
        obs_SavedTraces o ≫= SavedTraceConfig_Validate;
        obs_OTLPTraces o ≫= OTLPTraceConfig_Validate]
  end.

(** One turn of the loop over the excluded deployments. *)
Definition excluded_step (seen : list string) (name : string) : string + list string :=
  wrap "sparkrun_overrides.excluded_deployments[%q]: " (validateID name) ?;
  fail_if (mem name seen) "sparkrun_overrides.excluded_deployments: duplicate deployment %q" ?;
  inr (name :: seen).

(** [SparkrunOverrides.Validate] *)
Definition SparkrunOverrides_Validate (o : option SparkrunOverrides) : option string :=
  match o with
  | None => None
  | Some o =>
      first_error [
        fail_if (4096 <? Z.of_nat (length (so_ExcludedDeployments o)))
          "sparkrun_overrides.excluded_deployments: at most 4096 entries are supported";
        error_of (scan excluded_step [] (so_ExcludedDeployments o))]
  end.
End Settings.
