(* ===== verification/Profiles.v ===== *)
(** * Model policies ([pkg/config/policy_profiles.go],
    [pkg/config/request_profiles.go], [pkg/config/validate.go])

    Guardrail validation and the resolution of request and policy profiles.  A
    request profile is a variant of a model with parameters of its own; it takes
    its routing from its parent ([ResolveRequestProfiles]).  An operator assigns
    a PII and a guardrail profile to a model; a request profile, and a model with
    request overrides named [parent:variant], inherit what their ancestors are
    assigned ([ResolveModelPolicies]).

    [CloneProfileValue] writes a value as JSON and reads it back: strings and
    keys lose what is not UTF-8, raw values are rewritten, a number that is zero
    or [-0] is left out, and a value that cannot be written gives the zero value. *)

From stdpp Require Import base gmap list strings sorting.
From Stdlib Require Import Ascii ZArith Lia SpecFloat.
From S2P Require Import Prelude GoStrings Json RouterPolicy Policies Capabilities Privacy Config Fields Settings.

Local Open Scope Z_scope.
Local Open Scope go_scope.

Definition maxGuardrails : Z := 8.
Definition maxGuardrailPrompt : Z := 16384.
Definition minGuardrailWindow : Z := 1024.
Definition maxGuardrailWindow : Z := 1048576.
Definition maxGuardrailContext : Z := 4194304.

Definition GuardrailFailOpen : string := "fail_open".
Definition GuardrailFailClosed : string := "fail_closed".

(** [GuardrailFailureMode.Effective] *)
Definition GuardrailFailureMode_Effective (m : string) : string :=
  or_default_str m GuardrailFailClosed.

Section Streams.
Context `{UnicodeTables}.

Definition validate_guardrail_stream (policy : GuardrailPolicy) : option string :=
  match gp_Stream policy with
  | None => None
  | Some stream =>
      first_error [
        fail_if (Z.of_nat (length (gp_Post policy)) =? 0)
          ".stream: requires at least one post guardrail";
        fail_if (negb (gsp_WindowBytes stream =? 0) &&
                 ((gsp_WindowBytes stream <? minGuardrailWindow) ||
                  (maxGuardrailWindow <? gsp_WindowBytes stream)))
          ".stream.window_bytes: must be zero or between %d and %d";
        fail_if ((gsp_ContextBytes stream <? 0) || (maxGuardrailContext <? gsp_ContextBytes stream))
          ".stream.context_bytes: must be between zero and %d"]
  end.

(** One guardrail; [names] is the set of the guardrail names so far. *)
Definition guardrail_step (modelNames : gmap string string) (names : list string)
    (guardrail : Guardrail) : string + list string :=
  wrap ".name: " (validateID (gr_Name guardrail)) ?;
  fail_if (mem (gr_Name guardrail) names) ".name: duplicate guardrail name %q" ?;
  wrap ".model: " (validateID (gr_Model guardrail)) ?;
  fail_if (negb (bool_decide (is_Some (modelNames !! gr_Model guardrail))))
    ".model: unknown virtual model or alias %q" ?;
  fail_if (maxGuardrailPrompt <? zlen (gr_Prompt guardrail)) ".prompt: must not exceed %d bytes" ?;
  fail_if (negb (mem (gr_FailureMode guardrail)
             [""%string; GuardrailFailOpen; GuardrailFailClosed]))
    ".failure_mode: must be fail_open, fail_closed, or empty" ?;
  inr (gr_Name guardrail :: names).

(** One phase. *)
Definition guardrail_phase (modelNames : gmap string string) (names : list string)
    (guardrails : list Guardrail) : string + list string :=
  fail_if (maxGuardrails <? Z.of_nat (length guardrails)) ".%s: must not contain more than %d entries" ?;
  scan (guardrail_step modelNames) names guardrails.

Definition validateGuardrails (policy : GuardrailPolicy) (modelNames : gmap string string)
  : option string :=
  first_error [
    validate_guardrail_stream policy;
    error_of (scan (guardrail_phase modelNames) [] [gp_Pre policy; gp_Post policy])].
End Streams.

(** ** Copies through JSON *)

(** [sortedPolicyNames]; [json.Marshal] writes the entries of a map in this
    order too. *)
Definition sortedPolicyNames {T} (values : gmap string T) : list string :=
  sort_Strings (map_to_list values).*1.

Definition clone_string (s : string) : string :=
  match unquote (quote_from O (bytes s) ++ [quotation]) with
  | Some (l, _) => of_bytes l
  | None => ""%string
  end.

Definition clone_map {A B} (f : A -> B) (m : gmap string A) : gmap string B :=
  foldl (fun r key =>
      match m !! key with
      | Some value => <[clone_string key := f value]> r
      | None => r
      end) ∅ (sortedPolicyNames m).

Definition map_forallb {A} (f : A -> bool) (m : gmap string A) : bool :=
  forallb (fun entry => f entry.2) (map_to_list m).

Section Clone.
Context `{EncodingJSON}.

(** A raw value; a nil one is written [null]. *)
Definition raw_valid (raw : string) : bool := String.eqb raw "" || json_Valid raw.
Definition clone_raw (raw : string) : string := if String.eqb raw "" then "null"%string else json_Raw raw.

Definition clone_members (m : gmap string string) : gmap string string :=
  if map_forallb raw_valid m then clone_map clone_raw m else ∅.

Definition params_valid (p : RequestParameters) : bool := map_forallb (map_forallb raw_valid) p.
Definition copy_params (p : RequestParameters) : RequestParameters := clone_map (clone_map clone_raw) p.
Definition clone_params (p : RequestParameters) : RequestParameters :=
  if params_valid p then copy_params p else ∅.

Definition impl_valid (p : RequestProfileImplementation) : bool :=
  params_valid (rpi_IngressOverrides p) && params_valid (rpi_UpstreamOverrides p).
Definition copy_impl (p : RequestProfileImplementation) : RequestProfileImplementation :=
  {| rpi_IngressOverrides := copy_params (rpi_IngressOverrides p);
     rpi_UpstreamOverrides := copy_params (rpi_UpstreamOverrides p);
     rpi_SupportedOperations := clone_string <$> rpi_SupportedOperations p |}.
Definition clone_profiles (m : gmap string RequestProfileImplementation)
  : gmap string RequestProfileImplementation :=
  if map_forallb impl_valid m then clone_map copy_impl m else ∅.

Definition patch_valid (p : RequestProfilePatch) : bool :=
  params_valid (rpp_IngressOverrides p) && params_valid (rpp_UpstreamOverrides p).
Definition copy_patch (p : RequestProfilePatch) : RequestProfilePatch :=
  {| rpp_IngressOverrides := copy_params (rpp_IngressOverrides p);
     rpp_UpstreamOverrides := copy_params (rpp_UpstreamOverrides p);
     rpp_RemoveIngress := clone_map (fmap clone_string) (rpp_RemoveIngress p);
     rpp_RemoveUpstream := clone_map (fmap clone_string) (rpp_RemoveUpstream p) |}.

Definition binding_valid (b : RequestProfileBinding) : bool :=
  patch_valid (rpb_Patch b) && map_forallb patch_valid (rpb_DeploymentOverrides b).
Definition copy_binding (b : RequestProfileBinding) : RequestProfileBinding :=
  {| rpb_Parent := clone_string (rpb_Parent b);
     rpb_Selector := clone_string (rpb_Selector b);
     rpb_Manual := rpb_Manual b;
     rpb_Patch := copy_patch (rpb_Patch b);
     rpb_DeploymentOverrides := clone_map copy_patch (rpb_DeploymentOverrides b);
     rpb_ExcludedDeployments := clone_string <$> rpb_ExcludedDeployments b |}.
(** A pointer; the zero pointer is nil. *)
Definition clone_binding (b : RequestProfileBinding) : option RequestProfileBinding :=
  if binding_valid b then Some (copy_binding b) else None.

(** *** A model *)
Definition copy_guardrail (g : Guardrail) : Guardrail :=
  {| gr_Name := clone_string (gr_Name g); gr_Model := clone_string (gr_Model g);
     gr_Prompt := clone_string (gr_Prompt g); gr_FailureMode := clone_string (gr_FailureMode g);
     gr_AllowReplacement := gr_AllowReplacement g |}.

Definition copy_guardrails (p : GuardrailPolicy) : GuardrailPolicy :=
  {| gp_Pre := copy_guardrail <$> gp_Pre p; gp_Post := copy_guardrail <$> gp_Post p;
     gp_Stream := gp_Stream p |}.

Definition copy_pii (p : PIIPolicy) : PIIPolicy :=
  {| pii_Mode := clone_string (pii_Mode p); pii_Entities := clone_string <$> pii_Entities p;
     pii_Scope := clone_string (pii_Scope p); pii_Response := clone_string (pii_Response p);
     pii_TraceContent := clone_string (pii_TraceContent p);
     pii_FailureMode := clone_string (pii_FailureMode p);
     pii_MediaText := clone_string (pii_MediaText p);
     pii_Files :=
       (fun f => {| piif_Text := clone_string (piif_Text f); piif_Metadata := piif_Metadata f;
                    piif_MaxTextBytes := piif_MaxTextBytes f |}) <$> pii_Files p |}.

Definition copy_privacy (p : PrivacyPolicy) : PrivacyPolicy := {| priv_PII := copy_pii <$> priv_PII p |}.

Definition copy_selection (p : SelectionPolicy) : SelectionPolicy :=
  let affinity := sp_PromptCacheAffinity p in
  {| sp_PreferRunning := sp_PreferRunning p; sp_Mode := clone_string (sp_Mode p);
     sp_HashKey := clone_string (sp_HashKey p);
     sp_PromptCacheAffinity :=
       {| pca_Enabled := pca_Enabled affinity; pca_TTL := pca_TTL affinity;
          pca_MinPrefixBytes := pca_MinPrefixBytes affinity;
          pca_MaxPrefixesPerRequest := pca_MaxPrefixesPerRequest affinity;
          pca_Scope := clone_string (pca_Scope affinity) |} |}.

Definition copy_float (x : float64) : float64 := match x with S754_zero _ => f64_zero | _ => x end.

Definition copy_retry (p : RetryPolicy) : RetryPolicy :=
  let budget := rp_Budget p in
  {| rp_Disabled := rp_Disabled p; rp_BaseBackoff := rp_BaseBackoff p;
     rp_MaxBackoff := rp_MaxBackoff p; rp_MaxRetryAfter := rp_MaxRetryAfter p;
     rp_Budget := {| rb_Disabled := rb_Disabled budget; rb_Ratio := copy_float (rb_Ratio budget);
                     rb_MinConcurrency := rb_MinConcurrency budget |} |}.

Definition copy_pool (p : RoutingPool) : RoutingPool :=
  {| pool_Priority := pool_Priority p;
     pool_Targets :=
       (fun t => {| wt_Deployment := clone_string (wt_Deployment t); wt_Weight := wt_Weight t |})
         <$> pool_Targets p |}.

Definition model_valid (m : VirtualModel) : bool :=
  match vm_Profile m with Some b => binding_valid b | None => true end &&
  params_valid (vm_RequestOverrides m) && is_finite (rb_Ratio (rp_Budget (vm_Retry m))).

Definition copy_model (m : VirtualModel) : VirtualModel :=
  {| vm_Profile := copy_binding <$> vm_Profile m;
     vm_RequestOverrides := copy_params (vm_RequestOverrides m);
     vm_Name := clone_string (vm_Name m);
     vm_Aliases := clone_string <$> vm_Aliases m;
     vm_Visibility := clone_string (vm_Visibility m);
     vm_RequiredCapabilities := clone_string <$> vm_RequiredCapabilities m;
     vm_ResponseModel := clone_string (vm_ResponseModel m);
     vm_Selection := copy_selection (vm_Selection m);
     vm_Limits := vm_Limits m;
     vm_Retry := copy_retry (vm_Retry m);
     vm_Guardrails := copy_guardrails (vm_Guardrails m);
     vm_Privacy := copy_privacy <$> vm_Privacy m;
     vm_Pools := copy_pool <$> vm_Pools m |}.

Definition clone_model (m : VirtualModel) : VirtualModel :=
  if model_valid m then copy_model m else zeroVirtualModel.
End Clone.

(** ** Request profiles *)
Section Requests.
Context `{UnicodeTables} `{EncodingJSON}.

(** [RequestProfileImplementation.Supports] *)
Definition Supports (p : RequestProfileImplementation) (operation : string) : bool :=
  match rpi_SupportedOperations p with
  | [] => bool_decide (is_Some (rpi_IngressOverrides p !! operation))
  | operations => mem operation operations
  end.

(** [ProfileSelector.MatchString] *)
Definition selector_byte (c : ascii) : bool := ascii_letter c || ascii_digit c || byte_in "_.-" c.
Definition ProfileSelector (selector : string) : bool :=
  match bytes selector with
  | [] => false
  | first :: rest =>
      (ascii_letter first || ascii_digit first) && forallb selector_byte rest && (zlen selector <=? 64)
  end.

Fixpoint boundedProfileJSON (value : json) (depth : Z) : bool :=
  if 32 <? depth then false
  else
    match value with
    | JObject members => forallb (fun member => let '(_, child) := member in boundedProfileJSON child (depth + 1)) members
    | JArray elements => forallb (fun child => boundedProfileJSON child (depth + 1)) elements
    | _ => true
    end.

Definition stateFields : list string :=
  ["store"; "background"; "contents"; "system"; "system_instruction"; "systeminstruction";
   "instructions"; "history"; "conversation"; "previous_response_id"]%string.

(** The parameters of one operation. *)
Definition validate_profile_operation (params : gmap string string) : option string :=
  first_error [
    check_all (fun param : string * string =>
        fail_if (negb match json_Value param.2 with
                      | Some value => boundedProfileJSON value 4
                      | None => false
                      end) "profile parameter JSON exceeds 32 nesting levels")
      (map_to_list params);
    fail_if (Z.of_nat (size params) =? 0)
      "profile parameter objects cannot be empty; use supported_operations for an intentional no-op";
    check_all (fun param : string * string =>
        fail_if (mem (ToLower param.1) stateFields)
          "profile cannot override state or request structure field %s")
      (map_to_list params)].

Definition ValidateProfileParameters (values : RequestParameters) : option string :=
  first_error [
    ValidateRequestOverrides values;
    check_all (fun entry : string * gmap string string => validate_profile_operation entry.2)
      (map_to_list values)].

(** One turn of the loop over the supported operations. *)
Definition operation_step (seen : list string) (op : string) : string + list string :=
  fail_if (mem op seen) "duplicate supported operation %q" ?;
  ValidateRequestOverrides {[op := ∅]} ?;
  inr (op :: seen).

Definition validate_implementation (entry : string * RequestProfileImplementation) : option string :=
  let '(selector, p) := entry in
  first_error [
    fail_if (negb (ProfileSelector selector)) "invalid profile selector %q";
    fail_if ((Z.of_nat (size (rpi_IngressOverrides p)) =? 0) &&
             (Z.of_nat (length (rpi_SupportedOperations p)) =? 0))
      "profile %s must declare supported_operations or ingress parameters";
    wrap "profile %s ingress: " (ValidateProfileParameters (rpi_IngressOverrides p));
    wrap "profile %s upstream: " (ValidateProfileParameters (rpi_UpstreamOverrides p));
    error_of (scan operation_step [] (rpi_SupportedOperations p))].

Definition maxProfileJSON : Z := 262144.

Definition oversized (size : option Z) : bool :=
  match size with Some n => maxProfileJSON <? n | None => true end.

Definition ValidateProfileImplementations (profiles : gmap string RequestProfileImplementation)
  : option string :=
  first_error [
    fail_if (64 <? Z.of_nat (size profiles)) "at most 64 request profiles allowed";
    fail_if (oversized (json_profiles_size profiles))
      "request profiles must be valid JSON within 256 KiB";
    check_all validate_implementation (map_to_list profiles)].

Definition invalid_pointer (path : string) : bool :=
  (1024 <? zlen path) || negb (bool_decide (head (bytes path) = Some "/"%char)) || String.eqb path "/".

Definition validate_removes (entry : string * list string) : option string :=
  let '(op, paths) := entry in
  first_error [
    ValidateRequestOverrides {[op := ∅]};
    fail_if (64 <? Z.of_nat (length paths)) "too many suppressed parameter paths";
    check_all (fun path => fail_if (invalid_pointer path) "invalid parameter pointer %q") paths].

Definition validateProfilePatch (p : RequestProfilePatch) : option string :=
  first_error [
    fail_if (oversized (json_patch_size p)) "profile patch exceeds 256 KiB";
    check_all ValidateProfileParameters [rpp_IngressOverrides p; rpp_UpstreamOverrides p];
    check_all (fun removes : gmap string (list string) => check_all validate_removes (map_to_list removes))
      [rpp_RemoveIngress p; rpp_RemoveUpstream p]].

(** [MergeProfileParameters] to a depth of [fuel]; each key of the overlay
    changes the entry of that key only. *)
Fixpoint merge_parameters (fuel : nat) (base overlay : gmap string string) : gmap string string :=
  let result := clone_members base in
  map_imap (fun k v =>
      Some match fuel, json_Members (default ""%string (result !! k)), json_Members v with
           | S fuel, Some a, Some b => json_Object (merge_parameters fuel a b)
           | _, _, _ => v
           end) overlay ∪ result.

(** The longest text of a member. *)
Definition longest (m : gmap string string) : nat :=
  foldr (fun entry n => Nat.max (len entry.2) n) O (map_to_list m).

Definition MergeProfileParameters (base overlay : gmap string string) : gmap string string :=
  merge_parameters (longest overlay) base overlay.

(** *** The parameters of a request *)

(** [strings.ReplaceAll] of [~] and the digit. *)
Fixpoint unescape_tilde (digit replacement : ascii) (l : list ascii) : list ascii :=
  match l with
  | "~"%char :: ((c :: l') as rest) =>
      if Ascii.eqb c digit then replacement :: unescape_tilde digit replacement l'
      else "~"%char :: unescape_tilde digit replacement rest
  | a :: rest => a :: unescape_tilde digit replacement rest
  | [] => []
  end.

(** The key that a segment of a pointer names. *)
Definition pointer_key (segment : string) : string :=
  of_bytes (unescape_tilde "0" "~" (unescape_tilde "1" "/" (bytes segment))).

(** [strings.Split(s, "/")] *)
Fixpoint split_slashes (l : list ascii) : list (list ascii) :=
  match l with
  | [] => [[]]
  | c :: l =>
      if Ascii.eqb c "/" then [] :: split_slashes l
      else match split_slashes l with
           | segment :: rest => (c :: segment) :: rest
           | [] => [[c]]
           end
  end.

(** The segments of a pointer, without its first slash. *)
Definition pointer_path (pointer : string) : list string :=
  of_bytes <$> split_slashes (match bytes pointer with "/"%char :: l => l | l => l end).

Fixpoint removeProfileParameter (values : gmap string string) (path : list string) : gmap string string :=
  match path with
  | [] => values
  | segment :: path =>
      let key := pointer_key segment in
      match path with
      | [] => delete key values
      | _ =>
          match json_Members (default ""%string (values !! key)) with
          | None => values
          | Some nested =>
              let nested := removeProfileParameter nested path in
              if bool_decide (nested = ∅) then delete key values
              else <[key := json_Object nested]> values
          end
      end
  end.

Definition patchProfileParameters (values set : gmap string string) (remove : list string)
  : gmap string string :=
  foldl (fun result pointer => removeProfileParameter result (pointer_path pointer))
    (MergeProfileParameters values set) remove.

Definition patch_ingress (ingress : string) (p : RequestProfilePatch) (values : gmap string string) :=
  patchProfileParameters values (default ∅ (rpp_IngressOverrides p !! ingress))
    (default [] (rpp_RemoveIngress p !! ingress)).
Definition patch_upstream (upstream : string) (p : RequestProfilePatch) (values : gmap string string) :=
  patchProfileParameters values (default ∅ (rpp_UpstreamOverrides p !! upstream))
    (default [] (rpp_RemoveUpstream p !! upstream)).

Definition zeroPatch : RequestProfilePatch :=
  {| rpp_IngressOverrides := ∅; rpp_UpstreamOverrides := ∅; rpp_RemoveIngress := ∅; rpp_RemoveUpstream := ∅ |}.

(** [VirtualModel.EffectiveProfileParameters]; [None] is [false]. *)
Definition EffectiveProfileParameters (m : VirtualModel) (d : Deployment) (ingress upstream : string)
  : option (gmap string string * gmap string string) :=
  match vm_Profile m with
  | None => None
  | Some b =>
      if mem (dep_Name d) (rpb_ExcludedDeployments b) then None
      else
        let impl :=
          if rpb_Manual b then
            Some {| rpi_IngressOverrides := ∅; rpi_UpstreamOverrides := ∅; rpi_SupportedOperations := [ingress] |}
          else dep_RequestProfiles d !! rpb_Selector b in
        match impl with
        | None => None
        | Some impl =>
            if negb (Supports impl ingress) then None
            else
              let patches := [rpb_Patch b; default zeroPatch (rpb_DeploymentOverrides b !! dep_Name d)] in
              Some (foldl (fun values p => patch_ingress ingress p values)
                      (MergeProfileParameters (default ∅ (rpi_IngressOverrides impl !! ingress))
                         (default ∅ (vm_RequestOverrides m !! ingress))) patches,
                    foldl (fun values p => patch_upstream upstream p values)
                      (clone_members (default ∅ (rpi_UpstreamOverrides impl !! upstream))) patches)
        end
  end.

(** *** The deployments *)
Definition validate_discovery (d : Deployment) : option string :=
  first_error [
    fail_if (256 <? Z.of_nat (length (dep_DiscoveryJobIDs d))) "too many discovery job IDs";
    fail_if ((0 <? Z.of_nat (length (dep_DiscoveryJobIDs d))) &&
             negb (String.eqb (es_Type (dep_EndpointSource d)) EndpointSourceDiscovered))
      "discovery_job_ids requires a discovered deployment";
    wrap "invalid discovery job ID: " (check_all validateID (dep_DiscoveryJobIDs d))].

Definition validate_profile_source (d : Deployment) : option string :=
  match dep_ProfileSource d with
  | None => None
  | Some source =>
      let endpoints := dep_EndpointSource d in
      first_error [
        fail_if (negb (String.eqb (es_Controller endpoints) "sparkrun") ||
                 negb (String.eqb (es_Type endpoints) EndpointSourceActivatable) ||
                 negb (String.eqb (rps_Recipe source) (es_Recipe endpoints)) ||
                 negb (String.eqb (rps_RecipeRevision source) (es_RecipeRevision endpoints)))
          "profile_source must match the deployment recipe binding";
        fail_if (negb (mem (rps_Kind source) [""; "recipe"; "snapshot"]%string))
          "invalid profile source kind"]
  end.

(** The deployment with the profiles its source publishes. *)
Definition refresh_profiles (d : Document) (dep : Deployment) : Deployment :=
  match doc_RequestProfileSources d !! dep_Name dep, dep_ProfileSource dep with
  | Some source, Some binding =>
      if String.eqb (rps_Recipe source) (rps_Recipe binding) &&
         String.eqb (rps_RecipeRevision source) (rps_RecipeRevision binding) &&
         String.eqb (rps_BaselineRevision source) (rps_Revision binding)
      then with_RequestProfiles dep (clone_profiles (rps_Profiles source))
      else dep
  | _, _ => dep
  end.

Definition resolve_deployment (d : Document) (dep : Deployment) : string + Deployment :=
  validate_discovery dep ?;
  validate_profile_source dep ?;
  let dep := refresh_profiles d dep in
  wrap "deployment %s: " (ValidateProfileImplementations (dep_RequestProfiles dep)) ?;
  inr dep.

(** *** The models *)

(** The map of the document's models by name. *)
Definition canonical_models (models : list VirtualModel) : gmap string VirtualModel :=
  foldl (fun m v => <[vm_Name v := v]> m) ∅ models.

(** What follows a prefix. *)
Definition after_prefix (prefix s : string) : option string :=
  if bool_decide (take (len prefix) (bytes s) = bytes prefix)
  then Some (of_bytes (drop (len prefix) (bytes s))) else None.

(** The child's aliases, and one for every alias of the parent. *)
Definition derived_aliases (parent child : VirtualModel) : list string :=
  match after_prefix (vm_Name parent +:+ ":") (vm_Name child) with
  | None => vm_Aliases child
  | Some suffix =>
      foldl (fun aliases alias =>
          let derived := alias +:+ ":" +:+ suffix in
          if mem derived aliases then aliases else aliases ++ [derived])
        (vm_Aliases child) (vm_Aliases parent)
  end.

(** The model [inherited]. *)
Definition inherit_profile (parent child : VirtualModel) (b : RequestProfileBinding) : VirtualModel :=
  let inherited := clone_model parent in
  {| vm_Profile := clone_binding b;
     vm_RequestOverrides :=
       foldl (fun overrides (entry : string * gmap string string) =>
           let '(op, values) := entry in
           <[op := MergeProfileParameters (default ∅ (overrides !! op)) values]> overrides)
         (clone_params (vm_RequestOverrides parent)) (map_to_list (vm_RequestOverrides child));
     vm_Name := vm_Name child;
     vm_Aliases := derived_aliases parent child;
     vm_Visibility := vm_Visibility inherited;
     vm_RequiredCapabilities := vm_RequiredCapabilities inherited;
     vm_ResponseModel := vm_ResponseModel inherited;
     vm_Selection := vm_Selection inherited;
     vm_Limits := vm_Limits inherited;
     vm_Retry := vm_Retry inherited;
     vm_Guardrails := vm_Guardrails inherited;
     vm_Privacy := vm_Privacy inherited;
     vm_Pools := vm_Pools inherited |}.

Definition resolve_profile (byName : gmap string VirtualModel) (child : VirtualModel)
  : string + VirtualModel :=
  match vm_Profile child with
  | None => inr child
  | Some b =>
      ValidateProfileParameters (vm_RequestOverrides child) ?;
      match byName !! rpb_Parent b with
      | None => inl "profile %s requires a non-profile parent %q"%string
      | Some parent =>
          fail_if (bool_decide (is_Some (vm_Profile parent)) || String.eqb (vm_Name child) (rpb_Parent b))
            "profile %s requires a non-profile parent %q" ?;
          fail_if (negb (ProfileSelector (rpb_Selector b))) "profile %s has invalid selector" ?;
          validateProfilePatch (rpb_Patch b) ?;
          fail_if (256 <? Z.of_nat (size (rpb_DeploymentOverrides b)))
            "too many deployment profile patches" ?;
          check_all (fun entry : string * RequestProfilePatch => validateProfilePatch entry.2)
            (map_to_list (rpb_DeploymentOverrides b)) ?;
          inr (inherit_profile parent child b)
      end
  end.

(** A loop that rebuilds a slice and stops at the first error. *)
Fixpoint traverse {A B} (f : A -> string + B) (l : list A) : string + list B :=
  match l with
  | [] => inr []
  | x :: l =>
      match f x with
      | inl e => inl e
      | inr y => match traverse f l with inl e => inl e | inr k => inr (y :: k) end
      end
  end.

(** [Document.ResolveRequestProfiles] *)
Definition ResolveRequestProfiles (d : Document) : string + Document :=
  match traverse (resolve_deployment d) (doc_Deployments d) with
  | inl e => inl e
  | inr deployments =>
      match traverse (resolve_profile (canonical_models (doc_VirtualModels d))) (doc_VirtualModels d) with
      | inl e => inl e
      | inr models => inr (with_VirtualModels (with_Deployments d deployments) models)
      end
  end.
End Requests.

(** ** Policy profiles *)
Section Guardrails.
Context `{UnicodeTables}.

Definition validate_pii_profile (d : Document) (name : string) : option string :=
  let policy := default (pii_mode_only "") (doc_PIIProfiles d !! name) in
  first_error [
    wrap "pii_profiles[%q]: " (validateID name);
    wrap "pii_profiles[%q]" (validatePrivacy (Some {| priv_PII := Some policy |}))].

Definition noGuardrails : GuardrailPolicy := {| gp_Pre := []; gp_Post := []; gp_Stream := None |}.

(** The models a profile names, all taken to exist. *)
Definition own_models (policy : GuardrailPolicy) : gmap string string :=
  foldl (fun m entry => <[gr_Model entry := gr_Model entry]> m) ∅ (gp_Pre policy ++ gp_Post policy).

Definition validate_guardrail_profile (d : Document) (name : string) : option string :=
  let policy := default noGuardrails (doc_GuardrailProfiles d !! name) in
  first_error [
    wrap "guardrail_profiles[%q]: " (validateID name);
    wrap "guardrail_profiles[%q]" (validateGuardrails policy (own_models policy))].

(** The map [aliases] from an alias to its model's name. *)
Definition alias_parents (models : list VirtualModel) : gmap string string :=
  foldl (fun m v => foldl (fun m alias => <[alias := vm_Name v]> m) m (vm_Aliases v)) ∅ models.

Definition noAssignment : ModelPolicyAssignment :=
  {| mpa_PIIProfile := None; mpa_GuardrailProfile := None |}.

Definition assignment_of (d : Document) (name : string) : ModelPolicyAssignment :=
  default noAssignment (doc_ModelPolicies d !! name).

(** A reference to a profile that is set, not empty and not defined. *)
Definition dangling {T} (profiles : gmap string T) (ref : option string) : bool :=
  match ref with
  | None => false
  | Some ref => negb (String.eqb ref "") && negb (bool_decide (is_Some (profiles !! ref)))
  end.

Definition validate_assignment (d : Document) (aliases : gmap string string) (name : string)
  : option string :=
  let assignment := assignment_of d name in
  first_error [
    wrap "model_policies[%q]: " (validateID name);
    match aliases !! name with
    | Some parent =>
        fail_if (negb (String.eqb parent name))
          "model_policies[%q]: use canonical virtual model %q instead of its alias"
    | None => None
    end;
    fail_if (dangling (doc_PIIProfiles d) (mpa_PIIProfile assignment))
      "model_policies[%q].pii_profile: unknown profile %q";
    fail_if (dangling (doc_GuardrailProfiles d) (mpa_GuardrailProfile assignment))
      "model_policies[%q].guardrail_profile: unknown profile %q"].

(** The name of the parent of a variant. *)
Definition parent_name (name : string) : option string :=
  of_bytes <$> before_last_colon (bytes name).

(** A field of an assignment, and of the parent's where it is nil. *)
Definition inherit_assignment (a inherited : ModelPolicyAssignment) : ModelPolicyAssignment :=
  {| mpa_PIIProfile :=
       match mpa_PIIProfile a with None => mpa_PIIProfile inherited | Some ref => Some ref end;
     mpa_GuardrailProfile :=
       match mpa_GuardrailProfile a with
       | None => mpa_GuardrailProfile inherited
       | Some ref => Some ref
       end |}.

Definition cyclic_inheritance : string := "model %q has cyclic profile policy inheritance".

Definition has_overrides (m : VirtualModel) : bool :=
  0 <? Z.of_nat (size (vm_RequestOverrides m)).

(** A request profile, or a model with overrides of its own. *)
Definition inherits (m : VirtualModel) : bool :=
  has_overrides m || bool_decide (is_Some (vm_Profile m)).

(** The name of the parent of [child]: the one its profile names, or else the
    prefix of its own name. *)
Definition parent_of_child (child : VirtualModel) : option string :=
  let parentName := match vm_Profile child with Some b => rpb_Parent b | None => ""%string end in
  if String.eqb parentName "" then parent_name (vm_Name child) else Some parentName.

(** The walk to the ancestors of [child], at most [fuel] turns.  A walk longer
    than its fuel would report a cycle; the fuel of [model_assignment] is enough. *)
Fixpoint ancestors_loop (fuel : nat) (d : Document) (canonical : gmap string VirtualModel)
    (visited : list string) (child : VirtualModel) (a : ModelPolicyAssignment)
  : string + ModelPolicyAssignment :=
  match fuel with
  | O => inl cyclic_inheritance
  | S fuel =>
      if negb (inherits child) then inr a
      else if mem (vm_Name child) visited then inl cyclic_inheritance
      else
        match parent_of_child child with
        | None => inr a
        | Some parentName =>
            match canonical !! parentName with
            | None => inr a
            | Some parent =>
                ancestors_loop fuel d canonical (vm_Name child :: visited) parent
                  (inherit_assignment a (assignment_of d (vm_Name parent)))
            end
        end
  end.

(** A model under an assignment. *)
Definition apply_assignment (d : Document) (a : ModelPolicyAssignment) (m : VirtualModel)
  : VirtualModel :=
  with_policies m
    (match mpa_PIIProfile a with
     | None => vm_Privacy m
     | Some ref =>
         Some {| priv_PII :=
                   Some (if String.eqb ref "" then pii_mode_only PIIModeDisabled
                         else default (pii_mode_only "") (doc_PIIProfiles d !! ref)) |}
     end)
    (match mpa_GuardrailProfile a with
     | None => vm_Guardrails m
     | Some ref =>
         if String.eqb ref "" then noGuardrails
         else default noGuardrails (doc_GuardrailProfiles d !! ref)
     end).

(** What a model is assigned, itself or through its ancestors. *)
Definition model_assignment (d : Document) (m : VirtualModel) : string + ModelPolicyAssignment :=
  ancestors_loop (S (S (length (doc_VirtualModels d)))) d (canonical_models (doc_VirtualModels d))
    [] m (assignment_of d (vm_Name m)).

(** One turn of the loop over the models. *)
Definition resolve_model (d : Document) (m : VirtualModel) : string + VirtualModel :=
  match model_assignment d m with
  | inl e => inl e
  | inr a => inr (apply_assignment d a m)
  end.

Context `{EncodingJSON}.

(** The loops of [ResolveModelPolicies], after the request profiles. *)
Definition resolve_assignments (d : Document) : string + Document :=
  fail_if ((256 <? Z.of_nat (size (doc_PIIProfiles d))) ||
           (256 <? Z.of_nat (size (doc_GuardrailProfiles d))) ||
           (4096 <? Z.of_nat (size (doc_ModelPolicies d))))
    "policy profiles: at most 256 profiles of each type and 4096 model assignments are supported" ?;
  check_all (validate_pii_profile d) (sortedPolicyNames (doc_PIIProfiles d)) ?;
  check_all (validate_guardrail_profile d) (sortedPolicyNames (doc_GuardrailProfiles d)) ?;
  check_all (validate_assignment d (alias_parents (doc_VirtualModels d)))
    (sortedPolicyNames (doc_ModelPolicies d)) ?;
  match traverse (resolve_model d) (doc_VirtualModels d) with
  | inl e => inl e
  | inr models => inr (with_VirtualModels d models)
  end.

(** [Document.ResolveModelPolicies] *)
Definition ResolveModelPolicies (d : Document) : string + Document :=
  match ResolveRequestProfiles d with
  | inl e => inl e
  | inr d => resolve_assignments d
  end.
End Guardrails.
