(* ===== verification/Sha256.v ===== *)
(** * SHA-256 ([crypto/sha256])

    The digest function of Go's standard library, as FIPS 180-4 defines it, on
    bytes written as integers.  The rendezvous order hashes with it. *)

From stdpp Require Import base list strings.
From Stdlib Require Import Ascii ZArith Lia.
From S2P Require Import Prelude GoStrings.

Local Open Scope Z_scope.

Definition word (x : Z) : Z := Z.land x 4294967295.
Definition rotr (x n : Z) : Z := word (Z.lor (Z.shiftr x n) (Z.shiftl x (32 - n))).
Definition xor3 (a b c : Z) : Z := Z.lxor a (Z.lxor b c).

Definition Ch (x y z : Z) : Z := Z.lxor (Z.land x y) (Z.land (Z.lxor x 4294967295) z).
Definition Maj (x y z : Z) : Z := xor3 (Z.land x y) (Z.land x z) (Z.land y z).
Definition Sigma0 (x : Z) : Z := xor3 (rotr x 2) (rotr x 13) (rotr x 22).
Definition Sigma1 (x : Z) : Z := xor3 (rotr x 6) (rotr x 11) (rotr x 25).
Definition sigma0 (x : Z) : Z := xor3 (rotr x 7) (rotr x 18) (Z.shiftr x 3).
Definition sigma1 (x : Z) : Z := xor3 (rotr x 17) (rotr x 19) (Z.shiftr x 10).

Definition round_constants : list Z :=
  [1116352408; 1899447441; 3049323471; 3921009573; 961987163; 1508970993; 2453635748;
   2870763221; 3624381080; 310598401; 607225278; 1426881987; 1925078388; 2162078206;
   2614888103; 3248222580; 3835390401; 4022224774; 264347078; 604807628; 770255983; 1249150122;
   1555081692; 1996064986; 2554220882; 2821834349; 2952996808; 3210313671; 3336571891;
   3584528711; 113926993; 338241895; 666307205; 773529912; 1294757372; 1396182291; 1695183700;
   1986661051; 2177026350; 2456956037; 2730485921; 2820302411; 3259730800; 3345764771;
   3516065817; 3600352804; 4094571909; 275423344; 430227734; 506948616; 659060556; 883997877;
   958139571; 1322822218; 1537002063; 1747873779; 1955562222; 2024104815; 2227730452;
   2361852424; 2428436474; 2756734187; 3204031479; 3329325298].

Definition initial_hash : list Z :=
  [1779033703; 3144134277; 1013904242; 2773480762; 1359893119; 2600822924; 528734635;
   1541459225].

(** A big-endian number of the bytes. *)
Definition big_endian (l : list Z) : Z := foldl (fun n b => n * 256 + b) 0 l.

(** The [n] low bytes of a number, most significant first. *)
Fixpoint to_bytes (n : nat) (z : Z) : list Z :=
  match n with
  | O => []
  | S n' => Z.land (Z.shiftr z (8 * Z.of_nat n')) 255 :: to_bytes n' z
  end.

(** The message, a one bit, zeros, and the length in bits: a multiple of 64
    bytes. *)
Definition pad (message : list Z) : list Z :=
  let n := Z.of_nat (length message) in
  message ++ 128 :: replicate (Z.to_nat ((55 - n) mod 64)) 0 ++ to_bytes 8 (8 * n).

(** [n] consecutive groups of [k] elements. *)
Fixpoint groups {A} (k n : nat) (l : list A) : list (list A) :=
  match n with
  | O => []
  | S n' => take k l :: groups k n' (drop k l)
  end.

(** The message schedule, newest word first: [n] words after the first 16. *)
Fixpoint schedule (n : nat) (w : list Z) : list Z :=
  match n with
  | O => w
  | S n' =>
      let at_ i := nth i w 0 in
      schedule n' (word (sigma1 (at_ 1%nat) + at_ 6%nat + sigma0 (at_ 14%nat) + at_ 15%nat) :: w)
  end.

Definition compress_round (h : list Z) (kw : Z * Z) : list Z :=
  match h with
  | [a; b; c; d; e; f; g; i] =>
      let t1 := i + Sigma1 e + Ch e f g + kw.1 + kw.2 in
      let t2 := Sigma0 a + Maj a b c in
      [word (t1 + t2); a; b; c; word (d + t1); e; f; g]
  | _ => h
  end.

Definition compress (h : list Z) (block : list Z) : list Z :=
  let w := reverse (schedule 48 (reverse (big_endian <$> groups 4 16 block))) in
  zip_with (fun x y => word (x + y)) h (foldl compress_round h (zip round_constants w)).

(** [sha256.Sum256], 32 bytes. *)
Definition Sum256 (message : list Z) : list Z :=
  let padded := pad message in
  mjoin (to_bytes 4 <$> foldl compress initial_hash (groups 64 (length padded / 64) padded)).

(** The bytes of a Go string. *)
Definition string_bytes (s : string) : list Z := (fun c => Z.of_nat (byte_of c)) <$> bytes s.

(** Published test vectors. *)
Example Sum256_empty :
  big_endian (Sum256 []) =
    0xe3b0c44298fc1c149afbf4c8996fb92427ae41e4649b934ca495991b7852b855.
Proof. vm_compute. reflexivity. Qed.

Example Sum256_abc :
  big_endian (Sum256 (string_bytes "abc")) =
    0xba7816bf8f01cfea414140de5dae2223b00361a396177a9cb410ff61f20015ad.
Proof. vm_compute. reflexivity. Qed.

Example Sum256_two_blocks :
  big_endian (Sum256 (string_bytes "abcdbcdecdefdefgefghfghighijhijkijkljklmklmnlmnomnopnopq")) =
    0x248d6a61d20638b8e5c026930c3e6039a33ce45964ff2167f6ecedd419db06c1.
Proof. vm_compute. reflexivity. Qed.

(** The padded message fills whole blocks, so every message byte is hashed. *)
Lemma pad_blocks message : Z.of_nat (length (pad message)) mod 64 = 0.
Proof.
  unfold pad. rewrite length_app. cbn [length]. rewrite length_app, length_replicate.
  cbn [length to_bytes]. set (n := Z.of_nat (length message)).
  pose proof (Z.mod_pos_bound (55 - n) 64) as Hb. pose proof (Z.div_mod (55 - n) 64) as Hd.
  replace (Z.of_nat _) with ((1 - (55 - n) / 64) * 64) by lia.
  apply Z.mod_mul. lia.
Qed.

Lemma length_schedule n w : length (schedule n w) = (n + length w)%nat.
Proof. revert w. induction n as [|n IH]; intros w; simpl; [done|]. rewrite IH. simpl. lia. Qed.

Lemma length_groups {A} k n (l : list A) : length (groups k n l) = n.
Proof. revert l. induction n as [|n IH]; intros l; simpl; [done|]. by rewrite IH. Qed.

Lemma length_compress_round h kw : length (compress_round h kw) = length h.
Proof. by do 9 (destruct h as [|? h]; try done). Qed.

Lemma length_foldl {A B} (f : list A -> B -> list A) h l :
  (forall h x, length (f h x) = length h) -> length (foldl f h l) = length h.
Proof. intros Hf. revert h. induction l as [|x l IH]; intros h; simpl; [done|]. by rewrite IH, Hf. Qed.

Lemma length_compress h block : length (compress h block) = length h.
Proof.
  unfold compress. rewrite length_zip_with, length_foldl by apply length_compress_round. lia.
Qed.

Lemma length_mjoin_const {A} k (l : list (list A)) :
  Forall (fun x => length x = k) l -> length (mjoin l) = (length l * k)%nat.
Proof. induction 1 as [|x l Hx _ IH]; simpl; [done|]. rewrite length_app, IH, Hx. lia. Qed.

Lemma length_to_bytes n z : length (to_bytes n z) = n.
Proof. induction n as [|n IH]; simpl; [done|]. by rewrite IH. Qed.

(** A digest is 32 bytes long. *)
Lemma length_Sum256 message : length (Sum256 message) = 32%nat.
Proof.
  unfold Sum256. rewrite (length_mjoin_const 4).
  - by rewrite length_fmap, length_foldl by apply length_compress.
  - apply Forall_fmap, Forall_true. intros z. apply length_to_bytes.
Qed.

Lemma to_bytes_range n z : Forall (fun b => 0 <= b < 256) (to_bytes n z).
Proof.
  induction n as [|n IH]; simpl; constructor; [|done].
  replace 255 with (Z.ones 8) by done. rewrite Z.land_ones by lia. apply Z.mod_pos_bound. lia.
Qed.

(** A digest is made of bytes. *)
Lemma Sum256_bytes message : Forall (fun b => 0 <= b < 256) (Sum256 message).
Proof.
  unfold Sum256. apply Forall_join, Forall_fmap, Forall_true. intros z. apply to_bytes_range.
Qed.

(** ** HMAC *)

(** [crypto/hmac] over SHA-256, as FIPS 198-1 defines it: blocks of 64 bytes. *)
Definition hmac_key (key : list Z) : list Z :=
  let key := if (64 <? Z.of_nat (length key)) then Sum256 key else key in
  key ++ replicate (64 - length key) 0.

Definition hmac_sha256 (key message : list Z) : list Z :=
  let block := hmac_key key in
  Sum256 ((Z.lxor 92 <$> block) ++ Sum256 ((Z.lxor 54 <$> block) ++ message)).

(** A published test vector. *)
Example hmac_sha256_rfc4231 :
  big_endian (hmac_sha256 (string_bytes "Jefe") (string_bytes "what do ya want for nothing?")) =
    0x5bdcc146bf60754e6a042426089575c75a003f089d2739839dec58b964ec3843.
Proof. vm_compute. reflexivity. Qed.
