(* ===== verification/ProfileFacts.v ===== *)
(** * Profile resolution: inheritance and stability

    The lineage of a model and the assignment it inherits; the fuel of the walk
    to the ancestors and of the merge of parameters is enough; and resolving a
    resolved document changes nothing but the JSON text of the bindings and the
    overrides of its request profiles. *)

From stdpp Require Import base gmap list strings sorting.
From Stdlib Require Import ZArith Lia.
From S2P Require Import Prelude GoStrings Json RouterPolicy Policies Capabilities Privacy Config Fields Settings.
From S2P Require Import Profiles.

Local Open Scope Z_scope.
Local Open Scope go_scope.

(** ** Lineage *)

(** The parent a variant inherits from. *)
Definition parent_of (d : Document) (m : VirtualModel) : option VirtualModel :=
  if inherits m then
    name ← parent_of_child m;
    canonical_models (doc_VirtualModels d) !! name
  else None.

(** The names of a model and its ancestors. *)
Inductive Lineage (d : Document) : VirtualModel -> list string -> Prop :=
  | lineage_root m : parent_of d m = None -> Lineage d m [vm_Name m]
  | lineage_child m p names :
      parent_of d m = Some p -> Lineage d p names -> Lineage d m (vm_Name m :: names).

(** The nearest assignment of a field. *)
Fixpoint nearest (field : ModelPolicyAssignment -> option string) (d : Document)
    (names : list string) : option string :=
  match names with
  | [] => None
  | name :: names =>
      match field (assignment_of d name) with
      | Some ref => Some ref
      | None => nearest field d names
      end
  end.

Definition nearest_assignment (d : Document) (names : list string) : ModelPolicyAssignment :=
  {| mpa_PIIProfile := nearest mpa_PIIProfile d names;
     mpa_GuardrailProfile := nearest mpa_GuardrailProfile d names |}.

Lemma inherit_nearest d a names :
  foldl (fun a n => inherit_assignment a (assignment_of d n)) a names =
    inherit_assignment a (nearest_assignment d names).
Proof.
  revert a. induction names as [|n names IH]; intros a; simpl.
  - by destruct a as [[] []].
  - rewrite IH. unfold inherit_assignment, nearest_assignment. simpl.
    by destruct (mpa_PIIProfile a), (mpa_GuardrailProfile a).
Qed.

Lemma inherit_self d name names :
  inherit_assignment (assignment_of d name) (nearest_assignment d names) =
    nearest_assignment d (name :: names).
Proof. reflexivity. Qed.

Lemma Lineage_det d m names names' : Lineage d m names -> Lineage d m names' -> names = names'.
Proof.
  intros Hl. revert names'. induction Hl as [m Hm|m p names Hm Hl IH]; intros names' Hl'; inversion Hl'; subst.
  - done.
  - congruence.
  - congruence.
  - f_equal. apply IH. congruence.
Qed.

(** ** The models by name *)
Section Canonical.
Context (R : VirtualModel -> VirtualModel -> Prop) (Hname : forall m m', R m m' -> vm_Name m = vm_Name m').

Lemma canonical_Forall2 models models' n :
  Forall2 R models models' ->
  option_Forall2 R (canonical_models models !! n) (canonical_models models' !! n).
Proof using Hname.
  intros Hf. unfold canonical_models.
  enough (H : forall acc acc' : gmap string VirtualModel,
    (forall n, option_Forall2 R (acc !! n) (acc' !! n)) ->
    option_Forall2 R (foldl (fun m v => <[vm_Name v := v]> m) acc models !! n)
      (foldl (fun m v => <[vm_Name v := v]> m) acc' models' !! n)).
  { apply H. intros k. rewrite !lookup_empty. constructor. }
  induction Hf as [|m m' models models' Hm Hf IH]; intros acc acc' Hacc; simpl; [apply Hacc|].
  apply IH. intros k. rewrite <- (Hname m m' Hm), !lookup_insert.
  case_decide; [by constructor|apply Hacc].
Qed.
End Canonical.

Lemma canonical_lookup models name m :
  canonical_models models !! name = Some m -> m ∈ models /\ vm_Name m = name.
Proof.
  unfold canonical_models.
  enough (H : forall acc : gmap string VirtualModel,
    foldl (fun m v => <[vm_Name v := v]> m) acc models !! name = Some m ->
    acc !! name = Some m \/ m ∈ models /\ vm_Name m = name).
  { intros [Hl|?]%H; [by rewrite lookup_empty in Hl|done]. }
  induction models as [|v models IH]; intros acc; simpl; [by left|].
  intros [Hl|[? ?]]%IH; [|right; split; [by right|done]].
  apply lookup_insert_Some in Hl as [[<- <-]|[_ Hl]]; [right; split; [by left|done]|by left].
Qed.

(** ** The walk *)
Section Walk.
Context (d : Document).
Notation canonical := (canonical_models (doc_VirtualModels d)).

(** A walk that ends has found the nearest assignments of the ancestors. *)
Lemma ancestors_loop_inr fuel visited m a r :
  ancestors_loop fuel d canonical visited m a = inr r ->
  exists names, Lineage d m (vm_Name m :: names) /\ r = inherit_assignment a (nearest_assignment d names).
Proof.
  revert visited m a. induction fuel as [|fuel IH]; intros visited m a; [done|]. cbn [ancestors_loop].
  assert (Hroot : parent_of d m = None -> inr (A := string) a = inr r -> exists names,
    Lineage d m (vm_Name m :: names) /\ r = inherit_assignment a (nearest_assignment d names)).
  { intros Hp [= <-]. exists []. split; [by constructor|]. by destruct a as [[] []]. }
  revert Hroot. unfold parent_of at 1. destruct (inherits m) eqn:Ho; simpl; [|by intros Hroot; apply Hroot].
  intros Hroot. destruct (mem (vm_Name m) visited); [done|].
  destruct (parent_of_child m) as [name|] eqn:Hn; simpl in *; [|by apply Hroot].
  destruct (canonical !! name) as [p|] eqn:Hp; [|by apply Hroot].
  intros (names & Hl & ->)%IH. exists (vm_Name p :: names). split.
  - econstructor; [|exact Hl]. unfold parent_of. by rewrite Ho, Hn.
  - unfold inherit_assignment, nearest_assignment. simpl.
    by destruct (mpa_PIIProfile a), (mpa_GuardrailProfile a).
Qed.

Lemma ancestors_loop_S fuel visited m a :
  ancestors_loop (S fuel) d canonical visited m a =
    if negb (inherits m) then inr a
    else if mem (vm_Name m) visited then inl cyclic_inheritance
    else
      match parent_of_child m ≫= (canonical !!.) with
      | None => inr a
      | Some p =>
          ancestors_loop fuel d canonical (vm_Name m :: visited) p
            (inherit_assignment a (assignment_of d (vm_Name p)))
      end.
Proof. cbn [ancestors_loop]. by destruct (parent_of_child m). Qed.

(** More fuel than models changes nothing. *)
Lemma ancestors_loop_fuel fuel visited m a :
  m ∈ doc_VirtualModels d -> NoDup visited -> visited ⊆ vm_Name <$> doc_VirtualModels d ->
  (length (doc_VirtualModels d) < fuel + length visited)%nat ->
  ancestors_loop (S fuel) d canonical visited m a = ancestors_loop fuel d canonical visited m a.
Proof.
  revert visited m a. induction fuel as [|fuel IH]; intros visited m a Hm Hv Hsub Hlen.
  { exfalso. pose proof (submseteq_length _ _ (NoDup_submseteq _ _ Hv Hsub)) as Hle.
    rewrite length_fmap in Hle. simpl in Hlen. lia. }
  rewrite (ancestors_loop_S (S fuel)), (ancestors_loop_S fuel).
  destruct (negb (inherits m)); [done|]. destruct (mem (vm_Name m) visited) eqn:Hin; [done|].
  destruct (parent_of_child m) as [name|]; [|done]. simpl.
  destruct (canonical !! name) as [p|] eqn:Hp; [|done].
  apply canonical_lookup in Hp as [Hp _]. apply IH; [done| | |simpl; lia].
  - constructor; [by apply mem_false|done].
  - intros x [->|Hx]%elem_of_cons; [by apply list_elem_of_fmap_2|by apply Hsub].
Qed.

Lemma ancestors_enough_fuel fuel m a :
  m ∈ doc_VirtualModels d -> (length (doc_VirtualModels d) < fuel)%nat ->
  ancestors_loop fuel d canonical [] m a =
    ancestors_loop (S (S (length (doc_VirtualModels d)))) d canonical [] m a.
Proof.
  intros Hm Hf.
  enough (He : forall k, ancestors_loop (k + S (length (doc_VirtualModels d))) d canonical [] m a =
    ancestors_loop (S (length (doc_VirtualModels d))) d canonical [] m a).
  { rewrite <- (Nat.sub_add (S (length (doc_VirtualModels d))) fuel) by lia. rewrite He. symmetry. apply (He 1%nat). }
  induction k as [|k IH]; [done|]. rewrite <- IH. cbn [Nat.add].
  apply ancestors_loop_fuel; [done|constructor|by intros x ?%not_elem_of_nil|simpl; lia].
Qed.

Lemma model_assignment_inr m a :
  model_assignment d m = inr a -> exists names, Lineage d m (vm_Name m :: names) /\
    a = nearest_assignment d (vm_Name m :: names).
Proof. intros (names & Hl & ->)%ancestors_loop_inr. by exists names. Qed.

Lemma resolve_model_inr m m' :
  resolve_model d m = inr m' <-> exists a, model_assignment d m = inr a /\ m' = apply_assignment d a m.
Proof.
  unfold resolve_model. destruct (model_assignment d m) as [e|a]; [naive_solver|]. split.
  - intros [= <-]. eauto.
  - by intros (a' & [= <-] & ->).
Qed.
End Walk.

Lemma traverse_inr {A B} (f : A -> string + B) l k :
  traverse f l = inr k <-> Forall2 (fun x y => f x = inr y) l k.
Proof.
  revert k. induction l as [|x l IH]; intros k; simpl.
  - split; [by intros [= <-]|by intros ->%Forall2_nil_inv_l].
  - destruct (f x) as [e|y] eqn:Hx.
    + split; [done|]. intros (y & k' & E & _)%Forall2_cons_inv_l. congruence.
    + destruct (traverse f l) as [e|k'] eqn:Hl.
      * split; [done|]. intros (y' & k' & _ & Hk%IH & _)%Forall2_cons_inv_l. done.
      * split.
        -- intros [= <-]. constructor; [done|]. by apply IH.
        -- intros (y' & k'' & E & Hk%IH & ->)%Forall2_cons_inv_l. congruence.
Qed.

(** ** The merge of parameters *)
Section Merge.
Context `{EncodingJSON}.

Lemma longest_lookup m k v : m !! k = Some v -> (len v <= longest m)%nat.
Proof.
  intros Hk%elem_of_map_to_list. unfold longest. induction (map_to_list m) as [|e l IH]; simpl.
  - by apply not_elem_of_nil in Hk.
  - apply elem_of_cons in Hk as [<-|Hk]; simpl; [lia|]. specialize (IH Hk). lia.
Qed.

Lemma longest_lt m n : (0 < n)%nat -> map_Forall (fun _ v => (len v < n)%nat) m -> (longest m < n)%nat.
Proof.
  intros Hn Hm. unfold longest.
  assert (Hl : Forall (fun e : string * string => (len e.2 < n)%nat) (map_to_list m)).
  { apply Forall_forall. intros [k v] Hk%elem_of_map_to_list. by eapply Hm. }
  induction Hl as [|e l He Hl IH]; simpl; lia.
Qed.

(** With the members of an object shorter than its text, a deeper merge gives
    the same result. *)
Lemma merge_enough_fuel fuel base overlay :
  (forall text members, json_Members text = Some members ->
     map_Forall (fun _ v => (len v < len text)%nat) members /\ (0 < len text)%nat) ->
  (longest overlay <= fuel)%nat ->
  merge_parameters fuel base overlay = MergeProfileParameters base overlay.
Proof.
  intros Hlaw. unfold MergeProfileParameters.
  enough (Hg : forall f g base overlay, (longest overlay <= f)%nat -> (longest overlay <= g)%nat ->
    merge_parameters f base overlay = merge_parameters g base overlay) by (intros Hle; by apply Hg).
  clear base overlay. induction f as [|f IH]; intros g base overlay Hf Hg.
  - assert (Hz : forall k v, overlay !! k = Some v -> json_Members v = None).
    { intros k v Hk%longest_lookup. destruct (json_Members v) eqn:E; [|done].
      apply Hlaw in E as [_ E]. lia. }
    destruct g as [|g]; [done|]. cbn [merge_parameters]. f_equal. apply map_imap_ext.
    intros k. destruct (overlay !! k) as [v|] eqn:Hk; [|done].
    simpl. rewrite (Hz k v Hk). by destruct (json_Members _).
  - destruct g as [|g]; cbn [merge_parameters].
    + f_equal. apply map_imap_ext. intros k. destruct (overlay !! k) as [v|] eqn:Hk; [|done].
      simpl. pose proof (longest_lookup _ _ _ Hk) as Hlen. destruct (json_Members v) eqn:E.
      * apply Hlaw in E as [_ E]. lia.
      * by destruct (json_Members (default ""%string _)).
    + f_equal. apply map_imap_ext. intros k.
      destruct (overlay !! k) as [v|] eqn:Hk; [|done].
      simpl. pose proof (longest_lookup _ _ _ Hk) as Hlen.
      destruct (json_Members (default ""%string _)); [|done].
      destruct (json_Members v) as [b|] eqn:E; [|done]. do 3 f_equal.
      apply Hlaw in E as [E Ep]. apply longest_lt in E; [|done]. apply IH; lia.
Qed.
End Merge.

(** ** Resolving twice *)

(** Models that the walk does not tell apart. *)
Record same_walk (m m' : VirtualModel) : Prop := {
  sw_name : vm_Name m = vm_Name m';
  sw_inherits : inherits m = inherits m';
  sw_parent : parent_of_child m = parent_of_child m';
}.

Lemma apply_same_walk d a m : same_walk m (apply_assignment d a m).
Proof. done. Qed.

Lemma ancestors_same d d' canonical canonical' fuel visited m m' a :
  doc_ModelPolicies d = doc_ModelPolicies d' ->
  (forall n, option_Forall2 same_walk (canonical !! n) (canonical' !! n)) ->
  same_walk m m' ->
  ancestors_loop fuel d canonical visited m a = ancestors_loop fuel d' canonical' visited m' a.
Proof.
  intros Hd Hc. revert visited m m' a. induction fuel as [|fuel IH]; intros visited m m' a Hm; [done|].
  cbn [ancestors_loop]. destruct Hm as [-> -> ->].
  destruct (inherits m'); simpl; [|done]. destruct (mem _ _); [done|].
  destruct (parent_of_child m') as [name|]; [|done].
  destruct (Hc name) as [p p' Hp|]; [|done]. unfold assignment_of at 1. rewrite Hd.
  rewrite (IH _ _ _ _ Hp). by rewrite (sw_name _ _ Hp).
Qed.

Lemma apply_twice d d' a m :
  doc_PIIProfiles d = doc_PIIProfiles d' -> doc_GuardrailProfiles d = doc_GuardrailProfiles d' ->
  apply_assignment d' a (apply_assignment d a m) = apply_assignment d a m.
Proof.
  intros Hp Hg. unfold apply_assignment. rewrite <- Hp, <- Hg. unfold with_policies. simpl.
  by destruct (mpa_PIIProfile a), (mpa_GuardrailProfile a).
Qed.

(** A model without what is written as JSON again. *)
Definition unprofiled (m : VirtualModel) : VirtualModel :=
  {| vm_Profile := None; vm_RequestOverrides := ∅;
     vm_Name := vm_Name m; vm_Aliases := vm_Aliases m; vm_Visibility := vm_Visibility m;
     vm_RequiredCapabilities := vm_RequiredCapabilities m; vm_ResponseModel := vm_ResponseModel m;
     vm_Selection := vm_Selection m; vm_Limits := vm_Limits m; vm_Retry := vm_Retry m;
     vm_Guardrails := vm_Guardrails m; vm_Privacy := vm_Privacy m; vm_Pools := vm_Pools m |}.

(** A model and what it is resolved to again: only a request profile differs,
    and only in its binding and its overrides. *)
Definition republished (m m' : VirtualModel) : Prop :=
  match vm_Profile m with
  | None => m' = m
  | Some _ => is_Some (vm_Profile m') /\ unprofiled m' = unprofiled m
  end.

Lemma republished_unprofiled m m' : republished m m' -> unprofiled m' = unprofiled m.
Proof. unfold republished. destruct (vm_Profile m); [by intros [_ ?]|by intros ->]. Qed.

Lemma unprofiled_name m m' : unprofiled m' = unprofiled m -> vm_Name m' = vm_Name m.
Proof. by intros E%(f_equal vm_Name). Qed.

(** Aliases that are there are not derived again. *)
Lemma derived_again parent child parent' child' :
  vm_Name parent' = vm_Name parent -> vm_Aliases parent' = vm_Aliases parent ->
  vm_Name child' = vm_Name child -> vm_Aliases child' = derived_aliases parent child ->
  derived_aliases parent' child' = derived_aliases parent child.
Proof.
  intros Hp Hpa Hc Hca. unfold derived_aliases at 1. rewrite Hp, Hpa, Hc.
  revert Hca. unfold derived_aliases. destruct (after_prefix _ _) as [suffix|]; [|done]. intros ->.
  set (step := fun (aliases : list string) (alias : string) => _).
  assert (Hin : forall l acc x, x ∈ acc \/ x ∈ ((fun alias => alias +:+ ":" +:+ suffix) <$> l) ->
    x ∈ foldl step acc l).
  { induction l as [|alias l IH]; intros acc x; simpl; [intros [?|?%not_elem_of_nil]; done|].
    rewrite elem_of_cons. intros Hx. apply IH. unfold step.
    destruct (mem _ acc) eqn:Hm; [apply mem_spec in Hm|rewrite elem_of_app, list_elem_of_singleton];
      naive_solver. }
  assert (Hid : forall l acc, (forall alias, alias ∈ l -> (alias +:+ ":" +:+ suffix) ∈ acc) ->
    foldl step acc l = acc).
  { induction l as [|alias l IH]; intros acc Hacc; simpl; [done|].
    assert (Hs : step acc alias = acc).
    { unfold step. rewrite (proj2 (mem_spec _ _)); [done|]. apply Hacc. by left. }
    rewrite Hs. apply IH. intros x Hx. apply Hacc. by right. }
  apply Hid. intros alias Halias. apply Hin. right.
  by apply (list_elem_of_fmap_2 (fun alias => alias +:+ ":" +:+ suffix)).
Qed.

(** *** Bindings *)
Section Again.
Context `{UnicodeTables} `{EncodingJSON}.

Lemma map_forallb_Forall {A} (f : A -> bool) (m : gmap string A) :
  Forall (fun e => f e.2 = true) (map_to_list m) -> map_forallb f m = true.
Proof. intros Hf. apply forallb_forall. intros e He. rewrite Forall_forall in Hf. apply Hf. by apply list_elem_of_In. Qed.

Lemma parameters_valid values : ValidateProfileParameters values = None -> params_valid values = true.
Proof.
  intros Hv. unfold ValidateProfileParameters in Hv. split_checks.
  match goal with Hv : ValidateRequestOverrides _ = None |- _ => apply check_all_None in Hv as Hf end.
  apply map_forallb_Forall. eapply Forall_impl; [exact Hf|]. intros [op params] Hop.
  unfold validate_override in Hop. split_checks.
  match goal with Hx : validateExtraBody _ = None |- _ => rename Hx into Hbody end.
  unfold validateExtraBody in Hbody. split_checks.
  match goal with Hx : validate_field_entries _ = None |- _ =>
    apply validate_field_entries_spec in Hx as [Hx _]; rename Hx into Hfields end.
  apply map_forallb_Forall. eapply Forall_impl; [exact Hfields|]. intros [k v] Hk.
  unfold validate_field in Hk. split_checks. unfold raw_valid. simpl.
  match goal with Hx : _ || negb (json_Valid _) = false |- _ =>
    apply orb_false_iff in Hx as [_ Hx]; apply negb_false_iff in Hx; simpl in Hx; rewrite Hx end.
  apply orb_true_r.
Qed.

Lemma patch_is_valid p : validateProfilePatch p = None -> patch_valid p = true.
Proof.
  intros Hv. unfold validateProfilePatch in Hv. split_checks.
  match goal with Hx : check_all ValidateProfileParameters _ = None |- _ => apply check_all_None in Hx as Hf end.
  unfold patch_valid. apply Forall_cons in Hf as [Hin [Hup _]%Forall_cons].
  by rewrite !parameters_valid.
Qed.

Lemma binding_is_valid b :
  validateProfilePatch (rpb_Patch b) = None ->
  check_all (fun entry : string * RequestProfilePatch => validateProfilePatch entry.2)
    (map_to_list (rpb_DeploymentOverrides b)) = None ->
  clone_binding b = Some (copy_binding b).
Proof.
  intros Hp Ho%check_all_None. unfold clone_binding, binding_valid.
  rewrite (patch_is_valid _ Hp), map_forallb_Forall; [done|].
  eapply Forall_impl; [exact Ho|]. intros e He. by apply patch_is_valid.
Qed.

(** A parent's name that a copy keeps. *)
Definition plain_parent (m : VirtualModel) : Prop :=
  forall b, vm_Profile m = Some b -> clone_string (rpb_Parent b) = rpb_Parent b.

(** What resolving a model's profile gives. *)
Inductive profiled (byName : gmap string VirtualModel) (m : VirtualModel) : VirtualModel -> Prop :=
  | profiled_none : vm_Profile m = None -> profiled byName m m
  | profiled_some b parent :
      vm_Profile m = Some b -> byName !! rpb_Parent b = Some parent -> vm_Profile parent = None ->
      clone_binding b = Some (copy_binding b) -> profiled byName m (inherit_profile parent m b).

Lemma resolve_profile_inr byName m m' : resolve_profile byName m = inr m' -> profiled byName m m'.
Proof.
  unfold resolve_profile. destruct (vm_Profile m) as [b|] eqn:Hb; [|by intros [= <-]; constructor].
  intros Hs. split_checks. destruct (byName !! rpb_Parent b) as [parent|] eqn:Hp; [|done].
  split_checks. subst m'.
  match goal with Hx : bool_decide _ || _ = false |- _ => apply orb_false_iff in Hx as [Hx _];
    apply bool_decide_eq_false, eq_None_not_Some in Hx end.
  constructor; [done..|]. by apply binding_is_valid.
Qed.

Lemma profiled_name byName m m' : profiled byName m m' -> vm_Name m' = vm_Name m.
Proof. by intros []. Qed.

Lemma profiled_profile byName m m' : profiled byName m m' -> vm_Profile m' = copy_binding <$> vm_Profile m.
Proof. intros [E|b parent E _ _ Hb]; rewrite E; [done|]. simpl. by rewrite Hb. Qed.

Lemma profiled_id byName m m' : profiled byName m m' -> vm_Profile m = None -> m' = m.
Proof. intros [E|b parent E _ _ _] Hn; [done|congruence]. Qed.

(** The walk from a profile starts at its parent. *)
Lemma profiled_parent byName m m' b :
  profiled byName m m' -> vm_Profile m = Some b -> plain_parent m -> rpb_Parent b <> ""%string ->
  parent_of_child m' = Some (rpb_Parent b) /\ inherits m' = true.
Proof.
  intros Hp Hb Hplain Hne. unfold parent_of_child, inherits. rewrite (profiled_profile _ _ _ Hp), Hb.
  simpl. rewrite (Hplain b Hb), orb_true_r. split; [|done].
  by apply String.eqb_neq in Hne as ->.
Qed.

Lemma copy_parent m b : plain_parent m -> vm_Profile m = Some b ->
  rpb_Parent (copy_binding b) = rpb_Parent b.
Proof. intros Hp Hb. by apply Hp. Qed.

(** *** The models *)

(** A model of a document [d] of resolved profiles comes from [m]. *)
Definition resolved_from (byName : gmap string VirtualModel) (d : Document) (m m' : VirtualModel) : Prop :=
  exists mp, profiled byName m mp /\ resolve_model d mp = inr m'.

Lemma resolved_from_name byName d m m' : resolved_from byName d m m' -> vm_Name m = vm_Name m'.
Proof.
  intros (mp & Hp & (a & _ & ->)%resolve_model_inr). simpl. symmetry. by eapply profiled_name.
Qed.

Lemma walk_again byName d m mp m' byName' mp' :
  plain_parent m -> profiled byName m mp -> resolve_model d mp = inr m' -> profiled byName' m' mp' ->
  same_walk mp mp'.
Proof.
  intros Hplain Hp Hr Hp'. pose proof (profiled_profile _ _ _ Hp) as E.
  apply resolve_model_inr in Hr as (a & _ & ->).
  pose proof (profiled_profile _ _ _ Hp') as E'. pose proof (profiled_name _ _ _ Hp') as En. simpl in En.
  cbn [apply_assignment with_policies vm_Profile] in E'.
  destruct (vm_Profile m) as [b|] eqn:Hb.
  - split; [done| |].
    + unfold inherits. by rewrite E', E, !orb_true_r.
    + unfold parent_of_child. rewrite E', E, En. simpl. by rewrite !(Hplain b Hb).
  - apply (profiled_id _ _ _) in Hp'; [|exact E]. by subst mp'.
Qed.

(** Where a profile is assigned nothing, neither is its parent. *)
Lemma parent_assigned byName d m mp b parent a a' :
  plain_parent m -> profiled byName m mp -> vm_Profile m = Some b -> rpb_Parent b <> ""%string ->
  canonical_models (doc_VirtualModels d) !! rpb_Parent b = Some parent ->
  model_assignment d mp = inr a -> model_assignment d parent = inr a' ->
  (mpa_PIIProfile a = None -> mpa_PIIProfile a' = None) /\
  (mpa_GuardrailProfile a = None -> mpa_GuardrailProfile a' = None).
Proof.
  intros Hplain Hp Hb Hne Hparent (names & Hl & ->)%model_assignment_inr (names' & Hl' & ->)%model_assignment_inr.
  destruct (profiled_parent _ _ _ _ Hp Hb Hplain Hne) as [Hpc Hi].
  assert (Hof : parent_of d mp = Some parent) by (unfold parent_of; by rewrite Hi, Hpc).
  assert (Hnames : names = vm_Name parent :: names').
  { inversion Hl; subst; [congruence|]. rewrite Hof in *. simplify_eq. by eapply Lineage_det. }
  subst names. cbn [nearest_assignment mpa_PIIProfile mpa_GuardrailProfile].
  split; [generalize mpa_PIIProfile|generalize mpa_GuardrailProfile]; intros field;
    cbn [nearest]; by destruct (field (assignment_of d (vm_Name mp))).
Qed.

Lemma apply_docs d d' a m :
  doc_PIIProfiles d = doc_PIIProfiles d' -> doc_GuardrailProfiles d = doc_GuardrailProfiles d' ->
  apply_assignment d' a m = apply_assignment d a m.
Proof. intros Hp Hg. unfold apply_assignment. by rewrite Hp, Hg. Qed.

Lemma inherit_again d a a' parent m m' b b' :
  vm_Profile parent = None ->
  m' = apply_assignment d a (inherit_profile parent m b) ->
  (mpa_PIIProfile a = None -> mpa_PIIProfile a' = None) ->
  (mpa_GuardrailProfile a = None -> mpa_GuardrailProfile a' = None) ->
  unprofiled (apply_assignment d a (inherit_profile (apply_assignment d a' parent) m' b')) = unprofiled m'.
Proof.
  intros Hn -> Hpii Hg. unfold inherit_profile at 1.
  rewrite (derived_again parent m) by done.
  assert (Hv : model_valid (apply_assignment d a' parent) = model_valid parent) by done.
  unfold clone_model. rewrite Hv. destruct a as [p g], a' as [p' g']. simpl in Hpii, Hg.
  unfold inherit_profile, clone_model, unprofiled, apply_assignment, with_policies.
  cbn [vm_Profile vm_RequestOverrides vm_Name vm_Aliases vm_Visibility vm_RequiredCapabilities
       vm_ResponseModel vm_Selection vm_Limits vm_Retry vm_Guardrails vm_Privacy vm_Pools
       mpa_PIIProfile mpa_GuardrailProfile].
  destruct (model_valid parent), p, g; rewrite ?Hpii, ?Hg by done; done.
Qed.

(** The two resolutions of a document's models. *)
Section Twice.
Context (ms msp ms1 ms1p ms2 : list VirtualModel) (d d1 : Document).
Context (Hd : doc_VirtualModels d = msp) (Hd1 : doc_VirtualModels d1 = ms1p).
Context (Hpol : doc_ModelPolicies d = doc_ModelPolicies d1).
Context (Hpii : doc_PIIProfiles d = doc_PIIProfiles d1).
Context (Hguard : doc_GuardrailProfiles d = doc_GuardrailProfiles d1).
Context (Hplain : Forall plain_parent ms) (Hnames : Forall (fun m => vm_Name m <> ""%string) ms).
Context (Hp : Forall2 (profiled (canonical_models ms)) ms msp).
Context (Hr : Forall2 (fun mp m1 => resolve_model d mp = inr m1) msp ms1).
Context (Hp1 : Forall2 (profiled (canonical_models ms1)) ms1 ms1p).
Context (Hr1 : Forall2 (fun mp m2 => resolve_model d1 mp = inr m2) ms1p ms2).

Lemma resolved_parent name parent :
  canonical_models ms !! name = Some parent -> vm_Profile parent = None ->
  exists parent1, canonical_models msp !! name = Some parent /\
    resolve_model d parent = inr parent1 /\ canonical_models ms1 !! name = Some parent1.
Proof using All.
  intros Hl Hn.
  assert (H1 : Forall2 (resolved_from (canonical_models ms) d) ms ms1).
  { eapply Forall2_trans; [|exact Hp|exact Hr]. intros x y z Hx Hy. by exists y. }
  pose proof (canonical_Forall2 _ (resolved_from_name _ _) _ _ name H1) as Hc.
  pose proof (canonical_Forall2 _ (fun m m' Hm => eq_sym (profiled_name _ m m' Hm)) _ _ name Hp) as Hcp.
  rewrite Hl in Hc, Hcp. inversion Hc as [? p1 (mp & Hmp & Hrp) E E'|]; subst.
  inversion Hcp as [? mp' Hmp' E E''|]; subst. apply profiled_id in Hmp, Hmp'; [|done..]. subst.
  by exists p1.
Qed.

Lemma walks_again i mp mp1 : msp !! i = Some mp -> ms1p !! i = Some mp1 -> same_walk mp mp1.
Proof using All.
  intros Hi Hi1. destruct (Forall2_lookup_r _ _ _ _ _ Hp Hi) as (m & Hm & Hmp).
  destruct (Forall2_lookup_l _ _ _ _ _ Hr Hi) as (m1 & Hm1 & Hres).
  destruct (Forall2_lookup_l _ _ _ _ _ Hp1 Hm1) as (mp1' & Hi1' & Hmp1). simplify_eq.
  eapply walk_again; [|exact Hmp|exact Hres|exact Hmp1]. by eapply (Forall_lookup_1 _ _ _ _ Hplain).
Qed.

Lemma assigned_alike i mp mp1 :
  msp !! i = Some mp -> ms1p !! i = Some mp1 -> model_assignment d1 mp1 = model_assignment d mp.
Proof using All.
  intros Hi Hi1. unfold model_assignment. rewrite Hd, Hd1.
  assert (Hlen : length ms1p = length msp).
  { by rewrite <- (Forall2_length _ _ _ Hp1), (Forall2_length _ _ _ Hr). }
  assert (Hwalk : Forall2 same_walk msp ms1p).
  { apply Forall2_same_length_lookup_2; [done|]. intros j x y. apply walks_again. }
  rewrite Hlen, <- (sw_name _ _ (walks_again _ _ _ Hi Hi1)).
  unfold assignment_of. rewrite <- Hpol. symmetry. apply ancestors_same; [done| |by eapply walks_again].
  intros n. by apply (canonical_Forall2 _ (fun m m' => sw_name m m')).
Qed.

Lemma resolve_models_again : Forall2 republished ms1 ms2.
Proof using All.
  pose proof assigned_alike as Halike. pose proof resolved_parent as Hresp.
  assert (Hlen : length ms1 = length ms2).
  { by rewrite (Forall2_length _ _ _ Hp1), (Forall2_length _ _ _ Hr1). }
  apply Forall2_same_length_lookup_2; [done|]. intros i m1 m2 Hi1 Hi2.
  destruct (Forall2_lookup_l _ _ _ _ _ Hp1 Hi1) as (mp1 & Hip1 & Hmp1).
  destruct (Forall2_lookup_l _ _ _ _ _ Hr1 Hip1) as (m2' & Hi2' & Hres1).
  assert (m2' = m2) as -> by congruence.
  destruct (Forall2_lookup_r _ _ _ _ _ Hr Hi1) as (mp & Hip & Hres).
  destruct (Forall2_lookup_r _ _ _ _ _ Hp Hip) as (m & Hi & Hmp).
  apply resolve_model_inr in Hres as Ha, Hres1 as Ha1.
  destruct Ha as (a & Ha & Em1), Ha1 as (a1 & Ha1 & Em2).
  rewrite (Halike _ _ _ Hip Hip1), Ha in Ha1. injection Ha1 as <-.
  rewrite (apply_docs d d1) in Em2 by done.
  pose proof (Forall_lookup_1 _ _ _ _ Hplain Hi) as Hpl.
  assert (Eprof : vm_Profile m1 = copy_binding <$> vm_Profile m).
  { rewrite Em1. apply (profiled_profile _ _ _ Hmp). }
  unfold republished. rewrite Eprof. destruct (vm_Profile m) as [b|] eqn:Hb; simpl in Eprof |- *.
  2: { apply profiled_id in Hmp1; [|done]. rewrite Em2, Hmp1, Em1. by apply apply_twice. }
  split.
  { rewrite Em2. change (is_Some (vm_Profile mp1)). rewrite (profiled_profile _ _ _ Hmp1), Eprof.
    by eexists. }
  destruct Hmp as [?|b' parent Hb' Hparent Hpn Hclone]; [congruence|].
  assert (b' = b) as -> by congruence.
  destruct (Hresp _ _ Hparent Hpn) as (parent1 & Hpp & Hrp & Hparent1).
  assert (Hne : rpb_Parent b <> ""%string).
  { apply canonical_lookup in Hparent as [Hin <-]. rewrite Forall_forall in Hnames. by apply Hnames. }
  rewrite <- Hd in Hpp. apply resolve_model_inr in Hrp as (a' & Ha' & ->).
  destruct (parent_assigned (canonical_models ms) d m (inherit_profile parent m b) b parent a a')
    as [Hpi Hgu]; try done; [by apply profiled_some|].
  destruct Hmp1 as [?|b1 parent1' Hb1 Hparent1' _ _]; [congruence|].
  assert (Eb1 : b1 = copy_binding b) by congruence. subst b1.
  rewrite (copy_parent m b Hpl Hb), Hparent1 in Hparent1'. injection Hparent1' as <-.
  rewrite Em2. by eapply inherit_again.
Qed.
End Twice.
End Again.
