(* ===== verification/Picker.v ===== *)
(** * Weighted selection ([pkg/routing/picker.go])

    The picker interface and its cryptographic implementation over the entropy
    source of the world, and the rendezvous order of the targets of a pool. *)

From stdpp Require Import base gmap list strings sorting.
From Stdlib Require Import ZArith Lia SpecFloat.
From S2P Require Import Prelude GoStrings Policies Capabilities Config Sha256.

Local Open Scope Z_scope.

(** ** Pickers *)

(** [WeightedPicker]: a pick reads and advances a world [W]. *)
Definition WeightedPicker (W : Type) : Type := Z -> M W string Z.

(** [rand.Int(rand.Reader, max)]; the reader is part of the world. *)
Class Entropy (W : Type) := rand_Int : Z -> M W string Z.

(** What [crypto/rand] documents: a uniform value in [[0, max)], or an error of
    the reader. *)
Class EntropyLaws (W : Type) `{Entropy W} : Prop :=
  rand_Int_range max w v w' : 0 < max -> rand_Int max w = (inr v, w') -> 0 <= v < max.

Section Pickers.
Context {W : Type} `{Entropy W}.

Definition CryptoPicker : WeightedPicker W := fun totalWeight =>
  if totalWeight <=? 0 then throw "total weight must be positive"%string
  else fun w =>
    match rand_Int totalWeight w with
    | (inl _, w') => (inl "random weighted selection: %w"%string, w')
    | (inr v, w') => (inr v, w')
    end.

(** The contract of the interface's comment: a pick is in [[0, totalWeight)]. *)
Definition picker_ok (p : WeightedPicker W) : Prop :=
  forall total w v w', p total w = (inr v, w') -> 0 <= v < total.

Lemma CryptoPicker_ok `{!EntropyLaws W} : picker_ok CryptoPicker.
Proof.
  intros total w v w'. unfold CryptoPicker. destruct (Z.leb_spec total 0); [done|].
  destruct (rand_Int total w) as [[e|v'] w1] eqn:E; [done|]. intros [= <- <-].
  by eapply rand_Int_range.
Qed.
End Pickers.

(** ** The rendezvous order *)

(** [math.Log]. *)
Class MathLog := math_Log : float64 -> float64.

Record ranked := mkRanked {
  rk_index : nat;
  rk_name : string;
  rk_score : float64;
}.

Definition NUL : string := String.String (Ascii.ascii_of_nat 0) "".

Section Rendezvous.
Context `{MathLog}.

(** The 53 high bits of the digest's first eight bytes, as a fraction. *)
Definition hash_unit (key deployment : string) : float64 :=
  let digest := Sum256 (string_bytes (key +:+ NUL +:+ deployment)) in
  let value := Z.shiftr (big_endian (take 8 digest)) 11 in
  f64_div (f64_add (f64_of_int value) (f64_of_int 1))
          (f64_add (f64_of_int (Z.shiftl 1 53)) (f64_of_int 1)).

Definition hash_score (key : string) (target : WeightedTarget) : float64 :=
  f64_div (f64_neg (math_Log (hash_unit key (wt_Deployment target))))
          (f64_of_int (wt_Weight target)).

Definition ranked_less (x y : ranked) : bool :=
  if f64_eq (rk_score x) (rk_score y) then String.ltb (rk_name x) (rk_name y)
  else f64_lt (rk_score x) (rk_score y).

Definition rank_targets (key : string) (targets : list WeightedTarget) : list ranked :=
  imap (fun index target =>
          {| rk_index := index; rk_name := wt_Deployment target; rk_score := hash_score key target |})
    targets.

Definition weightedHashOrder (key : string) (targets : list WeightedTarget) : list nat :=
  rk_index <$> stable_sort ranked_less (rank_targets key targets).
End Rendezvous.

(** [for index, original := range order { ordered[index] = remaining[original] }] *)
Definition at_indices {A} (l : list A) (order : list nat) : list A := omap (fun i => l !! i) order.

(** ** Lemmas *)

(** What the order relies on of [math.Log]: it is finite at each of the 2^53
    fractions of [(0, 1]] that [hash_unit] can produce. *)
Class MathLogLaws `{MathLog} : Prop :=
  math_Log_finite value : 0 <= value < 2 ^ 53 ->
    match math_Log (f64_div (f64_add (f64_of_int value) (f64_of_int 1))
                            (f64_add (f64_of_int (Z.shiftl 1 53)) (f64_of_int 1))) with
    | S754_zero _ | S754_finite _ _ _ => True
    | _ => False
    end.

Lemma big_endian_range l :
  Forall (fun b => 0 <= b < 256) l -> 0 <= big_endian l < 256 ^ Z.of_nat (length l).
Proof.
  unfold big_endian. induction l as [|b l IH] using rev_ind; [simpl; lia|].
  intros [Hl Hb]%Forall_app. rewrite foldl_app, length_app. simpl.
  specialize (IH Hl). inversion Hb; subst.
  replace (Z.of_nat (length l + 1)) with (Z.succ (Z.of_nat (length l))) by lia.
  rewrite Z.pow_succ_r by lia. lia.
Qed.

Lemma imap_index {A} (l : list A) : imap (fun i _ => i) l = seq 0 (length l).
Proof.
  enough (H : forall k, imap (fun i _ => k + i)%nat l = seq k (length l)) by apply (H 0%nat).
  induction l as [|x l IH]; intros k; [done|]. rewrite imap_cons. simpl.
  rewrite Nat.add_0_r, <- (IH (S k)). f_equal. apply imap_ext. intros. simpl. lia.
Qed.

Section Order.
Context `{MathLog} {A : Type} (tgt : A -> WeightedTarget) (key : string).

(** The comparison of the order on whatever carries a target. *)
Definition target_less (x y : A) : bool :=
  if f64_eq (hash_score key (tgt x)) (hash_score key (tgt y))
  then String.ltb (wt_Deployment (tgt x)) (wt_Deployment (tgt y))
  else f64_lt (hash_score key (tgt x)) (hash_score key (tgt y)).

Lemma weightedHashOrder_sorts (l : list A) :
  at_indices l (weightedHashOrder key (tgt <$> l)) = stable_sort target_less l.
Proof.
  set (less2 := fun p q : nat * A => target_less p.2 q.2).
  set (pairs := imap (fun i x => (i, x)) l).
  assert (E : rank_targets key (tgt <$> l) =
    (fun p : nat * A => mkRanked p.1 (wt_Deployment (tgt p.2)) (hash_score key (tgt p.2))) <$> pairs).
  { unfold rank_targets, pairs. by rewrite imap_fmap, fmap_imap. }
  unfold weightedHashOrder. rewrite E, (stable_sort_fmap less2) by done.
  rewrite <- list_fmap_compose.
  assert (Hl : l = snd <$> pairs) by (unfold pairs; rewrite fmap_imap; symmetry; etrans; [apply (imap_const id)|apply list_fmap_id]).
  assert (Hin : forall p, p ∈ stable_sort less2 pairs -> l !! p.1 = Some p.2).
  { intros p Hp. rewrite stable_sort_Permutation in Hp. unfold pairs in Hp.
    apply list_elem_of_lookup in Hp as [i Hi]. rewrite list_lookup_imap in Hi.
    destruct (l !! i) eqn:El; simpl in Hi; simplify_eq. done. }
  rewrite Hl at 2. rewrite (stable_sort_fmap less2) by done.
  induction (stable_sort less2 pairs) as [|p s IH]; [done|]. unfold at_indices. simpl.
  rewrite (Hin p) by (by left). simpl. f_equal. apply IH. intros q Hq. apply Hin. by right.
Qed.

Lemma weightedHashOrder_Permutation targets :
  weightedHashOrder key targets ≡ₚ seq 0 (length targets).
Proof.
  unfold weightedHashOrder. rewrite stable_sort_Permutation. unfold rank_targets.
  by rewrite fmap_imap, <- imap_index.
Qed.

Context `{!MathLogLaws}.

Lemma hash_score_not_nan target : 0 < wt_Weight target -> is_nan (hash_score key target) = false.
Proof.
  intros Hw. destruct (f64_of_int_pos _ Hw). unfold hash_score. apply f64_div_not_nan; [|done..].
  unfold hash_unit. set (digest := Sum256 _).
  assert (Hv : 0 <= Z.shiftr (big_endian (take 8 digest)) 11 < 2 ^ 53).
  { pose proof (big_endian_range (take 8 digest)) as Hr. rewrite length_take in Hr.
    unfold digest in Hr at 4. rewrite length_Sum256 in Hr. simpl in Hr.
    rewrite Z.shiftr_div_pow2 by lia. destruct Hr as [Hr1 Hr2].
    { apply Forall_take, Sum256_bytes. }
    split; [apply Z.div_pos; lia|]. apply Z.div_lt_upper_bound; lia. }
  pose proof (math_Log_finite _ Hv) as Hf. by destruct (math_Log _).
Qed.

(** On positive weights the comparison is the lexicographic order of score and
    name, a strict weak order. *)
Definition hash_less : A -> A -> bool :=
  lex_less (fun x y => lex_lt (f64_key (hash_score key (tgt x))) (f64_key (hash_score key (tgt y))))
           (fun x y => String.ltb (wt_Deployment (tgt x)) (wt_Deployment (tgt y))).

#[export] Instance hash_less_order : StrictWeakOrder hash_less.
Proof.
  unfold hash_less. apply lex_order.
  - apply (preimage_order (fun x => f64_key (hash_score key (tgt x)))), _.
  - apply (preimage_order (fun x => wt_Deployment (tgt x))), _.
Qed.

Lemma target_less_hash x y :
  0 < wt_Weight (tgt x) -> 0 < wt_Weight (tgt y) -> target_less x y = hash_less x y.
Proof.
  intros Hx%hash_score_not_nan Hy%hash_score_not_nan. unfold target_less, hash_less, lex_less.
  rewrite f64_eq_key, f64_lt_key by done.
  pose proof (less_asym (less := lex_lt) (f64_key (hash_score key (tgt x)))
                (f64_key (hash_score key (tgt y)))) as As.
  destruct (lex_lt _ _) eqn:E1; simpl; [done|]. by destruct (lex_lt _ _).
Qed.

Lemma weightedHashOrder_hash_less (l : list A) :
  Forall (fun x => 0 < wt_Weight (tgt x)) l ->
  at_indices l (weightedHashOrder key (tgt <$> l)) = stable_sort hash_less l.
Proof.
  intros Hl. rewrite weightedHashOrder_sorts. apply stable_sort_ext. intros x y Hx Hy.
  rewrite Forall_forall in Hl. by apply target_less_hash; apply Hl.
Qed.
End Order.
