(* ===== verification/Fixtures.v ===== *)
(** * Fixtures of the witnesses

    A small fleet, a document that routes to it, and concrete instances of the
    parameters: Unicode tables, an entropy source and a logarithm. *)

From stdpp Require Import base gmap list strings.
From Stdlib Require Import ZArith Lia SpecFloat.
From S2P Require Import Prelude GoStrings RouterPolicy Policies Capabilities Config Fields Picker.

Local Open Scope Z_scope.

(** ** Parameters *)

(** Tables for ASCII input. *)
Definition plain_tables : UnicodeTables := {| unicode_ToLower s := s; unicode_TrimSpace s := s |}.

(** Every text is JSON and a string; an object has no members to speak of. *)
Definition any_json : EncodingJSON :=
  {| json_Valid _ := true; json_Raw s := s; json_Members _ := None; json_Object _ := "{}"%string;
     json_Value s := Some (JString s); json_profiles_size _ := Some 0;
     json_patch_size _ := Some 0; json_kwargs_size _ := Some 0 |}.

(** A picker that always picks the last value. *)
Definition last_picker : WeightedPicker unit := fun total w =>
  if total <=? 0 then (inl "empty"%string, w) else (inr (total - 1), w).

Lemma last_picker_ok : picker_ok last_picker.
Proof.
  intros total [] v w'. unfold last_picker. destruct (Z.leb_spec total 0); [done|].
  intros [= <- <-]. lia.
Qed.

Definition last_entropy : Entropy unit := last_picker.

(** A logarithm to base two, rounded to an integer; zero outside the positive
    numbers. *)
Definition floor_log : MathLog := fun x =>
  match x with
  | S754_finite _ m e =>
      match f64_of_int (e + Zdigits2 (Z.pos m) - 1) with
      | S754_finite s m e => S754_finite s m e
      | _ => S754_zero true
      end
  | _ => S754_zero true
  end.

Lemma floor_log_laws : @MathLogLaws floor_log.
Proof.
  intros v _. unfold floor_log, math_Log. destruct (f64_div _ _) as [| | |s m e]; try done.
  by destruct (f64_of_int _).
Qed.

(** ** The fleet *)

(** Two deployments: ["a"] admits one request at a time and is ejected by its
    first failure, ["b"] has its circuit disabled. *)
Definition deployment_named (name provider : string) (limit : Z) (circuit : CircuitPolicy) : Deployment :=
  {| dep_RequestProfiles := ∅; dep_ProfileSource := None; dep_DiscoveryJobIDs := []; dep_ModelMetadata := None; dep_Name := name; dep_Title := ""; dep_Provider := provider;
     dep_Model := "m"; dep_NativeProtocols := [];
     dep_EndpointSource :=
       {| es_Recovery := zeroRecoveryPolicy; es_IdleAction := ""; es_Type := ""; es_Controller := "";
          es_Revision := ""; es_Recipe := ""; es_RecipeRevision := ""; es_ClusterCandidates := [];
          es_Overrides := ∅; es_ActivationTimeout := 0; es_IdleTTL := 0; es_MaxQueuedWaiters := 0;
          es_MaxQueuedBodyBytes := 0; es_ColdStart := "" |};
     dep_Credential := ""; dep_UpstreamHeaders := ∅; dep_ExtraBody := ∅; dep_Capabilities := [];
     dep_CapabilityPolicy := {| capol_Unknown := ""; capol_Unsupported := [] |};
     dep_MaxConcurrency := limit; dep_Circuit := circuit |}.

Definition brittle_circuit : CircuitPolicy :=
  {| cp_Disabled := false; cp_ConsecutiveFailures := 1; cp_MinimumSamples := 2;
     cp_SampleWindow := 3; cp_FailureRate := f64_zero; cp_BaseEjectionTime := 10 * Second;
     cp_MaxEjectionTime := Minute |}.
Definition disabled_circuit : CircuitPolicy :=
  {| cp_Disabled := true; cp_ConsecutiveFailures := 0; cp_MinimumSamples := 0;
     cp_SampleWindow := 0; cp_FailureRate := f64_zero; cp_BaseEjectionTime := 0;
     cp_MaxEjectionTime := 0 |}.
Definition dep_a : Deployment := deployment_named "a" "openai" 1 brittle_circuit.
Definition dep_b : Deployment := deployment_named "b" "anthropic" 0 disabled_circuit.
Definition fleet : list Deployment := [dep_a; dep_b].


(** ** The document *)
Definition provider_named (name type : string) : Provider :=
  {| prov_Name := name; prov_Type := type; prov_BaseURL := "https://api.example"; prov_SubscriptionProfile := "";
     prov_Region := "";
     prov_Auth := {| auth_Type := ""; auth_Header := ""; auth_Prefix := ""; auth_Credential := "" |};
     prov_DefaultHeaders := ∅; prov_Continuations := ""; prov_ExtraBody := ∅;
     prov_CapabilityDefaults := "" |}.

Definition model_named (name mode : string) (aliases : list string) (visibility : string)
    (pools : list RoutingPool) : VirtualModel :=
  {| vm_Profile := None; vm_RequestOverrides := ∅; vm_Name := name; vm_Aliases := aliases; vm_Visibility := visibility;
     vm_RequiredCapabilities := []; vm_ResponseModel := "";
     vm_Selection :=
       {| sp_PreferRunning := None; sp_Mode := mode;
          sp_HashKey := if String.eqb mode SelectionWeightedHash then SelectionHashTenant else "";
          sp_PromptCacheAffinity :=
            {| pca_Enabled := false; pca_TTL := 0; pca_MinPrefixBytes := 0;
               pca_MaxPrefixesPerRequest := 0; pca_Scope := "" |} |};
     vm_Limits := {| ml_MaxAttempts := 0; ml_OverallTimeout := 0; ml_PerTryTimeout := 0;
                     ml_StreamIdleTimeout := 0 |};
     vm_Retry := zeroRetryPolicy;
     vm_Guardrails := {| gp_Pre := []; gp_Post := []; gp_Stream := None |};
     vm_Privacy := None;
     vm_Pools := pools |}.

Definition pool_ab : RoutingPool :=
  {| pool_Priority := 1;
     pool_Targets := [{| wt_Deployment := "a"; wt_Weight := 2 |};
                      {| wt_Deployment := "b"; wt_Weight := 1 |}] |}.

(** ["m"], also called ["gpt"], draws at random; ["h"] hashes; ["i"] is internal. *)
Definition model_m : VirtualModel := model_named "m" "" ["gpt"%string] "" [pool_ab].
Definition model_h : VirtualModel := model_named "h" SelectionWeightedHash [] "" [pool_ab].
Definition model_i : VirtualModel := model_named "i" "" [] ModelVisibilityInternal [pool_ab].

Definition document : Document :=
  {| doc_RequestProfileSources := ∅; doc_SparkrunOverrides := None; doc_MMProjection := None; doc_PIIProfiles := ∅;
     doc_GuardrailProfiles := ∅; doc_ModelPolicies := ∅; doc_Observability := None;
     doc_CapabilityDefaults := ""; doc_ModelRouting := None;
     doc_Providers := [provider_named "openai" "openai"; provider_named "anthropic" "anthropic"];
     doc_Deployments := fleet;
     doc_VirtualModels := [model_m; model_h; model_i] |}.
