(* ===== verification/Targets.v ===== *)
(** * Target admission and circuit breaking ([pkg/routing/targets.go])

    One [targetRuntime] per deployment: the concurrency gate and the passive
    circuit breaker (closed, open, half-open) over a ring buffer of results.
    Every operation below is one critical section of [targetRuntime.mu]; the
    observer calls it makes after unlocking are its returned events.  A Go
    panic (an index out of range, a division by zero) is [None]. *)

From stdpp Require Import base gmap list strings sorting.
From Stdlib Require Import Ascii ZArith Lia SpecFloat.
From S2P Require Import Prelude GoStrings Policies Capabilities Config.

Local Open Scope Z_scope.

(** ** Data *)
Inductive CircuitState := CircuitClosed | CircuitOpen | CircuitHalfOpen.

Inductive AdmissionReason :=
  | AdmissionCircuitOpen
  | AdmissionHalfOpenInFlight
  | AdmissionConcurrencyLimit
  | AdmissionUnknownTarget.

Inductive TargetResult := TargetSuccess | TargetFailure | TargetNeutral.

#[export] Instance CircuitState_eq_dec : EqDecision CircuitState.
Proof. solve_decision. Defined.
#[export] Instance AdmissionReason_eq_dec : EqDecision AdmissionReason.
Proof. solve_decision. Defined.
#[export] Instance TargetResult_eq_dec : EqDecision TargetResult.
Proof. solve_decision. Defined.

Definition is_open (s : CircuitState) : bool :=
  match s with CircuitOpen => true | _ => false end.
Definition is_closed (s : CircuitState) : bool :=
  match s with CircuitClosed => true | _ => false end.
Definition is_half_open (s : CircuitState) : bool :=
  match s with CircuitHalfOpen => true | _ => false end.
Definition is_failure (r : TargetResult) : bool :=
  match r with TargetFailure => true | _ => false end.

Definition MaxRecentTargetFailures : nat := 8.
Definition maxFailureClassLength : nat := 96.

Record RecentTargetFailure := mkRecentTargetFailure {
  rf_OccurredAt : Z;
  rf_FailureClass : string;
}.

Record CircuitTransition := mkCircuitTransition {
  ct_Deployment : string;
  ct_From : CircuitState;
  ct_To : CircuitState;
  ct_Reason : string;
  ct_EjectionCount : Z;
  ct_EjectedUntil : Z;
}.

(** The calls to [TargetObserver]. *)
Inductive TargetEvent :=
  | TargetAdmissionChanged (deployment : string) (delta : Z)
  | TargetAdmissionRejected (deployment : string) (reason : AdmissionReason)
  | TargetCircuitChanged (event : CircuitTransition).

Record targetRuntime := mkTargetRuntime {
  t_deployment : string;
  t_maxConcurrency : Z;
  t_policy : EffectiveCircuitPolicy;
  t_state : CircuitState;
  t_active : Z;
  t_consecutiveFailures : Z;
  t_samples : list bool;
  t_sampleCount : Z;
  t_sampleCursor : Z;
  t_failuresInWindow : Z;
  t_ejectionCount : Z;
  t_ejectedUntil : Z;
  t_generation : Z;
  t_probeInFlight : bool;
  t_recentFailures : list RecentTargetFailure;
}.

(** Field assignments. *)
Definition set_state (v : CircuitState) (t : targetRuntime) : targetRuntime :=
  let '(mkTargetRuntime d mc p _ a cf sm sc cu fw ec eu g pi rf) := t in
  mkTargetRuntime d mc p v a cf sm sc cu fw ec eu g pi rf.
Definition set_active (v : Z) (t : targetRuntime) : targetRuntime :=
  let '(mkTargetRuntime d mc p s _ cf sm sc cu fw ec eu g pi rf) := t in
  mkTargetRuntime d mc p s v cf sm sc cu fw ec eu g pi rf.
Definition set_consecutiveFailures (v : Z) (t : targetRuntime) : targetRuntime :=
  let '(mkTargetRuntime d mc p s a _ sm sc cu fw ec eu g pi rf) := t in
  mkTargetRuntime d mc p s a v sm sc cu fw ec eu g pi rf.
Definition set_samples (v : list bool) (t : targetRuntime) : targetRuntime :=
  let '(mkTargetRuntime d mc p s a cf _ sc cu fw ec eu g pi rf) := t in
  mkTargetRuntime d mc p s a cf v sc cu fw ec eu g pi rf.
Definition set_sampleCount (v : Z) (t : targetRuntime) : targetRuntime :=
  let '(mkTargetRuntime d mc p s a cf sm _ cu fw ec eu g pi rf) := t in
  mkTargetRuntime d mc p s a cf sm v cu fw ec eu g pi rf.
Definition set_sampleCursor (v : Z) (t : targetRuntime) : targetRuntime :=
  let '(mkTargetRuntime d mc p s a cf sm sc _ fw ec eu g pi rf) := t in
  mkTargetRuntime d mc p s a cf sm sc v fw ec eu g pi rf.
Definition set_failuresInWindow (v : Z) (t : targetRuntime) : targetRuntime :=
  let '(mkTargetRuntime d mc p s a cf sm sc cu _ ec eu g pi rf) := t in
  mkTargetRuntime d mc p s a cf sm sc cu v ec eu g pi rf.
Definition set_ejectionCount (v : Z) (t : targetRuntime) : targetRuntime :=
  let '(mkTargetRuntime d mc p s a cf sm sc cu fw _ eu g pi rf) := t in
  mkTargetRuntime d mc p s a cf sm sc cu fw v eu g pi rf.
Definition set_ejectedUntil (v : Z) (t : targetRuntime) : targetRuntime :=
  let '(mkTargetRuntime d mc p s a cf sm sc cu fw ec _ g pi rf) := t in
  mkTargetRuntime d mc p s a cf sm sc cu fw ec v g pi rf.
Definition set_generation (v : Z) (t : targetRuntime) : targetRuntime :=
  let '(mkTargetRuntime d mc p s a cf sm sc cu fw ec eu _ pi rf) := t in
  mkTargetRuntime d mc p s a cf sm sc cu fw ec eu v pi rf.
Definition set_probeInFlight (v : bool) (t : targetRuntime) : targetRuntime :=
  let '(mkTargetRuntime d mc p s a cf sm sc cu fw ec eu g _ rf) := t in
  mkTargetRuntime d mc p s a cf sm sc cu fw ec eu g v rf.
Definition set_recentFailures (v : list RecentTargetFailure) (t : targetRuntime) : targetRuntime :=
  let '(mkTargetRuntime d mc p s a cf sm sc cu fw ec eu g pi _) := t in
  mkTargetRuntime d mc p s a cf sm sc cu fw ec eu g pi v.

(** Split a target into its fields and expand field reads and assignments. *)
Ltac unfold_sets :=
  cbn [set_state set_active set_consecutiveFailures set_samples set_sampleCount
       set_sampleCursor set_failuresInWindow set_ejectionCount set_ejectedUntil
       set_generation set_probeInFlight set_recentFailures t_deployment t_maxConcurrency
       t_policy t_state t_active t_consecutiveFailures t_samples t_sampleCount
       t_sampleCursor t_failuresInWindow t_ejectionCount t_ejectedUntil t_generation
       t_probeInFlight t_recentFailures] in *.
Ltac fields t := destruct t as [d mc p st a cf sm sc cu fw ec eu g pi rf]; unfold_sets.

Record TargetLease := mkTargetLease {
  tl_HealthApplied : bool;
  tl_CircuitOpened : bool;
  tl_Deployment : string;
  tl_CircuitState : CircuitState;
  tl_HalfOpenProbe : bool;
  tl_ActiveRequests : Z;
  tl_circuitGeneration : Z;
  tl_completed : bool;
}.

Record TargetStatus := mkTargetStatus {
  ts_Deployment : string;
  ts_CircuitState : CircuitState;
  ts_ActiveRequests : Z;
  ts_MaxConcurrency : Z;
  ts_ConsecutiveFailures : Z;
  ts_Samples : Z;
  ts_Failures : Z;
  ts_EjectionCount : Z;
  ts_EjectedUntil : Z;
  ts_HalfOpenProbeActive : bool;
  ts_RecentFailures : list RecentTargetFailure;
}.

Definition AdmissionAvailable (s : TargetStatus) : bool :=
  if is_open (ts_CircuitState s) ||
     (is_half_open (ts_CircuitState s) && ts_HalfOpenProbeActive s)
  then false
  else (ts_MaxConcurrency s <=? 0) || (ts_ActiveRequests s <? ts_MaxConcurrency s).

Definition AtCapacity (s : TargetStatus) : bool :=
  (0 <? ts_MaxConcurrency s) && (ts_MaxConcurrency s <=? ts_ActiveRequests s).

(** A slice read and write at a Go index. *)
Definition slice_get {A} (l : list A) (i : Z) : option A :=
  if i <? 0 then None else l !! Z.to_nat i.
Definition slice_set {A} (l : list A) (i : Z) (v : A) : option (list A) :=
  if (0 <=? i) && (i <? Z.of_nat (length l)) then Some (<[Z.to_nat i := v]> l) else None.

(** ** The circuit *)

(** [targetRuntime.advance] *)
Definition advance (t : targetRuntime) (now : Z) : targetRuntime * option CircuitTransition :=
  if negb (is_open (t_state t)) || time_Before now (t_ejectedUntil t) then (t, None)
  else
    let from := t_state t in
    let t := set_state CircuitHalfOpen t in
    let t := set_generation (uint64 (t_generation t + 1)) t in
    let t := set_probeInFlight false t in
    (t, Some {| ct_Deployment := t_deployment t;
                ct_From := from;
                ct_To := t_state t;
                ct_Reason := "ejection_elapsed";
                ct_EjectionCount := t_ejectionCount t;
                ct_EjectedUntil := 0 |}).

(** [targetRuntime.ejectionDuration] *)
Definition ejectionDuration (t : targetRuntime) : Z :=
  doubling_loop (Z.to_nat (t_ejectionCount t - 1))
    (ecp_BaseEjectionTime (t_policy t)) (ecp_MaxEjectionTime (t_policy t)).

(** [targetRuntime.open] *)
Definition open (t : targetRuntime) (now : Z) (reason : string)
  : targetRuntime * CircuitTransition :=
  let from := t_state t in
  let t := set_state CircuitOpen t in
  let t := set_ejectionCount (t_ejectionCount t + 1) t in
  let t := set_ejectedUntil (time_Add now (ejectionDuration t)) t in
  let t := set_generation (uint64 (t_generation t + 1)) t in
  let t := set_probeInFlight false t in
  (t, {| ct_Deployment := t_deployment t;
         ct_From := from;
         ct_To := t_state t;
         ct_Reason := reason;
         ct_EjectionCount := t_ejectionCount t;
         ct_EjectedUntil := t_ejectedUntil t |}).

(** [targetRuntime.close] *)
Definition close (t : targetRuntime) (reason : string) : targetRuntime * CircuitTransition :=
  let from := t_state t in
  let t := set_state CircuitClosed t in
  let t := set_consecutiveFailures 0 t in
  let t := set_sampleCount 0 t in
  let t := set_sampleCursor 0 t in
  let t := set_failuresInWindow 0 t in
  let t := set_ejectionCount 0 t in
  let t := set_ejectedUntil 0 t in
  let t := set_generation (uint64 (t_generation t + 1)) t in
  let t := set_probeInFlight false t in
  let t := set_samples ((fun _ => false) <$> t_samples t) t in
  (t, {| ct_Deployment := t_deployment t;
         ct_From := from;
         ct_To := t_state t;
         ct_Reason := reason;
         ct_EjectionCount := 0;
         ct_EjectedUntil := 0 |}).

(** [targetRuntime.recordSample] *)
Definition recordSample (t : targetRuntime) (failed : bool) : option targetRuntime :=
  let len := Z.of_nat (length (t_samples t)) in
  t ← (if t_sampleCount t <? len then
         samples ← slice_set (t_samples t) (t_sampleCursor t) failed;
         let t := set_samples samples t in
         Some (set_sampleCount (t_sampleCount t + 1) t)
       else
         old ← slice_get (t_samples t) (t_sampleCursor t);
         let t := if (old : bool) then set_failuresInWindow (t_failuresInWindow t - 1) t else t in
         samples ← slice_set (t_samples t) (t_sampleCursor t) failed;
         Some (set_samples samples t));
  let t := if failed then set_failuresInWindow (t_failuresInWindow t + 1) t else t in
  if len =? 0 then None
  else Some (set_sampleCursor (Z.rem (t_sampleCursor t + 1) len) t).

(** [float64(failuresInWindow)/float64(sampleCount) >= FailureRate] *)
Definition rate_exceeded (failures count : Z) (rate : float64) : bool :=
  f64_le rate (f64_div (f64_of_int failures) (f64_of_int count)).

(** [targetRuntime.recordClosedResult] *)
Definition recordClosedResult (t : targetRuntime) (now : Z) (result : TargetResult)
  : option (targetRuntime * option CircuitTransition) :=
  if ecp_Disabled (t_policy t) || bool_decide (result = TargetNeutral) then Some (t, None)
  else
    let failed := is_failure result in
    t ← recordSample t failed;
    if failed then
      let t := set_consecutiveFailures (t_consecutiveFailures t + 1) t in
      if ecp_ConsecutiveFailures (t_policy t) <=? t_consecutiveFailures t then
        let '(t, tr) := open t now "consecutive_failures" in Some (t, Some tr)
      else if (ecp_MinimumSamples (t_policy t) <=? t_sampleCount t) &&
              rate_exceeded (t_failuresInWindow t) (t_sampleCount t)
                (ecp_FailureRate (t_policy t)) then
        let '(t, tr) := open t now "failure_rate" in Some (t, Some tr)
      else Some (t, None)
    else Some (set_consecutiveFailures 0 t, None).

(** [SanitizeTargetFailureClass] *)
Definition SanitizeTargetFailureClass (value : string) : string :=
  if String.eqb value "" then "upstream_failure"
  else if Nat.ltb maxFailureClassLength (len value) then "upstream_failure"
  else if forallb identifier_byte (bytes value) then value
  else "upstream_failure".

(** [targetRuntime.recordFailure] *)
Definition recordFailure (t : targetRuntime) (now : Z) (failureClass : string) : targetRuntime :=
  let event := {| rf_OccurredAt := now;
                  rf_FailureClass := SanitizeTargetFailureClass failureClass |} in
  if Nat.eqb (length (t_recentFailures t)) MaxRecentTargetFailures then
    set_recentFailures (drop 1 (t_recentFailures t) ++ [event]) t
  else set_recentFailures (t_recentFailures t ++ [event]) t.

(** [targetRuntime.status] *)
Definition status (t : targetRuntime) : TargetStatus :=
  {| ts_Deployment := t_deployment t;
     ts_CircuitState := t_state t;
     ts_ActiveRequests := t_active t;
     ts_MaxConcurrency := t_maxConcurrency t;
     ts_ConsecutiveFailures := t_consecutiveFailures t;
     ts_Samples := t_sampleCount t;
     ts_Failures := t_failuresInWindow t;
     ts_EjectionCount := t_ejectionCount t;
     ts_EjectedUntil := t_ejectedUntil t;
     ts_HalfOpenProbeActive := t_probeInFlight t;
     ts_RecentFailures := reverse (t_recentFailures t) |}.

(** ** The manager *)

(** [TargetManager]: the targets by deployment, and whether an observer is
    installed.  The clock [m.now] is the [now] argument of each operation. *)
Record TargetManager := mkTargetManager {
  tm_targets : gmap string targetRuntime;
  tm_observed : bool;
}.

Definition set_target (m : TargetManager) (name : string) (t : targetRuntime) : TargetManager :=
  {| tm_targets := <[name := t]> (tm_targets m); tm_observed := tm_observed m |}.

Definition observeAdmission (m : TargetManager) (deployment : string) (delta : Z)
  : list TargetEvent :=
  if tm_observed m then [TargetAdmissionChanged deployment delta] else [].

Definition observeRejection (m : TargetManager) (deployment : string) (reason : AdmissionReason)
  : list TargetEvent :=
  if tm_observed m then [TargetAdmissionRejected deployment reason] else [].

Definition observeTransition (m : TargetManager) (transition : option CircuitTransition)
  : list TargetEvent :=
  match transition with
  | Some tr => if tm_observed m then [TargetCircuitChanged tr] else []
  | None => []
  end.

Definition newTargetRuntime (d : Deployment) : targetRuntime :=
  let policy := CircuitPolicy_Effective (dep_Circuit d) in
  {| t_deployment := dep_Name d;
     t_maxConcurrency := dep_MaxConcurrency d;
     t_policy := policy;
     t_state := CircuitClosed;
     t_active := 0;
     t_consecutiveFailures := 0;
     t_samples := replicate (Z.to_nat (ecp_SampleWindow policy)) false;
     t_sampleCount := 0;
     t_sampleCursor := 0;
     t_failuresInWindow := 0;
     t_ejectionCount := 0;
     t_ejectedUntil := 0;
     t_generation := 0;
     t_probeInFlight := false;
     t_recentFailures := [] |}.

(** The loop of [NewTargetManager]. *)
Fixpoint add_targets (targets : gmap string targetRuntime) (deployments : list Deployment)
  : string + gmap string targetRuntime :=
  match deployments with
  | [] => inr targets
  | d :: rest =>
      if String.eqb (dep_Name d) "" then inl "deployments[%d].name is required"%string
      else if bool_decide (is_Some (targets !! dep_Name d)) then
        inl "duplicate deployment %q"%string
      else if dep_MaxConcurrency d <? 0 then
        inl "deployment %q max_concurrency must not be negative"%string
      else
        match CircuitPolicy_Validate (dep_Circuit d) with
        | Some _ => inl "deployment %q circuit: %w"%string
        | None => add_targets (<[dep_Name d := newTargetRuntime d]> targets) rest
        end
  end.

Definition NewTargetManager (deployments : list Deployment) (observed : bool)
  : string + TargetManager :=
  match add_targets ∅ deployments with
  | inl e => inl e
  | inr targets => inr {| tm_targets := targets; tm_observed := observed |}
  end.

(** The gates that [Eligible] and [Acquire] share; [None] is the empty reason. *)
Definition admission_reason (t : targetRuntime) : option AdmissionReason :=
  if is_open (t_state t) then Some AdmissionCircuitOpen
  else if is_half_open (t_state t) && t_probeInFlight t then Some AdmissionHalfOpenInFlight
  else if (0 <? t_maxConcurrency t) && (t_maxConcurrency t <=? t_active t) then
    Some AdmissionConcurrencyLimit
  else None.

(** [TargetManager.Eligible] *)
Definition Eligible (m : TargetManager) (now : Z) (deployment : string)
  : bool * TargetManager * list TargetEvent :=
  match tm_targets m !! deployment with
  | None => (false, m, [])
  | Some t =>
      let '(t, transition) := advance t now in
      let m := set_target m deployment t in
      match admission_reason t with
      | Some reason =>
          (false, m, observeTransition m transition ++ observeRejection m deployment reason)
      | None => (true, m, observeTransition m transition)
      end
  end.

(** [TargetManager.Acquire] *)
Definition Acquire (m : TargetManager) (now : Z) (deployment : string)
  : (TargetLease + AdmissionReason) * TargetManager * list TargetEvent :=
  match tm_targets m !! deployment with
  | None =>
      (inr AdmissionUnknownTarget, m, observeRejection m deployment AdmissionUnknownTarget)
  | Some t =>
      let '(t, transition) := advance t now in
      match admission_reason t with
      | Some reason =>
          let m := set_target m deployment t in
          (inr reason, m, observeTransition m transition ++ observeRejection m deployment reason)
      | None =>
          let t := set_active (t_active t + 1) t in
          let halfOpen := is_half_open (t_state t) in
          let t := if halfOpen then set_probeInFlight true t else t in
          let lease := {|
            tl_HealthApplied := false;
            tl_CircuitOpened := false;
            tl_Deployment := deployment;
            tl_CircuitState := t_state t;
            tl_HalfOpenProbe := halfOpen;
            tl_ActiveRequests := t_active t;
            tl_circuitGeneration := t_generation t;
            tl_completed := false |} in
          let m := set_target m deployment t in
          (inl lease, m, observeTransition m transition ++ observeAdmission m deployment 1)
      end
  end.

(** [lease.completed.CompareAndSwap(false, true)] on a non-nil lease: [None]
    when the swap fails or the lease is nil. *)
Definition claim (lease : option TargetLease) : option TargetLease :=
  match lease with
  | None => None
  | Some l =>
      if tl_completed l then None
      else Some {| tl_HealthApplied := tl_HealthApplied l;
                   tl_CircuitOpened := tl_CircuitOpened l;
                   tl_Deployment := tl_Deployment l;
                   tl_CircuitState := tl_CircuitState l;
                   tl_HalfOpenProbe := tl_HalfOpenProbe l;
                   tl_ActiveRequests := tl_ActiveRequests l;
                   tl_circuitGeneration := tl_circuitGeneration l;
                   tl_completed := true |}
  end.

Definition set_outcome (l : TargetLease) (healthApplied opened : bool) : TargetLease :=
  {| tl_HealthApplied := healthApplied;
     tl_CircuitOpened := opened;
     tl_Deployment := tl_Deployment l;
     tl_CircuitState := tl_CircuitState l;
     tl_HalfOpenProbe := tl_HalfOpenProbe l;
     tl_ActiveRequests := tl_ActiveRequests l;
     tl_circuitGeneration := tl_circuitGeneration l;
     tl_completed := tl_completed l |}.

Definition transition_opens (tr : option CircuitTransition) : bool :=
  match tr with Some tr => is_open (ct_To tr) | None => false end.

(** The critical section of [CompleteWithFailureClass]. *)
Definition release (t : targetRuntime) (now : Z) (lease : TargetLease) (result : TargetResult)
    (failureClass : string) : option (targetRuntime * TargetLease * option CircuitTransition) :=
  let t := if 0 <? t_active t then set_active (t_active t - 1) t else t in
  let t := if is_failure result then recordFailure t now failureClass else t in
  if tl_HalfOpenProbe lease && is_half_open (t_state t) &&
     (t_generation t =? tl_circuitGeneration lease) then
    let t := set_probeInFlight false t in
    let '(t, transition) :=
      match result with
      | TargetSuccess => let '(t, tr) := close t "half_open_success" in (t, Some tr)
      | TargetFailure => let '(t, tr) := open t now "half_open_failure" in (t, Some tr)
      | TargetNeutral => (t, None)
      end in
    Some (t, set_outcome lease true (transition_opens transition), transition)
  else if negb (tl_HalfOpenProbe lease) && is_closed (t_state t) &&
          (t_generation t =? tl_circuitGeneration lease) then
    let applied := negb (ecp_Disabled (t_policy t)) in
    '(t, transition) ← recordClosedResult t now result;
    Some (t, set_outcome lease applied (transition_opens transition), transition)
  else Some (t, set_outcome lease (tl_HealthApplied lease) false, None).

(** The rest of [CompleteWithFailureClass] after a successful swap; a lease's
    target always exists, because targets are never removed. *)
Definition finish (m : TargetManager) (now : Z) (lease : TargetLease) (result : TargetResult)
    (failureClass : string) : option (TargetManager * TargetLease * list TargetEvent) :=
  t ← tm_targets m !! tl_Deployment lease;
  '(t, lease, transition) ← release t now lease result failureClass;
  let m := set_target m (tl_Deployment lease) t in
  Some (m, lease, observeAdmission m (tl_Deployment lease) (-1) ++ observeTransition m transition).

(** [TargetManager.CompleteWithFailureClass] without interleaving. *)
Definition CompleteWithFailureClass (m : TargetManager) (now : Z) (lease : option TargetLease)
    (result : TargetResult) (failureClass : string)
  : option (bool * TargetManager * option TargetLease * list TargetEvent) :=
  match claim lease with
  | None => Some (false, m, lease, [])
  | Some l =>
      '(m, l, events) ← finish m now l result failureClass;
      Some (true, m, Some l, events)
  end.

(** [TargetManager.Complete] *)
Definition Complete (m : TargetManager) (now : Z) (lease : option TargetLease)
    (result : TargetResult) := CompleteWithFailureClass m now lease result "".

(** [TargetManager.Status] *)
Definition Status (m : TargetManager) (now : Z) (deployment : string)
  : option TargetStatus * TargetManager * list TargetEvent :=
  match tm_targets m !! deployment with
  | None => (None, m, [])
  | Some t =>
      let '(t, transition) := advance t now in
      let m := set_target m deployment t in
      (Some (status t), m, observeTransition m transition)
  end.

(** The loop of [TargetManager.Statuses] over the sorted names. *)
Fixpoint statuses_loop (m : TargetManager) (now : string -> Z) (names : list string)
  : list TargetStatus * TargetManager * list TargetEvent :=
  match names with
  | [] => ([], m, [])
  | name :: rest =>
      let '(st, m, events) := Status m (now name) name in
      let '(sts, m, events') := statuses_loop m now rest in
      (match st with Some s => s :: sts | None => sts end, m, events ++ events')
  end.

(** [TargetManager.Statuses]; [now name] is the clock reading of the call
    [m.Status(name)]. *)
Definition Statuses (m : TargetManager) (now : string -> Z) :=
  statuses_loop m now (sort_Strings (map_to_list (tm_targets m)).*1).
