(* ===== verification/TargetFacts.v ===== *)
(** * The circuit breaker of one target: invariant and specification

    The well-formedness of a [targetRuntime], the abstract circuit (a window of
    the most recent results instead of a ring buffer, an explicit backoff
    formula instead of a loop) and the refinement between the two. *)

From stdpp Require Import base gmap list strings sorting.
From Stdlib Require Import Ascii ZArith Lia SpecFloat.
From S2P Require Import Prelude GoStrings Policies Capabilities Config Targets.

Local Open Scope Z_scope.

(** ** The sliding window *)

(** The recorded results, oldest first. *)
Definition window (t : targetRuntime) : list bool :=
  if t_sampleCount t <? Z.of_nat (length (t_samples t))
  then take (Z.to_nat (t_sampleCount t)) (t_samples t)
  else drop (Z.to_nat (t_sampleCursor t)) (t_samples t) ++
       take (Z.to_nat (t_sampleCursor t)) (t_samples t).

Record ring_ok (t : targetRuntime) : Prop := {
  ring_nonempty : 0 < Z.of_nat (length (t_samples t));
  ring_count : 0 <= t_sampleCount t <= Z.of_nat (length (t_samples t));
  ring_cursor : 0 <= t_sampleCursor t < Z.of_nat (length (t_samples t));
  ring_filling : t_sampleCount t < Z.of_nat (length (t_samples t)) ->
                 t_sampleCursor t = t_sampleCount t;
  ring_failures : t_failuresInWindow t = count_true (window t);
}.

Lemma length_window t : ring_ok t -> Z.of_nat (length (window t)) = t_sampleCount t.
Proof.
  intros [Hn Hc Hcur Hf _]. unfold window. case_match; prop_tests.
  - rewrite length_take. lia.
  - rewrite length_app, length_take, length_drop. lia.
Qed.

Lemma take_insert_snoc {A} (l : list A) (i : nat) x :
  (i < length l)%nat -> take (S i) (<[i := x]> l) = take i l ++ [x].
Proof.
  intros Hi. rewrite (take_S_r _ _ x).
  - by rewrite take_insert_ge by lia.
  - by apply list_lookup_insert_eq.
Qed.

Lemma drop_insert_S {A} (l : list A) (i : nat) x :
  drop (S i) (<[i := x]> l) = drop (S i) l.
Proof. apply drop_insert_lt. lia. Qed.

(** One write of a full ring moves the window by one. *)
Lemma full_ring_window (l : list bool) (i : nat) (x : bool) :
  (i < length l)%nat ->
  let l' := <[i := x]> l in
  let i' := if (S i =? length l)%nat then 0%nat else S i in
  drop i' l' ++ take i' l' = drop 1 ((drop i l ++ take i l) ++ [x]).
Proof.
  intros Hi l' i'. destruct (lookup_lt_is_Some_2 l i Hi) as [y Hy].
  rewrite (drop_S l y i Hy). cbn [app drop]. rewrite <- app_assoc.
  rewrite <- take_insert_snoc by done. unfold i', l'.
  destruct (Nat.eqb_spec (S i) (length l)) as [E|E].
  - rewrite drop_0, (drop_ge l (S i)) by lia. cbn.
    rewrite (take_ge _ (S i)) by (rewrite length_insert; lia). by rewrite app_nil_r.
  - by rewrite drop_insert_S.
Qed.

Lemma slice_set_in {A} (l : list A) i v :
  0 <= i < Z.of_nat (length l) -> slice_set l i v = Some (<[Z.to_nat i := v]> l).
Proof. intros H. unfold slice_set. destruct_tests; simpl; try lia; done. Qed.

Lemma slice_get_in {A} (l : list A) i :
  0 <= i < Z.of_nat (length l) -> exists v, slice_get l i = Some v /\ l !! Z.to_nat i = Some v.
Proof.
  intros H. unfold slice_get. destruct_tests; [lia|].
  destruct (lookup_lt_is_Some_2 l (Z.to_nat i)) as [v Hv]; [lia|eauto].
Qed.

(** ** [recordSample] implements the sliding window *)
Section RecordSample.

(** The fields [recordSample] leaves alone. *)
Record same_circuit (t t' : targetRuntime) : Prop := {
  sc_deployment : t_deployment t' = t_deployment t;
  sc_maxConcurrency : t_maxConcurrency t' = t_maxConcurrency t;
  sc_policy : t_policy t' = t_policy t;
  sc_state : t_state t' = t_state t;
  sc_active : t_active t' = t_active t;
  sc_consecutive : t_consecutiveFailures t' = t_consecutiveFailures t;
  sc_ejections : t_ejectionCount t' = t_ejectionCount t;
  sc_until : t_ejectedUntil t' = t_ejectedUntil t;
  sc_generation : t_generation t' = t_generation t;
  sc_probe : t_probeInFlight t' = t_probeInFlight t;
  sc_recent : t_recentFailures t' = t_recentFailures t;
}.

(** The window after one more result. *)
Definition push_window (n : nat) (w : list bool) (failed : bool) : list bool :=
  last_n n (w ++ [failed]).

Lemma count_true_push n w failed :
  (length w <= n)%nat ->
  count_true (push_window n w failed) =
    count_true w + (if failed then 1 else 0)
      - (if (length w =? n)%nat then
           match w ++ [failed] with b :: _ => if b then 1 else 0 | [] => 0 end else 0).
Proof.
  intros Hn. unfold push_window, last_n. rewrite length_app. simpl.
  destruct (Nat.eqb_spec (length w) n) as [E|E].
  - replace (length w + 1 - n)%nat with 1%nat by lia.
    destruct w as [|b w]; simpl; [destruct failed; lia|].
    rewrite drop_0, count_true_app. simpl. destruct b, failed; lia.
  - replace (length w + 1 - n)%nat with 0%nat by lia.
    rewrite drop_0, count_true_app. simpl. destruct failed; lia.
Qed.

Lemma window_filling t failed :
  ring_ok t -> t_sampleCount t < Z.of_nat (length (t_samples t)) ->
  let n := length (t_samples t) in
  let c := Z.to_nat (t_sampleCount t) in
  let l' := <[c := failed]> (t_samples t) in
  window t = take c (t_samples t) /\
  push_window n (window t) failed =
    (if (S c =? n)%nat then drop 0 l' ++ take 0 l' else take (S c) l').
Proof.
  intros Hr Hlt n c l'. assert (Hw : window t = take c (t_samples t)).
  { unfold window. destruct (Z.ltb_spec (t_sampleCount t) (Z.of_nat (length (t_samples t)))); [done|lia]. }
  split; [done|]. pose proof (ring_count t Hr) as Hc.
  unfold push_window, last_n. rewrite Hw.
  assert (Hlen : (length (take c (t_samples t) ++ [failed]) - n = 0)%nat).
  { rewrite length_app, length_take. simpl. lia. }
  rewrite Hlen, drop_0. unfold l'. rewrite <- take_insert_snoc by lia.
  destruct (Nat.eqb_spec (S c) n); [|done].
  rewrite drop_0, take_0, app_nil_r. apply take_ge. rewrite length_insert. lia.
Qed.

Lemma cursor_next cur n :
  0 <= cur < n -> Z.rem (cur + 1) n = if cur + 1 =? n then 0 else cur + 1.
Proof.
  intros H. rewrite Z.rem_mod_nonneg by lia. destruct (Z.eqb_spec (cur + 1) n) as [->|].
  - apply Z.mod_same. lia.
  - apply Z.mod_small. lia.
Qed.

(** What [recordSample] computes, as a value. *)
Definition sampled (t : targetRuntime) (failed : bool) : targetRuntime :=
  let len := Z.of_nat (length (t_samples t)) in
  let l := <[Z.to_nat (t_sampleCursor t) := failed]> (t_samples t) in
  let evicted := negb (t_sampleCount t <? len) &&
                 default false (t_samples t !! Z.to_nat (t_sampleCursor t)) in
  set_sampleCursor (Z.rem (t_sampleCursor t + 1) len)
    (set_failuresInWindow
       (t_failuresInWindow t - (if evicted then 1 else 0) + (if failed then 1 else 0))
       (set_sampleCount (if t_sampleCount t <? len then t_sampleCount t + 1 else t_sampleCount t)
          (set_samples l t))).

Lemma recordSample_eq t failed : ring_ok t -> recordSample t failed = Some (sampled t failed).
Proof.
  intros [Hn Hc Hcur _ _]. unfold recordSample, sampled. fields t.
  destruct (slice_get_in sm cu) as (old & -> & ->); [done|].
  destruct (Z.eqb_spec (Z.of_nat (length sm)) 0); [lia|].
  destruct (sc <? _), failed, old; simpl; unfold_sets;
    rewrite ?slice_set_in by done; simpl; do 2 f_equal; lia.
Qed.

Lemma sampled_same t failed : same_circuit t (sampled t failed).
Proof. fields t. by split. Qed.

Lemma sampled_fields t failed :
  let t' := sampled t failed in
  let n := Z.of_nat (length (t_samples t)) in
  t_samples t' = <[Z.to_nat (t_sampleCursor t) := failed]> (t_samples t) /\
  t_sampleCount t' = (if t_sampleCount t <? n then t_sampleCount t + 1 else t_sampleCount t) /\
  t_sampleCursor t' = Z.rem (t_sampleCursor t + 1) n /\
  t_failuresInWindow t' =
    t_failuresInWindow t
    - (if negb (t_sampleCount t <? n) &&
          default false (t_samples t !! Z.to_nat (t_sampleCursor t)) then 1 else 0)
    + (if failed then 1 else 0).
Proof. by destruct t. Qed.

Lemma sampled_window t failed :
  ring_ok t ->
  window (sampled t failed) = push_window (length (t_samples t)) (window t) failed.
Proof.
  intros Hr. destruct (Hr) as [Hn Hc Hcur Hfill _].
  destruct (sampled_fields t failed) as (Es & Ec & Ecu & _).
  unfold window at 1. rewrite Es, Ec, Ecu, length_insert, cursor_next by done.
  destruct (Z.ltb_spec (t_sampleCount t) (Z.of_nat (length (t_samples t)))) as [Hlt|Hge].
  - destruct (window_filling t failed Hr Hlt) as [_ ->]. rewrite Hfill by done.
    destruct (Nat.eqb_spec (S (Z.to_nat (t_sampleCount t))) (length (t_samples t))).
    + destruct_tests; try lia. done.
    + destruct_tests; try lia. do 2 f_equal; lia.
  - unfold push_window, last_n, window.
    destruct (Z.ltb_spec (t_sampleCount t) (Z.of_nat (length (t_samples t)))); [lia|].
    replace (length _ - _)%nat with 1%nat
      by (rewrite !length_app, length_drop, length_take; simpl; lia).
    rewrite <- full_ring_window by lia.
    destruct (Nat.eqb_spec (S (Z.to_nat (t_sampleCursor t))) (length (t_samples t))).
    + destruct_tests; try lia. done.
    + destruct_tests; try lia. do 2 f_equal; lia.
Qed.

(** The result that leaves a full window. *)
Lemma window_head t :
  ring_ok t -> t_sampleCount t = Z.of_nat (length (t_samples t)) ->
  exists w, window t = default false (t_samples t !! Z.to_nat (t_sampleCursor t)) :: w.
Proof.
  intros [Hn Hc Hcur _ _] Hfull. unfold window. rewrite Hfull, Z.ltb_irrefl.
  destruct (lookup_lt_is_Some_2 (t_samples t) (Z.to_nat (t_sampleCursor t))) as [b Hb]; [lia|].
  rewrite (drop_S _ _ _ Hb), Hb. simpl. eauto.
Qed.

Lemma sampled_ring t failed : ring_ok t -> ring_ok (sampled t failed).
Proof.
  intros Hr. destruct (Hr) as [Hn Hc Hcur Hfill Hfail].
  pose proof (sampled_window t failed Hr) as Hwin.
  destruct (sampled_fields t failed) as (Es & Ec & Ecu & Ef).
  split; rewrite ?Es, ?Ec, ?Ecu, ?Ef, ?length_insert, ?cursor_next by done.
  - done.
  - destruct_tests; lia.
  - destruct_tests; lia.
  - destruct_tests; lia.
  - rewrite Hwin. pose proof (length_window t Hr) as Hw.
    rewrite count_true_push by lia. rewrite Hfail.
    destruct (Z.ltb_spec (t_sampleCount t) (Z.of_nat (length (t_samples t)))) as [Hlt|Hge];
      destruct (Nat.eqb_spec (length (window t)) (length (t_samples t))); simpl; try lia.
    destruct (window_head t Hr) as [w ->]; [lia|]. simpl.
    destruct (default false _); lia.
Qed.
End RecordSample.

(** ** Ejection time *)

(** The documented backoff: the base time doubled per consecutive ejection,
    capped. *)
Definition backoff (p : EffectiveCircuitPolicy) (n : Z) : Z :=
  Z.min (ecp_MaxEjectionTime p) (ecp_BaseEjectionTime p * 2 ^ (n - 1)).

Lemma ejectionDuration_backoff t :
  circuit_ok (t_policy t) -> 1 <= t_ejectionCount t ->
  ejectionDuration t = backoff (t_policy t) (t_ejectionCount t).
Proof.
  intros [_ _ _ _ Hbase Hmax] Hn. unfold ejectionDuration, backoff.
  unfold maxConfiguredEjectionTime, Hour, Minute, Second in Hmax.
  rewrite doubling_loop_spec by (unfold MaxInt64; lia).
  do 2 f_equal. rewrite Z2Nat.id by lia. done.
Qed.

(** ** Well-formed targets *)
Record wf (t : targetRuntime) : Prop := {
  wf_policy : circuit_ok (t_policy t);
  wf_ring : ring_ok t;
  wf_size : Z.of_nat (length (t_samples t)) = ecp_SampleWindow (t_policy t);
  wf_active : 0 <= t_active t;
  wf_capacity : 0 < t_maxConcurrency t -> t_active t <= t_maxConcurrency t;
  wf_consecutive : 0 <= t_consecutiveFailures t;
  wf_closed : t_state t = CircuitClosed -> t_ejectionCount t = 0;
  wf_ejected : t_state t <> CircuitClosed -> 1 <= t_ejectionCount t;
  wf_probe : t_probeInFlight t = true -> t_state t = CircuitHalfOpen;
  wf_generation : is_uint64 (t_generation t);
  wf_recent : (length (t_recentFailures t) <= MaxRecentTargetFailures)%nat;
  wf_disabled : ecp_Disabled (t_policy t) = true -> t_state t = CircuitClosed;
}.

Lemma count_true_replicate n : count_true (replicate n false) = 0.
Proof. induction n; simpl; lia. Qed.

Lemma new_wf d : CircuitPolicy_Validate (dep_Circuit d) = None -> wf (newTargetRuntime d).
Proof.
  intros Hv%circuit_validate_ok. unfold newTargetRuntime. revert Hv.
  generalize (CircuitPolicy_Effective (dep_Circuit d)). intros p Hv.
  destruct (Hv) as [Hk Hm _ _ _ _].
  split; simpl; rewrite ?length_replicate; try done; try lia.
  - split; simpl; rewrite ?length_replicate; try lia.
    unfold window. cbn [t_sampleCount t_samples t_sampleCursor].
    rewrite length_replicate. by destruct_tests; [|lia].
Qed.

(** ** The abstract circuit *)
Inductive circuit :=
  | SClosed (consecutive : Z) (recent : list bool)
  | SOpen (ejections : Z) (until : Z)
  | SHalfOpen (ejections : Z) (probing : bool).

(** The circuit a target implements. *)
Definition circuit_of (t : targetRuntime) : circuit :=
  match t_state t with
  | CircuitClosed => SClosed (t_consecutiveFailures t) (window t)
  | CircuitOpen => SOpen (t_ejectionCount t) (t_ejectedUntil t)
  | CircuitHalfOpen => SHalfOpen (t_ejectionCount t) (t_probeInFlight t)
  end.

(** The tripping rule on a window that already holds the new failure. *)
Definition trips (p : EffectiveCircuitPolicy) (consecutive : Z) (recent : list bool) : bool :=
  (ecp_ConsecutiveFailures p <=? consecutive) ||
  ((ecp_MinimumSamples p <=? Z.of_nat (length recent)) &&
   rate_exceeded (count_true recent) (Z.of_nat (length recent)) (ecp_FailureRate p)).

Definition spec_advance (c : circuit) (now : Z) : circuit :=
  match c with
  | SOpen n until => if now <? until then c else SHalfOpen n false
  | _ => c
  end.

(** A result reported by a request that was admitted in the current
    generation of the circuit. *)
Definition spec_result (p : EffectiveCircuitPolicy) (c : circuit) (now : Z) (r : TargetResult)
  : circuit :=
  match c, r with
  | SClosed n w, TargetNeutral => c
  | SClosed n w, TargetSuccess =>
      if ecp_Disabled p then c
      else SClosed 0 (push_window (Z.to_nat (ecp_SampleWindow p)) w false)
  | SClosed n w, TargetFailure =>
      if ecp_Disabled p then c
      else
        let w := push_window (Z.to_nat (ecp_SampleWindow p)) w true in
        if trips p (n + 1) w then SOpen 1 (now + backoff p 1) else SClosed (n + 1) w
  | SHalfOpen n _, TargetSuccess => SClosed 0 []
  | SHalfOpen n _, TargetFailure => SOpen (n + 1) (now + backoff p (n + 1))
  | SHalfOpen n _, TargetNeutral => SHalfOpen n false
  | SOpen _ _, _ => c
  end.

(** ** The operations preserve [wf] and refine the abstract circuit *)
Section Refinement.

(** [window] and [ring_ok] read the ring fields only. *)
Lemma window_ext t t' :
  t_samples t' = t_samples t -> t_sampleCount t' = t_sampleCount t ->
  t_sampleCursor t' = t_sampleCursor t -> window t' = window t.
Proof. unfold window. intros -> -> ->. done. Qed.

Lemma ring_ok_ext t t' :
  t_samples t' = t_samples t -> t_sampleCount t' = t_sampleCount t ->
  t_sampleCursor t' = t_sampleCursor t -> t_failuresInWindow t' = t_failuresInWindow t ->
  ring_ok t -> ring_ok t'.
Proof.
  intros Hs Hc Hcur Hf [H1 H2 H3 H4 H5].
  pose proof (window_ext t t' Hs Hc Hcur) as Hw.
  split; by rewrite ?Hs, ?Hc, ?Hcur, ?Hf, ?Hw.
Qed.

Ltac keep_ring := by eapply ring_ok_ext; [..|eassumption].

Lemma advance_wf t now : wf t -> wf (advance t now).1.
Proof.
  intros H. unfold advance. destruct (t_state t) eqn:Hs; simpl; [done| |done].
  destruct (time_Before now (t_ejectedUntil t)); simpl; [done|].
  destruct H as [? ? ? ? ? ? Hcl Hej ? ? ? Hd]. fields t. subst st. split; unfold_sets; try done.
  - keep_ring.
  - intros _. by apply Hej.
  - apply uint64_bounds.
  - intros Hdis. by specialize (Hd Hdis).
Qed.

Lemma advance_refines t now : circuit_of (advance t now).1 = spec_advance (circuit_of t) now.
Proof.
  unfold advance, circuit_of, time_Before. fields t.
  destruct st; simpl; [done| |done]. by destruct (now <? eu).
Qed.

Lemma open_wf t now reason :
  wf t -> ecp_Disabled (t_policy t) = false -> wf (open t now reason).1.
Proof.
  intros [? Hring ? ? ? ? Hcl Hej ? ? ? Hd] Hdis. unfold open. fields t. cbn [fst].
  split; unfold_sets; try done.
  - keep_ring.
  - intros _. destruct st; [rewrite (Hcl eq_refl); lia| |]; specialize (Hej ltac:(done)); lia.
  - apply uint64_bounds.
  - by rewrite Hdis.
Qed.

Lemma open_refines t now reason :
  circuit_ok (t_policy t) -> 0 <= t_ejectionCount t ->
  circuit_of (open t now reason).1 =
    SOpen (t_ejectionCount t + 1) (now + backoff (t_policy t) (t_ejectionCount t + 1)).
Proof.
  intros Hp Hn. unfold open, circuit_of, time_Add. fields t. cbn [fst]. unfold_sets.
  rewrite ejectionDuration_backoff; [done|done|]. unfold_sets. lia.
Qed.

Lemma close_window t reason :
  (0 < length (t_samples t))%nat -> window (close t reason).1 = [].
Proof.
  intros Hl. unfold close, window. fields t. cbn [fst]. unfold_sets.
  rewrite length_fmap. destruct_tests; [done|lia].
Qed.

Lemma close_wf t reason : wf t -> wf (close t reason).1.
Proof.
  intros [Hp Hring ? ? ? ? Hcl Hej ? ? ? Hd].
  pose proof (ring_nonempty t Hring). destruct (Hp) as [Hk _ _ _ _ _].
  assert (Hw : window (close t reason).1 = []) by (apply close_window; lia).
  revert Hw. unfold close. fields t. cbn [fst]. unfold_sets. intros Hw.
  split; unfold_sets; rewrite ?length_fmap; try done; try lia.
  - split; unfold_sets; rewrite ?length_fmap; try lia. by rewrite Hw.
  - apply uint64_bounds.
Qed.

Lemma close_refines t reason : wf t -> circuit_of (close t reason).1 = SClosed 0 [].
Proof.
  intros [? Hring]. pose proof (ring_nonempty t Hring).
  rewrite <- (close_window t reason) by lia. unfold circuit_of, close. by fields t.
Qed.

(** What every circuit operation leaves alone. *)
Record frame (t t' : targetRuntime) : Prop := {
  fr_deployment : t_deployment t' = t_deployment t;
  fr_maxConcurrency : t_maxConcurrency t' = t_maxConcurrency t;
  fr_policy : t_policy t' = t_policy t;
  fr_active : t_active t' = t_active t;
}.

(** How a circuit operation moves the generation: a reported transition starts
    a new one with no probe in flight, no transition keeps the state. *)
Definition generation_step (t t' : targetRuntime) (tr : option CircuitTransition) : Prop :=
  match tr with
  | None => t_generation t' = t_generation t /\ t_state t' = t_state t
  | Some e => t_generation t' = uint64 (t_generation t + 1) /\
              t_state t' <> t_state t /\ ct_To e = t_state t' /\ t_probeInFlight t' = false
  end.

Lemma advance_frame t now : frame t (advance t now).1.
Proof. unfold advance. fields t. destruct st; [done| |done]. by destruct (time_Before _ _). Qed.

Lemma advance_generation t now : generation_step t (advance t now).1 (advance t now).2.
Proof. unfold advance. fields t. destruct st; [done| |done]. by destruct (time_Before _ _). Qed.

Lemma open_step t now reason :
  t_state t <> CircuitOpen ->
  frame t (open t now reason).1 /\
  generation_step t (open t now reason).1 (Some (open t now reason).2).
Proof. intros Hs. unfold open. fields t. cbn [fst snd]. repeat split; by try apply not_eq_sym. Qed.

Lemma close_step t reason :
  t_state t <> CircuitClosed ->
  frame t (close t reason).1 /\ generation_step t (close t reason).1 (Some (close t reason).2).
Proof. intros Hs. unfold close. fields t. cbn [fst snd]. repeat split; by try apply not_eq_sym. Qed.

Lemma sampled_wf t failed : wf t -> wf (sampled t failed).
Proof.
  intros H. pose proof (sampled_ring t failed (wf_ring t H)) as Hr.
  destruct (sampled_fields t failed) as (Es & _).
  destruct (sampled_same t failed) as [Sd Sm Sp Ss Sa Sc Se Su Sg Spr Sr].
  destruct H. split; rewrite ?Es, ?Sd, ?Sm, ?Sp, ?Ss, ?Sa, ?Sc, ?Se, ?Su, ?Sg, ?Spr, ?Sr;
    rewrite ?length_insert; done.
Qed.

Lemma consecutive_wf t c : wf t -> 0 <= c -> wf (set_consecutiveFailures c t).
Proof. intros [] Hc. fields t. split; unfold_sets; try done. keep_ring. Qed.

(** A sampled result, before the decision to trip. *)
Record sampled_as (t t' : targetRuntime) (c : Z) (w : list bool) : Prop := {
  sa_wf : wf t';
  sa_frame : frame t t';
  sa_generation : generation_step t t' None;
  sa_circuit : circuit_of t' = SClosed c w;
  sa_consecutive : t_consecutiveFailures t' = c;
  sa_count : t_sampleCount t' = Z.of_nat (length w);
  sa_failures : t_failuresInWindow t' = count_true w;
}.

Lemma sampled_circuit t failed c :
  wf t -> t_state t = CircuitClosed -> 0 <= c ->
  sampled_as t (set_consecutiveFailures c (sampled t failed)) c
    (push_window (Z.to_nat (ecp_SampleWindow (t_policy t))) (window t) failed).
Proof.
  intros H Hs Hc. pose proof (sampled_ring t failed (wf_ring t H)) as Hr.
  pose proof (sampled_window t failed (wf_ring t H)) as Hw.
  replace (length (t_samples t)) with (Z.to_nat (ecp_SampleWindow (t_policy t))) in Hw
    by (rewrite <- (wf_size t H); lia).
  pose proof (consecutive_wf _ c (sampled_wf t failed H) Hc) as Hwf.
  rewrite <- Hw. split; [done|..]; rewrite ?(length_window _ Hr), <- ?(ring_failures _ Hr);
    destruct (sampled_same t failed) as [Sd Sm Sp Ss Sa Sc Se Su Sg Spr Sr];
    unfold circuit_of, window; clear Hr Hw Hwf;
    generalize dependent (sampled t failed); intros t1; intros; fields t1; subst; try done.
  by rewrite Hs.
Qed.

(** Tripping from the closed state. *)
Lemma trip_spec t t1 c w now reason :
  wf t -> t_state t = CircuitClosed -> ecp_Disabled (t_policy t) = false ->
  sampled_as t t1 c w ->
  let o := open t1 now reason in
  wf o.1 /\ frame t o.1 /\ generation_step t o.1 (Some o.2) /\
  circuit_of o.1 = SOpen 1 (now + backoff (t_policy t) 1).
Proof.
  intros H Hs Hdis [Hwf [F1 F2 F3 F4] [Hg Hst] _ _ _ _] o.
  assert (Hs1 : t_state t1 = CircuitClosed) by congruence.
  destruct (open_step t1 now reason) as [[O1 O2 O3 O4] (G1 & G2 & G3 & G4)]; [by rewrite Hs1|].
  fold o in O1, O2, O3, O4, G1, G2, G3, G4.
  split; [apply open_wf; [done|congruence]|]. split; [by split; congruence|].
  split; [by repeat split; congruence|].
  unfold o. rewrite open_refines.
  - rewrite (wf_closed _ Hwf Hs1), F3. done.
  - by rewrite F3; apply H.
  - by rewrite (wf_closed _ Hwf Hs1).
Qed.

#[local] Opaque open close recordSample.

Lemma recordClosedResult_spec t now r :
  wf t -> t_state t = CircuitClosed ->
  exists t' tr,
    recordClosedResult t now r = Some (t', tr) /\ wf t' /\ frame t t' /\
    generation_step t t' tr /\
    circuit_of t' = spec_result (t_policy t) (circuit_of t) now r.
Proof.
  intros H Hs. unfold recordClosedResult.
  assert (Hc : circuit_of t = SClosed (t_consecutiveFailures t) (window t))
    by (unfold circuit_of; by rewrite Hs).
  destruct (ecp_Disabled (t_policy t)) eqn:Hdis; simpl.
  { exists t, None. rewrite Hc. unfold spec_result. rewrite Hdis. by destruct r. }
  destruct (bool_decide_reflect (r = TargetNeutral)) as [->|Hr].
  { exists t, None. by rewrite Hc. }
  rewrite recordSample_eq by apply H. simpl. pose proof (wf_consecutive t H).
  destruct r; [clear Hr|clear Hr|done]; simpl; rewrite Hc; simpl; rewrite Hdis.
  - destruct (sampled_circuit t false 0 H Hs) as [? ? ? ? _ _ _]; [done|]. eauto 10.
  - destruct (sampled_same t true) as [_ _ _ _ _ Sc _ _ _ _ _]. rewrite Sc.
    pose proof (sampled_circuit t true (t_consecutiveFailures t + 1) H Hs ltac:(lia)) as Hsa.
    revert Hsa. generalize (set_consecutiveFailures (t_consecutiveFailures t + 1) (sampled t true)).
    intros t1 Hsa. destruct (Hsa) as [Hwf [_ _ Hp _] Hg Hcirc Hcons Hcount Hfail].
    rewrite Hp, Hcons, Hcount, Hfail. unfold trips.
    destruct (_ <=? _) eqn:Hk; simpl; [|destruct (_ && _) eqn:Hrate].
    + pose proof (trip_spec t t1 _ _ now "consecutive_failures" H Hs Hdis Hsa) as Ht.
      destruct (open t1 now _) as [t2 tr]. exists t2, (Some tr). by split.
    + pose proof (trip_spec t t1 _ _ now "failure_rate" H Hs Hdis Hsa) as Ht.
      destruct (open t1 now _) as [t2 tr]. exists t2, (Some tr). by split.
    + exists t1, None. split; [done|]. by destruct Hsa.
Qed.

(** The bookkeeping before the circuit sees a result: one admission fewer and,
    for a failure, one more recent failure. *)
Definition booked (t : targetRuntime) (now : Z) (r : TargetResult) (class : string)
  : targetRuntime :=
  let t := if 0 <? t_active t then set_active (t_active t - 1) t else t in
  if is_failure r then recordFailure t now class else t.

Lemma recordFailure_fields t now class :
  recordFailure t now class =
    set_recentFailures
      (last_n MaxRecentTargetFailures
         (t_recentFailures t ++ [mkRecentTargetFailure now (SanitizeTargetFailureClass class)])) t
  \/ (MaxRecentTargetFailures < length (t_recentFailures t))%nat.
Proof.
  unfold recordFailure, last_n. rewrite length_app. simpl.
  destruct (Nat.eqb_spec (length (t_recentFailures t)) MaxRecentTargetFailures) as [E|E].
  - left. rewrite E. simpl. f_equal. by destruct (t_recentFailures t).
  - destruct (decide (length (t_recentFailures t) < MaxRecentTargetFailures)%nat); [left|right; lia].
    f_equal. by replace (_ - _)%nat with 0%nat by lia.
Qed.

Lemma recordFailure_wf t now class : wf t -> wf (recordFailure t now class).
Proof.
  intros H. destruct (recordFailure_fields t now class) as [->|Hlt];
    [|pose proof (wf_recent t H); lia].
  destruct H. fields t. split; unfold_sets; try done; [keep_ring|].
  rewrite length_last_n. lia.
Qed.

Lemma booked_spec t now r class :
  wf t -> 1 <= t_active t ->
  let t' := booked t now r class in
  wf t' /\ t_active t' = t_active t - 1 /\ t_deployment t' = t_deployment t /\
  t_maxConcurrency t' = t_maxConcurrency t /\ t_policy t' = t_policy t /\
  t_state t' = t_state t /\ t_generation t' = t_generation t /\
  t_probeInFlight t' = t_probeInFlight t /\ circuit_of t' = circuit_of t.
Proof.
  intros H Ha t'. unfold t', booked. destruct (Z.ltb_spec 0 (t_active t)); [|lia].
  assert (Hwf : wf (set_active (t_active t - 1) t)).
  { destruct H. fields t. split; unfold_sets; try done; try lia. keep_ring. }
  destruct (is_failure r); [|by destruct t].
  split; [by apply recordFailure_wf|].
  destruct (recordFailure_fields (set_active (t_active t - 1) t) now class) as [->|Hlt].
  - by destruct t.
  - pose proof (wf_recent _ Hwf). lia.
Qed.

(** Whether a lease belongs to the target's current circuit generation. *)
Definition lease_counts (t : targetRuntime) (l : TargetLease) : bool :=
  (t_generation t =? tl_circuitGeneration l) &&
  (if tl_HalfOpenProbe l then is_half_open (t_state t) else is_closed (t_state t)).

Lemma probe_wf t b :
  wf t -> (b = true -> t_state t = CircuitHalfOpen) -> wf (set_probeInFlight b t).
Proof. intros [] Hb. fields t. split; unfold_sets; try done. keep_ring. Qed.

(** The circuit's answer to a probe of the current generation. *)
Lemma probe_result_spec t now r :
  wf t -> t_state t = CircuitHalfOpen ->
  let t0 := set_probeInFlight false t in
  let o := match r with
           | TargetSuccess => let '(t, tr) := close t0 "half_open_success" in (t, Some tr)
           | TargetFailure => let '(t, tr) := open t0 now "half_open_failure" in (t, Some tr)
           | TargetNeutral => (t0, None)
           end in
  wf o.1 /\ frame t o.1 /\ generation_step t o.1 o.2 /\
  circuit_of o.1 = spec_result (t_policy t) (circuit_of t) now r /\
  t_probeInFlight o.1 = false.
Proof.
  intros H Hs t0. assert (Hw0 : wf t0) by by apply probe_wf.
  assert (Hs0 : t_state t0 = CircuitHalfOpen) by (by destruct t).
  assert (E : t_policy t0 = t_policy t /\ t_ejectionCount t0 = t_ejectionCount t /\
              frame t t0 /\ t_generation t0 = t_generation t) by (by destruct t).
  destruct E as (Ep & Ee & [F1 F2 F3 F4] & Eg).
  assert (Hc : circuit_of t = SHalfOpen (t_ejectionCount t) (t_probeInFlight t))
    by (unfold circuit_of; by rewrite Hs).
  rewrite Hc. destruct r; simpl.
  - destruct (close_step t0 "half_open_success") as [[] (G1 & G2 & G3 & G4)]; [by rewrite Hs0|].
    pose proof (close_wf t0 "half_open_success" Hw0).
    pose proof (close_refines t0 "half_open_success" Hw0).
    destruct (close t0 _) as [t1 tr]; cbn [fst snd] in *.
    repeat split; congruence || apply H0.
  - destruct (open_step t0 now "half_open_failure") as [[] (G1 & G2 & G3 & G4)]; [by rewrite Hs0|].
    assert (Hd : ecp_Disabled (t_policy t0) = false).
    { destruct (ecp_Disabled _) eqn:E; [|done]. rewrite (wf_disabled _ Hw0 E) in Hs0. done. }
    pose proof (open_wf t0 now "half_open_failure" Hw0 Hd).
    pose proof (wf_ejected _ Hw0 ltac:(by rewrite Hs0)).
    pose proof (open_refines t0 now "half_open_failure" (wf_policy _ Hw0) ltac:(lia)).
    destruct (open t0 now _) as [t1 tr]; cbn [fst snd] in *.
    split; [done|]. split; [by split; congruence|]. split; [by repeat split; congruence|].
    split; congruence.
  - split; [done|]. split; [by split|]. split; [split; congruence|].
    split; [|by destruct t]. unfold circuit_of. rewrite Hs0. unfold t0. by destruct t.
Qed.

(** [release] never panics on a well-formed target with an admission to
    release, preserves [wf], and moves the abstract circuit exactly when the
    lease belongs to its current generation. *)
Lemma release_spec t now l r class :
  wf t -> 1 <= t_active t ->
  exists t' l' tr,
    release t now l r class = Some (t', l', tr) /\ wf t' /\
    t_active t' = t_active t - 1 /\ t_deployment t' = t_deployment t /\
    t_maxConcurrency t' = t_maxConcurrency t /\ t_policy t' = t_policy t /\
    generation_step t t' tr /\
    circuit_of t' = (if lease_counts t l then spec_result (t_policy t) (circuit_of t) now r
                     else circuit_of t) /\
    l' = set_outcome l
           (if lease_counts t l then tl_HalfOpenProbe l || negb (ecp_Disabled (t_policy t))
            else tl_HealthApplied l) (transition_opens tr) /\
    (tr = None -> t_probeInFlight t' =
       if lease_counts t l && tl_HalfOpenProbe l then false else t_probeInFlight t).
Proof.
  intros H Ha. unfold release. fold (booked t now r class).
  destruct (booked_spec t now r class H Ha) as (Hw & Ba & Bd & Bm & Bp & Bs & Bg & Bpr & Bc).
  unfold lease_counts. rewrite <- Bs, <- Bg, <- Bpr, <- Bp, <- Bd, <- Bm, <- Bc, <- Ba.
  assert (Hgs : forall t' tr, generation_step (booked t now r class) t' tr ->
                              generation_step t t' tr).
  { intros t' tr. unfold generation_step. by rewrite Bg, Bs. }
  revert Hw Hgs. generalize (booked t now r class) as t1. clear. intros t1 Hw Hgs.
  destruct (t_generation t1 =? tl_circuitGeneration l) eqn:Hgen;
    rewrite ?andb_false_r, ?andb_true_r; simpl.
  2: { exists t1, (set_outcome l (tl_HealthApplied l) false), None.
       split_and!; try done; by apply Hgs. }
  destruct (tl_HalfOpenProbe l) eqn:Hprobe; simpl.
  - destruct (is_half_open (t_state t1)) eqn:Hho.
    + assert (Hs : t_state t1 = CircuitHalfOpen) by (by destruct (t_state t1)).
      pose proof (probe_result_spec t1 now r Hw Hs) as Hp. simpl in Hp.
      destruct (match r with TargetSuccess => _ | TargetFailure => _ | TargetNeutral => _ end)
        as [t2 tr]. destruct Hp as (? & [] & ? & ? & ?).
      eexists _, _, _. split_and!; try done; by apply Hgs.
    + exists t1, (set_outcome l (tl_HealthApplied l) false), None.
      split_and!; try done; by apply Hgs.
  - destruct (is_closed (t_state t1)) eqn:Hcl.
    + assert (Hs : t_state t1 = CircuitClosed) by (by destruct (t_state t1)).
      destruct (recordClosedResult_spec t1 now r Hw Hs) as (t2 & tr & -> & Hw2 & [] & Hg2 & Hc2).
      simpl. eexists _, _, _. split_and!; try done; [by apply Hgs|].
      intros ->. destruct Hg2 as [_ Hst].
      destruct (t_probeInFlight t2) eqn:P2; [apply (wf_probe _ Hw2) in P2; congruence|].
      destruct (t_probeInFlight t1) eqn:P1; [apply (wf_probe _ Hw) in P1; congruence|done].
    + exists t1, (set_outcome l (tl_HealthApplied l) false), None.
      split_and!; try done; by apply Hgs.
Qed.
End Refinement.
