(* ===== verification/TargetSystem.v ===== *)
(** * Concurrent use of a target manager

    Requests acquire and complete leases concurrently.  The critical sections
    of [TargetManager] interleave freely; [CompleteWithFailureClass] is two
    atomic actions, the swap on [lease.completed] and the critical section, and
    other operations may run in between.  The clock each action reads is
    arbitrary, so it need not agree with the order of the actions. *)

From stdpp Require Import base gmap list strings sorting.
From Stdlib Require Import Ascii ZArith Lia SpecFloat.
From S2P Require Import Prelude GoStrings Policies Capabilities Config Targets TargetFacts.

Local Open Scope Z_scope.

(** ** Transitions *)

(** The progress of the [Complete] call that owns a lease. *)
Inductive phase :=
  | Held
  | Completing (result : TargetResult) (failureClass : string)
  | Released.

Definition is_released (p : phase) : bool := match p with Released => true | _ => false end.

Record sys := mkSys {
  s_manager : TargetManager;
  s_leases : gmap nat (TargetLease * phase);
  s_events : list TargetEvent;
}.

Inductive step (s : sys) : sys -> Prop :=
  | step_eligible now name b m ev :
      Eligible (s_manager s) now name = (b, m, ev) ->
      step s (mkSys m (s_leases s) (s_events s ++ ev))
  | step_status now name st m ev :
      Status (s_manager s) now name = (st, m, ev) ->
      step s (mkSys m (s_leases s) (s_events s ++ ev))
  | step_admitted now name id l m ev :
      Acquire (s_manager s) now name = (inl l, m, ev) ->
      s_leases s !! id = None ->
      step s (mkSys m (<[id := (l, Held)]> (s_leases s)) (s_events s ++ ev))
  | step_rejected now name reason m ev :
      Acquire (s_manager s) now name = (inr reason, m, ev) ->
      step s (mkSys m (s_leases s) (s_events s ++ ev))
  | step_claim id l p l' r class :
      s_leases s !! id = Some (l, p) -> claim (Some l) = Some l' ->
      step s (mkSys (s_manager s) (<[id := (l', Completing r class)]> (s_leases s)) (s_events s))
  | step_finish now id l r class m l' ev :
      s_leases s !! id = Some (l, Completing r class) ->
      finish (s_manager s) now l r class = Some (m, l', ev) ->
      step s (mkSys m (<[id := (l', Released)]> (s_leases s)) (s_events s ++ ev)).

(** [reach m n s]: [s] is reached from the fresh manager [m] in [n] actions. *)
Inductive reach (m : TargetManager) : nat -> sys -> Prop :=
  | reach_start : reach m 0 (mkSys m ∅ [])
  | reach_step n s s' : reach m n s -> step s s' -> reach m (S n) s'.

(** ** Counting *)

(** A lease of [name] that still occupies an admission. *)
Definition occupies (name : string) (x : TargetLease * phase) : bool :=
  String.eqb (tl_Deployment x.1) name && negb (is_released x.2).

(** The number of admissions of [name] in use. *)
Definition in_use (name : string) (s : sys) : Z := count_map (occupies name) (s_leases s).

(** What an observer's gauge of [name] reads after the events. *)
Fixpoint gauge (name : string) (events : list TargetEvent) : Z :=
  match events with
  | [] => 0
  | TargetAdmissionChanged d delta :: rest =>
      (if String.eqb d name then delta else 0) + gauge name rest
  | _ :: rest => gauge name rest
  end.

Lemma gauge_app name e1 e2 : gauge name (e1 ++ e2) = gauge name e1 + gauge name e2.
Proof. induction e1 as [|[] e1 IH]; simpl; lia. Qed.

(** ** The invariant *)

(** An unreleased lease against its target: a lease of the current generation
    was admitted in the current state. *)
Record lease_ok (t : targetRuntime) (l : TargetLease) : Prop := {
  lo_past : tl_circuitGeneration l <= t_generation t;
  lo_probe : tl_circuitGeneration l = t_generation t -> tl_HalfOpenProbe l = true ->
             t_state t = CircuitHalfOpen /\ t_probeInFlight t = true;
  lo_plain : tl_circuitGeneration l = t_generation t -> tl_HalfOpenProbe l = false ->
             t_state t = CircuitClosed;
}.

Record target_ok (n : nat) (s : sys) (name : string) (t : targetRuntime) : Prop := {
  to_wf : wf t;
  to_name : t_deployment t = name;
  to_generation : t_generation t <= Z.of_nat n;
  to_active : t_active t = in_use name s;
  to_gauge : tm_observed (s_manager s) = true -> gauge name (s_events s) = t_active t;
}.

Record inv (n : nat) (s : sys) : Prop := {
  inv_target name t : tm_targets (s_manager s) !! name = Some t -> target_ok n s name t;
  inv_lease id l p : s_leases s !! id = Some (l, p) ->
    exists t, tm_targets (s_manager s) !! tl_Deployment l = Some t /\
      tl_completed l = (match p with Held => false | _ => true end) /\
      (p <> Released -> lease_ok t l);
  inv_probe id1 l1 p1 id2 l2 p2 t :
    s_leases s !! id1 = Some (l1, p1) -> s_leases s !! id2 = Some (l2, p2) ->
    p1 <> Released -> p2 <> Released ->
    tl_Deployment l1 = tl_Deployment l2 ->
    tm_targets (s_manager s) !! tl_Deployment l1 = Some t ->
    tl_HalfOpenProbe l1 = true -> tl_HalfOpenProbe l2 = true ->
    tl_circuitGeneration l1 = t_generation t -> tl_circuitGeneration l2 = t_generation t ->
    id1 = id2;
}.

Definition two64 : Z := 18446744073709551616.

Lemma generation_le t t' tr n :
  generation_step t t' tr -> wf t -> t_generation t <= Z.of_nat n -> Z.of_nat n + 1 < two64 ->
  t_generation t <= t_generation t' <= Z.of_nat (S n) /\
  (tr <> None -> t_generation t < t_generation t').
Proof.
  intros Hg H Hn Hb. pose proof (wf_generation t H) as [? ?]. unfold two64 in Hb.
  destruct tr; destruct Hg as [-> _]; [|by (split; [lia|])].
  rewrite uint64_id by (unfold is_uint64; lia). split; [lia|]. intros _. lia.
Qed.

(** A circuit step of the target keeps every lease consistent, unless it
    clears the flag of a probe in flight. *)
Lemma lease_ok_step t t' tr l n :
  generation_step t t' tr -> wf t -> t_generation t <= Z.of_nat n -> Z.of_nat n + 1 < two64 ->
  (tr = None -> tl_circuitGeneration l = t_generation t -> tl_HalfOpenProbe l = true ->
   t_probeInFlight t' = t_probeInFlight t) ->
  lease_ok t l -> lease_ok t' l.
Proof.
  intros Hg H Hn Hb Hp [L1 L2 L3].
  destruct (generation_le t t' tr n Hg H Hn Hb) as [[Hle _] Hlt].
  destruct tr as [e|]; [specialize (Hlt ltac:(done)); split; intros; lia|].
  destruct Hg as [E1 E2]. split; [lia|..]; rewrite E1, ?E2; [|auto].
  intros Eg Eb. rewrite Hp by done. auto.
Qed.

Lemma in_use_ext name m1 m2 leases e1 e2 :
  in_use name (mkSys m1 leases e1) = in_use name (mkSys m2 leases e2).
Proof. done. Qed.

(** Replacing one target after a circuit step, with the leases unchanged. *)
Lemma inv_set_target n s name t t' tr ev :
  inv n s -> Z.of_nat n + 1 < two64 ->
  tm_targets (s_manager s) !! name = Some t ->
  wf t' -> frame t t' -> generation_step t t' tr ->
  (tr = None -> t_probeInFlight t' = t_probeInFlight t) ->
  (forall x, gauge x ev = 0) ->
  inv (S n) (mkSys (set_target (s_manager s) name t') (s_leases s) (s_events s ++ ev)).
Proof.
  intros [It Il Ip] Hb Ht Hw [F1 F2 F3 F4] Hg Hpr Hev.
  pose proof (It name t Ht) as Ok. destruct Ok as [Tw Tn Tg Ta Tga].
  destruct (generation_le _ _ _ _ Hg Tw Tg Hb) as [Hle Hlt].
  split.
  - intros name' t1. simpl. destruct (decide (name = name')) as [<-|Hne].
    + rewrite lookup_insert_eq. intros [= <-].
      split; [done|congruence|lia|by rewrite F4, Ta|]. simpl. intros Ho. rewrite gauge_app, Hev, F4, Tga by done. lia.
    + rewrite lookup_insert_ne by done. intros H1. destruct (It name' t1 H1) as [? ? ? Hact Hga].
      split; [done|done|lia|exact Hact|]. simpl. intros Ho. rewrite gauge_app, Hev, Hga by done. lia.
  - intros id l p Hid. destruct (Il id l p Hid) as (t1 & H1 & Hc & Hok). simpl.
    destruct (decide (name = tl_Deployment l)) as [->|Hne].
    + rewrite lookup_insert_eq. exists t'. split; [done|]. split; [done|].
      intros Hp. simplify_eq. eapply lease_ok_step; eauto.
    + rewrite lookup_insert_ne by done. by exists t1.
  - intros id1 l1 p1 id2 l2 p2 t1 H1 H2 Hp1 Hp2 Hd Hlk Hb1 Hb2 G1 G2. simpl in *.
    destruct (decide (name = tl_Deployment l1)) as [->|Hne].
    + rewrite lookup_insert_eq in Hlk. simplify_eq.
      destruct (Il _ _ _ H1) as (t2 & L2 & _ & Hok). rewrite L2 in Ht. simplify_eq.
      pose proof (lo_past _ _ (Hok Hp1)).
      destruct tr; [specialize (Hlt ltac:(done)); lia|]. destruct Hg as [Eg _].
      eapply (Ip id1 l1 p1 id2 l2 p2); try done; congruence.
    + rewrite lookup_insert_ne in Hlk by done. by eapply (Ip id1 l1 p1 id2 l2 p2).
Qed.

Lemma advance_none t now : (advance t now).2 = None -> (advance t now).1 = t.
Proof. unfold advance. by destruct (negb _ || _). Qed.

Lemma inv_advance n s name t now ev :
  inv n s -> Z.of_nat n + 1 < two64 ->
  tm_targets (s_manager s) !! name = Some t ->
  (forall x, gauge x ev = 0) ->
  inv (S n) (mkSys (set_target (s_manager s) name (advance t now).1) (s_leases s) (s_events s ++ ev)).
Proof.
  intros H Hb Ht Hev. destruct (inv_target _ _ H _ _ Ht).
  eapply inv_set_target; eauto using advance_wf, advance_frame, advance_generation.
  intros E. by rewrite (advance_none _ _ E).
Qed.

Lemma gauge_quiet m tr name :
  gauge name (observeTransition m tr) = 0.
Proof. unfold observeTransition. destruct tr; [|done]. by destruct (tm_observed m). Qed.

Lemma gauge_rejection m d r name : gauge name (observeRejection m d r) = 0.
Proof. unfold observeRejection. by destruct (tm_observed m). Qed.

Create Rewrite HintDb gauge_db.
#[local] Hint Rewrite gauge_app gauge_quiet gauge_rejection : gauge_db.

(** ** Admission *)

(** The target and the lease after the gates have been passed. *)
Definition grant (t : targetRuntime) : targetRuntime :=
  let t := set_active (t_active t + 1) t in
  if is_half_open (t_state t) then set_probeInFlight true t else t.

Definition lease_of (name : string) (t : targetRuntime) : TargetLease :=
  {| tl_HealthApplied := false;
     tl_CircuitOpened := false;
     tl_Deployment := name;
     tl_CircuitState := t_state t;
     tl_HalfOpenProbe := is_half_open (t_state t);
     tl_ActiveRequests := t_active t;
     tl_circuitGeneration := t_generation t;
     tl_completed := false |}.

Lemma grant_fields t :
  t_deployment (grant t) = t_deployment t /\ t_maxConcurrency (grant t) = t_maxConcurrency t /\
  t_policy (grant t) = t_policy t /\ t_state (grant t) = t_state t /\
  t_generation (grant t) = t_generation t /\ t_active (grant t) = t_active t + 1 /\
  t_probeInFlight (grant t) = (is_half_open (t_state t) || t_probeInFlight t).
Proof. unfold grant. fields t. by destruct st. Qed.

Lemma Acquire_cases m now name t :
  tm_targets m !! name = Some t ->
  let t1 := (advance t now).1 in
  Acquire m now name =
    match admission_reason t1 with
    | Some reason =>
        (inr reason, set_target m name t1,
         observeTransition m (advance t now).2 ++ observeRejection m name reason)
    | None =>
        (inl (lease_of name (grant t1)), set_target m name (grant t1),
         observeTransition m (advance t now).2 ++ observeAdmission m name 1)
    end.
Proof.
  intros Ht. unfold Acquire. rewrite Ht. destruct (advance t now) as [t1 tr]. cbn [fst snd].
  destruct (admission_reason t1); [done|]. unfold grant, lease_of. fields t1. by destruct st.
Qed.

Lemma admission_none t :
  admission_reason t = None ->
  t_state t <> CircuitOpen /\ (t_state t = CircuitHalfOpen -> t_probeInFlight t = false) /\
  (0 < t_maxConcurrency t -> t_active t < t_maxConcurrency t).
Proof.
  unfold admission_reason. destruct (t_state t), (t_probeInFlight t); simpl; try done;
    destruct_tests; simpl; try done; intros _; split_and!; try done; lia.
Qed.

Lemma grant_wf t : wf t -> admission_reason t = None -> wf (grant t).
Proof.
  intros H (Ho & Hp & Hc)%admission_none. unfold grant.
  assert (Hw : wf (set_active (t_active t + 1) t)).
  { destruct H. fields t. split; unfold_sets; try done; try lia.
    by eapply ring_ok_ext; [..|eassumption]. }
  destruct (is_half_open _) eqn:Hh; [|done]. apply probe_wf; [done|].
  intros _. revert Hh. by destruct (t_state (set_active _ _)).
Qed.

Lemma in_use_insert name s id l m e :
  s_leases s !! id = None ->
  in_use name (mkSys m (<[id := (l, Held)]> (s_leases s)) e) =
    in_use name s + (if String.eqb (tl_Deployment l) name then 1 else 0).
Proof.
  intros Hid. unfold in_use. simpl. rewrite count_map_insert by done. unfold occupies at 2.
  simpl. by rewrite andb_true_r.
Qed.

Lemma gauge_admission m d delta name :
  gauge name (observeAdmission m d delta) =
    if tm_observed m then (if String.eqb d name then delta else 0) else 0.
Proof. unfold observeAdmission. destruct (tm_observed m); simpl; [|done]. destruct (String.eqb d name); lia. Qed.

Lemma inv_grant n s name t id :
  inv n s -> tm_targets (s_manager s) !! name = Some t -> admission_reason t = None ->
  s_leases s !! id = None ->
  inv n (mkSys (set_target (s_manager s) name (grant t))
           (<[id := (lease_of name (grant t), Held)]> (s_leases s))
           (s_events s ++ observeAdmission (s_manager s) name 1)).
Proof.
  intros [It Il Ip] Ht Hr Hid. destruct (It name t Ht) as [Tw Tn Tg Ta Tga].
  destruct (grant_fields t) as (A1 & A2 & A3 & A4 & A5 & A6 & A7).
  destruct (admission_none t Hr) as (Ho & Hp & _).
  assert (Hlease : lease_ok (grant t) (lease_of name (grant t))).
  { split; simpl; [done|..]; rewrite ?A4, ?A7; destruct (t_state t); simpl; done. }
  assert (Hold : forall l, lease_ok t l -> lease_ok (grant t) l).
  { intros l [L1 L2 L3]. split; rewrite ?A4, ?A5, ?A7; [done| |done].
    intros Eg Eb. destruct (L2 Eg Eb) as [-> ->]. done. }
  assert (Hfresh : forall id' l p, s_leases s !! id' = Some (l, p) -> p <> Released ->
    tl_Deployment l = name -> tl_HalfOpenProbe l = true ->
    tl_circuitGeneration l = t_generation t -> False).
  { intros id' l p Hl Hnr <- Hb Hg. destruct (Il _ _ _ Hl) as (t2 & E & _ & Hok).
    simplify_eq. destruct (lo_probe _ _ (Hok Hnr) Hg Hb) as [E1 E2].
    by rewrite (Hp E1) in E2. }
  split.
  - intros name' t1. simpl. rewrite lookup_insert. case_decide as Hn.
    + subst name'. intros [= <-]. split; rewrite ?A1, ?A5, ?A6; [by apply grant_wf|done..| |].
      * rewrite in_use_insert by done. simpl. rewrite String.eqb_refl. lia.
      * simpl. intros Hob. rewrite gauge_app, gauge_admission, Hob, Tga, String.eqb_refl by done. lia.
    + intros H1. destruct (It _ _ H1) as [? ? ? Ha Hga]. split; [done..| |].
      * rewrite in_use_insert by done. simpl. apply String.eqb_neq in Hn. rewrite Hn. lia.
      * simpl. intros Hob. apply String.eqb_neq in Hn.
        rewrite gauge_app, gauge_admission, Hob, Hga, Hn by done. lia.
  - intros id' l p. simpl. rewrite lookup_insert. case_decide as Hi.
    + intros [= <- <-]. simpl. rewrite lookup_insert_eq. eauto.
    + intros Hl. destruct (Il _ _ _ Hl) as (t2 & E & Hc & Hok).
      rewrite lookup_insert. case_decide as Hd; [|by exists t2].
      rewrite <- Hd in E. simplify_eq. exists (grant t). auto.
  - intros id1 l1 p1 id2 l2 p2 t1. simpl. rewrite !lookup_insert.
    intros H1 H2 N1 N2 Hd Ht1 B1 B2 G1 G2.
    destruct (decide (id = id1)) as [D1|D1], (decide (id = id2)) as [D2|D2];
      [congruence|..].
    + exfalso. injection H1 as <- <-. simpl in *. rewrite decide_True in Ht1 by done.
      injection Ht1 as <-. eapply (Hfresh id2); eauto; congruence.
    + exfalso. injection H2 as <- <-. simpl in *. rewrite decide_True in Ht1 by done.
      injection Ht1 as <-. eapply (Hfresh id1); eauto; congruence.
    + case_decide as D3; [|by eapply (Ip id1 l1 p1 id2 l2 p2 t1)]. injection Ht1 as <-.
      rewrite D3 in Ht. eapply (Ip id1 l1 p1 id2 l2 p2 t); eauto; congruence.
Qed.

Lemma inv_claim n s id l p l' r class :
  inv n s -> s_leases s !! id = Some (l, p) -> claim (Some l) = Some l' ->
  inv n (mkSys (s_manager s) (<[id := (l', Completing r class)]> (s_leases s)) (s_events s)).
Proof.
  intros [It Il Ip] Hl Hc. destruct (Il _ _ _ Hl) as (t & Ht & Hcomp & Hok).
  simpl in Hc. destruct (tl_completed l) eqn:Ec; [done|]. injection Hc as <-.
  assert (p = Held) as -> by by destruct p.
  split; simpl.
  - intros name t1 H1. destruct (It _ _ H1) as [? ? ? Ha Hga]. split; [done..| |done].
    rewrite Ha. unfold in_use. simpl. rewrite (count_map_update _ _ _ _ _ Hl).
    unfold occupies at 3 4. simpl. lia.
  - intros id' l1 p1. rewrite lookup_insert. case_decide; [|apply Il].
    intros [= <- <-]. exists t. split; [done|]. split; [done|]. intros _.
    destruct (Hok ltac:(done)). by split.
  - intros id1 l1 p1 id2 l2 p2 t1. rewrite !lookup_insert.
    intros H1 H2 N1 N2 Hd Ht1 B1 B2 G1 G2.
    destruct (decide (id = id1)) as [D1|D1], (decide (id = id2)) as [D2|D2];
      [congruence|..]; simplify_eq; simpl in *.
    + by eapply (Ip id1 l Held id2 l2 p2).
    + by eapply (Ip id1 l1 p1 id2 l Held).
    + by eapply (Ip id1 l1 p1 id2 l2 p2).
Qed.

(** ** Completion *)

Lemma inv_active n s id l p t :
  inv n s -> s_leases s !! id = Some (l, p) -> p <> Released ->
  tm_targets (s_manager s) !! tl_Deployment l = Some t -> 1 <= t_active t.
Proof.
  intros [It _ _] Hl Hp Ht. destruct (It _ _ Ht) as [_ _ _ -> _].
  eapply count_map_pos; [exact Hl|]. unfold occupies. simpl. rewrite String.eqb_refl. by destruct p.
Qed.

Lemma in_use_release name s id l p l' m e :
  s_leases s !! id = Some (l, p) -> p <> Released -> tl_Deployment l' = tl_Deployment l ->
  in_use name (mkSys m (<[id := (l', Released)]> (s_leases s)) e) =
    in_use name s - (if String.eqb (tl_Deployment l) name then 1 else 0).
Proof.
  intros Hl Hp Hd. unfold in_use. simpl. rewrite (count_map_update _ _ _ _ _ Hl).
  unfold occupies at 2 3. simpl. rewrite Hd, andb_false_r.
  destruct p; [| |done]; simpl; rewrite andb_true_r; lia.
Qed.

Lemma inv_finish n s now id l r class :
  inv n s -> Z.of_nat n + 1 < two64 ->
  s_leases s !! id = Some (l, Completing r class) ->
  exists m l' ev, finish (s_manager s) now l r class = Some (m, l', ev) /\
    inv (S n) (mkSys m (<[id := (l', Released)]> (s_leases s)) (s_events s ++ ev)).
Proof.
  intros I Hb Hl. destruct (inv_lease _ _ I _ _ _ Hl) as (t & Ht & Hcomp & Hok).
  pose proof (inv_active _ _ _ _ _ _ I Hl ltac:(done) Ht) as Ha.
  destruct I as [It Il Ip]. destruct (It _ _ Ht) as [Tw Tn Tg Ta Tga].
  destruct (release_spec t now l r class Tw Ha)
    as (t' & l' & tr & Hr & Hw & Ha' & Hd' & _ & _ & Hg & _ & El & Hpr).
  destruct (generation_le _ _ _ _ Hg Tw Tg Hb) as [Hle Hlt].
  unfold finish. rewrite Ht. simpl. rewrite Hr. simpl.
  assert (Dl : tl_Deployment l' = tl_Deployment l) by by rewrite El.
  assert (Cl : tl_completed l' = tl_completed l) by by rewrite El.
  clear El Hr. specialize (Hok ltac:(done)).
  (* a cleared probe flag belonged to this lease *)
  assert (Hother : forall id0 l0 p0, id0 <> id -> s_leases s !! id0 = Some (l0, p0) ->
    p0 <> Released -> tl_Deployment l0 = tl_Deployment l -> lease_ok t l0 -> lease_ok t' l0).
  { intros id0 l0 p0 Hne H0 Hp0 Hd0 Hok0. eapply lease_ok_step; eauto.
    intros Etr Eg Eb. rewrite Hpr by done.
    destruct (lease_counts t l && tl_HalfOpenProbe l) eqn:Ec; [|done]. exfalso.
    apply andb_true_iff in Ec as [Ec Eb']. unfold lease_counts in Ec. prop_tests.
    apply Hne. eapply (Ip id0 l0 p0 id l _ t); eauto; congruence. }
  eexists _, _, _. split; [done|]. rewrite !Dl. split.
  - intros name t1. simpl. rewrite lookup_insert. case_decide as Hn.
    + subst name. intros [= <-]. split; [done|congruence|lia|..].
      * rewrite (in_use_release _ _ _ _ _ _ _ _ Hl), String.eqb_refl by done. lia.
      * simpl. intros Hob. rewrite !gauge_app, gauge_admission, gauge_quiet; cbn [tm_observed set_target]; rewrite Hob, Tga, String.eqb_refl by done. lia.
    + intros H1. destruct (It _ _ H1) as [? ? ? Hac Hga]. apply String.eqb_neq in Hn. split; [done|done|lia|..].
      * rewrite (in_use_release _ _ _ _ _ _ _ _ Hl), Hn by done. lia.
      * simpl. intros Hob. rewrite !gauge_app, gauge_admission, gauge_quiet; cbn [tm_observed set_target]; rewrite Hob, Hga, Hn by done. lia.
  - intros id0 l0 p0. simpl. rewrite lookup_insert. case_decide as Hi.
    + intros [= <- <-]. rewrite Dl, lookup_insert_eq. exists t'. by rewrite Cl, Hcomp.
    + intros H0. destruct (Il _ _ _ H0) as (t2 & E & Hc & Hok0). rewrite lookup_insert.
      case_decide as Hd; [|eauto]. rewrite <- Hd in E. simplify_eq. exists t'.
      split_and!; try done. intros Hp0. eapply Hother; eauto.
  - intros id1 l1 p1 id2 l2 p2 t1. simpl. rewrite !lookup_insert.
    intros H1 H2 N1 N2 Hd Ht1 B1 B2 G1 G2.
    destruct (decide (id = id1)); [by simplify_eq|].
    destruct (decide (id = id2)); [by simplify_eq|].
    case_decide as D3; [|by eapply (Ip id1 l1 p1 id2 l2 p2 t1)]. simplify_eq.
    destruct (Il _ _ _ H1) as (t2 & E & _ & Hok1). rewrite <- D3 in E. simplify_eq.
    destruct tr as [tr|].
    + pose proof (lo_past _ _ (Hok1 N1)). specialize (Hlt ltac:(done)). lia.
    + destruct Hg as [Eg _]. eapply (Ip id1 l1 p1 id2 l2 p2 t); eauto; congruence.
Qed.

Lemma inv_mono n s : inv n s -> inv (S n) s.
Proof. intros [It Il Ip]. split; [|done..]. intros name t H. destruct (It _ _ H). split; [done|done|lia|done|done]. Qed.

Lemma inv_quiet n s ev :
  inv n s -> (forall x, gauge x ev = 0) ->
  inv (S n) (mkSys (s_manager s) (s_leases s) (s_events s ++ ev)).
Proof.
  intros I%inv_mono Hev. destruct I as [It Il Ip]. split; [|exact Il|exact Ip].
  intros name t H. destruct (It _ _ H) as [? ? ? ? Hga]. split; [done..|].
  simpl. intros Hob. rewrite gauge_app, Hev, Hga by done. lia.
Qed.

(** A refused request, whatever the reason. *)
Lemma inv_refused n s name t now :
  inv n s -> Z.of_nat n + 1 < two64 -> tm_targets (s_manager s) !! name = Some t ->
  forall ev, (forall x, gauge x ev = 0) ->
  inv (S n) (mkSys (set_target (s_manager s) name (advance t now).1) (s_leases s)
    (s_events s ++ observeTransition (s_manager s) (advance t now).2 ++ ev)).
Proof.
  intros I Hb Ht ev Hev. apply inv_advance; [done..|].
  intros x. by rewrite gauge_app, gauge_quiet, Hev.
Qed.

Lemma set_target_twice m name t t' :
  set_target (set_target m name t) name t' = set_target m name t'.
Proof. unfold set_target. simpl. by rewrite insert_insert_eq. Qed.

(** An admitted request: the circuit step, then the admission. *)
Lemma inv_admitted n s name t now id :
  inv n s -> Z.of_nat n + 1 < two64 -> tm_targets (s_manager s) !! name = Some t ->
  s_leases s !! id = None -> admission_reason (advance t now).1 = None ->
  inv (S n) (mkSys (set_target (s_manager s) name (grant (advance t now).1))
    (<[id := (lease_of name (grant (advance t now).1), Held)]> (s_leases s))
    (s_events s ++ observeTransition (s_manager s) (advance t now).2
                ++ observeAdmission (s_manager s) name 1)).
Proof.
  intros I Hb Ht Hid Hr.
  pose proof (inv_advance n s name t now (observeTransition (s_manager s) (advance t now).2)
                I Hb Ht (gauge_quiet _ _)) as I1.
  pose proof (inv_grant _ _ name _ id I1 (lookup_insert_eq _ _ _) Hr Hid) as I2.
  simpl in I2. by rewrite set_target_twice, <- app_assoc in I2.
Qed.

Lemma observeTransition_set m name t tr :
  observeTransition (set_target m name t) tr = observeTransition m tr.
Proof. done. Qed.

Lemma observeRejection_set m name t d r :
  observeRejection (set_target m name t) d r = observeRejection m d r.
Proof. done. Qed.

Lemma inv_step n s s' : inv n s -> Z.of_nat n + 1 < two64 -> step s s' -> inv (S n) s'.
Proof.
  intros I Hb. pose proof (gauge_rejection (s_manager s)) as Hrej.
  destruct 1 as [now name b m ev H|now name st m ev H|now name id l m ev H Hid
    |now name reason m ev H|id l p l' r class Hl Hc|now id l r class m l' ev Hl H].
  - unfold Eligible in H. destruct (tm_targets _ !! name) as [t|] eqn:Ht.
    + pose proof (inv_refused n s name t now I Hb Ht) as Hi. destruct (advance t now) as [t1 tr].
      cbn [fst snd] in Hi. destruct (admission_reason t1); simplify_eq;
        rewrite observeTransition_set, ?observeRejection_set; [by apply Hi|].
      rewrite <- (app_nil_r (observeTransition _ _)). by apply Hi.
    + simplify_eq. by apply inv_quiet.
  - unfold Status in H. destruct (tm_targets _ !! name) as [t|] eqn:Ht.
    + pose proof (inv_refused n s name t now I Hb Ht) as Hi. destruct (advance t now) as [t1 tr].
      simplify_eq. rewrite observeTransition_set.
      rewrite <- (app_nil_r (observeTransition _ _)). by apply Hi.
    + simplify_eq. by apply inv_quiet.
  - destruct (tm_targets (s_manager s) !! name) as [t|] eqn:Ht;
      [|unfold Acquire in H; by rewrite Ht in H].
    rewrite (Acquire_cases _ _ _ _ Ht) in H.
    destruct (admission_reason _) eqn:Hr; simplify_eq. by apply inv_admitted.
  - destruct (tm_targets (s_manager s) !! name) as [t|] eqn:Ht.
    + rewrite (Acquire_cases _ _ _ _ Ht) in H.
      destruct (admission_reason _) eqn:Hr; simplify_eq. by apply inv_refused.
    + unfold Acquire in H. rewrite Ht in H. simplify_eq. by apply inv_quiet.
  - apply inv_mono. by eapply inv_claim.
  - destruct (inv_finish n s now id l r class I Hb Hl) as (m2 & l2 & ev2 & E & Hi).
    rewrite H in E. by simplify_eq.
Qed.

(** ** Construction *)

Lemma add_targets_wf targets ds targets' :
  add_targets targets ds = inr targets' ->
  map_Forall (fun name t => wf t /\ t_deployment t = name /\ t_active t = 0 /\ t_generation t = 0)
    targets ->
  map_Forall (fun name t => wf t /\ t_deployment t = name /\ t_active t = 0 /\ t_generation t = 0)
    targets'.
Proof.
  revert targets. induction ds as [|d ds IH]; simpl; intros targets H Hwf; [by simplify_eq|].
  destruct (String.eqb _ _), (bool_decide (is_Some (targets !! dep_Name d))), (dep_MaxConcurrency d <? 0) eqn:Hm,
    (CircuitPolicy_Validate (dep_Circuit d)) eqn:Hv; try done.
  apply (IH _ H). apply map_Forall_insert_2; [|done]. split; [by apply new_wf|done].
Qed.

(** The names of a manager's targets are those of its deployments. *)
Lemma add_targets_dom targets ds targets' :
  add_targets targets ds = inr targets' ->
  forall name, is_Some (targets' !! name) <-> is_Some (targets !! name) \/ In name (dep_Name <$> ds).
Proof.
  revert targets. induction ds as [|d ds IH]; simpl; intros targets H name; [naive_solver|].
  destruct (String.eqb _ _), (bool_decide (is_Some (targets !! dep_Name d))), (dep_MaxConcurrency d <? 0),
    (CircuitPolicy_Validate (dep_Circuit d)); try done.
  rewrite (IH _ H), lookup_insert_is_Some'. naive_solver.
Qed.

(** Which deployments the loop accepts. *)
Lemma add_targets_accepts ds targets :
  (exists targets', add_targets targets ds = inr targets') <->
  NoDup (dep_Name <$> ds) /\ Forall (fun d => targets !! dep_Name d = None) ds /\
  Forall (fun d => dep_Name d <> "" /\ 0 <= dep_MaxConcurrency d /\
                 CircuitPolicy_Validate (dep_Circuit d) = None) ds.
Proof.
  revert targets. induction ds as [|d l IH]; intros targets; simpl.
  - split; [intros _; split_and!; constructor|intros _; eauto].
  - rewrite !Forall_cons, NoDup_cons.
    destruct (String.eqb_spec (dep_Name d) ""), (Z.ltb_spec (dep_MaxConcurrency d) 0),
      (CircuitPolicy_Validate (dep_Circuit d)) eqn:Hv,
      (bool_decide_reflect (is_Some (targets !! dep_Name d))) as [[? E]|Hf];
      try (split; [by intros [? ?]|intros ([? ?] & [? ?] & [(? & ? & ?) ?]); congruence || lia]).
    rewrite IH. apply eq_None_not_Some in Hf. setoid_rewrite lookup_insert_None.
    rewrite Forall_and, (Forall_forall (fun x => dep_Name d <> dep_Name x)).
    rewrite list_elem_of_fmap. naive_solver.
Qed.

Lemma new_inv ds observed m :
  NewTargetManager ds observed = inr m -> inv 0 (mkSys m ∅ []).
Proof.
  unfold NewTargetManager. destruct (add_targets ∅ ds) as [|targets] eqn:H; [done|].
  intros [= <-]. pose proof (add_targets_wf _ _ _ H (map_Forall_empty _)) as Hwf.
  split; simpl; [|done..]. intros name t Ht. destruct (Hwf name t Ht) as (Hw & Hd & Ha & Hg).
  split; [done|done|lia|..].
  - rewrite Ha. unfold in_use. simpl. by rewrite count_map_empty.
  - by rewrite Ha.
Qed.

(** Every reachable state satisfies the invariant; the generation of a circuit,
    a [uint64], cannot wrap in fewer than 2^64 actions. *)
Lemma inv_reach ds observed m n s :
  NewTargetManager ds observed = inr m -> reach m n s -> Z.of_nat n < two64 -> inv n s.
Proof.
  intros Hm. induction 1 as [|n s s' Hr IH Hs]; intros Hb; [by eapply new_inv|].
  eapply inv_step; [apply IH; lia|lia|done].
Qed.
