(* ===== verification/TargetTheorems.v ===== *)
(** * Theorems about target admission and circuit breaking

    The claims about [Targets.v]: what holds in every reachable state of the
    concurrent system, what each operation does to the abstract circuit, and
    the arithmetic of the ejection time. *)

From stdpp Require Import base gmap list strings sorting.
From Stdlib Require Import Ascii ZArith Lia SpecFloat.
From S2P Require Import Prelude GoStrings Policies Capabilities Config Targets.
From S2P Require Import Fixtures TargetFacts TargetSystem.

Local Open Scope Z_scope.

(** ** Derived facts *)

(** Whether the circuit gate of the abstract circuit lets a request through. *)
Definition lets_through (c : circuit) : bool :=
  match c with
  | SClosed _ _ => true
  | SOpen _ _ => false
  | SHalfOpen _ probing => negb probing
  end.

(** The circuit after a request has passed the gate. *)
Definition spec_admit (c : circuit) : circuit :=
  match c with SHalfOpen n _ => SHalfOpen n true | _ => c end.

Definition has_room (t : targetRuntime) : bool :=
  (t_maxConcurrency t <=? 0) || (t_active t <? t_maxConcurrency t).

Lemma grant_refines t : circuit_of (grant t) = spec_admit (circuit_of t).
Proof.
  unfold grant, circuit_of. fields t. by destruct st.
Qed.

Lemma admission_reason_spec t :
  admission_reason t =
    if lets_through (circuit_of t) then
      (if has_room t then None else Some AdmissionConcurrencyLimit)
    else Some (match circuit_of t with
               | SHalfOpen _ _ => AdmissionHalfOpenInFlight
               | _ => AdmissionCircuitOpen
               end).
Proof.
  unfold admission_reason, lets_through, circuit_of, has_room.
  destruct (t_state t), (t_probeInFlight t); simpl; try done;
    destruct_tests; simpl; try done; lia.
Qed.

Lemma advance_room t now : has_room (advance t now).1 = has_room t.
Proof. unfold has_room. by destruct (advance_frame t now) as [_ -> _ ->]. Qed.

Lemma gate_after_advance t now :
  admission_reason (advance t now).1 =
    if lets_through (spec_advance (circuit_of t) now) then
      (if has_room t then None else Some AdmissionConcurrencyLimit)
    else Some (match spec_advance (circuit_of t) now with
               | SHalfOpen _ _ => AdmissionHalfOpenInFlight
               | _ => AdmissionCircuitOpen
               end).
Proof. by rewrite admission_reason_spec, advance_refines, advance_room. Qed.

(** A failure class fit for a metric label. *)
Definition clean_class (c : string) : bool :=
  negb (String.eqb c "") && Nat.leb (len c) maxFailureClassLength &&
  forallb identifier_byte (bytes c).

Lemma sanitized_clean c : clean_class (SanitizeTargetFailureClass c) = true.
Proof.
  unfold SanitizeTargetFailureClass. destruct (String.eqb c "") eqn:E; [done|].
  destruct (Nat.ltb_spec maxFailureClassLength (len c)); [done|].
  destruct (forallb identifier_byte (bytes c)) eqn:F; [|done].
  unfold clean_class. rewrite E, F. apply Nat.leb_le in H. by rewrite H.
Qed.

Section Reachable.
Context (ds : list Deployment) (observed : bool) (m : TargetManager) (n : nat) (s : sys).
Context (Hnew : NewTargetManager ds observed = inr m) (Hreach : reach m n s).
Context (Hn : Z.of_nat n < two64).

Lemma reachable_target name t :
  tm_targets (s_manager s) !! name = Some t -> target_ok n s name t.
Proof. apply inv_target. by eapply inv_reach. Qed.

Lemma reachable_lease id l p :
  s_leases s !! id = Some (l, p) -> p <> Released ->
  exists t, tm_targets (s_manager s) !! tl_Deployment l = Some t /\ wf t /\ 1 <= t_active t /\
    lease_ok t l.
Proof.
  intros Hl Hp. pose proof (inv_reach _ _ _ _ _ Hnew Hreach Hn) as I.
  destruct (inv_lease _ _ I _ _ _ Hl) as (t & Ht & _ & Hok). exists t.
  split; [done|]. split; [apply (reachable_target _ _ Ht)|].
  split; [by eapply inv_active|by apply Hok].
Qed.
End Reachable.

(** ** Configuration of the targets *)

(** The configured part of a target. *)
Definition conf_of (t : targetRuntime) : string * Z * EffectiveCircuitPolicy :=
  (t_deployment t, t_maxConcurrency t, t_policy t).
Definition conf (m : TargetManager) := conf_of <$> tm_targets m.
Definition configured (d : Deployment) : string * Z * EffectiveCircuitPolicy :=
  (dep_Name d, dep_MaxConcurrency d, CircuitPolicy_Effective (dep_Circuit d)).

Lemma frame_conf t t' : frame t t' -> conf_of t' = conf_of t.
Proof. intros [E1 E2 E3 _]. unfold conf_of. congruence. Qed.

Lemma conf_set_target m name t t' :
  tm_targets m !! name = Some t -> conf_of t' = conf_of t -> conf (set_target m name t') = conf m.
Proof.
  intros Ht E. unfold conf. simpl. rewrite fmap_insert, E. apply insert_id.
  by rewrite lookup_fmap, Ht.
Qed.

Lemma Eligible_conf m now name : conf (Eligible m now name).1.2 = conf m.
Proof.
  unfold Eligible. destruct (tm_targets m !! name) as [t|] eqn:Ht; [|done].
  pose proof (frame_conf _ _ (advance_frame t now)). destruct (advance t now) as [t1 tr].
  destruct (admission_reason t1); by apply (conf_set_target m name t).
Qed.

Lemma Status_conf m now name : conf (Status m now name).1.2 = conf m.
Proof.
  unfold Status. destruct (tm_targets m !! name) as [t|] eqn:Ht; [|done].
  pose proof (frame_conf _ _ (advance_frame t now)). destruct (advance t now) as [t1 tr].
  by apply (conf_set_target m name t).
Qed.

Lemma Acquire_conf m now name : conf (Acquire m now name).1.2 = conf m.
Proof.
  destruct (tm_targets m !! name) as [t|] eqn:Ht; [|unfold Acquire; by rewrite Ht].
  rewrite (Acquire_cases m now name t Ht). pose proof (frame_conf _ _ (advance_frame t now)) as E.
  destruct (admission_reason _); apply (conf_set_target m name t); try done.
  rewrite <- E. unfold conf_of. by destruct (grant_fields (advance t now).1) as (-> & -> & -> & _).
Qed.

Lemma finish_conf n s now id l r class m l' ev :
  inv n s -> s_leases s !! id = Some (l, Completing r class) ->
  finish (s_manager s) now l r class = Some (m, l', ev) ->
  conf m = conf (s_manager s) /\ tm_observed m = tm_observed (s_manager s).
Proof.
  intros I Hl H. destruct (inv_lease _ _ I _ _ _ Hl) as (t & Ht & _ & _).
  pose proof (inv_active _ _ _ _ _ _ I Hl ltac:(done) Ht) as Ha.
  destruct (release_spec t now l r class (to_wf _ _ _ _ (inv_target _ _ I _ _ Ht)) Ha)
    as (t' & l2 & tr & Hr & _ & _ & Hd & Hm & Hp & _ & _ & El & _).
  unfold finish in H. rewrite Ht in H. simpl in H. rewrite Hr in H. simpl in H. simplify_eq.
  split; [|done]. apply (conf_set_target _ _ t); [done|]. unfold conf_of. congruence.
Qed.

Lemma step_conf n s s' :
  inv n s -> step s s' ->
  conf (s_manager s') = conf (s_manager s) /\
  tm_observed (s_manager s') = tm_observed (s_manager s).
Proof.
  intros I. destruct 1 as [now name b m ev H|now name st m ev H|now name id l m ev H Hid
    |now name reason m ev H|id l p l' r class Hl Hc|now id l r class m l' ev Hl H]; simpl.
  - pose proof (Eligible_conf (s_manager s) now name) as E. rewrite H in E. split; [done|].
    revert H. unfold Eligible. repeat case_match; intros; by simplify_eq.
  - pose proof (Status_conf (s_manager s) now name) as E. rewrite H in E. split; [done|].
    revert H. unfold Status. repeat case_match; intros; by simplify_eq.
  - pose proof (Acquire_conf (s_manager s) now name) as E. rewrite H in E. split; [done|].
    revert H. unfold Acquire. repeat case_match; intros; by simplify_eq.
  - pose proof (Acquire_conf (s_manager s) now name) as E. rewrite H in E. split; [done|].
    revert H. unfold Acquire. repeat case_match; intros; by simplify_eq.
  - done.
  - by eapply finish_conf.
Qed.

Lemma add_targets_conf targets ds targets' :
  add_targets targets ds = inr targets' ->
  (forall d, In d ds -> conf_of <$> (targets' !! dep_Name d) = Some (configured d)) /\
  (forall name t, targets !! name = Some t -> targets' !! name = Some t).
Proof.
  revert targets. induction ds as [|d ds IH]; simpl; intros targets H; [by simplify_eq|].
  destruct (String.eqb _ _), (bool_decide_reflect (is_Some (targets !! dep_Name d))) as [|Hf],
    (dep_MaxConcurrency d <? 0), (CircuitPolicy_Validate (dep_Circuit d)); try done.
  destruct (IH _ H) as [H1 H2]. split.
  - intros d' [<-|Hd]; [|by apply H1]. by rewrite (H2 _ _ (lookup_insert_eq _ _ _)).
  - intros name t Ht. apply H2. rewrite lookup_insert_ne; [done|]. intros <-. apply Hf. eauto.
Qed.

Lemma new_conf ds observed m d :
  NewTargetManager ds observed = inr m -> In d ds ->
  conf m !! dep_Name d = Some (configured d) /\ tm_observed m = observed.
Proof.
  unfold NewTargetManager. destruct (add_targets ∅ ds) eqn:H; [done|]. intros [= <-] Hd.
  split; [|done]. unfold conf. rewrite lookup_fmap. by apply (add_targets_conf _ _ _ H).
Qed.

Lemma reach_conf ds observed m n s :
  NewTargetManager ds observed = inr m -> reach m n s -> Z.of_nat n < two64 ->
  conf (s_manager s) = conf m /\ tm_observed (s_manager s) = tm_observed m.
Proof.
  intros Hm. induction 1 as [|n s s' Hr IH Hs]; intros Hb; [done|].
  destruct (IH ltac:(lia)) as [<- <-]. eapply step_conf; [|done].
  eapply inv_reach; eauto. lia.
Qed.

(** A configured deployment's target in a reachable state. *)
Lemma reachable_deployment ds observed m n s d :
  NewTargetManager ds observed = inr m -> reach m n s -> Z.of_nat n < two64 -> In d ds ->
  exists t, tm_targets (s_manager s) !! dep_Name d = Some t /\ conf_of t = configured d /\
    target_ok n s (dep_Name d) t /\ tm_observed (s_manager s) = observed.
Proof.
  intros Hm Hr Hb Hd. destruct (reach_conf _ _ _ _ _ Hm Hr Hb) as [Ec Eo].
  destruct (new_conf _ _ _ _ Hm Hd) as [Hl Ho]. rewrite <- Ec in Hl. unfold conf in Hl.
  rewrite lookup_fmap in Hl. apply fmap_Some in Hl as (t & Ht & Et).
  exists t. split; [done|]. split; [done|]. split; [|congruence].
  eapply reachable_target; eauto.
Qed.

(** ** Histories of the ring buffer and of the failure list *)

Lemma last_n_push {A} n (l : list A) x :
  last_n n (last_n n l ++ [x]) = last_n n (l ++ [x]).
Proof.
  unfold last_n. rewrite !length_app, length_drop. cbn [length].
  rewrite !drop_app, drop_drop, length_drop.
  destruct (decide (n <= length l)%nat).
  - do 2 f_equal; lia.
  - replace (length l - n)%nat with 0%nat by lia. do 2 f_equal; lia.
Qed.

Lemma last_n_all {A} n (l : list A) : (length l <= n)%nat -> last_n n l = l.
Proof. intros H. unfold last_n. by replace (length l - n)%nat with 0%nat by lia. Qed.

(** [recordSample] on every result of a history, oldest first. *)
Definition recordSamples (t : targetRuntime) (history : list bool) : option targetRuntime :=
  foldl (fun o failed => t ← o; recordSample t failed) (Some t) history.

Lemma recordSamples_snoc t history failed :
  recordSamples t (history ++ [failed]) = (t ← recordSamples t history; recordSample t failed).
Proof. unfold recordSamples. by rewrite foldl_app. Qed.

(** [recordFailure] on every failure of a history, oldest first. *)
Definition recordFailures (t : targetRuntime) (history : list (Z * string)) : targetRuntime :=
  foldl (fun t f => recordFailure t f.1 f.2) t history.

Definition failure_event (f : Z * string) : RecentTargetFailure :=
  mkRecentTargetFailure f.1 (SanitizeTargetFailureClass f.2).

Lemma recordFailures_spec t history :
  t_recentFailures t = [] ->
  t_recentFailures (recordFailures t history) =
    last_n MaxRecentTargetFailures (failure_event <$> history).
Proof.
  intros Ht. induction history as [|[now class] history IH] using rev_ind; [done|].
  unfold recordFailures in *. rewrite foldl_app, fmap_app. simpl.
  set (t1 := foldl _ t history) in *.
  destruct (recordFailure_fields t1 now class) as [->|Hlt].
  - fields t1. rewrite IH. apply last_n_push.
  - rewrite IH, length_last_n in Hlt. lia.
Qed.

(** ** Claims *)

(** C22: In every state that concurrent acquisitions, completions and status
    reads can reach from a fresh manager, the active count of a configured
    deployment is the number of admitted leases not yet released, it never
    exceeds a positive [max_concurrency], and an observer that sums the
    admission deltas reads the same number. *)
Theorem admission_accounting ds observed m n s d :
  NewTargetManager ds observed = inr m -> reach m n s -> Z.of_nat n < two64 -> In d ds ->
  exists t, tm_targets (s_manager s) !! dep_Name d = Some t /\
    t_active t = in_use (dep_Name d) s /\
    (0 < dep_MaxConcurrency d -> in_use (dep_Name d) s <= dep_MaxConcurrency d) /\
    (observed = true -> gauge (dep_Name d) (s_events s) = in_use (dep_Name d) s).
Proof.
  intros Hm Hr Hb Hd.
  destruct (reachable_deployment _ _ _ _ _ _ Hm Hr Hb Hd) as (t & Ht & Ec & [Hw _ _ Ha Hg] & Ho).
  exists t. rewrite <- Ha. split; [done|]. split; [done|]. injection Ec as _ <- _.
  split; [apply Hw|]. intros ->. auto.
Qed.

(** C26: While a circuit is half open, at most one request admitted in its
    current generation is in flight, however acquisitions and completions
    interleave: two such leases are the same lease. *)
Theorem half_open_single_probe ds observed m n s id1 l1 p1 id2 l2 p2 t :
  NewTargetManager ds observed = inr m -> reach m n s -> Z.of_nat n < two64 ->
  s_leases s !! id1 = Some (l1, p1) -> s_leases s !! id2 = Some (l2, p2) ->
  p1 <> Released -> p2 <> Released -> tl_Deployment l1 = tl_Deployment l2 ->
  tm_targets (s_manager s) !! tl_Deployment l1 = Some t -> t_state t = CircuitHalfOpen ->
  tl_circuitGeneration l1 = t_generation t -> tl_circuitGeneration l2 = t_generation t ->
  id1 = id2.
Proof.
  intros Hm Hr Hb H1 H2 N1 N2 Hd Ht Hs G1 G2.
  destruct (reachable_lease _ _ _ _ _ Hm Hr Hb _ _ _ H1 N1) as (t1 & E1 & _ & _ & [_ _ Q1]).
  destruct (reachable_lease _ _ _ _ _ Hm Hr Hb _ _ _ H2 N2) as (t2 & E2 & _ & _ & [_ _ Q2]).
  rewrite <- Hd in E2. simplify_eq.
  eapply (inv_probe _ _ (inv_reach _ _ _ _ _ Hm Hr Hb) id1 l1 p1 id2 l2 p2 t); try done.
  - destruct (tl_HalfOpenProbe l1); [done|]. by rewrite Q1 in Hs.
  - destruct (tl_HalfOpenProbe l2); [done|]. by rewrite Q2 in Hs.
Qed.

(** Completing a lease takes effect exactly once and never panics: the
    swap on a held lease succeeds, it fails on a lease that is being completed
    or was completed, and the critical section after a successful swap always
    returns, takes one admission off its own target and leaves the lease
    completed. *)
Theorem complete_exactly_once ds observed m n s id l p :
  NewTargetManager ds observed = inr m -> reach m n s -> Z.of_nat n < two64 ->
  s_leases s !! id = Some (l, p) ->
  match p with
  | Held => exists l', claim (Some l) = Some l'
  | Completing r class =>
      claim (Some l) = None /\
      forall now, exists t t' l' ev,
        tm_targets (s_manager s) !! tl_Deployment l = Some t /\
        finish (s_manager s) now l r class =
          Some (set_target (s_manager s) (tl_Deployment l) t', l', ev) /\
        t_active t' = t_active t - 1 /\ 0 <= t_active t' /\ claim (Some l') = None
  | Released => claim (Some l) = None
  end.
Proof.
  intros Hm Hr Hb Hl.
  destruct (inv_lease _ _ (inv_reach _ _ _ _ _ Hm Hr Hb) _ _ _ Hl) as (_ & _ & Hc & _).
  unfold claim. rewrite Hc. destruct p as [|r class|]; [eauto| |done].
  split; [done|]. intros now.
  destruct (reachable_lease _ _ _ _ _ Hm Hr Hb _ _ _ Hl ltac:(done)) as (t & Ht & Hw & Ha & _).
  destruct (release_spec t now l r class Hw Ha)
    as (t' & l' & tr & Hrel & Hw' & Ha' & _ & _ & _ & _ & _ & -> & _).
  unfold finish. rewrite Ht. simpl. rewrite Hrel. simpl.
  eexists t, t', _, _. split_and!; try done; [lia|]. simpl. by rewrite Hc.
Qed.

(** C27: A completed lease moves the abstract circuit of its target when, and
    only when, it was admitted in the current generation; a result that arrives
    from before an ejection, a probe or a recovery changes nothing.  The lease
    reports that it opened the circuit exactly when it did. *)
Theorem completion_moves_circuit ds observed m n s id l r class now m' l' ev :
  NewTargetManager ds observed = inr m -> reach m n s -> Z.of_nat n < two64 ->
  s_leases s !! id = Some (l, Completing r class) ->
  finish (s_manager s) now l r class = Some (m', l', ev) ->
  exists t t',
    tm_targets (s_manager s) !! tl_Deployment l = Some t /\
    tm_targets m' !! tl_Deployment l = Some t' /\
    circuit_of t' = (if lease_counts t l then spec_result (t_policy t) (circuit_of t) now r
                     else circuit_of t) /\
    tl_CircuitOpened l' = lease_counts t l && is_open (t_state t').
Proof.
  intros Hm Hr Hb Hl H.
  destruct (reachable_lease _ _ _ _ _ Hm Hr Hb _ _ _ Hl ltac:(done)) as (t & Ht & Hw & Ha & _).
  destruct (release_spec t now l r class Hw Ha)
    as (t' & l2 & tr & Hrel & Hw' & _ & _ & _ & _ & Hg & Hc & -> & _).
  unfold finish in H. rewrite Ht in H. simpl in H. rewrite Hrel in H. simpl in H. simplify_eq.
  exists t, t'. split; [done|]. split; [apply lookup_insert_eq|]. split; [done|].
  simpl. destruct (lease_counts t l) eqn:Ec; simpl; destruct tr as [tr|]; simpl.
  - by destruct Hg as (_ & _ & -> & _).
  - destruct Hg as [_ ->]. unfold lease_counts in Ec. prop_tests.
    revert H0. destruct (tl_HalfOpenProbe l); by destruct (t_state t).
  - destruct Hg as (_ & Hne & _). exfalso. apply Hne. revert Hc. unfold circuit_of.
    by destruct (t_state t'), (t_state t).
  - done.
Qed.

(** [Acquire] and [Eligible] decide alike: a request passes exactly when
    the circuit, advanced to the clock's reading, lets it through and the
    target has room.  [Acquire] then takes the admission, with the single probe
    of a half-open circuit; otherwise it reports which gate refused, and
    leaves the admissions alone. *)
Theorem acquire_decides m now name t :
  tm_targets m !! name = Some t ->
  let c := spec_advance (circuit_of t) now in
  (Eligible m now name).1.1 = lets_through c && has_room t /\
  exists t', (Acquire m now name).1.2 = set_target m name t' /\
  if lets_through c && has_room t then
    circuit_of t' = spec_admit c /\ t_active t' = t_active t + 1 /\
    exists l, (Acquire m now name).1.1 = inl l /\
      tl_Deployment l = name /\ tl_circuitGeneration l = t_generation t' /\
      tl_completed l = false /\
      tl_HalfOpenProbe l = (match c with SHalfOpen _ _ => true | _ => false end)
  else
    circuit_of t' = c /\ t_active t' = t_active t /\
    (Acquire m now name).1.1 =
      inr (match c with
           | SOpen _ _ => AdmissionCircuitOpen
           | SHalfOpen _ true => AdmissionHalfOpenInFlight
           | _ => AdmissionConcurrencyLimit
           end).
Proof.
  intros Ht c. pose proof (gate_after_advance t now) as Hg. fold c in Hg.
  pose proof (advance_refines t now) as Hc. fold c in Hc.
  destruct (advance_frame t now) as [_ _ _ Ha].
  split.
  - unfold Eligible. rewrite Ht. destruct (advance t now) as [t1 tr]. cbn [fst] in Hg.
    rewrite Hg. by destruct (lets_through c), (has_room t).
  - rewrite (Acquire_cases m now name t Ht), Hg.
    destruct (lets_through c) eqn:Hl; [destruct (has_room t) eqn:Hr|]; simpl.
    + exists (grant (advance t now).1). split; [done|].
      rewrite grant_refines, Hc. destruct (grant_fields (advance t now).1)
        as (_ & _ & _ & Es & Eg & -> & _). rewrite Ha. split_and!; [done..|].
      eexists. split_and!; [done..|]. simpl. rewrite Es, <- Hc. unfold circuit_of.
      by destruct (t_state (advance t now).1).
    + exists (advance t now).1. split_and!; [done..|].
      destruct c as [| |? []]; done.
    + exists (advance t now).1. split_and!; [done..|].
      destruct c as [| |? []]; done.
Qed.

(** An ejected target is unreachable until its ejection time has passed;
    then exactly one request gets through, as the half-open probe, and every
    other request is turned away until that probe completes. *)
Theorem ejection_then_probe m name t k until :
  tm_targets m !! name = Some t -> circuit_of t = SOpen k until -> has_room t = true ->
  (forall now, now < until ->
     (Acquire m now name).1 = (inr AdmissionCircuitOpen, m)) /\
  (forall now, until <= now ->
     exists l m' ev, Acquire m now name = (inl l, m', ev) /\ tl_HalfOpenProbe l = true /\
       forall later, (Acquire m' later name).1 = (inr AdmissionHalfOpenInFlight, m') /\
                     (Eligible m' later name).1 = (false, m')).
Proof.
  intros Ht Hc Hroom.
  assert (Hs : t_state t = CircuitOpen /\ t_ejectedUntil t = until).
  { revert Hc. unfold circuit_of. destruct (t_state t); try done. by intros [= _ ->]. }
  destruct Hs as [Hs Hu]. split; intros now Hnow.
  - unfold Acquire. rewrite Ht. unfold advance, time_Before. rewrite Hs, Hu. simpl.
    destruct (Z.ltb_spec now until); [|lia]. cbn [fst snd]. unfold admission_reason.
    rewrite Hs. simpl. unfold set_target. by rewrite insert_id; destruct m.
  - pose proof (gate_after_advance t now) as Hg. rewrite Hc, Hroom in Hg. simpl in Hg.
    destruct (Z.ltb_spec now until); [lia|]. simpl in Hg.
    pose proof (advance_refines t now) as Hadv. rewrite Hc in Hadv. simpl in Hadv.
    destruct (Z.ltb_spec now until); [lia|].
    rewrite (Acquire_cases m now name t Ht), Hg. eexists _, _, _. split; [done|].
    set (t1 := (advance t now).1) in *. destruct (grant_fields t1) as (_ & _ & _ & Es & _ & _ & Ep).
    assert (Hs1 : t_state t1 = CircuitHalfOpen)
      by (revert Hadv; unfold circuit_of; by destruct (t_state t1)).
    split; [simpl; by rewrite Es, Hs1|]. intros later.
    unfold Acquire, Eligible. cbn [tm_targets set_target]. rewrite lookup_insert_eq. unfold advance.
    rewrite Es, Hs1. simpl. unfold admission_reason. rewrite Es, Ep, Hs1. simpl.
    unfold set_target. simpl. by rewrite insert_insert_eq.
Qed.

(** Recording any history of results into a fresh window never panics and
    leaves exactly the most recent [sample_window] results, with the running
    failure count equal to their number of failures: the ring buffer is a
    sliding window, through every wrap of its cursor. *)
Theorem samples_are_sliding_window d history :
  CircuitPolicy_Validate (dep_Circuit d) = None ->
  let size := Z.to_nat (ecp_SampleWindow (CircuitPolicy_Effective (dep_Circuit d))) in
  exists t, recordSamples (newTargetRuntime d) history = Some t /\
    window t = last_n size history /\
    t_sampleCount t = Z.of_nat (length (last_n size history)) /\
    t_failuresInWindow t = count_true (last_n size history).
Proof.
  intros Hv size.
  enough (exists t, recordSamples (newTargetRuntime d) history = Some t /\ ring_ok t /\
    length (t_samples t) = size /\ window t = last_n size history) as (t & Ht & Hr & _ & Hw).
  { exists t. rewrite <- Hw, (length_window t Hr), <- (ring_failures t Hr). done. }
  pose proof (new_wf d Hv) as Hw0. induction history as [|failed history IH] using rev_ind.
  - eexists. split; [done|]. split; [apply Hw0|]. split.
    + simpl. by rewrite length_replicate.
    + pose proof (length_window _ (wf_ring _ Hw0)) as Hl. simpl in Hl.
      rewrite (nil_length_inv (window _)) by (simpl in *; lia). by unfold last_n.
  - destruct IH as (t & Ht & Hr & Hs & Hw). exists (sampled t failed).
    rewrite recordSamples_snoc, Ht. simpl. rewrite recordSample_eq by done.
    split; [done|]. split; [by apply sampled_ring|].
    rewrite sampled_window by done. rewrite Hw, Hs. split; [|apply last_n_push].
    destruct (sampled_fields t failed) as (-> & _). by rewrite length_insert.
Qed.

(** Under a validated policy the [n]-th consecutive ejection lasts
    [base_ejection_time * 2^(n-1)], capped at [max_ejection_time]; the doubling
    loop computes it without overflowing [time.Duration], and it never shrinks
    as ejections repeat. *)
Theorem ejection_backoff_exact p t :
  CircuitPolicy_Validate p = None -> t_policy t = CircuitPolicy_Effective p ->
  1 <= t_ejectionCount t ->
  let base := ecp_BaseEjectionTime (t_policy t) in
  let maximum := ecp_MaxEjectionTime (t_policy t) in
  ejectionDuration t = Z.min maximum (base * 2 ^ (t_ejectionCount t - 1)) /\
  base <= ejectionDuration t <= maximum /\
  ejectionDuration t <= ejectionDuration (set_ejectionCount (t_ejectionCount t + 1) t).
Proof.
  intros Hv Ep Hn base maximum. apply circuit_validate_ok in Hv. rewrite <- Ep in Hv.
  assert (Hs : t_policy (set_ejectionCount (t_ejectionCount t + 1) t) = t_policy t /\
    t_ejectionCount (set_ejectionCount (t_ejectionCount t + 1) t) = t_ejectionCount t + 1)
    by (by destruct t).
  destruct Hs as [Hs1 Hs2]. rewrite !ejectionDuration_backoff by (rewrite ?Hs1, ?Hs2; done || lia).
  rewrite Hs1, Hs2. unfold backoff. fold base maximum. destruct (Hv) as [_ _ _ _ Hb _].
  fold base maximum in Hb.
  pose proof (Z.pow_pos_nonneg 2 (t_ejectionCount t - 1)).
  replace (t_ejectionCount t + 1 - 1) with (Z.succ (t_ejectionCount t - 1)) by lia.
  rewrite Z.pow_succ_r by lia. split; [done|]. split; nia.
Qed.

(** A target keeps the most recent eight failures, oldest first, and its
    status lists them newest first; whatever a caller passes as failure class,
    every class kept is non-empty, at most 96 bytes long and made of identifier
    bytes only. *)
Theorem recent_failures_bounded d history :
  let t := recordFailures (newTargetRuntime d) history in
  t_recentFailures t = last_n 8 (failure_event <$> history) /\
  ts_RecentFailures (status t) = reverse (last_n 8 (failure_event <$> history)) /\
  Forall (fun f => clean_class (rf_FailureClass f) = true) (t_recentFailures t).
Proof.
  intros t. pose proof (recordFailures_spec (newTargetRuntime d) history eq_refl) as E.
  fold t in E. unfold status. simpl. rewrite E. split_and!; [done..|].
  unfold last_n. apply Forall_drop, Forall_fmap, Forall_true. intros f. apply sanitized_clean.
Qed.

(** A deployment whose circuit is disabled is never ejected: in every
    reachable state its circuit is closed and a request is refused only for
    lack of room. *)
Theorem disabled_circuit_never_opens ds observed m n s d now :
  NewTargetManager ds observed = inr m -> reach m n s -> Z.of_nat n < two64 -> In d ds ->
  cp_Disabled (dep_Circuit d) = true ->
  exists t, tm_targets (s_manager s) !! dep_Name d = Some t /\ t_state t = CircuitClosed /\
    (Eligible (s_manager s) now (dep_Name d)).1.1 =
      ((dep_MaxConcurrency d <=? 0) || (in_use (dep_Name d) s <? dep_MaxConcurrency d)).
Proof.
  intros Hm Hr Hb Hd Hdis.
  destruct (reachable_deployment _ _ _ _ _ _ Hm Hr Hb Hd) as (t & Ht & Ec & [Hw _ _ Ha _] & _).
  injection Ec as _ Em Ep. exists t. split; [done|].
  assert (Hs : t_state t = CircuitClosed) by (apply Hw; rewrite Ep; done).
  split; [done|]. rewrite <- Ha, <- Em. unfold Eligible. rewrite Ht.
  unfold advance, admission_reason. rewrite Hs. simpl. rewrite Hs. simpl.
  by destruct_tests; simpl; try lia.
Qed.

(** [Status] is an admission preview: at the same clock reading its
    [AdmissionAvailable] is what [Eligible] answers and [AtCapacity] is the
    exhausted concurrency limit; both reads leave the same state behind. *)
Theorem status_previews_admission m now name t :
  tm_targets m !! name = Some t ->
  exists st, (Status m now name).1.1 = Some st /\
    AdmissionAvailable st = (Eligible m now name).1.1 /\
    AtCapacity st = negb (has_room t) /\
    (Status m now name).1.2 = (Eligible m now name).1.2.
Proof.
  intros Ht. unfold Status, Eligible. rewrite Ht. pose proof (advance_room t now) as Hr.
  destruct (advance t now) as [t1 tr]. cbn [fst] in Hr. exists (status t1). split; [done|].
  rewrite <- Hr. unfold AdmissionAvailable, AtCapacity, admission_reason, has_room, status. simpl.
  by destruct (t_state t1), (t_probeInFlight t1); simpl; destruct_tests; simpl; try lia.
Qed.

(** A manager is built exactly for a list of deployments whose names are
    distinct and not empty, whose concurrency limits are not negative and
    whose circuit policies validate; it then has exactly one target for each. *)
Theorem new_manager_accepts ds observed :
  (exists m, NewTargetManager ds observed = inr m /\
     forall name, is_Some (tm_targets m !! name) <-> In name (dep_Name <$> ds)) <->
  NoDup (dep_Name <$> ds) /\
  Forall (fun d => dep_Name d <> "" /\ 0 <= dep_MaxConcurrency d /\
                   CircuitPolicy_Validate (dep_Circuit d) = None) ds.
Proof.
  unfold NewTargetManager. pose proof (add_targets_accepts ds ∅) as Hadd. split.
  - intros (m & H & _). destruct (add_targets ∅ ds) as [|targets]; [done|].
    destruct Hadd as [(? & _ & ?) _]; [by exists targets|done].
  - intros [Hn Hf]. destruct Hadd as [_ Hadd]. destruct Hadd as [targets H].
    + split_and!; [done| |done]. by apply Forall_true.
    + rewrite H. eexists. split; [done|]. intros name. simpl.
      rewrite (add_targets_dom _ _ _ H), lookup_empty. split; [|auto].
      by intros [[? ?]|?].
Qed.

(** ** Witnesses *)
Definition fresh : TargetManager :=
  match NewTargetManager fleet true with inr m => m | inl _ => mkTargetManager ∅ false end.
Lemma fresh_new : NewTargetManager fleet true = inr fresh.
Proof. vm_compute. reflexivity. Qed.

(** A run of the system: each action from the previous state. *)
Definition run_acquire (s : sys) (now : Z) (name : string) (id : nat) : sys :=
  match Acquire (s_manager s) now name with
  | (inl l, m, ev) => mkSys m (<[id := (l, Held)]> (s_leases s)) (s_events s ++ ev)
  | (inr _, m, ev) => mkSys m (s_leases s) (s_events s ++ ev)
  end.
Definition run_claim (s : sys) (id : nat) (r : TargetResult) : sys :=
  match s_leases s !! id with
  | Some (l, p) =>
      match claim (Some l) with
      | Some l' => mkSys (s_manager s) (<[id := (l', Completing r "timeout")]> (s_leases s)) (s_events s)
      | None => s
      end
  | None => s
  end.
Definition run_finish (s : sys) (now : Z) (id : nat) : sys :=
  match s_leases s !! id with
  | Some (l, Completing r class) =>
      match finish (s_manager s) now l r class with
      | Some (m, l', ev) => mkSys m (<[id := (l', Released)]> (s_leases s)) (s_events s ++ ev)
      | None => s
      end
  | _ => s
  end.

(** ["a"] admits a request that fails and trips the circuit at time 5 s; at
    20 s the next request is the half-open probe. *)
Definition w0 : sys := mkSys fresh ∅ [].
Definition w1 : sys := run_acquire w0 0 "a" 1.
Definition w2 : sys := run_claim w1 1 TargetFailure.
Definition w3 : sys := run_finish w2 (5 * Second) 1.
Definition w4 : sys := run_acquire w3 (20 * Second) "a" 2.

(** Decidable side conditions of the actions. *)
Definition can_acquire (s : sys) (now : Z) (name : string) (id : nat) : bool :=
  match (Acquire (s_manager s) now name).1.1 with
  | inl _ => match s_leases s !! id with None => true | Some _ => false end
  | inr _ => false
  end.
Definition can_claim (s : sys) (id : nat) : bool :=
  match s_leases s !! id with Some (l, _) => negb (tl_completed l) | None => false end.
Definition can_finish (s : sys) (now : Z) (id : nat) : bool :=
  match s_leases s !! id with
  | Some (l, Completing r class) =>
      match finish (s_manager s) now l r class with Some _ => true | None => false end
  | _ => false
  end.

Lemma acquire_step s now name id :
  can_acquire s now name id = true -> step s (run_acquire s now name id).
Proof.
  unfold can_acquire, run_acquire. destruct (Acquire _ now name) as [[[l|] m] ev] eqn:H; [|done].
  cbn [fst]. destruct (s_leases s !! id) eqn:Hid; [done|]. intros _. by eapply step_admitted.
Qed.

Lemma claim_step s id r : can_claim s id = true -> step s (run_claim s id r).
Proof.
  unfold can_claim, run_claim. destruct (s_leases s !! id) as [[l p]|] eqn:Hid; [|done].
  intros H. simpl. destruct (tl_completed l) eqn:Hc; [done|].
  eapply step_claim; [done|]. unfold claim. by rewrite Hc.
Qed.

Lemma finish_step s now id : can_finish s now id = true -> step s (run_finish s now id).
Proof.
  unfold can_finish, run_finish. destruct (s_leases s !! id) as [[l [|r class|]]|] eqn:Hid; try done.
  destruct (finish _ _ _ _ _) as [[[m l'] ev]|] eqn:H; [|done]. intros _. by eapply step_finish.
Qed.

Ltac run_step := vm_compute; reflexivity.

Lemma reach_w1 : reach fresh 1 w1.
Proof. eapply reach_step; [apply reach_start|]. apply acquire_step. run_step. Qed.
Lemma reach_w2 : reach fresh 2 w2.
Proof. eapply reach_step; [apply reach_w1|]. apply claim_step. run_step. Qed.
Lemma reach_w3 : reach fresh 3 w3.
Proof. eapply reach_step; [apply reach_w2|]. apply finish_step. run_step. Qed.
Lemma reach_w4 : reach fresh 4 w4.
Proof. eapply reach_step; [apply reach_w3|]. apply acquire_step. run_step. Qed.

Definition the_lease (s : sys) (id : nat) : TargetLease * phase :=
  default (mkTargetLease false false "" CircuitClosed false 0 0 false, Released) (s_leases s !! id).
Definition the_target (m : TargetManager) (name : string) : targetRuntime :=
  default (newTargetRuntime dep_a) (tm_targets m !! name).

Lemma admission_accounting_witness :
  exists t, tm_targets (s_manager w4) !! "a" = Some t /\ t_active t = in_use "a" w4 /\
    (0 < 1 -> in_use "a" w4 <= 1) /\ (true = true -> gauge "a" (s_events w4) = in_use "a" w4).
Proof.
  apply (admission_accounting fleet true fresh 4 w4 dep_a).
  - apply fresh_new.
  - apply reach_w4.
  - vm_compute. reflexivity.
  - left. reflexivity.
Defined.

Lemma half_open_single_probe_witness :
  t_state (the_target (s_manager w4) "a") = CircuitHalfOpen /\ 2%nat = 2%nat.
Proof.
  split; [vm_compute; reflexivity|].
  apply (half_open_single_probe fleet true fresh 4 w4 2 (the_lease w4 2).1 Held
           2 (the_lease w4 2).1 Held (the_target (s_manager w4) "a") fresh_new reach_w4);
    vm_compute; congruence.
Defined.

Lemma complete_exactly_once_witness :
  claim (Some (the_lease w2 1).1) = None /\
  forall now, exists t t' l' ev,
    tm_targets (s_manager w2) !! tl_Deployment (the_lease w2 1).1 = Some t /\
    finish (s_manager w2) now (the_lease w2 1).1 TargetFailure "timeout" =
      Some (set_target (s_manager w2) (tl_Deployment (the_lease w2 1).1) t', l', ev) /\
    t_active t' = t_active t - 1 /\ 0 <= t_active t' /\ claim (Some l') = None.
Proof.
  apply (complete_exactly_once fleet true fresh 2 w2 1 _ (Completing TargetFailure "timeout")
           fresh_new reach_w2); vm_compute; reflexivity.
Defined.

Lemma completion_moves_circuit_witness :
  exists m' l' ev t t',
    finish (s_manager w2) (5 * Second) (the_lease w2 1).1 TargetFailure "timeout" =
      Some (m', l', ev) /\
    tm_targets (s_manager w2) !! "a" = Some t /\ tm_targets m' !! "a" = Some t' /\
    circuit_of t' = SOpen 1 (15 * Second) /\ tl_CircuitOpened l' = true.
Proof.
  destruct (finish (s_manager w2) (5 * Second) (the_lease w2 1).1 TargetFailure "timeout")
    as [[[m' l'] ev]|] eqn:H; [|vm_compute in H; discriminate].
  destruct (completion_moves_circuit fleet true fresh 2 w2 1 (the_lease w2 1).1 TargetFailure
              "timeout" (5 * Second) m' l' ev fresh_new reach_w2) as (t & t' & Ht & Ht' & Hc & Ho);
    [vm_compute; reflexivity..|exact H|].
  exists m', l', ev, t, t'. split; [reflexivity|].
  split; [exact Ht|]. split; [exact Ht'|].
  assert (Et : t = the_target (s_manager w2) "a").
  { apply (inj Some). rewrite <- Ht. vm_compute. reflexivity. }
  assert (Ec : circuit_of t' = SOpen 1 (15 * Second)).
  { rewrite Hc, Et. vm_compute. reflexivity. }
  split; [exact Ec|]. rewrite Ho, Et. revert Ec. unfold circuit_of.
  destruct (t_state t'); intros E; [discriminate E| |discriminate E]. vm_compute. reflexivity.
Defined.

Lemma acquire_decides_witness :
  (Eligible (s_manager w3) (20 * Second) "a").1.1 = true /\
  exists t', (Acquire (s_manager w3) (20 * Second) "a").1.2 = set_target (s_manager w3) "a" t' /\
    circuit_of t' = SHalfOpen 1 true /\ t_active t' = 1.
Proof.
  destruct (acquire_decides (s_manager w3) (20 * Second) "a" (the_target (s_manager w3) "a"))
    as [He (t' & Hm & H)]; [vm_compute; reflexivity|].
  split; [rewrite He; vm_compute; reflexivity|]. exists t'. split; [exact Hm|].
  assert (E : lets_through (spec_advance (circuit_of (the_target (s_manager w3) "a")) (20 * Second))
    && has_room (the_target (s_manager w3) "a") = true) by (vm_compute; reflexivity).
  cbv zeta in H. rewrite E in H. destruct H as (Hc & Ha & _). rewrite Hc, Ha. split; vm_compute; reflexivity.
Defined.

Lemma ejection_then_probe_witness :
  (Acquire (s_manager w3) (14 * Second) "a").1 = (inr AdmissionCircuitOpen, s_manager w3) /\
  exists l m' ev, Acquire (s_manager w3) (15 * Second) "a" = (inl l, m', ev) /\
    tl_HalfOpenProbe l = true /\
    (Acquire m' (16 * Second) "a").1 = (inr AdmissionHalfOpenInFlight, m').
Proof.
  destruct (ejection_then_probe (s_manager w3) "a" (the_target (s_manager w3) "a") 1 (15 * Second))
    as [Hb Ha]; [vm_compute; reflexivity..|].
  split; [apply Hb; vm_compute; reflexivity|].
  destruct (Ha (15 * Second) ltac:(lia)) as (l & m' & ev & E & Hp & Hl).
  exists l, m', ev. split; [exact E|]. split; [exact Hp|]. apply Hl.
Defined.

Lemma samples_are_sliding_window_witness :
  exists t, recordSamples (newTargetRuntime dep_a) [true; false; true; true; false] = Some t /\
    window t = [true; true; false] /\ t_sampleCount t = 3 /\ t_failuresInWindow t = 2.
Proof.
  destruct (samples_are_sliding_window dep_a [true; false; true; true; false]) as (t & Ht & Hw & Hc & Hf);
    [vm_compute; reflexivity|].
  exists t. split; [exact Ht|]. rewrite Hw, Hc, Hf. split_and!; vm_compute; reflexivity.
Defined.

Lemma ejection_backoff_exact_witness :
  ejectionDuration (set_ejectionCount 3 (newTargetRuntime dep_a)) = 40 * Second /\
  ejectionDuration (set_ejectionCount 4 (newTargetRuntime dep_a)) = Minute.
Proof.
  destruct (ejection_backoff_exact brittle_circuit (set_ejectionCount 3 (newTargetRuntime dep_a)))
    as [E3 _]; [vm_compute; congruence..|].
  destruct (ejection_backoff_exact brittle_circuit (set_ejectionCount 4 (newTargetRuntime dep_a)))
    as [E4 _]; [vm_compute; congruence..|].
  rewrite E3, E4. split; vm_compute; reflexivity.
Defined.

Lemma disabled_circuit_never_opens_witness :
  exists t, tm_targets (s_manager w4) !! "b" = Some t /\ t_state t = CircuitClosed /\
    (Eligible (s_manager w4) 0 "b").1.1 = ((0 <=? 0) || (in_use "b" w4 <? 0)).
Proof.
  apply (disabled_circuit_never_opens fleet true fresh 4 w4 dep_b 0 fresh_new reach_w4);
    [vm_compute; reflexivity|right; left; reflexivity|reflexivity].
Defined.

Lemma status_previews_admission_witness :
  exists st, (Status (s_manager w4) (21 * Second) "a").1.1 = Some st /\
    AdmissionAvailable st = (Eligible (s_manager w4) (21 * Second) "a").1.1 /\
    AtCapacity st = true /\
    (Status (s_manager w4) (21 * Second) "a").1.2 = (Eligible (s_manager w4) (21 * Second) "a").1.2.
Proof.
  apply (status_previews_admission (s_manager w4) (21 * Second) "a" (the_target (s_manager w4) "a")).
  vm_compute. reflexivity.
Defined.
