(* ===== verification/RetryBudget.v ===== *)
(** * Retry budgets ([pkg/routing/retry_budget.go])

    Per virtual model, the number of live requests and of retries in flight.
    A request and a retry lease hold a pointer to the state of their model,
    which is never removed from the manager's map: the pointer is the model's
    name.  [TryAcquireRetry] and [End] run under the request's own mutex, so
    each is one atomic action; [Release] is two, the swap on [released] and the
    critical section.  A nil dereference is [None]. *)

From stdpp Require Import base gmap list strings sorting.
From Stdlib Require Import ZArith Lia SpecFloat.
From S2P Require Import Prelude Policies.

Local Open Scope Z_scope.

(** ** Data *)
Record retryBudgetState := mkRetryBudgetState {
  rbs_activeRequests : Z;
  rbs_activeRetries : Z;
}.

Record RetryBudgetManager := mkRetryBudgetManager {
  rbm_models : gmap string retryBudgetState;
  rbm_observed : bool;
}.

Record retryBudgetRequest := mkRetryBudgetRequest {
  rbr_virtualModel : string;
  rbr_policy : EffectiveRetryBudgetPolicy;
  rbr_ended : bool;
}.

Record retryBudgetLease := mkRetryBudgetLease {
  rbl_virtualModel : string;
  rbl_released : bool;
}.

Record RetryBudgetRejection := mkRetryBudgetRejection {
  rbj_VirtualModel : string;
  rbj_ActiveRequests : Z;
  rbj_ActiveRetries : Z;
  rbj_AllowedRetries : Z;
}.

(** The calls to [RetryBudgetObserver]. *)
Inductive RetryBudgetEvent :=
  | RetryBudgetActiveChanged (virtualModel : string) (delta : Z)
  | RetryBudgetRejected (event : RetryBudgetRejection).

Record RetryBudgetStatus := mkRetryBudgetStatus {
  rbst_VirtualModel : string;
  rbst_ActiveRequests : Z;
  rbst_ActiveRetries : Z;
}.

(** ** Operations *)
Definition NewRetryBudgetManager (observed : bool) : RetryBudgetManager :=
  {| rbm_models := ∅; rbm_observed := observed |}.

Definition set_model (m : RetryBudgetManager) (name : string) (s : retryBudgetState)
  : RetryBudgetManager :=
  {| rbm_models := <[name := s]> (rbm_models m); rbm_observed := rbm_observed m |}.

Definition observeActive (m : RetryBudgetManager) (virtualModel : string) (delta : Z)
  : list RetryBudgetEvent :=
  if rbm_observed m then [RetryBudgetActiveChanged virtualModel delta] else [].

Definition observeBudgetRejection (m : RetryBudgetManager) (event : RetryBudgetRejection)
  : list RetryBudgetEvent :=
  if rbm_observed m then [RetryBudgetRejected event] else [].

Definition BeginRequest (m : RetryBudgetManager) (virtualModel : string)
    (policy : EffectiveRetryBudgetPolicy) : RetryBudgetManager * retryBudgetRequest :=
  let state :=
    match rbm_models m !! virtualModel with
    | Some state => state
    | None => {| rbs_activeRequests := 0; rbs_activeRetries := 0 |}
    end in
  let state := {| rbs_activeRequests := rbs_activeRequests state + 1;
                  rbs_activeRetries := rbs_activeRetries state |} in
  (set_model m virtualModel state,
   {| rbr_virtualModel := virtualModel; rbr_policy := policy; rbr_ended := false |}).

Definition allowedRetryConcurrency (activeRequests : Z) (policy : EffectiveRetryBudgetPolicy) : Z :=
  let allowed := f64_ceil_int (f64_mul (f64_of_int activeRequests) (erb_Ratio policy)) in
  if allowed <? erb_MinConcurrency policy then erb_MinConcurrency policy else allowed.

Definition TryAcquireRetry (m : RetryBudgetManager) (r : retryBudgetRequest)
  : option (option retryBudgetLease * RetryBudgetManager * list RetryBudgetEvent) :=
  if rbr_ended r then Some (None, m, [])
  else
    state ← rbm_models m !! rbr_virtualModel r;
    let allowed := allowedRetryConcurrency (rbs_activeRequests state) (rbr_policy r) in
    if negb (erb_Disabled (rbr_policy r)) && (allowed <=? rbs_activeRetries state) then
      Some (None, m,
            observeBudgetRejection m
              {| rbj_VirtualModel := rbr_virtualModel r;
                 rbj_ActiveRequests := rbs_activeRequests state;
                 rbj_ActiveRetries := rbs_activeRetries state;
                 rbj_AllowedRetries := allowed |})
    else
      let state := {| rbs_activeRequests := rbs_activeRequests state;
                      rbs_activeRetries := rbs_activeRetries state + 1 |} in
      Some (Some {| rbl_virtualModel := rbr_virtualModel r; rbl_released := false |},
            set_model m (rbr_virtualModel r) state,
            observeActive m (rbr_virtualModel r) 1).

(** [retryBudgetRequest.End] *)
Definition EndRequest (m : RetryBudgetManager) (r : retryBudgetRequest)
  : option (RetryBudgetManager * retryBudgetRequest) :=
  if rbr_ended r then Some (m, r)
  else
    let r := {| rbr_virtualModel := rbr_virtualModel r; rbr_policy := rbr_policy r;
                rbr_ended := true |} in
    state ← rbm_models m !! rbr_virtualModel r;
    let state :=
      if 0 <? rbs_activeRequests state then
        {| rbs_activeRequests := rbs_activeRequests state - 1;
           rbs_activeRetries := rbs_activeRetries state |}
      else state in
    Some (set_model m (rbr_virtualModel r) state, r).

(** [l.released.CompareAndSwap(false, true)]; [None] when the swap fails. *)
Definition claim_release (l : retryBudgetLease) : option retryBudgetLease :=
  if rbl_released l then None
  else Some {| rbl_virtualModel := rbl_virtualModel l; rbl_released := true |}.

(** The rest of [Release] after a successful swap. *)
Definition finish_release (m : RetryBudgetManager) (l : retryBudgetLease)
  : option (RetryBudgetManager * list RetryBudgetEvent) :=
  state ← rbm_models m !! rbl_virtualModel l;
  let state :=
    if 0 <? rbs_activeRetries state then
      {| rbs_activeRequests := rbs_activeRequests state;
         rbs_activeRetries := rbs_activeRetries state - 1 |}
    else state in
  Some (set_model m (rbl_virtualModel l) state, observeActive m (rbl_virtualModel l) (-1)).

(** [retryBudgetLease.Release] without interleaving. *)
Definition Release (m : RetryBudgetManager) (l : option retryBudgetLease)
  : option (RetryBudgetManager * option retryBudgetLease * list RetryBudgetEvent) :=
  match l ≫= claim_release with
  | None => Some (m, l, [])
  | Some l =>
      '(m, events) ← finish_release m l;
      Some (m, Some l, events)
  end.

Definition budget_status (name : string) (state : retryBudgetState) : RetryBudgetStatus :=
  {| rbst_VirtualModel := name;
     rbst_ActiveRequests := rbs_activeRequests state;
     rbst_ActiveRetries := rbs_activeRetries state |}.

(** [RetryBudgetManager.Status] *)
Definition BudgetStatus (m : RetryBudgetManager) (virtualModel : string)
  : option RetryBudgetStatus :=
  state ← rbm_models m !! virtualModel;
  Some (budget_status virtualModel state).

(** [RetryBudgetManager.Statuses] *)
Definition BudgetStatuses (m : RetryBudgetManager) : list RetryBudgetStatus :=
  omap (fun name => budget_status name <$> rbm_models m !! name)
    (sort_Strings (map_to_list (rbm_models m)).*1).

(** ** Concurrent use *)
Inductive release_phase := Retrying | Releasing | Done.

Record budget_sys := mkBudgetSys {
  bs_manager : RetryBudgetManager;
  bs_requests : gmap nat retryBudgetRequest;
  bs_leases : gmap nat (retryBudgetLease * release_phase);
  bs_events : list RetryBudgetEvent;
}.

Inductive budget_step (s : budget_sys) : budget_sys -> Prop :=
  | budget_begin id name policy m r :
      bs_requests s !! id = None -> BeginRequest (bs_manager s) name policy = (m, r) ->
      budget_step s (mkBudgetSys m (<[id := r]> (bs_requests s)) (bs_leases s) (bs_events s))
  | budget_granted id r lid l m ev :
      bs_requests s !! id = Some r -> bs_leases s !! lid = None ->
      TryAcquireRetry (bs_manager s) r = Some (Some l, m, ev) ->
      budget_step s (mkBudgetSys m (bs_requests s) (<[lid := (l, Retrying)]> (bs_leases s))
                       (bs_events s ++ ev))
  | budget_denied id r m ev :
      bs_requests s !! id = Some r -> TryAcquireRetry (bs_manager s) r = Some (None, m, ev) ->
      budget_step s (mkBudgetSys m (bs_requests s) (bs_leases s) (bs_events s ++ ev))
  | budget_end id r m r' :
      bs_requests s !! id = Some r -> EndRequest (bs_manager s) r = Some (m, r') ->
      budget_step s (mkBudgetSys m (<[id := r']> (bs_requests s)) (bs_leases s) (bs_events s))
  | budget_claim lid l p l' :
      bs_leases s !! lid = Some (l, p) -> claim_release l = Some l' ->
      budget_step s (mkBudgetSys (bs_manager s) (bs_requests s)
                       (<[lid := (l', Releasing)]> (bs_leases s)) (bs_events s))
  | budget_release lid l m ev :
      bs_leases s !! lid = Some (l, Releasing) -> finish_release (bs_manager s) l = Some (m, ev) ->
      budget_step s (mkBudgetSys m (bs_requests s) (<[lid := (l, Done)]> (bs_leases s))
                       (bs_events s ++ ev)).

Definition budget_start (observed : bool) : budget_sys :=
  mkBudgetSys (NewRetryBudgetManager observed) ∅ ∅ [].

Definition budget_reach (observed : bool) : budget_sys -> Prop :=
  rtc budget_step (budget_start observed).
