(* ===== verification/RetryBudgetTheorems.v ===== *)
(** * Theorems about retry budgets

    The counters of [RetryBudgetManager] under concurrent use, and the rule by
    which a retry is granted. *)

From stdpp Require Import base gmap list strings sorting.
From Stdlib Require Import ZArith Lia SpecFloat.
From S2P Require Import Prelude Policies RetryBudget.

Local Open Scope Z_scope.

(** ** The invariant *)
Definition live (name : string) (r : retryBudgetRequest) : bool :=
  String.eqb (rbr_virtualModel r) name && negb (rbr_ended r).
Definition is_done (p : release_phase) : bool := match p with Done => true | _ => false end.
Definition retrying (name : string) (x : retryBudgetLease * release_phase) : bool :=
  String.eqb (rbl_virtualModel x.1) name && negb (is_done x.2).

Lemma live_spec name r :
  live name r = String.eqb (rbr_virtualModel r) name && negb (rbr_ended r).
Proof. done. Qed.
Lemma retrying_spec name x :
  retrying name x = String.eqb (rbl_virtualModel x.1) name && negb (is_done x.2).
Proof. done. Qed.

(** The live requests and the unreleased retries of a model. *)
Definition live_requests (name : string) (requests : gmap nat retryBudgetRequest) : Z :=
  count_map (live name) requests.
Definition live_retries (name : string) (leases : gmap nat (retryBudgetLease * release_phase)) : Z :=
  count_map (retrying name) leases.

(** What the observer's gauge of active retries reads. *)
Fixpoint retry_gauge (name : string) (events : list RetryBudgetEvent) : Z :=
  match events with
  | [] => 0
  | RetryBudgetActiveChanged n delta :: rest =>
      (if String.eqb n name then delta else 0) + retry_gauge name rest
  | RetryBudgetRejected _ :: rest => retry_gauge name rest
  end.

Lemma retry_gauge_app name e1 e2 :
  retry_gauge name (e1 ++ e2) = retry_gauge name e1 + retry_gauge name e2.
Proof. induction e1 as [|[] e1 IH]; simpl; lia. Qed.

Lemma retry_gauge_active m n delta name :
  retry_gauge name (observeActive m n delta) =
    if rbm_observed m then (if String.eqb n name then delta else 0) else 0.
Proof. unfold observeActive. destruct (rbm_observed m); simpl; [|done]. destruct (String.eqb n name); lia. Qed.

Lemma retry_gauge_rejection m e name : retry_gauge name (observeBudgetRejection m e) = 0.
Proof. unfold observeBudgetRejection. by destruct (rbm_observed m). Qed.

(** The counters of a model, zero when it has none yet. *)
Definition counters (m : RetryBudgetManager) (name : string) : retryBudgetState :=
  default (mkRetryBudgetState 0 0) (rbm_models m !! name).

Record budget_inv (s : budget_sys) : Prop := {
  bi_counters name :
    counters (bs_manager s) name = mkRetryBudgetState (live_requests name (bs_requests s)) (live_retries name (bs_leases s));
  bi_request id r : bs_requests s !! id = Some r ->
    is_Some (rbm_models (bs_manager s) !! rbr_virtualModel r);
  bi_lease lid l p : bs_leases s !! lid = Some (l, p) ->
    is_Some (rbm_models (bs_manager s) !! rbl_virtualModel l) /\
    rbl_released l = (match p with Retrying => false | _ => true end);
  bi_gauge name : rbm_observed (bs_manager s) = true ->
    retry_gauge name (bs_events s) = live_retries name (bs_leases s);
}.

Lemma counters_set m name st name' :
  counters (set_model m name st) name' = if String.eqb name name' then st else counters m name'.
Proof.
  unfold counters. simpl. rewrite lookup_insert.
  destruct (String.eqb_spec name name'); case_decide; done.
Qed.

Lemma set_model_some m name st name' :
  is_Some (rbm_models m !! name') -> is_Some (rbm_models (set_model m name st) !! name').
Proof. simpl. rewrite lookup_insert_is_Some'. tauto. Qed.

Lemma model_counters m name st : rbm_models m !! name = Some st -> counters m name = st.
Proof. unfold counters. by intros ->. Qed.

Lemma count_map_nonneg {A} (P : A -> bool) leases : 0 <= count_map P leases.
Proof. unfold count_map. lia. Qed.

Lemma start_inv observed : budget_inv (budget_start observed).
Proof. by split. Qed.

Lemma begin_inv s id name policy :
  budget_inv s -> bs_requests s !! id = None ->
  let '(m, r) := BeginRequest (bs_manager s) name policy in
  budget_inv (mkBudgetSys m (<[id := r]> (bs_requests s)) (bs_leases s) (bs_events s)).
Proof.
  intros [Ic Ir Il Ig] Hid. unfold BeginRequest.
  assert (E : match rbm_models (bs_manager s) !! name with
              | Some state => state | None => mkRetryBudgetState 0 0 end
            = counters (bs_manager s) name) by (unfold counters; by destruct (_ !! name)).
  rewrite E. split.
  - intros name'. simpl. rewrite counters_set. unfold live_requests, live_retries. simpl.
    rewrite count_map_insert by done. rewrite !live_spec. simpl. rewrite andb_true_r.
    destruct (String.eqb_spec name name') as [<-|]; rewrite Ic; simpl; [done|].
    by rewrite Z.add_0_r.
  - intros id' r'. simpl. rewrite lookup_insert. case_decide.
    + intros [= <-]. simpl. rewrite lookup_insert_eq. eauto.
    + intros H'. apply (set_model_some _ _ _ _ (Ir _ _ H')).
  - intros lid l p Hl. destruct (Il _ _ _ Hl). split; [by apply set_model_some|done].
  - done.
Qed.

Lemma grant_inv s lid name st :
  budget_inv s -> bs_leases s !! lid = None -> rbm_models (bs_manager s) !! name = Some st ->
  budget_inv (mkBudgetSys
    (set_model (bs_manager s) name
       (mkRetryBudgetState (rbs_activeRequests st) (rbs_activeRetries st + 1)))
    (bs_requests s) (<[lid := (mkRetryBudgetLease name false, Retrying)]> (bs_leases s))
    (bs_events s ++ observeActive (bs_manager s) name 1)).
Proof.
  intros [Ic Ir Il Ig] Hid Hst. pose proof (model_counters _ _ _ Hst) as Ec.
  rewrite Ic in Ec. subst st.
  assert (Hcount : forall name', live_retries name'
    (<[lid := (mkRetryBudgetLease name false, Retrying)]> (bs_leases s)) =
    live_retries name' (bs_leases s) + if String.eqb name name' then 1 else 0).
  { intros name'. unfold live_retries. rewrite count_map_insert by done. rewrite !retrying_spec. simpl.
    by rewrite andb_true_r. }
  split.
  - intros name'. simpl. rewrite counters_set. rewrite Hcount, Ic.
    destruct (String.eqb_spec name name') as [<-|]; [done|]. by rewrite Z.add_0_r.
  - intros id r H. simpl. apply set_model_some. eauto.
  - intros lid' l p. simpl. rewrite lookup_insert. case_decide.
    + intros [= <- <-]. simpl. rewrite lookup_insert_eq. eauto.
    + intros Hl. destruct (Il _ _ _ Hl). split; [by apply set_model_some|done].
  - intros name' Ho. simpl in *. rewrite retry_gauge_app, retry_gauge_active, Ho, Ig by done.
    by rewrite Hcount.
Qed.

Lemma end_inv s id r :
  budget_inv s -> bs_requests s !! id = Some r ->
  exists m r', EndRequest (bs_manager s) r = Some (m, r') /\ rbr_ended r' = true /\
    budget_inv (mkBudgetSys m (<[id := r']> (bs_requests s)) (bs_leases s) (bs_events s)).
Proof.
  intros I Hid. unfold EndRequest. destruct (rbr_ended r) eqn:He.
  { exists (bs_manager s), r. split; [done|]. split; [done|].
    rewrite insert_id by done. by destruct I; split. }
  destruct I as [Ic Ir Il Ig]. simpl. destruct (Ir _ _ Hid) as [st Hst]. rewrite Hst. simpl.
  eexists _, _. split; [done|]. split; [done|].
  pose proof (model_counters _ _ _ Hst) as Ec. rewrite Ic in Ec. subst st. simpl.
  assert (Hpos : 1 <= live_requests (rbr_virtualModel r) (bs_requests s)).
  { eapply count_map_pos; [exact Hid|]. unfold live. by rewrite String.eqb_refl, He. }
  destruct (Z.ltb_spec 0 (live_requests (rbr_virtualModel r) (bs_requests s))); [|lia].
  split.
  - intros name'. simpl. rewrite counters_set, Ic. unfold live_requests.
    rewrite (count_map_update _ _ _ _ _ Hid). rewrite !live_spec. simpl.
    rewrite He, andb_true_r, andb_false_r.
    destruct (String.eqb_spec (rbr_virtualModel r) name') as [<-|]; f_equal; lia.
  - intros id' r'. simpl. rewrite lookup_insert. case_decide.
    + intros [= <-]. simpl. rewrite lookup_insert_eq. eauto.
    + intros H'. apply (set_model_some _ _ _ _ (Ir _ _ H')).
  - intros lid l p Hl. destruct (Il _ _ _ Hl). split; [by apply set_model_some|done].
  - done.
Qed.

Lemma claim_inv s lid l p l' :
  budget_inv s -> bs_leases s !! lid = Some (l, p) -> claim_release l = Some l' ->
  budget_inv (mkBudgetSys (bs_manager s) (bs_requests s)
    (<[lid := (l', Releasing)]> (bs_leases s)) (bs_events s)).
Proof.
  intros [Ic Ir Il Ig] Hl Hc. destruct (Il _ _ _ Hl) as [Hm Hrel].
  unfold claim_release in Hc. destruct (rbl_released l) eqn:E; [done|]. injection Hc as <-.
  assert (p = Retrying) as -> by by destruct p.
  assert (Hcount : forall name, live_retries name
    (<[lid := (mkRetryBudgetLease (rbl_virtualModel l) true, Releasing)]> (bs_leases s)) =
    live_retries name (bs_leases s)).
  { intros name. unfold live_retries. rewrite (count_map_update _ _ _ _ _ Hl). rewrite !retrying_spec. simpl.
    unfold live_retries. lia. }
  split.
  - intros name. simpl. rewrite Ic. f_equal. by rewrite Hcount.
  - done.
  - intros lid' l1 p1. simpl. rewrite lookup_insert. case_decide; [|apply Il].
    by intros [= <- <-].
  - intros name Ho. simpl. rewrite Ig by done. by rewrite Hcount.
Qed.

Lemma release_inv s lid l :
  budget_inv s -> bs_leases s !! lid = Some (l, Releasing) ->
  exists m ev, finish_release (bs_manager s) l = Some (m, ev) /\
    budget_inv (mkBudgetSys m (bs_requests s) (<[lid := (l, Done)]> (bs_leases s))
                  (bs_events s ++ ev)).
Proof.
  intros [Ic Ir Il Ig] Hl. destruct (Il _ _ _ Hl) as [[st Hst] Hrel].
  unfold finish_release. rewrite Hst. simpl. eexists _, _. split; [done|].
  pose proof (model_counters _ _ _ Hst) as Ec. rewrite Ic in Ec. subst st. simpl.
  assert (Hpos : 1 <= live_retries (rbl_virtualModel l) (bs_leases s)).
  { eapply count_map_pos; [exact Hl|]. unfold retrying. simpl. by rewrite String.eqb_refl. }
  destruct (Z.ltb_spec 0 (live_retries (rbl_virtualModel l) (bs_leases s))); [|lia].
  assert (Hcount : forall name, live_retries name (<[lid := (l, Done)]> (bs_leases s)) =
    live_retries name (bs_leases s) - if String.eqb (rbl_virtualModel l) name then 1 else 0).
  { intros name. unfold live_retries. rewrite (count_map_update _ _ _ _ _ Hl). rewrite !retrying_spec. simpl.
    rewrite andb_true_r, andb_false_r. unfold live_retries. lia. }
  split.
  - intros name. simpl. rewrite counters_set, Ic. rewrite Hcount.
    destruct (String.eqb_spec (rbl_virtualModel l) name) as [<-|]; [done|].
    by rewrite Z.sub_0_r.
  - intros id r H'. simpl. apply set_model_some. eauto.
  - intros lid' l1 p1. simpl. rewrite lookup_insert. case_decide.
    + intros [= <- <-]. simpl. rewrite lookup_insert_eq. eauto.
    + intros Hl1. destruct (Il _ _ _ Hl1). split; [by apply set_model_some|done].
  - intros name Ho. simpl in *. rewrite retry_gauge_app, retry_gauge_active, Ho, Ig by done.
    rewrite Hcount.
    destruct (String.eqb (rbl_virtualModel l) name); lia.
Qed.

Lemma TryAcquireRetry_spec m r st :
  rbm_models m !! rbr_virtualModel r = Some st -> rbr_ended r = false ->
  let allowed := allowedRetryConcurrency (rbs_activeRequests st) (rbr_policy r) in
  TryAcquireRetry m r =
    if erb_Disabled (rbr_policy r) || (rbs_activeRetries st <? allowed) then
      Some (Some (mkRetryBudgetLease (rbr_virtualModel r) false),
            set_model m (rbr_virtualModel r)
              (mkRetryBudgetState (rbs_activeRequests st) (rbs_activeRetries st + 1)),
            observeActive m (rbr_virtualModel r) 1)
    else
      Some (None, m,
            observeBudgetRejection m
              (mkRetryBudgetRejection (rbr_virtualModel r) (rbs_activeRequests st)
                 (rbs_activeRetries st) allowed)).
Proof.
  intros Hst He allowed. unfold TryAcquireRetry. rewrite He, Hst. simpl. fold allowed.
  destruct (erb_Disabled (rbr_policy r)); simpl; [done|].
  destruct (Z.leb_spec allowed (rbs_activeRetries st)), (Z.ltb_spec (rbs_activeRetries st) allowed);
    done || lia.
Qed.

Lemma denied_inv s ev :
  budget_inv s -> (forall name, retry_gauge name ev = 0) ->
  budget_inv (mkBudgetSys (bs_manager s) (bs_requests s) (bs_leases s) (bs_events s ++ ev)).
Proof.
  intros [Ic Ir Il Ig] Hev. split; try done. intros name Ho. simpl.
  by rewrite retry_gauge_app, Hev, Ig, Z.add_0_r.
Qed.

Lemma budget_step_inv s s' : budget_inv s -> budget_step s s' -> budget_inv s'.
Proof.
  intros I. destruct 1 as [id name policy m r Hid H|id r lid l m ev Hr Hl H|id r m ev Hr H
    |id r m r' Hr H|lid l p l' Hl H|lid l m ev Hl H].
  - pose proof (begin_inv s id name policy I Hid) as E. by rewrite H in E.
  - unfold TryAcquireRetry in H. destruct (rbr_ended r) eqn:He; [done|].
    destruct (bi_request _ I _ _ Hr) as [st Hst].
    pose proof (TryAcquireRetry_spec _ _ _ Hst He) as E. unfold TryAcquireRetry in E.
    rewrite He, H in E. cbv zeta in E. destruct (_ || _); simplify_eq. by apply grant_inv.
  - destruct (rbr_ended r) eqn:He.
    { unfold TryAcquireRetry in H. rewrite He in H. simplify_eq. by apply denied_inv. }
    destruct (bi_request _ I _ _ Hr) as [st Hst].
    rewrite (TryAcquireRetry_spec _ _ _ Hst He) in H. cbv zeta in H.
    destruct (_ || _); simplify_eq. apply denied_inv; [done|]. intros. apply retry_gauge_rejection.
  - destruct (end_inv _ _ _ I Hr) as (m2 & r2 & E & _ & H2). rewrite H in E. by simplify_eq.
  - by eapply claim_inv.
  - destruct (release_inv _ _ _ I Hl) as (m2 & ev2 & E & H2). rewrite H in E. by simplify_eq.
Qed.

Lemma budget_reach_inv observed s : budget_reach observed s -> budget_inv s.
Proof.
  intros H. unfold budget_reach in H. revert H. apply rtc_ind_r; [apply start_inv|].
  intros s1 s2 _ Hs I. by eapply budget_step_inv.
Qed.

(** A live request finds the counters of its model exact. *)
Lemma live_request_counters s id r :
  budget_inv s -> bs_requests s !! id = Some r ->
  rbm_models (bs_manager s) !! rbr_virtualModel r =
    Some (mkRetryBudgetState (live_requests (rbr_virtualModel r) (bs_requests s))
            (live_retries (rbr_virtualModel r) (bs_leases s))).
Proof.
  intros I Hr. destruct (bi_request _ I _ _ Hr) as [st Hst].
  rewrite <- (bi_counters _ I), Hst. by rewrite (model_counters _ _ _ Hst).
Qed.

(** ** Claims *)

(** C28: However requests begin and end and retries are granted and released
    concurrently, the status of a model reports exactly its live requests and
    its unreleased retries, and an observer that sums the deltas reads the
    latter. *)
Theorem budget_accounting observed s name :
  budget_reach observed s ->
  default (mkRetryBudgetStatus name 0 0) (BudgetStatus (bs_manager s) name) =
    mkRetryBudgetStatus name (live_requests name (bs_requests s)) (live_retries name (bs_leases s)) /\
  (rbm_observed (bs_manager s) = true ->
   retry_gauge name (bs_events s) = live_retries name (bs_leases s)).
Proof.
  intros I%budget_reach_inv. split; [|apply I]. pose proof (bi_counters _ I name) as Ec.
  unfold BudgetStatus, counters in *. destruct (rbm_models _ !! name) as [st|]; simpl in *.
  - by rewrite Ec.
  - by injection Ec as <- <-.
Qed.

(** A live request is granted a retry exactly when its policy disables the
    budget or fewer retries of its model are in flight than
    [max(min_concurrency, ceil(live_requests * ratio))]; so an enabled budget
    never lets a grant exceed that bound.  The call never panics, and an ended
    request is always refused. *)
Theorem retry_grant_rule observed s id r :
  budget_reach observed s -> bs_requests s !! id = Some r ->
  let name := rbr_virtualModel r in
  let policy := rbr_policy r in
  let allowed :=
    Z.max (erb_MinConcurrency policy)
      (f64_ceil_int (f64_mul (f64_of_int (live_requests name (bs_requests s))) (erb_Ratio policy))) in
  exists lease m ev, TryAcquireRetry (bs_manager s) r = Some (lease, m, ev) /\
    (is_Some lease <->
       rbr_ended r = false /\
       (erb_Disabled policy = true \/ live_retries name (bs_leases s) < allowed)) /\
    (is_Some lease -> erb_Disabled policy = false ->
       exists st, rbm_models m !! name = Some st /\ rbs_activeRetries st <= allowed) /\
    (lease = None -> m = bs_manager s).
Proof.
  intros I%budget_reach_inv Hr name policy allowed.
  pose proof (live_request_counters _ _ _ I Hr) as Hst. fold name in Hst.
  destruct (rbr_ended r) eqn:He.
  { unfold TryAcquireRetry. rewrite He. eexists _, _, _. split; [done|].
    split; [split; [by intros [? ?]|by intros [? ?]]|]. split; [by intros [? ?]|done]. }
  rewrite (TryAcquireRetry_spec _ _ _ Hst He). simpl.
  assert (Ea : allowedRetryConcurrency (live_requests name (bs_requests s)) policy = allowed).
  { unfold allowedRetryConcurrency, allowed. destruct (Z.ltb_spec
      (f64_ceil_int (f64_mul (f64_of_int (live_requests name (bs_requests s))) (erb_Ratio policy)))
      (erb_MinConcurrency policy)); lia. }
  fold policy. rewrite Ea. destruct (erb_Disabled policy); simpl.
  - eexists _, _, _. split; [done|]. split; [|by split]. split; eauto.
  - destruct (Z.ltb_spec (live_retries name (bs_leases s)) allowed).
    + eexists _, _, _. split; [done|]. split; [split; eauto|]. split; [|done].
      intros _ _. fold name; simpl; rewrite lookup_insert_eq. eexists. split; [done|]. simpl. lia.
    + eexists _, _, _. split; [done|]. split; [|split; [by intros [? ?]|done]].
      split; [by intros [? ?]|]. intros [_ [?|?]]; [done|lia].
Qed.

(** Under a validated retry policy a model with no retry in flight never
    starves: any live request is granted its retry. *)
Theorem first_retry_granted observed s id r p :
  budget_reach observed s -> bs_requests s !! id = Some r -> rbr_ended r = false ->
  RetryPolicy_Validate p = None -> rbr_policy r = erp_Budget (RetryPolicy_Effective p) ->
  live_retries (rbr_virtualModel r) (bs_leases s) = 0 ->
  exists l m ev, TryAcquireRetry (bs_manager s) r = Some (Some l, m, ev) /\
    BudgetStatus m (rbr_virtualModel r) =
      Some (mkRetryBudgetStatus (rbr_virtualModel r)
              (live_requests (rbr_virtualModel r) (bs_requests s)) 1).
Proof.
  intros I%budget_reach_inv Hr He Hv Hp H0.
  rewrite (TryAcquireRetry_spec _ _ _ (live_request_counters _ _ _ I Hr) He). simpl.
  rewrite H0. destruct (retry_validate_ok _ Hv) as [_ _ _ Hmin]. rewrite <- Hp in Hmin.
  assert (Ha : 0 < allowedRetryConcurrency (live_requests (rbr_virtualModel r) (bs_requests s))
                     (rbr_policy r)).
  { unfold allowedRetryConcurrency. destruct (Z.ltb_spec
      (f64_ceil_int (f64_mul (f64_of_int (live_requests (rbr_virtualModel r) (bs_requests s)))
         (erb_Ratio (rbr_policy r)))) (erb_MinConcurrency (rbr_policy r))); lia. }
  apply Z.ltb_lt in Ha. rewrite Ha, orb_true_r. eexists _, _, _. split; [done|].
  unfold BudgetStatus. simpl. by rewrite lookup_insert_eq.
Qed.

(** Ending a request and releasing a retry never panic and take effect
    exactly once, whatever else runs in between: a second [End] changes
    nothing, a second [Release] fails its swap, and each first one takes one
    unit off its own model's counter. *)
Theorem budget_released_once observed s :
  budget_reach observed s ->
  (forall id r, bs_requests s !! id = Some r ->
     exists m r', EndRequest (bs_manager s) r = Some (m, r') /\ EndRequest m r' = Some (m, r') /\
       forall name, rbs_activeRequests (counters m name) =
         rbs_activeRequests (counters (bs_manager s) name) -
         (if String.eqb (rbr_virtualModel r) name && negb (rbr_ended r) then 1 else 0)) /\
  (forall lid l p, bs_leases s !! lid = Some (l, p) ->
     (is_Some (claim_release l) <-> p = Retrying) /\
     (p = Releasing -> exists m ev, finish_release (bs_manager s) l = Some (m, ev) /\
        forall name, rbs_activeRetries (counters m name) =
          rbs_activeRetries (counters (bs_manager s) name) -
          (if String.eqb (rbl_virtualModel l) name then 1 else 0))).
Proof.
  intros I%budget_reach_inv. split.
  - intros id r Hr. destruct (end_inv _ _ _ I Hr) as (m & r' & E & He & I').
    exists m, r'. split; [done|]. split; [unfold EndRequest; by rewrite He|].
    intros name. pose proof (bi_counters _ I' name) as Ec. simpl in Ec.
    rewrite Ec, (bi_counters _ I). cbn [rbs_activeRequests]. unfold live_requests.
    rewrite (count_map_update _ _ _ _ _ Hr). rewrite !live_spec, He, andb_false_r. lia.
  - intros lid l p Hl. destruct (bi_lease _ I _ _ _ Hl) as [_ Hrel]. split.
    + unfold claim_release. rewrite Hrel. destruct p; split; try done; eauto; by intros [? ?].
    + intros ->. destruct (release_inv _ _ _ I Hl) as (m & ev & E & I'). exists m, ev.
      split; [done|]. intros name. pose proof (bi_counters _ I' name) as Ec. simpl in Ec.
      rewrite Ec, (bi_counters _ I). cbn [rbs_activeRetries]. unfold live_retries.
      rewrite (count_map_update _ _ _ _ _ Hl), !retrying_spec. simpl.
      rewrite andb_true_r, andb_false_r. lia.
Qed.

(** ** Witnesses: one request of the model ["m"] under the default policy. *)
Definition default_budget : EffectiveRetryBudgetPolicy :=
  erp_Budget (RetryPolicy_Effective zeroRetryPolicy).
Definition budget_one : budget_sys :=
  let '(m, r) := BeginRequest (NewRetryBudgetManager true) "m" default_budget in
  mkBudgetSys m {[ 1%nat := r ]} ∅ [].
Definition one_request : retryBudgetRequest := mkRetryBudgetRequest "m" default_budget false.

Lemma reach_budget_one : budget_reach true budget_one.
Proof. eapply rtc_l; [|apply rtc_refl]. eapply (budget_begin (budget_start true) 1); reflexivity. Qed.

Lemma budget_accounting_witness :
  default (mkRetryBudgetStatus "m" 0 0) (BudgetStatus (bs_manager budget_one) "m") =
    mkRetryBudgetStatus "m" 1 0.
Proof.
  destruct (budget_accounting true budget_one "m" reach_budget_one) as [E _].
  rewrite E. vm_compute. reflexivity.
Defined.

Lemma retry_grant_rule_witness :
  exists lease m ev, TryAcquireRetry (bs_manager budget_one) one_request = Some (lease, m, ev) /\
    is_Some lease.
Proof.
  destruct (retry_grant_rule true budget_one 1 one_request reach_budget_one eq_refl)
    as (lease & m & ev & E & Hl & _).
  exists lease, m, ev. split; [exact E|]. apply Hl. split; [reflexivity|]. right.
  vm_compute. reflexivity.
Defined.

Lemma first_retry_granted_witness :
  exists l m ev, TryAcquireRetry (bs_manager budget_one) one_request = Some (Some l, m, ev) /\
    BudgetStatus m "m" = Some (mkRetryBudgetStatus "m" 1 1).
Proof.
  apply (first_retry_granted true budget_one 1 one_request zeroRetryPolicy reach_budget_one);
    vm_compute; reflexivity.
Defined.

Lemma budget_released_once_witness :
  exists m r', EndRequest (bs_manager budget_one) one_request = Some (m, r') /\
    EndRequest m r' = Some (m, r') /\ rbs_activeRequests (counters m "m") = 0.
Proof.
  destruct (budget_released_once true budget_one reach_budget_one) as [He _].
  destruct (He 1%nat one_request eq_refl) as (m & r' & E1 & E2 & Hc).
  exists m, r'. split; [exact E1|]. split; [exact E2|]. rewrite Hc. vm_compute. reflexivity.
Defined.
