(* ===== verification/Retry.v ===== *)
(** * Retry reservation ([pkg/gateway/retry.go])

    The delay before a retry (capped exponential backoff with full jitter, and
    the upstream's [Retry-After]) and the reservation of a retry against the
    request's deadline and the retry budget.  [http.ParseTime] is a parameter;
    a clock reading is an argument, one per call of [time.Now] or
    [time.Until]. *)

From stdpp Require Import base gmap list strings sorting.
From Stdlib Require Import ZArith Lia.
From S2P Require Import Prelude GoStrings Policies Capabilities Config Picker Fixtures RetryBudget.

Local Open Scope Z_scope.

(** [http.ParseTime]. *)
Class HttpTime := http_ParseTime : string -> option Z.

Inductive retryStopReason :=
  | retryAllowed
  | retryPolicyDisabled
  | retryBudgetDenied
  | retryDeadline.

Record retryReservation := mkRetryReservation {
  rr_lease : retryBudgetLease;
  rr_delay : Z;
  rr_reason : string;
}.

Section Retry.
Context `{UnicodeTables} `{HttpTime}.

Definition maxSeconds : Z := Z.quot MaxInt64 Second.

(** [parseRetryAfter]: [None] is [valid == false]. *)
Definition parseRetryAfter (value : string) (now : Z) : option Z :=
  let value := TrimSpace value in
  if String.eqb value "" then None
  else
    match ParseInt value with
    | Some seconds =>
        if (seconds <? 0) || (maxSeconds <? seconds) then None
        else Some (int64 (seconds * Second))
    | None =>
        match http_ParseTime value with
        | None => None
        | Some when =>
            let delay := time_Sub when now in
            Some (if delay <? 0 then 0 else delay)
        end
    end.

(** The exponential part of [retryDelay]. *)
Definition retry_backoff (policy : EffectiveRetryPolicy) (retryNumber : Z) : Z :=
  let retryNumber := if retryNumber <? 1 then 1 else retryNumber in
  doubling_loop (Z.to_nat (retryNumber - 1)) (erp_BaseBackoff policy) (erp_MaxBackoff policy).

Context {W : Type} `{Entropy W}.

(** [retryDelay]; a nil picker is [None]. *)
Definition retryDelay (policy : EffectiveRetryPolicy) (retryNumber : Z) (retryAfter : string)
    (now : Z) (picker : option (WeightedPicker W)) : M W string Z :=
  let backoff := retry_backoff policy retryNumber in
  let picker := match picker with Some p => p | None => CryptoPicker end in
  let jitterLimit := int64 (backoff + 1) in
  jitter ← picker jitterLimit;
  let delay := jitter in
  mret (match parseRetryAfter retryAfter now with
        | Some upstreamDelay =>
            let upstreamDelay :=
              if erp_MaxRetryAfter policy <? upstreamDelay then erp_MaxRetryAfter policy
              else upstreamDelay in
            if delay <? upstreamDelay then upstreamDelay else delay
        | None => delay
        end).

(** What [reserveRetry] returns: the reservation, the stop reason and the
    error, with the world, the budget manager and its events after the call. *)
Record reservation := mkReservation {
  res_reservation : option retryReservation;
  res_stop : retryStopReason;
  res_error : option string;
  res_world : W;
  res_manager : RetryBudgetManager;
  res_events : list RetryBudgetEvent;
}.

(** [reserveRetry]: [deadline] is [ctx.Deadline()], [now] and [later] the two
    clock readings.  [None] is a panic of [TryAcquireRetry]. *)
Definition reserveRetry (deadline : option Z) (now later : Z) (m : RetryBudgetManager)
    (request : retryBudgetRequest) (policy : EffectiveRetryPolicy) (retryNumber : Z)
    (retryAfter reason : string) (picker : option (WeightedPicker W)) (w : W)
  : option reservation :=
  if erp_Disabled policy then Some (mkReservation None retryPolicyDisabled None w m [])
  else
    match retryDelay policy retryNumber retryAfter now picker w with
    | (inl err, w) => Some (mkReservation None retryPolicyDisabled (Some err) w m [])
    | (inr delay, w) =>
        let exhausted :=
          match deadline with
          | Some deadline =>
              let remaining := time_Sub deadline later in
              (remaining <=? 0) || (remaining <=? delay)
          | None => false
          end in
        if exhausted then Some (mkReservation None retryDeadline None w m [])
        else
          '(lease, m, events) ← TryAcquireRetry m request;
          match lease with
          | None => Some (mkReservation None retryBudgetDenied None w m events)
          | Some lease =>
              Some (mkReservation (Some (mkRetryReservation lease delay reason)) retryAllowed None
                      w m events)
          end
    end.
End Retry.

(** ** Lemmas *)
Section Lemmas.
Context `{UnicodeTables} `{HttpTime}.

Lemma parseRetryAfter_range value now d :
  parseRetryAfter value now = Some d -> 0 <= d <= MaxInt64.
Proof.
  unfold parseRetryAfter. destruct (String.eqb _ _); [done|].
  destruct (ParseInt _) as [seconds|].
  - destruct (_ || _) eqn:E; [done|]. intros [= <-]. prop_tests.
    change maxSeconds with 9223372036 in *. unfold MaxInt64, Second.
    rewrite int64_id by (unfold is_int64, MinInt64, MaxInt64; lia). lia.
  - destruct (http_ParseTime _); [|done]. intros [= <-]. unfold time_Sub.
    unfold MinInt64, MaxInt64. destruct_tests; lia.
Qed.

Lemma retry_backoff_exact policy n :
  retry_ok policy ->
  retry_backoff policy n =
    Z.min (erp_MaxBackoff policy) (erp_BaseBackoff policy * 2 ^ (Z.max n 1 - 1)).
Proof.
  intros [Hb Hm _ _]. unfold retry_backoff.
  unfold maxConfiguredTimeout, Hour, Minute, Second in Hm.
  rewrite doubling_loop_spec by (unfold MaxInt64; lia). do 3 f_equal.
  destruct (Z.ltb_spec n 1); lia.
Qed.

Lemma retry_backoff_range policy n :
  retry_ok policy -> erp_BaseBackoff policy <= retry_backoff policy n <= erp_MaxBackoff policy.
Proof.
  intros Hp. rewrite retry_backoff_exact by done. destruct Hp as [Hb _ _ _].
  pose proof (Z.pow_pos_nonneg 2 (Z.max n 1 - 1)). nia.
Qed.
End Lemmas.

(** ** Claims *)
Section Claims.
Context `{UnicodeTables} `{HttpTime} {W : Type} `{Entropy W}.

(** Under a validated policy and a picker that keeps its contract, the
    jitter is drawn from exactly [0 .. min(max_backoff, base_backoff * 2^(n-1))]
    (the limit [backoff + 1] passed to the picker does not overflow), and the
    delay is the larger of the jitter and the upstream's [Retry-After], itself
    capped by [max_retry_after]; so the delay is never negative and never
    exceeds the larger of the two caps. *)
Theorem retry_delay_bounds policy n after now (picker : WeightedPicker W) w d w' :
  RetryPolicy_Validate policy = None -> picker_ok picker ->
  retryDelay (RetryPolicy_Effective policy) n after now (Some picker) w = (inr d, w') ->
  let p := RetryPolicy_Effective policy in
  let ceiling := Z.min (erp_MaxBackoff p) (erp_BaseBackoff p * 2 ^ (Z.max n 1 - 1)) in
  exists jitter,
    picker (ceiling + 1) w = (inr jitter, w') /\ 0 <= jitter <= ceiling /\
    d = Z.max jitter (match parseRetryAfter after now with
                      | Some upstream => Z.min upstream (erp_MaxRetryAfter p)
                      | None => 0
                      end) /\
    0 <= d <= Z.max (erp_MaxBackoff p) (erp_MaxRetryAfter p).
Proof.
  intros Hv%retry_validate_ok Hpick Hrun p ceiling. fold p in Hrun, Hv.
  unfold retryDelay in Hrun. rewrite retry_backoff_exact in Hrun by done. fold ceiling in Hrun.
  destruct (Hv) as [Hb Hm Ha _]. unfold maxConfiguredTimeout, Hour, Minute, Second in Hm, Ha.
  assert (Hc : 0 < ceiling <= erp_MaxBackoff p).
  { unfold ceiling. pose proof (Z.pow_pos_nonneg 2 (Z.max n 1 - 1)). nia. }
  rewrite int64_id in Hrun by (unfold is_int64, MinInt64, MaxInt64; lia).
  apply bind_inr in Hrun as (jitter & w1 & Hj & Hd). unfold mret, M_ret in Hd. simplify_eq.
  pose proof (Hpick _ _ _ _ Hj). exists jitter. split; [done|]. split; [lia|].
  destruct (parseRetryAfter after now) as [u|] eqn:Hu.
  - pose proof (parseRetryAfter_range _ _ _ Hu). clearbody ceiling. destruct (Z.ltb_spec (erp_MaxRetryAfter p) u); destruct_tests; lia.
  - clearbody ceiling. lia.
Qed.

(** [Retry-After] in seconds is honoured exactly: a decimal count that
    fits a duration becomes that many seconds with no overflow, and a negative
    or larger count is ignored; a date becomes the time left, never negative.
    The result always fits a duration. *)
Theorem retry_after_exact value now :
  let text := TrimSpace value in
  (forall seconds, text <> ""%string -> ParseInt text = Some seconds ->
     parseRetryAfter value now =
       if (0 <=? seconds) && (seconds * Second <=? MaxInt64) then Some (seconds * Second) else None) /\
  (forall when, text <> ""%string -> ParseInt text = None -> http_ParseTime text = Some when ->
     parseRetryAfter value now = Some (Z.min MaxInt64 (Z.max 0 (when - now)))) /\
  (forall d, parseRetryAfter value now = Some d -> 0 <= d <= MaxInt64).
Proof.
  intros text. split_and!; [| |apply parseRetryAfter_range].
  - intros seconds Ht%String.eqb_neq Hp. unfold parseRetryAfter. fold text. rewrite Ht, Hp.
    change maxSeconds with 9223372036. unfold Second, MaxInt64. destruct_tests; simpl; try done; try lia.
    rewrite int64_id by (unfold is_int64, MinInt64, MaxInt64; lia). done.
  - intros when Ht%String.eqb_neq Hp Hw. unfold parseRetryAfter. fold text. rewrite Ht, Hp, Hw.
    unfold time_Sub. f_equal. unfold MinInt64, MaxInt64. destruct_tests; lia.
Qed.

(** A retry is reserved only when the policy allows retries, a delay was
    drawn, the delay ends strictly before the deadline and the budget grants a
    lease; on every other path the budget is left as it was. *)
Theorem reserve_retry_sound deadline now later m request policy n after reason picker (w : W) res :
  reserveRetry deadline now later m request policy n after reason picker w = Some res ->
  match res_reservation res with
  | Some r =>
      erp_Disabled policy = false /\ res_stop res = retryAllowed /\ res_error res = None /\
      retryDelay policy n after now picker w = (inr (rr_delay r), res_world res) /\
      (forall d, deadline = Some d -> later + rr_delay r < d) /\
      TryAcquireRetry m request = Some (Some (rr_lease r), res_manager res, res_events res)
  | None =>
      res_stop res <> retryAllowed /\ res_manager res = m /\
      (res_error res <> None -> exists e, retryDelay policy n after now picker w = (inl e, res_world res))
  end.
Proof.
  unfold reserveRetry. destruct (erp_Disabled policy) eqn:Hd; [by intros [= <-]|].
  destruct (retryDelay policy n after now picker w) as [[e|delay] w1] eqn:Hr.
  { intros [= <-]. simpl. split_and!; [done..|eauto]. }
  destruct (match deadline with Some _ => _ | None => false end) eqn:He; [by intros [= <-]|].
  intros Hb. apply bind_Some in Hb as ([[lease m1] ev] & Ht & Hres).
  destruct lease as [l|]; injection Hres as <-; simpl.
  - split_and!; try done. intros d ->. cbv zeta in He. prop_tests. unfold time_Sub, MinInt64, MaxInt64 in *. lia.
  - split_and!; try done. revert Ht. unfold TryAcquireRetry.
    destruct (rbr_ended request); [intros; by simplify_eq|].
    destruct (rbm_models m !! _); simpl; [|done]. destruct (_ && _); [intros; by simplify_eq|done].
Qed.
End Claims.

(** ** Witnesses *)
Section Witnesses.
#[local] Existing Instance plain_tables.
#[local] Instance no_dates : HttpTime := fun _ => None.

#[local] Existing Instance last_entropy.

(** The third retry of the default policy waits up to 400 ms. *)
Lemma retry_delay_bounds_witness :
  exists jitter, last_picker (400 * Millisecond + 1) tt = (inr jitter, tt) /\
    retryDelay (RetryPolicy_Effective zeroRetryPolicy) 3 "7" 0 (Some last_picker) tt
      = (inr (7 * Second), tt) /\ 7 * Second = Z.max jitter (7 * Second).
Proof.
  destruct (retry_delay_bounds zeroRetryPolicy 3 "7" 0 last_picker tt (7 * Second) tt)
    as (jitter & Hj & _ & Hd & _); [vm_compute; reflexivity|apply last_picker_ok|vm_compute; reflexivity|].
  exists jitter. split; [exact Hj|]. split; [vm_compute; reflexivity|]. exact Hd.
Defined.

Lemma retry_after_exact_witness :
  parseRetryAfter " 120 " 0 = Some (120 * Second) /\ parseRetryAfter "-1" 0 = None.
Proof.
  split.
  - destruct (retry_after_exact " 120 " 0) as [E _].
    rewrite (E 120); [vm_compute; reflexivity|vm_compute; discriminate|vm_compute; reflexivity].
  - destruct (retry_after_exact "-1" 0) as [E _].
    rewrite (E (-1)); [vm_compute; reflexivity|vm_compute; discriminate|vm_compute; reflexivity].
Defined.

(** A reservation 400 ms before a deadline one second away. *)
Definition waiting_budget : RetryBudgetManager * retryBudgetRequest :=
  BeginRequest (NewRetryBudgetManager false) "m" (erp_Budget (RetryPolicy_Effective zeroRetryPolicy)).

Lemma reserve_retry_sound_witness :
  exists res r,
    reserveRetry (Some Second) 0 0 waiting_budget.1 waiting_budget.2
      (RetryPolicy_Effective zeroRetryPolicy) 3 "" "timeout" (Some last_picker) tt = Some res /\
    res_reservation res = Some r /\ 0 + rr_delay r < Second.
Proof.
  destruct (reserveRetry (Some Second) 0 0 waiting_budget.1 waiting_budget.2
      (RetryPolicy_Effective zeroRetryPolicy) 3 "" "timeout" (Some last_picker) tt)
    as [res|] eqn:E; [|vm_compute in E; discriminate].
  pose proof (reserve_retry_sound _ _ _ _ _ _ _ _ _ _ _ res E) as Hs.
  destruct (res_reservation res) as [r|] eqn:Er.
  - exists res, r. split; [reflexivity|]. split; [exact Er|].
    destruct Hs as (_ & _ & _ & _ & Hd & _). exact (Hd Second eq_refl).
  - exfalso. vm_compute in E. injection E as <-. discriminate Er.
Defined.
End Witnesses.
