(* ===== verification/Plan.v ===== *)
(** * Routing snapshots and plans ([pkg/routing/snapshot.go])

    The immutable snapshot of a document, the lookups on it, and the
    construction of a request's plan: filtering, preference classes, weighted
    or rendezvous order, readiness, provider priority.  The copies that the
    source makes of maps and slices are the same values here.  Calls that read
    or change the outside (eligibility, readiness, the picker) thread a world
    [W]. *)

From stdpp Require Import base gmap list strings sorting.
From Stdlib Require Import ZArith Lia.
From S2P Require Import Prelude GoStrings Policies Capabilities Config Picker.

Local Open Scope Z_scope.

(** ** Snapshots *)
Record Snapshot := mkSnapshot {
  sn_aliases : gmap string string;
  sn_models : gmap string VirtualModel;
  sn_deployments : gmap string Deployment;
  sn_providers : gmap string Provider;
}.

(** The part of [Compile] after validation: every slice becomes a map. *)
Definition snapshot_of (document : Document) : Snapshot :=
  {| sn_providers := foldl (fun m p => <[prov_Name p := p]> m) ∅ (doc_Providers document);
     sn_deployments := foldl (fun m d => <[dep_Name d := d]> m) ∅ (doc_Deployments document);
     sn_models := foldl (fun m v => <[vm_Name v := v]> m) ∅ (doc_VirtualModels document);
     sn_aliases :=
       foldl (fun m v =>
                foldl (fun m alias => <[alias := vm_Name v]> m) (<[vm_Name v := vm_Name v]> m)
                  (vm_Aliases v))
         ∅ (doc_VirtualModels document) |}.

(** ** Plans *)
Record ProtocolRoute := mkProtocolRoute {
  pr_Protocol : string;
  pr_Native : bool;
  pr_RequiredCapabilities : list Capability;
}.

Definition ProtocolResolver : Type := Provider -> Deployment -> ProtocolRoute * bool.

Record Selection := mkSelection {
  sel_RequestedModel : string;
  sel_VirtualModel : string;
  sel_Provider : Provider;
  sel_Deployment : Deployment;
  sel_UpstreamProtocol : string;
  sel_NativeProtocol : bool;
  sel_PoolPriority : Z;
  sel_Running : bool;
  sel_PreferenceClass : Z;
  sel_ProviderPreference : Z;
  sel_Weight : Z;
  sel_ResponseModel : string;
}.

Record Plan := mkPlan {
  plan_RequestedModel : string;
  plan_VirtualModel : string;
  plan_RequiredCapabilities : list Capability;
  plan_MaxAttempts : Z;
  plan_Limits : EffectiveModelLimits;
  plan_Retry : EffectiveRetryPolicy;
  plan_Guardrails : GuardrailPolicy;
  plan_ProviderPriority : list string;
  plan_Candidates : list Selection;
}.

Inductive PlanError :=
  | ErrModelNotFound (requested : string)
  | ErrNoTargets (canonical : string)
  | ErrUnsupportedCapabilities (required : list Capability)
  | ErrUnsupportedSemantics
  | ErrWeightOverflow (priority : Z)
  | ErrPicker (err : string)
  | ErrPickerRange (value total : Z).

Definition set_Running (b : bool) (c : Selection) : Selection :=
  {| sel_RequestedModel := sel_RequestedModel c; sel_VirtualModel := sel_VirtualModel c;
     sel_Provider := sel_Provider c; sel_Deployment := sel_Deployment c;
     sel_UpstreamProtocol := sel_UpstreamProtocol c; sel_NativeProtocol := sel_NativeProtocol c;
     sel_PoolPriority := sel_PoolPriority c; sel_Running := b;
     sel_PreferenceClass := sel_PreferenceClass c;
     sel_ProviderPreference := sel_ProviderPreference c; sel_Weight := sel_Weight c;
     sel_ResponseModel := sel_ResponseModel c |}.

Definition set_ProviderPreference (rank : Z) (c : Selection) : Selection :=
  {| sel_RequestedModel := sel_RequestedModel c; sel_VirtualModel := sel_VirtualModel c;
     sel_Provider := sel_Provider c; sel_Deployment := sel_Deployment c;
     sel_UpstreamProtocol := sel_UpstreamProtocol c; sel_NativeProtocol := sel_NativeProtocol c;
     sel_PoolPriority := sel_PoolPriority c; sel_Running := sel_Running c;
     sel_PreferenceClass := sel_PreferenceClass c;
     sel_ProviderPreference := rank; sel_Weight := sel_Weight c;
     sel_ResponseModel := sel_ResponseModel c |}.

(** [PlanOptions]; a nil function or interface is [None]. *)
Record PlanOptions (W : Type) := mkPlanOptions {
  po_RequiredCapabilities : list Capability;
  po_AllowedProviderTypes : list string;
  po_Compatibility : option (string -> bool);
  po_ProtocolResolver : option ProtocolResolver;
  po_PinnedDeployment : string;
  po_PinnedProvider : string;
  po_SingleAttempt : bool;
  po_Eligibility : option (string -> W -> bool * W);
  po_Ready : option (string -> W -> bool * W);
  po_Picker : option (WeightedPicker W);
  po_SelectionKey : string;
  po_ProviderPriority : list string;
  po_AllowInternal : bool;
}.

Arguments po_RequiredCapabilities {W}.
Arguments po_AllowedProviderTypes {W}.
Arguments po_Compatibility {W}.
Arguments po_ProtocolResolver {W}.
Arguments po_PinnedDeployment {W}.
Arguments po_PinnedProvider {W}.
Arguments po_SingleAttempt {W}.
Arguments po_Eligibility {W}.
Arguments po_Ready {W}.
Arguments po_Picker {W}.
Arguments po_SelectionKey {W}.
Arguments po_ProviderPriority {W}.
Arguments po_AllowInternal {W}.

(** ** Lookups *)

(** [mergeCapabilities] of two groups: the sorted union. *)
Definition mergeCapabilities (a b : list Capability) : list Capability :=
  sort_Strings (remove_dups (a ++ b)).

Definition providerTypeAllowed (providerType : string) (allowed : list string) : bool :=
  match allowed with [] => true | _ => mem providerType allowed end.

Definition effectiveResponseModel (mode : string) : string :=
  if String.eqb mode "" then ResponseModelVirtual else mode.

Definition is_internal (model : VirtualModel) : bool :=
  String.eqb (ModelVisibility_Effective (vm_Visibility model)) ModelVisibilityInternal.

Definition ResolveModel (s : Snapshot) (requested : string) (allowInternal : bool)
  : PlanError + VirtualModel :=
  match sn_aliases s !! requested with
  | None => inl (ErrModelNotFound requested)
  | Some canonical =>
      let model := default zeroVirtualModel (sn_models s !! canonical) in
      if is_internal model && negb allowInternal then inl (ErrModelNotFound requested)
      else inr model
  end.

(** The method [modelSupportsCapabilities]. *)
Definition modelSupportsCapabilities (s : Snapshot) (model : VirtualModel)
    (required : list Capability) : bool :=
  let modelRequired := mergeCapabilities (vm_RequiredCapabilities model) required in
  existsb (fun pool =>
    existsb (fun target =>
      match sn_deployments s !! wt_Deployment target with
      | Some deployment =>
          negb (bool_decide (Deployment_MatchCapabilities deployment modelRequired
                             = CapabilityMatchRejected))
      | None => false
      end) (pool_Targets pool)) (vm_Pools model).

(** The method [ModelSupportsCapabilities]. *)
Definition NamedModelSupportsCapabilities (s : Snapshot) (name : string)
    (required : list Capability) (allowInternal : bool) : bool :=
  match sn_models s !! name with
  | None => false
  | Some model =>
      if is_internal model && negb allowInternal then false
      else modelSupportsCapabilities s model required
  end.

Definition ModelCandidatesForCapabilities (s : Snapshot) (required : list Capability)
    (allowInternal : bool) : list VirtualModel :=
  let models :=
    List.filter (fun model =>
        if is_internal model && negb allowInternal then false
        else modelSupportsCapabilities s model required)
      (map_to_list (sn_models s)).*2 in
  stable_sort (fun x y => String.ltb (vm_Name x) (vm_Name y)) models.

Definition ModelCandidates (s : Snapshot) (allowInternal : bool) : list VirtualModel :=
  ModelCandidatesForCapabilities s [] allowInternal.

(** The nested search of [HasTargetProviderType] and [HasTargetNativeProtocol]. *)
Definition has_target (s : Snapshot) (model : VirtualModel) (P : Deployment -> Provider -> bool)
  : bool :=
  existsb (fun pool =>
    existsb (fun target =>
      match sn_deployments s !! wt_Deployment target with
      | Some deployment =>
          match sn_providers s !! dep_Provider deployment with
          | Some provider => P deployment provider
          | None => false
          end
      | None => false
      end) (pool_Targets pool)) (vm_Pools model).

Definition HasTargetProviderType (s : Snapshot) (requested : string) (allowed : list string)
    (allowInternal : bool) : PlanError + bool :=
  match ResolveModel s requested allowInternal with
  | inl err => inl err
  | inr model =>
      inr (has_target s model (fun _ provider => providerTypeAllowed (prov_Type provider) allowed))
  end.

Definition HasTargetNativeProtocol (s : Snapshot) (requested protocol : string)
    (allowInternal : bool) : PlanError + bool :=
  match ResolveModel s requested allowInternal with
  | inl err => inl err
  | inr model =>
      inr (has_target s model (fun deployment provider =>
                                 SupportsNativeProtocol deployment provider protocol))
  end.

(** ** The attempt order of a plan *)
Record eligibleTarget := mkEligibleTarget {
  et_target : WeightedTarget;
  et_route : ProtocolRoute;
}.

(** The counters that explain an empty plan. *)
Record planCounters := mkPlanCounters {
  pc_protocolTargets : Z;
  pc_compatibleTargets : Z;
  pc_capableTargets : Z;
}.

(** The four preference groups of one pool. *)
Record planGroups := mkPlanGroups {
  pg_nativeDeclared : list eligibleTarget;
  pg_nativeUnknown : list eligibleTarget;
  pg_translatedDeclared : list eligibleTarget;
  pg_translatedUnknown : list eligibleTarget;
}.

Definition noGroups : planGroups := mkPlanGroups [] [] [] [].

Definition add_eligible (g : planGroups) (native : bool) (m : CapabilityMatch) (e : eligibleTarget)
  : planGroups :=
  let '(mkPlanGroups nd nu td tu) := g in
  let declared := bool_decide (m = CapabilityMatchDeclared) in
  if native && declared then mkPlanGroups (nd ++ [e]) nu td tu
  else if native then mkPlanGroups nd (nu ++ [e]) td tu
  else if declared then mkPlanGroups nd nu (td ++ [e]) tu
  else mkPlanGroups nd nu td (tu ++ [e]).

Definition pg_groups (g : planGroups) : list (list eligibleTarget) :=
  [pg_nativeDeclared g; pg_nativeUnknown g; pg_translatedDeclared g; pg_translatedUnknown g].

(** [totalWeight]; [None] is the overflow error. *)
Fixpoint total_weight (totalWeight : Z) (remaining : list eligibleTarget) : option Z :=
  match remaining with
  | [] => Some totalWeight
  | e :: rest =>
      let weight := wt_Weight (et_target e) in
      if int64 (MaxInt64 - totalWeight) <? weight then None
      else total_weight (int64 (totalWeight + weight)) rest
  end.

(** The index at which the running sum of weights first exceeds [value]. *)
Fixpoint pick_index (value boundary : Z) (candidateIndex : nat) (remaining : list eligibleTarget)
  : nat :=
  match remaining with
  | [] => 0
  | e :: rest =>
      let boundary := int64 (boundary + wt_Weight (et_target e)) in
      if value <? boundary then candidateIndex
      else pick_index value boundary (S candidateIndex) rest
  end.

Section Build.
Context `{UnicodeTables} `{MathLog} {W : Type} `{Entropy W}.

Definition ask (f : option (string -> W -> bool * W)) (name : string) : M W PlanError bool :=
  match f with None => mret true | Some f => act (f name) end.

(** [route] before a protocol resolver replaces it. *)
Definition native_route (deployment : Deployment) (provider : Provider) : ProtocolRoute :=
  {| pr_Protocol := match EffectiveNativeProtocols deployment provider with
                    | [] => ""%string
                    | protocol :: _ => protocol
                    end;
     pr_Native := true;
     pr_RequiredCapabilities := [] |}.

(** The body of the loop over the targets of a pool: the counters and groups
    after one target. *)
Definition scan_target (s : Snapshot) (options : PlanOptions W) (required : list Capability)
    (acc : planCounters * planGroups) (target : WeightedTarget)
  : M W PlanError (planCounters * planGroups) :=
  let '(counters, groups) := acc in
  if negb (String.eqb (po_PinnedDeployment options) "") &&
     negb (String.eqb (wt_Deployment target) (po_PinnedDeployment options)) then mret acc
  else
    match sn_deployments s !! wt_Deployment target with
    | None => mret acc
    | Some deployment =>
        if negb (String.eqb (po_PinnedProvider options) "") &&
           negb (String.eqb (dep_Provider deployment) (po_PinnedProvider options)) then mret acc
        else
          match sn_providers s !! dep_Provider deployment with
          | None => mret acc
          | Some provider =>
              if negb (providerTypeAllowed (prov_Type provider) (po_AllowedProviderTypes options))
              then mret acc
              else
                let counters := mkPlanCounters (pc_protocolTargets counters + 1)
                                  (pc_compatibleTargets counters) (pc_capableTargets counters) in
                let route := native_route deployment provider in
                let '(route, compatible) :=
                  match po_ProtocolResolver options with
                  | Some resolver =>
                      let '(route, compatible) := resolver provider deployment in
                      (route, compatible && negb (String.eqb (pr_Protocol route) ""))
                  | None =>
                      match po_Compatibility options with
                      | Some compatibility => (route, compatibility (prov_Type provider))
                      | None => (route, true)
                      end
                  end in
                if negb compatible then mret (counters, groups)
                else
                  let counters := mkPlanCounters (pc_protocolTargets counters)
                                    (pc_compatibleTargets counters + 1)
                                    (pc_capableTargets counters) in
                  let routeRequired :=
                    match pr_RequiredCapabilities route with
                    | [] => required
                    | extra => required ++ extra
                    end in
                  let capabilityMatch := Deployment_MatchCapabilities deployment routeRequired in
                  if bool_decide (capabilityMatch = CapabilityMatchRejected) then
                    mret (counters, groups)
                  else
                    let counters := mkPlanCounters (pc_protocolTargets counters)
                                      (pc_compatibleTargets counters)
                                      (pc_capableTargets counters + 1) in
                    eligible ← ask (po_Eligibility options) (dep_Name deployment);
                    if negb eligible then mret (counters, groups)
                    else
                      mret (counters,
                            add_eligible groups (pr_Native route) capabilityMatch
                              (mkEligibleTarget target route))
          end
    end.

(** Whether the draws of a group are taken from the picker. *)
Definition draws_random (model : VirtualModel) (options : PlanOptions W) : bool :=
  String.eqb (po_PinnedDeployment options) "" &&
  (negb (String.eqb (sp_Mode (vm_Selection model)) SelectionWeightedHash) ||
   String.eqb (po_SelectionKey options) "").

Definition hash_group (model : VirtualModel) (options : PlanOptions W)
    (remaining : list eligibleTarget) : list eligibleTarget :=
  if String.eqb (sp_Mode (vm_Selection model)) SelectionWeightedHash &&
     negb (String.eqb (po_SelectionKey options) "") && (1 <? Z.of_nat (length remaining))
  then at_indices remaining
         (weightedHashOrder (po_SelectionKey options) (et_target <$> remaining))
  else remaining.

(** The value that selects the next target. *)
Definition draw_value (random : bool) (picker : WeightedPicker W) (totalWeight : Z)
  : M W PlanError Z :=
  if random then
    fun w =>
      match picker totalWeight w with
      | (inl err, w) => (inl (ErrPicker err), w)
      | (inr value, w) =>
          if (value <? 0) || (totalWeight <=? value) then (inl (ErrPickerRange value totalWeight), w)
          else (inr value, w)
      end
  else mret 0.

Definition selection_of (s : Snapshot) (requested : string) (model : VirtualModel) (priority : Z)
    (class : Z) (e : eligibleTarget) : option Selection :=
  deployment ← sn_deployments s !! wt_Deployment (et_target e);
  provider ← sn_providers s !! dep_Provider deployment;
  Some {| sel_RequestedModel := requested;
          sel_VirtualModel := vm_Name model;
          sel_Provider := provider;
          sel_Deployment := deployment;
          sel_UpstreamProtocol := pr_Protocol (et_route e);
          sel_NativeProtocol := pr_Native (et_route e);
          sel_PoolPriority := priority;
          sel_Running := false;
          sel_PreferenceClass := class;
          sel_ProviderPreference := 0;
          sel_Weight := wt_Weight (et_target e);
          sel_ResponseModel := effectiveResponseModel (vm_ResponseModel model) |}.

(** The loop that empties a group: each round draws one target, at most
    [fuel] rounds. *)
Fixpoint draw_group (fuel : nat) (random : bool) (picker : WeightedPicker W) (priority : Z)
    (remaining drawn : list eligibleTarget) : M W PlanError (list eligibleTarget) :=
  match fuel, remaining with
  | O, _ | _, [] => mret drawn
  | S fuel, _ =>
      match total_weight 0 remaining with
      | None => throw (ErrWeightOverflow priority)
      | Some totalWeight =>
          value ← draw_value random picker totalWeight;
          let index := pick_index value 0 0 remaining in
          match remaining !! index with
          | None => mret drawn
          | Some eligible =>
              draw_group fuel random picker priority (delete index remaining) (drawn ++ [eligible])
          end
      end
  end.

Definition nil_picker (options : PlanOptions W) : WeightedPicker W :=
  match po_Picker options with Some p => p | None => CryptoPicker end.

(** One group of a pool: its order, appended to the candidates with its class. *)
Definition plan_group (s : Snapshot) (requested : string) (model : VirtualModel)
    (options : PlanOptions W) (priority : Z) (acc : list Selection * Z)
    (group : list eligibleTarget) : M W PlanError (list Selection * Z) :=
  let '(candidates, class) := acc in
  let remaining := hash_group model options group in
  drawn ← draw_group (length remaining) (draws_random model options) (nil_picker options)
            priority remaining [];
  mret (candidates ++ omap (selection_of s requested model priority class) drawn, class + 1).

(** One pool: scan its targets, then order its four groups. *)
Definition plan_pool (s : Snapshot) (requested : string) (model : VirtualModel)
    (options : PlanOptions W) (required : list Capability)
    (acc : planCounters * (list Selection * Z)) (pool : RoutingPool)
  : M W PlanError (planCounters * (list Selection * Z)) :=
  let '(counters, ordered) := acc in
  '(counters, groups) ←
    for_each (scan_target s options required) (counters, noGroups) (pool_Targets pool);
  ordered ← for_each (plan_group s requested model options (pool_Priority pool)) ordered
              (pg_groups groups);
  mret (counters, ordered).

(** The stable partition by readiness. *)
Definition partition_ready (ready : string -> W -> bool * W) (candidates : list Selection)
  : M W PlanError (list Selection) :=
  '(running, remaining) ←
    for_each (fun acc candidate =>
        let '(running, remaining) := acc in
        b ← act (ready (dep_Name (sel_Deployment candidate)));
        let candidate := set_Running b candidate in
        mret (if (b : bool) then (running ++ [candidate], remaining)
              else (running, remaining ++ [candidate])))
      ([], []) candidates;
  mret (running ++ remaining).

(** *** Provider priority *)
Definition maxProviderPriorityEntries : nat := 64.
Definition maxProviderPriorityNameBytes : nat := 256.

(** The loop that builds [priority] and [ranks]. *)
Definition priority_step (acc : list string * gmap string Z) (raw : string)
  : list string * gmap string Z :=
  let '(priority, ranks) := acc in
  let name := TrimSpace raw in
  if String.eqb name "" || Nat.ltb maxProviderPriorityNameBytes (len name) then acc
  else
    let name := ToLower name in
    if bool_decide (is_Some (ranks !! name)) then acc
    else (priority ++ [name], <[name := Z.of_nat (length priority)]> ranks).

Definition priority_ranks (configured : list string) : list string * gmap string Z :=
  foldl priority_step ([], ∅) (take maxProviderPriorityEntries configured).

(** The candidates after [applyProviderPriority], and its result. *)
Definition applyProviderPriority (candidates : list Selection) (configured : list string)
  : list Selection * list string :=
  let '(priority, ranks) := priority_ranks configured in
  match priority with
  | [] => (candidates, [])
  | _ =>
      let unlisted := Z.of_nat (length priority) in
      let ranked :=
        (fun c => set_ProviderPreference
                    (default unlisted (ranks !! ToLower (prov_Name (sel_Provider c)))) c)
          <$> candidates in
      (stable_sort (fun x y => sel_ProviderPreference x <? sel_ProviderPreference y) ranked,
       priority)
  end.

(** *** The plan *)
Definition plan_error (canonical : string) (required : list Capability) (counters : planCounters)
  : PlanError :=
  if (0 <? pc_protocolTargets counters) && (pc_compatibleTargets counters =? 0) then
    ErrUnsupportedSemantics
  else if (0 <? pc_protocolTargets counters) && (pc_capableTargets counters =? 0) &&
          (0 <? Z.of_nat (length required)) then ErrUnsupportedCapabilities required
  else ErrNoTargets canonical.

(** The end of [BuildPlanFor], from the ordered candidates on. *)
Definition finish_plan (requested : string) (model : VirtualModel) (options : PlanOptions W)
    (required : list Capability) (candidates : list Selection) : Plan :=
  let '(candidates, providerPriority) :=
    applyProviderPriority candidates (po_ProviderPriority options) in
  let candidates :=
    if negb (String.eqb (po_PinnedDeployment options) "") && (1 <? Z.of_nat (length candidates))
    then take 1 candidates else candidates in
  let limits := ModelLimits_Effective (vm_Limits model) in
  let maxAttempts := eml_MaxAttempts limits in
  let maxAttempts :=
    if Z.of_nat (length candidates) <? maxAttempts then Z.of_nat (length candidates)
    else maxAttempts in
  let maxAttempts := if po_SingleAttempt options && (1 <? maxAttempts) then 1 else maxAttempts in
  {| plan_RequestedModel := requested;
     plan_VirtualModel := vm_Name model;
     plan_RequiredCapabilities := required;
     plan_MaxAttempts := maxAttempts;
     plan_Limits := {| eml_MaxAttempts := maxAttempts;
                       eml_OverallTimeout := eml_OverallTimeout limits;
                       eml_PerTryTimeout := eml_PerTryTimeout limits;
                       eml_StreamIdleTimeout := eml_StreamIdleTimeout limits |};
     plan_Retry := RetryPolicy_Effective (vm_Retry model);
     plan_Guardrails := vm_Guardrails model;
     plan_ProviderPriority := providerPriority;
     plan_Candidates := candidates |}.

Definition sorted_pools (model : VirtualModel) : list RoutingPool :=
  stable_sort (fun x y => pool_Priority x <? pool_Priority y) (vm_Pools model).

(** [Snapshot.BuildPlanFor] *)
Definition BuildPlanFor (s : Snapshot) (requested : string) (options : PlanOptions W)
  : M W PlanError Plan :=
  match ResolveModel s requested (po_AllowInternal options) with
  | inl err => throw err
  | inr model =>
      let required :=
        mergeCapabilities (vm_RequiredCapabilities model) (po_RequiredCapabilities options) in
      '(counters, (candidates, _)) ←
        for_each (plan_pool s requested model options required)
          (mkPlanCounters 0 0 0, ([], 0)) (sorted_pools model);
      match candidates with
      | [] => throw (plan_error (vm_Name model) required counters)
      | _ =>
          candidates ←
            (if PrefersRunning (vm_Selection model) then
               match po_Ready options with
               | Some ready => partition_ready ready candidates
               | None => mret candidates
               end
             else mret candidates);
          mret (finish_plan requested model options required candidates)
      end
  end.

(** [Snapshot.BuildPlan] *)
Definition BuildPlan (s : Snapshot) (requested : string) (picker : option (WeightedPicker W))
  : M W PlanError Plan :=
  BuildPlanFor s requested
    {| po_RequiredCapabilities := []; po_AllowedProviderTypes := []; po_Compatibility := None;
       po_ProtocolResolver := None; po_PinnedDeployment := ""; po_PinnedProvider := "";
       po_SingleAttempt := false; po_Eligibility := None; po_Ready := None; po_Picker := picker;
       po_SelectionKey := ""; po_ProviderPriority := []; po_AllowInternal := false |}.
End Build.

(** ** Soft affinity *)

Definition same_rank (first candidate : Selection) : bool :=
  (sel_PoolPriority candidate =? sel_PoolPriority first) &&
  (sel_PreferenceClass candidate =? sel_PreferenceClass first) &&
  Bool.eqb (sel_Running candidate) (sel_Running first) &&
  (sel_ProviderPreference candidate =? sel_ProviderPreference first).

(** The search of [PreferDeployment] after the first candidate: the candidates
    before the match, the match and the rest. *)
Fixpoint find_deployment (deployment : string) (before rest : list Selection)
  : option (list Selection * Selection * list Selection) :=
  match rest with
  | [] => None
  | candidate :: rest =>
      if String.eqb (dep_Name (sel_Deployment candidate)) deployment
      then Some (before, candidate, rest)
      else find_deployment deployment (before ++ [candidate]) rest
  end.

(** [Plan.PreferDeployment] on the candidates. *)
Definition PreferDeployment (candidates : list Selection) (deployment : string)
  : bool * list Selection :=
  match candidates with
  | [] => (false, candidates)
  | first :: rest =>
      if String.eqb deployment "" then (false, candidates)
      else if String.eqb (dep_Name (sel_Deployment first)) deployment then (true, candidates)
      else
        match find_deployment deployment [] rest with
        | None => (false, candidates)
        | Some (before, candidate, after) =>
            if negb (same_rank first candidate) then (false, candidates)
            else (true, candidate :: first :: before ++ after)
        end
  end.
