(* ===== verification/Validate.v ===== *)
(** * Document validation and compilation ([pkg/config/validate.go],
    [pkg/routing/snapshot.go])

    [Document.Validate] check by check, each loop with the maps it fills, and
    [Compile], which validates a document and builds the snapshot that routes
    it. *)

From stdpp Require Import base gmap list strings.
From Stdlib Require Import ZArith Lia.
From S2P Require Import Prelude GoStrings RouterPolicy Policies Capabilities Privacy Config Fields Settings.
From S2P Require Import Profiles Picker Plan.

Local Open Scope Z_scope.
Local Open Scope go_scope.

Section Validate.
Context `{UnicodeTables} `{EncodingJSON} `{NetURL}.

(** ** Providers *)
Definition ContinuationsDefault : string := "".
Definition ContinuationsNone : string := "none".
Definition ContinuationsSameOrigin303 : string := "same_origin_303".

(** The region, URL and authentication of a provider. *)
Definition validate_provider_endpoint (provider : Provider) : option string :=
  let base_url :=
    if String.eqb (prov_BaseURL provider) "" then None
    else wrap ".base_url: " (validateBaseURL (prov_BaseURL provider)) in
  if String.eqb (prov_Type provider) "bedrock" then
    first_error [
      wrap ".region: " (validateAWSRegion (prov_Region provider));
      base_url;
      fail_if (negb (String.eqb (auth_Type (prov_Auth provider)) AuthAWSSigV4))
        ".auth.type: bedrock providers require aws_sigv4"]
  else
    first_error [
      fail_if (negb (String.eqb (prov_Region provider) ""))
        ".region: only bedrock providers accept a region";
      base_url;
      fail_if (String.eqb (auth_Type (prov_Auth provider)) AuthAWSSigV4)
        ".auth.type: aws_sigv4 is only valid for bedrock providers"].

(** One turn of the loop over the providers; [providers] holds their names. *)
Definition provider_step (providers : list string) (provider : Provider) : string + list string :=
  fail_if (negb (mem (prov_Continuations provider)
             [ContinuationsDefault; ContinuationsNone; ContinuationsSameOrigin303]))
    ".continuations: must be omitted, none, or same_origin_303" ?;
  wrap ".capability_defaults: " (validateCapabilityDefaults (prov_CapabilityDefaults provider)) ?;
  wrap ".name: " (validateID (prov_Name provider)) ?;
  fail_if (mem (prov_Name provider) providers) ".name: duplicate provider %q" ?;
  wrap ": " (validateSubscriptionProvider provider) ?;
  fail_if (String.eqb (prov_Type provider) "sparkrun" &&
           (negb (String.eqb (prov_BaseURL provider) "") ||
            negb (String.eqb (auth_Type (prov_Auth provider)) "") ||
            negb (String.eqb (prov_Region provider) "") ||
            negb (String.eqb (prov_SubscriptionProfile provider) "")))
    ": sparkrun obtains endpoints and authentication from its workloads" ?;
  fail_if (String.eqb (TrimSpace (prov_Type provider)) "") ".type: required" ?;
  validate_provider_endpoint provider ?;
  wrap ".auth: " (validateAuth (prov_Auth provider)) ?;
  wrap ".default_headers: " (validateHeaders (prov_DefaultHeaders provider)) ?;
  wrap ".extra_body: " (validateExtraBody (prov_ExtraBody provider)) ?;
  inr (prov_Name provider :: providers).

(** ** Deployments *)
Definition zeroProvider : Provider :=
  {| prov_Name := ""; prov_Type := ""; prov_BaseURL := ""; prov_SubscriptionProfile := "";
     prov_Region := "";
     prov_Auth := {| auth_Type := ""; auth_Header := ""; auth_Prefix := ""; auth_Credential := "" |};
     prov_DefaultHeaders := ∅; prov_Continuations := ""; prov_ExtraBody := ∅;
     prov_CapabilityDefaults := "" |}.

(** [Document.provider] *)
Definition provider_named_in (d : Document) (name : string) : Provider :=
  default zeroProvider (List.find (fun p => String.eqb (prov_Name p) name) (doc_Providers d)).

Definition is_static (s : EndpointSource) : bool :=
  String.eqb (EndpointSourceType_Effective (es_Type s)) EndpointSourceStatic.

Definition validate_deployment_provider (provider : Provider) (deployment : Deployment)
  : option string :=
  first_error [
    fail_if (String.eqb (prov_Type provider) "openai_responses" &&
             negb (SupportsNativeProtocol deployment provider ProtocolOpenAI))
      ".native_protocols: OpenAI Responses providers require the openai protocol";
    (if String.eqb (prov_Type provider) "openai_subscription" then
       first_error [
         fail_if (negb (String.eqb (dep_Credential deployment) "") ||
                  negb (is_static (dep_EndpointSource deployment)) ||
                  negb (bool_decide (dep_NativeProtocols deployment = []) ||
                        bool_decide (dep_NativeProtocols deployment = [ProtocolOpenAI])))
           ": subscription deployments require static OpenAI endpoints and provider-owned authentication";
         fail_if (negb (DeclaresCapability (dep_CapabilityPolicy deployment)
                          (dep_Capabilities deployment) CapabilityResponses))
           ".capabilities: subscription deployments must declare responses"]
     else None)].

Definition validate_deployment_credential (provider : Provider) (deployment : Deployment)
  : option string :=
  if String.eqb (dep_Credential deployment) "" then None
  else
    first_error [
      wrap ".credential: " (Ref_Validate (dep_Credential deployment));
      fail_if (String.eqb (auth_Type (prov_Auth provider)) AuthNone)
        ".credential: provider auth is not configured";
      fail_if (String.eqb (auth_Type (prov_Auth provider)) AuthAWSSigV4 &&
               negb (isAWSWorkloadReference (dep_Credential deployment)))
        ".credential: aws_sigv4 requires a workload:// reference"].

(** The key of an activation binding. *)
Definition binding_key (s : EndpointSource) : string :=
  es_Controller s ++ NUL ++ es_Revision s.

Definition is_activatable (s : EndpointSource) : bool :=
  String.eqb (EndpointSourceType_Effective (es_Type s)) EndpointSourceActivatable.

(** One turn of the loop over the deployments, with the maps [deployments] and
    [activationBindings]. *)
Definition deployment_step (d : Document)
    (acc : gmap string Deployment * list string) (deployment : Deployment)
  : string + gmap string Deployment * list string :=
  let '(deployments, activationBindings) := acc in
  let provider := provider_named_in d (dep_Provider deployment) in
  let source := dep_EndpointSource deployment in
  match dep_ModelMetadata deployment with
  | Some metadata => wrap ".model_metadata: " (validateDiscoveredModelMetadata metadata)
  | None => None
  end ?;
  wrap ".name: " (validateID (dep_Name deployment)) ?;
  fail_if ((4096 <? zlen (dep_Title deployment)) || has_control (dep_Title deployment))
    ".title: must be at most 4096 bytes without control characters" ?;
  fail_if (bool_decide (is_Some (deployments !! dep_Name deployment)))
    ".name: duplicate deployment %q" ?;
  fail_if (negb (mem (dep_Provider deployment) (prov_Name <$> doc_Providers d)))
    ".provider: unknown provider %q" ?;
  fail_if (String.eqb (TrimSpace (dep_Model deployment)) "") ".model: required" ?;
  wrap ".native_protocols: " (validateNativeProtocols (dep_NativeProtocols deployment)) ?;
  validate_deployment_provider provider deployment ?;
  wrap ".endpoint_source: " (EndpointSource_Validate source) ?;
  fail_if (is_activatable source && mem (binding_key source) activationBindings)
    ".endpoint_source.revision: activation binding is already used by deployment %q" ?;
  fail_if (is_static source && String.eqb (prov_BaseURL provider) "" &&
           negb (String.eqb (prov_Type provider) "bedrock") &&
           negb (String.eqb (prov_Type provider) "openai_subscription"))
    ".endpoint_source: static deployments require provider base_url" ?;
  fail_if (String.eqb (prov_Type provider) "bedrock" && negb (is_static source))
    ".endpoint_source: bedrock deployments must use static endpoints" ?;
  validate_deployment_credential provider deployment ?;
  wrap ".upstream_headers: " (validateHeaders (dep_UpstreamHeaders deployment)) ?;
  wrap ".extra_body: " (validateExtraBody (dep_ExtraBody deployment)) ?;
  wrap ".capabilities: " (validateCapabilities (dep_Capabilities deployment)) ?;
  wrap ".capability_policy: "
    (validateCapabilityPolicy (dep_CapabilityPolicy deployment) (dep_Capabilities deployment)) ?;
  fail_if ((dep_MaxConcurrency deployment <? 0) ||
           (maxConcurrency_limit <? dep_MaxConcurrency deployment))
    ".max_concurrency: must be between 1 and %d, or 0 for unlimited" ?;
  wrap ".circuit: " (CircuitPolicy_Validate (dep_Circuit deployment)) ?;
  inr (<[dep_Name deployment := deployment]> deployments,
       if is_activatable source then binding_key source :: activationBindings
       else activationBindings).

(** ** Virtual models *)

(** One alias; [modelNames] maps names and aliases to canonical names. *)
Definition alias_step (canonical : string) (modelNames : gmap string string) (alias : string)
  : string + gmap string string :=
  wrap ".aliases[%d]: " (validateID alias) ?;
  fail_if (bool_decide (is_Some (modelNames !! alias))) ".aliases[%d]: %q already belongs to %s" ?;
  inr (<[alias := canonical]> modelNames).

(** One target; [targets] holds the deployments of the model so far. *)
Definition target_step (deployments : gmap string Deployment) (targets : list string)
    (target : WeightedTarget) : string + list string :=
  fail_if (negb (bool_decide (is_Some (deployments !! wt_Deployment target))))
    ".pools[%d].targets[%d].deployment: unknown deployment %q" ?;
  fail_if (mem (wt_Deployment target) targets)
    ".pools[%d].targets[%d].deployment: duplicate deployment %q" ?;
  fail_if (wt_Weight target <=? 0) ".pools[%d].targets[%d].weight: must be positive" ?;
  inr (wt_Deployment target :: targets).

(** One pool, with the sets [priorities] and [targets]. *)
Definition pool_step (deployments : gmap string Deployment)
    (acc : list Z * list string) (pool : RoutingPool) : string + list Z * list string :=
  let '(priorities, targets) := acc in
  fail_if (existsb (Z.eqb (pool_Priority pool)) priorities)
    ".pools[%d].priority: duplicate priority %d" ?;
  fail_if (Z.of_nat (length (pool_Targets pool)) =? 0)
    ".pools[%d].targets: at least one target is required" ?;
  match scan (target_step deployments) targets (pool_Targets pool) with
  | inl e => inl e
  | inr targets => inr (pool_Priority pool :: priorities, targets)
  end.

(** One turn of the loop over the virtual models. *)
Definition model_step (deployments : gmap string Deployment) (modelNames : gmap string string)
    (model : VirtualModel) : string + gmap string string :=
  wrap ".name: " (validateID (vm_Name model)) ?;
  fail_if (bool_decide (is_Some (modelNames !! vm_Name model))) ".name: %q already belongs to %s" ?;
  fail_if (negb (mem (vm_Visibility model)
             [""%string; ModelVisibilityPublic; ModelVisibilityHidden; ModelVisibilityInternal]))
    ".visibility: must be public, hidden, internal, or empty" ?;
  wrap ".request_overrides: " (ValidateRequestOverrides (vm_RequestOverrides model)) ?;
  wrap ".required_capabilities: " (validateCapabilities (vm_RequiredCapabilities model)) ?;
  match scan (alias_step (vm_Name model)) (<[vm_Name model := vm_Name model]> modelNames)
          (vm_Aliases model) with
  | inl e => inl e
  | inr modelNames =>
      fail_if (negb (mem (vm_ResponseModel model)
                 [""%string; ResponseModelVirtual; ResponseModelRequested; ResponseModelUpstream]))
        ".response_model: must be virtual, requested, upstream, or empty" ?;
      wrap ".selection: " (SelectionPolicy_Validate (vm_Selection model)) ?;
      wrap ".limits: " (ModelLimits_Validate (vm_Limits model)) ?;
      wrap ".retry: " (RetryPolicy_Validate (vm_Retry model)) ?;
      fail_if (Z.of_nat (length (vm_Pools model)) =? 0)
        ".pools: at least one routing pool is required" ?;
      error_of (scan (pool_step deployments) ([], []) (vm_Pools model)) ?;
      fail_if ((0 <? Z.of_nat (length (vm_RequiredCapabilities model))) &&
               negb (hasCapableTarget model deployments))
        ".required_capabilities: no routing target supports the complete required set" ?;
      inr modelNames
  end.

(** The privacy and guardrail policies of a model. *)
Definition validate_model_policies (modelNames : gmap string string) (model : VirtualModel)
  : option string :=
  first_error [
    wrap "virtual_models[%d].privacy" (validatePrivacy (vm_Privacy model));
    wrap "virtual_models[%d].guardrails" (validateGuardrails (vm_Guardrails model) modelNames)].

(** The routing policy of the document, if it has one.  A Go map is visited in
    an unspecified order; the error is the first one in the order of
    [map_to_list]. *)
Definition validate_model_routing (d : Document) : option string :=
  match doc_ModelRouting d with
  | Some policy => wrap "model_routing: " (ValidateRoutingPolicy (fun _ => map_to_list) json_kwargs_size policy)
  | None => None
  end.

(** The models its metadata names are canonical. *)
Definition validate_routing_models (d : Document) : option string :=
  match doc_ModelRouting d with
  | Some policy =>
      check_all (fun entry : string * ModelMetadata =>
          fail_if (negb (mem entry.1 (vm_Name <$> doc_VirtualModels d)))
            "model_routing.models[%q]: unknown canonical virtual model")
        (map_to_list (rp_Models policy))
  | None => None
  end.

(** The checks after the profiles are resolved. *)
Definition validate_resolved (d : Document) : string + unit :=
  wrap "mm_projection: " (MMProjection_Validate (doc_MMProjection d)) ?;
  wrap "observability: " (Observability_Validate (doc_Observability d)) ?;
  let d := ResolveCapabilityPolicies d UnknownCapabilityTry in
  validate_model_routing d ?;
  wrap "capability_defaults: " (validateCapabilityDefaults (doc_CapabilityDefaults d)) ?;
  match scan provider_step [] (doc_Providers d) with
  | inl e => inl (String.append "providers[%d]" e)
  | inr _ =>
      match scan (deployment_step d) (∅, []) (doc_Deployments d) with
      | inl e => inl (String.append "deployments[%d]" e)
      | inr (deployments, _) =>
          match scan (model_step deployments) ∅ (doc_VirtualModels d) with
          | inl e => inl (String.append "virtual_models[%d]" e)
          | inr modelNames =>
              validate_routing_models d ?;
              check_all (validate_model_policies modelNames) (doc_VirtualModels d) ?;
              inr tt
          end
      end
  end.

(** [Document.Validate] *)
Definition Validate (d : Document) : option string :=
  error_of (
    SparkrunOverrides_Validate (doc_SparkrunOverrides d) ?;
    match ResolveModelPolicies d with
    | inl e => inl e
    | inr d => validate_resolved d
    end).

(** ** Compilation *)

(** The document that [Compile] validates and publishes. *)
Definition resolve_document (document : Document) : string + Document :=
  match ResolveModelPolicies document with
  | inl e => inl e
  | inr resolved => inr (ResolveCapabilityPolicies resolved UnknownCapabilityTry)
  end.

(** [Compile] *)
Definition Compile (document : Document) : string + Snapshot :=
  match resolve_document document with
  | inl e => inl e
  | inr document => Validate document ?; inr (snapshot_of document)
  end.
End Validate.
