(* ===== verification/PlanFacts.v ===== *)
(** * The attempt order of a plan: specification and lemmas

    The targets a request may be routed to, written without the loops, counters
    and groups of the code, and what each stage of [BuildPlanFor] computes in
    those terms.  Eligibility, readiness and the picker are behind the
    interface [Oracle]. *)

From stdpp Require Import base gmap list strings sorting.
From Stdlib Require Import ZArith Lia.
From S2P Require Import Prelude GoStrings Policies Capabilities Config Picker Plan.

Local Open Scope Z_scope.

(** ** The interface to the outside

    What a plan assumes while it is built: in the worlds of [inv], eligibility
    answers [elig], and neither the picker nor a readiness hint leaves
    [inv]. *)
Class Oracle {W : Type} `{Entropy W} (options : PlanOptions W) (inv : W -> Prop)
    (elig : string -> bool) : Prop := {
  oracle_elig name w : inv w ->
    wp (ask (po_Eligibility options) name) (fun _ _ => False) (fun b w' => b = elig name /\ inv w') w;
  oracle_ready ready name w : po_Ready options = Some ready -> inv w -> inv (ready name w).2;
  oracle_pick total w : inv w -> inv (nil_picker options total w).2;
}.

(** ** Routable targets *)
Section Spec.
Context {W : Type} (s : Snapshot) (options : PlanOptions W) (required : list Capability).

(** The target's deployment and provider, if no pin or restriction excludes
    them. *)
Definition configured_target (target : WeightedTarget) : option (Deployment * Provider) :=
  if String.eqb (po_PinnedDeployment options) "" ||
     String.eqb (wt_Deployment target) (po_PinnedDeployment options) then
    deployment ← sn_deployments s !! wt_Deployment target;
    if String.eqb (po_PinnedProvider options) "" ||
       String.eqb (dep_Provider deployment) (po_PinnedProvider options) then
      provider ← sn_providers s !! dep_Provider deployment;
      if providerTypeAllowed (prov_Type provider) (po_AllowedProviderTypes options)
      then Some (deployment, provider) else None
    else None
  else None.

(** How the request would reach the deployment. *)
Definition route_for (deployment : Deployment) (provider : Provider) : option ProtocolRoute :=
  match po_ProtocolResolver options with
  | Some resolver =>
      let '(route, compatible) := resolver provider deployment in
      if (compatible : bool) && negb (String.eqb (pr_Protocol route) "") then Some route else None
  | None =>
      if match po_Compatibility options with Some f => f (prov_Type provider) | None => true end
      then Some (native_route deployment provider) else None
  end.

(** How well the deployment covers what the route needs. *)
Definition match_for (deployment : Deployment) (route : ProtocolRoute) : CapabilityMatch :=
  Deployment_MatchCapabilities deployment (required ++ pr_RequiredCapabilities route).

(** The preference class inside a pool: native before translated, declared
    before unknown. *)
Definition group_of (route : ProtocolRoute) (m : CapabilityMatch) : Z :=
  (if pr_Native route then 0 else 2) +
  (if bool_decide (m = CapabilityMatchDeclared) then 0 else 1).

Definition compatible_target (target : WeightedTarget) : option (Deployment * ProtocolRoute) :=
  '(deployment, provider) ← configured_target target;
  route ← route_for deployment provider;
  Some (deployment, route).

Definition capable_target (target : WeightedTarget) : option (Deployment * ProtocolRoute * Z) :=
  '(deployment, route) ← compatible_target target;
  if bool_decide (match_for deployment route = CapabilityMatchRejected) then None
  else Some (deployment, route, group_of route (match_for deployment route)).

Context (elig : string -> bool).

(** The eligible target of one group that a pool's target yields. *)
Definition routable_target (target : WeightedTarget) : option (eligibleTarget * Z) :=
  '(deployment, route, group) ← capable_target target;
  if elig (dep_Name deployment) then Some (mkEligibleTarget target route, group) else None.

(** The targets of the group [k], in the pool's order. *)
Definition group_targets (k : Z) (targets : list WeightedTarget) : list eligibleTarget :=
  omap (fun t => '(e, group) ← routable_target t; if group =? k then Some e else None) targets.
End Spec.

Definition is_someb {A} (o : option A) : bool := match o with Some _ => true | None => false end.

(** ** Scanning a pool *)
Section Scan.
Context `{UnicodeTables} `{MathLog} {W : Type} `{Entropy W}.
Context (s : Snapshot) (options : PlanOptions W) (required : list Capability).

Definition bump (c : planCounters) (protocol compatible capable : bool) : planCounters :=
  let add (n : Z) (b : bool) := n + if b then 1 else 0 in
  mkPlanCounters (add (pc_protocolTargets c) protocol) (add (pc_compatibleTargets c) compatible)
    (add (pc_capableTargets c) capable).

(** [scan_target] in terms of the specification. *)
Lemma scan_target_spec c g target w :
  scan_target s options required (c, g) target w =
    match capable_target s options required target with
    | Some (deployment, route, _) =>
        (eligible ← ask (po_Eligibility options) (dep_Name deployment);
         mret (bump c true true true,
               if (eligible : bool) then
                 add_eligible g (pr_Native route) (match_for required deployment route)
                   (mkEligibleTarget target route)
               else g)) w
    | None =>
        (inr (bump c (is_someb (configured_target s options target))
                (is_someb (compatible_target s options target)) false, g), w)
    end.
Proof.
  assert (Hid : bump c false false false = c) by (destruct c; unfold bump; simpl; f_equal; lia).
  unfold scan_target, capable_target, compatible_target, configured_target.
  rewrite <- negb_orb. destruct (String.eqb (po_PinnedDeployment options) "" || _); simpl;
    [|by rewrite Hid].
  destruct (sn_deployments s !! wt_Deployment target) as [d|]; simpl; [|by rewrite Hid].
  rewrite <- negb_orb. destruct (String.eqb (po_PinnedProvider options) "" || _); simpl;
    [|by rewrite Hid].
  destruct (sn_providers s !! dep_Provider d) as [p|]; simpl; [|by rewrite Hid].
  destruct (providerTypeAllowed _ _); simpl; [|by rewrite Hid].
  assert (Hroute : exists r0,
    match po_ProtocolResolver options with
    | Some resolver =>
        let '(route, compatible) := resolver p d in
        (route, compatible && negb (String.eqb (pr_Protocol route) ""))
    | None =>
        match po_Compatibility options with
        | Some f => (native_route d p, f (prov_Type p))
        | None => (native_route d p, true)
        end
    end = match route_for options d p with Some route => (route, true) | None => (r0, false) end).
  { unfold route_for. destruct (po_ProtocolResolver options) as [f|].
    - destruct (f p d) as [r b]. exists r. by destruct (b && _).
    - exists (native_route d p). destruct (po_Compatibility options) as [f|]; [|done].
      by destruct (f _). }
  destruct Hroute as [r0 ->]. destruct (route_for options d p) as [route|]; simpl.
  2: { unfold bump. simpl. by rewrite !Z.add_0_r. }
  assert (Hreq : match pr_RequiredCapabilities route with
    | [] => required | c0 :: l => required ++ c0 :: l end
    = required ++ pr_RequiredCapabilities route)
    by (destruct (pr_RequiredCapabilities route); [by rewrite app_nil_r|done]).
  rewrite Hreq. fold (match_for required d route).
  destruct (bool_decide (match_for required d route = CapabilityMatchRejected)); simpl.
  { unfold bump. simpl. by rewrite !Z.add_0_r. }
  unfold mbind, M_bind, bump. by destruct (ask _ _ w) as [[e|[]] w'].
Qed.

(** ** Scanning a pool *)
Context (inv : W -> Prop) (elig : string -> bool) `{!Oracle options inv elig}.

Definition spec_groups (targets : list WeightedTarget) : planGroups :=
  let group k := group_targets s options required elig k targets in
  mkPlanGroups (group 0) (group 1) (group 2) (group 3).

Lemma group_targets_snoc k targets t :
  group_targets s options required elig k (targets ++ [t]) =
    group_targets s options required elig k targets ++
    match routable_target s options required elig t with
    | Some (e, group) => if group =? k then [e] else []
    | None => []
    end.
Proof.
  unfold group_targets. rewrite omap_app. f_equal. simpl.
  destruct (routable_target s options required elig t) as [[e group]|]; simpl; [|done].
  by destruct (group =? k).
Qed.

Lemma add_eligible_spec targets t deployment route group :
  capable_target s options required t = Some (deployment, route, group) ->
  (if elig (dep_Name deployment) then
     add_eligible (spec_groups targets) (pr_Native route) (match_for required deployment route)
       (mkEligibleTarget t route)
   else spec_groups targets) = spec_groups (targets ++ [t]).
Proof.
  intros Hc. unfold spec_groups. rewrite !group_targets_snoc. unfold routable_target. rewrite Hc.
  simpl. destruct (elig (dep_Name deployment)); simpl; [|by rewrite !app_nil_r].
  assert (Hg : group = group_of route (match_for required deployment route)).
  { revert Hc. unfold capable_target. destruct (compatible_target s options t) as [[d r]|]; [|done].
    simpl. destruct (bool_decide _); [done|]. by intros [= -> -> <-]. }
  rewrite Hg. unfold group_of, add_eligible.
  destruct (pr_Native route), (bool_decide (match_for required deployment route = _)); simpl;
    by rewrite ?app_nil_r.
Qed.

Lemma incapable_spec targets t :
  capable_target s options required t = None -> spec_groups (targets ++ [t]) = spec_groups targets.
Proof.
  intros Hc. unfold spec_groups. rewrite !group_targets_snoc. unfold routable_target. rewrite Hc.
  simpl. by rewrite !app_nil_r.
Qed.

(** The counters after some targets. *)
Definition count_targets (c : planCounters) (targets : list WeightedTarget) : planCounters :=
  mkPlanCounters
    (pc_protocolTargets c + count_if (fun t => is_someb (configured_target s options t)) targets)
    (pc_compatibleTargets c + count_if (fun t => is_someb (compatible_target s options t)) targets)
    (pc_capableTargets c +
       count_if (fun t => is_someb (capable_target s options required t)) targets).

Lemma count_targets_snoc c targets t :
  count_targets c (targets ++ [t]) =
    bump (count_targets c targets) (is_someb (configured_target s options t))
      (is_someb (compatible_target s options t))
      (is_someb (capable_target s options required t)).
Proof. unfold count_targets, bump. rewrite !count_if_snoc. simpl. f_equal; lia. Qed.

Lemma scan_pool (QE : PlanError -> W -> Prop) c targets w :
  inv w ->
  wp (for_each (scan_target s options required) (c, noGroups) targets) QE
     (fun acc w' => acc = (count_targets c targets, spec_groups targets) /\ inv w') w.
Proof.
  intros Hw. apply (wp_for_each QE (fun prefix acc w' =>
    acc = (count_targets c prefix, spec_groups prefix) /\ inv w')).
  { split; [|done]. unfold count_targets, count_if. simpl. rewrite !Z.add_0_r. by destruct c. }
  intros prefix t rest acc w1 _ [-> Hw1]. unfold wp. rewrite scan_target_spec.
  rewrite count_targets_snoc.
  destruct (capable_target s options required t) as [[[d route] group]|] eqn:Hc.
  - pose proof (oracle_elig (dep_Name d) w1 Hw1) as He. unfold wp in He.
    unfold mbind, M_bind. destruct (ask _ _ w1) as [[e|b] w2]; [done|].
    destruct He as [-> Hw2]. unfold mret, M_ret. rewrite <- (add_eligible_spec prefix t d route group Hc).
    split; [|done]. unfold capable_target in Hc. destruct (compatible_target s options t) as [[d' r']|] eqn:Hcomp; [|done].
    unfold compatible_target in Hcomp. by destruct (configured_target s options t).
  - cbn [is_someb]. by rewrite incapable_spec.
Qed.
End Scan.

(** ** Drawing from a group *)
Definition weight (e : eligibleTarget) : Z := wt_Weight (et_target e).
Definition weights (l : list eligibleTarget) : Z := foldr (fun e n => weight e + n) 0 l.
Definition positive (l : list eligibleTarget) : Prop := Forall (fun e => 0 < weight e) l.

Lemma weights_app l k : weights (l ++ k) = weights l + weights k.
Proof. induction l as [|e l IH]; simpl; lia. Qed.

Lemma weights_nonneg l : positive l -> 0 <= weights l.
Proof. induction 1; simpl; lia. Qed.

Lemma total_weight_spec l acc :
  positive l -> 0 <= acc <= MaxInt64 ->
  total_weight acc l = if acc + weights l <=? MaxInt64 then Some (acc + weights l) else None.
Proof.
  intros Hl. revert acc. induction Hl as [|e l He Hl IH]; intros acc Ha; cbn [total_weight weights foldr].
  - rewrite Z.add_0_r. destruct (Z.leb_spec acc MaxInt64); [done|lia].
  - fold (weights l). fold (weight e). pose proof (weights_nonneg l Hl).
    rewrite (int64_id (MaxInt64 - acc)) by (unfold is_int64, MinInt64, MaxInt64 in *; lia).
    destruct (Z.ltb_spec (MaxInt64 - acc) (weight e)).
    + destruct (Z.leb_spec (acc + (weight e + weights l)) MaxInt64); [lia|done].
    + rewrite int64_id by (unfold is_int64, MinInt64, MaxInt64 in *; lia).
      rewrite IH by lia. by rewrite Z.add_assoc.
Qed.

(** The picked index is the one whose share of [[0, total)] holds the value. *)
Lemma pick_index_spec l v b i :
  positive l -> 0 <= b -> b + weights l <= MaxInt64 -> b <= v < b + weights l ->
  exists pre e post, l = pre ++ e :: post /\ pick_index v b i l = (i + length pre)%nat /\
    b + weights pre <= v < b + weights pre + weight e.
Proof.
  intros Hl. revert b i. induction Hl as [|e l He Hl IH]; intros b i Hb Hm Hv; simpl in *; [lia|].
  fold (weight e) in *. pose proof (weights_nonneg l Hl).
  rewrite int64_id by (unfold is_int64, MinInt64 in *; lia).
  destruct (Z.ltb_spec v (b + weight e)).
  - exists [], e, l. split; [done|]. simpl. split; [lia|lia].
  - destruct (IH (b + weight e) (S i)) as (pre & e' & post & -> & -> & Hr); [lia..|].
    exists (e :: pre), e', post. split; [done|]. simpl. split; [lia|lia].
Qed.

Lemma delete_middle' {A} (l k : list A) x : delete (length l) (l ++ x :: k) = l ++ k.
Proof. apply delete_middle. Qed.

Section Draw.
Context {W : Type} (picker : WeightedPicker W) (inv : W -> Prop).
Context (Hpick : forall total w, inv w -> inv (picker total w).2).

(** The errors a draw can end with, and what each says of the picker or of the
    weights. *)
Definition draw_error (overflow : Prop) (e : PlanError) : Prop :=
  match e with
  | ErrWeightOverflow _ => overflow
  | ErrPicker err => exists total w w', inv w /\ picker total w = (inl err, w')
  | ErrPickerRange v total =>
      exists w w', inv w /\ picker total w = (inr v, w') /\ ~ 0 <= v < total
  | _ => False
  end.

Lemma draw_value_spec overflow random total w :
  inv w ->
  wp (draw_value random picker total) (fun e _ => draw_error overflow e)
     (fun v w' => inv w' /\ if random then 0 <= v < total else v = 0) w.
Proof.
  intros Hw. unfold wp, draw_value. destruct random; [|done].
  pose proof (Hpick total w Hw) as Hw'. destruct (picker total w) as [[err|v] w'] eqn:Ep.
  { by exists total, w, w'. }
  destruct (_ || _) eqn:E; [|prop_tests; split; [done|lia]].
  exists w, w'. split_and!; [done..|]. intros [H1%Z.ltb_ge H2%Z.leb_gt]. by rewrite H1, H2 in E.
Qed.

Lemma draw_group_spec overflow random priority fuel remaining drawn w :
  positive remaining -> (length remaining <= fuel)%nat -> inv w ->
  (MaxInt64 < weights remaining -> overflow) ->
  wp (draw_group fuel random picker priority remaining drawn) (fun e _ => draw_error overflow e)
     (fun l w' => inv w' /\ exists k, l = drawn ++ k /\ k ≡ₚ remaining /\
                            (random = false -> k = remaining)) w.
Proof.
  revert remaining drawn w. induction fuel as [|fuel IH]; intros remaining drawn w Hp Hl Hw Hover.
  { destruct remaining; [|simpl in Hl; lia]. split; [done|]. exists []. by rewrite app_nil_r. }
  destruct remaining as [|e0 rest] eqn:Er.
  { split; [done|]. exists []. by rewrite app_nil_r. }
  rewrite <- Er in *. assert (Hstep : draw_group (S fuel) random picker priority remaining drawn =
    match total_weight 0 remaining with
    | None => throw (ErrWeightOverflow priority)
    | Some totalWeight =>
        value ← draw_value random picker totalWeight;
        match remaining !! pick_index value 0 0 remaining with
        | None => mret drawn
        | Some eligible =>
            draw_group fuel random picker priority
              (delete (pick_index value 0 0 remaining) remaining) (drawn ++ [eligible])
        end
    end) by (by rewrite Er).
  rewrite Hstep. clear Hstep. rewrite total_weight_spec by (done || unfold MaxInt64; lia).
  destruct (Z.leb_spec (0 + weights remaining) MaxInt64) as [Hm|]; [|by apply Hover].
  apply wp_bind. eapply wp_mono; [by apply draw_value_spec|]. intros v w' [Hw' Hv].
  assert (Hr : 0 <= v < 0 + weights remaining).
  { destruct random; [done|]. subst v. rewrite Er. simpl. rewrite Er in Hp.
    inversion Hp; subst. pose proof (weights_nonneg rest ltac:(done)). lia. }
  destruct (pick_index_spec remaining v 0 0 Hp) as (pre & e & post & El & Ei & Hsum); [lia..|].
  rewrite Ei. simpl. rewrite El at 1. rewrite list_lookup_middle by done. rewrite El, delete_middle'.
  assert (Hp' : positive (pre ++ post)).
  { rewrite El in Hp. unfold positive in *. rewrite Forall_app, Forall_cons in Hp.
    apply Forall_app. tauto. }
  eapply wp_mono; [apply IH; [done| |done|]|].
  { rewrite El in Hl. rewrite length_app in *. simpl in Hl. lia. }
  { intros Hw2. apply Hover. rewrite El, weights_app in *. simpl. lia. }
  intros l w2 [Hw2 (k & -> & Hk & Hdet)]. split; [done|]. exists (e :: k).
  split; [by rewrite <- app_assoc|]. split; [by rewrite Hk, Permutation_middle|].
  intros Hd. rewrite Hd in *. subst v. rewrite Hdet by done.
  assert (pre = []) as ->; [|done]. destruct pre as [|x pre]; [done|]. exfalso.
  simpl in Hsum, Hp'. inversion Hp' as [|? ? Hx Hpre]; subst. apply Forall_app in Hpre as [Hpre _].
  pose proof (weights_nonneg pre Hpre). lia.
Qed.
End Draw.

(** ** The candidates before readiness and provider priority *)

(** One preference class of one pool. *)
Record slot := mkSlot {
  sl_priority : Z;
  sl_class : Z;
  sl_targets : list eligibleTarget;
}.

Section Slots.
Context `{UnicodeTables} `{MathLog} {W : Type} `{Entropy W}.
Context (s : Snapshot) (requested : string) (model : VirtualModel) (options : PlanOptions W)
  (required : list Capability) (elig : string -> bool).

Definition pool_slots (class : Z) (pool : RoutingPool) : list slot :=
  let group k := group_targets s options required elig k (pool_Targets pool) in
  (fun k => mkSlot (pool_Priority pool) (class + k) (group k)) <$> [0; 1; 2; 3].

Fixpoint plan_slots (class : Z) (pools : list RoutingPool) : list slot :=
  match pools with
  | [] => []
  | pool :: rest => pool_slots class pool ++ plan_slots (class + 4) rest
  end.

(** The order of one slot: any order when drawn at random, the rendezvous order
    or the configured order otherwise. *)
Definition ordered (l' l : list eligibleTarget) : Prop :=
  l' ≡ₚ l /\ (draws_random model options = false -> l' = hash_group model options l).

Definition render (sl : slot) (l : list eligibleTarget) : list Selection :=
  omap (selection_of s requested model (sl_priority sl) (sl_class sl)) l.

Inductive rendered : list slot -> list Selection -> Prop :=
  | rendered_nil : rendered [] []
  | rendered_snoc slots cs sl l :
      rendered slots cs -> ordered l (sl_targets sl) -> rendered (slots ++ [sl]) (cs ++ render sl l).

Lemma plan_slots_snoc class pools pool :
  plan_slots class (pools ++ [pool]) =
    plan_slots class pools ++ pool_slots (class + 4 * Z.of_nat (length pools)) pool.
Proof.
  revert class. induction pools as [|p pools IH]; intros class; cbn [app plan_slots length].
  - by rewrite app_nil_r, Z.mul_0_r, Z.add_0_r.
  - rewrite IH, <- app_assoc. do 3 f_equal. lia.
Qed.

Lemma hash_group_Permutation l : hash_group model options l ≡ₚ l.
Proof.
  unfold hash_group. destruct (_ && _); [|done]. rewrite weightedHashOrder_sorts.
  apply stable_sort_Permutation.
Qed.

Lemma group_targets_in k targets e :
  e ∈ group_targets s options required elig k targets ->
  et_target e ∈ targets /\ exists d g, capable_target s options required (et_target e) = Some (d, et_route e, g)
    /\ elig (dep_Name d) = true /\ g = k.
Proof.
  unfold group_targets. rewrite list_elem_of_omap. intros (t & Ht & E).
  unfold routable_target in E. destruct (capable_target s options required t) as [[[d r] g]|] eqn:Hc; [|done].
  simpl in E. destruct (elig (dep_Name d)) eqn:He; [|done]. simpl in E.
  destruct (Z.eqb_spec g k); [|done]. injection E as <-. simpl. eauto 10.
Qed.

Context (inv : W -> Prop) `{!Oracle options inv elig}.

Definition positive_targets (targets : list WeightedTarget) : Prop :=
  Forall (fun t => 0 < wt_Weight t) targets.

Lemma group_positive k targets :
  positive_targets targets -> positive (group_targets s options required elig k targets).
Proof.
  intros Ht. apply Forall_forall. intros e (Hin & _)%group_targets_in.
  unfold positive_targets in Ht. rewrite Forall_forall in Ht. by apply Ht.
Qed.

(** The errors a plan's draws can end with. *)
Definition plan_draw_error (overflow : Prop) : PlanError -> Prop :=
  draw_error (nil_picker options) inv overflow.

Lemma weights_Permutation l k : l ≡ₚ k -> weights l = weights k.
Proof. induction 1; simpl; lia. Qed.

Lemma plan_group_spec overflow priority cs class group w :
  positive group -> inv w -> (MaxInt64 < weights group -> overflow) ->
  wp (plan_group s requested model options priority (cs, class) group)
     (fun e _ => plan_draw_error overflow e)
     (fun acc w' => inv w' /\ acc.2 = class + 1 /\
        exists l, ordered l group /\ acc.1 = cs ++ render (mkSlot priority class group) l) w.
Proof.
  intros Hp Hw Hover. unfold plan_group. apply wp_bind. pose proof (hash_group_Permutation group) as Hh.
  eapply wp_mono.
  - apply (draw_group_spec _ inv); [intros; by apply oracle_pick| |done|done|].
    + unfold positive. by rewrite Hh.
    + by rewrite (weights_Permutation _ _ Hh).
  - intros l w' [Hw' (k & -> & Hk & Hd)]. split; [done|]. split; [done|]. exists k.
    split; [|done]. split; [by rewrite Hk|done].
Qed.

Definition pool_weight (pool : RoutingPool) : Z :=
  foldr (fun t n => wt_Weight t + n) 0 (pool_Targets pool).

Lemma group_weight k targets :
  positive_targets targets ->
  weights (group_targets s options required elig k targets) <=
    foldr (fun t n => wt_Weight t + n) 0 targets.
Proof.
  induction 1 as [|t targets Ht _ IH]; [done|].
  assert (E : group_targets s options required elig k (t :: targets) =
    match routable_target s options required elig t with
    | Some (e, group) => if group =? k then [e] else []
    | None => []
    end ++ group_targets s options required elig k targets).
  { unfold group_targets. simpl. destruct (routable_target _ _ _ _ t) as [[e g]|]; simpl; [|done].
    by destruct (g =? k). }
  rewrite E, weights_app. cbn [foldr].
  assert (Hhead : weights (match routable_target s options required elig t with
    | Some (e, group) => if group =? k then [e] else []
    | None => []
    end) <= wt_Weight t); [|lia].
  unfold routable_target. destruct (capable_target _ _ _ t) as [[[d r] g]|]; simpl; [|lia].
  destruct (elig _); simpl; [|lia]. destruct (g =? k); simpl; unfold weight; simpl; lia.
Qed.

Lemma plan_pool_spec overflow c cs class slots pool w :
  positive_targets (pool_Targets pool) -> inv w -> rendered slots cs ->
  (MaxInt64 < pool_weight pool -> overflow) ->
  wp (plan_pool s requested model options required (c, (cs, class)) pool)
     (fun e _ => plan_draw_error overflow e)
     (fun acc w' => inv w' /\ acc.1 = count_targets s options required c (pool_Targets pool) /\
        acc.2.2 = class + 4 /\ rendered (slots ++ pool_slots class pool) acc.2.1) w.
Proof.
  intros Hp Hw Hr Hover. unfold plan_pool. apply wp_bind. eapply wp_mono; [by apply scan_pool|].
  intros [c' g] w1 [[= -> ->] Hw1]. apply wp_bind.
  assert (Hgroup : forall k cs1 w1 slots1, inv w1 -> rendered slots1 cs1 ->
    wp (plan_group s requested model options (pool_Priority pool) (cs1, class + k)
          (group_targets s options required elig k (pool_Targets pool)))
       (fun e _ => plan_draw_error overflow e)
       (fun acc w' => inv w' /\ acc.2 = class + (k + 1) /\
          rendered (slots1 ++ [mkSlot (pool_Priority pool) (class + k)
                      (group_targets s options required elig k (pool_Targets pool))]) acc.1) w1).
  { intros k cs1 w2 slots1 Hw2 Hr2. eapply wp_mono; [apply plan_group_spec; [by apply group_positive|done|]|].
    { intros Hx. apply Hover. unfold pool_weight. pose proof (group_weight k (pool_Targets pool) Hp). lia. }
    intros acc w3 (Hw3 & Hc & l & Ho & ->). split; [done|]. split; [lia|]. by constructor. }
  unfold spec_groups, pg_groups. cbn [pg_nativeDeclared pg_nativeUnknown pg_translatedDeclared
    pg_translatedUnknown for_each]. rewrite <- (Z.add_0_r class) at 1.
  apply wp_bind. eapply wp_mono; [by apply (Hgroup 0 cs _ slots)|].
  intros [cs1 k1] w2 (Hw2 & Ek1 & Hr2). simpl in Ek1, Hr2. subst k1.
  apply wp_bind. eapply wp_mono; [by apply (Hgroup 1 cs1 _ _ Hw2 Hr2)|].
  intros [cs2 k2] w3 (Hw3 & Ek2 & Hr3). simpl in Ek2, Hr3. subst k2.
  apply wp_bind. eapply wp_mono; [by apply (Hgroup 2 cs2 _ _ Hw3 Hr3)|].
  intros [cs3 k3] w4 (Hw4 & Ek3 & Hr4). simpl in Ek3, Hr4. subst k3.
  apply wp_bind. eapply wp_mono; [by apply (Hgroup 3 cs3 _ _ Hw4 Hr4)|].
  intros [cs4 k4] w5 (Hw5 & Ek4 & Hr5). simpl in Ek4, Hr5. subst k4.
  split; [done|]. split; [done|]. split; [done|]. simpl.
  by rewrite <- !app_assoc in Hr5.
Qed.

Lemma count_targets_app c l k :
  count_targets s options required c (l ++ k) =
    count_targets s options required (count_targets s options required c l) k.
Proof.
  unfold count_targets, count_if. rewrite !fmap_app, !count_true_app. simpl. f_equal; lia.
Qed.

Definition model_targets (pools : list RoutingPool) : list WeightedTarget :=
  mjoin (pool_Targets <$> pools).

Lemma plan_pools_spec pools w :
  Forall (fun pool => positive_targets (pool_Targets pool)) pools -> inv w ->
  wp (for_each (plan_pool s requested model options required) (mkPlanCounters 0 0 0, ([], 0)) pools)
     (fun e _ => plan_draw_error (Exists (fun pool => MaxInt64 < pool_weight pool) pools) e)
     (fun acc w' => inv w' /\
        acc.1 = count_targets s options required (mkPlanCounters 0 0 0) (model_targets pools) /\
        rendered (plan_slots 0 pools) acc.2.1) w.
Proof.
  intros Hp Hw. eapply wp_mono.
  - apply (wp_for_each _ (fun prefix acc w' => inv w' /\
      acc.1 = count_targets s options required (mkPlanCounters 0 0 0) (model_targets prefix) /\
      rendered (plan_slots 0 prefix) acc.2.1 /\ acc.2.2 = 4 * Z.of_nat (length prefix))).
    + split; [done|]. split; [done|]. split; [constructor|done].
    + intros prefix pool rest [c [cs class]] w1 El (Hw1 & Hc & Hr & Hcl). simpl in *. subst c class.
      rewrite El in Hp. apply Forall_app in Hp as [_ Hp]. inversion Hp; subst.
      eapply wp_mono; [eapply plan_pool_spec; try done|].
      { intros Hx. apply Exists_exists. exists pool. split; [|done]. apply elem_of_app. right. by left. }
      intros [c' [cs' class']] w2 (Hw2 & Hc' & Hcl' & Hr'). simpl in *.
      split; [done|]. split; [|split].
      * rewrite Hc'. unfold model_targets. rewrite fmap_app, join_app, count_targets_app. simpl.
        by rewrite app_nil_r.
      * by rewrite plan_slots_snoc, Z.add_0_l.
      * rewrite Hcl', length_app. simpl. lia.
  - intros acc w' (? & ? & ? & ?). done.
Qed.
End Slots.

(** ** Readiness and provider priority *)

(** The candidates with readiness answer [b], in order. *)
Definition with_answer (b : bool) (cs : list Selection) (answers : list bool) : list Selection :=
  omap (fun '(c, a) => if Bool.eqb a b then Some (set_Running b c) else None) (zip cs answers).

Definition readied (cs cs' : list Selection) : Prop :=
  exists answers, length answers = length cs /\
    cs' = with_answer true cs answers ++ with_answer false cs answers.

Lemma zip_snoc {A B} (l : list A) (k : list B) a b :
  length l = length k -> zip (l ++ [a]) (k ++ [b]) = zip l k ++ [(a, b)].
Proof. intros H. by rewrite zip_with_app. Qed.

Section Finish.
Context `{UnicodeTables} `{MathLog} {W : Type} `{Entropy W}.

Lemma partition_ready_spec (ready : string -> W -> bool * W) (inv : W -> Prop) QE cs w :
  (forall name w, inv w -> inv (ready name w).2) -> inv w ->
  wp (partition_ready ready cs) QE (fun cs' w' => inv w' /\ readied cs cs') w.
Proof.
  intros Hready Hw. unfold partition_ready. apply wp_bind. eapply wp_mono.
  - apply (wp_for_each QE (fun prefix acc w' => inv w' /\ exists answers,
      length answers = length prefix /\ acc = (with_answer true prefix answers, with_answer false prefix answers))).
    + split; [done|]. by exists [].
    + intros prefix c rest acc w1 _ [Hw1 (answers & Hl & ->)]. apply wp_bind, wp_act.
      pose proof (Hready (dep_Name (sel_Deployment c)) w1 Hw1) as Hw2.
      destruct (ready _ w1) as [b w2]. cbn [fst snd] in *. apply wp_ret. split; [done|].
      exists (answers ++ [b]). split; [by rewrite !length_app, Hl|].
      unfold with_answer. rewrite !zip_snoc, !omap_app by done. simpl.
      destruct b; simpl; by rewrite ?app_nil_r.
  - intros acc w' [Hw' (answers & Hl & ->)]. apply wp_ret. split; [done|]. by exists answers.
Qed.

(** [BuildPlanFor] after the model was resolved. *)
Lemma BuildPlanFor_spec s requested model options inv elig w :
  Oracle options inv elig -> inv w ->
  ResolveModel s requested (po_AllowInternal options) = inr model ->
  Forall (fun pool => positive_targets (pool_Targets pool)) (vm_Pools model) ->
  let required := mergeCapabilities (vm_RequiredCapabilities model) (po_RequiredCapabilities options) in
  let slots := plan_slots s options required elig 0 (sorted_pools model) in
  wp (BuildPlanFor s requested options)
     (fun e _ =>
        plan_draw_error options inv
          (Exists (fun pool => MaxInt64 < pool_weight pool) (sorted_pools model)) e \/
        rendered s requested model options slots [] /\
        e = plan_error (vm_Name model) required
              (count_targets s options required (mkPlanCounters 0 0 0)
                 (model_targets (sorted_pools model))))
     (fun plan w' => inv w' /\ exists cs cs',
        rendered s requested model options slots cs /\ cs <> [] /\
        (cs' = cs \/ readied cs cs') /\
        plan = finish_plan requested model options required cs') w.
Proof.
  intros Ho Hw Hres Hpos required slots. unfold BuildPlanFor. rewrite Hres. fold required.
  assert (Hpos' : Forall (fun pool => positive_targets (pool_Targets pool)) (sorted_pools model)).
  { unfold sorted_pools. by rewrite stable_sort_Permutation. }
  pose proof (plan_pools_spec s requested model options required elig inv (sorted_pools model) w
                Hpos' Hw) as Hpools.
  unfold wp, mbind, M_bind in *.
  destruct (for_each _ _ _ w) as [[e|[c [cs class]]] w1]; [by left|].
  destruct Hpools as (Hw1 & Hc & Hr). cbn [fst snd] in *. subst c. fold slots in Hr.
  destruct cs as [|c0 cs]; [by right|].
  assert (Hnone : inv w1 /\ exists cs1 cs', rendered s requested model options slots cs1 /\
    cs1 <> [] /\ (cs' = cs1 \/ readied cs1 cs') /\
    finish_plan requested model options required (c0 :: cs) =
      finish_plan requested model options required cs').
  { split; [done|]. exists (c0 :: cs), (c0 :: cs). split_and!; [done..|by left|done]. }
  destruct (PrefersRunning _); [|exact Hnone].
  destruct (po_Ready options) as [ready|] eqn:Hready; [|exact Hnone]. clear Hnone.
  pose proof (partition_ready_spec ready inv (fun (_ : PlanError) _ => False) (c0 :: cs) w1
    (fun name w => oracle_ready ready name w Hready) Hw1) as Hp. unfold wp in Hp.
  destruct (partition_ready _ _ w1) as [[e|cs'] w2] eqn:E.
  - done.
  - destruct Hp as [Hw2 Hp]. split; [done|]. exists (c0 :: cs), cs'.
    split_and!; [done..|by right|done].
Qed.
End Finish.
