(* ===== verification/PlanTheorems.v ===== *)
(** * Theorems about plans and snapshots

    Which candidates a plan holds, in which order, how many attempts it makes
    and what an empty plan reports; the fairness of the weighted draw; the
    stability of the rendezvous order; model resolution and visibility. *)

From stdpp Require Import base gmap list strings sorting.
From Stdlib Require Import ZArith Lia.
From S2P Require Import Prelude GoStrings Policies Capabilities Config Sha256 Picker Plan PlanFacts.

Local Open Scope Z_scope.

(** ** Reference *)

(** A candidate as drawn, before readiness and provider priority mark it. *)
Definition base (c : Selection) : Selection := set_Running false (set_ProviderPreference 0 c).

(** Ordered classes: an earlier class, in a pool of no lower priority. *)
Definition class_le (x y : Selection) : Prop :=
  sel_PreferenceClass x <= sel_PreferenceClass y /\ sel_PoolPriority x <= sel_PoolPriority y.

(** Ready candidates first, then by class. *)
Definition ready_le (x y : Selection) : Prop :=
  (sel_Running x = true /\ sel_Running y = false) \/
  (sel_Running x = sel_Running y /\ class_le x y).

(** The order of attempts: the provider preference, then readiness, then the
    operator's pools and the preference classes inside them. *)
Definition attempt_le (x y : Selection) : Prop :=
  sel_ProviderPreference x < sel_ProviderPreference y \/
  (sel_ProviderPreference x = sel_ProviderPreference y /\ ready_le x y).

Section Order.
Context `{UnicodeTables} `{MathLog} {W : Type} `{Entropy W}.
Context (s : Snapshot) (requested : string) (model : VirtualModel) (options : PlanOptions W)
  (required : list Capability) (elig : string -> bool).

(** Every target of the model the request may be routed to, as a candidate:
    pools by priority, the four preference classes of each. *)
Definition routable : list Selection :=
  mjoin ((fun sl => render s requested model sl (sl_targets sl))
           <$> plan_slots s options required elig 0 (sorted_pools model)).

Lemma rendered_Permutation slots cs :
  rendered s requested model options slots cs ->
  cs ≡ₚ mjoin ((fun sl => render s requested model sl (sl_targets sl)) <$> slots).
Proof.
  induction 1 as [|slots cs sl l Hr IH [Hl _]]; [done|].
  rewrite fmap_app, join_app. simpl. rewrite app_nil_r, IH. unfold render at 2 4. by rewrite Hl.
Qed.

Lemma render_in sl l c :
  c ∈ render s requested model sl l ->
  sel_PreferenceClass c = sl_class sl /\ sel_PoolPriority c = sl_priority sl /\ base c = c /\
  sel_Running c = false /\ sel_ProviderPreference c = 0 /\
  exists e, e ∈ l /\ selection_of s requested model (sl_priority sl) (sl_class sl) e = Some c.
Proof.
  unfold render. rewrite list_elem_of_omap. intros (e & He & Hc). pose proof Hc as Hc'.
  unfold selection_of in Hc. apply bind_Some in Hc as (d & _ & Hc).
  apply bind_Some in Hc as (p & _ & [= <-]). eauto 10.
Qed.

Lemma rendered_in slots cs c :
  rendered s requested model options slots cs -> c ∈ cs ->
  exists sl, sl ∈ slots /\ c ∈ render s requested model sl (sl_targets sl).
Proof.
  intros Hr Hc. rewrite (rendered_Permutation _ _ Hr) in Hc.
  apply list_elem_of_join in Hc as (l & Hc & Hl). apply list_elem_of_fmap in Hl as (sl & -> & Hsl).
  eauto.
Qed.

Lemma rendered_base slots cs :
  rendered s requested model options slots cs ->
  Forall (fun c => base c = c /\ sel_Running c = false /\ sel_ProviderPreference c = 0) cs.
Proof.
  intros Hr. apply Forall_forall. intros c Hc.
  destruct (rendered_in _ _ _ Hr Hc) as (sl & _ & Hin).
  destruct (render_in _ _ _ Hin) as (_ & _ & ? & ? & ? & _). done.
Qed.

Definition slot_le (a b : slot) : Prop :=
  sl_class a <= sl_class b /\ sl_priority a <= sl_priority b.

Lemma plan_slots_in class pools sl :
  sl ∈ plan_slots s options required elig class pools ->
  class <= sl_class sl /\ exists pool, pool ∈ pools /\ sl_priority sl = pool_Priority pool.
Proof.
  revert class. induction pools as [|p pools IH]; intros class; cbn [plan_slots]; [by intros ?%not_elem_of_nil|].
  rewrite elem_of_app. intros [Hin|Hin].
  - unfold pool_slots in Hin. apply list_elem_of_fmap in Hin as (k & -> & Hk). simpl.
    split; [set_solver by lia|]. exists p. split; [by left|done].
  - destruct (IH _ Hin) as (? & q & Hq & ?). split; [lia|]. exists q. split; [by right|done].
Qed.

Lemma plan_slots_sorted class pools :
  StronglySorted (fun x y => (pool_Priority y <? pool_Priority x) = false) pools ->
  StronglySorted slot_le (plan_slots s options required elig class pools).
Proof.
  intros Hs. revert class. induction Hs as [|p pools Hs IH Hp]; intros class; cbn [plan_slots]; [constructor|].
  apply StronglySorted_app_2; [| |apply IH].
  - intros a b Ha Hb. apply plan_slots_in in Hb as (Hb & q & Hq & E).
    rewrite Forall_forall in Hp. specialize (Hp q Hq). apply Z.ltb_ge in Hp.
    unfold pool_slots in Ha. apply list_elem_of_fmap in Ha as (k & -> & Hk).
    unfold slot_le. simpl. split; [|lia]. set_solver by lia.
  - unfold pool_slots. repeat constructor; unfold slot_le; simpl; lia.
Qed.

Lemma rendered_sorted slots cs :
  StronglySorted slot_le slots -> rendered s requested model options slots cs ->
  StronglySorted class_le cs.
Proof.
  intros Hs. induction 1 as [|slots cs sl l Hr IH Ho]; [constructor|].
  apply StronglySorted_app in Hs as (Hcross & Hs & _). apply StronglySorted_app_2; [|by apply IH|].
  - intros x y Hx Hy. destruct (rendered_in _ _ _ Hr Hx) as (sl' & Hsl & Hx').
    destruct (render_in _ _ _ Hx') as (Ex1 & Ex2 & _).
    destruct (render_in _ _ _ Hy) as (Ey1 & Ey2 & _).
    destruct (Hcross sl' sl Hsl ltac:(by left)). unfold class_le. lia.
  - assert (Hall : Forall (fun c => sel_PreferenceClass c = sl_class sl /\
      sel_PoolPriority c = sl_priority sl) (render s requested model sl l)).
    { apply Forall_forall. intros c Hc. by destruct (render_in _ _ _ Hc) as (? & ? & _). }
    induction Hall as [|c cs' [Hc1 Hc2] Hcs IHc]; constructor; [done|].
    eapply Forall_impl; [exact Hcs|]. intros x [Hx1 Hx2]. unfold class_le. lia.
Qed.

Lemma sorted_pools_sorted :
  StronglySorted (fun x y => (pool_Priority y <? pool_Priority x) = false) (sorted_pools model).
Proof. apply (stable_sort_sorted (fun x y => pool_Priority x <? pool_Priority y)). Qed.
End Order.

(** ** Readiness *)
Lemma with_answer_in b cs answers x :
  x ∈ with_answer b cs answers ->
  exists c, c ∈ cs /\ x = set_Running b c.
Proof.
  unfold with_answer. rewrite list_elem_of_omap. intros ([c a] & Hin & E).
  destruct (Bool.eqb a b); [|done]. injection E as <-. exists c. split; [|done].
  by eapply elem_of_zip_l.
Qed.

Lemma with_answer_sorted b cs answers :
  StronglySorted class_le cs -> StronglySorted ready_le (with_answer b cs answers).
Proof.
  intros Hs. revert answers. induction Hs as [|c cs Hs IH Hc]; intros answers; [constructor|].
  destruct answers as [|a answers]; [constructor|].
  unfold with_answer. simpl. destruct (Bool.eqb a b); [|apply IH]. constructor; [apply IH|].
  apply Forall_forall. intros x (y & Hy & ->)%with_answer_in.
  rewrite Forall_forall in Hc. right. split; [done|]. exact (Hc y Hy).
Qed.

Lemma readied_sorted cs cs' :
  StronglySorted class_le cs -> readied cs cs' -> StronglySorted ready_le cs'.
Proof.
  intros Hs (answers & _ & ->). apply StronglySorted_app_2; [|by apply with_answer_sorted..].
  intros x y (c & _ & ->)%with_answer_in (d & _ & ->)%with_answer_in. by left.
Qed.

Lemma class_ready_sorted cs :
  Forall (fun c => sel_Running c = false) cs -> StronglySorted class_le cs ->
  StronglySorted ready_le cs.
Proof.
  intros Hf Hs. induction Hs as [|c cs Hs IH Hc]; [constructor|].
  apply Forall_cons in Hf as [Hf1 Hf]. constructor; [by apply IH|].
  rewrite Forall_forall in *. intros x Hx. right. split; [by rewrite Hf1, Hf|by apply Hc].
Qed.

Lemma readied_base cs cs' : readied cs cs' -> base <$> cs' ≡ₚ base <$> cs.
Proof.
  intros (answers & Hl & ->). revert answers Hl.
  induction cs as [|c cs IH]; intros [|a answers] Hl; try done. simpl in Hl.
  specialize (IH answers ltac:(lia)). rewrite fmap_app in *. rewrite fmap_cons, <- IH.
  unfold with_answer. simpl. destruct a; simpl; [done|].
  by rewrite <- Permutation_middle.
Qed.

Lemma readied_preference cs cs' :
  Forall (fun c => sel_ProviderPreference c = 0) cs -> readied cs cs' ->
  Forall (fun c => sel_ProviderPreference c = 0) cs'.
Proof.
  rewrite !Forall_forall. intros H (answers & _ & ->) x [Hx|Hx]%elem_of_app;
    apply with_answer_in in Hx as (c & Hc & ->); exact (H c Hc).
Qed.

(** ** Provider priority *)
Section Priority.
Context `{UnicodeTables}.

Lemma base_preference r c : base (set_ProviderPreference r c) = base c.
Proof. done. Qed.

(** The names of a selector's list as they are kept, and their ranks. *)
Record ranks_ok (acc : list string * gmap string Z) : Prop := {
  rk_nodup : NoDup acc.1;
  rk_lookup name i : acc.1 !! i = Some name <-> acc.2 !! name = Some (Z.of_nat i) /\ (i < length acc.1)%nat;
  rk_range name r : acc.2 !! name = Some r -> exists i, r = Z.of_nat i /\ acc.1 !! i = Some name;
}.

Lemma priority_step_ok acc raw : ranks_ok acc -> ranks_ok (priority_step acc raw).
Proof.
  destruct acc as [priority ranks]. intros I. unfold priority_step.
  destruct (_ || _); [done|]. set (name := ToLower (TrimSpace raw)).
  destruct (bool_decide_reflect (is_Some (ranks !! name))) as [|Hnew]; [done|].
  destruct I as [In Il Ir]; simpl in *.
  assert (Hnot : name ∉ priority).
  { intros (i & Hi)%list_elem_of_lookup. apply Il in Hi as [Hi _]. apply Hnew. eauto. }
  split; simpl.
  - apply NoDup_app. split; [done|]. split; [|apply NoDup_singleton].
    intros x Hx ->%list_elem_of_singleton. done.
  - intros name' i. rewrite lookup_app, length_app, lookup_insert. simpl. split.
    + destruct (priority !! i) as [x|] eqn:Hi.
      * intros [= ->]. pose proof (proj1 (Il _ _) Hi) as [Hr Hlt].
        rewrite decide_False by (intros <-; apply Hnew; eauto). split; [done|lia].
      * intros Hs. apply list_lookup_singleton_Some in Hs as [Hi0 <-].
        apply lookup_ge_None in Hi. rewrite decide_True by done. split; [do 2 f_equal; lia|lia].
    + intros [Hr Hlt]. case_decide as Hd.
      * injection Hr as Hr. assert (i = length priority) as -> by lia.
        rewrite lookup_ge_None_2 by lia. rewrite Nat.sub_diag. simpl. by rewrite Hd.
      * apply Ir in Hr as (j & Hj & Hjl). assert (i = j) as -> by lia. by rewrite Hjl.
  - intros name' r. rewrite lookup_insert. case_decide as Hd.
    + intros [= <-]. exists (length priority). split; [done|]. subst.
      by rewrite lookup_app, lookup_ge_None_2, Nat.sub_diag by lia.
    + intros Hr. destruct (Ir _ _ Hr) as (i & -> & Hi). exists i. split; [done|].
      by apply lookup_app_l_Some.
Qed.

Lemma priority_ranks_ok configured : ranks_ok (priority_ranks configured).
Proof.
  unfold priority_ranks. assert (H0 : ranks_ok ([], ∅)).
  { split; simpl; [constructor| |].
    - intros name i. rewrite lookup_nil, lookup_empty. split; [done|by intros [? _]].
    - intros name r. by rewrite lookup_empty. }
  revert H0. generalize (([], ∅) : list string * gmap string Z).
  induction (take _ configured) as [|raw l IH]; intros acc Hacc; simpl; [done|].
  by apply IH, priority_step_ok.
Qed.

(** The rank a provider gets: the index of its lower-cased name, or the number
    of listed names. *)
Definition provider_rank (names : list string) (ranks : gmap string Z) (c : Selection) : Z :=
  default (Z.of_nat (length names)) (ranks !! ToLower (prov_Name (sel_Provider c))).

Lemma applyProviderPriority_base cs configured :
  base <$> (applyProviderPriority cs configured).1 ≡ₚ base <$> cs.
Proof.
  unfold applyProviderPriority. destruct (priority_ranks configured) as [[|name names] ranks]; [done|].
  cbn [fst]. rewrite stable_sort_Permutation, <- list_fmap_compose. done.
Qed.

Lemma applyProviderPriority_sorted cs configured :
  Forall (fun c => sel_ProviderPreference c = 0) cs -> StronglySorted ready_le cs ->
  StronglySorted attempt_le (applyProviderPriority cs configured).1.
Proof.
  intros Hf Hs. unfold applyProviderPriority.
  destruct (priority_ranks configured) as [[|name names] ranks]; cbn [fst].
  - induction Hs as [|c cs Hs IH Hc]; [constructor|]. apply Forall_cons in Hf as [Hf1 Hf].
    constructor; [by apply IH|]. rewrite Forall_forall in *. intros x Hx. right.
    split; [by rewrite Hf1, Hf|by apply Hc].
  - pose proof (stable_sort_lex (fun x y => sel_ProviderPreference x <? sel_ProviderPreference y)
      ready_le) as Hlex.
    assert (Hmap : StronglySorted ready_le
      ((fun c => set_ProviderPreference (provider_rank (name :: names) ranks c) c) <$> cs)).
    { eapply StronglySorted_fmap; [|exact Hs]. done. }
    apply Hlex in Hmap. unfold provider_rank in Hmap.
    revert Hmap. generalize (stable_sort (fun x y => sel_ProviderPreference x <? sel_ProviderPreference y)
      ((fun c => set_ProviderPreference (default (Z.of_nat (length (name :: names)))
        (ranks !! ToLower (prov_Name (sel_Provider c)))) c) <$> cs)).
    induction 1 as [|c l Hl IH Hc]; constructor; [done|].
    eapply Forall_impl; [exact Hc|]. intros x [Hx1 Hx2]. unfold attempt_le.
    apply Z.ltb_ge in Hx1. destruct (Z.ltb_spec (sel_ProviderPreference c) (sel_ProviderPreference x));
      [by left|]. right. split; [lia|]. by apply Hx2.
Qed.
End Priority.

(** ** The plan built *)

(** Every target of every pool of the model has a positive weight. *)
Definition weights_ok (model : VirtualModel) : Prop :=
  Forall (fun pool => positive_targets (pool_Targets pool)) (vm_Pools model).

Definition plan_required {W} (model : VirtualModel) (options : PlanOptions W) : list Capability :=
  mergeCapabilities (vm_RequiredCapabilities model) (po_RequiredCapabilities options).

Section Built.
Context `{UnicodeTables} `{MathLog} {W : Type} `{Entropy W}.
Context (s : Snapshot) (requested : string) (model : VirtualModel) (options : PlanOptions W)
  (inv : W -> Prop) (elig : string -> bool) (w : W).
Context (Horacle : Oracle options inv elig) (Hinv : inv w)
  (Hresolve : ResolveModel s requested (po_AllowInternal options) = inr model)
  (Hweights : weights_ok model).

(** The candidates before they are cut for a pin. *)
Lemma plan_candidates plan w' :
  BuildPlanFor s requested options w = (inr plan, w') ->
  inv w' /\ exists cs,
    cs <> [] /\ base <$> cs ≡ₚ routable s requested model options (plan_required model options) elig /\
    Forall (fun c => sel_ProviderPreference c = 0) cs /\
    StronglySorted ready_le cs /\
    plan = finish_plan requested model options (plan_required model options) cs.
Proof.
  intros Hrun. pose proof (BuildPlanFor_spec s requested model options inv elig w Horacle Hinv
    Hresolve Hweights) as Hspec.
  unfold wp in Hspec. rewrite Hrun in Hspec. destruct Hspec as (Hw' & cs & cs' & Hr & Hne & Hready & ->).
  split; [done|]. exists cs'.
  pose proof (rendered_base _ _ _ _ _ _ Hr) as Hb.
  assert (Hbase : base <$> cs = cs).
  { clear Hr Hne Hready. induction Hb as [|c cs [Hc _] _ IH]; [done|]. by rewrite fmap_cons, Hc, IH. }
  assert (Hpref : Forall (fun c => sel_ProviderPreference c = 0) cs) by (eapply Forall_impl; [exact Hb|naive_solver]).
  assert (Hrun0 : Forall (fun c => sel_Running c = false) cs) by (eapply Forall_impl; [exact Hb|naive_solver]).
  pose proof (rendered_sorted _ _ _ _ _ _ (plan_slots_sorted s options _ elig 0 _ (sorted_pools_sorted model)) Hr) as Hs.
  pose proof (rendered_Permutation _ _ _ _ _ _ Hr) as Hperm.
  destruct Hready as [->|Hready].
  - split_and!; try done; [by rewrite Hbase, Hperm|by apply class_ready_sorted].
  - split_and!; try done.
    + intros ->. apply Hne. apply readied_base in Hready. simpl in Hready.
      rewrite Hbase in Hready. by apply Permutation_nil_l in Hready.
    + by rewrite (readied_base _ _ Hready), Hbase, Hperm.
    + by eapply readied_preference.
    + by eapply readied_sorted.
Qed.

Lemma finish_candidates cs :
  let plan := finish_plan requested model options (plan_required model options) cs in
  let ordered := (applyProviderPriority cs (po_ProviderPriority options)).1 in
  plan_Candidates plan =
    (if negb (String.eqb (po_PinnedDeployment options) "") && (1 <? Z.of_nat (length ordered))
     then take 1 ordered else ordered).
Proof. unfold finish_plan. by destruct (applyProviderPriority _ _). Qed.

Lemma finish_attempts cs :
  let plan := finish_plan requested model options (plan_required model options) cs in
  let limit := Z.min (eml_MaxAttempts (ModelLimits_Effective (vm_Limits model)))
                 (Z.of_nat (length (plan_Candidates plan))) in
  plan_MaxAttempts plan = (if po_SingleAttempt options then Z.min 1 limit else limit) /\
  eml_MaxAttempts (plan_Limits plan) = plan_MaxAttempts plan.
Proof.
  unfold finish_plan. destruct (applyProviderPriority _ _) as [ordered names].
  cbn [plan_MaxAttempts plan_Limits plan_Candidates eml_MaxAttempts]. split; [|done].
  set (n := Z.of_nat (length _)). set (k := eml_MaxAttempts _).
  destruct (Z.ltb_spec n k), (po_SingleAttempt options); simpl; destruct_tests; lia.
Qed.
End Built.

Lemma StronglySorted_take {A} (R : A -> A -> Prop) n l :
  StronglySorted R l -> StronglySorted R (take n l).
Proof. intros Hs. rewrite <- (take_drop n l) in Hs. by apply StronglySorted_app_1_l in Hs. Qed.

(** ** Claims about plans *)

(** C21: A plan holds exactly the targets the request may be routed to, each as
    often as its pools list it: every target that survives the pins, the
    provider restriction, the protocol resolver, the capability match and the
    eligibility check is a candidate, and nothing else is.  A pinned plan keeps
    one of them. *)
Theorem plan_routes_exactly `{UnicodeTables} `{MathLog} {W : Type} `{Entropy W}
    s requested model (options : PlanOptions W) inv elig w plan w' :
  Oracle options inv elig -> inv w ->
  ResolveModel s requested (po_AllowInternal options) = inr model -> weights_ok model ->
  BuildPlanFor s requested options w = (inr plan, w') ->
  let routes := routable s requested model options (plan_required model options) elig in
  if String.eqb (po_PinnedDeployment options) "" then base <$> plan_Candidates plan ≡ₚ routes
  else exists c, plan_Candidates plan = [c] /\ base c ∈ routes.
Proof.
  intros Ho Hw Hres Hpos Hrun routes.
  destruct (plan_candidates s requested model options inv elig w Ho Hw Hres Hpos plan w' Hrun)
    as (_ & cs & Hne & Hperm & _ & _ & ->).
  rewrite finish_candidates.
  pose proof (applyProviderPriority_base cs (po_ProviderPriority options)) as Hb.
  rewrite Hperm in Hb. fold routes in Hb.
  destruct (String.eqb (po_PinnedDeployment options) ""); simpl; [done|].
  destruct (applyProviderPriority cs (po_ProviderPriority options)).1 as [|c [|c2 l]] eqn:E.
  - exfalso. assert (Hn : base <$> cs ≡ₚ []) by (rewrite Hperm; fold routes; by rewrite <- Hb).
    apply Permutation_nil_r, fmap_nil_inv in Hn. done.
  - exists c. split; [done|]. rewrite <- Hb. by left.
  - exists c. assert (Hlen : (1 <? Z.of_nat (length (c :: c2 :: l))) = true) by (apply Z.ltb_lt; simpl; lia).
    rewrite Hlen. split; [done|]. rewrite <- Hb. by left.
Qed.

(** The attempt order is the documented one: candidates go by provider
    preference, then ready before not ready, then by pool priority and, inside
    a pool, native before translated and declared before unknown capability
    support. *)
Theorem plan_attempt_order `{UnicodeTables} `{MathLog} {W : Type} `{Entropy W}
    s requested model (options : PlanOptions W) inv elig w plan w' :
  Oracle options inv elig -> inv w ->
  ResolveModel s requested (po_AllowInternal options) = inr model -> weights_ok model ->
  BuildPlanFor s requested options w = (inr plan, w') ->
  StronglySorted attempt_le (plan_Candidates plan).
Proof.
  intros Ho Hw Hres Hpos Hrun.
  destruct (plan_candidates s requested model options inv elig w Ho Hw Hres Hpos plan w' Hrun)
    as (_ & cs & _ & _ & Hpref & Hs & ->).
  rewrite finish_candidates.
  pose proof (applyProviderPriority_sorted cs (po_ProviderPriority options) Hpref Hs) as Hsorted.
  destruct (_ && _); [by apply StronglySorted_take|done].
Qed.

(** A plan built under validated limits makes at least one attempt and
    never more than its candidates, the configured [max_attempts] or, for a
    request that allows a single attempt, one; the limits it hands on carry
    the same number. *)
Theorem plan_attempts_bounded `{UnicodeTables} `{MathLog} {W : Type} `{Entropy W}
    s requested model (options : PlanOptions W) inv elig w plan w' :
  Oracle options inv elig -> inv w ->
  ResolveModel s requested (po_AllowInternal options) = inr model -> weights_ok model ->
  ModelLimits_Validate (vm_Limits model) = None ->
  BuildPlanFor s requested options w = (inr plan, w') ->
  1 <= plan_MaxAttempts plan <= Z.of_nat (length (plan_Candidates plan)) /\
  plan_MaxAttempts plan <= eml_MaxAttempts (ModelLimits_Effective (vm_Limits model)) <= maxAttempts /\
  (po_SingleAttempt options = true -> plan_MaxAttempts plan = 1) /\
  eml_MaxAttempts (plan_Limits plan) = plan_MaxAttempts plan.
Proof.
  intros Ho Hw Hres Hpos Hlim Hrun.
  destruct (plan_candidates s requested model options inv elig w Ho Hw Hres Hpos plan w' Hrun)
    as (_ & cs & Hne & _ & _ & _ & ->).
  destruct (finish_attempts requested model options cs) as [-> ->].
  assert (Hc : 1 <= Z.of_nat (length (plan_Candidates (finish_plan requested model options
    (plan_required model options) cs)))).
  { rewrite finish_candidates.
    pose proof (Permutation_length (applyProviderPriority_base cs (po_ProviderPriority options))) as Hl.
    rewrite !length_fmap in Hl. destruct cs; [done|]. simpl in Hl.
    destruct (_ && _); [rewrite length_take|]; lia. }
  assert (He : 1 <= eml_MaxAttempts (ModelLimits_Effective (vm_Limits model)) <= maxAttempts).
  { revert Hlim. unfold ModelLimits_Validate, ModelLimits_Effective, or_default, maxAttempts.
    cbn [eml_MaxAttempts]. destruct (_ || _) eqn:E; [done|]. intros _. prop_tests.
    destruct (Z.eqb_spec (ml_MaxAttempts (vm_Limits model)) 0); lia. }
  destruct (finish_attempts requested model options cs) as [E1 E2].
  destruct (po_SingleAttempt options); split_and!; try done; lia.
Qed.

(** ** Errors *)
Section Errors.
Context {A : Type}.

Lemma count_if_existsb (P : A -> bool) l :
  (0 <? count_if P l) = existsb P l /\ (count_if P l =? 0) = negb (existsb P l).
Proof.
  unfold count_if. induction l as [|x l [IH1 IH2]]; [done|].
  rewrite fmap_cons. cbn [count_true foldr existsb]. fold (count_true (P <$> l)).
  pose proof (count_true_bounds (P <$> l)). destruct (P x); cbn [orb negb].
  - split; [apply Z.ltb_lt|apply Z.eqb_neq]; lia.
  - by rewrite Z.add_0_l.
Qed.

Lemma existsb_Permutation (P : A -> bool) l k : l ≡ₚ k -> existsb P l = existsb P k.
Proof. induction 1; simpl; [done|congruence|by destruct (P x), (P y)|congruence]. Qed.
End Errors.

(** Why a plan has no candidate: no target's protocol preserves the request, no
    target's capabilities cover it, or no target is left. *)
Definition diagnosis {W} (s : Snapshot) (model : VirtualModel) (options : PlanOptions W)
    (required : list Capability) : PlanError :=
  let targets := model_targets (vm_Pools model) in
  let any {A} (f : WeightedTarget -> option A) := existsb (fun t => is_someb (f t)) targets in
  if any (configured_target s options) && negb (any (compatible_target s options)) then
    ErrUnsupportedSemantics
  else if any (configured_target s options) && negb (any (capable_target s options required)) &&
          negb (bool_decide (required = [])) then ErrUnsupportedCapabilities required
  else ErrNoTargets (vm_Name model).

Lemma plan_error_diagnosis {W} s model (options : PlanOptions W) required :
  plan_error (vm_Name model) required
    (count_targets s options required (mkPlanCounters 0 0 0) (model_targets (sorted_pools model))) =
  diagnosis s model options required.
Proof.
  assert (Hp : model_targets (sorted_pools model) ≡ₚ model_targets (vm_Pools model)).
  { unfold model_targets, sorted_pools. by rewrite stable_sort_Permutation. }
  unfold plan_error, diagnosis, count_targets. cbn [pc_protocolTargets pc_compatibleTargets pc_capableTargets].
  rewrite !Z.add_0_l. rewrite !(proj1 (count_if_existsb _ _)), !(proj2 (count_if_existsb _ _)).
  rewrite !(existsb_Permutation _ _ _ Hp). repeat f_equal.
  destruct required; [done|]. by rewrite bool_decide_false.
Qed.

(** The errors of a plan under a lawful picker. *)
Lemma plan_errors `{UnicodeTables} `{MathLog} {W : Type} `{Entropy W}
    s requested model (options : PlanOptions W) inv elig w e w' :
  Oracle options inv elig -> inv w ->
  ResolveModel s requested (po_AllowInternal options) = inr model -> weights_ok model ->
  picker_ok (nil_picker options) ->
  Forall (fun pool => pool_weight pool <= MaxInt64) (vm_Pools model) ->
  BuildPlanFor s requested options w = (inl e, w') ->
  (exists err total v v', e = ErrPicker err /\ nil_picker options total v = (inl err, v')) \/
  (routable s requested model options (plan_required model options) elig = [] /\
   e = diagnosis s model options (plan_required model options)).
Proof.
  intros Ho Hw Hres Hpos Hpick Hfit Hrun.
  pose proof (BuildPlanFor_spec s requested model options inv elig w Ho Hw Hres Hpos) as Hspec.
  unfold wp in Hspec. rewrite Hrun in Hspec. destruct Hspec as [He|[Hr He]].
  - left. destruct e as [| | | |prio|err|v total]; try done; unfold plan_draw_error, draw_error in He.
    + exfalso. apply Exists_exists in He as (pool & Hin & Hover). unfold sorted_pools in Hin.
      rewrite stable_sort_Permutation in Hin. rewrite Forall_forall in Hfit.
      specialize (Hfit pool Hin). lia.
    + destruct He as (total & v & v' & _ & E). by exists err, total, v, v'.
    + exfalso. destruct He as (v1 & v2 & _ & E & Hn). by apply Hn, (Hpick _ _ _ _ E).
  - right. split.
    + apply rendered_Permutation, Permutation_nil_l in Hr. done.
    + by rewrite He, plan_error_diagnosis.
Qed.

(** A request with a routable target always gets a plan unless the picker
    itself fails: with a picker that keeps its contract and pool weights that
    fit an [int64], the only errors are the picker's own and, when nothing is
    routable, the diagnosis of why. *)
Theorem plan_errors_explained `{UnicodeTables} `{MathLog} {W : Type} `{Entropy W}
    s requested model (options : PlanOptions W) inv elig w e w' :
  Oracle options inv elig -> inv w ->
  ResolveModel s requested (po_AllowInternal options) = inr model -> weights_ok model ->
  picker_ok (nil_picker options) ->
  Forall (fun pool => pool_weight pool <= MaxInt64) (vm_Pools model) ->
  BuildPlanFor s requested options w = (inl e, w') ->
  (exists err total v v', e = ErrPicker err /\ nil_picker options total v = (inl err, v')) \/
  (routable s requested model options (plan_required model options) elig = [] /\
   e = diagnosis s model options (plan_required model options)).
Proof. apply plan_errors. Qed.

(** ** Weighted draws *)

Lemma seqZ_count lo hi n :
  0 <= lo <= hi -> hi <= n ->
  Z.of_nat (length (List.filter (fun v => (lo <=? v) && (v <? hi)) (seqZ 0 n))) = hi - lo.
Proof.
  intros Hlo Hn.
  assert (E : seqZ 0 n = seqZ 0 lo ++ seqZ lo (hi - lo) ++ seqZ hi (n - hi)).
  { replace n with (lo + ((hi - lo) + (n - hi))) at 1 by lia.
    rewrite seqZ_app by lia. f_equal. rewrite seqZ_app by lia. do 2 f_equal; lia. }
  rewrite E, !List.filter_app, !length_app.
  assert (Hnone : forall l, Forall (fun v => v < lo \/ hi <= v) l ->
    List.filter (fun v => (lo <=? v) && (v <? hi)) l = []).
  { induction 1 as [|v l Hv _ IH]; [done|]. simpl.
    destruct (Z.leb_spec lo v), (Z.ltb_spec v hi); simpl; try done; lia. }
  assert (Hall : forall l, Forall (fun v => lo <= v < hi) l ->
    List.filter (fun v => (lo <=? v) && (v <? hi)) l = l).
  { induction 1 as [|v l Hv _ IH]; [done|]. simpl.
    destruct (Z.leb_spec lo v), (Z.ltb_spec v hi); simpl; try lia. by rewrite IH. }
  rewrite (Hnone (seqZ 0 lo)), (Hnone (seqZ hi (n - hi))), (Hall (seqZ lo (hi - lo))).
  - rewrite length_seqZ. simpl. lia.
  - apply Forall_forall. intros v Hv%elem_of_seqZ. lia.
  - apply Forall_forall. intros v Hv%elem_of_seqZ. lia.
  - apply Forall_forall. intros v Hv%elem_of_seqZ. lia.
Qed.

Lemma weights_take_mono l i j :
  positive l -> (i <= j)%nat -> weights (take i l) <= weights (take j l).
Proof.
  intros Hp Hij. rewrite <- (take_drop i (take j l)), weights_app.
  rewrite take_take, Nat.min_l by lia.
  assert (positive (drop i (take j l))) as H%weights_nonneg by (by apply Forall_drop, Forall_take).
  lia.
Qed.

(** The weighted draw is fair: of the values the picker may return for a
    group, exactly [weight] many select each target, so a uniform picker
    selects it with probability [weight / total]. *)
Theorem weighted_draw_fair l i e :
  positive l -> weights l <= MaxInt64 -> l !! i = Some e ->
  Z.of_nat (length (List.filter (fun v => Nat.eqb (pick_index v 0 0 l) i) (seqZ 0 (weights l)))) =
    weight e.
Proof.
  intros Hp Hm Hi. pose proof (take_S_r l i e Hi) as HS.
  assert (Hw : weights (take (S i) l) = weights (take i l) + weight e).
  { rewrite HS, weights_app. simpl. lia. }
  assert (H0 : 0 <= weights (take i l)) by (by apply weights_nonneg, Forall_take).
  assert (He : 0 < weight e) by (eapply Forall_lookup_1 in Hi; [|exact Hp]; done).
  assert (Htot : weights (take (S i) l) <= weights l).
  { rewrite <- (take_drop (S i) l) at 2. rewrite weights_app.
    assert (positive (drop (S i) l)) as Hd%weights_nonneg by (by apply Forall_drop). lia. }
  replace (weight e) with (weights (take (S i) l) - weights (take i l)) by lia.
  rewrite <- (seqZ_count (weights (take i l)) (weights (take (S i) l)) (weights l)) by lia.
  do 2 f_equal. apply List.filter_ext_in. intros v Hv%list_elem_of_In%elem_of_seqZ.
  destruct (pick_index_spec l v 0 0 Hp) as (pre & e' & post & El & -> & Hr); [lia..|].
  assert (Hpre : take (length pre) l = pre) by (rewrite El; apply take_app_length).
  assert (Hpre1 : weights (take (S (length pre)) l) = weights pre + weight e').
  { rewrite (take_S_r _ _ e'), weights_app, Hpre; [simpl; lia|].
    rewrite El. by apply list_lookup_middle. }
  rewrite <- Hpre in Hr at 1 2. apply eq_true_iff_eq.
  rewrite Nat.eqb_eq, andb_true_iff, Z.leb_le, Z.ltb_lt. simpl. split.
  - intros <-. rewrite Hpre1, Hpre in *. lia.
  - intros Hv'. destruct (lt_eq_lt_dec (length pre) i) as [[Hlt|]|Hlt]; [|done|]; exfalso.
    + pose proof (weights_take_mono l (S (length pre)) i Hp ltac:(lia)). rewrite Hpre in Hr. lia.
    + pose proof (weights_take_mono l (S i) (length pre) Hp ltac:(lia)). lia.
Qed.

(** ** Rendezvous order *)

(** The targets of a pool in rendezvous order. *)
Definition rendezvous `{MathLog} (key : string) (targets : list WeightedTarget)
  : list WeightedTarget := at_indices targets (weightedHashOrder key targets).

(** The rendezvous order selects without replacement and reassigns
    minimally: it lists every target once, and taking any targets out of the
    pool leaves the order of the others as it was, so a key moves only when
    its own target goes. *)
Theorem rendezvous_minimal_reassignment `{MathLog} `{!MathLogLaws} key targets
    (P : WeightedTarget -> bool) :
  positive_targets targets ->
  rendezvous key targets ≡ₚ targets /\
  rendezvous key (List.filter P targets) = List.filter P (rendezvous key targets).
Proof.
  intros Hp. unfold rendezvous.
  assert (Hsort : forall l, positive_targets l ->
    at_indices l (weightedHashOrder key l) = stable_sort (hash_less id key) l).
  { intros l Hl. rewrite <- (weightedHashOrder_hash_less id key l Hl).
    by rewrite list_fmap_id. }
  rewrite (Hsort targets Hp), Hsort.
  - split; [apply stable_sort_Permutation|]. symmetry.
    apply (stable_sort_filter (hash_less id key)).
  - apply List.Forall_forall. intros t [Ht _]%filter_In.
    unfold positive_targets in Hp. rewrite List.Forall_forall in Hp. by apply Hp.
Qed.

(** A step that neither reads nor changes the world. *)
Definition pure_step {W E A} (m : M W E A) : Prop := exists r, forall w, m w = (r, w).

Lemma pure_ret {W E A} (a : A) : pure_step (W := W) (E := E) (mret a).
Proof. by exists (inr a). Qed.
Lemma pure_throw {W E A} (e : E) : pure_step (W := W) (A := A) (throw e).
Proof. by exists (inl e). Qed.
Lemma pure_bind {W E A B} (m : M W E A) (f : A -> M W E B) :
  pure_step m -> (forall a, pure_step (f a)) -> pure_step (m ≫= f).
Proof.
  intros [[e|a] Hm] Hf.
  - exists (inl e). intros w. unfold mbind, M_bind. by rewrite Hm.
  - destruct (Hf a) as [r Hr]. exists r. intros w. unfold mbind, M_bind. by rewrite Hm.
Qed.
Lemma pure_for_each {W E A B} (f : B -> A -> M W E B) l b :
  (forall b a, pure_step (f b a)) -> pure_step (for_each f b l).
Proof.
  intros Hf. revert b. induction l as [|a l IH]; intros b; simpl; [apply pure_ret|].
  apply pure_bind; [apply Hf|]. apply IH.
Qed.

Create HintDb pure_db.
#[local] Hint Resolve pure_ret pure_throw pure_bind pure_for_each : pure_db.

Section Pure.
Context `{UnicodeTables} `{MathLog} {W : Type} `{Entropy W}.
Context (s : Snapshot) (requested : string) (model : VirtualModel) (options : PlanOptions W).

Lemma scan_target_pure required acc target :
  po_Eligibility options = None -> pure_step (scan_target s options required acc target).
Proof.
  intros He. unfold scan_target. destruct acc as [c g]. rewrite He. simpl.
  repeat first [apply pure_ret | apply pure_bind; [|intros ?] | case_match].
Qed.

Lemma draw_group_pure fuel picker priority remaining drawn :
  pure_step (W := W) (draw_group fuel false picker priority remaining drawn).
Proof.
  revert remaining drawn. induction fuel as [|fuel IH]; intros [|e remaining] drawn; cbn [draw_group];
    try apply pure_ret.
  destruct (total_weight 0 _) as [total|]; [|apply pure_throw].
  apply pure_bind; [apply pure_ret|]. intros v. destruct (_ !! _); [apply IH|apply pure_ret].
Qed.

Lemma plan_pool_pure required acc pool :
  po_Eligibility options = None -> draws_random model options = false ->
  pure_step (plan_pool s requested model options required acc pool).
Proof.
  intros He Hd. unfold plan_pool. destruct acc as [c ordered]. apply pure_bind.
  { apply pure_for_each. intros. by apply scan_target_pure. }
  intros [c' g]. apply pure_bind; [|intros; apply pure_ret].
  apply pure_for_each. intros [cs class] group. unfold plan_group. rewrite Hd.
  apply pure_bind; [apply draw_group_pure|]. intros. apply pure_ret.
Qed.
End Pure.

(** With weighted-hash selection and a selection key, and no runtime state
    consulted, a plan is a function of the snapshot, the request and the key:
    it draws no randomness, so every gateway process orders the candidates
    alike. *)
Theorem hash_plan_deterministic `{UnicodeTables} `{MathLog} {W : Type} `{Entropy W}
    s requested model (options : PlanOptions W) :
  ResolveModel s requested (po_AllowInternal options) = inr model ->
  sp_Mode (vm_Selection model) = SelectionWeightedHash -> po_SelectionKey options <> ""%string ->
  po_Eligibility options = None -> po_Ready options = None ->
  exists result, forall w, BuildPlanFor s requested options w = (result, w).
Proof.
  intros Hres Hmode Hkey He Hready.
  assert (Hd : draws_random model options = false).
  { unfold draws_random. apply String.eqb_neq in Hkey.
    rewrite Hmode, Hkey, String.eqb_refl. simpl. by rewrite andb_false_r. }
  change (pure_step (BuildPlanFor s requested options)). unfold BuildPlanFor. rewrite Hres, Hready.
  apply pure_bind.
  - apply pure_for_each. intros. by apply plan_pool_pure.
  - intros [c [cs class]]. destruct cs; [apply pure_throw|].
    apply pure_bind; [|intros; apply pure_ret]. destruct (PrefersRunning _); apply pure_ret.
Qed.

(** ** Soft affinity *)

Lemma find_deployment_spec name before rest b c a :
  find_deployment name before rest = Some (b, c, a) ->
  exists mid, b = before ++ mid /\ rest = mid ++ c :: a /\
    dep_Name (sel_Deployment c) = name /\
    Forall (fun x => dep_Name (sel_Deployment x) <> name) mid.
Proof.
  revert before. induction rest as [|x rest IH]; intros before; simpl; [done|].
  destruct (String.eqb_spec (dep_Name (sel_Deployment x)) name) as [E|E].
  - intros [= <- <- <-]. exists []. by rewrite app_nil_r.
  - intros (mid & -> & -> & Hn & Hf)%IH. exists (x :: mid).
    split_and!; [by rewrite <- app_assoc|done|done|by constructor].
Qed.

Lemma same_rank_le first c x :
  same_rank first c = true -> attempt_le first x -> attempt_le c x.
Proof.
  unfold same_rank. intros Hs. apply andb_true_iff in Hs as [Hs E4].
  apply andb_true_iff in Hs as [Hs E3]. apply andb_true_iff in Hs as [E1 E2].
  apply Z.eqb_eq in E1, E2, E4. apply eqb_prop in E3.
  unfold attempt_le, ready_le, class_le. rewrite E1, E2, E3, E4. tauto.
Qed.

(** Soft affinity only breaks ties: preferring a deployment permutes the
    candidates and leaves a plan in attempt order in attempt order; it answers
    true exactly when the preferred deployment then comes first, and changes
    nothing when it answers false. *)
Theorem prefer_deployment_breaks_ties cs deployment :
  StronglySorted attempt_le cs ->
  let '(moved, cs') := PreferDeployment cs deployment in
  cs' ≡ₚ cs /\ StronglySorted attempt_le cs' /\ (moved = false -> cs' = cs) /\
  (moved = true <->
     deployment <> ""%string /\
     exists c rest, cs' = c :: rest /\ dep_Name (sel_Deployment c) = deployment).
Proof.
  intros Hs. unfold PreferDeployment. destruct cs as [|first rest].
  { split_and!; try done. split; [done|by intros (_ & ? & ? & ? & _)]. }
  destruct (String.eqb_spec deployment "") as [->|Hne].
  { split_and!; try done. split; [done|by intros [? _]]. }
  destruct (String.eqb_spec (dep_Name (sel_Deployment first)) deployment) as [E|E].
  { split_and!; try done. split; eauto. }
  destruct (find_deployment deployment [] rest) as [[[b c] a]|] eqn:Hf.
  2: { split_and!; try done. split; [done|]. intros (_ & c & r & [= <- <-] & Ec). done. }
  apply find_deployment_spec in Hf as (mid & -> & -> & Hn & _). simpl.
  destruct (same_rank first c) eqn:Hr; simpl.
  2: { split_and!; try done. split; [done|]. intros (_ & c' & r & [= <- <-] & Ec). done. }
  inversion Hs as [|? ? Hs' Hfirst]; subst. apply Forall_app in Hfirst as [Hmid Hca].
  apply Forall_cons in Hca as [Hc Ha]. split_and!; [|constructor| |].
  - exact (Permutation_middle (first :: mid) a c).
  - apply StronglySorted_app in Hs' as (Hcross & Hmids & Hcs). inversion Hcs; subst.
    constructor.
    + apply StronglySorted_app_2; [|done..]. intros x y Hx Hy. apply Hcross; [done|by right].
    + by apply Forall_app.
  - constructor; [|apply Forall_app; split].
    + apply (same_rank_le first); [done|]. right. split; [done|]. right. split; [done|]. unfold class_le. lia.
    + eapply Forall_impl; [exact Hmid|]. intros x. by apply same_rank_le.
    + eapply Forall_impl; [exact Ha|]. intros x. by apply same_rank_le.
  - done.
  - split; [|done]. intros _. split; [done|]. eauto.
Qed.
