(* ===== verification/SnapshotTheorems.v ===== *)
(** * Theorems about snapshots and capability policies

    Model resolution and visibility on the snapshot of a document, the models
    offered to a router, and the capability policy a document resolves to. *)

From stdpp Require Import base gmap list strings sorting.
From Stdlib Require Import ZArith Lia.
From S2P Require Import Prelude GoStrings Policies Capabilities Config Picker Plan PlanFacts.

Local Open Scope Z_scope.

(** ** Maps built by insertion *)
Section Insertions.
Context {V : Type}.

Definition insert_all (m : gmap string V) (l : list (string * V)) : gmap string V :=
  foldl (fun m kv => <[kv.1 := kv.2]> m) m l.

Lemma insert_all_lookup m l k v :
  NoDup l.*1 ->
  insert_all m l !! k = Some v <-> (k, v) ∈ l \/ (k ∉ l.*1 /\ m !! k = Some v).
Proof.
  revert m. induction l as [|[k' v'] l IH]; intros m Hn; simpl.
  - set_solver.
  - apply NoDup_cons in Hn as [Hk Hn]. rewrite (IH _ Hn), elem_of_cons, not_elem_of_cons.
    destruct (decide (k = k')) as [->|Hne].
    + rewrite lookup_insert_eq. assert ((k', v) ∉ l).
      { intros Hin. apply Hk. apply list_elem_of_fmap. by exists (k', v). }
      split; [|].
      * intros [?|[_ [= ->]]]; [done|]. by left; left.
      * intros [[[= ->]|?]|[[? _] _]]; [by right|done..].
    + rewrite lookup_insert_ne by done. naive_solver.
Qed.

Lemma foldl_insert_map {A} (key : A -> string) (value : A -> V) l m :
  foldl (fun m x => <[key x := value x]> m) m l = insert_all m ((fun x => (key x, value x)) <$> l).
Proof. unfold insert_all. revert m. induction l as [|x l IH]; intros m; simpl; [done|]. apply IH. Qed.
End Insertions.

(** A map of values computed from another map's. *)
Lemma foldl_insert_fmap {A V} (key : A -> string) (f : A -> V) (l : list A) m :
  foldl (fun m x => <[key x := f x]> m) (f <$> m) l =
    f <$> foldl (fun m x => <[key x := x]> m) (m : gmap string A) l.
Proof.
  revert m. induction l as [|x l IH]; intros m; simpl; [done|]. by rewrite <- IH, fmap_insert.
Qed.

(** ** The snapshot of a valid document *)

(** The names a model answers to. *)
Definition model_names (m : VirtualModel) : list string := vm_Name m :: vm_Aliases m.

(** Names are unique, as validation checks. *)
Record names_unique (d : Document) : Prop := {
  nu_models : NoDup (mjoin (model_names <$> doc_VirtualModels d));
  nu_deployments : NoDup (dep_Name <$> doc_Deployments d);
  nu_providers : NoDup (prov_Name <$> doc_Providers d);
}.

Definition alias_entries (models : list VirtualModel) : list (string * string) :=
  mjoin ((fun m => (fun n => (n, vm_Name m)) <$> model_names m) <$> models).

Lemma snapshot_aliases d : sn_aliases (snapshot_of d) = insert_all ∅ (alias_entries (doc_VirtualModels d)).
Proof.
  simpl. generalize (∅ : gmap string string). induction (doc_VirtualModels d) as [|m l IH]; intros g; [done|].
  simpl. rewrite IH. unfold alias_entries. simpl. unfold insert_all at 2. simpl.
  rewrite foldl_app. f_equal. rewrite (foldl_insert_map (fun a => a) (fun _ => vm_Name m)). done.
Qed.

Lemma alias_keys models : (alias_entries models).*1 = mjoin (model_names <$> models).
Proof.
  unfold alias_entries. induction models as [|m l IH]; [done|]. rewrite !fmap_cons.
  change (((fun n => (n, vm_Name m)) <$> model_names m) ++
    mjoin ((fun m => (fun n => (n, vm_Name m)) <$> model_names m) <$> l)).*1
    with (fst <$> (((fun n => (n, vm_Name m)) <$> model_names m) ++
    mjoin ((fun m => (fun n => (n, vm_Name m)) <$> model_names m) <$> l))).
  etrans; [apply fmap_app|]. rewrite <- list_fmap_compose.
  change (mjoin (model_names m :: (model_names <$> l)))
    with (model_names m ++ mjoin (model_names <$> l)).
  rewrite <- IH. f_equal. apply list_fmap_id.
Qed.

Lemma alias_lookup d requested canonical :
  names_unique d ->
  sn_aliases (snapshot_of d) !! requested = Some canonical <->
  exists m, m ∈ doc_VirtualModels d /\ canonical = vm_Name m /\ requested ∈ model_names m.
Proof.
  intros [Hn _ _]. rewrite snapshot_aliases, insert_all_lookup by by rewrite alias_keys.
  rewrite lookup_empty. unfold alias_entries. split.
  - intros [Hin|[_ ?]]; [|done]. apply list_elem_of_join in Hin as (l & Hin & Hl).
    apply list_elem_of_fmap in Hl as (m & -> & Hm). apply list_elem_of_fmap in Hin as (n & [= -> ->] & Hin).
    eauto.
  - intros (m & Hm & -> & Hin). left. apply list_elem_of_join.
    exists ((fun n => (n, vm_Name m)) <$> model_names m). split.
    + apply list_elem_of_fmap. eauto.
    + apply list_elem_of_fmap. eauto.
Qed.

Lemma model_names_NoDup models : NoDup (mjoin (model_names <$> models)) -> NoDup (vm_Name <$> models).
Proof.
  induction models as [|m l IH]; [constructor|]. simpl. intros Hn. apply NoDup_cons in Hn as [Hm Hn].
  apply NoDup_app in Hn as (_ & _ & Hn). constructor; [|by apply IH].
  intros Hin. apply Hm, elem_of_app. right. apply list_elem_of_fmap in Hin as (m' & E & Hin').
  apply list_elem_of_join. exists (model_names m'). split; [rewrite E; by left|].
  apply list_elem_of_fmap. eauto.
Qed.

Lemma model_lookup d name m :
  names_unique d ->
  sn_models (snapshot_of d) !! name = Some m <-> m ∈ doc_VirtualModels d /\ vm_Name m = name.
Proof.
  intros [Hn _ _]. simpl. rewrite (foldl_insert_map vm_Name (fun m => m)).
  rewrite insert_all_lookup.
  - rewrite lookup_empty, list_elem_of_fmap. naive_solver.
  - rewrite <- list_fmap_compose. by apply model_names_NoDup.
Qed.

Lemma deployment_lookup d name x :
  names_unique d ->
  sn_deployments (snapshot_of d) !! name = Some x <-> x ∈ doc_Deployments d /\ dep_Name x = name.
Proof.
  intros [_ Hn _]. simpl. rewrite (foldl_insert_map dep_Name (fun m => m)).
  rewrite insert_all_lookup; [|by rewrite <- list_fmap_compose].
  rewrite lookup_empty, list_elem_of_fmap. naive_solver.
Qed.

Lemma provider_lookup d name x :
  names_unique d ->
  sn_providers (snapshot_of d) !! name = Some x <-> x ∈ doc_Providers d /\ prov_Name x = name.
Proof.
  intros [_ _ Hn]. simpl. rewrite (foldl_insert_map prov_Name (fun m => m)).
  rewrite insert_all_lookup; [|by rewrite <- list_fmap_compose].
  rewrite lookup_empty, list_elem_of_fmap. naive_solver.
Qed.

Lemma ResolveModel_spec d requested allow m :
  names_unique d ->
  ResolveModel (snapshot_of d) requested allow = inr m <->
  m ∈ doc_VirtualModels d /\ requested ∈ model_names m /\ (is_internal m = true -> allow = true).
Proof.
  intros Hd. unfold ResolveModel. destruct (sn_aliases _ !! requested) as [c|] eqn:E.
  - apply (alias_lookup d requested c Hd) in E as (m' & Hm' & -> & Hr).
    assert (Hl : sn_models (snapshot_of d) !! vm_Name m' = Some m') by by apply model_lookup.
    rewrite Hl. simpl. split.
    + destruct (is_internal m') eqn:Hi, allow; simpl; try done; intros [= <-];
        split_and!; try done; congruence.
    + intros (Hm & Hrm & Hint).
      assert (Hsame : sn_aliases (snapshot_of d) !! requested = Some (vm_Name m)) by (apply alias_lookup; eauto).
      assert (Hsame' : sn_aliases (snapshot_of d) !! requested = Some (vm_Name m')) by (apply alias_lookup; eauto).
      assert (m' = m) as ->.
      { assert (Hl' : sn_models (snapshot_of d) !! vm_Name m = Some m) by by apply model_lookup.
        congruence. }
      destruct (is_internal m) eqn:Hi; [|done]. by rewrite Hint.
  - split; [done|]. intros (Hm & Hrm & _).
    assert (Hsame : sn_aliases (snapshot_of d) !! requested = Some (vm_Name m)) by (apply alias_lookup; eauto).
    congruence.
Qed.

Lemma ModelCandidates_spec d required allow m :
  names_unique d ->
  m ∈ ModelCandidatesForCapabilities (snapshot_of d) required allow <->
  m ∈ doc_VirtualModels d /\ (is_internal m = true -> allow = true) /\
  modelSupportsCapabilities (snapshot_of d) m required = true.
Proof.
  intros Hd. unfold ModelCandidatesForCapabilities. rewrite stable_sort_Permutation.
  rewrite list_elem_of_In, filter_In, <- list_elem_of_In, list_elem_of_fmap.
  assert (Hin : (exists y : string * VirtualModel, m = y.2 /\ y ∈ map_to_list (sn_models (snapshot_of d))) <->
    m ∈ doc_VirtualModels d).
  { split.
    - intros ([k m'] & -> & Hin%elem_of_map_to_list). simpl. by apply (model_lookup d k m' Hd) in Hin as [? _].
    - intros Hm. exists (vm_Name m, m). split; [done|]. apply elem_of_map_to_list. by apply model_lookup. }
  rewrite Hin. destruct (is_internal m), allow; simpl; naive_solver.
Qed.

(** ** Claims *)

(** On the snapshot of a document with unique names, a request resolves to
    a model exactly when it names that model canonically or by alias and the
    model is not internal, or internal access is allowed; every other request
    gets the not-found error, which does not tell a hidden internal model from
    a missing one. *)
Theorem resolve_model_exact d requested allow :
  names_unique d ->
  (forall m, ResolveModel (snapshot_of d) requested allow = inr m <->
     m ∈ doc_VirtualModels d /\ requested ∈ model_names m /\ (is_internal m = true -> allow = true)) /\
  (forall e, ResolveModel (snapshot_of d) requested allow = inl e -> e = ErrModelNotFound requested).
Proof.
  intros Hd. split; [intros m; by apply ResolveModel_spec|].
  intros e. unfold ResolveModel. destruct (sn_aliases _ !! _); [|by intros [= <-]].
  destruct (_ && _); [by intros [= <-]|done].
Qed.

(** The models offered to a router are exactly the document's models that
    the caller may see and that have a deployment able to admit the required
    capabilities, each once, in name order. *)
Theorem model_candidates_exact d required allow :
  names_unique d ->
  let candidates := ModelCandidatesForCapabilities (snapshot_of d) required allow in
  (forall m, m ∈ candidates <->
     m ∈ doc_VirtualModels d /\ (is_internal m = true -> allow = true) /\
     exists pool target deployment,
       pool ∈ vm_Pools m /\ target ∈ pool_Targets pool /\
       deployment ∈ doc_Deployments d /\ dep_Name deployment = wt_Deployment target /\
       Deployment_MatchCapabilities deployment (mergeCapabilities (vm_RequiredCapabilities m) required)
         <> CapabilityMatchRejected) /\
  NoDup candidates /\
  StronglySorted (fun x y => String.ltb (vm_Name y) (vm_Name x) = false) candidates.
Proof.
  intros Hd candidates. split_and!.
  - intros m. unfold candidates. rewrite ModelCandidates_spec by done.
    unfold modelSupportsCapabilities. rewrite existsb_exists. setoid_rewrite existsb_exists.
    setoid_rewrite <- list_elem_of_In. split.
    + intros (Hm & Hint & pool & Hpool & target & Ht & Hmatch). split; [done|]. split; [done|].
      destruct (sn_deployments _ !! wt_Deployment target) as [dep|] eqn:E; [|done].
      apply (deployment_lookup d _ _ Hd) in E as [Hdep Hn].
      apply negb_true_iff, bool_decide_eq_false in Hmatch. by exists pool, target, dep.
    + intros (Hm & Hint & pool & target & dep & Hpool & Ht & Hdep & Hn & Hmatch).
      split; [done|]. split; [done|]. exists pool. split; [done|]. exists target. split; [done|].
      assert (E : sn_deployments (snapshot_of d) !! wt_Deployment target = Some dep)
        by by apply deployment_lookup.
      rewrite E. by apply negb_true_iff, bool_decide_eq_false.
  - unfold candidates, ModelCandidatesForCapabilities. rewrite stable_sort_Permutation.
    apply NoDup_ListNoDup, List.NoDup_filter, NoDup_ListNoDup.
    apply NoDup_fmap_2_strong; [|apply NoDup_map_to_list].
    intros [k m] [k' m'] Hk%elem_of_map_to_list Hk'%elem_of_map_to_list. simpl. intros <-.
    apply (model_lookup d _ _ Hd) in Hk as [_ <-]. by apply (model_lookup d _ _ Hd) in Hk' as [_ <-].
  - apply (stable_sort_sorted (fun x y => String.ltb (vm_Name x) (vm_Name y))).
Qed.

(** ** Capability policies *)

(** The first value that is set, as the source's fallbacks choose it. *)
Fixpoint first_set (values : list string) : string :=
  match values with
  | [] => ""
  | v :: rest => if String.eqb v "" then first_set rest else v
  end.

Lemma first_set_set l v : v ∈ l -> v <> ""%string -> first_set l <> ""%string.
Proof.
  intros Hin Hv. induction Hin as [v l|v x l _ IH]; simpl.
  - apply String.eqb_neq in Hv as E. by rewrite E.
  - destruct (String.eqb_spec x ""); [by apply IH|done].
Qed.

Definition global_default (d : Document) (edition : string) : string :=
  first_set [doc_CapabilityDefaults d; edition; UnknownCapabilityTry].

Lemma global_default_eq d edition :
  or_default_str (doc_CapabilityDefaults d) (or_default_str edition UnknownCapabilityTry) =
  global_default d edition.
Proof.
  unfold global_default, or_default_str. simpl.
  by destruct (String.eqb (doc_CapabilityDefaults d) ""), (String.eqb edition "").
Qed.

Lemma global_default_set d edition : global_default d edition <> ""%string.
Proof.
  apply (first_set_set _ UnknownCapabilityTry); [|done]. set_solver.
Qed.

(** What resolution does to one deployment whose provider is [provider]. *)
Definition resolved_unknown (d : Document) (edition : string) (provider : option Provider)
    (deployment : Deployment) : string :=
  first_set [capol_Unknown (dep_CapabilityPolicy deployment);
             match provider with Some p => prov_CapabilityDefaults p | None => ""%string end;
             doc_CapabilityDefaults d; edition; UnknownCapabilityTry].

Definition resolved_capabilities (provider : option Provider) (deployment : Deployment)
  : list Capability :=
  match provider with
  | Some p =>
      if String.eqb (prov_Type p) "openai_responses" &&
         negb (mem CapabilityResponses (dep_Capabilities deployment))
      then dep_Capabilities deployment ++ [CapabilityResponses] else dep_Capabilities deployment
  | None => dep_Capabilities deployment
  end.

Lemma ResolveCapabilityPolicies_spec d edition :
  doc_Deployments (ResolveCapabilityPolicies d edition) =
    (fun dep =>
       let provider := sn_providers (snapshot_of d) !! dep_Provider dep in
       with_capabilities dep (resolved_capabilities provider dep)
         {| capol_Unknown := resolved_unknown d edition provider dep;
            capol_Unsupported := capol_Unsupported (dep_CapabilityPolicy dep) |})
    <$> doc_Deployments d.
Proof.
  unfold ResolveCapabilityPolicies. cbn [doc_Deployments]. rewrite global_default_eq.
  assert (Hmap : forall V (f : Provider -> V),
    foldl (fun m p => <[prov_Name p := f p]> m) (∅ : gmap string V) (doc_Providers d) =
    f <$> sn_providers (snapshot_of d)).
  { intros V f. rewrite <- (fmap_empty f). apply foldl_insert_fmap. }
  rewrite !Hmap. apply list_fmap_ext. intros i dep _. rewrite !lookup_fmap.
  pose proof (global_default_set d edition) as Hset.
  unfold resolved_unknown. cbn [first_set]. fold (first_set [doc_CapabilityDefaults d; edition; UnknownCapabilityTry]).
  fold (global_default d edition). unfold or_default_str.
  destruct (sn_providers (snapshot_of d) !! dep_Provider dep) as [p|]; cbn [fmap option_fmap option_map default resolved_capabilities].
  - f_equal. f_equal. destruct (String.eqb (capol_Unknown _) ""); [|done]. simpl negb.
    destruct (String.eqb (prov_CapabilityDefaults p) "") eqn:E; simpl; [|by rewrite E].
    apply String.eqb_neq in Hset. by rewrite Hset.
  - f_equal. f_equal. by destruct (String.eqb (capol_Unknown _) "").
Qed.

Lemma Document_eq (d1 d2 : Document) :
  with_Deployments d1 [] = with_Deployments d2 [] -> doc_Deployments d1 = doc_Deployments d2 ->
  d1 = d2.
Proof. destruct d1, d2. cbv [with_Deployments]. simpl. congruence. Qed.

Lemma resolved_unknown_set d edition provider dep : resolved_unknown d edition provider dep <> ""%string.
Proof. apply (first_set_set _ UnknownCapabilityTry); [|done]. set_solver. Qed.

(** Resolution is idempotent. *)
Lemma ResolveCapabilityPolicies_again d edition edition' :
  ResolveCapabilityPolicies (ResolveCapabilityPolicies d edition) edition' =
    ResolveCapabilityPolicies d edition.
Proof.
  pose proof (resolved_unknown_set d edition) as Hset.
  apply Document_eq; [done|]. rewrite (ResolveCapabilityPolicies_spec (ResolveCapabilityPolicies d edition)).
    rewrite ResolveCapabilityPolicies_spec, <- list_fmap_compose. apply list_fmap_ext. intros i dep _.
    change (sn_providers (snapshot_of (ResolveCapabilityPolicies d edition)))
      with (sn_providers (snapshot_of d)).
    cbn [compose with_capabilities dep_Provider]. unfold compose, with_capabilities. simpl.
    set (provider := foldl _ ∅ (doc_Providers d) !! dep_Provider dep). f_equal.
    + unfold resolved_capabilities. simpl. destruct provider as [p|]; [|done].
      destruct (String.eqb (prov_Type p) "openai_responses"); simpl; [|done].
      destruct (mem CapabilityResponses (dep_Capabilities dep)) eqn:E; simpl; [by rewrite E|].
      assert (Hm : mem CapabilityResponses (dep_Capabilities dep ++ [CapabilityResponses]) = true).
      { apply mem_spec, elem_of_app. right. by left. }
      by rewrite Hm.
    + f_equal. unfold resolved_unknown at 1. simpl. pose proof (Hset provider dep) as Hs.
      apply String.eqb_neq in Hs. by rewrite Hs.
Qed.

(** A document's capability policies resolve by precedence: a
    deployment's own choice, then its provider's default, the document's, the
    edition's, and finally [try]; a deployment of an [openai_responses]
    provider also declares [responses]; every other field is untouched.
    Resolving again, under any edition default, changes nothing. *)
Theorem capability_policy_precedence d edition edition' :
  (forall i dep, doc_Deployments d !! i = Some dep ->
     let provider := sn_providers (snapshot_of d) !! dep_Provider dep in
     let chosen := first_set [capol_Unknown (dep_CapabilityPolicy dep);
                              match provider with
                              | Some p => prov_CapabilityDefaults p
                              | None => ""%string
                              end;
                              doc_CapabilityDefaults d; edition; UnknownCapabilityTry] in
     chosen <> ""%string /\
     doc_Deployments (ResolveCapabilityPolicies d edition) !! i =
       Some (with_capabilities dep (resolved_capabilities provider dep)
               {| capol_Unknown := chosen;
                  capol_Unsupported := capol_Unsupported (dep_CapabilityPolicy dep) |})) /\
  ResolveCapabilityPolicies (ResolveCapabilityPolicies d edition) edition' =
    ResolveCapabilityPolicies d edition.
Proof.
  split; [|apply ResolveCapabilityPolicies_again].
  intros i dep Hi provider chosen. split; [apply resolved_unknown_set|].
  rewrite ResolveCapabilityPolicies_spec, list_lookup_fmap, Hi. done.
Qed.

(** A deployment is rejected for a request exactly when some required
    capability is declared unsupported, or is undeclared while the policy
    rejects unknown capabilities or the capability is not safe to try; it is a
    declared match exactly when every required capability is declared and none
    is unsupported.  Asking for more never improves the match. *)
Theorem capability_match_exact policy supported required extra :
  let rejects c := mem c (capol_Unsupported policy) = true \/
    (mem c supported = false /\
     (UnknownCapabilityPolicy_Effective (capol_Unknown policy) <> UnknownCapabilityTry \/
      mem c safeUnknownCapabilities = false)) in
  (MatchCapabilities policy supported required = CapabilityMatchRejected <->
     exists c, c ∈ required /\ rejects c) /\
  (MatchCapabilities policy supported required = CapabilityMatchDeclared <->
     Forall (fun c => mem c (capol_Unsupported policy) = false /\ mem c supported = true) required) /\
  (MatchCapabilities policy supported (required ++ extra) <> CapabilityMatchRejected ->
     MatchCapabilities policy supported required <> CapabilityMatchRejected).
Proof.
  intros rejects. rewrite !MatchCapabilities_spec.
  assert (Hrej : forall c, admits policy supported c = false <-> rejects c).
  { intros c. unfold admits, rejects. destruct (mem c (capol_Unsupported policy)); simpl; [naive_solver|].
    destruct (mem c supported); simpl; [naive_solver|].
    destruct (String.eqb_spec (UnknownCapabilityPolicy_Effective (capol_Unknown policy)) UnknownCapabilityTry);
      simpl; [|naive_solver]. destruct (mem c safeUnknownCapabilities); naive_solver. }
  assert (Hall : forall l, forallb (admits policy supported) l = false <-> exists c, c ∈ l /\ rejects c).
  { intros l. setoid_rewrite <- Hrej. induction l as [|c l IH]; simpl.
    - split; [done|]. intros (c & Hc & _). by apply not_elem_of_nil in Hc.
    - rewrite andb_false_iff, IH. setoid_rewrite elem_of_cons. naive_solver. }
  split_and!.
  - rewrite <- Hall. destruct (forallb (admits policy supported) required); [|done].
    by destruct (forallb _ required).
  - rewrite Forall_and. destruct (forallb (admits policy supported) required) eqn:Ha.
    + rewrite forallb_forall in Ha. destruct (forallb (fun c => mem c supported) required) eqn:Hs.
      * rewrite forallb_forall in Hs. split; [intros _|done].
        split; apply List.Forall_forall; intros c Hc; [|by apply Hs].
        specialize (Ha c Hc). unfold admits in Ha. by destruct (mem c (capol_Unsupported policy)).
      * split; [done|]. intros [_ H]. rewrite List.Forall_forall in H.
        assert (forallb (fun c => mem c supported) required = true) by (by apply forallb_forall). congruence.
    + split; [done|]. intros [Hu Hs]. apply Hall in Ha as (c & Hc & Hr).
      rewrite Forall_forall in Hu, Hs. destruct Hr as [Hr|[Hr _]].
      * by rewrite Hu in Hr.
      * by rewrite Hs in Hr.
  - rewrite forallb_app. destruct (forallb (admits policy supported) required); simpl; [|done].
    by destruct (forallb _ required).
Qed.
