(* ===== verification/ValidateFacts.v ===== *)
(** * What validation establishes

    The loops of [Document.Validate] in terms of lists: unique names, resolved
    references, positive weights.  [well_formed] collects what a document that
    passed guarantees to the components that run it. *)

From stdpp Require Import base gmap list strings sorting.
From Stdlib Require Import ZArith Lia.
From S2P Require Import Prelude GoStrings Policies Capabilities Privacy Config Fields Settings.
From S2P Require Import Profiles Picker Plan Validate PlanFacts PlanTheorems SnapshotTheorems.

Local Open Scope Z_scope.
Local Open Scope go_scope.

(** ** Well-formed documents *)

(** The deployments a model's pools name, in order. *)
Definition model_deployments (m : VirtualModel) : list string :=
  mjoin ((fun pool => wt_Deployment <$> pool_Targets pool) <$> vm_Pools m).

(** The models a guardrail policy calls. *)
Definition guardrail_models (p : GuardrailPolicy) : list string :=
  gr_Model <$> (gp_Pre p ++ gp_Post p).

(** A model that routing can serve. *)
Record model_ok (d : Document) (m : VirtualModel) : Prop := {
  mo_name : vm_Name m <> ""%string;
  mo_limits : ModelLimits_Validate (vm_Limits m) = None;
  mo_retry : RetryPolicy_Validate (vm_Retry m) = None;
  mo_selection : SelectionPolicy_Validate (vm_Selection m) = None;
  mo_pools : vm_Pools m <> [] /\ Forall (fun pool => pool_Targets pool <> []) (vm_Pools m);
  mo_priorities : NoDup (pool_Priority <$> vm_Pools m);
  mo_targets : NoDup (model_deployments m);
  mo_known : model_deployments m ⊆ dep_Name <$> doc_Deployments d;
  mo_weights : weights_ok m;
  mo_capable : vm_RequiredCapabilities m <> [] ->
    exists dep, dep ∈ doc_Deployments d /\ dep_Name dep ∈ model_deployments m /\
      Deployment_MatchCapabilities dep (vm_RequiredCapabilities m) <> CapabilityMatchRejected;
  mo_guardrails :
    guardrail_models (vm_Guardrails m) ⊆ mjoin (model_names <$> doc_VirtualModels d);
}.

(** A deployment that the target manager accepts and that has a provider. *)
Record deployment_ok (d : Document) (dep : Deployment) : Prop := {
  do_name : dep_Name dep <> ""%string;
  do_provider : dep_Provider dep ∈ prov_Name <$> doc_Providers d;
  do_concurrency : 0 <= dep_MaxConcurrency dep <= maxConcurrency_limit;
  do_circuit : CircuitPolicy_Validate (dep_Circuit dep) = None;
}.

Record well_formed (d : Document) : Prop := {
  wf_names : names_unique d;
  wf_deployments : Forall (deployment_ok d) (doc_Deployments d);
  wf_models : Forall (model_ok d) (doc_VirtualModels d);
}.

(** ** The loops *)
Section Loops.
Context `{UnicodeTables} `{EncodingJSON} `{NetURL}.

Lemma validateID_nonempty v : validateID v = None -> v <> ""%string.
Proof. unfold validateID. intros Hv. split_checks. by apply String.eqb_neq. Qed.

Lemma providers_unique ps s : scan provider_step [] ps = inr s -> NoDup (prov_Name <$> ps).
Proof.
  intros Hs. enough (NoDup (prov_Name <$> ps) /\ s = reverse (prov_Name <$> ps)) as [? _] by done.
  revert Hs. apply (scan_invariant provider_step
    (fun l s => NoDup (prov_Name <$> l) /\ s = reverse (prov_Name <$> l))); [split; [constructor|done]|].
  intros l p s0 s1 [Hn ->] Hstep. unfold provider_step in Hstep. split_checks. subst s1.
  rewrite fmap_app, reverse_app. split; [|done].
  match goal with Hm : mem _ _ = false |- _ => apply mem_false in Hm; rewrite elem_of_reverse in Hm end.
  apply NoDup_app. split_and!; [done| |apply NoDup_singleton].
  intros x Hx ->%list_elem_of_singleton. done.
Qed.

(** The map of the deployments so far. *)
Lemma deployments_unique d s :
  scan (deployment_step d) (∅, []) (doc_Deployments d) = inr s ->
  NoDup (dep_Name <$> doc_Deployments d) /\ Forall (deployment_ok d) (doc_Deployments d) /\
  (forall name, s.1 !! name = sn_deployments (snapshot_of d) !! name).
Proof.
  intros Hs.
  enough (NoDup (dep_Name <$> doc_Deployments d) /\ Forall (deployment_ok d) (doc_Deployments d) /\
    s.1 = foldl (fun m d => <[dep_Name d := d]> m) ∅ (doc_Deployments d)) as (? & ? & ->) by done.
  revert Hs. apply (scan_invariant (deployment_step d)
    (fun l s => NoDup (dep_Name <$> l) /\ Forall (deployment_ok d) l /\
                s.1 = foldl (fun m d => <[dep_Name d := d]> m) ∅ l)).
  { split_and!; [constructor|constructor|done]. }
  intros l dep [m keys] s1 (Hn & Hf & Hm) Hstep. unfold deployment_step in Hstep. simpl in Hm.
  split_checks. subst s1. rewrite foldl_app, fmap_app, Forall_app, Forall_singleton. cbn [fst foldl].
  rewrite <- Hm. split_and!; [|done| |done].
  - match goal with Hb : bool_decide (is_Some (m !! _)) = false |- _ => apply bool_decide_eq_false in Hb as Hnew end.
    rewrite <- eq_None_not_Some, Hm, (foldl_insert_map dep_Name (fun m => m)) in Hnew.
    apply NoDup_app. split_and!; [done| |apply NoDup_singleton].
    intros x Hx ->%list_elem_of_singleton.
    apply list_elem_of_fmap in Hx as (dep' & E & Hx).
    assert (Hl : insert_all ∅ ((fun x => (dep_Name x, x)) <$> l) !! dep_Name dep = Some dep').
    { apply insert_all_lookup; [by rewrite <- list_fmap_compose|]. left.
      apply list_elem_of_fmap. exists dep'. by rewrite E. }
    congruence.
  - prop_tests. split; try done; [by apply validateID_nonempty|by apply mem_spec].
Qed.

(** The targets of the pools. *)
Lemma targets_known deployments targets0 ts targets :
  scan (target_step deployments) targets0 ts = inr targets -> NoDup targets0 ->
  targets = reverse (wt_Deployment <$> ts) ++ targets0 /\ NoDup targets /\
  Forall (fun t => is_Some (deployments !! wt_Deployment t) /\ 0 < wt_Weight t) ts.
Proof.
  intros Hs Hn. revert Hs. apply (scan_invariant (target_step deployments)
    (fun ts targets => targets = reverse (wt_Deployment <$> ts) ++ targets0 /\ NoDup targets /\
       Forall (fun t => is_Some (deployments !! wt_Deployment t) /\ 0 < wt_Weight t) ts)).
  { split_and!; [done|done|constructor]. }
  intros l t s s1 (-> & Hs & Hf) Hstep. unfold target_step in Hstep. split_checks. subst s1.
  prop_tests. rewrite fmap_app, reverse_app, Forall_app, Forall_singleton. split_and!; try done.
  - constructor; [by apply mem_false|done].
  - by eapply bool_decide_eq_true_1.
Qed.

(** What the loop over the pools establishes. *)
Record pools_ok (deployments : gmap string Deployment) (pools : list RoutingPool)
    (acc : list Z * list string) : Prop := {
  po_prio : acc.1 = reverse (pool_Priority <$> pools);
  po_prio_unique : NoDup acc.1;
  po_targets : acc.2 = reverse (mjoin ((fun pool => wt_Deployment <$> pool_Targets pool) <$> pools));
  po_unique : NoDup acc.2;
  po_nonempty : Forall (fun pool => pool_Targets pool <> []) pools;
  po_each : Forall (fun pool =>
    Forall (fun t => is_Some (deployments !! wt_Deployment t) /\ 0 < wt_Weight t)
      (pool_Targets pool)) pools;
}.

Lemma pools_scan deployments pools acc :
  scan (pool_step deployments) ([], []) pools = inr acc -> pools_ok deployments pools acc.
Proof.
  apply scan_invariant; [split; try done; constructor|].
  intros l pool [ps ts] s1 [Hp Hpu Ht Htu Hne He] Hstep. simpl in *.
  unfold pool_step in Hstep. split_checks.
  destruct (scan (target_step deployments) ts (pool_Targets pool)) as [e|ts'] eqn:E; [done|].
  injection Hstep as <-. apply targets_known in E as (-> & Hn & Hf); [|done].
  match goal with Hx : existsb _ ps = false |- _ => rename Hx into Hprio end.
  match goal with Hx : (_ =? 0) = false |- _ => rename Hx into Hlen end.
  split; simpl; rewrite ?fmap_app, ?reverse_app, ?Forall_app, ?Forall_singleton; simpl.
  - by rewrite Hp.
  - constructor; [|done]. intros Hin. rewrite <- not_true_iff_false, existsb_exists in Hprio.
    apply Hprio. exists (pool_Priority pool). split; [by apply list_elem_of_In|by apply Z.eqb_eq].
  - rewrite join_app. simpl. rewrite app_nil_r, reverse_app. by rewrite Ht.
  - done.
  - split; [done|]. intros E. by rewrite E in Hlen.
  - done.
Qed.

(** The names of the models so far, canonical and alias. *)
Lemma aliases_scan canonical names0 aliases names :
  scan (alias_step canonical) names0 aliases = inr names ->
  NoDup aliases /\ Forall (fun a => names0 !! a = None) aliases /\
  (forall n, is_Some (names !! n) <-> is_Some (names0 !! n) \/ n ∈ aliases).
Proof.
  apply (scan_invariant (alias_step canonical) (fun l names =>
    NoDup l /\ Forall (fun a => names0 !! a = None) l /\
    (forall n, is_Some (names !! n) <-> is_Some (names0 !! n) \/ n ∈ l))).
  { split_and!; [constructor|constructor|set_solver]. }
  intros l a s s1 (Hn & Hf & Hd) Hstep. unfold alias_step in Hstep. split_checks. subst s1.
  match goal with Hb : bool_decide _ = false |- _ => apply bool_decide_eq_false in Hb; rewrite Hd in Hb end.
  rewrite Forall_app, Forall_singleton. split_and!.
  - apply NoDup_app. split_and!; [done| |apply NoDup_singleton].
    intros x Hx ->%list_elem_of_singleton. naive_solver.
  - done.
  - apply eq_None_not_Some. naive_solver.
  - intros n. rewrite lookup_insert_is_Some, elem_of_app, list_elem_of_singleton, Hd.
    destruct (decide (a = n)); naive_solver.
Qed.

(** What a turn of the loop over the models checks of the model itself. *)
Record model_checked (deployments : gmap string Deployment) (m : VirtualModel) : Prop := {
  mc_name : vm_Name m <> ""%string;
  mc_limits : ModelLimits_Validate (vm_Limits m) = None;
  mc_retry : RetryPolicy_Validate (vm_Retry m) = None;
  mc_selection : SelectionPolicy_Validate (vm_Selection m) = None;
  mc_pools : vm_Pools m <> [];
  mc_acc : exists acc, pools_ok deployments (vm_Pools m) acc;
  mc_capable : vm_RequiredCapabilities m <> [] -> hasCapableTarget m deployments = true;
}.

Lemma nonempty_length {A} (l : list A) : (Z.of_nat (length l) =? 0) = false <-> l <> [].
Proof. by destruct l. Qed.

Lemma model_step_spec deployments names m names' :
  model_step deployments names m = inr names' ->
  model_checked deployments m /\ names !! vm_Name m = None /\ NoDup (model_names m) /\
  Forall (fun a => names !! a = None) (vm_Aliases m) /\
  (forall n, is_Some (names' !! n) <-> is_Some (names !! n) \/ n ∈ model_names m).
Proof.
  intros Hstep. unfold model_step in Hstep. split_checks.
  match goal with Hb : bool_decide _ = false |- _ =>
    apply bool_decide_eq_false, eq_None_not_Some in Hb; rename Hb into Hnew end.
  destruct (scan (alias_step _) _ _) as [e|s] eqn:Ha; [done|]. split_checks. subst s.
  apply aliases_scan in Ha as (Hn & Hf & Hd).
  match goal with Hp : error_of _ = None |- _ => apply error_of_None in Hp as [acc Hp] end.
  split_and!.
  - split; try done; [by apply validateID_nonempty|by apply nonempty_length|by exists acc; apply pools_scan|].
    intros Hreq. match goal with Hc : _ && negb (hasCapableTarget _ _) = false |- _ => rename Hc into Hcap end.
    apply andb_false_iff in Hcap as [Hcap|Hcap]; [|by apply negb_false_iff].
    destruct (vm_RequiredCapabilities m); [done|]. exfalso. simpl in *. apply Z.ltb_ge in Hcap. lia.
  - done.
  - constructor; [|done]. intros Hin. rewrite Forall_forall in Hf.
    specialize (Hf _ Hin). by rewrite lookup_insert_eq in Hf.
  - eapply Forall_impl; [exact Hf|]. intros a E. simpl in E. by apply lookup_insert_None in E as [? _].
  - intros n. rewrite Hd, lookup_insert_is_Some. unfold model_names. rewrite elem_of_cons.
    destruct (decide (vm_Name m = n)); naive_solver.
Qed.

Lemma models_scan deployments models names :
  scan (model_step deployments) ∅ models = inr names ->
  Forall (model_checked deployments) models /\ NoDup (mjoin (model_names <$> models)) /\
  (forall n, is_Some (names !! n) <-> n ∈ mjoin (model_names <$> models)).
Proof.
  apply (scan_invariant (model_step deployments) (fun models names =>
    Forall (model_checked deployments) models /\ NoDup (mjoin (model_names <$> models)) /\
    (forall n, is_Some (names !! n) <-> n ∈ mjoin (model_names <$> models)))).
  { split_and!; [constructor|constructor|]. intros n. rewrite lookup_empty, is_Some_alt. simpl. set_solver. }
  intros l m s s1 (Hf & Hn & Hd) Hstep. apply model_step_spec in Hstep as (Hc & Hnew & Hnm & Hal & Hd').
  rewrite Forall_app, Forall_singleton, fmap_app, join_app. cbn [fmap list_fmap mjoin list_join].
  rewrite app_nil_r. split_and!; [done|done| |].
  - apply NoDup_app. split_and!; [done| |done]. intros x Hx. rewrite <- Hd in Hx.
    unfold model_names. rewrite elem_of_cons. intros [->|Hin]; [rewrite Hnew in Hx; by destruct Hx|].
    rewrite Forall_forall in Hal. rewrite (Hal _ Hin) in Hx. by destruct Hx.
  - intros n. by rewrite Hd', Hd, elem_of_app.
Qed.

(** ** Guardrails *)
Lemma guardrail_scan modelNames names0 gs names :
  scan (guardrail_step modelNames) names0 gs = inr names ->
  Forall (fun g => is_Some (modelNames !! gr_Model g)) gs.
Proof.
  apply (scan_invariant (guardrail_step modelNames)
    (fun gs _ => Forall (fun g => is_Some (modelNames !! gr_Model g)) gs)); [constructor|].
  intros l g s s1 Hf Hstep. unfold guardrail_step in Hstep. split_checks.
  rewrite Forall_app, Forall_singleton. split; [done|]. prop_tests. by eapply bool_decide_eq_true_1.
Qed.

Lemma guardrails_known policy modelNames :
  validateGuardrails policy modelNames = None ->
  Forall (fun name => is_Some (modelNames !! name)) (guardrail_models policy).
Proof.
  unfold validateGuardrails. intros Hv. split_checks.
  match goal with He : error_of _ = None |- _ => rename He into Hs end. apply error_of_None in Hs as [names Hs].
  cbn [scan] in Hs. unfold guardrail_phase in Hs.
  destruct (fail_if (maxGuardrails <? Z.of_nat (length (gp_Pre policy))) _); [done|]. cbn [check_then] in Hs.
  destruct (scan (guardrail_step modelNames) [] (gp_Pre policy)) as [e|s1] eqn:E1; [done|].
  destruct (fail_if (maxGuardrails <? Z.of_nat (length (gp_Post policy))) _); [done|]. cbn [check_then] in Hs.
  destruct (scan (guardrail_step modelNames) s1 (gp_Post policy)) as [e|s2] eqn:E2; [done|].
  unfold guardrail_models. rewrite Forall_fmap, Forall_app. split; by eapply guardrail_scan.
Qed.

(** ** The document *)
Lemma model_deployments_in m name :
  name ∈ model_deployments m <->
  exists pool t, pool ∈ vm_Pools m /\ t ∈ pool_Targets pool /\ wt_Deployment t = name.
Proof.
  unfold model_deployments. rewrite list_elem_of_join. setoid_rewrite list_elem_of_fmap. split.
  - intros (l & Hin & pool & -> & Hp). apply list_elem_of_fmap in Hin as (t & -> & Ht). eauto.
  - intros (pool & t & Hp & Ht & <-). eexists. split; [|by exists pool].
    apply list_elem_of_fmap. eauto.
Qed.

Lemma capable_deployment m (deployments : gmap string Deployment) :
  hasCapableTarget m deployments = true ->
  exists name dep, deployments !! name = Some dep /\ name ∈ model_deployments m /\
    Deployment_MatchCapabilities dep (vm_RequiredCapabilities m) <> CapabilityMatchRejected.
Proof.
  unfold hasCapableTarget. intros (pool & Hp & Hx)%existsb_exists.
  apply existsb_exists in Hx as (t & Ht & Hx).
  destruct (deployments !! wt_Deployment t) as [dep|] eqn:E; [|done].
  exists (wt_Deployment t), dep. split_and!; [done| |].
  - apply model_deployments_in. exists pool, t. by rewrite !list_elem_of_In.
  - apply negb_true_iff, bool_decide_eq_false in Hx. done.
Qed.

Lemma snapshot_deployment d name dep :
  NoDup (dep_Name <$> doc_Deployments d) ->
  sn_deployments (snapshot_of d) !! name = Some dep -> dep ∈ doc_Deployments d /\ dep_Name dep = name.
Proof.
  intros Hn. simpl. rewrite (foldl_insert_map dep_Name (fun m => m)).
  rewrite insert_all_lookup by by rewrite <- list_fmap_compose.
  rewrite lookup_empty, list_elem_of_fmap. naive_solver.
Qed.

Lemma model_checked_ok d deployments m :
  NoDup (dep_Name <$> doc_Deployments d) ->
  (forall name, deployments !! name = sn_deployments (snapshot_of d) !! name) ->
  guardrail_models (vm_Guardrails m) ⊆ mjoin (model_names <$> doc_VirtualModels d) ->
  model_checked deployments m -> model_ok d m.
Proof.
  intros Hn Hd Hg [Hname Hl Hr Hs Hp (acc & [Ep Hpu Et Htu Hne He]) Hc].
  assert (Hin : forall name, is_Some (deployments !! name) -> name ∈ dep_Name <$> doc_Deployments d).
  { intros name [dep E]. rewrite Hd in E. apply snapshot_deployment in E as [E <-]; [|done].
    apply list_elem_of_fmap. eauto. }
  split; try done.
  - rewrite <- (reverse_Permutation (_ <$> _)). by rewrite <- Ep.
  - unfold model_deployments. rewrite <- (reverse_Permutation (mjoin _)). by rewrite <- Et.
  - intros name (pool & t & Hpool & Ht & <-)%model_deployments_in. apply Hin.
    rewrite Forall_forall in He. specialize (He _ Hpool). rewrite Forall_forall in He. by apply He.
  - eapply Forall_impl; [exact He|]. intros pool Hpool. eapply Forall_impl; [exact Hpool|]. naive_solver.
  - intros Hreq. destruct (capable_deployment m deployments (Hc Hreq)) as (name & dep & E & Hx & Hm).
    rewrite Hd in E. apply snapshot_deployment in E as [E <-]; [|done]. eauto.
Qed.

(** A document that passes the checks is well formed. *)
Lemma validate_resolved_wf d u :
  validate_resolved d = inr u -> well_formed (ResolveCapabilityPolicies d UnknownCapabilityTry).
Proof.
  intros Hv. unfold validate_resolved in Hv. set (d' := ResolveCapabilityPolicies d _) in *.
  cbv zeta in Hv. split_checks.
  destruct (scan provider_step [] (doc_Providers d')) as [e|ps] eqn:Ep; [done|].
  destruct (scan (deployment_step d') (∅, []) (doc_Deployments d')) as [e|[deployments keys]] eqn:Ed; [done|].
  destruct (scan (model_step deployments) ∅ (doc_VirtualModels d')) as [e|names] eqn:Em; [done|].
  split_checks. apply providers_unique in Ep.
  apply deployments_unique in Ed as (Hnd & Hfd & Hd). simpl fst in Hd.
  apply models_scan in Em as (Hfm & Hnm & Hnames).
  match goal with Hc : check_all _ _ = None |- _ => apply check_all_None in Hc as Hpol end.
  split; [by split|done|]. apply Forall_forall. intros m Hm.
  apply (model_checked_ok d' deployments); [done|done| |by rewrite Forall_forall in Hfm; apply Hfm].
  rewrite Forall_forall in Hpol. specialize (Hpol m Hm). unfold validate_model_policies in Hpol.
  split_checks. match goal with Hg : validateGuardrails _ _ = None |- _ =>
    apply guardrails_known in Hg; rewrite Forall_forall in Hg; rename Hg into Hknown end.
  intros name Hname. apply Hnames. by apply Hknown.
Qed.
End Loops.
