(* ===== verification/Compiled.v ===== *)
(** * Compiled documents

    What [Compile] promises to the components that run a document: the
    published document is the one that was validated, it is well formed, the
    target manager accepts its deployments, and every model it serves can be
    routed. *)

From stdpp Require Import base gmap list strings sorting.
From Stdlib Require Import ZArith Lia.
From S2P Require Import Prelude GoStrings Json RouterPolicy Policies Capabilities Privacy Config Fields Settings.
From S2P Require Import Profiles ProfileFacts Picker Plan Validate PlanFacts PlanTheorems.
From S2P Require Import SnapshotTheorems ValidateFacts Targets TargetFacts TargetSystem.

Local Open Scope Z_scope.
Local Open Scope go_scope.

(** ** The published document *)
Section Published.
Context `{UnicodeTables} `{EncodingJSON} `{NetURL}.

Lemma resolve_deployment_inr d dep dep' : resolve_deployment d dep = inr dep' -> dep' = refresh_profiles d dep.
Proof. unfold resolve_deployment. rewrite !check_then_inr. by intros (_ & _ & _ & [= <-]). Qed.

Lemma Forall2_image {A B} (R : A -> B -> Prop) (f : A -> B) l k :
  (forall x y, R x y -> y = f x) -> Forall2 R l k -> k = f <$> l.
Proof. intros HR. induction 1 as [|x y l k Hx _ IH]; [done|]. by rewrite (HR x y Hx), IH. Qed.

(** A document with resolved request profiles. *)
Definition with_resolved (d : Document) (models : list VirtualModel) : Document :=
  with_VirtualModels (with_Deployments d (refresh_profiles d <$> doc_Deployments d)) models.

Lemma ResolveModelPolicies_spec d d' :
  ResolveModelPolicies d = inr d' ->
  exists msp ms, d' = with_resolved d ms /\
    Forall2 (profiled (canonical_models (doc_VirtualModels d))) (doc_VirtualModels d) msp /\
    Forall2 (fun mp m => resolve_model (with_resolved d msp) mp = inr m) msp ms.
Proof.
  unfold ResolveModelPolicies, ResolveRequestProfiles.
  destruct (traverse (resolve_deployment d) _) as [e|deps] eqn:Ed; [done|].
  destruct (traverse (resolve_profile _) _) as [e|msp] eqn:Em; [done|].
  apply traverse_inr in Ed, Em. apply (Forall2_image _ _ _ _ (resolve_deployment_inr d)) in Ed as ->.
  unfold resolve_assignments. rewrite !check_then_inr. intros (_ & _ & _ & _ & Hs).
  destruct (traverse (resolve_model _) _) as [e|ms] eqn:Er; [done|]. injection Hs as <-.
  apply traverse_inr in Er. exists msp, ms. split_and!; [done| |exact Er].
  eapply Forall2_impl; [exact Em|]. apply resolve_profile_inr.
Qed.

(** The profiles of a source are the same the second time. *)
Lemma refresh_again d d' dep capabilities policy :
  doc_RequestProfileSources d' = doc_RequestProfileSources d ->
  let dep' := with_capabilities (refresh_profiles d dep) capabilities policy in
  refresh_profiles d' dep' = dep'.
Proof.
  intros Hs dep'.
  assert (En : dep_Name dep' = dep_Name dep /\ dep_ProfileSource dep' = dep_ProfileSource dep).
  { unfold dep', refresh_profiles. by repeat case_match. }
  destruct En as [En Ep]. unfold refresh_profiles at 1. rewrite Hs, En, Ep. unfold dep', refresh_profiles.
  destruct (doc_RequestProfileSources d !! dep_Name dep) as [source|]; [|done].
  destruct (dep_ProfileSource dep) as [binding|]; [|done]. by destruct (_ && _).
Qed.

Lemma with_same_deployments d : with_Deployments d (doc_Deployments d) = d.
Proof. by destruct d. Qed.

(** Resolving a resolved document keeps it up to the request profiles. *)
Lemma resolve_again d d1 d3 edition :
  ResolveModelPolicies d = inr d1 -> ResolveModelPolicies (ResolveCapabilityPolicies d1 edition) = inr d3 ->
  Forall plain_parent (doc_VirtualModels d) ->
  Forall (fun m => vm_Name m <> ""%string) (doc_VirtualModels d3) ->
  let d2 := ResolveCapabilityPolicies d1 edition in
  exists ms, d3 = with_VirtualModels d2 ms /\ Forall2 republished (doc_VirtualModels d2) ms.
Proof.
  intros (msp & ms1 & -> & Hp & Hr)%ResolveModelPolicies_spec H2 Hplain Hnames d2. fold d2 in H2.
  apply ResolveModelPolicies_spec in H2 as (msp1 & ms2 & -> & Hp1 & Hr1).
  assert (Hdeps : refresh_profiles d2 <$> doc_Deployments d2 = doc_Deployments d2).
  { rewrite <- (list_fmap_id (doc_Deployments d2)) at 2. unfold d2 at 2 3.
    rewrite ResolveCapabilityPolicies_spec. cbn [with_resolved with_VirtualModels with_Deployments doc_Deployments].
    rewrite <- !list_fmap_compose. apply list_fmap_ext. intros i dep _. by apply refresh_again. }
  assert (Hd3 : forall ms, with_resolved d2 ms = with_VirtualModels d2 ms).
  { intros ms. unfold with_resolved. by rewrite Hdeps, with_same_deployments. }
  exists ms2. split; [done|].
  eapply (resolve_models_again (doc_VirtualModels d) msp ms1 msp1 ms2 (with_resolved d msp) (with_resolved d2 msp1));
    try done.
  rewrite Forall_lookup in Hnames |- *. intros i m Hm E.
  destruct (Forall2_lookup_l _ _ _ _ _ Hp Hm) as (mp & Hmp & N1%profiled_name).
  destruct (Forall2_lookup_l _ _ _ _ _ Hr Hmp) as (m1 & Hm1 & (a & _ & ->)%resolve_model_inr).
  destruct (Forall2_lookup_l _ _ _ _ _ Hp1 Hm1) as (mp1 & Hmp1 & N2%profiled_name).
  destruct (Forall2_lookup_l _ _ _ _ _ Hr1 Hmp1) as (m2 & Hm2 & (a' & _ & ->)%resolve_model_inr).
  apply (Hnames i _ Hm2). simpl in *. congruence.
Qed.

(** ** Models that differ in their binding and overrides only *)
Lemma republished_names ms ms' :
  Forall2 republished ms ms' -> model_names <$> ms' = model_names <$> ms.
Proof.
  induction 1 as [|m m' ms ms' Hm%republished_unprofiled _ IH]; [done|]. rewrite !fmap_cons, IH.
  f_equal. unfold model_names. by injection Hm as -> -> _ _ _ _ _ _ _ _ _.
Qed.

Lemma republished_ok d d' m m' :
  doc_Deployments d' = doc_Deployments d ->
  mjoin (model_names <$> doc_VirtualModels d') = mjoin (model_names <$> doc_VirtualModels d) ->
  unprofiled m' = unprofiled m -> model_ok d' m' -> model_ok d m.
Proof.
  intros Hdeps Hn E Hok.
  assert (Hok' : model_ok d' (unprofiled m')) by (by destruct Hok).
  rewrite E in Hok'. destruct Hok'. split; by rewrite <- ?Hdeps, <- ?Hn.
Qed.

Lemma republished_wf d ms :
  Forall2 republished (doc_VirtualModels d) ms -> well_formed (with_VirtualModels d ms) -> well_formed d.
Proof.
  intros Hf [[Hn Hd Hp] Hdeps Hmodels]. pose proof (republished_names _ _ Hf) as En. split.
  - split; [|done..]. by rewrite <- En.
  - eapply Forall_impl; [exact Hdeps|]. by intros dep [].
  - apply Forall_lookup. intros i m Hm. destruct (Forall2_lookup_l _ _ _ _ _ Hf Hm) as (m' & Hm' & E).
    apply (republished_ok d (with_VirtualModels d ms) m m'); [done|by rewrite <- En| |].
    + by apply republished_unprofiled.
    + by apply (Forall_lookup_1 _ _ _ _ Hmodels Hm').
Qed.

Lemma compile_inv doc s :
  Compile doc = inr s -> Forall plain_parent (doc_VirtualModels doc) ->
  exists d ms, resolve_document doc = inr d /\ s = snapshot_of d /\
    resolve_document d = inr (with_VirtualModels d ms) /\ Forall2 republished (doc_VirtualModels d) ms /\
    well_formed (with_VirtualModels d ms) /\ well_formed d.
Proof.
  unfold Compile. destruct (resolve_document doc) as [e|d] eqn:Hd; [done|].
  rewrite check_then_inr. intros [Hv [= <-]] Hplain.
  unfold resolve_document in Hd. destruct (ResolveModelPolicies doc) as [e|d1] eqn:Hm; [done|].
  injection Hd as <-. set (d2 := ResolveCapabilityPolicies d1 UnknownCapabilityTry) in *.
  unfold Validate in Hv. apply error_of_None in Hv as [[] Hv]. rewrite check_then_inr in Hv.
  destruct Hv as [_ Hv]. destruct (ResolveModelPolicies d2) as [e|d3] eqn:Hm2; [done|].
  apply validate_resolved_wf in Hv.
  destruct (resolve_again doc d1 d3 UnknownCapabilityTry) as (ms & -> & Hf); [done..| |].
  { destruct Hv as [_ _ Hv]. eapply Forall_impl; [exact Hv|]. by intros m []. }
  fold d2 in Hf, Hm2, Hv |- *.
  assert (Ec : ResolveCapabilityPolicies (with_VirtualModels d2 ms) UnknownCapabilityTry = with_VirtualModels d2 ms).
  { transitivity (with_VirtualModels (ResolveCapabilityPolicies d2 UnknownCapabilityTry) ms); [done|].
    unfold d2. by rewrite ResolveCapabilityPolicies_again. }
  rewrite Ec in Hv. exists d2, ms. split_and!; try done; [|by eapply republished_wf].
  unfold resolve_document. rewrite Hm2. by rewrite Ec.
Qed.
End Published.

(** ** Routing a compiled document *)

(** Options that restrict nothing: no pin, no provider restriction, no protocol
    or capability requirement and no eligibility check. *)
Record unrestricted {W} (options : PlanOptions W) : Prop := {
  un_capabilities : po_RequiredCapabilities options = [];
  un_types : po_AllowedProviderTypes options = [];
  un_compatibility : po_Compatibility options = None;
  un_resolver : po_ProtocolResolver options = None;
  un_deployment : po_PinnedDeployment options = ""%string;
  un_provider : po_PinnedProvider options = ""%string;
  un_eligibility : po_Eligibility options = None;
}.

Lemma unrestricted_oracle {W} `{Entropy W} (options : PlanOptions W) :
  unrestricted options -> Oracle options (fun _ => True) (fun _ => true).
Proof. intros [_ _ _ _ _ _ He]. split; [|done..]. intros name w _. by rewrite He. Qed.

(** Whether a set is rejected depends on its members only. *)
Lemma match_members dep required required' :
  (forall c, c ∈ required <-> c ∈ required') ->
  Deployment_MatchCapabilities dep required <> CapabilityMatchRejected ->
  Deployment_MatchCapabilities dep required' <> CapabilityMatchRejected.
Proof.
  intros Hm. unfold Deployment_MatchCapabilities. rewrite !MatchCapabilities_spec.
  destruct (forallb (admits _ _) required) eqn:E; [intros _|done].
  assert (E' : forallb (admits (dep_CapabilityPolicy dep) (dep_Capabilities dep)) required' = true).
  { rewrite forallb_forall in *. intros c Hc. apply E. rewrite <- list_elem_of_In in *. by apply Hm. }
  rewrite E'. clear E'. by destruct (forallb _ required').
Qed.

Lemma mergeCapabilities_members a b c : c ∈ mergeCapabilities a b <-> c ∈ a \/ c ∈ b.
Proof.
  unfold mergeCapabilities. rewrite sort_Strings_Permutation, elem_of_remove_dups. apply elem_of_app.
Qed.

Section Route.
Context `{UnicodeTables} `{MathLog} {W : Type} `{Entropy W}.

(** A capable, eligible target is routable. *)
Lemma routable_complete s requested model (options : PlanOptions W) required elig pool t d r g :
  pool ∈ vm_Pools model -> t ∈ pool_Targets pool ->
  capable_target s options required t = Some (d, r, g) -> elig (dep_Name d) = true ->
  routable s requested model options required elig <> [].
Proof.
  intros Hpool Ht Hcap Helig Hnil.
  assert (Hpool' : pool ∈ sorted_pools model).
  { unfold sorted_pools. by rewrite stable_sort_Permutation. }
  assert (Hslot : exists sl, sl ∈ plan_slots s options required elig 0 (sorted_pools model) /\
    mkEligibleTarget t r ∈ sl_targets sl).
  { revert Hpool'. generalize (sorted_pools model), 0. intros pools. induction pools as [|p pools IH];
      intros class Hin; [by apply not_elem_of_nil in Hin|]. cbn [plan_slots].
    apply elem_of_cons in Hin as [<-|Hin].
    - exists (mkSlot (pool_Priority pool) (class + g) (group_targets s options required elig g (pool_Targets pool))).
      split.
      + apply elem_of_app. left. unfold pool_slots. apply list_elem_of_fmap. exists g. split; [done|].
        assert (g = 0 \/ g = 1 \/ g = 2 \/ g = 3) as Hg; [|rewrite !elem_of_cons; tauto].
        unfold capable_target in Hcap. apply bind_Some in Hcap as ([d' r'] & _ & Hcap).
        destruct (bool_decide _); [done|]. injection Hcap as _ _ <-. unfold group_of.
        destruct (pr_Native r'), (bool_decide _); tauto.
      + simpl. unfold group_targets. apply list_elem_of_omap. exists t. split; [done|].
        unfold routable_target. rewrite Hcap. simpl. rewrite Helig. simpl. by rewrite Z.eqb_refl.
    - destruct (IH (class + 4) Hin) as (sl & Hsl & He). exists sl. split; [|done].
      apply elem_of_app. by right. }
  destruct Hslot as (sl & Hsl & He).
  assert (Hsel : exists c, selection_of s requested model (sl_priority sl) (sl_class sl)
    (mkEligibleTarget t r) = Some c).
  { unfold capable_target, compatible_target, configured_target in Hcap.
    destruct (_ || _) in Hcap; [|done]. unfold selection_of. simpl.
    destruct (sn_deployments s !! wt_Deployment t) as [d'|]; [|done]. simpl in *.
    destruct (_ || _) in Hcap; [|done].
    destruct (sn_providers s !! dep_Provider d') as [p|]; [|done]. simpl. eauto. }
  destruct Hsel as [c Hc]. apply (not_elem_of_nil c). rewrite <- Hnil. unfold routable.
  apply list_elem_of_join. exists (render s requested model sl (sl_targets sl)). split.
  - unfold render. apply list_elem_of_omap. eauto.
  - apply list_elem_of_fmap. eauto.
Qed.

(** A target that an unrestricted request can use. *)
Lemma compiled_target d model (options : PlanOptions W) :
  well_formed d -> model ∈ doc_VirtualModels d -> unrestricted options ->
  exists pool t x, pool ∈ vm_Pools model /\ t ∈ pool_Targets pool /\
    capable_target (snapshot_of d) options (plan_required model options) t = Some x.
Proof.
  intros [Hn Hdeps Hmodels] Hin Hun. rewrite Forall_forall in Hdeps; rewrite Forall_forall in Hmodels.
  destruct (Hmodels _ Hin) as [_ _ _ _ [Hp Hts] _ _ Hk _ Hcap _].
  assert (Hdep : exists dep, dep ∈ doc_Deployments d /\ dep_Name dep ∈ model_deployments model /\
    Deployment_MatchCapabilities dep (vm_RequiredCapabilities model) <> CapabilityMatchRejected).
  { destruct (decide (vm_RequiredCapabilities model = [])) as [E|]; [|by apply Hcap].
    destruct (vm_Pools model) as [|pool pools] eqn:Ep; [done|]. apply Forall_cons in Hts as [Ht _].
    destruct (pool_Targets pool) as [|t ts] eqn:Et; [done|].
    assert (Hd : wt_Deployment t ∈ model_deployments model).
    { apply model_deployments_in. exists pool, t. rewrite Ep, Et. split_and!; [by left|by left|done]. }
    pose proof (Hk _ Hd) as Hd'. apply list_elem_of_fmap in Hd' as (dep & Hname & Hdep).
    exists dep. rewrite <- Hname. split_and!; [done|done|]. by rewrite E. }
  destruct Hdep as (dep & Hdep & Hmem & Hmatch).
  apply model_deployments_in in Hmem as (pool & t & Hpool & Ht & Hname).
  destruct (Hdeps _ Hdep) as [_ Hprov _ _]. apply list_elem_of_fmap in Hprov as (p & Hpn & Hprov).
  exists pool, t. unfold capable_target, compatible_target, configured_target.
  rewrite (un_deployment _ Hun), (un_provider _ Hun), (un_types _ Hun). cbn [String.eqb orb].
  assert (E1 : sn_deployments (snapshot_of d) !! wt_Deployment t = Some dep) by (by apply deployment_lookup).
  assert (E2 : sn_providers (snapshot_of d) !! dep_Provider dep = Some p) by (by apply provider_lookup).
  rewrite E1. cbn [mbind option_bind]. rewrite E2. cbn [mbind option_bind providerTypeAllowed].
  unfold route_for. rewrite (un_resolver _ Hun), (un_compatibility _ Hun). cbn [mbind option_bind].
  rewrite bool_decide_false; [eauto|].
  unfold match_for. revert Hmatch. apply match_members. intros c.
  unfold plan_required. rewrite (un_capabilities _ Hun), elem_of_app, mergeCapabilities_members.
  set_solver.
Qed.
End Route.

(** ** Claims *)

(** C1: The document that [Compile] publishes is the one it validated.
    Validation resolves the published document again: that changes nothing but
    the JSON text of the bindings and the overrides of its request profiles; the
    routing, names, aliases, limits and policies of every model, and everything
    that is not a model, stay what they are.  Every name in the published
    document is unique, every target, provider and guardrail it refers to exists,
    every weight is positive, pool priorities differ, and each model has a
    deployment that can serve its required capabilities.  The parents that the
    profiles name are UTF-8, as they are in a document read from JSON. *)
Theorem compile_publishes_validated `{UnicodeTables} `{EncodingJSON} `{NetURL} doc s :
  Compile doc = inr s -> Forall plain_parent (doc_VirtualModels doc) ->
  exists d ms, s = snapshot_of d /\ resolve_document doc = inr d /\
    resolve_document d = inr (with_VirtualModels d ms) /\
    Forall2 republished (doc_VirtualModels d) ms /\ well_formed d.
Proof. intros Hc Hp. destruct (compile_inv doc s Hc Hp) as (d & ms & Hd & -> & Hd' & Hf & _ & Hw). eauto 10. Qed.

(** The gateway can always start on a compiled document: the target
    manager accepts its deployments, and knows every target of every model. *)
Theorem compiled_fleet_starts `{UnicodeTables} `{EncodingJSON} `{NetURL} doc d s observed :
  Compile doc = inr s -> Forall plain_parent (doc_VirtualModels doc) -> resolve_document doc = inr d ->
  exists m, NewTargetManager (doc_Deployments d) observed = inr m /\
    forall requested allow model name, ResolveModel s requested allow = inr model ->
      name ∈ model_deployments model -> is_Some (tm_targets m !! name).
Proof.
  intros Hcomp Hplain Hd'. destruct (compile_inv doc s Hcomp Hplain) as (d' & _ & Hd & -> & _ & _ & _ & [Hn Hdeps Hmodels]).
  rewrite Hd in Hd'.
  injection Hd' as <-. rename d' into d.
  destruct (proj2 (add_targets_accepts (doc_Deployments d) ∅)) as [targets Ht].
  - split_and!; [apply Hn|by apply Forall_true|]. eapply Forall_impl; [exact Hdeps|].
    intros dep [Hname _ Hc Hv]. split_and!; [done|lia|done].
  - unfold NewTargetManager. rewrite Ht. eexists. split; [done|].
    intros requested allow model name (Hm & _ & _)%(ResolveModel_spec d _ _ _ Hn) Hname.
    simpl. apply (add_targets_dom _ _ _ Ht). rewrite lookup_empty. right.
    rewrite Forall_forall in Hmodels. destruct (Hmodels _ Hm). apply list_elem_of_In. auto.
Qed.

(** C2: Every model of a compiled document can be routed: a request that
    restricts nothing gets a plan, unless the picker fails or the weights of
    one pool add up to more than an [int64] holds.  (The parents that request
    profiles name are UTF-8, as they are in a document read from JSON.) *)
Theorem compiled_models_route `{UnicodeTables} `{EncodingJSON} `{NetURL} `{MathLog}
    {W : Type} `{Entropy W} doc s requested model (options : PlanOptions W) w e w' :
  Compile doc = inr s -> Forall plain_parent (doc_VirtualModels doc) ->
  ResolveModel s requested (po_AllowInternal options) = inr model ->
  unrestricted options -> picker_ok (nil_picker options) ->
  Forall (fun pool => pool_weight pool <= MaxInt64) (vm_Pools model) ->
  BuildPlanFor s requested options w = (inl e, w') ->
  exists err total v v', e = ErrPicker err /\ nil_picker options total v = (inl err, v').
Proof.
  intros Hcomp Hplain Hres Hun Hpick Hfit Hrun.
  destruct (compile_inv doc s Hcomp Hplain) as (d & _ & _ & -> & _ & _ & _ & Hw).
  pose proof Hw as [Hn _ Hmodels].
  assert (Hin : model ∈ doc_VirtualModels d) by (by apply (ResolveModel_spec d) in Hres as [? _]).
  rewrite Forall_forall in Hmodels.
  destruct (plan_errors (snapshot_of d) requested model options (fun _ => True) (fun _ => true) w e w')
    as [He|[Hnil _]]; try done; [by apply unrestricted_oracle|apply (Hmodels _ Hin)|].
  exfalso. destruct (compiled_target d model options Hw Hin Hun) as (pool & t & [[dep r] g] & Hp & Ht & Hc).
  exact (routable_complete (snapshot_of d) requested model options _ (fun _ => true) pool t dep r g
    Hp Ht Hc eq_refl Hnil).
Qed.

(** A request variant inherits policies from its nearest ancestor that
    assigns one, field by field; the resolved model differs from the one with
    its request profile resolved in its policies only.  An empty reference
    disables the policy.  The only failure is a cycle of profiles and variants,
    which the walk meets before its fuel ends. *)
Theorem policy_inheritance_nearest `{UnicodeTables} (d : Document) :
  (forall models, traverse (resolve_model d) (doc_VirtualModels d) = inr models ->
     Forall2 (fun m m' => exists names, Lineage d m names /\
        m' = apply_assignment d (nearest_assignment d names) m) (doc_VirtualModels d) models) /\
  (forall m fuel, m ∈ doc_VirtualModels d -> (length (doc_VirtualModels d) < fuel)%nat ->
     ancestors_loop fuel d (canonical_models (doc_VirtualModels d)) [] m (assignment_of d (vm_Name m)) =
       model_assignment d m).
Proof.
  split.
  - intros models Hm%traverse_inr. eapply Forall2_impl; [exact Hm|].
    intros m m' (a & (names & Hl & ->)%model_assignment_inr & ->)%resolve_model_inr. eauto.
  - intros m fuel Hm Hf. by apply ancestors_enough_fuel.
Qed.
