(* ===== verification/Runtime.v ===== *)
(** * Planning against the runtime state of the targets

    The gateway passes its [TargetManager] to [BuildPlanFor] as the eligibility
    check.  At one reading of the clock the manager satisfies the interface a
    plan is proved against, and every candidate of the plan can be acquired. *)

From stdpp Require Import base gmap list strings sorting.
From Stdlib Require Import ZArith Lia.
From S2P Require Import Prelude GoStrings Policies Capabilities Config Targets TargetFacts.
From S2P Require Import TargetSystem Picker Plan PlanFacts PlanTheorems SnapshotTheorems.

Local Open Scope Z_scope.

(** ** Eligibility at one clock reading *)

Lemma advance_idem t now : (advance (advance t now).1 now).1 = (advance t now).1.
Proof.
  unfold advance. fields t. destruct st; try done. simpl.
  destruct (time_Before now eu) eqn:E; simpl; [by rewrite E|done].
Qed.

(** The answer of [Eligible] as a test of the target. *)
Definition admissible (t : targetRuntime) (now : Z) : bool :=
  match admission_reason (advance t now).1 with None => true | Some _ => false end.

Lemma Eligible_answer m now name :
  (Eligible m now name).1.1 =
    match tm_targets m !! name with Some t => admissible t now | None => false end.
Proof.
  unfold Eligible, admissible. destruct (tm_targets m !! name) as [t|]; [|done].
  destruct (advance t now) as [t1 tr]. cbn [fst]. by destruct (admission_reason t1).
Qed.

Lemma Eligible_target m now name :
  tm_targets (Eligible m now name).1.2 =
    match tm_targets m !! name with
    | Some t => <[name := (advance t now).1]> (tm_targets m)
    | None => tm_targets m
    end.
Proof.
  unfold Eligible. destruct (tm_targets m !! name) as [t|]; [|done].
  destruct (advance t now) as [t1 tr]. by destruct (admission_reason t1).
Qed.

(** Asking about one target changes no answer at the same clock reading. *)
Lemma Eligible_stable m now name other :
  (Eligible (Eligible m now name).1.2 now other).1.1 = (Eligible m now other).1.1.
Proof.
  rewrite !Eligible_answer, Eligible_target. destruct (tm_targets m !! name) as [t|] eqn:Ht; [|done].
  rewrite lookup_insert. case_decide as Hn; [|done]. subst other. rewrite Ht.
  unfold admissible. by rewrite advance_idem.
Qed.

Lemma Acquire_eligible m now name :
  (Eligible m now name).1.1 = true -> exists l, (Acquire m now name).1.1 = inl l.
Proof.
  rewrite Eligible_answer. destruct (tm_targets m !! name) as [t|] eqn:Ht; [|done].
  unfold admissible. rewrite (Acquire_cases m now name t Ht).
  destruct (admission_reason _); [done|]. intros _. eexists. done.
Qed.

(** ** The gateway's world *)
Section Gateway.
Context `{UnicodeTables} `{MathLog} {R : Type} `{Entropy R}.

(** The manager and the rest of the world. *)
Definition world : Type := TargetManager * R.

(** Entropy leaves the manager alone. *)
#[export] Instance world_entropy : Entropy world := fun max w =>
  let '(r, rest) := rand_Int max w.2 in (r, (w.1, rest)).

(** [TargetManager.Eligible] as a plan's eligibility check at time [now]. *)
Definition manager_eligibility (now : Z) (name : string) (w : world) : bool * world :=
  let '(b, m, _) := Eligible w.1 now name in (b, (m, w.2)).

(** The options of a request routed by the manager, with the default picker
    and a readiness hint that only reads. *)
Definition gateway_options (now : Z) (ready : option (string -> bool)) (o : PlanOptions world)
  : PlanOptions world :=
  {| po_RequiredCapabilities := po_RequiredCapabilities o;
     po_AllowedProviderTypes := po_AllowedProviderTypes o;
     po_Compatibility := po_Compatibility o;
     po_ProtocolResolver := po_ProtocolResolver o;
     po_PinnedDeployment := po_PinnedDeployment o;
     po_PinnedProvider := po_PinnedProvider o;
     po_SingleAttempt := po_SingleAttempt o;
     po_Eligibility := Some (manager_eligibility now);
     po_Ready := (fun f name w => (f name, w)) <$> ready;
     po_Picker := None;
     po_SelectionKey := po_SelectionKey o;
     po_ProviderPriority := po_ProviderPriority o;
     po_AllowInternal := po_AllowInternal o |}.

(** The worlds whose manager gives the same answers. *)
Definition same_answers (now : Z) (m : TargetManager) (w : world) : Prop :=
  forall name, (Eligible w.1 now name).1.1 = (Eligible m now name).1.1.

#[export] Instance manager_oracle now ready o m :
  Oracle (gateway_options now ready o) (same_answers now m)
    (fun name => (Eligible m now name).1.1).
Proof.
  split.
  - intros name w Hw. simpl. apply wp_act. unfold manager_eligibility.
    pose proof (Eligible_stable w.1 now name) as Hst. pose proof (Hw name) as Hname.
    destruct (Eligible w.1 now name) as [[b m'] ev]. cbn [fst snd] in *.
    split; [done|]. intros other. simpl. by rewrite Hst, Hw.
  - intros f name w. simpl. destruct ready; [|done]. by intros [= <-] Hw.
  - intros total w Hw. unfold nil_picker. simpl. unfold CryptoPicker.
    destruct (total <=? 0); [done|]. unfold rand_Int, world_entropy.
    by destruct (rand_Int total w.2) as [[?|?] ?].
Qed.

End Gateway.

(** A routable candidate was eligible. *)
Lemma routable_eligible {W : Type} s requested model (options : PlanOptions W) required elig c :
  c ∈ routable s requested model options required elig ->
  elig (dep_Name (sel_Deployment c)) = true.
Proof.
  unfold routable. intros (l & Hc & Hl)%list_elem_of_join.
  apply list_elem_of_fmap in Hl as (sl & -> & Hsl).
  destruct (render_in _ _ _ _ _ _ Hc) as (_ & _ & _ & _ & _ & e & He & Hsel).
  assert (Hgroup : exists k targets, sl_targets sl = group_targets s options required elig k targets).
  { revert Hsl. generalize 0. induction (sorted_pools model) as [|p pools IH]; intros class;
      cbn [plan_slots]; [by intros ?%not_elem_of_nil|].
    rewrite elem_of_app. intros [Hin|Hin]; [|by eapply IH].
    unfold pool_slots in Hin. apply list_elem_of_fmap in Hin as (k & -> & _). simpl. eauto. }
  destruct Hgroup as (k & targets & Hg). rewrite Hg in He.
  apply group_targets_in in He as (_ & d & g & Hcap & Helig & _).
  enough (sel_Deployment c = d) by congruence.
  unfold capable_target, compatible_target, configured_target in Hcap.
  unfold selection_of in Hsel. destruct (_ || _); [|done].
  destruct (sn_deployments s !! wt_Deployment (et_target e)) as [d'|]; [|done]. simpl in Hcap, Hsel.
  destruct (String.eqb (po_PinnedProvider options) "" || _); [|done].
  destruct (sn_providers s !! dep_Provider d') as [p|]; [|done]. simpl in Hcap, Hsel.
  destruct (providerTypeAllowed _ _); [|done]. simpl in Hcap.
  destruct (route_for options d' p) as [r|]; [|done]. simpl in Hcap.
  destruct (bool_decide _); [done|]. by simplify_eq.
Qed.

(** C25: A plan never offers a target that would turn the request away: built
    against the target manager at some clock reading, it leaves the manager in
    a state in which every candidate can be acquired at that reading. *)
Theorem planned_candidates_admit `{UnicodeTables} `{MathLog} {R : Type} `{Entropy R}
    s requested model now ready (o : PlanOptions (world (R := R))) (w w' : world) plan c :
  ResolveModel s requested (po_AllowInternal o) = inr model -> weights_ok model ->
  BuildPlanFor s requested (gateway_options now ready o) w = (inr plan, w') ->
  c ∈ plan_Candidates plan ->
  exists l, (Acquire w'.1 now (dep_Name (sel_Deployment c))).1.1 = inl l.
Proof.
  intros Hres Hpos Hrun Hc. apply Acquire_eligible.
  destruct (plan_candidates s requested model (gateway_options now ready o) (same_answers now w.1)
    (fun name => (Eligible w.1 now name).1.1) w _ ltac:(done) Hres Hpos plan w' Hrun)
    as (Hinv & cs & _ & Hperm & _ & _ & ->).
  rewrite Hinv. rewrite finish_candidates in Hc.
  pose proof (applyProviderPriority_base cs (po_ProviderPriority (gateway_options now ready o))) as Hb.
  rewrite Hperm in Hb.
  assert (Hin : c ∈ (applyProviderPriority cs (po_ProviderPriority (gateway_options now ready o))).1).
  { destruct (_ && _); [|done]. apply elem_of_take in Hc as (i & Hi & _). apply list_elem_of_lookup. eauto. }
  apply (list_elem_of_fmap_2 base) in Hin. rewrite Hb in Hin.
  by apply routable_eligible in Hin.
Qed.
