(* ===== verification/PlanWitnesses.v ===== *)
(** * Witnesses of the claims about plans and snapshots

    Each applies its theorem to the document and the fleet of [Fixtures.v]. *)

From stdpp Require Import base gmap list strings sorting.
From Stdlib Require Import ZArith Lia SpecFloat.
From S2P Require Import Prelude GoStrings Policies Capabilities Config Picker Fixtures Targets.
From S2P Require Import TargetSystem TargetTheorems Plan PlanFacts PlanTheorems SnapshotTheorems Runtime.

Local Open Scope Z_scope.

#[local] Existing Instance plain_tables.
#[local] Existing Instance floor_log.
#[local] Existing Instance floor_log_laws.
#[local] Existing Instance last_entropy.

Definition snap : Snapshot := snapshot_of document.

Definition options_with {W} (pin key : string) : PlanOptions W :=
  {| po_RequiredCapabilities := []; po_AllowedProviderTypes := []; po_Compatibility := None;
     po_ProtocolResolver := None; po_PinnedDeployment := pin; po_PinnedProvider := "";
     po_SingleAttempt := false; po_Eligibility := None; po_Ready := None; po_Picker := None;
     po_SelectionKey := key; po_ProviderPriority := ["Anthropic"%string]; po_AllowInternal := false |}.

Lemma unit_oracle pin key :
  Oracle (options_with pin key : PlanOptions unit) (fun _ => True) (fun _ => true).
Proof. by split. Qed.

Lemma ab_weights_ok model : vm_Pools model = [pool_ab] -> weights_ok model.
Proof. intros E. unfold weights_ok. rewrite E. repeat constructor. Qed.

(** Run a plan of the witness document. *)
Ltac run_plan E := vm_compute in E; discriminate E.

Lemma plan_routes_exactly_witness :
  exists plan, BuildPlanFor snap "gpt" (options_with "" "" : PlanOptions unit) tt = (inr plan, tt) /\
    base <$> plan_Candidates plan ≡ₚ
      routable snap "gpt" model_m (options_with "" "" : PlanOptions unit) [] (fun _ => true) /\
    length (plan_Candidates plan) = 2%nat.
Proof.
  destruct (BuildPlanFor snap "gpt" (options_with "" "" : PlanOptions unit) tt) as [[e|plan] []] eqn:E;
    [run_plan E|]. exists plan. split; [reflexivity|].
  pose proof (plan_routes_exactly snap "gpt" model_m (options_with "" "" : PlanOptions unit)
    (fun _ => True) (fun _ => true) tt plan tt (unit_oracle _ _) I
    ltac:(vm_compute; reflexivity) (ab_weights_ok model_m eq_refl) E) as Hp.
  change (base <$> plan_Candidates plan ≡ₚ
    routable snap "gpt" model_m (options_with "" "" : PlanOptions unit) [] (fun _ => true)) in Hp.
  split; [exact Hp|].
  rewrite <- (length_fmap base). rewrite Hp. vm_compute. reflexivity.
Defined.

(** The provider priority puts ["b"] first. *)
Lemma plan_attempt_order_witness :
  exists plan, BuildPlanFor snap "gpt" (options_with "" "" : PlanOptions unit) tt = (inr plan, tt) /\
    StronglySorted attempt_le (plan_Candidates plan) /\
    (fun c => dep_Name (sel_Deployment c)) <$> plan_Candidates plan = ["b"%string; "a"%string].
Proof.
  destruct (BuildPlanFor snap "gpt" (options_with "" "" : PlanOptions unit) tt) as [[e|plan] []] eqn:E;
    [run_plan E|]. exists plan. split; [reflexivity|]. split.
  - apply (plan_attempt_order snap "gpt" model_m (options_with "" "" : PlanOptions unit)
      (fun _ => True) (fun _ => true) tt plan tt (unit_oracle _ _) I
      ltac:(vm_compute; reflexivity) (ab_weights_ok model_m eq_refl) E).
  - vm_compute in E. injection E as <-. reflexivity.
Defined.

Lemma plan_attempts_bounded_witness :
  exists plan, BuildPlanFor snap "m" (options_with "" "" : PlanOptions unit) tt = (inr plan, tt) /\
    1 <= plan_MaxAttempts plan <= Z.of_nat (length (plan_Candidates plan)).
Proof.
  destruct (BuildPlanFor snap "m" (options_with "" "" : PlanOptions unit) tt) as [[e|plan] []] eqn:E;
    [run_plan E|]. exists plan. split; [reflexivity|].
  apply (plan_attempts_bounded snap "m" model_m (options_with "" "" : PlanOptions unit)
      (fun _ => True) (fun _ => true) tt plan tt (unit_oracle _ _) I
      ltac:(vm_compute; reflexivity) (ab_weights_ok model_m eq_refl) ltac:(vm_compute; reflexivity) E).
Defined.

(** A pin to a deployment the model does not use leaves nothing routable. *)
Lemma plan_errors_explained_witness :
  BuildPlanFor snap "m" (options_with "z" "" : PlanOptions unit) tt = (inl (ErrNoTargets "m"), tt) /\
  routable snap "m" model_m (options_with "z" "" : PlanOptions unit) [] (fun _ => true) = [].
Proof.
  assert (E : BuildPlanFor snap "m" (options_with "z" "" : PlanOptions unit) tt =
    (inl (ErrNoTargets "m"), tt)) by (vm_compute; reflexivity).
  split; [exact E|].
  destruct (plan_errors_explained snap "m" model_m (options_with "z" "" : PlanOptions unit)
    (fun _ => True) (fun _ => true) tt (ErrNoTargets "m") tt (unit_oracle _ _) I
    ltac:(vm_compute; reflexivity) (ab_weights_ok model_m eq_refl)) as [(err & total & v & v' & Hx & _)|[Hr _]].
  - intros total w v w'. unfold nil_picker. simpl. unfold CryptoPicker.
    destruct (Z.leb_spec total 0); [discriminate|].
    unfold rand_Int, last_entropy, last_picker. destruct (Z.leb_spec total 0); [discriminate|].
    intros [= <- _]. lia.
  - repeat constructor. vm_compute. discriminate.
  - exact E.
  - discriminate Hx.
  - exact Hr.
Defined.

Definition weighted_two : list eligibleTarget :=
  (fun t => mkEligibleTarget t (mkProtocolRoute "openai" true [])) <$> pool_Targets pool_ab.

(** Two of the three values select the target of weight two. *)
Lemma weighted_draw_fair_witness :
  Z.of_nat (length (List.filter (fun v => Nat.eqb (pick_index v 0 0 weighted_two) 0)
                      (seqZ 0 (weights weighted_two)))) = 2.
Proof.
  apply (weighted_draw_fair weighted_two 0
    (mkEligibleTarget {| wt_Deployment := "a"; wt_Weight := 2 |} (mkProtocolRoute "openai" true []))).
  - repeat constructor.
  - vm_compute. discriminate.
  - reflexivity.
Defined.

Lemma rendezvous_minimal_reassignment_witness :
  rendezvous "tenant-1" (List.filter (fun t => String.eqb (wt_Deployment t) "b") (pool_Targets pool_ab)) =
    List.filter (fun t => String.eqb (wt_Deployment t) "b") (rendezvous "tenant-1" (pool_Targets pool_ab)).
Proof. apply rendezvous_minimal_reassignment. repeat constructor. Defined.

Lemma hash_plan_deterministic_witness :
  exists result, forall w,
    BuildPlanFor snap "h" (options_with "" "tenant-1" : PlanOptions unit) w = (result, w).
Proof.
  apply (hash_plan_deterministic snap "h" model_h (options_with "" "tenant-1" : PlanOptions unit));
    vm_compute; congruence.
Defined.

(** Preferring the second of two candidates of one rank. *)
Definition candidate (name : string) : Selection :=
  {| sel_RequestedModel := "m"; sel_VirtualModel := "m";
     sel_Provider := provider_named "openai" "openai";
     sel_Deployment := deployment_named name "openai" 0 disabled_circuit;
     sel_UpstreamProtocol := "openai"; sel_NativeProtocol := true; sel_PoolPriority := 1;
     sel_Running := false; sel_PreferenceClass := 0; sel_ProviderPreference := 0; sel_Weight := 1;
     sel_ResponseModel := "virtual" |}.

Lemma prefer_deployment_breaks_ties_witness :
  let '(moved, cs') := PreferDeployment [candidate "a"; candidate "b"] "b" in
  moved = true /\ cs' ≡ₚ [candidate "a"; candidate "b"] /\ StronglySorted attempt_le cs'.
Proof.
  pose proof (prefer_deployment_breaks_ties [candidate "a"; candidate "b"] "b") as H.
  destruct (PreferDeployment [candidate "a"; candidate "b"] "b") as [moved cs'] eqn:E.
  destruct H as (Hp & Hs & _).
  { assert (attempt_le (candidate "a") (candidate "b")) as Hle.
    { right. split; [reflexivity|]. right. split; [reflexivity|]. split; apply Z.le_refl. }
    constructor; [constructor; constructor|]. constructor; [exact Hle|constructor]. }
  split; [|split; [exact Hp|exact Hs]]. vm_compute in E. injection E as <- _. reflexivity.
Defined.

Lemma document_names_unique : names_unique document.
Proof. split; vm_compute; apply (bool_decide_unpack _); vm_compute; exact I. Qed.

Lemma resolve_model_exact_witness :
  ResolveModel snap "gpt" false = inr model_m /\
  (forall m, ResolveModel snap "i" false = inr m <->
     m ∈ doc_VirtualModels document /\ "i"%string ∈ model_names m /\ (is_internal m = true -> false = true)).
Proof.
  split.
  - apply (proj1 (resolve_model_exact document "gpt" false document_names_unique)).
    split; [apply (list_elem_of_lookup_2 _ 0%nat); reflexivity|].
    split; [apply (list_elem_of_lookup_2 _ 1%nat); reflexivity|]. intros E. vm_compute in E. discriminate E.
  - apply (resolve_model_exact document "i" false document_names_unique).
Defined.

Lemma model_candidates_exact_witness :
  NoDup (ModelCandidatesForCapabilities snap [CapabilityTools] false) /\
  (vm_Name <$> ModelCandidatesForCapabilities snap [CapabilityTools] false) = ["h"%string; "m"%string].
Proof.
  split; [|vm_compute; reflexivity].
  apply (model_candidates_exact document [CapabilityTools] false document_names_unique).
Defined.

Lemma capability_policy_precedence_witness :
  doc_Deployments (ResolveCapabilityPolicies document "reject") !! 0%nat =
    Some (with_capabilities dep_a [] {| capol_Unknown := "reject"; capol_Unsupported := [] |}).
Proof.
  destruct (capability_policy_precedence document "reject" "") as [H _].
  destruct (H 0%nat dep_a eq_refl) as [_ E]. rewrite E. vm_compute. reflexivity.
Defined.

Lemma capability_match_exact_witness :
  MatchCapabilities {| capol_Unknown := ""; capol_Unsupported := [] |} []
    [CapabilityTools; CapabilityFiles] = CapabilityMatchRejected.
Proof.
  destruct (capability_match_exact {| capol_Unknown := ""; capol_Unsupported := [] |} []
    [CapabilityTools; CapabilityFiles] []) as [[_ H] _].
  apply H. exists CapabilityFiles.
  split; [apply (list_elem_of_lookup_2 _ 1%nat); reflexivity|]. right. split; [reflexivity|].
  right. reflexivity.
Defined.

(** Nine seconds after its ejection, ["a"] is not planned; ["b"] is, and admits. *)
Lemma planned_candidates_admit_witness :
  exists plan (w' : world (R := unit)) c l,
    BuildPlanFor snap "m" (gateway_options (14 * Second) None (options_with "" ""))
      (s_manager w3, tt) = (inr plan, w') /\
    plan_Candidates plan = [c] /\ dep_Name (sel_Deployment c) = "b"%string /\
    (Acquire w'.1 (14 * Second) (dep_Name (sel_Deployment c))).1.1 = inl l.
Proof.
  destruct (BuildPlanFor snap "m" (gateway_options (14 * Second) None (options_with "" ""))
      (s_manager w3, tt)) as [[e|plan] w'] eqn:E; [run_plan E|].
  assert (Hone : exists c, plan_Candidates plan = [c] /\ dep_Name (sel_Deployment c) = "b"%string).
  { vm_compute in E. injection E as <- _. eexists. split; reflexivity. }
  destruct Hone as (c & Hc & Hn).
  destruct (planned_candidates_admit snap "m" model_m (14 * Second) None (options_with "" "")
    (s_manager w3, tt) w' plan c ltac:(vm_compute; reflexivity) (ab_weights_ok model_m eq_refl) E)
    as [l Hl]; [rewrite Hc; apply (list_elem_of_lookup_2 _ 0%nat); reflexivity|].
  exists plan, w', c, l. split; [reflexivity|]. split; [exact Hc|]. split; [exact Hn|exact Hl].
Defined.
