(* ===== verification/CompiledWitnesses.v ===== *)
(** * Witnesses for compilation and validation

    The fixture document, with a request variant and a request profile that
    inherit a PII profile, compiles; a document whose weights overflow compiles too and can never be
    routed. *)

From stdpp Require Import base gmap list strings sorting.
From Stdlib Require Import ZArith Lia.
From S2P Require Import Prelude GoStrings Json RouterPolicy Policies Capabilities Privacy Config Fields PrivacyFacts Settings.
From S2P Require Import Profiles ProfileFacts Picker Fixtures Plan Validate PlanFacts PlanTheorems.
From S2P Require Import SnapshotTheorems ValidateFacts Targets Compiled.

Local Open Scope Z_scope.
Local Open Scope go_scope.

#[local] Existing Instances plain_tables last_entropy floor_log.

(** A URL is taken whole as its host. *)
#[local] Existing Instance any_json.
#[local] Instance host_url : NetURL := fun s =>
  Some {| url_Scheme := "https"; url_Host := s; url_User := false; url_RawQuery := "";
          url_Fragment := "" |}.

(** ["m:strict"] is a variant of ["m"], which is assigned the profile ["mask"]. *)
Definition variant_m : VirtualModel :=
  {| vm_Profile := None; vm_RequestOverrides := {[ "messages"%string := {[ "temperature"%string := "0"%string ]} ]};
     vm_Name := "m:strict"; vm_Aliases := []; vm_Visibility := ModelVisibilityHidden;
     vm_RequiredCapabilities := [CapabilityTools]; vm_ResponseModel := "";
     vm_Selection := vm_Selection model_m; vm_Limits := vm_Limits model_m;
     vm_Retry := zeroRetryPolicy; vm_Guardrails := vm_Guardrails model_m; vm_Privacy := None;
     vm_Pools := [pool_ab] |}.

(** ["m:code"] is a request profile of ["m"]; it has no routing of its own. *)
Definition code_patch : RequestProfilePatch :=
  {| rpp_IngressOverrides := {[ "messages"%string := {[ "top_k"%string := "1"%string ]} ]};
     rpp_UpstreamOverrides := ∅; rpp_RemoveIngress := {[ "messages"%string := ["/stop"%string] ]};
     rpp_RemoveUpstream := ∅ |}.

Definition code_binding : RequestProfileBinding :=
  {| rpb_Parent := "m"; rpb_Selector := "code"; rpb_Manual := false; rpb_Patch := code_patch;
     rpb_DeploymentOverrides := {[ "a"%string := code_patch ]}; rpb_ExcludedDeployments := ["b"%string] |}.

Definition code_m : VirtualModel :=
  {| vm_Profile := Some code_binding;
     vm_RequestOverrides := {[ "messages"%string := {[ "temperature"%string := "1"%string ]} ]};
     vm_Name := "m:code"; vm_Aliases := []; vm_Visibility := ""; vm_RequiredCapabilities := [];
     vm_ResponseModel := ""; vm_Selection := vm_Selection zeroVirtualModel;
     vm_Limits := vm_Limits zeroVirtualModel; vm_Retry := zeroRetryPolicy;
     vm_Guardrails := vm_Guardrails zeroVirtualModel; vm_Privacy := None; vm_Pools := [] |}.

Definition mask_profile : PIIPolicy :=
  {| pii_Mode := ""; pii_Entities := [PIIEntityEmail]; pii_Scope := PIIScopeConversation;
     pii_Response := ""; pii_TraceContent := ""; pii_FailureMode := ""; pii_MediaText := "";
     pii_Files := Some {| piif_Text := PIIFileTextRequired; piif_Metadata := true;
                          piif_MaxTextBytes := 0 |} |}.

Definition with_profiles (models : list VirtualModel) : Document :=
  {| doc_RequestProfileSources := ∅; doc_ModelRouting := None; doc_SparkrunOverrides := None; doc_MMProjection := None;
     doc_PIIProfiles := {[ "mask"%string := mask_profile ]}; doc_GuardrailProfiles := ∅;
     doc_ModelPolicies :=
       {[ "m"%string := {| mpa_PIIProfile := Some "mask"%string; mpa_GuardrailProfile := None |} ]};
     doc_Observability := None; doc_CapabilityDefaults := "";
     doc_Providers := doc_Providers document; doc_Deployments := fleet;
     doc_VirtualModels := models |}.

Definition full_document : Document := with_profiles [model_m; model_h; model_i; variant_m; code_m].

Definition published : Document :=
  match resolve_document full_document with inr d => d | inl _ => full_document end.

Lemma full_resolves : resolve_document full_document = inr published.
Proof. vm_compute. reflexivity. Qed.

Lemma full_compiles : Compile full_document = inr (snapshot_of published).
Proof. unfold Compile. rewrite full_resolves. vm_compute. reflexivity. Qed.

Lemma full_plain : Forall plain_parent (doc_VirtualModels full_document).
Proof.
  repeat (constructor; [intros b E; cbn in E; try discriminate E|]); [|constructor].
  injection E as <-. vm_compute. reflexivity.
Qed.

Lemma compile_publishes_validated_witness :
  exists d ms, snapshot_of published = snapshot_of d /\ resolve_document full_document = inr d /\
    resolve_document d = inr (with_VirtualModels d ms) /\
    Forall2 republished (doc_VirtualModels d) ms /\ well_formed d.
Proof.
  apply (compile_publishes_validated full_document (snapshot_of published) full_compiles full_plain).
Defined.

Lemma compiled_fleet_starts_witness :
  exists m, NewTargetManager (doc_Deployments published) true = inr m /\
    forall requested allow model name, ResolveModel (snapshot_of published) requested allow = inr model ->
      name ∈ model_deployments model -> is_Some (tm_targets m !! name).
Proof.
  apply (compiled_fleet_starts full_document published (snapshot_of published) true full_compiles
    full_plain full_resolves).
Defined.

(** A picker that fails. *)
Definition broken_picker : WeightedPicker unit := fun _ w => (inl "no entropy"%string, w).

Definition broken_options : PlanOptions unit :=
  {| po_RequiredCapabilities := []; po_AllowedProviderTypes := []; po_Compatibility := None;
     po_ProtocolResolver := None; po_PinnedDeployment := ""; po_PinnedProvider := "";
     po_SingleAttempt := false; po_Eligibility := None; po_Ready := None;
     po_Picker := Some broken_picker; po_SelectionKey := ""; po_ProviderPriority := [];
     po_AllowInternal := false |}.

Definition published_m : VirtualModel :=
  match ResolveModel (snapshot_of published) "gpt" false with inr m => m | inl _ => model_m end.

Lemma compiled_models_route_witness :
  exists err total v v',
    ErrPicker "no entropy" = ErrPicker err /\ nil_picker broken_options total v = (inl err, v').
Proof.
  apply (compiled_models_route full_document (snapshot_of published) "gpt" published_m broken_options tt
    (ErrPicker "no entropy") tt full_compiles full_plain).
  - vm_compute. reflexivity.
  - split; reflexivity.
  - intros total w v w'. discriminate.
  - apply (bool_decide_unpack _). vm_compute. exact I.
  - vm_compute. reflexivity.
Defined.

(** The variant and the request profile are published with their parent's
    profile, the request profile also with its routing and derived aliases. *)
Example variant_inherits :
  vm_Privacy <$> doc_VirtualModels published =
    [Some {| priv_PII := Some mask_profile |}; None; None; Some {| priv_PII := Some mask_profile |};
     Some {| priv_PII := Some mask_profile |}] /\
  (fun m => (vm_Pools m, vm_Aliases m)) <$> last (doc_VirtualModels published) =
    Some (vm_Pools model_m, (fun alias => alias +:+ ":code") <$> vm_Aliases model_m).
Proof. split; vm_compute; reflexivity. Qed.

(** A profile and a variant that is its parent by name form a cycle. *)
Definition cyclic_profile : VirtualModel :=
  {| vm_Profile := Some {| rpb_Parent := "a:b:c"; rpb_Selector := "code"; rpb_Manual := false;
       rpb_Patch := {| rpp_IngressOverrides := ∅; rpp_UpstreamOverrides := ∅; rpp_RemoveIngress := ∅;
                       rpp_RemoveUpstream := ∅ |};
       rpb_DeploymentOverrides := ∅; rpb_ExcludedDeployments := [] |};
     vm_RequestOverrides := ∅; vm_Name := "a:b"; vm_Aliases := []; vm_Visibility := "";
     vm_RequiredCapabilities := []; vm_ResponseModel := ""; vm_Selection := vm_Selection model_m;
     vm_Limits := vm_Limits model_m; vm_Retry := zeroRetryPolicy; vm_Guardrails := vm_Guardrails model_m;
     vm_Privacy := None; vm_Pools := [pool_ab] |}.

Definition cyclic_parent : VirtualModel :=
  {| vm_Profile := None; vm_RequestOverrides := vm_RequestOverrides variant_m; vm_Name := "a:b:c";
     vm_Aliases := []; vm_Visibility := ""; vm_RequiredCapabilities := []; vm_ResponseModel := "";
     vm_Selection := vm_Selection model_m; vm_Limits := vm_Limits model_m; vm_Retry := zeroRetryPolicy;
     vm_Guardrails := vm_Guardrails model_m; vm_Privacy := None; vm_Pools := [pool_ab] |}.

Example profile_cycle_refused :
  Compile (with_profiles [model_m; cyclic_parent; cyclic_profile]) = inl cyclic_inheritance.
Proof. vm_compute. reflexivity. Qed.

Lemma validated_pii_effective_witness :
  let effective := PIIPolicy_Effective (Some mask_profile) in
  epii_Mode effective = PIIModeDisabled \/
  (epii_Mode effective = PIIModeSubstitute /\ pii_substitutes effective).
Proof. apply (validated_pii_effective mask_profile). vm_compute. reflexivity. Defined.

(** ** Weights that overflow *)

(** Two targets whose weights are valid by themselves and add up to more than
    an [int64] holds. *)
Definition heavy_pool : RoutingPool :=
  {| pool_Priority := 1;
     pool_Targets := [{| wt_Deployment := "a"; wt_Weight := MaxInt64 |};
                      {| wt_Deployment := "b"; wt_Weight := 1 |}] |}.
Definition heavy_document : Document := with_profiles [model_named "m" "" [] "" [heavy_pool]].

Definition heavy_snapshot : Snapshot :=
  match Compile heavy_document with inr s => s | inl _ => mkSnapshot ∅ ∅ ∅ ∅ end.

(** Validation accepts the document, and every plan for its model fails. *)
Lemma validated_weights_overflow :
  Compile heavy_document = inr heavy_snapshot /\
  BuildPlan heavy_snapshot "m" (Some last_picker) tt = (inl (ErrWeightOverflow 1), tt).
Proof. split; vm_compute; reflexivity. Qed.
