(* ===== verification/Endpoints.v ===== *)
(** * The endpoint registry ([pkg/endpointregistry/registry.go])

    Serving endpoints that controllers register, the single-process registry
    [Memory] and its page cursors.  Every method of [Memory] is one critical
    section; [ctx.Err()] is its first argument and the clock of [Ready] its
    [now] argument. *)

From stdpp Require Import base gmap list strings sorting.
From Stdlib Require Import Ascii ZArith Lia.
From S2P Require Import Prelude GoStrings Policies Capabilities Config Fields Json.

Local Open Scope Z_scope.
Local Open Scope go_scope.

(** ** Data *)
Definition StateOffline : string := "offline".
Definition StateActivating : string := "activating".
Definition StateReady : string := "ready".
Definition StateDraining : string := "draining".
Definition StateDeactivating : string := "deactivating".
Definition StateFailed : string := "failed".
Definition StateUnknown : string := "unknown".

Definition DefaultPageSize : Z := 100.
Definition MaxPageSize : Z := 500.
Definition maxCursorBytes : Z := 2048.
Definition cursorVersion : Z := 1.

Record Endpoint := mkEndpoint {
  ep_ID : string;
  ep_Target : string;
  ep_BaseURL : string;
  ep_Protocol : string;
  ep_ServedModels : list string;
  ep_Controller : string;
  ep_ClusterID : string;
  ep_JobID : string;
  ep_BindingRevision : string;
  ep_RecipeRevision : string;
  ep_FencingToken : Z;
  ep_State : string;
  ep_ActiveRequests : Z;
  ep_MaxConcurrency : Z;
  ep_RegisteredAt : Z;
  ep_HeartbeatAt : Z;
  ep_ExpiresAt : Z;
  ep_Metadata : gmap string string;
}.

#[export] Instance Endpoint_eq_dec : EqDecision Endpoint.
Proof. solve_decision. Defined.

Definition with_State (e : Endpoint) (state : string) : Endpoint :=
  let '(mkEndpoint id tg url pr sm co cl jo br rr ft _ ar mc ra ha ea md) := e in
  mkEndpoint id tg url pr sm co cl jo br rr ft state ar mc ra ha ea md.

Record Query := mkQuery {
  q_Target : string;
  q_Controller : string;
  q_State : string;
  q_Limit : Z;
  q_Cursor : string;
}.

Definition with_Limit (q : Query) (limit : Z) : Query :=
  mkQuery (q_Target q) (q_Controller q) (q_State q) limit (q_Cursor q).
Definition with_Cursor (q : Query) (cursor : string) : Query :=
  mkQuery (q_Target q) (q_Controller q) (q_State q) (q_Limit q) cursor.

Record Page := mkPage {
  page_Endpoints : list Endpoint;
  page_NextCursor : string;
}.

(** [Memory]: the endpoints by ID. *)
Abbreviation Memory := (gmap string Endpoint).

(** ** Validation *)
Definition validateState (state : string) : option string :=
  if String.eqb state "" then None
  else fail_if (negb (mem state
           [StateOffline; StateActivating; StateReady; StateDraining; StateDeactivating;
            StateFailed; StateUnknown])) "unsupported endpoint state %q".

(** The strings bounded to 1024 bytes; the loop's order over the map of names
    does not change the verdict. *)
Definition bounded_strings (e : Endpoint) : list string :=
  [ep_ID e; ep_Target e; ep_Protocol e; ep_Controller e; ep_ClusterID e; ep_JobID e;
   ep_BindingRevision e; ep_RecipeRevision e].

Definition metadata_step (metadataBytes : Z) (entry : string * string) : string + Z :=
  fail_if (String.eqb entry.1 "" || (128 <? zlen entry.1) || (1024 <? zlen entry.2))
    "endpoint metadata key/value is invalid" ?;
  let metadataBytes := metadataBytes + (zlen entry.1 + zlen entry.2) in
  fail_if (Z.shiftl 16 10 <? metadataBytes) "endpoint metadata exceeds 16384 bytes" ?;
  inr metadataBytes.

Definition validateEndpoint (e : Endpoint) : option string :=
  first_error [
    fail_if (String.eqb (ep_ID e) "") "endpoint ID is required";
    fail_if (String.eqb (ep_Target e) "") "endpoint target is required";
    check_all (fun value => fail_if (1024 <? zlen value) "%s exceeds 1024 bytes") (bounded_strings e);
    validateState (ep_State e);
    fail_if ((ep_ActiveRequests e <? 0) || (ep_MaxConcurrency e <? 0))
      "endpoint concurrency values must not be negative";
    fail_if (ep_FencingToken e <? 0) "endpoint fencing token must not be negative";
    fail_if ((0 <? ep_FencingToken e) &&
             (String.eqb (ep_Controller e) "" || String.eqb (ep_BindingRevision e) ""))
      "fenced endpoint requires controller and binding revision";
    fail_if (256 <? Z.of_nat (length (ep_ServedModels e)))
      "endpoint advertises too many served models";
    check_all (fun model => fail_if (String.eqb model "" || (1024 <? zlen model))
                  "endpoint served model must be between 1 and 1024 bytes") (ep_ServedModels e);
    fail_if (64 <? Z.of_nat (size (ep_Metadata e))) "endpoint metadata has too many fields";
    error_of (scan metadata_step 0 (map_to_list (ep_Metadata e)))].

Section Validation.
Context `{NetURL}.

Definition ValidateEndpoint (e : Endpoint) : option string :=
  first_error [
    validateEndpoint e;
    match url_Parse (ep_BaseURL e) with
    | None => Some "endpoint base URL must be an absolute HTTP(S) URL"%string
    | Some parsed =>
        first_error [
          fail_if (String.eqb (url_Host parsed) "" ||
                   (negb (String.eqb (url_Scheme parsed) "http") &&
                    negb (String.eqb (url_Scheme parsed) "https")))
            "endpoint base URL must be an absolute HTTP(S) URL";
          fail_if (url_User parsed || negb (String.eqb (url_RawQuery parsed) "") ||
                   negb (String.eqb (url_Fragment parsed) ""))
            "endpoint base URL must not contain userinfo, query, or fragment"]
    end].
End Validation.

(** ** Cursors *)

(** [json.Marshal(listCursor{Version: 1, AfterID: endpointID})], in base64. *)
Definition cursor_prefix : list ascii :=
  [ "{"%char; quotation; "v"%char; quotation; ":"%char; "1"%char; ","%char; quotation] ++
  bytes "after_id" ++ [quotation; ":"%char].

Definition encodeCursor (endpointID : string) : string :=
  of_bytes (EncodeToString (cursor_prefix ++ quote (bytes endpointID) ++ ["}"%char])).

(** The values of a JSON object that decoding into a [listCursor] can accept:
    anything but [null], a number and a string is an error for either field. *)
Inductive cursor_value := CursorNull | CursorNumber (literal : list ascii) | CursorString (s : list ascii).

Definition json_space (c : ascii) : bool :=
  Ascii.eqb c " " || Ascii.eqb c "009" || Ascii.eqb c "010" || Ascii.eqb c "013".

Fixpoint skip_space (l : list ascii) : list ascii :=
  match l with
  | [] => []
  | c :: l' => if json_space c then skip_space l' else l
  end.

Fixpoint take_digits (l : list ascii) : list ascii * list ascii :=
  match l with
  | [] => ([], [])
  | c :: l' => if in_range 48 57 c then let '(d, rest) := take_digits l' in (c :: d, rest) else ([], l)
  end.

(** An integer literal without superfluous zeros; a fraction or an exponent
    after it is refused by the field or by the syntax. *)
Definition integer_literal (l : list ascii) : option (list ascii * list ascii) :=
  let '(sign, l) := match l with
                    | c :: l' => if Ascii.eqb c "-" then ([c], l') else ([], l)
                    | [] => ([], [])
                    end in
  match take_digits l with
  | ([], _) => None
  | (c :: _ :: _ as d, rest) => if Ascii.eqb c "0" then None else Some (sign ++ d, rest)
  | (d, rest) => Some (sign ++ d, rest)
  end.

Definition read_value (l : list ascii) : option (cursor_value * list ascii) :=
  match l with
  | c :: rest =>
      if Ascii.eqb c quotation then
        '(s, rest) ← unquote rest; Some (CursorString s, rest)
      else if bool_decide (take 4 l = bytes "null") then Some (CursorNull, drop 4 l)
      else '(d, rest) ← integer_literal l; Some (CursorNumber d, rest)
  | [] => None
  end.

Record listCursor := mkListCursor { lc_Version : Z; lc_AfterID : string }.

(** A field of [listCursor] is found by its name without regard to case; an
    unknown one is an error, [null] leaves the field as it is. *)
Definition set_field (cursor : listCursor) (key : list ascii) (value : cursor_value)
  : option listCursor :=
  let key := lower_byte <$> key in
  if bool_decide (key = bytes "v") then
    match value with
    | CursorNull => Some cursor
    | CursorNumber d =>
        z ← ParseInt (of_bytes d); Some (mkListCursor z (lc_AfterID cursor))
    | CursorString _ => None
    end
  else if bool_decide (key = bytes "after_id") then
    match value with
    | CursorNull => Some cursor
    | CursorString s => Some (mkListCursor (lc_Version cursor) (of_bytes s))
    | CursorNumber _ => None
    end
  else None.

(** The members after an opening brace or a comma, up to the closing brace. *)
Fixpoint read_members (fuel : nat) (cursor : listCursor) (l : list ascii)
  : option (listCursor * list ascii) :=
  match fuel with
  | O => None
  | S fuel =>
      match skip_space l with
      | c :: l1 =>
          if Ascii.eqb c quotation then
            '(key, l2) ← unquote l1;
            match skip_space l2 with
            | c2 :: l3 =>
                if Ascii.eqb c2 ":" then
                  '(value, l4) ← read_value (skip_space l3);
                  cursor ← set_field cursor key value;
                  match skip_space l4 with
                  | c4 :: l5 =>
                      if Ascii.eqb c4 "," then read_members fuel cursor l5
                      else if Ascii.eqb c4 "}" then Some (cursor, l5) else None
                  | [] => None
                  end
                else None
            | [] => None
            end
          else None
      | [] => None
      end
  end.

(** [decoder.Decode(&cursor)] with [DisallowUnknownFields]: the value and the
    rest of the input. *)
Definition decode_object (raw : list ascii) : option (listCursor * list ascii) :=
  let zero := mkListCursor 0 "" in
  match skip_space raw with
  | c :: l =>
      if Ascii.eqb c "{" then
        match skip_space l with
        | c1 :: l1 => if Ascii.eqb c1 "}" then Some (zero, l1) else read_members (length l) zero l
        | [] => None
        end
      else if bool_decide (take 4 (c :: l) = bytes "null") then
        Some (zero, drop 3 l)
      else None
  | [] => None
  end.

Definition decodeCursor (value : string) : string + string :=
  fail_if (maxCursorBytes <? zlen value) "invalid endpoint cursor: cursor is too large" ?;
  match DecodeString (bytes value) with
  | None => inl "invalid endpoint cursor: malformed encoding"%string
  | Some raw =>
      match decode_object raw with
      | None => inl "invalid endpoint cursor: malformed payload"%string
      | Some (cursor, rest) =>
          match skip_space rest with
          | _ :: _ => inl "invalid endpoint cursor: trailing payload"%string
          | [] =>
              if negb (lc_Version cursor =? cursorVersion) || String.eqb (lc_AfterID cursor) "" ||
                 (1024 <? zlen (lc_AfterID cursor))
              then inl "invalid endpoint cursor: unsupported payload"%string
              else inr (lc_AfterID cursor)
          end
      end
  end.

Example cursor_examples :
  encodeCursor "a-1" = "eyJ2IjoxLCJhZnRlcl9pZCI6ImEtMSJ9"%string /\
  decodeCursor "eyJ2IjoxLCJhZnRlcl9pZCI6ImEtMSJ9" = inr "a-1"%string.
Proof. split; vm_compute; reflexivity. Qed.

(** ** Queries *)
Definition validateQuery (query : Query) : string + (Query * string) :=
  check_all (fun value => fail_if (1024 <? zlen value) "endpoint query %s exceeds 1024 bytes")
    [q_Target query; q_Controller query] ?;
  (if String.eqb (q_State query) "" then None else validateState (q_State query)) ?;
  fail_if (q_Limit query <? 0) "endpoint page limit must not be negative" ?;
  fail_if (negb (q_Limit query =? 0) && (MaxPageSize <? q_Limit query))
    "endpoint page limit exceeds %d" ?;
  let query := if q_Limit query =? 0 then with_Limit query DefaultPageSize else query in
  if String.eqb (q_Cursor query) "" then inr (query, ""%string)
  else match decodeCursor (q_Cursor query) with
       | inl err => inl err
       | inr afterID => inr (query, afterID)
       end.

Definition ValidateQuery (query : Query) : string + Query :=
  match validateQuery query with inl err => inl err | inr (validated, _) => inr validated end.

(** [sort.Search(n, f)]: binary search for the first index at which [f] holds. *)
Fixpoint search (fuel : nat) (f : nat -> bool) (i j : nat) : nat :=
  match fuel with
  | O => i
  | S fuel =>
      if Nat.ltb i j then
        let h := Nat.div (i + j) 2 in
        if negb (f h) then search fuel f (S h) j else search fuel f i h
      else i
  end.

Definition sort_Search (n : nat) (f : nat -> bool) : nat := search n f 0 n.

(** ** The registry *)
Definition by_ID (x y : Endpoint) : bool := String.ltb (ep_ID x) (ep_ID y).

Definition selected (query : Query) (e : Endpoint) : bool :=
  negb ((negb (String.eqb (q_Target query) "") && negb (String.eqb (ep_Target e) (q_Target query))) ||
        (negb (String.eqb (q_Controller query) "") &&
         negb (String.eqb (ep_Controller e) (q_Controller query))) ||
        (negb (String.eqb (q_State query) "") && negb (String.eqb (ep_State e) (q_State query)))).

Section Registry.
Context `{NetURL}.

(** [Memory.Register]; cloning is the identity on values. *)
Definition Register (ctx_Err : option string) (r : Memory) (endpoint : Endpoint)
  : option string * Memory :=
  match first_error [ctx_Err; ValidateEndpoint endpoint] with
  | Some err => (Some err, r)
  | None =>
      let endpoint :=
        if String.eqb (ep_State endpoint) "" then with_State endpoint StateUnknown else endpoint in
      let stale := match r !! ep_ID endpoint with
                   | Some current => ep_FencingToken endpoint <? ep_FencingToken current
                   | None => false
                   end in
      if stale then (Some "endpoint registration has a stale fencing token"%string, r)
      else (None, <[ep_ID endpoint := endpoint]> r)
  end.

(** [Memory.Remove] *)
Definition Remove (ctx_Err : option string) (r : Memory) (endpointID : string)
  : option string * Memory :=
  match ctx_Err with
  | Some err => (Some err, r)
  | None => (None, delete endpointID r)
  end.

(** [!endpoint.ExpiresAt.IsZero() && !endpoint.ExpiresAt.After(now)] *)
Definition expired (now : Z) (e : Endpoint) : bool :=
  negb (time_IsZero (ep_ExpiresAt e)) && negb (time_Before now (ep_ExpiresAt e)).

(** The two tests of the loop of [Memory.Ready]. *)
Definition live (now : Z) (target : string) (e : Endpoint) : bool :=
  negb (negb (String.eqb (ep_Target e) target) || negb (String.eqb (ep_State e) StateReady)) &&
  negb (expired now e).

(** [Memory.Ready] *)
Definition Ready (ctx_Err : option string) (r : Memory) (now : Z) (target : string)
  : string + list Endpoint :=
  ctx_Err ?;
  inr (stable_sort by_ID (List.filter (live now target) (map_to_list r).*2)).

(** [Memory.List] *)
Definition List (ctx_Err : option string) (r : Memory) (query : Query) : string + Page :=
  ctx_Err ?;
  match validateQuery query with
  | inl err => inl err
  | inr (query, afterID) =>
      let endpoints := stable_sort by_ID (List.filter (selected query) (map_to_list r).*2) in
      let endpoints :=
        if String.eqb afterID "" then endpoints
        else drop (sort_Search (length endpoints)
                     (fun i => match endpoints !! i with
                               | Some e => String.ltb afterID (ep_ID e)
                               | None => false
                               end)) endpoints in
      if q_Limit query <? Z.of_nat (length endpoints) then
        let page := take (Z.to_nat (q_Limit query)) endpoints in
        inr (mkPage page (default ""%string (encodeCursor ∘ ep_ID <$> last page)))
      else inr (mkPage endpoints "")
  end.
End Registry.
