(* ===== verification/Ledger.v ===== *)
(** * Ledger records ([pkg/ledger/types.go])

    The records of requests, attempts and runtime events, what makes one
    acceptable, and the estimate of its size.  The maps that [Validate] ranges
    over to name fields in its errors are lists here, in the order the source
    writes them; whether a record is accepted does not depend on that order. *)

From stdpp Require Import base gmap list strings.
From Stdlib Require Import ZArith Lia.
From S2P Require Import Prelude GoStrings Fixtures Policies Capabilities Config Fields.

Local Open Scope Z_scope.
Local Open Scope go_scope.

Definition MaxRawUsageBytes : Z := Z.shiftl 32 10.
Definition MaxAttributionBytes : Z := Z.shiftl 16 10.
Definition MaxRuntimeReasonBytes : Z := 64.

(** ** Data *)
Definition KindRequest : string := "request".
Definition KindAttempt : string := "attempt".
Definition KindRuntimeEvent : string := "runtime_event".

Definition OutcomeSuccess : string := "success".
Definition OutcomeRejected : string := "rejected".
Definition OutcomeUpstreamError : string := "upstream_error".
Definition OutcomeTransportError : string := "transport_error".
Definition OutcomeConfigError : string := "configuration_error".
Definition OutcomeClientCancelled : string := "client_cancelled".
Definition OutcomeStreamError : string := "stream_error".
Definition OutcomeExhausted : string := "attempts_exhausted".

Definition UsageMissing : string := "missing".
Definition UsagePartial : string := "partial".
Definition UsageComplete : string := "complete".

Record TokenUsage := mkTokenUsage {
  tu_InputTokens : option Z;
  tu_OutputTokens : option Z;
  tu_TotalTokens : option Z;
  tu_CachedInputTokens : option Z;
  tu_CacheCreationTokens : option Z;
  tu_ReasoningTokens : option Z;
  tu_ToolUsePromptTokens : option Z;
  tu_AcceptedPredictionTokens : option Z;
  tu_RejectedPredictionTokens : option Z;
  tu_ProviderComponents : gmap string Z;
  tu_Raw : string;
  tu_Completeness : string;
  tu_NormalizationVersion : string;
}.

Record RequestRecord := mkRequestRecord {
  rr_RequestID : string;
  rr_StartedAt : Z;
  rr_CompletedAt : Z;
  rr_PrincipalID : string;
  rr_PrincipalType : string;
  rr_PrincipalSubject : string;
  rr_PrincipalRoles : list string;
  rr_TenantID : string;
  rr_Attribution : gmap string string;
  rr_Protocol : string;
  rr_Operation : string;
  rr_Stream : bool;
  rr_RequestedModel : string;
  rr_VirtualModel : string;
  rr_ResponsePresentedModel : string;
  rr_ConfigRevision : string;
  rr_FinalProvider : string;
  rr_FinalDeployment : string;
  rr_FinalUpstreamModel : string;
  rr_AttemptCount : Z;
  rr_HTTPStatus : Z;
  rr_Outcome : string;
  rr_FailureClass : string;
  rr_Latency : Z;
  rr_TimeToFirstByte : option Z;
  rr_Usage : TokenUsage;
}.

Record AttemptRecord := mkAttemptRecord {
  ar_RequestID : string;
  ar_Attempt : Z;
  ar_StartedAt : Z;
  ar_FirstByteAt : option Z;
  ar_CompletedAt : Z;
  ar_Provider : string;
  ar_Deployment : string;
  ar_UpstreamModel : string;
  ar_PoolPriority : Z;
  ar_HTTPStatus : Z;
  ar_UpstreamRequestID : string;
  ar_Outcome : string;
  ar_FailureClass : string;
  ar_Retried : bool;
  ar_Latency : Z;
  ar_Usage : TokenUsage;
}.

Definition RuntimeOutcome : Type := string.
Definition RuntimeOutcomeSuccess : RuntimeOutcome := "success".
Definition RuntimeOutcomeFailure : RuntimeOutcome := "failure".
Definition RuntimeOutcomeTimeout : RuntimeOutcome := "timeout".
Definition RuntimeOutcomeCancelled : RuntimeOutcome := "cancelled".
Definition RuntimeOutcomeRejected : RuntimeOutcome := "rejected".

Record RuntimeEventRecord := mkRuntimeEventRecord {
  re_EventID : string;
  re_OccurredAt : Z;
  re_Controller : string;
  re_BindingRevision : string;
  re_VirtualModel : string;
  re_Deployment : string;
  re_EndpointInstance : string;
  re_ClusterID : string;
  re_JobID : string;
  re_RecipeRevision : string;
  re_PriorState : string;
  re_NewState : string;
  re_Reason : string;
  re_Latency : option Z;
  re_QueueDepth : Z;
  re_WaiterCount : Z;
  re_Outcome : RuntimeOutcome;
}.

(** [ledger.Record], a union by [Kind]. *)
Record LedgerRecord := mkLedgerRecord {
  lr_Kind : string;
  lr_Request : option RequestRecord;
  lr_Attempt : option AttemptRecord;
  lr_RuntimeEvent : option RuntimeEventRecord;
}.

Definition NewRequestRecord (record : RequestRecord) : LedgerRecord :=
  mkLedgerRecord KindRequest (Some record) None None.
Definition NewAttemptRecord (record : AttemptRecord) : LedgerRecord :=
  mkLedgerRecord KindAttempt None (Some record) None.
Definition NewRuntimeEventRecord (record : RuntimeEventRecord) : LedgerRecord :=
  mkLedgerRecord KindRuntimeEvent None None (Some record).

(** ** Validation *)
Definition validateBoundedString (name value : string) (limit : Z) : option string :=
  fail_if (limit <? zlen value) (name +:+ " exceeds %d bytes").

Definition check_strings (limit : Z) (fields : list (string * string)) : option string :=
  check_all (fun field => validateBoundedString field.1 field.2 limit) fields.

Definition validateOutcome (outcome : string) : option string :=
  fail_if (negb (mem outcome [OutcomeSuccess; OutcomeRejected; OutcomeUpstreamError;
    OutcomeTransportError; OutcomeConfigError; OutcomeClientCancelled; OutcomeStreamError;
    OutcomeExhausted])) "invalid outcome %q".

Definition validateRecordTimes (started completed : Z) : option string :=
  first_error [
    fail_if (time_IsZero started || time_IsZero completed) "record timestamps are required";
    fail_if (time_Before completed started) "record completion precedes start"].

(** The loop of [validateAttribution]; the accumulator is the running total. *)
Fixpoint attribution_loop (total : Z) (entries : list (string * string)) : option string :=
  match entries with
  | [] => None
  | (key, value) :: entries =>
      if String.eqb key "" then Some "attribution key is empty"%string
      else
        match first_error [validateBoundedString "attribution key" key 128;
                           validateBoundedString "attribution value" value 1024] with
        | Some err => Some err
        | None =>
            let total := total + (zlen key + zlen value) in
            if MaxAttributionBytes <? total then Some "attribution exceeds %d bytes"%string
            else attribution_loop total entries
        end
  end.

Definition validateAttribution (attribution : gmap string string) : option string :=
  if 64 <? Z.of_nat (size attribution) then Some "too many attribution fields"%string
  else attribution_loop 0 (map_to_list attribution).

Section WithJSON.
Context `{EncodingJSON}.

Definition validateUsage (usage : TokenUsage) : option string :=
  first_error [
    fail_if (negb (mem (tu_Completeness usage) [UsageMissing; UsagePartial; UsageComplete]))
      "invalid usage completeness %q";
    fail_if (MaxRawUsageBytes <? zlen (tu_Raw usage)) "raw usage exceeds %d bytes";
    fail_if ((0 <? zlen (tu_Raw usage)) && negb (json_Valid (tu_Raw usage)))
      "raw usage is not valid JSON";
    check_all (fun value => fail_if (match value with Some v => v <? 0 | None => false end)
                              "%s must not be negative")
      [tu_InputTokens usage; tu_OutputTokens usage; tu_TotalTokens usage;
       tu_CachedInputTokens usage; tu_CacheCreationTokens usage; tu_ReasoningTokens usage;
       tu_ToolUsePromptTokens usage; tu_AcceptedPredictionTokens usage;
       tu_RejectedPredictionTokens usage];
    fail_if (64 <? Z.of_nat (size (tu_ProviderComponents usage))) "too many provider usage components";
    check_all (fun component : string * Z =>
        first_error [validateBoundedString "provider component" component.1 128;
                     fail_if (component.2 <? 0) "provider component %q must not be negative"])
      (map_to_list (tu_ProviderComponents usage));
    validateBoundedString "normalization_version" (tu_NormalizationVersion usage) 128].

Definition validRuntimeState (state : string) : bool :=
  mem state ["offline"; "activating"; "ready"; "draining"; "deactivating"; "failed"; "unknown"].

Definition validRuntimeOutcome (outcome : RuntimeOutcome) : bool :=
  mem outcome [RuntimeOutcomeSuccess; RuntimeOutcomeFailure; RuntimeOutcomeTimeout;
               RuntimeOutcomeCancelled; RuntimeOutcomeRejected].

(** A rune of a runtime reason. *)
Definition reason_rune (current : Z) : bool :=
  negb (((current <? 97) || (122 <? current)) && ((current <? 48) || (57 <? current)) &&
        negb (current =? 45) && negb (current =? 95)).

Definition sanitizeRuntimeReason (reason : string) : string :=
  if MaxRuntimeReasonBytes <? zlen reason
  then of_bytes (take (Z.to_nat MaxRuntimeReasonBytes) (bytes reason))
  else if forallb reason_rune (runes reason) then reason else "".

Definition validateRuntimeEvent (record : RuntimeEventRecord) : option string :=
  first_error [
    fail_if (String.eqb (re_EventID record) "" || String.eqb (re_Controller record) "" ||
             String.eqb (re_NewState record) "") "event_id, controller, and new_state are required";
    fail_if (time_IsZero (re_OccurredAt record)) "runtime event occurred_at is required";
    check_strings 1024 [
      ("event_id", re_EventID record); ("controller", re_Controller record);
      ("binding_revision", re_BindingRevision record); ("virtual_model", re_VirtualModel record);
      ("deployment", re_Deployment record); ("endpoint_instance", re_EndpointInstance record);
      ("cluster_id", re_ClusterID record); ("job_id", re_JobID record);
      ("recipe_revision", re_RecipeRevision record)]%string;
    fail_if (negb (String.eqb (re_PriorState record) "") &&
             negb (validRuntimeState (re_PriorState record))) "invalid prior runtime state %q";
    fail_if (negb (validRuntimeState (re_NewState record))) "invalid new runtime state %q";
    fail_if (negb (validRuntimeOutcome (re_Outcome record))) "invalid runtime outcome %q";
    fail_if (negb (String.eqb (re_Reason record) (sanitizeRuntimeReason (re_Reason record))))
      "runtime reason must be a sanitized low-cardinality identifier";
    fail_if (match re_Latency record with Some l => l <? 0 | None => false end)
      "runtime latency must not be negative";
    fail_if ((re_QueueDepth record <? 0) || (re_WaiterCount record <? 0))
      "runtime queue counters must not be negative"].

Definition validateRequest (r : RequestRecord) : option string :=
  first_error [
    fail_if (String.eqb (rr_RequestID r) "") "request_id is required";
    validateRecordTimes (rr_StartedAt r) (rr_CompletedAt r);
    validateOutcome (rr_Outcome r);
    check_strings 1024 [
      ("request_id", rr_RequestID r); ("principal_id", rr_PrincipalID r);
      ("principal_type", rr_PrincipalType r); ("principal_subject", rr_PrincipalSubject r);
      ("tenant_id", rr_TenantID r); ("protocol", rr_Protocol r); ("operation", rr_Operation r);
      ("requested_model", rr_RequestedModel r); ("virtual_model", rr_VirtualModel r);
      ("response_presented_model", rr_ResponsePresentedModel r);
      ("config_revision", rr_ConfigRevision r); ("final_provider", rr_FinalProvider r);
      ("final_deployment", rr_FinalDeployment r); ("final_upstream_model", rr_FinalUpstreamModel r);
      ("failure_class", rr_FailureClass r)]%string;
    fail_if (64 <? Z.of_nat (length (rr_PrincipalRoles r))) "too many principal roles";
    check_all (fun role => validateBoundedString "principal role" role 256) (rr_PrincipalRoles r);
    validateAttribution (rr_Attribution r);
    validateUsage (rr_Usage r)].

Definition validateAttempt (r : AttemptRecord) : option string :=
  first_error [
    fail_if (String.eqb (ar_RequestID r) "" || (ar_Attempt r <=? 0))
      "request_id and positive attempt are required";
    validateRecordTimes (ar_StartedAt r) (ar_CompletedAt r);
    validateOutcome (ar_Outcome r);
    check_strings 1024 [
      ("request_id", ar_RequestID r); ("provider", ar_Provider r); ("deployment", ar_Deployment r);
      ("upstream_model", ar_UpstreamModel r); ("upstream_request_id", ar_UpstreamRequestID r);
      ("failure_class", ar_FailureClass r)]%string;
    validateUsage (ar_Usage r)].

(** [Record.Validate] *)
Definition validateRecord (r : LedgerRecord) : option string :=
  if String.eqb (lr_Kind r) KindRequest then
    match lr_Request r, lr_Attempt r, lr_RuntimeEvent r with
    | Some request, None, None => validateRequest request
    | _, _, _ => Some "request record must contain only a request payload"%string
    end
  else if String.eqb (lr_Kind r) KindAttempt then
    match lr_Request r, lr_Attempt r, lr_RuntimeEvent r with
    | None, Some attempt, None => validateAttempt attempt
    | _, _, _ => Some "attempt record must contain only an attempt payload"%string
    end
  else if String.eqb (lr_Kind r) KindRuntimeEvent then
    match lr_Request r, lr_Attempt r, lr_RuntimeEvent r with
    | None, None, Some event => validateRuntimeEvent event
    | _, _, _ => Some "runtime event record must contain only a runtime event payload"%string
    end
  else Some "unsupported record kind %q"%string.
End WithJSON.

(** ** Size *)
Fixpoint sum_len (l : list string) : Z :=
  match l with [] => 0 | s :: l => zlen s + sum_len l end.

Definition EstimatedBytes (r : LedgerRecord) : Z :=
  256 +
  match lr_Request r with
  | None => 0
  | Some q =>
      sum_len [rr_RequestID q; rr_PrincipalID q; rr_PrincipalType q; rr_PrincipalSubject q;
               rr_TenantID q; rr_RequestedModel q; rr_VirtualModel q; rr_FinalProvider q;
               rr_FinalDeployment q; rr_FinalUpstreamModel q; tu_Raw (rr_Usage q)] +
      sum_len (rr_PrincipalRoles q) +
      map_fold (fun (key value : string) n => zlen key + zlen value + n) 0 (rr_Attribution q)
  end +
  match lr_Attempt r with
  | None => 0
  | Some a =>
      sum_len [ar_RequestID a; ar_Provider a; ar_Deployment a; ar_UpstreamModel a;
               tu_Raw (ar_Usage a)]
  end +
  match lr_RuntimeEvent r with
  | None => 0
  | Some e =>
      sum_len [re_EventID e; re_Controller e; re_BindingRevision e; re_VirtualModel e;
               re_Deployment e; re_EndpointInstance e; re_ClusterID e; re_JobID e;
               re_RecipeRevision e; re_Reason e]
  end.

(** ** Facts *)
Lemma sum_len_nonneg l : 0 <= sum_len l.
Proof. induction l as [|s l IH]; cbn [sum_len]; [lia|]. unfold zlen. lia. Qed.

Lemma map_len_nonneg (m : gmap string string) :
  0 <= map_fold (fun (key value : string) n => zlen key + zlen value + n) 0 m.
Proof. apply (map_fold_weak_ind (fun n _ => 0 <= n)); [lia|]. intros. unfold zlen in *. lia. Qed.

Lemma EstimatedBytes_pos r : 256 <= EstimatedBytes r.
Proof.
  unfold EstimatedBytes.
  destruct (lr_Request r) as [q|], (lr_Attempt r) as [a|], (lr_RuntimeEvent r) as [e|].
  all: try (pose proof (map_len_nonneg (rr_Attribution q)) as Hm; revert Hm).
  all: repeat match goal with |- context [sum_len ?l] =>
         generalize (sum_len_nonneg l); generalize (sum_len l) end; lia.
Qed.

(** Whether an attribution is accepted depends on its entries, not their order. *)
Fixpoint entries_len (entries : list (string * string)) : Z :=
  match entries with [] => 0 | e :: entries => zlen e.1 + zlen e.2 + entries_len entries end.

Lemma entries_len_nonneg entries : 0 <= entries_len entries.
Proof. induction entries as [|e l IH]; cbn [entries_len]; [lia|]. unfold zlen. lia. Qed.

Lemma attribution_loop_spec entries total :
  total <= MaxAttributionBytes ->
  attribution_loop total entries = None <->
  Forall (fun e => e.1 <> ""%string /\ zlen e.1 <= 128 /\ zlen e.2 <= 1024) entries /\
  total + entries_len entries <= MaxAttributionBytes.
Proof.
  revert total. induction entries as [|[key value] entries IH]; intros total Ht;
    cbn [attribution_loop entries_len fst snd].
  { split; [intros _; split; [constructor|lia]|done]. }
  rewrite Forall_cons. cbn [fst snd]. pose proof (entries_len_nonneg entries).
  destruct (String.eqb_spec key "") as [->|Hk]; [split; [done|tauto]|].
  destruct (first_error _) as [e|] eqn:E.
  { split; [done|]. intros [[(_ & H1 & H2) _] _]. exfalso. revert E.
    unfold first_error, validateBoundedString, fail_if. rewrite !(proj2 (Z.ltb_ge _ _)) by done. done. }
  rewrite !first_error_cons in E. unfold validateBoundedString in E. rewrite !fail_if_None, !Z.ltb_ge in E.
  destruct (Z.ltb_spec MaxAttributionBytes (total + (zlen key + zlen value))).
  { split; [done|]. lia. }
  rewrite IH by done. split; [intros [? ?]; split; [tauto|lia]|intros [[_ ?] ?]; split; [done|lia]].
Qed.

#[export] Instance entries_len_Permutation : Proper (Permutation ==> eq) entries_len.
Proof. intros l k Hp. induction Hp; cbn [entries_len]; lia. Qed.

Lemma attribution_loop_order entries entries' :
  entries ≡ₚ entries' -> attribution_loop 0 entries = None <-> attribution_loop 0 entries' = None.
Proof.
  intros Hp. by rewrite !attribution_loop_spec, Hp by done.
Qed.

Lemma map_len_entries (m : gmap string string) :
  map_fold (fun (key value : string) n => zlen key + zlen value + n) 0 m = entries_len (map_to_list m).
Proof.
  rewrite map_fold_foldr. induction (map_to_list m) as [|[k v] l IH]; cbn [foldr entries_len fst snd curry]; [done|].
  rewrite <- IH. done.
Qed.

(** ** The size of what is accepted *)
Definition max_record_bytes : Z := 256 + 10 * 1024 + MaxRawUsageBytes + 64 * 256 + MaxAttributionBytes.

Lemma sum_len_le limit l : Forall (fun s => zlen s <= limit) l -> sum_len l <= Z.of_nat (length l) * limit.
Proof. induction 1; cbn [sum_len length]; lia. Qed.

Lemma check_strings_None limit fields :
  check_strings limit fields = None <-> Forall (fun f => zlen f.2 <= limit) fields.
Proof.
  unfold check_strings. rewrite check_all_None. rewrite !Forall_forall.
  unfold validateBoundedString. by setoid_rewrite fail_if_None; setoid_rewrite Z.ltb_ge.
Qed.

Section Bounds.
Context `{EncodingJSON}.

Lemma validateUsage_raw usage : validateUsage usage = None -> zlen (tu_Raw usage) <= MaxRawUsageBytes.
Proof. unfold validateUsage. rewrite !first_error_cons, !fail_if_None, Z.ltb_ge. tauto. Qed.

Lemma request_bytes q :
  validateRequest q = None -> EstimatedBytes (NewRequestRecord q) <= max_record_bytes.
Proof.
  unfold validateRequest. rewrite !first_error_cons, check_strings_None, check_all_None, !fail_if_None.
  intros (_ & _ & _ & Hs & Hn & Hr & Ha & Hu & _). apply validateUsage_raw in Hu.
  apply Z.ltb_ge in Hn.
  assert (Hroles : sum_len (rr_PrincipalRoles q) <= 64 * 256).
  { etransitivity; [apply (sum_len_le 256)|lia].
    eapply Forall_impl; [exact Hr|]. intros r Hr'. unfold validateBoundedString in Hr'.
    by rewrite fail_if_None, Z.ltb_ge in Hr'. }
  assert (Hattr : entries_len (map_to_list (rr_Attribution q)) <= MaxAttributionBytes).
  { unfold validateAttribution in Ha. destruct (_ <? _); [done|].
    apply attribution_loop_spec in Ha; [|done]. lia. }
  rewrite !Forall_cons in Hs. cbn [snd] in Hs.
  unfold EstimatedBytes, max_record_bytes. cbn [lr_Request lr_Attempt lr_RuntimeEvent NewRequestRecord sum_len].
  rewrite map_len_entries. lia.
Qed.

Lemma attempt_bytes a :
  validateAttempt a = None -> EstimatedBytes (NewAttemptRecord a) <= max_record_bytes.
Proof.
  unfold validateAttempt. rewrite !first_error_cons, check_strings_None, !fail_if_None.
  intros (_ & _ & _ & Hs & Hu & _). apply validateUsage_raw in Hu.
  rewrite !Forall_cons in Hs. cbn [snd] in Hs.
  change max_record_bytes with 76032. change MaxRawUsageBytes with 32768 in Hu. unfold EstimatedBytes.
  cbn [lr_Request lr_Attempt lr_RuntimeEvent NewAttemptRecord sum_len]. lia.
Qed.

Lemma sanitizeRuntimeReason_short reason :
  sanitizeRuntimeReason reason = reason -> zlen reason <= MaxRuntimeReasonBytes.
Proof.
  unfold sanitizeRuntimeReason. destruct (Z.ltb_spec MaxRuntimeReasonBytes (zlen reason)) as [Hl|]; [|done].
  intros E. exfalso. apply (f_equal zlen) in E. unfold zlen, len in *.
  rewrite length_of_bytes, length_take in E. change (Z.to_nat MaxRuntimeReasonBytes) with 64%nat in E.
  change MaxRuntimeReasonBytes with 64 in *. lia.
Qed.

Lemma event_bytes e :
  validateRuntimeEvent e = None -> EstimatedBytes (NewRuntimeEventRecord e) <= max_record_bytes.
Proof.
  unfold validateRuntimeEvent. rewrite !first_error_cons, check_strings_None, !fail_if_None.
  intros (_ & _ & Hs & _ & _ & _ & Hr & _). apply negb_false_iff, String.eqb_eq in Hr.
  apply eq_sym, sanitizeRuntimeReason_short in Hr. change MaxRuntimeReasonBytes with 64 in Hr.
  rewrite !Forall_cons in Hs. cbn [snd] in Hs.
  change max_record_bytes with 76032. unfold EstimatedBytes.
  cbn [lr_Request lr_Attempt lr_RuntimeEvent NewRuntimeEventRecord sum_len]. lia.
Qed.

Lemma validateRecord_shape r :
  validateRecord r = None ->
  (exists q, r = NewRequestRecord q) \/ (exists a, r = NewAttemptRecord a) \/
  (exists e, r = NewRuntimeEventRecord e).
Proof.
  destruct r as [kind q a e]. unfold validateRecord. cbn [lr_Kind lr_Request lr_Attempt lr_RuntimeEvent].
  destruct (String.eqb_spec kind KindRequest) as [->|];
    [|destruct (String.eqb_spec kind KindAttempt) as [->|];
      [|destruct (String.eqb_spec kind KindRuntimeEvent) as [->|]; [|done]]];
    destruct q as [q|], a as [a|], e as [e|]; try done; intros _; [left|right; left|right; right]; by eexists.
Qed.

(** A record that [Validate] accepts is of one kind, with the payload of that
    kind and no other, and its estimated size is at least 256 bytes and at most
    76032. *)
Theorem accepted_record_bounded r :
  validateRecord r = None ->
  256 <= EstimatedBytes r <= 76032 /\
  ((exists q, r = NewRequestRecord q) \/ (exists a, r = NewAttemptRecord a) \/
   (exists e, r = NewRuntimeEventRecord e)).
Proof.
  intros Hv. pose proof (validateRecord_shape r Hv) as Hs. split; [|done].
  split; [apply EstimatedBytes_pos|]. change 76032 with max_record_bytes.
  destruct Hs as [[q ->]|[[a ->]|[e ->]]];
    [by apply request_bytes|by apply attempt_bytes|by apply event_bytes].
Qed.
End Bounds.

(** A small record. *)
Section Sample.
#[local] Existing Instance any_json.

Definition sample_event : RuntimeEventRecord :=
  mkRuntimeEventRecord "event-1" 1 "controller" "" "" "" "" "" "" "" "offline" "activating"
    "activation_started" None 0 0 RuntimeOutcomeSuccess.

Definition sample_record : LedgerRecord := NewRuntimeEventRecord sample_event.

Lemma accepted_record_bounded_witness :
  256 <= EstimatedBytes sample_record <= 76032 /\
  ((exists q, sample_record = NewRequestRecord q) \/ (exists a, sample_record = NewAttemptRecord a) \/
   (exists e, sample_record = NewRuntimeEventRecord e)).
Proof. apply (accepted_record_bounded sample_record). vm_compute. reflexivity. Defined.
End Sample.
