(* ===== verification/EndpointTheorems.v ===== *)
(** * Properties of the endpoint registry

    Page cursors decode to the endpoint they were made from, following them
    visits every selected endpoint once and in order, registrations are fenced,
    and [Ready] returns exactly the live endpoints of a target. *)

From stdpp Require Import base gmap list strings sorting.
From Stdlib Require Import Ascii ZArith Lia.
From S2P Require Import Prelude GoStrings Policies Capabilities Config Fields Json Endpoints.

Local Open Scope Z_scope.
Local Open Scope go_scope.

(** ** Cursors *)

(** One member of an object. *)
Lemma read_member fuel cursor cursor' l l1 l2 l3 l4 l5 key value c :
  skip_space l = quotation :: l1 -> unquote l1 = Some (key, l2) ->
  skip_space l2 = ":"%char :: l3 -> read_value (skip_space l3) = Some (value, l4) ->
  set_field cursor key value = Some cursor' -> skip_space l4 = c :: l5 ->
  read_members (S fuel) cursor l =
    if Ascii.eqb c "," then read_members fuel cursor' l5
    else if Ascii.eqb c "}" then Some (cursor', l5) else None.
Proof.
  intros E1 E2 E3 E4 E5 E6. cbn [read_members]. rewrite E1.
  replace (Ascii.eqb quotation quotation) with true by reflexivity.
  rewrite E2. cbn [mbind option_bind]. rewrite E3. replace (Ascii.eqb ":" ":") with true by reflexivity.
  rewrite E4. cbn [mbind option_bind]. rewrite E5. cbn [mbind option_bind]. by rewrite E6.
Qed.

(** Reading the object that [encodeCursor] writes. *)
Lemma decode_object_encoded id :
  valid_from O (bytes id) = true ->
  decode_object (cursor_prefix ++ quote (bytes id) ++ ["}"%char]) = Some (mkListCursor 1 id, []).
Proof.
  intros Hv.
  pose proof (unquote_quote (bytes id) ["}"%char] Hv) as E. unfold quote.
  replace ((quotation :: quote_from O (bytes id) ++ [quotation]) ++ ["}"%char])
    with (quotation :: quote_from O (bytes id) ++ [quotation; "}"%char])
    by (cbn [app]; by rewrite <- app_assoc).
  generalize dependent (quote_from O (bytes id) ++ [quotation; "}"%char]). intros tail E.
  transitivity (read_members (length (tl (cursor_prefix ++ quotation :: tail)))
                  (mkListCursor 0 "") (tl (cursor_prefix ++ quotation :: tail))); [reflexivity|].
  replace (length _) with (S (S (length (drop 3 (cursor_prefix ++ quotation :: tail)))))
    by reflexivity.
  erewrite read_member; [|reflexivity..].
  replace (Ascii.eqb "," ",") with true by reflexivity.
  erewrite (read_member _ _ (mkListCursor 1 id) _ _ _ _ ["}"%char] [] _
              (CursorString (bytes id)) "}"%char);
    [|reflexivity|reflexivity|reflexivity| |unfold set_field; rewrite of_bytes_bytes; reflexivity|reflexivity]; cycle 1.
  { unfold read_value.
    match goal with |- context [skip_space ?l] =>
      let l' := eval lazy in (skip_space l) in change (skip_space l) with l' end.
    cbn [skip_space]. replace (Ascii.eqb "034" quotation) with true by reflexivity.
    rewrite E. reflexivity. }
  replace (Ascii.eqb "}" ",") with false by reflexivity.
  replace (Ascii.eqb "}" "}") with true by reflexivity. done.
Qed.

(** An endpoint ID that survives the trip through a cursor. *)
Definition cursor_safe (id : string) : Prop :=
  ValidString id = true /\ zlen (encodeCursor id) <= maxCursorBytes.

#[export] Instance cursor_safe_dec id : Decision (cursor_safe id).
Proof. unfold cursor_safe. apply _. Defined.

Lemma decodeCursor_encodeCursor id :
  cursor_safe id -> id <> ""%string -> zlen id <= 1024 ->
  decodeCursor (encodeCursor id) = inr id.
Proof.
  intros [Hv Hl] Hne Hid. unfold decodeCursor.
  rewrite (proj2 (Z.ltb_ge _ _)) by done. cbn [fail_if check_then].
  unfold encodeCursor. rewrite bytes_of_bytes, DecodeString_EncodeToString.
  rewrite decode_object_encoded by done. cbn [skip_space lc_Version lc_AfterID].
  rewrite (proj2 (String.eqb_neq _ _)) by done. by rewrite (proj2 (Z.ltb_ge _ _)).
Qed.

(** [decodeCursor] inverts [encodeCursor]: the cursor of every endpoint ID
    that is valid UTF-8, between one and 1024 bytes, and whose cursor fits the
    limit of 2048 bytes decodes to that ID, whatever characters JSON escapes
    in it. *)
Theorem cursor_roundtrip id :
  ValidString id = true -> id <> ""%string -> zlen id <= 1024 ->
  zlen (encodeCursor id) <= maxCursorBytes ->
  decodeCursor (encodeCursor id) = inr id.
Proof. intros. by apply decodeCursor_encodeCursor. Qed.

Lemma cursor_roundtrip_witness :
  let id := String "034" (String "010" "node<1>") in
  decodeCursor (encodeCursor id) = inr id.
Proof. apply cursor_roundtrip; vm_compute; [reflexivity|discriminate..]. Defined.

(** ** Binary search *)

Lemma search_spec fuel f i j k :
  (i <= k <= j)%nat -> (j - i <= fuel)%nat ->
  (forall x, (x < j)%nat -> f x = negb (x <? k)%nat) -> search fuel f i j = k.
Proof.
  revert i j. induction fuel as [|fuel IH]; intros i j Hk Hf Hx; cbn [search]; [lia|].
  destruct (Nat.ltb_spec i j); [|lia].
  assert (Hh : (i <= Nat.div (i + j) 2 < j)%nat).
  { split; [apply Nat.div_le_lower_bound|apply Nat.div_lt_upper_bound]; lia. }
  rewrite Hx by lia. rewrite negb_involutive.
  destruct (Nat.ltb_spec (Nat.div (i + j) 2) k); apply IH; try lia;
    intros x Hxj; apply Hx; lia.
Qed.

(** [sort.Search] finds the point at which a predicate turns true. *)
Lemma sort_Search_spec n f k :
  (k <= n)%nat -> (forall x, (x < n)%nat -> f x = negb (x <? k)%nat) -> sort_Search n f = k.
Proof. intros. apply search_spec; [lia..|done]. Qed.

(** ** Sorted inventories *)
Section Inventory.
Context `{NetURL}.

(** The registries that registrations and removals produce. *)
Inductive registered : Memory -> Prop :=
  | registered_none : registered ∅
  | registered_Register ctx_Err r e : registered r -> registered (Register ctx_Err r e).2
  | registered_Remove ctx_Err r id : registered r -> registered (Remove ctx_Err r id).2.

Lemma ValidateEndpoint_with_State e :
  ValidateEndpoint e = None -> ep_State e = ""%string ->
  ValidateEndpoint (with_State e StateUnknown) = None.
Proof. destruct e; simpl. by intros Hv ->. Qed.

(** Every stored endpoint is valid, has a state and is stored under its ID. *)
Lemma registered_valid r :
  registered r ->
  map_Forall (fun id e => ep_ID e = id /\ ValidateEndpoint e = None /\ ep_State e <> ""%string) r.
Proof.
  induction 1 as [|c r e Hr IH|c r id Hr IH].
  - apply map_Forall_empty.
  - unfold Register. destruct (first_error _) eqn:Hv; [done|].
    rewrite !first_error_cons in Hv. destruct Hv as (_ & Hv & _). case_match; simpl; [done|].
    apply map_Forall_insert_2; [|done].
    destruct (String.eqb_spec (ep_State e) "") as [Es|Es]; [|done].
    split; [done|]. split; [by apply ValidateEndpoint_with_State|by destruct e].
  - unfold Remove. destruct c; [done|]. by apply map_Forall_delete.
Qed.

Lemma registered_ID_bounds r id e :
  registered r -> r !! id = Some e -> ep_ID e <> ""%string /\ zlen (ep_ID e) <= 1024.
Proof.
  intros Hr He. destruct (registered_valid r Hr id e He) as (_ & Hv & _).
  unfold ValidateEndpoint in Hv. rewrite first_error_cons in Hv. destruct Hv as [Hv _].
  unfold validateEndpoint, bounded_strings in Hv.
  rewrite !first_error_cons, !fail_if_None, check_all_None, !Forall_cons in Hv.
  destruct Hv as (Hn & _ & ((Hl & _) & _)). apply String.eqb_neq in Hn.
  rewrite fail_if_None in Hl. apply Z.ltb_ge in Hl. done.
Qed.
End Inventory.

(** ** Pages *)
Definition strictly_before (x y : Endpoint) : Prop := by_ID x y = true.

Lemma ltb_total x y : String.ltb y x = false -> x <> y -> String.ltb x y = true.
Proof.
  unfold String.ltb. rewrite (String.compare_antisym y x). intros H1 H2.
  destruct (String.compare x y) eqn:E; [|done|done].
  by apply String.compare_eq_iff in E.
Qed.

Lemma sorted_strictly l :
  NoDup (ep_ID <$> l) -> sorted_by by_ID l -> StronglySorted strictly_before l.
Proof.
  intros Hn Hs. induction Hs as [|x l Hl IH Hx]; [constructor|].
  rewrite fmap_cons, NoDup_cons in Hn. destruct Hn as [Hx' Hn]. constructor; [by apply IH|].
  apply Forall_forall. intros y Hy. rewrite Forall_forall in Hx. unfold strictly_before, by_ID.
  apply ltb_total; [by apply Hx|]. intros E. apply Hx'. rewrite E.
  by apply (list_elem_of_fmap_2 ep_ID).
Qed.

(** The endpoints of a registry that pass a test, by ID. *)
Definition inventory (P : Endpoint -> bool) (r : Memory) : list Endpoint :=
  stable_sort by_ID (List.filter P (map_to_list r).*2).

Definition keyed (r : Memory) : Prop := map_Forall (fun id e => ep_ID e = id) r.

Lemma elem_of_inventory P r e :
  e ∈ inventory P r <-> P e = true /\ exists id, r !! id = Some e.
Proof.
  unfold inventory. rewrite stable_sort_Permutation, list_elem_of_In, filter_In.
  rewrite <- list_elem_of_In, list_elem_of_fmap. split.
  - intros [([id e'] & -> & Hm%elem_of_map_to_list) Hp]. eauto.
  - intros [Hp [id He]]. split; [|done]. exists (id, e). split; [done|].
    by apply elem_of_map_to_list.
Qed.

Lemma keyed_IDs r : keyed r -> (ep_ID <$> (map_to_list r).*2) = (map_to_list r).*1.
Proof.
  intros Hk. rewrite <- list_fmap_compose. apply list_fmap_ext. intros i [id e] Hi. simpl.
  apply Hk, elem_of_map_to_list. by eapply list_elem_of_lookup_2.
Qed.

Lemma inventory_sorted P r : keyed r -> StronglySorted strictly_before (inventory P r).
Proof.
  intros Hk. apply sorted_strictly; [|apply stable_sort_sorted; apply _].
  unfold inventory. rewrite stable_sort_Permutation.
  assert (Hn : NoDup (ep_ID <$> (map_to_list r).*2))
    by (rewrite keyed_IDs by done; apply NoDup_fst_map_to_list).
  revert Hn. induction ((map_to_list r).*2) as [|x l IH]; [done|].
  rewrite fmap_cons, NoDup_cons. intros [Hx Hn]. simpl. destruct (P x); [|by apply IH].
  rewrite fmap_cons, NoDup_cons. split; [|by apply IH]. contradict Hx.
  apply list_elem_of_fmap in Hx as (y & E & Hy). rewrite E. apply list_elem_of_fmap_2.
  apply list_elem_of_In, filter_In in Hy as [Hy _]. by apply list_elem_of_In.
Qed.

Lemma ltb_irrefl s : String.ltb s s = false.
Proof. destruct (String.ltb s s) eqn:E; [|done]. pose proof (less_asym s s E). congruence. Qed.

(** In a sorted list the elements after the k-th are those above its ID. *)
Lemma search_after l k e :
  StronglySorted strictly_before l -> l !! k = Some e ->
  sort_Search (length l) (fun i => match l !! i with
                                   | Some x => String.ltb (ep_ID e) (ep_ID x)
                                   | None => false
                                   end) = S k.
Proof.
  intros Hs He. pose proof (lookup_lt_Some _ _ _ He).
  apply sort_Search_spec; [lia|]. intros i Hi.
  destruct (lookup_lt_is_Some_2 l i Hi) as [x Hx]. rewrite Hx.
  destruct (Nat.ltb_spec i (S k)) as [Hik|Hik]; simpl.
  - destruct (decide (i = k)) as [->|]; [simplify_eq; apply ltb_irrefl|].
    apply less_asym. eapply (StronglySorted_lookup _ _ i k _ _ Hs); eauto. lia.
  - eapply (StronglySorted_lookup _ _ k i _ _ Hs); eauto.
Qed.

(** A client that follows [NextCursor] to the last page. *)
Fixpoint list_all (fuel : nat) (r : Memory) (query : Query) : option (list Endpoint) :=
  match fuel with
  | O => None
  | S fuel =>
      match List None r query with
      | inl _ => None
      | inr page =>
          if String.eqb (page_NextCursor page) "" then Some (page_Endpoints page)
          else
            rest ← list_all fuel r (with_Cursor query (page_NextCursor page));
            Some (page_Endpoints page ++ rest)
      end
  end.

(** The bounds of [validateQuery], its cursor aside. *)
Record query_ok (query : Query) : Prop := {
  qo_target : zlen (q_Target query) <= 1024;
  qo_controller : zlen (q_Controller query) <= 1024;
  qo_state : q_State query = ""%string \/ validateState (q_State query) = None;
  qo_limit : 0 <= q_Limit query <= MaxPageSize;
}.

Definition page_size (query : Query) : Z :=
  if q_Limit query =? 0 then DefaultPageSize else q_Limit query.

Lemma page_size_bounds query : query_ok query -> 1 <= page_size query <= MaxPageSize.
Proof.
  intros [_ _ _ Hl]. unfold page_size, DefaultPageSize, MaxPageSize in *.
  destruct (Z.eqb_spec (q_Limit query) 0); lia.
Qed.

Lemma validateQuery_ok query :
  query_ok query ->
  validateQuery query =
    let query' := if q_Limit query =? 0 then with_Limit query DefaultPageSize else query in
    if String.eqb (q_Cursor query) "" then inr (query', ""%string)
    else match decodeCursor (q_Cursor query) with
         | inl err => inl err
         | inr afterID => inr (query', afterID)
         end.
Proof.
  intros [H1 H2 H3 H4]. unfold validateQuery, check_all. cbn [fmap list_fmap].
  rewrite !(proj2 (Z.ltb_ge _ _)) by lia. cbn [fail_if first_error check_then].
  rewrite andb_false_r.
  assert (Es : (if String.eqb (q_State query) "" then None else validateState (q_State query)) = None).
  { destruct H3 as [->|Hv]; [done|]. by case_match. }
  rewrite Es. cbn [check_then fail_if].
  destruct (q_Limit query =? 0); [destruct query; reflexivity|done].
Qed.

Lemma selected_limit query limit : selected (with_Limit query limit) = selected query.
Proof. done. Qed.

(** The query continues after the first [k] endpoints of the inventory. *)
Definition continues (query : Query) (l : list Endpoint) (k : nat) : Prop :=
  (k = O /\ q_Cursor query = ""%string) \/
  exists j e, k = S j /\ l !! j = Some e /\ ep_ID e <> ""%string /\
    decodeCursor (q_Cursor query) = inr (ep_ID e).

(** One page. *)
Lemma List_page r query k :
  keyed r -> query_ok query ->
  let l := inventory (selected query) r in
  continues query l k ->
  List None r query =
    inr (if page_size query <? Z.of_nat (length (drop k l)) then
           let page := take (Z.to_nat (page_size query)) (drop k l) in
           mkPage page (default ""%string (encodeCursor ∘ ep_ID <$> last page))
         else mkPage (drop k l) "").
Proof.
  intros Hk Hq l Hc. unfold List. cbn [check_then].
  rewrite validateQuery_ok by done. cbn zeta.
  set (query' := if q_Limit query =? 0 then _ else _).
  assert (El : q_Limit query' = page_size query).
  { unfold query', page_size. by destruct (q_Limit query =? 0). }
  assert (Es : selected query' = selected query).
  { unfold query'. by destruct (q_Limit query =? 0). }
  destruct Hc as [[-> Hcur]|(j & e & -> & He & Hne & Hd)].
  - rewrite Hcur. cbn [String.eqb]. rewrite Es, El. fold (inventory (selected query) r). fold l.
    rewrite drop_0. by case_match.
  - destruct (String.eqb_spec (q_Cursor query) "") as [Ec|Ec]; [by rewrite Ec in Hd|].
    rewrite Hd, Es, El. fold (inventory (selected query) r). fold l.
    rewrite (proj2 (String.eqb_neq _ _)) by done.
    rewrite (search_after l j e) by (try done; by apply inventory_sorted).
    by case_match.
Qed.

Lemma list_all_from r query fuel k :
  keyed r -> query_ok query ->
  (forall id e, r !! id = Some e -> ep_ID e <> ""%string /\ zlen (ep_ID e) <= 1024 /\ cursor_safe (ep_ID e)) ->
  let l := inventory (selected query) r in
  continues query l k -> (length (drop k l) < fuel)%nat ->
  list_all fuel r query = Some (drop k l).
Proof.
  intros Hk Hq Hs l. revert query Hq k l. induction fuel as [|fuel IH]; intros query Hq k l Hc Hf; [lia|].
  cbn [list_all]. rewrite (List_page r query k) by done.
  pose proof (page_size_bounds query Hq) as Hp. fold l.
  destruct (Z.ltb_spec (page_size query) (Z.of_nat (length (drop k l)))) as [Hlt|Hge]; [|done].
  set (n := Z.to_nat (page_size query)). cbn zeta. cbn [page_NextCursor page_Endpoints].
  assert (Hn : (1 <= n < length (drop k l))%nat) by lia.
  rewrite length_drop in Hn.
  destruct (lookup_lt_is_Some_2 l (k + (n - 1))) as [e He]; [lia|].
  assert (El : last (take n (drop k l)) = Some e).
  { rewrite last_lookup, length_take, length_drop.
    rewrite lookup_take_lt by lia. rewrite lookup_drop.
    by replace (k + Nat.pred (n `min` (length l - k)))%nat with (k + (n - 1))%nat by lia. }
  rewrite El. cbn [fmap option_fmap option_map default from_option compose Datatypes.id].
  assert (Hin : e ∈ l) by (by eapply list_elem_of_lookup_2).
  apply elem_of_inventory in Hin as [_ [id Hid]]. destruct (Hs id e Hid) as (Hne & Hlen & Hsafe).
  pose proof (decodeCursor_encodeCursor _ Hsafe Hne Hlen) as Hd.
  rewrite (proj2 (String.eqb_neq (encodeCursor (ep_ID e)) "")) by (intros E0; by rewrite E0 in Hd).
  assert (Hq' : query_ok (with_Cursor query (encodeCursor (ep_ID e)))) by (by destruct Hq).
  rewrite (IH _ Hq' (k + n)%nat); [|right|].
  - cbn [mbind option_bind]. f_equal. change (inventory _ r) with l. rewrite <- drop_drop.
    apply take_drop.
  - exists (k + (n - 1))%nat, e. split_and!; [lia|done..].
  - change (inventory _ r) with l. rewrite length_drop in Hf |- *. lia.
Qed.

Section Listing.
Context `{NetURL}.

Lemma registered_keyed r : registered r -> keyed r.
Proof. intros Hr id e He. by destruct (registered_valid r Hr id e He). Qed.

(** C32: Following the cursors of [Memory.List] from the first page visits every
    endpoint that the query selects exactly once, in the order of their IDs,
    and ends: for every page size, over any registry that registrations and
    removals produce and whose endpoint IDs survive a cursor. *)
Theorem pagination_complete r query :
  registered r -> query_ok query -> q_Cursor query = ""%string ->
  map_Forall (fun id _ => cursor_safe id) r ->
  exists l, list_all (S (size r)) r query = Some l /\
    StronglySorted strictly_before l /\
    forall e, e ∈ l <-> selected query e = true /\ exists id, r !! id = Some e.
Proof.
  intros Hr Hq Hc Hs. exists (inventory (selected query) r).
  pose proof (registered_keyed r Hr) as Hk. split_and!.
  - rewrite <- (drop_0 (inventory _ r)). apply list_all_from; [done..| |by left|].
    + intros id e He. destruct (registered_ID_bounds r id e Hr He). split_and!; try done.
      rewrite (Hk id e He). by apply (Hs id e).
    + rewrite drop_0. unfold inventory. rewrite stable_sort_Permutation.
      rewrite <- length_map_to_list. apply Nat.lt_succ_r.
      etransitivity; [apply List.filter_length_le|]. by rewrite length_fmap.
  - by apply inventory_sorted.
  - intros e. apply elem_of_inventory.
Qed.

(** [Memory.Ready] returns exactly the ready endpoints of the target that have
    not expired, by ID. *)
Lemma Ready_exact r now target :
  registered r ->
  exists l, Ready None r now target = inr l /\ StronglySorted strictly_before l /\
    forall e, e ∈ l <-> (exists id, r !! id = Some e) /\ ep_Target e = target /\
      ep_State e = StateReady /\ (ep_ExpiresAt e = 0 \/ now < ep_ExpiresAt e).
Proof.
  intros Hr. exists (inventory (live now target) r). split; [reflexivity|]. split; [by apply inventory_sorted, registered_keyed|].
  intros e. rewrite elem_of_inventory. unfold live, expired, time_IsZero, time_Before.
  rewrite !andb_true_iff, !negb_true_iff, orb_false_iff, !negb_false_iff, andb_false_iff.
  rewrite !negb_false_iff, !String.eqb_eq, Z.eqb_eq, Z.ltb_lt. naive_solver.
Qed.

(** ** Fencing *)
Inductive registry_op := OpRegister (e : Endpoint) | OpRemove (id : string).

Definition apply_op (r : Memory) (op : registry_op) : Memory :=
  match op with
  | OpRegister e => (Register None r e).2
  | OpRemove id => (Remove None r id).2
  end.

(** A registration is fenced: whatever registrations controllers make in
    whatever order, the fencing token stored under an endpoint ID never
    decreases until the ID is removed, so the owner of an older activation
    cannot replace the endpoint of a newer one. *)
Theorem registration_fenced r ops id e :
  r !! id = Some e -> OpRemove id ∉ ops ->
  exists e', foldl apply_op r ops !! id = Some e' /\ ep_FencingToken e <= ep_FencingToken e'.
Proof.
  revert r e. induction ops as [|op ops IH]; intros r e He Hn; [by exists e|].
  apply not_elem_of_cons in Hn as [Hop Hn]. cbn [foldl].
  assert (Hs : exists e1, apply_op r op !! id = Some e1 /\ ep_FencingToken e <= ep_FencingToken e1).
  { destruct op as [x|x]; simpl.
    - unfold Register. case_match; [by exists e|].
      set (x' := if String.eqb (ep_State x) "" then _ else _).
      destruct (decide (ep_ID x' = id)) as [<-|Hid].
      + rewrite He. destruct (Z.ltb_spec (ep_FencingToken x') (ep_FencingToken e)); [by exists e|].
        exists x'. split; [apply lookup_insert_eq|done].
      + exists e. case_match; simpl; [done|]. by rewrite lookup_insert_ne.
    - exists e. rewrite lookup_delete_ne by congruence. done. }
  destruct Hs as (e1 & He1 & Hle). destruct (IH _ e1 He1 Hn) as (e2 & He2 & Hle2).
  exists e2. split; [done|lia].
Qed.
End Listing.

(** ** Concrete registries *)
Section Examples.

(** A [url.Parse] for the base URLs of the examples. *)
Local Instance example_url : NetURL := fun s =>
  if String.eqb s "http://node" then Some (mkURL "http" "node" false "" "") else None.

Definition example_endpoint (id : string) (token : Z) : Endpoint :=
  mkEndpoint id "chat" "http://node" "openai" [] "sparkrun" "" "" "r1" "" token StateReady 0 0 0 0 0 ∅.

Definition register_all (l : list Endpoint) : Memory :=
  foldl (fun r e => (Register None r e).2) ∅ l.

Lemma register_all_registered l : registered (register_all l).
Proof.
  unfold register_all. generalize registered_none. generalize (∅ : Memory).
  induction l as [|e l IH]; intros r Hr; [done|]. simpl. apply IH. by constructor.
Qed.

Definition three : Memory :=
  register_all [example_endpoint "b" 1; example_endpoint "a" 2; example_endpoint "c\d" 3].

Lemma pagination_complete_witness :
  exists l, list_all (S (size three)) three (mkQuery "chat" "" "" 1 "") = Some l /\
    StronglySorted strictly_before l /\
    forall e, e ∈ l <-> selected (mkQuery "chat" "" "" 1 "") e = true /\
      exists id, three !! id = Some e.
Proof.
  apply pagination_complete.
  - apply register_all_registered.
  - split; [vm_compute; discriminate..|by left|vm_compute; split; discriminate].
  - reflexivity.
  - apply (bool_decide_unpack _). vm_compute. exact I.
Defined.

Lemma registration_fenced_witness :
  exists e', foldl apply_op three [OpRegister (example_endpoint "a" 1); OpRemove "b"] !! "a" = Some e' /\
    2 <= ep_FencingToken e'.
Proof.
  apply (registration_fenced three _ "a" (example_endpoint "a" 2)).
  - vm_compute. reflexivity.
  - intros [?|[?|?%elem_of_nil]%elem_of_cons]%elem_of_cons; done.
Defined.

(** An ID of JSON escapes is accepted, and [List] hands out a cursor for it that
    [List] then refuses. *)
Definition long_id : string := of_bytes (repeat quotation 1000).
Definition escaped : Memory :=
  register_all [example_endpoint long_id 1; example_endpoint "z" 1].

Lemma cursor_refused :
  exists page, List None escaped (mkQuery "" "" "" 1 "") = inr page /\
    page_NextCursor page <> ""%string /\
    List None escaped (mkQuery "" "" "" 1 (page_NextCursor page)) =
      inl "invalid endpoint cursor: cursor is too large"%string.
Proof. eexists. split; [vm_compute; reflexivity|]. split; [discriminate|vm_compute; reflexivity]. Qed.

(** An ID that is not UTF-8 is accepted, and the cursor after it leads back to
    it: following the cursors never ends. *)
Definition byte_id (n : nat) : string := of_bytes (repeat "255"%char n).
Definition not_utf8 : Memory :=
  register_all [example_endpoint (byte_id 1) 1; example_endpoint (byte_id 2) 1].

Definition stuck_cursor : string := "eyJ2IjoxLCJhZnRlcl9pZCI6Ilx1ZmZmZCJ9".

Lemma stuck_page cursor :
  cursor = ""%string \/ cursor = stuck_cursor ->
  List None not_utf8 (mkQuery "" "" "" 1 cursor) =
    inr (mkPage [example_endpoint (byte_id 1) 1] stuck_cursor).
Proof. intros [->| ->]; vm_compute; reflexivity. Qed.

Lemma pagination_stuck fuel : list_all fuel not_utf8 (mkQuery "" "" "" 1 "") = None.
Proof.
  enough (Hc : forall cursor, cursor = ""%string \/ cursor = stuck_cursor ->
            list_all fuel not_utf8 (mkQuery "" "" "" 1 cursor) = None) by (apply Hc; by left).
  induction fuel as [|fuel IH]; intros cursor Hc; [done|]. cbn [list_all].
  rewrite (stuck_page cursor Hc). cbn [page_NextCursor page_Endpoints].
  replace (String.eqb stuck_cursor "") with false by reflexivity.
  change (with_Cursor _ stuck_cursor) with (mkQuery "" "" "" 1 stuck_cursor).
  rewrite IH by (by right). done.
Qed.
End Examples.
