(* ===== verification/Lifecycle.v ===== *)
(** * Lifecycle contracts ([pkg/lifecycle/lifecycle.go], [pkg/lifecycle/config.go])

    Activation bindings and claims, the single-process activation coordinator,
    and the lifecycle targets of a configuration document.  Every method of
    [MemoryActivationCoordinator] is one critical section; its clock reading is
    the [now] argument and [ctx.Err()] the [ctx_Err] argument. *)

From stdpp Require Import base gmap list strings pretty.
From Stdlib Require Import Ascii ZArith Lia.
From S2P Require Import Prelude GoStrings Policies Capabilities Privacy Config Fields Settings.
From S2P Require Import Profiles Validate Endpoints.

Local Open Scope Z_scope.
Local Open Scope go_scope.

(** ** Bindings *)
Record Binding := mkBinding {
  b_Recovery : RecoveryPolicy;
  b_IdleAction : string;
  b_Controller : string;
  b_Revision : string;
  b_VirtualModel : string;
  b_Deployment : string;
  b_Recipe : string;
  b_RecipeRevision : string;
  b_ClusterCandidates : list string;
  b_Overrides : gmap string string;
  b_ActivationTimeout : Z;
  b_IdleTTL : Z;
  b_MaxQueuedWaiters : Z;
  b_MaxQueuedBodyBytes : Z;
  b_ColdStart : string;
  b_FencingToken : Z;
}.

Definition set_Controller (v : string) (b : Binding) : Binding :=
  let '(mkBinding re ia _ rv vm de rc rr cc ov at' it mw mb cs ft) := b in
  mkBinding re ia v rv vm de rc rr cc ov at' it mw mb cs ft.
Definition set_Deployment (v : string) (b : Binding) : Binding :=
  let '(mkBinding re ia co rv vm _ rc rr cc ov at' it mw mb cs ft) := b in
  mkBinding re ia co rv vm v rc rr cc ov at' it mw mb cs ft.
Definition set_ColdStart (v : string) (b : Binding) : Binding :=
  let '(mkBinding re ia co rv vm de rc rr cc ov at' it mw mb _ ft) := b in
  mkBinding re ia co rv vm de rc rr cc ov at' it mw mb v ft.
Definition set_FencingToken (v : Z) (b : Binding) : Binding :=
  let '(mkBinding re ia co rv vm de rc rr cc ov at' it mw mb cs _) := b in
  mkBinding re ia co rv vm de rc rr cc ov at' it mw mb cs v.

(** The zero value of a binding. *)
Definition no_binding : Binding :=
  mkBinding (mkRecoveryPolicy "" 0 0 0 0 0 0) "" "" "" "" "" "" "" [] ∅ 0 0 0 0 "" 0.

(** [strconv.Itoa] of a length. *)
Definition Itoa (n : nat) : string := pretty (N.of_nat n).

Definition ActivationKey (b : Binding) : string :=
  Itoa (len (b_Controller b)) +:+ ":" +:+ b_Controller b +:+ b_Revision b.

Record RequestFeatures := mkRequestFeatures {
  rq_PreparedOnly : bool;
  rq_ManualStart : bool;
  rq_VirtualModel : string;
  rq_Protocol : string;
  rq_Streaming : bool;
}.

Definition set_PreparedOnly (v : bool) (f : RequestFeatures) : RequestFeatures :=
  mkRequestFeatures v (rq_ManualStart f) (rq_VirtualModel f) (rq_Protocol f) (rq_Streaming f).

Record Lease := mkLease { l_ID : string; l_Endpoint : Endpoint }.

(** ** Activation claims *)
Inductive ActivationDisposition := ActivationOwner | ActivationObserver.

Definition is_owner (d : ActivationDisposition) : bool :=
  match d with ActivationOwner => true | ActivationObserver => false end.

Record ActivationClaim := mkActivationClaim {
  ac_Key : string;
  ac_Holder : string;
  ac_FencingToken : Z;
  ac_Disposition : ActivationDisposition;
  ac_ExpiresAt : Z;
}.

Definition set_Disposition (v : ActivationDisposition) (c : ActivationClaim) : ActivationClaim :=
  mkActivationClaim (ac_Key c) (ac_Holder c) (ac_FencingToken c) v (ac_ExpiresAt c).
Definition set_ExpiresAt (v : Z) (c : ActivationClaim) : ActivationClaim :=
  mkActivationClaim (ac_Key c) (ac_Holder c) (ac_FencingToken c) (ac_Disposition c) v.

Inductive ClaimError :=
  | ErrContext (err : string)
  | ErrInvalidActivationClaim
  | ErrActivationClaimLost.

Record MemoryActivationCoordinator := mkMemoryActivationCoordinator {
  mac_claims : gmap string ActivationClaim;
  mac_next : Z;
}.

Definition NewMemoryActivationCoordinator : MemoryActivationCoordinator :=
  mkMemoryActivationCoordinator ∅ 0.

(** [claim.ExpiresAt.After(now)] *)
Definition unexpired (now : Z) (c : ActivationClaim) : bool := time_Before now (ac_ExpiresAt c).

(** [MemoryActivationCoordinator.Begin] *)
Definition Begin (ctx_Err : option string) (c : MemoryActivationCoordinator) (now : Z)
    (key holder : string) (ttl : Z) : (ClaimError + ActivationClaim) * MemoryActivationCoordinator :=
  match ctx_Err with
  | Some err => (inl (ErrContext err), c)
  | None =>
      if String.eqb key "" || String.eqb holder "" || (ttl <=? 0) then
        (inl ErrInvalidActivationClaim, c)
      else
        match mac_claims c !! key with
        | Some existing =>
            if unexpired now existing then
              if String.eqb (ac_Holder existing) holder
              then (inr (set_Disposition ActivationOwner existing), c)
              else (inr (set_Disposition ActivationObserver existing), c)
            else
              let next := int64 (mac_next c + 1) in
              let claim := mkActivationClaim key holder next ActivationOwner (time_Add now ttl) in
              (inr claim, mkMemoryActivationCoordinator (<[key := claim]> (mac_claims c)) next)
        | None =>
            let next := int64 (mac_next c + 1) in
            let claim := mkActivationClaim key holder next ActivationOwner (time_Add now ttl) in
            (inr claim, mkMemoryActivationCoordinator (<[key := claim]> (mac_claims c)) next)
        end
  end.

Definition sameActivationOwner (left right : ActivationClaim) : bool :=
  String.eqb (ac_Key left) (ac_Key right) && String.eqb (ac_Holder left) (ac_Holder right) &&
  (ac_FencingToken left =? ac_FencingToken right) && is_owner (ac_Disposition right).

(** [MemoryActivationCoordinator.Renew] *)
Definition Renew (ctx_Err : option string) (c : MemoryActivationCoordinator) (now : Z)
    (claim : ActivationClaim) (ttl : Z)
  : (ClaimError + ActivationClaim) * MemoryActivationCoordinator :=
  match ctx_Err with
  | Some err => (inl (ErrContext err), c)
  | None =>
      if ttl <=? 0 then (inl ErrInvalidActivationClaim, c)
      else
        match mac_claims c !! ac_Key claim with
        | None => (inl ErrActivationClaimLost, c)
        | Some current =>
            if negb (sameActivationOwner current claim) || negb (unexpired now current) then
              (inl ErrActivationClaimLost, c)
            else
              let current := set_ExpiresAt (time_Add now ttl) current in
              let current := set_Disposition ActivationOwner current in
              (inr current, mkMemoryActivationCoordinator
                              (<[ac_Key claim := current]> (mac_claims c)) (mac_next c))
        end
  end.

(** [MemoryActivationCoordinator.Complete] *)
Definition Complete (ctx_Err : option string) (c : MemoryActivationCoordinator) (now : Z)
    (claim : ActivationClaim) : option ClaimError * MemoryActivationCoordinator :=
  match ctx_Err with
  | Some err => (Some (ErrContext err), c)
  | None =>
      match mac_claims c !! ac_Key claim with
      | None => (Some ErrActivationClaimLost, c)
      | Some current =>
          if negb (sameActivationOwner current claim) || negb (unexpired now current) then
            (Some ErrActivationClaimLost, c)
          else (None, mkMemoryActivationCoordinator (delete (ac_Key claim) (mac_claims c)) (mac_next c))
      end
  end.

(** ** Targets *)
Definition EndpointStatic : string := "static".
Definition EndpointDiscovered : string := "discovered".
Definition EndpointActivatable : string := "activatable".

Record Target := mkTarget {
  tg_DiscoveryJobIDs : list string;
  tg_Deployment : string;
  tg_UpstreamModel : string;
  tg_LogicalModels : list string;
  tg_Protocol : string;
  tg_Source : string;
  tg_Controller : string;
  tg_Binding : Binding;
}.

Definition set_tg_Source (v : string) (t : Target) : Target :=
  mkTarget (tg_DiscoveryJobIDs t) (tg_Deployment t) (tg_UpstreamModel t) (tg_LogicalModels t)
    (tg_Protocol t) v (tg_Controller t) (tg_Binding t).
Definition set_tg_Controller (v : string) (t : Target) : Target :=
  mkTarget (tg_DiscoveryJobIDs t) (tg_Deployment t) (tg_UpstreamModel t) (tg_LogicalModels t)
    (tg_Protocol t) (tg_Source t) v (tg_Binding t).
Definition set_tg_Binding (v : Binding) (t : Target) : Target :=
  mkTarget (tg_DiscoveryJobIDs t) (tg_Deployment t) (tg_UpstreamModel t) (tg_LogicalModels t)
    (tg_Protocol t) (tg_Source t) (tg_Controller t) v.

Definition providerProtocol (d : Document) (providerName : string) : string :=
  match List.find (fun p => String.eqb (prov_Name p) providerName) (doc_Providers d) with
  | None => ""
  | Some provider =>
      let protocol := ProtocolForProviderType (prov_Type provider) in
      if negb (String.eqb protocol "") then protocol else prov_Type provider
  end.

(** [modelsByDeployment]: the names of the models that target a deployment,
    once per target, in document order. *)
Definition modelsByDeployment (d : Document) (deployment : string) : list string :=
  model ← doc_VirtualModels d;
  pool ← vm_Pools model;
  weighted ← pool_Targets pool;
  if String.eqb (wt_Deployment weighted) deployment then [vm_Name model] else [].

(** [slices.Compact] *)
Fixpoint Compact (l : list string) : list string :=
  match l with
  | [] => []
  | x :: l' => match l' with
               | [] => [x]
               | y :: _ => if String.eqb x y then Compact l' else x :: Compact l'
               end
  end.

Definition source_binding (d : Document) (deployment : Deployment) : Binding :=
  let source := dep_EndpointSource deployment in
  let virtualModels := sort_Strings (modelsByDeployment d (dep_Name deployment)) in
  let virtualModel := match virtualModels with [m] => m | _ => ""%string end in
  {| b_Recovery := RecoveryPolicy_Effective (es_Recovery source);
     b_IdleAction := es_IdleAction source;
     b_Controller := es_Controller source;
     b_Revision := es_Revision source;
     b_VirtualModel := virtualModel;
     b_Deployment := dep_Name deployment;
     b_Recipe := es_Recipe source;
     b_RecipeRevision := es_RecipeRevision source;
     b_ClusterCandidates := es_ClusterCandidates source;
     b_Overrides := es_Overrides source;
     b_ActivationTimeout := EffectiveActivationTimeout source;
     b_IdleTTL := es_IdleTTL source;
     b_MaxQueuedWaiters := EffectiveMaxQueuedWaiters source;
     b_MaxQueuedBodyBytes := EffectiveMaxQueuedBodyBytes source;
     b_ColdStart := ColdStartPolicy_Effective (es_ColdStart source);
     b_FencingToken := 0 |}.

(** One turn of the loop over the deployments. *)
Definition target_of (d : Document) (targets : list Target) (deployment : Deployment)
  : string + list Target :=
  let source := dep_EndpointSource deployment in
  let sourceType := EndpointSourceType_Effective (es_Type source) in
  if String.eqb sourceType EndpointSourceStatic then inr targets
  else
    let target :=
      {| tg_DiscoveryJobIDs := dep_DiscoveryJobIDs deployment;
         tg_Deployment := dep_Name deployment;
         tg_UpstreamModel := dep_Model deployment;
         tg_LogicalModels := Compact (sort_Strings (modelsByDeployment d (dep_Name deployment)));
         tg_Protocol := providerProtocol d (dep_Provider deployment);
         tg_Source := "";
         tg_Controller := es_Controller source;
         tg_Binding := no_binding |} in
    if String.eqb sourceType EndpointSourceDiscovered then
      inr (targets ++ [set_tg_Source EndpointDiscovered target])
    else if String.eqb sourceType EndpointSourceActivatable then
      inr (targets ++ [set_tg_Binding (source_binding d deployment)
                         (set_tg_Source EndpointActivatable target)])
    else inl "deployment %q has unsupported endpoint source %q"%string.

Section Documents.
Context `{UnicodeTables} `{EncodingJSON} `{NetURL}.

Definition TargetsFromDocument (d : Document) : string + list Target :=
  match ResolveRequestProfiles d with
  | inl err => inl err
  | inr d =>
      wrap "validate lifecycle configuration: " (Validate d) ?;
      match scan (target_of d) [] (doc_Deployments d) with
      | inl err => inl err
      | inr targets =>
          inr (stable_sort (fun x y => String.ltb (tg_Deployment x) (tg_Deployment y)) targets)
      end
  end.
End Documents.
