(* ===== verification/Activation.v ===== *)
(** * Activation ownership

    Activation keys identify a controller and a revision, and the claims of a
    [MemoryActivationCoordinator] are fenced: whatever holders call its methods
    in whatever order and with whatever clock readings, fencing tokens only
    grow and only the newest grant of a key can be renewed or completed. *)

From stdpp Require Import base gmap list strings sorting pretty.
From Stdlib Require Import Ascii ZArith Lia.
From S2P Require Import Prelude GoStrings Policies Capabilities Config Endpoints EndpointTheorems.
From S2P Require Import Lifecycle.

Local Open Scope Z_scope.

(** ** Keys *)
Definition colon : ascii := ":".

Fixpoint free_of (c : ascii) (s : string) : bool :=
  match s with
  | EmptyString => true
  | String x s => negb (Ascii.eqb x c) && free_of c s
  end.

Lemma pretty_N_char_not_colon x : Ascii.eqb (pretty_N_char x) colon = false.
Proof. unfold pretty_N_char. by repeat case_match. Qed.

Lemma pretty_N_go_free x s : free_of colon s = true -> free_of colon (pretty_N_go x s) = true.
Proof.
  revert s. induction (N.lt_wf_0 x) as [x _ IH]. intros s Hs.
  destruct (decide (x = 0)%N) as [->|Hx]; [by rewrite pretty_N_go_0|].
  rewrite pretty_N_go_step by lia. apply IH; [apply N.div_lt; lia|].
  simpl. by rewrite pretty_N_char_not_colon.
Qed.

Lemma Itoa_free n : free_of colon (Itoa n) = true.
Proof.
  unfold Itoa, pretty, pretty_N. case_decide; [done|]. by apply pretty_N_go_free.
Qed.

Lemma append_cons x a r : String x a +:+ r = String x (a +:+ r).
Proof. reflexivity. Qed.

Lemma append_nil r : "" +:+ r = r.
Proof. reflexivity. Qed.

Lemma split_at_colon a b r s :
  free_of colon a = true -> free_of colon b = true ->
  a +:+ ":" +:+ r = b +:+ ":" +:+ s -> a = b /\ r = s.
Proof.
  revert b. induction a as [|x a IH]; intros [|y b] Ha Hb E; rewrite ?append_cons, ?append_nil in E.
  - by injection E as ->.
  - injection E as <- _. done.
  - injection E as -> _. done.
  - injection E as -> E. apply andb_true_iff in Ha as [_ Ha]. apply andb_true_iff in Hb as [_ Hb].
    by destruct (IH b Ha Hb E) as [-> ->].
Qed.

Lemma append_inj_length a b r s : len a = len b -> a +:+ r = b +:+ s -> a = b /\ r = s.
Proof.
  revert b. induction a as [|x a IH]; intros [|y b] Hl E; try done.
  rewrite !append_cons in E. injection E as -> E. injection Hl as Hl. by destruct (IH b Hl E) as [-> ->].
Qed.

Lemma ActivationKey_split b1 b2 :
  ActivationKey b1 = ActivationKey b2 ->
  b_Controller b1 = b_Controller b2 /\ b_Revision b1 = b_Revision b2.
Proof.
  intros E. apply split_at_colon in E as [E1 E2]; [|apply Itoa_free..].
  apply append_inj_length; [|done]. unfold Itoa in E1. apply (inj pretty) in E1. lia.
Qed.

(** [ActivationKey] identifies the controller and the revision of a
    binding: bindings share a key exactly when they share both, because the
    length of the controller is written before it. *)
Theorem activation_key_injective b1 b2 :
  ActivationKey b1 = ActivationKey b2 <->
  b_Controller b1 = b_Controller b2 /\ b_Revision b1 = b_Revision b2.
Proof.
  split; [apply ActivationKey_split|]. intros [E1 E2]. unfold ActivationKey. by rewrite E1, E2.
Qed.

(** ** Claims *)

(** The coordinator and the owner claims that [Begin] has handed out, newest
    first. *)
Record claim_system := mkClaimSystem {
  cs_coordinator : MemoryActivationCoordinator;
  cs_granted : list ActivationClaim;
}.

Definition granted_of (r : ClaimError + ActivationClaim) : list ActivationClaim :=
  match r with
  | inr claim => if is_owner (ac_Disposition claim) then [claim] else []
  | inl _ => []
  end.

Inductive claim_step (s : claim_system) : claim_system -> Prop :=
  | step_Begin ctx_Err now key holder ttl r c :
      Begin ctx_Err (cs_coordinator s) now key holder ttl = (r, c) ->
      claim_step s (mkClaimSystem c (granted_of r ++ cs_granted s))
  | step_Renew ctx_Err now claim ttl r c :
      Renew ctx_Err (cs_coordinator s) now claim ttl = (r, c) ->
      claim_step s (mkClaimSystem c (cs_granted s))
  | step_Complete ctx_Err now claim r c :
      Complete ctx_Err (cs_coordinator s) now claim = (r, c) ->
      claim_step s (mkClaimSystem c (cs_granted s)).

(** [claim_reach n s]: [s] is reached by [n] calls. *)
Inductive claim_reach : nat -> claim_system -> Prop :=
  | claim_start : claim_reach 0 (mkClaimSystem NewMemoryActivationCoordinator [])
  | claim_next n s s' : claim_reach n s -> claim_step s s' -> claim_reach (S n) s'.

(** A newer claim of a key has a larger token, unless it is the same grant. *)
Definition fenced (newer older : ActivationClaim) : Prop :=
  (ac_Key newer = ac_Key older -> ac_FencingToken older <= ac_FencingToken newer) /\
  (ac_FencingToken newer = ac_FencingToken older ->
   ac_Key newer = ac_Key older /\ ac_Holder newer = ac_Holder older).

(** Whether two claims are of the same grant. *)
Definition same_grant (x y : ActivationClaim) : Prop :=
  ac_Key x = ac_Key y /\ ac_Holder x = ac_Holder y /\ ac_FencingToken x = ac_FencingToken y.

Record claims_ok (n : nat) (s : claim_system) : Prop := {
  co_next : 0 <= mac_next (cs_coordinator s) <= Z.of_nat n;
  co_range claim : claim ∈ cs_granted s ->
    1 <= ac_FencingToken claim <= mac_next (cs_coordinator s);
  co_sorted : StronglySorted fenced (cs_granted s);
  co_stored key claim : mac_claims (cs_coordinator s) !! key = Some claim ->
    ac_Key claim = key /\ is_owner (ac_Disposition claim) = true /\
    Forall (fenced claim) (cs_granted s) /\ Exists (same_grant claim) (cs_granted s);
}.

Lemma fenced_same x x' y y' : same_grant x x' -> same_grant y y' -> fenced x y -> fenced x' y'.
Proof. unfold same_grant, fenced. intros (-> & -> & ->) (-> & -> & ->). done. Qed.

Lemma fenced_refl x y : same_grant x y -> fenced x y.
Proof. unfold same_grant, fenced. intros (-> & -> & ->). split; [lia|done]. Qed.

Lemma same_grant_refl x : same_grant x x.
Proof. done. Qed.

Lemma same_grant_trans x y z : same_grant x y -> same_grant y z -> same_grant x z.
Proof. unfold same_grant. intros (-> & -> & ->). done. Qed.

Lemma same_grant_sym x y : same_grant x y -> same_grant y x.
Proof. unfold same_grant. by intros (-> & -> & ->). Qed.

#[local] Hint Resolve same_grant_refl same_grant_trans same_grant_sym fenced_refl : core.

(** A token above every token so far is fenced from all of them. *)
Lemma fenced_new claim next l :
  (forall c, c ∈ l -> 1 <= ac_FencingToken c <= next) -> ac_FencingToken claim = next + 1 ->
  Forall (fenced claim) l.
Proof.
  intros Hr Ht. apply Forall_forall. intros c Hc. specialize (Hr c Hc). unfold fenced. lia.
Qed.

(** A fresh grant. *)
Lemma claims_ok_grant n s key claim :
  claims_ok n s ->
  ac_Key claim = key -> is_owner (ac_Disposition claim) = true ->
  ac_FencingToken claim = mac_next (cs_coordinator s) + 1 ->
  claims_ok (S n) (mkClaimSystem
    (mkMemoryActivationCoordinator (<[key := claim]> (mac_claims (cs_coordinator s)))
       (mac_next (cs_coordinator s) + 1)) (claim :: cs_granted s)).
Proof.
  intros [H1 H2 H3 H4] Hk Ho Ht. split; cbn [cs_coordinator cs_granted mac_next mac_claims].
  - lia.
  - intros c [->|Hc]%elem_of_cons; [lia|]. specialize (H2 c Hc). lia.
  - constructor; [done|]. by apply (fenced_new claim _ _ H2).
  - intros k c Hc. destruct (decide (key = k)) as [<-|Hne].
    + rewrite lookup_insert_eq in Hc. injection Hc as <-. split_and!; [done..| |by left].
      constructor; [by apply fenced_refl|]. by apply (fenced_new claim _ _ H2).
    + rewrite lookup_insert_ne in Hc by done. destruct (H4 k c Hc) as (E1 & E2 & E3 & E4).
      split_and!; [done..| |by right]. constructor; [|done].
      apply Exists_exists in E4 as (g & Hg & _ & _ & Eg). specialize (H2 g Hg).
      unfold fenced. split; [congruence|lia].
Qed.

(** The entry of a key is replaced by a claim of the same grant, which [Begin]
    may hand out again. *)
Lemma claims_ok_update n s key claim claim' l :
  claims_ok n s -> mac_claims (cs_coordinator s) !! key = Some claim -> same_grant claim claim' ->
  is_owner (ac_Disposition claim') = true ->
  l = cs_granted s \/ (exists c, same_grant claim c /\ l = c :: cs_granted s) ->
  claims_ok (S n) (mkClaimSystem
    (mkMemoryActivationCoordinator (<[key := claim']> (mac_claims (cs_coordinator s)))
       (mac_next (cs_coordinator s))) l).
Proof.
  intros [H1 H2 H3 H4] Hc Hs Ho Hl. destruct (H4 key claim Hc) as (E1 & E2 & E3 & E4).
  assert (Hf : forall z, Forall (fenced z) (cs_granted s) -> Forall (fenced z) l).
  { intros z Hz. destruct Hl as [->|(c & Hc' & ->)]; [done|]. constructor; [|done].
    apply Exists_exists in E4 as (g & Hg & Eg). rewrite Forall_forall in Hz.
    apply (fenced_same z z g c); eauto. }
  assert (Hx : forall z, Exists (same_grant z) (cs_granted s) -> Exists (same_grant z) l).
  { intros z Hz. destruct Hl as [->|(c & _ & ->)]; [done|]. by right. }
  split; cbn [cs_coordinator cs_granted mac_next mac_claims].
  - lia.
  - intros c Hin. destruct Hl as [->|(c' & Hc' & ->)]; [by apply H2|].
    apply elem_of_cons in Hin as [->|Hin]; [|by apply H2].
    apply Exists_exists in E4 as (g & Hg & _ & _ & Eg). destruct Hc' as (_ & _ & <-).
    rewrite Eg. by apply H2.
  - destruct Hl as [->|(c & Hc' & ->)]; [done|]. constructor; [done|].
    eapply Forall_impl; [exact E3|]. intros z. by apply fenced_same.
  - intros k c Hk. destruct (decide (key = k)) as [<-|Hne].
    + rewrite lookup_insert_eq in Hk. injection Hk as <-. split_and!; [|done|apply Hf|apply Hx].
      * destruct Hs as (S1 & _). congruence.
      * eapply Forall_impl; [exact E3|]. intros z. by apply fenced_same.
      * eapply Exists_impl; [exact E4|]. eauto.
    + rewrite lookup_insert_ne in Hk by done. destruct (H4 k c Hk) as (F1 & F2 & F3 & F4).
      split_and!; auto.
Qed.

Lemma mac_eta c : mkMemoryActivationCoordinator (mac_claims c) (mac_next c) = c.
Proof. by destruct c. Qed.

Lemma claims_ok_weaken n s : claims_ok n s -> claims_ok (S n) s.
Proof. intros [H1 H2 H3 H4]. split; auto. lia. Qed.

(** What [Begin] does: nothing, another look at a live claim, or a fresh grant. *)
Lemma Begin_cases ctx_Err c now key holder ttl r c' :
  Begin ctx_Err c now key holder ttl = (r, c') ->
  (c' = c /\ exists err, r = inl err) \/
  (exists claim, mac_claims c !! key = Some claim /\ unexpired now claim = true /\ c' = c /\
     r = inr (set_Disposition (if String.eqb (ac_Holder claim) holder then ActivationOwner
                               else ActivationObserver) claim)) \/
  (exists claim, claim = mkActivationClaim key holder (int64 (mac_next c + 1)) ActivationOwner
                           (time_Add now ttl) /\ r = inr claim /\
     c' = mkMemoryActivationCoordinator (<[key := claim]> (mac_claims c)) (int64 (mac_next c + 1))).
Proof.
  unfold Begin. destruct ctx_Err as [err|]; [intros [= <- <-]; left; eauto|].
  destruct (_ || _); [intros [= <- <-]; left; eauto|].
  destruct (mac_claims c !! key) as [claim|].
  - destruct (unexpired now claim) eqn:Hu.
    + intros Hb. right; left. exists claim.
      destruct (String.eqb (ac_Holder claim) holder); injection Hb as <- <-; done.
    + intros [= <- <-]. right; right. eauto.
  - intros [= <- <-]. right; right. eauto.
Qed.

(** What [Renew] and [Complete] accept: the claim in force. *)
Definition in_force (c : MemoryActivationCoordinator) (now : Z) (claim : ActivationClaim) : Prop :=
  exists current, mac_claims c !! ac_Key claim = Some current /\
    sameActivationOwner current claim = true /\ unexpired now current = true.

Lemma Renew_cases ctx_Err c now claim ttl r c' :
  Renew ctx_Err c now claim ttl = (r, c') ->
  (c' = c /\ exists err, r = inl err) \/
  (exists current, mac_claims c !! ac_Key claim = Some current /\
     sameActivationOwner current claim = true /\ unexpired now current = true /\
     let renewed := set_Disposition ActivationOwner (set_ExpiresAt (time_Add now ttl) current) in
     r = inr renewed /\
     c' = mkMemoryActivationCoordinator (<[ac_Key claim := renewed]> (mac_claims c)) (mac_next c)).
Proof.
  unfold Renew. destruct ctx_Err as [err|]; [intros [= <- <-]; left; eauto|].
  destruct (ttl <=? 0); [intros [= <- <-]; left; eauto|].
  destruct (mac_claims c !! ac_Key claim) as [current|]; [|intros [= <- <-]; left; eauto].
  destruct (_ || _) eqn:Hb; [intros [= <- <-]; left; eauto|].
  apply orb_false_iff in Hb as [B1%negb_false_iff B2%negb_false_iff].
  intros [= <- <-]. right. exists current. by split_and!.
Qed.

Lemma Complete_cases ctx_Err c now claim r c' :
  Complete ctx_Err c now claim = (r, c') ->
  (c' = c /\ r <> None) \/
  (in_force c now claim /\ r = None /\
   c' = mkMemoryActivationCoordinator (delete (ac_Key claim) (mac_claims c)) (mac_next c)).
Proof.
  unfold Complete. destruct ctx_Err as [err|]; [intros [= <- <-]; by left|].
  destruct (mac_claims c !! ac_Key claim) as [current|] eqn:Hc; [|intros [= <- <-]; by left].
  destruct (_ || _) eqn:Hb; [intros [= <- <-]; by left|].
  apply orb_false_iff in Hb as [B1%negb_false_iff B2%negb_false_iff].
  intros [= <- <-]. right. split_and!; [by exists current|done..].
Qed.

Lemma claims_ok_step n s s' :
  Z.of_nat n < MaxInt64 -> claims_ok n s -> claim_step s s' -> claims_ok (S n) s'.
Proof.
  intros Hn Hok Hst. pose proof Hok as [H1 H2 H3 H4].
  inversion Hst as [c0 now key holder ttl r c E|c0 now claim ttl r c E|c0 now claim r c E]; subst s'.
  - destruct (Begin_cases _ _ _ _ _ _ _ _ E)
      as [(-> & err & ->)|[(claim & Hc & Hu & -> & ->)|(claim & -> & -> & ->)]].
    + destruct s. by apply claims_ok_weaken.
    + destruct (H4 key claim Hc) as (_ & Ho & _).
      pose proof (claims_ok_update n s key claim claim (granted_of (inr (set_Disposition
        (if String.eqb (ac_Holder claim) holder then ActivationOwner else ActivationObserver) claim))
        ++ cs_granted s) Hok Hc (same_grant_refl _) Ho) as Hup.
      rewrite insert_id, mac_eta in Hup by done. apply Hup.
      destruct (String.eqb _ _); simpl; [right; eexists; split; [|reflexivity]; done|by left].
    + rewrite int64_id by (unfold is_int64, MinInt64; lia).
      by apply (claims_ok_grant n s).
  - destruct (Renew_cases _ _ _ _ _ _ _ E)
      as [(-> & err & ->)|(current & Hc & _ & _ & -> & ->)]; [destruct s; by apply claims_ok_weaken|].
    destruct (H4 _ _ Hc) as (_ & Ho & _).
    by apply (claims_ok_update n s _ current); [..|left].
  - destruct (Complete_cases _ _ _ _ _ _ E) as [(-> & _)|(_ & _ & ->)];
      [destruct s; by apply claims_ok_weaken|].
    split; cbn [cs_coordinator cs_granted mac_next mac_claims]; [lia|done..|].
    intros k x Hk. apply lookup_delete_Some in Hk as [_ Hk]. by apply H4.
Qed.

Lemma claims_ok_reach n s : claim_reach n s -> Z.of_nat n <= MaxInt64 -> claims_ok n s.
Proof.
  induction 1 as [|n s s' Hr IH Hst]; intros Hn.
  - split; simpl; [lia|by intros ? ?%elem_of_nil|constructor|by intros ? ? ?].
  - apply (claims_ok_step n s); [lia|apply IH; lia|done].
Qed.

Lemma in_force_Renew c now claim ttl r c' : Renew None c now claim ttl = (inr r, c') -> in_force c now claim.
Proof.
  intros E. destruct (Renew_cases _ _ _ _ _ _ _ E) as [(_ & err & ?)|(cur & H1 & H2 & H3 & _)]; [done|].
  by exists cur.
Qed.

Lemma in_force_Complete c now claim c' : Complete None c now claim = (None, c') -> in_force c now claim.
Proof. intros E. by destruct (Complete_cases _ _ _ _ _ _ E) as [(_ & ?)|(? & _)]. Qed.

Lemma sameActivationOwner_spec x y :
  sameActivationOwner x y = true -> same_grant x y /\ ac_Disposition y = ActivationOwner.
Proof.
  unfold sameActivationOwner, same_grant. rewrite !andb_true_iff, !String.eqb_eq, Z.eqb_eq.
  destruct (ac_Disposition y); simpl; naive_solver.
Qed.

(** The claims of a [MemoryActivationCoordinator] are fenced: in every state
    that calls of [Begin], [Renew] and [Complete] reach, with arbitrary
    arguments and clock readings, the owner claims handed out so far carry
    tokens that never decrease along a key, and one token belongs to one key
    and one holder. *)
Theorem fencing_tokens_increase n s :
  claim_reach n s -> Z.of_nat n <= MaxInt64 -> StronglySorted fenced (cs_granted s).
Proof. intros Hr Hn. by apply (claims_ok_reach n s Hr Hn). Qed.

(** C31: Activation ownership is exclusive: a claim that [Renew] or [Complete]
    accepts is the newest grant of its key, no claim of another grant of the
    key is accepted in the same state at any clock reading, and until it
    expires [Begin] gives every caller that same grant, as owner only to its
    holder, and changes nothing. *)
Theorem activation_exclusive n s now claim :
  claim_reach n s -> Z.of_nat n <= MaxInt64 ->
  (exists ttl r c, Renew None (cs_coordinator s) now claim ttl = (inr r, c)) \/
  (exists c, Complete None (cs_coordinator s) now claim = (None, c)) ->
  (forall g, g ∈ cs_granted s -> ac_Key g = ac_Key claim ->
     ac_FencingToken g <= ac_FencingToken claim /\
     (ac_FencingToken g = ac_FencingToken claim -> ac_Holder g = ac_Holder claim)) /\
  (forall now' claim', in_force (cs_coordinator s) now' claim' ->
     ac_Key claim' = ac_Key claim ->
     ac_Holder claim' = ac_Holder claim /\ ac_FencingToken claim' = ac_FencingToken claim) /\
  (forall holder ttl, ac_Key claim <> ""%string -> holder <> ""%string -> 0 < ttl ->
     exists g, Begin None (cs_coordinator s) now (ac_Key claim) holder ttl =
                 (inr g, cs_coordinator s) /\
       ac_FencingToken g = ac_FencingToken claim /\ ac_Holder g = ac_Holder claim /\
       (is_owner (ac_Disposition g) = true <-> holder = ac_Holder claim)).
Proof.
  intros Hr Hn Hf. destruct (claims_ok_reach n s Hr Hn) as [H1 H2 H3 H4].
  assert (Hin : in_force (cs_coordinator s) now claim).
  { destruct Hf as [(ttl & r & c & E)|(c & E)]; [by eapply in_force_Renew|by eapply in_force_Complete]. }
  destruct Hin as (current & Hc & [(S1 & S2 & S3) _]%sameActivationOwner_spec & Hu).
  destruct (H4 _ _ Hc) as (E1 & E2 & E4 & E5). rewrite Forall_forall in E4. split_and!.
  - intros g Hg Hk. destruct (E4 g Hg) as [F1 F2]. split; [rewrite <- S3; apply F1; congruence|].
    intros Et. rewrite <- S2. symmetry. apply F2. congruence.
  - intros now' claim' (current' & Hc' & [(T1 & T2 & T3) _]%sameActivationOwner_spec & _) Hk.
    rewrite Hk, Hc in Hc'. injection Hc' as <-. split; congruence.
  - intros holder ttl Hk Hh Ht. unfold Begin.
    rewrite (proj2 (String.eqb_neq (ac_Key claim) "")) by done.
    rewrite (proj2 (String.eqb_neq holder "")), (proj2 (Z.leb_gt ttl 0)) by done.
    cbn [orb]. rewrite Hc, Hu. destruct (String.eqb_spec (ac_Holder current) holder) as [Eh|Eh];
      (eexists; split; [reflexivity|]); cbn [set_Disposition ac_FencingToken ac_Holder ac_Disposition is_owner];
      split_and!; try done; naive_solver congruence.
Qed.

(** ** Concrete runs *)
Section Examples.

Definition no_claims : claim_system := mkClaimSystem NewMemoryActivationCoordinator [].

Definition grant (key holder : string) (token expires : Z) : ActivationClaim :=
  mkActivationClaim key holder token ActivationOwner expires.

Definition begin (s : claim_system) (now : Z) (key holder : string) (ttl : Z) : claim_system :=
  let '(r, c) := Begin None (cs_coordinator s) now key holder ttl in
  mkClaimSystem c (granted_of r ++ cs_granted s).

Lemma begin_step s now key holder ttl : claim_step s (begin s now key holder ttl).
Proof. unfold begin. destruct (Begin _ _ _ _ _ _) as [r c] eqn:E. by eapply step_Begin. Qed.

(** Replica a's grant expires, and replica b takes the key over. *)
Definition taken_over : claim_system := begin (begin no_claims 0 "k" "a" 30) 40 "k" "b" 20.

Lemma taken_over_reach : claim_reach 2 taken_over.
Proof. eapply claim_next; [eapply claim_next; [apply claim_start|]|]; apply begin_step. Qed.

Lemma activation_key_injective_witness :
  ActivationKey (set_Controller "a1" no_binding) <> ActivationKey (set_Controller "a" no_binding).
Proof. intros E%activation_key_injective. by destruct E. Defined.

Lemma fencing_tokens_increase_witness : StronglySorted fenced (cs_granted taken_over).
Proof. apply (fencing_tokens_increase 2); [apply taken_over_reach|discriminate]. Defined.

Lemma activation_exclusive_witness :
  (forall g, g ∈ cs_granted taken_over -> ac_Key g = "k"%string ->
     ac_FencingToken g <= 2 /\ (ac_FencingToken g = 2 -> ac_Holder g = "b"%string)) /\
  (Renew None (cs_coordinator taken_over) 45 (grant "k" "a" 1 30) 10).1 = inl ErrActivationClaimLost.
Proof.
  split; [|vm_compute; reflexivity].
  apply (activation_exclusive 2 taken_over 45 (grant "k" "b" 2 60));
    [apply taken_over_reach|discriminate|].
  right. eexists. vm_compute. reflexivity.
Defined.
End Examples.
