(* ===== verification/LifecycleStatus.v ===== *)
(** * Lifecycle status ([pkg/lifecycle/status.go])

    The operational projection of controllers and bindings, its validation, the
    reasons it may carry, and the process-local source that publishes it.  A
    [time.Time] is an instant, so that [UTC()] is the identity. *)

From stdpp Require Import base gmap list strings.
From Stdlib Require Import Ascii ZArith Lia.
From S2P Require Import Prelude GoStrings Policies Capabilities Endpoints.

Local Open Scope Z_scope.
Local Open Scope go_scope.

Definition MaxStatusControllers : Z := 64.
Definition MaxStatusBindings : Z := 500.
Definition MaxReasonBytes : Z := 64.

Definition ControllerHealthy : string := "healthy".
Definition ControllerDegraded : string := "degraded".
Definition ControllerUnavailable : string := "unavailable".
Definition ControllerUnknown : string := "unknown".

Record ControllerStatus := mkControllerStatus {
  cst_Controller : string;
  cst_Health : string;
  cst_UpdatedAt : Z;
  cst_Bindings : Z;
  cst_Endpoints : Z;
  cst_ReadyEndpoints : Z;
  cst_ActiveLeases : Z;
  cst_QueuedWaiters : Z;
  cst_QueuedBodyBytes : Z;
  cst_Reason : string;
}.

Definition set_Health (v : string) (s : ControllerStatus) : ControllerStatus :=
  let '(mkControllerStatus co _ ua bi en re al qw qb rs) := s in
  mkControllerStatus co v ua bi en re al qw qb rs.

Record RecoveryStatus := mkRecoveryStatus {
  rst_Action : string;
  rst_Phase : string;
  rst_Reason : string;
  rst_FailedProbes : Z;
  rst_Attempts : Z;
  rst_MaxRestarts : Z;
  rst_NextAttempt : option Z;
}.

Record BindingStatus := mkBindingStatus {
  bst_Recovery : option RecoveryStatus;
  bst_PluginsInUse : list string;
  bst_LifecycleActions : list string;
  bst_Owned : option bool;
  bst_Phase : string;
  bst_JobID : string;
  bst_ClusterCandidates : list string;
  bst_Controller : string;
  bst_BindingRevision : string;
  bst_VirtualModel : string;
  bst_Deployment : string;
  bst_State : string;
  bst_UpdatedAt : Z;
  bst_ActivationStarted : option Z;
  bst_ActivationDeadline : option Z;
  bst_EndpointID : string;
  bst_ActiveLeases : Z;
  bst_QueuedWaiters : Z;
  bst_QueuedBodyBytes : Z;
  bst_MaxQueuedWaiters : Z;
  bst_MaxQueuedBodyBytes : Z;
  bst_Reason : string;
}.

Record Snapshot := mkSnapshot {
  snap_ObservedAt : Z;
  snap_Controllers : list ControllerStatus;
  snap_Bindings : list BindingStatus;
}.

(** ** Reasons *)

(** The runes that a reason may contain. *)
Definition reason_rune (r : Z) : bool :=
  ((97 <=? r) && (r <=? 122)) || ((48 <=? r) && (r <=? 57)) || (r =? 45) || (r =? 95).

Definition separator_rune (r : Z) : bool := (r =? 95) || (r =? 45).

(** The loop of [SanitizeReason], with [result.Len()] and [lastSeparator]. *)
Fixpoint sanitize_from (written : Z) (lastSeparator : bool) (reason : list Z) : list ascii :=
  match reason with
  | [] => []
  | current :: rest =>
      let current := if reason_rune current then current else 95 in
      let separator := separator_rune current in
      if separator && lastSeparator then sanitize_from written lastSeparator rest
      else if MaxReasonBytes <? written + 1 then []
      else ascii_of_nat (Z.to_nat current) :: sanitize_from (written + 1) separator rest
  end.

Definition is_separator (c : ascii) : bool := separator_rune (Z.of_nat (byte_of c)).

Fixpoint trim_separators (l : list ascii) : list ascii :=
  match l with
  | [] => []
  | c :: l' => if is_separator c then trim_separators l' else l
  end.

(** [strings.Trim(s, "_-")] *)
Definition Trim_separators (l : list ascii) : list ascii :=
  reverse (trim_separators (reverse (trim_separators l))).

Section Status.
Context `{UnicodeTables}.

Definition SanitizeReason (reason : string) : string :=
  let reason := ToLower (TrimSpace reason) in
  match Trim_separators (sanitize_from 0 false (runes reason)) with
  | [] => "unspecified"
  | value => of_bytes value
  end.

Definition validateReason (reason : string) : option string :=
  if String.eqb reason "" then None
  else fail_if (negb (String.eqb reason (SanitizeReason reason)))
         "lifecycle reason must be a sanitized low-cardinality identifier".

(** ** Validation *)
Definition validateStatusString (value : string) (required : bool) : option string :=
  first_error [
    fail_if (required && String.eqb value "") "lifecycle %s is required";
    fail_if (1024 <? zlen value) "lifecycle %s exceeds 1024 bytes"].

Definition validEndpointState (state : string) : bool :=
  mem state [StateOffline; StateActivating; StateReady; StateDraining; StateDeactivating; StateFailed;
             StateUnknown].

(** The status, with a default health. *)
Definition validateControllerStatus (status : ControllerStatus) : string + ControllerStatus :=
  validateStatusString (cst_Controller status) true ?;
  let status := if String.eqb (cst_Health status) "" then set_Health ControllerUnknown status else status in
  fail_if (negb (mem (cst_Health status)
             [ControllerHealthy; ControllerDegraded; ControllerUnavailable; ControllerUnknown]))
    "unsupported controller health %q" ?;
  fail_if (time_IsZero (cst_UpdatedAt status)) "controller updated_at is required" ?;
  fail_if ((cst_Bindings status <? 0) || (cst_Endpoints status <? 0) || (cst_ReadyEndpoints status <? 0) ||
           (cst_ActiveLeases status <? 0) || (cst_QueuedWaiters status <? 0) ||
           (cst_QueuedBodyBytes status <? 0))
    "controller status counters must not be negative" ?;
  validateReason (cst_Reason status) ?;
  inr status.

Definition recoveryPhases : list string :=
  ["healthy"; "monitoring"; "scheduled"; "draining"; "stopping"; "restarting"; "backoff";
   "awaiting_demand"; "failed"; "exhausted"]%string.

Definition validate_recovery (r : RecoveryStatus) : option string :=
  first_error [
    fail_if (negb (String.eqb (rst_Action r) "restart") && negb (String.eqb (rst_Action r) "stop"))
      "invalid recovery action";
    fail_if (negb (mem (rst_Phase r) recoveryPhases)) "invalid recovery phase";
    fail_if ((rst_FailedProbes r <? 0) || (rst_Attempts r <? 0) || (rst_MaxRestarts r <? 1) ||
             (100 <? rst_MaxRestarts r) || (100 <? rst_Attempts r)) "invalid recovery counters";
    validateReason (rst_Reason r)].

Definition validate_plugin (name : string) : option string :=
  first_error [
    fail_if (64 <? zlen name) "plugin name too long";
    validateStatusString name true].

(** The identifiers in the order of the literal; the code ranges over a map, so
    that which of several errors it reports is arbitrary. *)
Definition validateBindingStatus (status : BindingStatus) : option string :=
  first_error [
    match bst_Recovery status with Some r => validate_recovery r | None => None end;
    fail_if ((64 <? Z.of_nat (length (bst_PluginsInUse status))) ||
             (3 <? Z.of_nat (length (bst_LifecycleActions status))))
      "too many workload plugin capabilities";
    check_all validate_plugin (bst_PluginsInUse status);
    check_all (fun action => fail_if (negb (mem action ["status"; "sleep"; "wake"]%string))
                               "invalid workload lifecycle action") (bst_LifecycleActions status);
    validateReason (bst_Phase status);
    fail_if (64 <? Z.of_nat (length (bst_ClusterCandidates status))) "too many cluster candidates";
    check_all (fun name => validateStatusString name true) (bst_ClusterCandidates status);
    validateStatusString (bst_Controller status) true;
    validateStatusString (bst_BindingRevision status) true;
    validateStatusString (bst_VirtualModel status) false;
    validateStatusString (bst_Deployment status) true;
    validateStatusString (bst_EndpointID status) false;
    validateStatusString (bst_JobID status) false;
    fail_if (negb (validEndpointState (bst_State status))) "unsupported lifecycle binding state %q";
    fail_if (time_IsZero (bst_UpdatedAt status)) "lifecycle binding updated_at is required";
    match bst_ActivationStarted status, bst_ActivationDeadline status with
    | Some started, Some deadline =>
        fail_if (negb (time_Before started deadline)) "activation start must precede deadline"
    | _, _ => None
    end;
    fail_if ((bst_ActiveLeases status <? 0) || (bst_QueuedWaiters status <? 0) ||
             (bst_QueuedBodyBytes status <? 0) || (bst_MaxQueuedWaiters status <? 0) ||
             (bst_MaxQueuedBodyBytes status <? 0)) "lifecycle binding counters must not be negative";
    validateReason (bst_Reason status)].

(** ** The process-local source *)

(** [less] of the sort of the controllers and of the bindings. *)
Definition by_controller (x y : ControllerStatus) : bool :=
  String.ltb (cst_Controller x) (cst_Controller y).

Definition by_binding (left right : BindingStatus) : bool :=
  if negb (String.eqb (bst_Controller left) (bst_Controller right))
  then String.ltb (bst_Controller left) (bst_Controller right)
  else if negb (String.eqb (bst_Deployment left) (bst_Deployment right))
  then String.ltb (bst_Deployment left) (bst_Deployment right)
  else String.ltb (bst_BindingRevision left) (bst_BindingRevision right).

(** One turn of the loop over the controllers, which validates in place. *)
Definition controller_turn (acc : list ControllerStatus) (status : ControllerStatus)
  : string + list ControllerStatus :=
  match validateControllerStatus status with
  | inl err => inl err
  | inr status => inr (acc ++ [status])
  end.

(** [MemoryStatusSource.Publish]: the snapshot that the source then holds. *)
Definition Publish (s : Snapshot) (now : Z) (snapshot : Snapshot) : option string * Snapshot :=
  let observedAt := if time_IsZero (snap_ObservedAt snapshot) then now else snap_ObservedAt snapshot in
  let checked :=
    fail_if (MaxStatusControllers <? Z.of_nat (length (snap_Controllers snapshot)))
      "lifecycle snapshot has too many controllers" ?;
    fail_if (MaxStatusBindings <? Z.of_nat (length (snap_Bindings snapshot)))
      "lifecycle snapshot has too many bindings" ?;
    match scan controller_turn [] (snap_Controllers snapshot) with
    | inl err => inl err
    | inr controllers =>
        check_all validateBindingStatus (snap_Bindings snapshot) ?;
        inr (mkSnapshot observedAt (stable_sort by_controller controllers)
               (stable_sort by_binding (snap_Bindings snapshot)))
    end in
  match checked with
  | inl err => (Some err, s)
  | inr snapshot => (None, snapshot)
  end.

(** A new source holds the zero snapshot. *)
Definition NewMemoryStatusSource : Snapshot := mkSnapshot 0 [] [].

(** [MemoryStatusSource.Snapshot] *)
Definition source_Snapshot (ctx_Err : option string) (s : Snapshot) (now : Z) : string + Snapshot :=
  match ctx_Err with
  | Some err => inl err
  | None =>
      inr (if time_IsZero (snap_ObservedAt s)
           then mkSnapshot now (snap_Controllers s) (snap_Bindings s) else s)
  end.
End Status.

(** ** Sanitized reasons *)

(** A byte of a reason. *)
Definition reason_byte (c : ascii) : bool := reason_rune (Z.of_nat (byte_of c)).

(** No two separators in a row, and none after [lastSeparator]. *)
Fixpoint spaced (lastSeparator : bool) (l : list ascii) : bool :=
  match l with
  | [] => true
  | c :: l => reason_byte c && negb (is_separator c && lastSeparator) && spaced (is_separator c) l
  end.

(** The last byte is not a separator. *)
Definition closed (l : list ascii) : bool :=
  match last l with Some c => negb (is_separator c) | None => false end.

(** A low-cardinality identifier: one to 64 letters, digits and single inner
    separators. *)
Definition sanitized (s : string) : bool :=
  spaced true (bytes s) && closed (bytes s) && (zlen s <=? MaxReasonBytes).

Lemma reason_byte_facts c :
  reason_byte c = true ->
  non_ascii c = false /\ ascii_space c = false /\ lower_byte c = c.
Proof. destruct c as [[] [] [] [] [] [] [] []]; vm_compute; intuition congruence. Qed.

Lemma sanitize_byte current :
  let r := if reason_rune current then current else 95 in
  let c := ascii_of_nat (Z.to_nat r) in
  reason_byte c = true /\ is_separator c = separator_rune r /\ Z.of_nat (byte_of c) = r.
Proof.
  intros r c.
  assert (Hr : reason_rune r = true) by (unfold r; by destruct (reason_rune current) eqn:E).
  assert (Hb : Z.of_nat (byte_of c) = r).
  { unfold c, byte_of. clear -Hr. clearbody r. unfold reason_rune in Hr.
    rewrite nat_ascii_embedding; [|]; repeat (apply orb_true_iff in Hr as [Hr|Hr]); prop_tests; lia. }
  unfold reason_byte, is_separator. by rewrite Hb.
Qed.

Lemma sanitize_from_spaced written last rs :
  0 <= written <= MaxReasonBytes ->
  let l := sanitize_from written last rs in
  spaced last l = true /\ written + Z.of_nat (length l) <= MaxReasonBytes.
Proof.
  revert written last. induction rs as [|r rs IH]; intros written last Hw; cbn [sanitize_from length spaced]; [split; [done|lia]|].
  destruct (sanitize_byte r) as (H1 & H2 & H3). set (x := if reason_rune r then r else 95) in *.
  destruct (separator_rune x && last) eqn:Es; [by apply IH|].
  destruct (Z.ltb_spec MaxReasonBytes (written + 1)); [cbn; split; [done|lia]|].
  cbn [spaced length]. rewrite H1, H2, Es. cbn [negb andb].
  destruct (IH (written + 1) (separator_rune x)) as [I1 I2]; [lia|]. split; [done|lia].
Qed.

Lemma spaced_weaken l : spaced true l = true -> spaced false l = true.
Proof. destruct l as [|c l]; [done|]. cbn. destruct (is_separator c); [by rewrite andb_false_r|done]. Qed.

Lemma spaced_app b l c : spaced b (l ++ [c]) = true -> spaced b l = true.
Proof.
  revert b. induction l as [|d l IH]; intros b; [done|]. cbn. rewrite !andb_true_iff.
  intros [[? ?] ?]. split_and!; try done. by apply IH.
Qed.

Lemma trim_left_spaced b l :
  spaced b l = true ->
  spaced true (trim_separators l) = true /\ (length (trim_separators l) <= length l)%nat.
Proof.
  revert b. induction l as [|c l IH]; intros b Hl; [done|]. cbn in *. rewrite !andb_true_iff in Hl.
  destruct Hl as [[Hc _] Hl]. destruct (is_separator c) eqn:Es.
  - destruct (IH true Hl). split; [done|lia].
  - cbn. rewrite Hc, Es, Hl. split; [done|lia].
Qed.

Lemma trim_right_spaced l :
  spaced true l = true ->
  let l' := reverse (trim_separators (reverse l)) in
  spaced true l' = true /\ (length l' <= length l)%nat /\ (l' = [] \/ closed l' = true).
Proof.
  induction l as [|c l IH] using rev_ind; [intros _; split_and!; [done|done|by left]|]. intros Hl.
  rewrite reverse_snoc. cbn [trim_separators].
  destruct (is_separator c) eqn:Es.
  - destruct (IH (spaced_app _ _ _ Hl)) as (I1 & I2 & I3). rewrite length_app. cbn [length]. split_and!; try done. lia.
  - rewrite <- reverse_snoc, reverse_involutive. split_and!; [done|done|right].
    unfold closed. by rewrite last_snoc, Es.
Qed.

Section Reasons.
Context `{UnicodeTables}.

Lemma SanitizeReason_sanitized s : sanitized (SanitizeReason s) = true.
Proof.
  unfold SanitizeReason, Trim_separators. set (rs := runes _).
  destruct (sanitize_from_spaced 0 false rs) as [S1 S2]; [unfold MaxReasonBytes; lia|].
  destruct (trim_left_spaced _ _ S1) as [T1 T2]. destruct (trim_right_spaced _ T1) as (U1 & U2 & U3).
  set (l := reverse _) in *. destruct l as [|c l'] eqn:E; [done|]. destruct U3 as [U3|U3]; [done|].
  unfold sanitized, zlen. rewrite <- length_bytes, !bytes_of_bytes, U1, U3. apply Z.leb_le. lia.
Qed.

Lemma spaced_bytes b l : spaced b l = true -> Forall (fun c => reason_byte c = true) l.
Proof.
  revert b. induction l as [|c l IH]; intros b; cbn; [constructor|]. rewrite !andb_true_iff.
  intros [[? _] ?]. constructor; [done|by eapply IH].
Qed.

Lemma reason_TrimSpace s : Forall (fun c => reason_byte c = true) (bytes s) -> TrimSpace s = s.
Proof.
  unfold TrimSpace. intros Hs. rewrite <- (of_bytes_bytes s) at 2.
  destruct Hs as [|c l Hc Hl]; [done|]. cbn [trim_left].
  destruct (reason_byte_facts c Hc) as (-> & -> & _).
  assert (Hr : Forall (fun c => reason_byte c = true) (reverse (c :: l)))
    by (rewrite reverse_Permutation; by constructor).
  assert (E : trim_right (reverse (c :: l)) = (reverse (c :: l), false)).
  { destruct Hr as [|d r Hd Hr]; [done|]. cbn [trim_right].
    by destruct (reason_byte_facts d Hd) as (-> & -> & _). }
  rewrite E. by rewrite reverse_involutive.
Qed.

Lemma reason_ToLower s : Forall (fun c => reason_byte c = true) (bytes s) -> ToLower s = s.
Proof.
  intros Hs. unfold ToLower.
  assert (Hn : existsb non_ascii (bytes s) = false).
  { clear -Hs. induction Hs as [|c l Hc Hl IH]; [done|]. cbn [existsb]. rewrite IH.
    by destruct (reason_byte_facts c Hc) as (-> & _). }
  rewrite Hn. rewrite <- (of_bytes_bytes s) at 2. f_equal. clear Hn.
  induction Hs as [|c l Hc Hl IH]; [done|]. cbn [fmap list_fmap]. rewrite IH.
  by destruct (reason_byte_facts c Hc) as (_ & _ & ->).
Qed.

Lemma reason_runes s :
  Forall (fun c => reason_byte c = true) (bytes s) ->
  runes s = (fun c => Z.of_nat (byte_of c)) <$> bytes s.
Proof.
  unfold runes. induction 1 as [|c l Hc Hl IH]; [done|]. cbn [decode].
  destruct (reason_byte_facts c Hc) as (-> & _). cbn [negb fmap list_fmap]. by rewrite IH.
Qed.

Lemma sanitize_from_id written last l :
  spaced last l = true -> written + Z.of_nat (length l) <= MaxReasonBytes ->
  sanitize_from written last ((fun c => Z.of_nat (byte_of c)) <$> l) = l.
Proof.
  revert written last. induction l as [|c l IH]; intros written last Hl Hw; [done|].
  cbn [fmap list_fmap sanitize_from length spaced] in *. rewrite !andb_true_iff, negb_true_iff in Hl.
  destruct Hl as [[Hc Hs] Hl]. unfold reason_byte in Hc. rewrite Hc. fold (is_separator c). rewrite Hs.
  rewrite (proj2 (Z.ltb_ge _ _)) by lia. rewrite Nat2Z.id. unfold byte_of at 1.
  rewrite ascii_nat_embedding. f_equal. apply IH; [done|lia].
Qed.

Lemma sanitized_fixed s : sanitized s = true -> SanitizeReason s = s.
Proof.
  unfold sanitized. rewrite !andb_true_iff, Z.leb_le. intros [[Hs Hc] Hl].
  pose proof (spaced_bytes _ _ Hs) as Hb. unfold SanitizeReason.
  rewrite reason_TrimSpace, reason_ToLower, reason_runes by done.
  rewrite sanitize_from_id; [|by apply spaced_weaken|by rewrite length_bytes].
  unfold Trim_separators. rewrite <- (of_bytes_bytes s) at 2. destruct (bytes s) as [|c l] eqn:E; [done|].
  cbn [spaced] in Hs. rewrite andb_true_r, !andb_true_iff, negb_true_iff in Hs. destruct Hs as [[_ Hs] _].
  cbn [trim_separators]. rewrite Hs. rewrite <- E in *. clear E c l Hs.
  unfold closed in Hc. destruct (bytes s) as [|c l _] using rev_ind; [done|]. rewrite last_snoc in Hc.
  apply negb_true_iff in Hc. rewrite reverse_snoc. cbn [trim_separators]. rewrite Hc, <- reverse_snoc, reverse_involutive.
  by destruct l.
Qed.
End Reasons.
