(* ===== verification/StatusTheorems.v ===== *)
(** * Properties of the lifecycle status

    The reasons that a status may carry, and what a published snapshot is. *)

From stdpp Require Import base gmap list strings sorting.
From Stdlib Require Import Ascii ZArith Lia.
From S2P Require Import Prelude GoStrings Policies Capabilities Endpoints LifecycleStatus.

Local Open Scope Z_scope.
Local Open Scope go_scope.

(** ** The order of the bindings *)
Lemma string_ltb_irrefl x : String.ltb x x = false.
Proof. destruct (String.ltb x x) eqn:E; [|done]. by rewrite (less_asym x x E) in E. Qed.

Lemma string_ltb_split x y : x <> y -> String.ltb y x = negb (String.ltb x y).
Proof.
  intros Hne. unfold String.ltb. rewrite (String.compare_antisym y x).
  destruct (x ?= y)%string eqn:E; [|done|done]. by apply String.compare_eq_iff in E as ->.
Qed.

Lemma by_binding_lex x y :
  by_binding x y =
    lex_less (fun x y => String.ltb (bst_Controller x) (bst_Controller y))
      (lex_less (fun x y => String.ltb (bst_Deployment x) (bst_Deployment y))
        (fun x y => String.ltb (bst_BindingRevision x) (bst_BindingRevision y))) x y.
Proof.
  unfold by_binding, lex_less. 
  destruct (String.eqb_spec (bst_Controller x) (bst_Controller y)) as [->|Hc];
    [|rewrite (string_ltb_split _ _ Hc); by destruct (String.ltb _ _)].
  rewrite string_ltb_irrefl. cbn [negb andb orb].
  destruct (String.eqb_spec (bst_Deployment x) (bst_Deployment y)) as [->|Hd];
    [|rewrite (string_ltb_split _ _ Hd); by destruct (String.ltb _ _)].
  by rewrite string_ltb_irrefl.
Qed.

#[export] Instance by_binding_order : StrictWeakOrder by_binding.
Proof.
  split; intros *; rewrite !by_binding_lex; [apply less_asym|apply less_neg_trans].
Qed.

#[export] Instance by_controller_order : StrictWeakOrder by_controller.
Proof. unfold by_controller. apply _. Qed.

(** ** Well-formed statuses *)
Section Theorems.
Context `{UnicodeTables}.

Definition identifier_ok (s : string) : Prop := s <> ""%string /\ zlen s <= 1024.
Definition reason_ok (s : string) : Prop := s = ""%string \/ sanitized s = true.

Record controller_ok (s : ControllerStatus) : Prop := {
  ck_name : identifier_ok (cst_Controller s);
  ck_health : cst_Health s ∈ [ControllerHealthy; ControllerDegraded; ControllerUnavailable; ControllerUnknown];
  ck_updated : cst_UpdatedAt s <> 0;
  ck_counters : Forall (Z.le 0) [cst_Bindings s; cst_Endpoints s; cst_ReadyEndpoints s; cst_ActiveLeases s;
                                 cst_QueuedWaiters s; cst_QueuedBodyBytes s];
  ck_reason : reason_ok (cst_Reason s);
}.

Record recovery_ok (r : RecoveryStatus) : Prop := {
  rk_action : rst_Action r = "restart"%string \/ rst_Action r = "stop"%string;
  rk_phase : rst_Phase r ∈ recoveryPhases;
  rk_counters : 0 <= rst_FailedProbes r /\ 0 <= rst_Attempts r <= 100 /\ 1 <= rst_MaxRestarts r <= 100;
  rk_reason : reason_ok (rst_Reason r);
}.

Record binding_status_ok (s : BindingStatus) : Prop := {
  bk_recovery r : bst_Recovery s = Some r -> recovery_ok r;
  bk_plugins : (length (bst_PluginsInUse s) <= 64)%nat /\
    Forall (fun p => p <> ""%string /\ zlen p <= 64) (bst_PluginsInUse s);
  bk_actions : (length (bst_LifecycleActions s) <= 3)%nat /\
    Forall (fun a => a ∈ ["status"; "sleep"; "wake"]%string) (bst_LifecycleActions s);
  bk_clusters : (length (bst_ClusterCandidates s) <= 64)%nat /\
    Forall identifier_ok (bst_ClusterCandidates s);
  bk_names : identifier_ok (bst_Controller s) /\ identifier_ok (bst_BindingRevision s) /\
    identifier_ok (bst_Deployment s);
  bk_state : validEndpointState (bst_State s) = true;
  bk_updated : bst_UpdatedAt s <> 0;
  bk_activation started deadline : bst_ActivationStarted s = Some started ->
    bst_ActivationDeadline s = Some deadline -> started < deadline;
  bk_counters : Forall (Z.le 0) [bst_ActiveLeases s; bst_QueuedWaiters s; bst_QueuedBodyBytes s;
                                 bst_MaxQueuedWaiters s; bst_MaxQueuedBodyBytes s];
  bk_reasons : reason_ok (bst_Reason s) /\ reason_ok (bst_Phase s);
}.

Record snapshot_ok (s : Snapshot) : Prop := {
  sk_controllers : (length (snap_Controllers s) <= 64)%nat /\ Forall controller_ok (snap_Controllers s);
  sk_bindings : (length (snap_Bindings s) <= 500)%nat /\ Forall binding_status_ok (snap_Bindings s);
  sk_sorted : sorted_by by_controller (snap_Controllers s) /\ sorted_by by_binding (snap_Bindings s);
}.

Lemma validateStatusString_None v :
  validateStatusString v true = None <-> identifier_ok v.
Proof.
  unfold validateStatusString, identifier_ok. autorewrite with go_db. rewrite andb_true_l, Z.ltb_ge, String.eqb_neq.
  naive_solver.
Qed.

Lemma validateReason_None s : validateReason s = None <-> reason_ok s.
Proof.
  unfold validateReason, reason_ok.
  destruct (String.eqb_spec s "") as [->|Hs]; [by split; [left|]|].
  rewrite fail_if_None, negb_false_iff, String.eqb_eq. split.
  - intros ->. right. apply SanitizeReason_sanitized.
  - intros [?|Hx]; [done|]. by rewrite sanitized_fixed.
Qed.

Lemma validateControllerStatus_ok s s' :
  validateControllerStatus s = inr s' ->
  controller_ok s' /\ s' = if String.eqb (cst_Health s) "" then set_Health ControllerUnknown s else s.
Proof.
  unfold validateControllerStatus. intros Hv. split_checks. subst s'. split; [|done].
  set (t := if String.eqb _ _ then _ else _) in *.
  assert (Ht : cst_Controller t = cst_Controller s) by (unfold t; by destruct (String.eqb _ _), s).
  prop_tests. split.
  - rewrite Ht. by apply validateStatusString_None.
  - by apply mem_spec.
  - unfold time_IsZero in *. by prop_tests.
  - by repeat constructor.
  - by apply validateReason_None.
Qed.

Lemma validate_recovery_ok r : validate_recovery r = None -> recovery_ok r.
Proof.
  unfold validate_recovery. intros Hv. split_checks. prop_tests. split.
  - match goal with Hx : _ && _ = false |- _ => apply andb_false_iff in Hx as [Hx|Hx]; prop_tests; auto end.
  - by apply mem_spec.
  - lia.
  - by apply validateReason_None.
Qed.

Lemma validateBindingStatus_ok s : validateBindingStatus s = None -> binding_status_ok s.
Proof.
  unfold validateBindingStatus. intros Hv. split_checks. prop_tests.
  repeat match goal with
  | Hx : check_all _ _ = None |- _ => apply check_all_None in Hx
  | Hx : validateStatusString _ true = None |- _ => apply validateStatusString_None in Hx
  | Hx : validateReason _ = None |- _ => apply validateReason_None in Hx
  end.
  split; try done.
  - intros r E. rewrite E in *. by apply validate_recovery_ok.
  - split; [lia|]. eapply Forall_impl; [eassumption|]. intros p Hp. unfold validate_plugin in Hp. split_checks.
    match goal with Hx : validateStatusString p true = None |- _ => apply validateStatusString_None in Hx as [? _] end.
    prop_tests. by split.
  - split; [lia|]. eapply Forall_impl; [eassumption|]. intros a Ha. cbv beta in Ha. split_checks. prop_tests.
    by apply mem_spec.
  - split; [lia|]. eapply Forall_impl; [eassumption|]. intros p. apply validateStatusString_None.
  - unfold time_IsZero in *. by prop_tests.
  - intros started deadline E1 E2. rewrite E1, E2 in *. split_checks. prop_tests. unfold time_Before in *. by prop_tests.
  - by repeat constructor.
Qed.

Lemma controllers_checked l acc acc' :
  scan controller_turn acc l = inr acc' -> Forall controller_ok acc ->
  Forall controller_ok acc' /\ cst_Controller <$> acc' = (cst_Controller <$> acc) ++ (cst_Controller <$> l).
Proof.
  intros Hs Ha. revert Hs. apply (scan_invariant controller_turn (fun l acc' =>
    Forall controller_ok acc' /\ cst_Controller <$> acc' = (cst_Controller <$> acc) ++ (cst_Controller <$> l)));
    [by rewrite app_nil_r|].
  intros prefix s s1 s2 [IH1 IH2] Hstep. unfold controller_turn in Hstep.
  destruct (validateControllerStatus s) as [e|s'] eqn:E; [done|]. injection Hstep as <-.
  apply validateControllerStatus_ok in E as [E ->]. rewrite Forall_app, Forall_singleton, !fmap_app, IH2, <- app_assoc.
  split; [done|]. cbn [fmap list_fmap]. do 3 f_equal. destruct s as [co he]. cbn [cst_Health].
  by destruct (String.eqb he "").
Qed.

Lemma Publish_ok s now snapshot : snapshot_ok s -> snapshot_ok (Publish s now snapshot).2.
Proof.
  intros Hs. unfold Publish. destruct (_ ?; _) as [e|s'] eqn:E; [done|]. cbn [snd]. split_checks.
  destruct (scan controller_turn [] (snap_Controllers snapshot)) as [e|cs] eqn:Ec; [done|]. split_checks. subst s'.
  apply controllers_checked in Ec as [C1 C2]; [|constructor].
  match goal with Hx : check_all _ _ = None |- _ => apply check_all_None in Hx; rename Hx into Hb end.
  apply (f_equal length) in C2. rewrite length_app, !length_fmap in C2.
  prop_tests. unfold MaxStatusControllers, MaxStatusBindings in *. cbn [length] in C2.
  split; cbn [snap_Controllers snap_Bindings].
  - rewrite (Permutation_length (stable_sort_Permutation _ _)), stable_sort_Permutation. split; [lia|done].
  - rewrite (Permutation_length (stable_sort_Permutation _ _)), stable_sort_Permutation. split; [lia|].
    eapply Forall_impl; [exact Hb|]. apply validateBindingStatus_ok.
  - split; apply stable_sort_sorted; apply _.
Qed.

(** Reasons are low-cardinality identifiers: whatever text a controller
    gives, [SanitizeReason] makes it one to 64 lower-case letters, digits and
    single inner separators, and validation accepts exactly such identifiers
    and the empty reason. *)
Theorem reason_identifiers s :
  sanitized (SanitizeReason s) = true /\
  (validateReason s = None <-> s = ""%string \/ sanitized s = true).
Proof.
  split; [apply SanitizeReason_sanitized|apply validateReason_None].
Qed.

(** C34: A status source only ever holds a well-formed snapshot: after any
    sequence of [Publish] calls, accepted and refused, what [Snapshot] returns
    has at most 64 controllers and 500 bindings, ordered by their names, each
    with the required identifiers, a known health or state, non-negative
    counters, an activation that starts before its deadline and sanitized
    reasons; and it is the last accepted publication. *)
Theorem published_status_typed publications ctx_Err now snapshot :
  let s := foldl (fun s p => (Publish s p.1 p.2).2) NewMemoryStatusSource publications in
  source_Snapshot ctx_Err s now = inr snapshot ->
  snapshot_ok snapshot /\
  snap_Controllers snapshot = snap_Controllers s /\ snap_Bindings snapshot = snap_Bindings s /\
  forall now' published,
    match Publish s now' published with
    | (Some _, s') => s' = s
    | (None, s') => snap_Bindings s' ≡ₚ snap_Bindings published /\
        cst_Controller <$> snap_Controllers s' ≡ₚ cst_Controller <$> snap_Controllers published
    end.
Proof.
  intros s Hs. assert (Hok : snapshot_ok s).
  { clear Hs. unfold s. clear s. assert (H0 : snapshot_ok NewMemoryStatusSource) by (split; split; cbn; try lia; constructor).
    revert H0. generalize NewMemoryStatusSource. induction publications as [|p ps IH]; intros s0 H0; [done|].
    cbn. by apply IH, Publish_ok. }
  clearbody s. unfold source_Snapshot in Hs. destruct ctx_Err; [done|]. injection Hs as <-.
  split_and!.
  - destruct (time_IsZero _); [|done]. by destruct Hok.
  - by destruct (time_IsZero _).
  - by destruct (time_IsZero _).
  - intros now' published. unfold Publish. destruct (_ ?; _) as [e|s'] eqn:E; [done|]. split_checks.
    destruct (scan controller_turn [] (snap_Controllers published)) as [e|cs] eqn:Ec; [done|]. split_checks. subst s'.
    apply controllers_checked in Ec as [_ Ec]; [|constructor]. cbn [snap_Controllers snap_Bindings].
    rewrite !stable_sort_Permutation. by rewrite Ec.
Qed.

End Theorems.

(** ** A concrete publication *)
#[local] Instance plain : UnicodeTables := {| unicode_ToLower s := s; unicode_TrimSpace s := s |}.

(** An accepted publication, and one that is refused. *)
Definition published : Snapshot :=
  mkSnapshot 7 [mkControllerStatus "b" "" 5 0 0 0 0 0 0 "";
                mkControllerStatus "a" "healthy" 5 1 1 1 0 0 0 "disk_full"] [].
Definition refused : Snapshot := mkSnapshot 8 [mkControllerStatus "" "" 5 0 0 0 0 0 0 ""] [].

Definition source : Snapshot :=
  foldl (fun s p => (Publish s p.1 p.2).2) NewMemoryStatusSource [(9, published); (9, refused)].

Lemma published_status_typed_witness :
  exists snapshot, source_Snapshot None source 10 = inr snapshot /\
    cst_Controller <$> snap_Controllers snapshot = ["a"; "b"]%string /\ snapshot_ok snapshot.
Proof.
  eexists. split; [vm_compute; reflexivity|]. split; [reflexivity|].
  apply (published_status_typed [(9, published); (9, refused)] None 10). vm_compute. reflexivity.
Defined.
