(* ===== verification/Admission.v ===== *)
(** * The admission coordinator: state and critical sections
    ([pkg/lifecycle/coordinator.go])

    What [NewAdmissionCoordinator] builds, the checks of an endpoint, and every
    critical section of [AdmissionCoordinator.mu] as a function of the guarded
    state.  [None] is a Go panic: a nil binding state.  [Coordinator.v] composes
    the sections into the methods. *)

From stdpp Require Import base gmap list strings pretty.
From Stdlib Require Import Ascii ZArith Lia.
From S2P Require Import Prelude GoStrings Policies Capabilities Config Fields Settings.
From S2P Require Import Endpoints Lifecycle LifecycleStatus.

Local Open Scope Z_scope.
Local Open Scope go_scope.

(** ** Errors

    What [errors.Is] can tell apart, and the text of the others. *)
Inductive error :=
  | ErrDeadlineExceeded
  | ErrCanceled
  | ErrUnknownDeployment
  | ErrEndpointNotReady
  | ErrColdStartRejected
  | ErrQueueFull
  | ErrQueueBytes
  | ErrInvalidEndpoint (detail : string)
  | ErrText (text : string)
  | AdmissionError (reason : string) (retryAfter : Z) (cause : error).

(** [errors.Is(err, target)]: an [AdmissionError] unwraps to its cause. *)
Fixpoint errors_Is (target : error -> bool) (err : error) : bool :=
  target err || match err with AdmissionError _ _ cause => errors_Is target cause | _ => false end.

Definition is_deadline (e : error) : bool := match e with ErrDeadlineExceeded => true | _ => false end.
Definition is_canceled (e : error) : bool := match e with ErrCanceled => true | _ => false end.
Definition is_queue_bytes (e : error) : bool := match e with ErrQueueBytes => true | _ => false end.
Definition is_invalid_endpoint (e : error) : bool :=
  match e with ErrInvalidEndpoint _ => true | _ => false end.

(** ** Requests, leases and statuses *)
Record AdmissionRequest := mkAdmissionRequest {
  ar_Deployment : string;
  ar_Features : RequestFeatures;
  ar_BodyBytes : Z;
}.

(** The fields of [AdmissionLease] but the released flag, which its owner's
    [Release] swaps; [al_controller] is the name of the lease's controller. *)
Record AdmissionLease := mkAdmissionLease {
  al_Endpoint : Endpoint;
  al_deployment : string;
  al_controllerLease : option (string * Lease);
}.

Record RequestOutcome := mkRequestOutcome {
  ro_HealthObserved : bool;
  ro_CircuitOpened : bool;
  ro_HalfOpenProbe : bool;
  ro_BackendFailure : bool;
  ro_Success : bool;
  ro_Error : string;
}.

(** What a controller reports of a binding. *)
Record Status := mkStatus {
  st_Prepared : bool;
  st_Recovery : option RecoveryStatus;
  st_PluginsInUse : list string;
  st_LifecycleActions : list string;
  st_Owned : option bool;
  st_Phase : string;
  st_JobID : string;
  st_State : string;
  st_Endpoint : option Endpoint;
  st_UpdatedAt : Z;
  st_Reason : string;
}.

(** The zero value of a status. *)
Definition no_status : Status := mkStatus false None [] [] None "" "" "" None 0 "".

(** ** The coordinator *)

(** The immutable part of [AdmissionCoordinator]: whether the interfaces are
    set, and the names of the controllers that are. *)
Record AdmissionCoordinator := mkAdmissionCoordinator {
  ac_registry : bool;
  ac_inspector : bool;
  ac_authorizer : bool;
  ac_controllers : gset string;
  ac_instanceID : string;
  ac_pollInterval : Z;
  ac_retryAfter : Z;
  ac_targets : gmap string Target;
}.

Record admissionBindingState := mkAdmissionBindingState {
  abs_state : string;
  abs_updatedAt : Z;
  abs_activationStarted : option Z;
  abs_activationDeadline : option Z;
  abs_endpointID : string;
  abs_activeLeases : Z;
  abs_queuedWaiters : Z;
  abs_queuedBodyBytes : Z;
  abs_reason : string;
}.

Definition set_abs_queue (waiters bytes updatedAt : Z) (s : admissionBindingState)
  : admissionBindingState :=
  let '(mkAdmissionBindingState st _ ss dl id al _ _ re) := s in
  mkAdmissionBindingState st updatedAt ss dl id al waiters bytes re.
Definition set_abs_activeLeases (v updatedAt : Z) (s : admissionBindingState)
  : admissionBindingState :=
  let '(mkAdmissionBindingState st _ ss dl id _ qw qb re) := s in
  mkAdmissionBindingState st updatedAt ss dl id v qw qb re.

(** The state that [mu] guards. *)
Record admissionState := mkAdmissionState {
  as_bindings : gmap string admissionBindingState;
  as_endpointActive : gmap string Z;
}.

Definition set_binding (key : string) (b : admissionBindingState) (s : admissionState)
  : admissionState :=
  mkAdmissionState (<[key := b]> (as_bindings s)) (as_endpointActive s).

(** [c.endpointActive[id]] *)
Definition active_of (s : admissionState) (id : string) : Z := default 0 (as_endpointActive s !! id).

(** ** Construction *)
(** Whether the interfaces are set, and whether the registry implements
    [Inspector]. *)
Record AdmissionOptions := mkAdmissionOptions {
  ao_Registry : bool;
  ao_Inspector : bool;
  ao_RegistryInspects : bool;
  ao_Controllers : gset string;
  ao_Authorizer : bool;
  ao_InstanceID : string;
  ao_PollInterval : Z;
  ao_RetryAfter : Z;
}.

Definition defaulted_binding (t : Target) : Binding :=
  let binding := tg_Binding t in
  let binding :=
    if String.eqb (b_Controller binding) "" then set_Controller (tg_Controller t) binding else binding in
  if String.eqb (b_Deployment binding) "" then set_Deployment (tg_Deployment t) binding else binding.

(** A fresh binding state. *)
Definition offline_state (now : Z) : admissionBindingState :=
  mkAdmissionBindingState StateOffline now None None "" 0 0 0 "".

Section AddTarget.
Context (registry authorizer : bool) (controllers : gset string).

(** The case of an activatable target, with [c.bindings]. *)
Definition add_activatable (bindings : gmap string admissionBindingState) (now : Z) (t : Target)
  : string + Target * gmap string admissionBindingState :=
  let binding := defaulted_binding t in
  fail_if (String.eqb (b_Controller binding) "" || String.eqb (b_Revision binding) "" ||
           String.eqb (b_Recipe binding) "" || (b_ActivationTimeout binding <=? 0) ||
           (b_MaxQueuedWaiters binding <=? 0) || (b_MaxQueuedBodyBytes binding <=? 0))
    "activatable target has an incomplete binding" ?;
  fail_if (negb (String.eqb (b_Deployment binding) (tg_Deployment t)))
    "binding deployment does not match target" ?;
  let binding :=
    if String.eqb (b_ColdStart binding) "" then set_ColdStart ColdStartWait binding else binding in
  fail_if (negb (String.eqb (b_ColdStart binding) ColdStartWait) &&
           negb (String.eqb (b_ColdStart binding) ColdStartReject))
    "unsupported cold-start behavior %q" ?;
  fail_if (negb registry || negb authorizer)
    "dynamic targets require a registry and endpoint authorizer" ?;
  fail_if (negb (bool_decide (b_Controller binding ∈ controllers)))
    "controller %q is not configured" ?;
  let t := set_tg_Binding binding (set_tg_Controller (b_Controller binding) t) in
  let key := ActivationKey binding in
  fail_if (bool_decide (is_Some (bindings !! key))) "duplicate activation binding %q" ?;
  inr (t, <[key := offline_state now]> bindings).

(** [AdmissionCoordinator.addTarget] *)
Definition addTarget (acc : gmap string Target * gmap string admissionBindingState) (now : Z)
    (t : Target) : string + gmap string Target * gmap string admissionBindingState :=
  let '(targets, bindings) := acc in
  fail_if (String.eqb (tg_Deployment t) "" || (1024 <? zlen (tg_Deployment t)))
    "deployment is required and must not exceed 1024 bytes" ?;
  fail_if (bool_decide (is_Some (targets !! tg_Deployment t))) "duplicate deployment %q" ?;
  let t := if String.eqb (tg_Source t) "" then set_tg_Source EndpointStatic t else t in
  if String.eqb (tg_Source t) EndpointStatic then
    inr (<[tg_Deployment t := t]> targets, bindings)
  else if String.eqb (tg_Source t) EndpointDiscovered then
    fail_if (String.eqb (tg_Controller t) "") "discovered target controller is required" ?;
    fail_if (negb registry || negb authorizer)
      "dynamic targets require a registry and endpoint authorizer" ?;
    inr (<[tg_Deployment t := t]> targets, bindings)
  else if String.eqb (tg_Source t) EndpointActivatable then
    match add_activatable bindings now t with
    | inl err => inl err
    | inr (t, bindings) => inr (<[tg_Deployment t := t]> targets, bindings)
    end
  else inl "unsupported endpoint source %q"%string.
End AddTarget.

(** The controllers and the activation bindings of the targets so far. *)
Definition target_controller (t : Target) : gset string :=
  if negb (String.eqb (tg_Source t) EndpointStatic) && negb (String.eqb (tg_Controller t) "")
  then {[ tg_Controller t ]} else ∅.

(** One turn of the loop of [NewAdmissionCoordinator]; all clock readings are
    taken to be [now], which only [updatedAt] keeps. *)
Definition target_turn (options : AdmissionOptions) (now : Z)
    (acc : gmap string Target * gmap string admissionBindingState * gset string * Z) (t : Target)
  : string + gmap string Target * gmap string admissionBindingState * gset string * Z :=
  let '(targets, bindings, controllers, activationBindings) := acc in
  match addTarget (ao_Registry options) (ao_Authorizer options) (ao_Controllers options)
          (targets, bindings) now t with
  | inl err => inl (String.append "lifecycle targets[%d]: " err)
  | inr (targets, bindings) =>
      match targets !! tg_Deployment t with
      | None => inr (targets, bindings, controllers, activationBindings)
      | Some configured =>
          inr (targets, bindings, controllers ∪ target_controller configured,
               if String.eqb (tg_Source configured) EndpointActivatable
               then activationBindings + 1 else activationBindings)
      end
  end.

(** [NewAdmissionCoordinator]; [random] is the instance ID of [crypto/rand]. *)
Definition NewAdmissionCoordinator (targets : list Target) (options : AdmissionOptions)
    (random : string + string) (now : Z) : string + AdmissionCoordinator * admissionState :=
  let pollInterval := or_default (ao_PollInterval options) (100 * Millisecond) in
  fail_if ((pollInterval <? 10 * Millisecond) || (Minute <? pollInterval))
    "lifecycle poll interval must be between 10ms and 1m" ?;
  let retryAfter := or_default (ao_RetryAfter options) Second in
  fail_if ((retryAfter <? 0) || (Minute <? retryAfter))
    "lifecycle retry-after must be between zero and 1m" ?;
  match (if String.eqb (ao_InstanceID options) "" then random else inr (ao_InstanceID options)) with
  | inl err => inl (String.append "create lifecycle instance ID: " err)
  | inr instanceID =>
      fail_if (128 <? zlen instanceID) "lifecycle instance ID exceeds 128 bytes" ?;
      match scan (target_turn options now) (∅, ∅, ∅, 0) targets with
      | inl err => inl err
      | inr (targets, bindings, controllers, activationBindings) =>
          fail_if (MaxStatusControllers <? Z.of_nat (size controllers))
            "lifecycle targets exceed %d controllers" ?;
          fail_if (MaxStatusBindings <? activationBindings)
            "lifecycle targets exceed %d activation bindings" ?;
          inr (mkAdmissionCoordinator (ao_Registry options)
                 (ao_Inspector options || (ao_Registry options && ao_RegistryInspects options))
                 (ao_Authorizer options)
                 (ao_Controllers options) instanceID pollInterval retryAfter targets,
               mkAdmissionState bindings ∅)
      end
  end.

(** ** Read-only questions *)
Definition IsDynamic (c : AdmissionCoordinator) (deployment : string) : bool :=
  match ac_targets c !! deployment with
  | Some target => negb (String.eqb (tg_Source target) EndpointStatic)
  | None => false
  end.

Definition IsActivatable (c : AdmissionCoordinator) (deployment : string) : bool :=
  match ac_targets c !! deployment with
  | Some target => String.eqb (tg_Source target) EndpointActivatable
  | None => false
  end.

(** [AdmissionCoordinator.Eligible] *)
Definition Eligible (c : AdmissionCoordinator) (deployment : string) : bool :=
  match ac_targets c !! deployment with
  | None => false
  | Some target =>
      if String.eqb (tg_Source target) EndpointStatic then true
      else if String.eqb (tg_Source target) EndpointDiscovered then ac_registry c
      else if String.eqb (tg_Source target) EndpointActivatable then
        ac_registry c && ac_authorizer c &&
        bool_decide (b_Controller (tg_Binding target) ∈ ac_controllers c)
      else false
  end.

(** ** Endpoints *)
Section Endpoints.
Context `{NetURL}.

(** The checks of [validateEndpoint] before the authorizer is asked. *)
Definition endpoint_mismatch (target : Target) (e : Endpoint) : option string :=
  first_error [
    fail_if (bool_decide (is_Some (ValidateEndpoint e))) "malformed registration";
    fail_if (negb (String.eqb (ep_Target e) (tg_Deployment target)) ||
             negb (String.eqb (ep_State e) StateReady)) "target or state mismatch";
    fail_if (negb (String.eqb (tg_Source target) EndpointStatic) &&
             negb (String.eqb (ep_Controller e) (tg_Controller target))) "controller mismatch";
    (if String.eqb (tg_Source target) EndpointActivatable then
       first_error [
         fail_if (negb (String.eqb (ep_BindingRevision e) (b_Revision (tg_Binding target))) ||
                  (ep_FencingToken e <=? 0)) "activation binding mismatch";
         fail_if (negb (String.eqb (b_RecipeRevision (tg_Binding target)) "") &&
                  negb (String.eqb (ep_RecipeRevision e) (b_RecipeRevision (tg_Binding target))))
           "recipe revision mismatch"]
     else None);
    fail_if (negb (String.eqb (tg_Protocol target) "") &&
             negb (String.eqb (ep_Protocol e) (tg_Protocol target))) "protocol mismatch";
    fail_if (negb (String.eqb (tg_UpstreamModel target) "") &&
             (0 <? Z.of_nat (length (ep_ServedModels e))) &&
             negb (existsb (fun model => String.eqb model (tg_UpstreamModel target)) (ep_ServedModels e)))
      "served model mismatch"].
End Endpoints.

Definition sameRuntimeRegistration (left right : Endpoint) : bool :=
  String.eqb (ep_ID left) (ep_ID right) && String.eqb (ep_Target left) (ep_Target right) &&
  String.eqb (ep_BaseURL left) (ep_BaseURL right) && String.eqb (ep_Protocol left) (ep_Protocol right) &&
  String.eqb (ep_Controller left) (ep_Controller right) &&
  String.eqb (ep_ClusterID left) (ep_ClusterID right) && String.eqb (ep_JobID left) (ep_JobID right) &&
  String.eqb (ep_BindingRevision left) (ep_BindingRevision right) &&
  String.eqb (ep_RecipeRevision left) (ep_RecipeRevision right) &&
  (ep_FencingToken left =? ep_FencingToken right) && String.eqb (ep_State left) (ep_State right) &&
  (ep_MaxConcurrency left =? ep_MaxConcurrency right) &&
  bool_decide (ep_ServedModels left = ep_ServedModels right).

(** ** Critical sections

    Each is a command with the type of its answer; [run_section] executes it
    with the clock reading [now] that it makes while it holds the lock. *)
Inductive section : Type -> Type :=
  | ReadActive (endpointID : string) : section Z
  | Enqueue (binding : Binding) (bodyBytes : Z) : section (option error)
  | Dequeue (binding : Binding) (bodyBytes : Z) : section unit
  | AdmitEndpoint (target : Target) (endpoint : Endpoint) (controllerLease : option (string * Lease))
      (enforceCapacity : bool) : section (error + AdmissionLease)
  | Transition (binding : Binding) (newState reason : string) (endpoint : option Endpoint) (now : Z)
      : section (string * Z)
  | ReadState (binding : Binding) : section string
  | ReadBindings : section (gmap string admissionBindingState)
  | ReleaseLease (target : option Target) (endpointID : string) : section unit.

(** [enqueue]; the error becomes an [AdmissionError] of the coordinator. *)
Definition enqueue (s : admissionState) (now : Z) (binding : Binding) (bodyBytes : Z)
  : option (option error * admissionState) :=
  let key := ActivationKey binding in
  state ← as_bindings s !! key;
  if b_MaxQueuedWaiters binding <=? abs_queuedWaiters state then Some (Some ErrQueueFull, s)
  else if int64 (b_MaxQueuedBodyBytes binding - abs_queuedBodyBytes state) <? bodyBytes then
    Some (Some ErrQueueBytes, s)
  else
    let state := set_abs_queue (abs_queuedWaiters state + 1)
                   (int64 (abs_queuedBodyBytes state + bodyBytes)) now state in
    Some (None, set_binding key state s).

Definition dequeue (s : admissionState) (now : Z) (binding : Binding) (bodyBytes : Z)
  : option (unit * admissionState) :=
  let key := ActivationKey binding in
  state ← as_bindings s !! key;
  let waiters := if 0 <? abs_queuedWaiters state then abs_queuedWaiters state - 1
                 else abs_queuedWaiters state in
  let bytes := if bodyBytes <=? abs_queuedBodyBytes state
               then int64 (abs_queuedBodyBytes state - bodyBytes) else 0 in
  Some (tt, set_binding key (set_abs_queue waiters bytes now state) s).

(** The binding state after an admission. *)
Definition admitted_state (endpointID : string) (now : Z) (state : admissionBindingState)
  : admissionBindingState :=
  let '(mkAdmissionBindingState _ _ ss dl _ al qw qb _) := state in
  mkAdmissionBindingState StateReady now ss dl endpointID (al + 1) qw qb "".

Definition admitEndpoint (s : admissionState) (now : Z) (target : Target) (endpoint : Endpoint)
    (controllerLease : option (string * Lease)) (enforceCapacity : bool)
  : option ((error + AdmissionLease) * admissionState) :=
  let id := ep_ID endpoint in
  if enforceCapacity && (0 <? ep_MaxConcurrency endpoint) &&
     (ep_MaxConcurrency endpoint <=? int64 (ep_ActiveRequests endpoint + active_of s id))
  then Some (inl ErrEndpointNotReady, s)
  else
    let s := mkAdmissionState (as_bindings s) (<[id := active_of s id + 1]> (as_endpointActive s)) in
    let lease := mkAdmissionLease endpoint (tg_Deployment target) controllerLease in
    if String.eqb (tg_Source target) EndpointActivatable then
      let key := ActivationKey (tg_Binding target) in
      state ← as_bindings s !! key;
      Some (inr lease, set_binding key (admitted_state id now state) s)
    else Some (inr lease, s).

(** The critical section of [transition]: the prior state and the waiters. *)
Definition transition (s : admissionState) (binding : Binding) (newState reason : string)
    (endpoint : option Endpoint) (now : Z) : option (string * Z * admissionState) :=
  let key := ActivationKey binding in
  state ← as_bindings s !! key;
  let activating := String.eqb newState StateActivating in
  let state' :=
    {| abs_state := newState;
       abs_updatedAt := now;
       abs_activationStarted := if activating then Some now else None;
       abs_activationDeadline :=
         if activating then Some (time_Add now (b_ActivationTimeout binding)) else None;
       abs_endpointID := match endpoint with Some e => ep_ID e | None => abs_endpointID state end;
       abs_activeLeases := abs_activeLeases state;
       abs_queuedWaiters := abs_queuedWaiters state;
       abs_queuedBodyBytes := abs_queuedBodyBytes state;
       abs_reason := reason |} in
  Some (abs_state state, abs_queuedWaiters state, set_binding key state' s).

(** The critical section of [Release], after the swap of the released flag. *)
Definition release_lease (s : admissionState) (now : Z) (target : option Target) (endpointID : string)
  : option (unit * admissionState) :=
  let active := if 1 <? active_of s endpointID
                then <[endpointID := active_of s endpointID - 1]> (as_endpointActive s)
                else delete endpointID (as_endpointActive s) in
  let s := mkAdmissionState (as_bindings s) active in
  match target with
  | Some target =>
      if String.eqb (tg_Source target) EndpointActivatable then
        let key := ActivationKey (tg_Binding target) in
        state ← as_bindings s !! key;
        let leases := if 0 <? abs_activeLeases state then abs_activeLeases state - 1
                      else abs_activeLeases state in
        Some (tt, set_binding key (set_abs_activeLeases leases now state) s)
      else Some (tt, s)
  | None => Some (tt, s)
  end.

Definition run_section {A} (sec : section A) (now : Z) (s : admissionState)
  : option (A * admissionState) :=
  match sec in section A return option (A * admissionState) with
  | ReadActive id => Some (active_of s id, s)
  | Enqueue binding bodyBytes => enqueue s now binding bodyBytes
  | Dequeue binding bodyBytes => dequeue s now binding bodyBytes
  | AdmitEndpoint target endpoint lease enforce => admitEndpoint s now target endpoint lease enforce
  | Transition binding newState reason endpoint now => transition s binding newState reason endpoint now
  | ReadState binding => state ← as_bindings s !! ActivationKey binding; Some (abs_state state, s)
  | ReadBindings => Some (as_bindings s, s)
  | ReleaseLease target id => release_lease s now target id
  end.
