(* ===== verification/Coordinator.v ===== *)
(** * The admission coordinator: methods ([pkg/lifecycle/coordinator.go])

    Each method is an interaction tree: the critical sections of [Admission.v]
    and the calls that leave the coordinator (registry, controllers, activation
    coordinator, authorizer, recorder, clock, contexts) are its events, so that
    threads interleave between any two of them and the answers of the outside
    are arbitrary.  The two polling loops are [ITree.iter]. *)

From stdpp Require Import base gmap list strings pretty sorting.
From Stdlib Require Import Ascii ZArith Lia.
From ITree Require Import ITree.
From S2P Require Import Prelude GoStrings Policies Capabilities Config Fields Settings.
From S2P Require Import Endpoints Ledger Lifecycle LifecycleStatus Admission.

Local Open Scope Z_scope.

(** Sequencing of trees. *)
#[global] Notation "'let*' x ':=' t 'in' k" := (ITree.bind t (fun x => k))
  (at level 10, x name, t at level 200, k at level 200) : go_scope.
Local Open Scope go_scope.

(** ** Events

    [Iterate] is the order in which [range] visits the keys of a map. *)
Inductive coordE : Type -> Type :=
  | Locked {A} (sec : section A) : coordE A
  | Now : coordE Z
  | NextEvent : coordE Z
  | CtxErr : coordE (option error)
  | Tick : coordE (option error)
  | Iterate (keys : gset string) : coordE (list string)
  | RegistryReady (target : string) : coordE (error + list Endpoint)
  | InspectorList (query : Query) : coordE (error + Page)
  | AuthorizeEndpoint (endpoint : Endpoint) : coordE (option error)
  | EnsureReady (controller : string) (binding : Binding) (features : RequestFeatures)
      : coordE (error + Lease)
  | ControllerRelease (controller : string) (lease : Lease) (outcome : RequestOutcome)
      : coordE (option error)
  | ReadStatus (controller : string) (binding : Binding) : coordE (error + Status)
  | ActivationsBegin (key holder : string) (ttl : Z) : coordE (error + ActivationClaim)
  | ActivationsComplete (claim : ActivationClaim) : coordE (option error)
  | RecordEvent (event : RuntimeEventRecord) : coordE unit.

Definition call {A} (e : coordE A) : itree coordE A := ITree.trigger e.
Definition locked {A} (sec : section A) : itree coordE A := call (Locked sec).

(** [Time.UnixNano] *)
Definition UnixNano (t : Z) : Z := int64 (t - 62135596800 * Second).

Section Methods.
Context `{NetURL} (c : AdmissionCoordinator).

Definition admissionError (reason : string) (cause : error) : error :=
  AdmissionError reason (ac_retryAfter c) cause.

(** [eventID] *)
Definition eventID (now : Z) : itree coordE string :=
  let* n := call NextEvent in
  Ret ("runtime-" +:+ ac_instanceID c +:+ "-" +:+ pretty (UnixNano now) +:+ "-" +:+ pretty n)%string.

(** ** Endpoints *)

(** [validateEndpoint] *)
Definition validateEndpoint (target : Target) (endpoint : Endpoint) : itree coordE (error + Endpoint) :=
  match endpoint_mismatch target endpoint with
  | Some detail => Ret (inl (ErrInvalidEndpoint detail))
  | None =>
      let* err := call (AuthorizeEndpoint endpoint) in
      match err with
      | Some _ => Ret (inl (ErrInvalidEndpoint "endpoint is not authorized"))
      | None => Ret (inr endpoint)
      end
  end.

(** The loop of [readyEndpoint] over the endpoints by ID. *)
Fixpoint first_ready (target : Target) (endpoints : list Endpoint) : itree coordE (error + Endpoint) :=
  match endpoints with
  | [] => Ret (inl ErrEndpointNotReady)
  | endpoint :: rest =>
      let* v := validateEndpoint target endpoint in
      match v with
      | inl _ => first_ready target rest
      | inr endpoint =>
          let* active := locked (ReadActive (ep_ID endpoint)) in
          if (0 <? ep_MaxConcurrency endpoint) &&
             (ep_MaxConcurrency endpoint <=? int64 (ep_ActiveRequests endpoint + active))
          then first_ready target rest
          else Ret (inr endpoint)
      end
  end.

(** [readyEndpoint] *)
Definition readyEndpoint (target : Target) : itree coordE (error + Endpoint) :=
  let* r := call (RegistryReady (tg_Deployment target)) in
  match r with
  | inl err => Ret (inl err)
  | inr endpoints => first_ready target (stable_sort by_ID endpoints)
  end.

(** The loop of [validateControllerLease] over the registered endpoints. *)
Fixpoint find_registered (target : Target) (endpoint : Endpoint) (registered : list Endpoint)
  : itree coordE (error + Endpoint) :=
  match registered with
  | [] => Ret (inl (ErrInvalidEndpoint "endpoint is not ready in registry"))
  | candidate :: rest =>
      let* v := validateEndpoint target candidate in
      match v with
      | inr candidate =>
          if sameRuntimeRegistration candidate endpoint then Ret (inr candidate)
          else find_registered target endpoint rest
      | inl _ => find_registered target endpoint rest
      end
  end.

(** [validateControllerLease]; [expected] is the ID of the expected endpoint. *)
Definition validateControllerLease (target : Target) (lease : Lease) (expected : string)
  : itree coordE (error + Endpoint) :=
  if String.eqb (l_ID lease) "" then Ret (inl (ErrInvalidEndpoint "lease ID is empty"))
  else
    let* v := validateEndpoint target (l_Endpoint lease) in
    match v with
    | inl err => Ret (inl err)
    | inr endpoint =>
        if negb (String.eqb expected "") && negb (String.eqb (ep_ID endpoint) expected) then
          Ret (inl (ErrInvalidEndpoint "lease endpoint changed"))
        else
          let* r := call (RegistryReady (tg_Deployment target)) in
          match r with
          | inl _ => Ret (inl (ErrInvalidEndpoint "registry read failed"))
          | inr registered => find_registered target endpoint registered
          end
    end.

(** ** State changes *)

(** [transition] *)
Definition transition (binding : Binding) (virtualModel newState reason : string)
    (outcome : RuntimeOutcome) (endpoint : option Endpoint) (latency : option Z) : itree coordE unit :=
  let* now := call Now in
  let* r := locked (Transition binding newState reason endpoint now) in
  let '(prior, waiters) := r in
  let* id := eventID now in
  call (RecordEvent
    {| re_EventID := id;
       re_OccurredAt := now;
       re_Controller := b_Controller binding;
       re_BindingRevision := b_Revision binding;
       re_VirtualModel := virtualModel;
       re_Deployment := b_Deployment binding;
       re_EndpointInstance := match endpoint with Some e => ep_ID e | None => "" end;
       re_ClusterID := match endpoint with Some e => ep_ClusterID e | None => "" end;
       re_JobID := match endpoint with Some e => ep_JobID e | None => "" end;
       re_RecipeRevision :=
         match endpoint with
         | Some e => or_default_str (b_RecipeRevision binding) (ep_RecipeRevision e)
         | None => b_RecipeRevision binding
         end;
       re_PriorState := prior;
       re_NewState := newState;
       re_Reason := reason;
       re_Latency := latency;
       re_QueueDepth := waiters;
       re_WaiterCount := waiters;
       re_Outcome := outcome |}).

(** The reason and outcome of [activationFailure]. *)
Definition failure_reason (err : error) : string * RuntimeOutcome :=
  if errors_Is is_deadline err then ("activation_timeout"%string, RuntimeOutcomeTimeout)
  else if errors_Is is_canceled err then ("activation_cancelled"%string, RuntimeOutcomeCancelled)
  else if errors_Is is_invalid_endpoint err then ("invalid_endpoint"%string, RuntimeOutcomeFailure)
  else ("controller_failure"%string, RuntimeOutcomeFailure).

(** [activationFailure] *)
Definition activationFailure (binding : Binding) (virtualModel : string) (err : error)
  : itree coordE error :=
  let '(reason, outcome) := failure_reason err in
  let* _ := transition binding virtualModel StateFailed reason outcome None None in
  Ret (admissionError reason err).

(** [recordRejected] *)
Definition recordRejected (binding : Binding) (virtualModel reason : string) : itree coordE unit :=
  let* current := locked (ReadState binding) in
  transition binding virtualModel current reason RuntimeOutcomeRejected None None.

(** ** Admission *)
Definition release_failed (controller : string) (lease : Lease) (err : string)
  : itree coordE (option error) :=
  call (ControllerRelease controller lease (mkRequestOutcome false false false false false err)).

(** [acquireControllerLease] *)
Definition acquireControllerLease (target : Target) (features : RequestFeatures) (expected : string)
  : itree coordE (error + AdmissionLease) :=
  let binding := tg_Binding target in
  let controller := b_Controller binding in
  let* r := call (EnsureReady controller binding features) in
  match r with
  | inl err => let* err := activationFailure binding (rq_VirtualModel features) err in Ret (inl err)
  | inr lease =>
      let* v := validateControllerLease target lease expected in
      match v with
      | inl err =>
          let* _ := release_failed controller lease "invalid_endpoint" in
          let* err := activationFailure binding (rq_VirtualModel features) err in
          Ret (inl err)
      | inr endpoint => locked (AdmitEndpoint target endpoint (Some (controller, lease)) false)
      end
  end.

(** [activateOwner] *)
Definition activateOwner (target : Target) (features : RequestFeatures) (claim : ActivationClaim)
  : itree coordE (error + AdmissionLease) :=
  let binding := tg_Binding target in
  let controller := b_Controller binding in
  let fail err := (let* err := activationFailure binding (rq_VirtualModel features) err in Ret (inl err)) in
  let* _ := transition binding (rq_VirtualModel features) StateActivating "activation_started"
    RuntimeOutcomeSuccess None None in
  let* started := call Now in
  let* r := call (EnsureReady controller (set_FencingToken (ac_FencingToken claim) binding) features) in
  match r with
  | inl err => let* _ := call (ActivationsComplete claim) in fail err
  | inr lease =>
      if negb (String.eqb (ep_BindingRevision (l_Endpoint lease)) (b_Revision binding)) ||
         negb (ep_FencingToken (l_Endpoint lease) =? ac_FencingToken claim)
      then
        let* _ := call (ActivationsComplete claim) in
        let* _ := release_failed controller lease "invalid_fencing_token" in
        fail (ErrInvalidEndpoint "")
      else
        let* v := validateControllerLease target lease "" in
        match v with
        | inl err =>
            let* _ := call (ActivationsComplete claim) in
            let* _ := release_failed controller lease "invalid_endpoint" in
            fail err
        | inr endpoint =>
            let* completeErr := call (ActivationsComplete claim) in
            match completeErr with
            | Some err => let* _ := release_failed controller lease "activation_claim_lost" in fail err
            | None =>
                let* finished := call Now in
                let* _ := transition binding (rq_VirtualModel features) StateReady "activation_ready"
                  RuntimeOutcomeSuccess (Some endpoint) (Some (time_Sub finished started)) in
                locked (AdmitEndpoint target endpoint (Some (controller, lease)) false)
            end
        end
  end.

(** One turn of the loop of [observeActivation]: the result to return, or
    another turn after the ticker. *)
Definition observe_turn (target : Target) (binding : Binding) (claim : ActivationClaim)
  : itree coordE (unit + (error + option Endpoint)) :=
  let wait :=
    let* now := call Now in
    if negb (time_Before now (ac_ExpiresAt claim)) then Ret (inr (inr None))
    else
      let* done := call Tick in
      match done with
      | Some err => Ret (inr (inl err))
      | None => Ret (inl tt)
      end in
  let* r := readyEndpoint target in
  match r with
  | inr endpoint => Ret (inr (inr (Some endpoint)))
  | inl _ =>
      let* s := call (ReadStatus (b_Controller binding) binding) in
      match s with
      | inl _ => wait
      | inr status =>
          if String.eqb (st_State status) StateFailed then
            Ret (inr (inl (ErrText "controller reported activation failure")))
          else
            match st_Endpoint status with
            | Some endpoint =>
                if String.eqb (st_State status) StateReady then
                  let* v := validateEndpoint target endpoint in
                  match v with
                  | inr endpoint => Ret (inr (inr (Some endpoint)))
                  | inl _ => wait
                  end
                else wait
            | None => wait
            end
      end
  end.

(** [observeActivation]: an endpoint, nothing when the claim expired, or an error. *)
Definition observeActivation (target : Target) (binding : Binding) (claim : ActivationClaim)
  : itree coordE (error + option Endpoint) :=
  ITree.iter (fun _ : unit => observe_turn target binding claim) tt.

(** One turn of the claim loop of [acquireActivatable]. *)
Definition claim_turn (target : Target) (features : RequestFeatures) (holder : string)
  : itree coordE (unit + (error + AdmissionLease)) :=
  let binding := tg_Binding target in
  let fail err := (let* err := activationFailure binding (rq_VirtualModel features) err in
                   Ret (inr (inl err))) in
  let* r := call (ActivationsBegin (ActivationKey binding) holder (b_ActivationTimeout binding)) in
  match r with
  | inl err => fail err
  | inr claim =>
      if is_owner (ac_Disposition claim) then
        let* lease := activateOwner target features claim in Ret (inr lease)
      else
        let* o := observeActivation target binding claim in
        match o with
        | inl err => fail err
        | inr (Some endpoint) =>
            let* lease := acquireControllerLease target features (ep_ID endpoint) in Ret (inr lease)
        | inr None => Ret (inl tt)
        end
  end.

(** [acquireActivatable] from the queue on. *)
Definition queue_and_activate (target : Target) (features : RequestFeatures) (bodyBytes : Z)
  : itree coordE (error + AdmissionLease) :=
  let binding := tg_Binding target in
  let* full := locked (Enqueue binding bodyBytes) in
  match full with
  | Some err =>
      let* r := readyEndpoint target in
      match r with
      | inr endpoint => acquireControllerLease target features (ep_ID endpoint)
      | inl _ =>
          let reason := if errors_Is is_queue_bytes err then "queue_bytes_exceeded"%string
                        else "queue_waiters_exceeded"%string in
          let* _ := recordRejected binding (rq_VirtualModel features) reason in
          Ret (inl (admissionError reason err))
      end
  | None =>
      let* n := call NextEvent in
      let holder := (ac_instanceID c +:+ "-" +:+ pretty n)%string in
      let* result := ITree.iter (fun _ : unit => claim_turn target features holder) tt in
      let* _ := locked (Dequeue binding bodyBytes) in
      Ret result
  end.

(** [acquireActivatable] *)
Definition acquireActivatable (target : Target) (request : AdmissionRequest)
  : itree coordE (error + AdmissionLease) :=
  let binding := tg_Binding target in
  let features := ar_Features request in
  let* ready := readyEndpoint target in
  match ready with
  | inr endpoint => acquireControllerLease target features (ep_ID endpoint)
  | inl _ =>
      if rq_PreparedOnly features then
        Ret (inl (admissionError "endpoint_not_ready" ErrEndpointNotReady))
      else if String.eqb (b_ColdStart binding) ColdStartReject then
        let* s := call (ReadStatus (b_Controller binding) binding) in
        match s with
        | inr status =>
            if st_Prepared status then
              queue_and_activate target (set_PreparedOnly true features) (ar_BodyBytes request)
            else
              let* _ := recordRejected binding (rq_VirtualModel features) "cold_start_rejected" in
              Ret (inl (admissionError "cold_start_rejected" ErrColdStartRejected))
        | inl _ =>
            let* _ := recordRejected binding (rq_VirtualModel features) "cold_start_rejected" in
            Ret (inl (admissionError "cold_start_rejected" ErrColdStartRejected))
        end
      else queue_and_activate target features (ar_BodyBytes request)
  end.

(** The attempts of [Acquire] at a discovered target. *)
Fixpoint acquire_discovered (attempts : nat) (target : Target)
  : itree coordE (error + option AdmissionLease) :=
  match attempts with
  | O => Ret (inl (admissionError "endpoint_not_ready" ErrEndpointNotReady))
  | S attempts =>
      let* r := readyEndpoint target in
      match r with
      | inl _ => Ret (inl (admissionError "endpoint_not_ready" ErrEndpointNotReady))
      | inr endpoint =>
          let* lease := locked (AdmitEndpoint target endpoint None true) in
          match lease with
          | inr lease => Ret (inr (Some lease))
          | inl _ => acquire_discovered attempts target
          end
      end
  end.

Definition with_lease (r : error + AdmissionLease) : error + option AdmissionLease :=
  match r with inl err => inl err | inr lease => inr (Some lease) end.

(** [AdmissionCoordinator.Acquire]: no lease for a static target. *)
Definition Acquire (request : AdmissionRequest) : itree coordE (error + option AdmissionLease) :=
  let* ctxErr := call CtxErr in
  match ctxErr with
  | Some err => Ret (inl err)
  | None =>
      if ar_BodyBytes request <? 0 then Ret (inl (ErrText "queued body bytes must not be negative"))
      else
        match ac_targets c !! ar_Deployment request with
        | None => Ret (inl ErrUnknownDeployment)
        | Some target =>
            if String.eqb (tg_Source target) EndpointStatic then Ret (inr None)
            else if String.eqb (tg_Source target) EndpointDiscovered then acquire_discovered 2 target
            else if String.eqb (tg_Source target) EndpointActivatable then
              let* r := acquireActivatable target request in Ret (with_lease r)
            else Ret (inl ErrUnknownDeployment)
        end
  end.

(** [AdmissionCoordinator.Release] after the swap of the released flag. *)
Definition Release (lease : AdmissionLease) (outcome : RequestOutcome) : itree coordE (option error) :=
  let* _ := locked (ReleaseLease (ac_targets c !! al_deployment lease) (ep_ID (al_Endpoint lease))) in
  match al_controllerLease lease with
  | Some (controller, l) => call (ControllerRelease controller l outcome)
  | None => Ret None
  end.

Definition start_features : RequestFeatures := mkRequestFeatures false true "" "" false.

(** [AdmissionCoordinator.Start] *)
Definition Start (deployment : string) : itree coordE (error + Endpoint) :=
  match ac_targets c !! deployment with
  | None => Ret (inl ErrUnknownDeployment)
  | Some target =>
      if negb (String.eqb (tg_Source target) EndpointActivatable) then Ret (inl ErrUnknownDeployment)
      else
        let target := set_tg_Binding (set_ColdStart ColdStartWait (tg_Binding target)) target in
        let* r := acquireActivatable target (mkAdmissionRequest deployment start_features 0) in
        match r with
        | inl err => Ret (inl err)
        | inr lease =>
            let* released := Release lease (mkRequestOutcome false false false false true "") in
            match released with
            | Some err => Ret (inl err)
            | None => Ret (inr (al_Endpoint lease))
            end
        end
  end.

(** [AdmissionCoordinator.Ready] *)
Definition Ready (deployment : string) : itree coordE bool :=
  match ac_targets c !! deployment with
  | None => Ret false
  | Some target =>
      if negb (Eligible c deployment) then Ret false
      else if String.eqb (tg_Source target) EndpointStatic then Ret true
      else if negb (ac_authorizer c) then Ret false
      else
        let* r := readyEndpoint target in
        Ret (match r with inr _ => true | inl _ => false end)
  end.

(** ** Status *)

Definition new_aggregate (controller : string) (observedAt : Z) : ControllerStatus :=
  mkControllerStatus controller ControllerHealthy observedAt 0 0 0 0 0 0 "".

Definition add_ready (ready : Z) (a : ControllerStatus) : ControllerStatus :=
  let '(mkControllerStatus co he ua bi en re al qw qb rs) := a in
  mkControllerStatus co he ua bi (int64 (en + ready)) (int64 (re + ready)) al qw qb rs.

Definition add_binding (state : admissionBindingState) (a : ControllerStatus) : ControllerStatus :=
  let '(mkControllerStatus co he ua bi en re al qw qb rs) := a in
  mkControllerStatus co he ua (int64 (bi + 1)) en re (int64 (al + abs_activeLeases state))
    (int64 (qw + abs_queuedWaiters state)) (int64 (qb + abs_queuedBodyBytes state)) rs.

Definition set_Endpoints (v : Z) (a : ControllerStatus) : ControllerStatus :=
  let '(mkControllerStatus co he ua bi _ re al qw qb rs) := a in
  mkControllerStatus co he ua bi v re al qw qb rs.

(** The zero value of a binding state. *)
Definition no_binding_state : admissionBindingState := mkAdmissionBindingState "" 0 None None "" 0 0 0 "".

Context `{UnicodeTables}.

(** The status of a binding from its state and what its controller reports. *)
Definition binding_status (target : Target) (state : admissionBindingState) (observed : Status)
    (observedAt : Z) : BindingStatus :=
  let binding := tg_Binding target in
  let current :=
    if negb (String.eqb (st_State observed) "") && (abs_queuedWaiters state =? 0)
    then st_State observed else abs_state state in
  {| bst_Recovery := st_Recovery observed;
     bst_PluginsInUse := st_PluginsInUse observed;
     bst_LifecycleActions := st_LifecycleActions observed;
     bst_Owned := st_Owned observed;
     bst_Phase := st_Phase observed;
     bst_JobID := st_JobID observed;
     bst_ClusterCandidates := b_ClusterCandidates binding;
     bst_Controller := b_Controller binding;
     bst_BindingRevision := b_Revision binding;
     bst_VirtualModel := b_VirtualModel binding;
     bst_Deployment := tg_Deployment target;
     bst_State := or_default_str current StateOffline;
     bst_UpdatedAt := if time_IsZero (abs_updatedAt state) then observedAt else abs_updatedAt state;
     bst_ActivationStarted := abs_activationStarted state;
     bst_ActivationDeadline := abs_activationDeadline state;
     bst_EndpointID := abs_endpointID state;
     bst_ActiveLeases := abs_activeLeases state;
     bst_QueuedWaiters := abs_queuedWaiters state;
     bst_QueuedBodyBytes := abs_queuedBodyBytes state;
     bst_MaxQueuedWaiters := b_MaxQueuedWaiters binding;
     bst_MaxQueuedBodyBytes := b_MaxQueuedBodyBytes binding;
     bst_Reason := if negb (String.eqb (st_Reason observed) "")
                   then SanitizeReason (st_Reason observed) else abs_reason state |}.

(** One turn of the loop over the targets, with the aggregates by controller and
    the statuses of the bindings so far. *)
Definition target_status (observedAt : Z) (bindings : gmap string admissionBindingState)
    (acc : gmap string ControllerStatus * list BindingStatus) (target : Target)
  : itree coordE (gmap string ControllerStatus * list BindingStatus) :=
  let '(aggregates, statuses) := acc in
  if String.eqb (tg_Source target) EndpointStatic then Ret acc
  else
    let aggregate := default (new_aggregate (tg_Controller target) observedAt)
                       (aggregates !! tg_Controller target) in
    let* r := call (RegistryReady (tg_Deployment target)) in
    let ready := match r with inr ready => Z.of_nat (length ready) | inl _ => 0 end in
    let aggregate := add_ready ready aggregate in
    if negb (String.eqb (tg_Source target) EndpointActivatable) then
      Ret (<[tg_Controller target := aggregate]> aggregates, statuses)
    else
      let state := default no_binding_state (bindings !! ActivationKey (tg_Binding target)) in
      let aggregate := add_binding state aggregate in
      let* observed :=
        (if bool_decide (tg_Controller target ∈ ac_controllers c) then
           let* s := call (ReadStatus (tg_Controller target) (tg_Binding target)) in
           Ret (match s with inr observed => observed | inl _ => no_status end)
         else Ret no_status) in
      Ret (<[tg_Controller target := aggregate]> aggregates,
           statuses ++ [binding_status target state observed observedAt]).

Fixpoint target_statuses (observedAt : Z) (bindings : gmap string admissionBindingState)
    (acc : gmap string ControllerStatus * list BindingStatus) (targets : list Target)
  : itree coordE (gmap string ControllerStatus * list BindingStatus) :=
  match targets with
  | [] => Ret acc
  | target :: targets =>
      let* acc := target_status observedAt bindings acc target in
      target_statuses observedAt bindings acc targets
  end.

(** The loop that counts the endpoints of each controller. *)
Fixpoint count_endpoints (aggregates : gmap string ControllerStatus) (controllers : list string)
  : itree coordE (gmap string ControllerStatus) :=
  match controllers with
  | [] => Ret aggregates
  | controller :: controllers =>
      let* r := call (InspectorList (mkQuery "" controller "" MaxPageSize "")) in
      let aggregates :=
        match r with
        | inl _ => aggregates
        | inr page => alter (set_Endpoints (Z.of_nat (length (page_Endpoints page)))) controller aggregates
        end in
      count_endpoints aggregates controllers
  end.

(** [AdmissionCoordinator.Snapshot] after its critical section. *)
Definition snapshot_from (observedAt : Z) (bindings : gmap string admissionBindingState)
  : itree coordE LifecycleStatus.Snapshot :=
  let* names := call (Iterate (dom (ac_targets c))) in
  let* r := target_statuses observedAt bindings (∅, []) (omap (fun name => ac_targets c !! name) names) in
  let '(aggregates, statuses) := r in
  let* aggregates :=
    (if ac_inspector c then
       let* controllers := call (Iterate (dom aggregates)) in
       count_endpoints aggregates controllers
     else Ret aggregates) in
  let* controllers := call (Iterate (dom aggregates)) in
  Ret {| snap_ObservedAt := observedAt;
         snap_Controllers :=
           stable_sort by_controller (omap (fun controller => aggregates !! controller) controllers);
         snap_Bindings :=
           stable_sort (fun x y => String.ltb (bst_Deployment x) (bst_Deployment y)) statuses |}.

Definition Snapshot : itree coordE (error + LifecycleStatus.Snapshot) :=
  let* ctxErr := call CtxErr in
  match ctxErr with
  | Some err => Ret (inl err)
  | None =>
      let* observedAt := call Now in
      let* bindings := locked ReadBindings in
      let* snapshot := snapshot_from observedAt bindings in
      Ret (inr snapshot)
  end.
End Methods.
