(* ===== verification/Threads.v ===== *)
(** * A thread logic for the admission coordinator

    What a request has in hand between two events (its place in the queue, an
    admission, controller leases, activation claims), and the proof rules by
    which a method is shown to handle it well whatever the outside answers:
    [safe n t h Q] holds when the first [n] events of [t], started with [h] in
    hand, respect the obligations of [requires], and [Q] holds of the result and
    of what is then in hand. *)

From stdpp Require Import base gmap list strings.
From Stdlib Require Import ZArith Lia.
From ITree Require Import ITree.
From S2P Require Import Prelude GoStrings Policies Capabilities Config Fields Settings.
From S2P Require Import Endpoints Lifecycle LifecycleStatus Admission Coordinator.

Local Open Scope Z_scope.
Local Open Scope go_scope.

(** ** What a thread has in hand *)
Record hand := mkHand {
  h_waiting : option (string * Z);
  h_admitted : option AdmissionLease;
  h_leases : list (string * Lease);
  h_claims : list ActivationClaim;
}.

Definition empty_hand : hand := mkHand None None [] [].

#[export] Instance Lease_eq_dec : EqDecision Lease.
Proof. solve_decision. Defined.
#[export] Instance ActivationDisposition_eq_dec : EqDecision ActivationDisposition.
Proof. solve_decision. Defined.
#[export] Instance ActivationClaim_eq_dec : EqDecision ActivationClaim.
Proof. solve_decision. Defined.

Definition option_list {A} (o : option A) : list A :=
  match o with Some x => [x] | None => [] end.

(** The list without the first occurrence of an element. *)
Fixpoint remove_one {A} `{EqDecision A} (x : A) (l : list A) : list A :=
  match l with
  | [] => []
  | y :: l => if decide (x = y) then l else y :: remove_one x l
  end.

(** An admission takes over the controller lease that it was made with. *)
Definition admit_hand (lease : option (string * Lease)) (l : AdmissionLease) (h : hand) : hand :=
  mkHand (h_waiting h) (Some l)
    (match lease with Some x => remove_one x (h_leases h) | None => h_leases h end) (h_claims h).

Definition section_effect {A} (sec : section A) : A -> hand -> hand :=
  match sec in section A return A -> hand -> hand with
  | Enqueue binding bodyBytes => fun full h =>
      match full with
      | None => mkHand (Some (ActivationKey binding, bodyBytes)) (h_admitted h) (h_leases h) (h_claims h)
      | Some _ => h
      end
  | Dequeue _ _ => fun _ h => mkHand None (h_admitted h) (h_leases h) (h_claims h)
  | AdmitEndpoint _ _ lease _ => fun r h =>
      match r with inr l => admit_hand lease l h | inl _ => h end
  | ReleaseLease _ _ => fun _ h =>
      mkHand (h_waiting h) None (option_list (h_admitted h ≫= al_controllerLease) ++ h_leases h)
        (h_claims h)
  | _ => fun _ h => h
  end.

(** The hand after an event and its answer. *)
Definition effect {A} (e : coordE A) : A -> hand -> hand :=
  match e in coordE A return A -> hand -> hand with
  | Locked sec => section_effect sec
  | EnsureReady controller _ _ => fun r h =>
      match r with
      | inr lease => mkHand (h_waiting h) (h_admitted h) ((controller, lease) :: h_leases h) (h_claims h)
      | inl _ => h
      end
  | ControllerRelease controller lease _ => fun _ h =>
      mkHand (h_waiting h) (h_admitted h) (remove_one (controller, lease) (h_leases h)) (h_claims h)
  | ActivationsBegin _ _ _ => fun r h =>
      match r with
      | inr claim =>
          if is_owner (ac_Disposition claim)
          then mkHand (h_waiting h) (h_admitted h) (h_leases h) (claim :: h_claims h) else h
      | inl _ => h
      end
  | ActivationsComplete claim => fun _ h =>
      mkHand (h_waiting h) (h_admitted h) (h_leases h) (remove_one claim (h_claims h))
  | _ => fun _ h => h
  end.

(** ** Obligations *)
Section Logic.
Context `{NetURL} (c : AdmissionCoordinator).

(** The target of a deployment, up to the cold-start behavior that [Start]
    overrides. *)
Definition is_target (t : Target) : Prop :=
  exists t', ac_targets c !! tg_Deployment t = Some t' /\ tg_Source t = tg_Source t' /\
    ActivationKey (tg_Binding t) = ActivationKey (tg_Binding t') /\
    b_MaxQueuedWaiters (tg_Binding t) = b_MaxQueuedWaiters (tg_Binding t') /\
    b_MaxQueuedBodyBytes (tg_Binding t) = b_MaxQueuedBodyBytes (tg_Binding t') /\
    b_Controller (tg_Binding t) = b_Controller (tg_Binding t') /\
    forall e, endpoint_mismatch t e = endpoint_mismatch t' e.

(** The binding of an activatable target. *)
Definition is_binding (b : Binding) : Prop :=
  exists deployment t, ac_targets c !! deployment = Some t /\ tg_Source t = EndpointActivatable /\
    ActivationKey b = ActivationKey (tg_Binding t) /\
    b_MaxQueuedWaiters b = b_MaxQueuedWaiters (tg_Binding t) /\
    b_MaxQueuedBodyBytes b = b_MaxQueuedBodyBytes (tg_Binding t).

(** What an event needs: an interface that is called is set, a section works on
    a known binding, a thread queues, is admitted and leaves once, admits only
    an endpoint that fits its target and that the authorizer approved
    ([approved]), and gives back only what it has. *)
Definition section_requires (approved : list Endpoint) {A} (sec : section A) (h : hand) : Prop :=
  match sec with
  | ReadActive _ => True
  | Enqueue binding bodyBytes => is_binding binding /\ h_waiting h = None /\ 0 <= bodyBytes
  | Dequeue binding bodyBytes => is_binding binding /\ h_waiting h = Some (ActivationKey binding, bodyBytes)
  | AdmitEndpoint target endpoint lease _ =>
      is_target target /\ h_admitted h = None /\ endpoint_mismatch target endpoint = None /\
      endpoint ∈ approved /\
      match lease with Some x => x ∈ h_leases h | None => True end
  | Transition binding _ _ _ _ => is_binding binding
  | ReadState binding => is_binding binding
  | ReadBindings => True
  | ReleaseLease target id =>
      exists l, h_admitted h = Some l /\ target = ac_targets c !! al_deployment l /\
        id = ep_ID (al_Endpoint l)
  end.

Definition requires (approved : list Endpoint) {A} (e : coordE A) (h : hand) : Prop :=
  match e with
  | Locked sec => section_requires approved sec h
  | RegistryReady _ => ac_registry c = true
  | InspectorList _ => ac_inspector c = true
  | AuthorizeEndpoint _ => ac_authorizer c = true
  | EnsureReady controller _ _ => controller ∈ ac_controllers c
  | ReadStatus controller _ => controller ∈ ac_controllers c
  | ControllerRelease controller lease _ => (controller, lease) ∈ h_leases h
  | ActivationsComplete claim => claim ∈ h_claims h
  | _ => True
  end.

(** The answers that a section and the iteration over a map can give; those of
    the outside are arbitrary. *)
Definition answers {A} (e : coordE A) : A -> Prop :=
  match e in coordE A return A -> Prop with
  | Locked sec => fun a => exists now s s', run_section sec now s = Some (a, s')
  | Iterate keys => fun names => names ≡ₚ elements keys
  | _ => fun _ => True
  end.

(** The endpoints that the authorizer has approved. *)
Definition approve {A} (e : coordE A) : A -> list Endpoint -> list Endpoint :=
  match e in coordE A return A -> list Endpoint -> list Endpoint with
  | AuthorizeEndpoint endpoint => fun err approved =>
      match err with None => endpoint :: approved | Some _ => approved end
  | _ => fun _ approved => approved
  end.

Fixpoint safe (n : nat) {R} (t : itree coordE R) (ap : list Endpoint) (h : hand)
    (Q : R -> list Endpoint -> hand -> Prop) : Prop :=
  match n with
  | O => True
  | S n =>
      match observe t with
      | RetF r => Q r ap h
      | TauF t => safe n t ap h Q
      | VisF e k => requires ap e h /\ forall a, answers e a -> safe n (k a) (approve e a ap) (effect e a h) Q
      end
  end.

(** ** Rules *)
Lemma safe_mono n m {R} (t : itree coordE R) ap h (Q Q' : R -> list Endpoint -> hand -> Prop) :
  (m <= n)%nat -> (forall r ap h, Q r ap h -> Q' r ap h) -> safe n t ap h Q -> safe m t ap h Q'.
Proof.
  intros Hm HQ. revert n t ap h Hm. induction m as [|m IH]; intros n t ap h Hm; [done|].
  destruct n as [|n]; [lia|]. cbn [safe]. destruct (observe t).
  - apply HQ.
  - apply IH. lia.
  - intros [Hr Hk]. split; [done|]. intros a Ha. apply (IH n); [lia|by apply Hk].
Qed.

Lemma safe_ret n {R} (r : R) ap h (Q : R -> list Endpoint -> hand -> Prop) :
  Q r ap h -> safe n (Ret r) ap h Q.
Proof. by destruct n. Qed.

Lemma safe_bind n {R T} (t : itree coordE R) (k : R -> itree coordE T) ap h Q :
  safe n t ap h (fun r ap h => forall m, (m <= n)%nat -> safe m (k r) ap h Q) ->
  safe n (ITree.bind t k) ap h Q.
Proof.
  enough (H' : forall N, (n <= N)%nat ->
    safe n t ap h (fun r ap h => forall m, (m <= N)%nat -> safe m (k r) ap h Q) ->
    safe n (ITree.bind t k) ap h Q) by (by apply H').
  revert t ap h. induction n as [|n IH]; intros t ap h N HN; [done|].
  cbn [safe].
  change (observe (ITree.bind t k)) with
    (observe (match observe t with
              | RetF r => k r
              | TauF t' => Tau (ITree.bind t' k)
              | VisF e k' => Vis e (fun x => ITree.bind (k' x) k)
              end)).
  destruct (observe t) as [r|t'|X e k'].
  - intros Hq. apply (Hq (S n) HN).
  - apply IH. lia.
  - intros [Hr Hk]. split; [done|]. intros a Ha. apply (IH _ _ _ N); [lia|by apply Hk].
Qed.

(** A loop with an invariant. *)
Lemma safe_iter n {I R} (body : I -> itree coordE (I + R)) (Inv : I -> list Endpoint -> hand -> Prop) i ap h Q :
  (forall n i ap h, Inv i ap h ->
     safe n (body i) ap h (fun r ap h => match r with inl i => Inv i ap h | inr r => Q r ap h end)) ->
  Inv i ap h -> safe n (ITree.iter body i) ap h Q.
Proof.
  intros Hb. revert i ap h. induction n as [n IH] using lt_wf_ind. intros i ap h Hi.
  enough (Hs : safe n (ITree.bind (body i)
            (fun lr => ITree.on_left lr l (Tau (ITree.iter body l)))) ap h Q) by (destruct n; apply Hs).
  apply safe_bind. eapply safe_mono; [reflexivity| |by apply Hb].
  intros [i'|r] ap' h' Hq m Hm; [|by apply safe_ret].
  destruct m as [|m]; [done|]. apply (IH m); [lia|done].
Qed.

Lemma safe_seq n {R T} (t : itree coordE R) (k : R -> itree coordE T) ap h P Q :
  (forall n, safe n t ap h P) -> (forall m r ap h, P r ap h -> safe m (k r) ap h Q) ->
  safe n (ITree.bind t k) ap h Q.
Proof.
  intros Ht Hk. apply safe_bind. eapply safe_mono; [reflexivity| |apply Ht]. auto.
Qed.

Lemma safe_call_tail n {A} (e : coordE A) ap h Q :
  requires ap e h -> (forall a, answers e a -> Q a (approve e a ap) (effect e a h)) ->
  safe n (call e) ap h Q.
Proof.
  intros Hr Hk. destruct n as [|n]; [done|]. cbn. split; [done|].
  intros a Ha. by apply safe_ret, Hk.
Qed.

Lemma safe_call n {A R} (e : coordE A) (k : A -> itree coordE R) ap h Q :
  requires ap e h ->
  (forall m a, answers e a -> safe m (k a) (approve e a ap) (effect e a h) Q) ->
  safe n (ITree.bind (call e) k) ap h Q.
Proof.
  intros Hr Hk. apply (safe_seq n (call e) k ap h
    (fun a ap' h' => answers e a /\ ap' = approve e a ap /\ h' = effect e a h)).
  - intros m. by apply safe_call_tail.
  - intros m a ap' h' (Ha & -> & ->). by apply Hk.
Qed.

(** ** Results *)

(** [t] may return [r] within [n] events. *)
Fixpoint results (n : nat) {R} (t : itree coordE R) (r : R) : Prop :=
  match n with
  | O => False
  | S n =>
      match observe t with
      | RetF x => r = x
      | TauF t => results n t r
      | VisF e k => exists a, answers e a /\ results n (k a) r
      end
  end.

Lemma safe_results n {R} (t : itree coordE R) r ap h (Q : R -> Prop) :
  safe n t ap h (fun r _ _ => Q r) -> results n t r -> Q r.
Proof.
  revert t ap h. induction n as [|n IH]; intros t ap h; [done|]. cbn [safe results].
  destruct (observe t) as [x|t'|A e k].
  - by intros Hq ->.
  - apply IH.
  - intros [_ Hk] (a & Ha & Hr). eapply IH; [by apply Hk|done].
Qed.
End Logic.
