(* ===== verification/CoordinatorFacts.v ===== *)
(** * The methods of the admission coordinator handle what they have in hand

    One lemma per method: whatever the outside answers, an endpoint that comes
    back fits its target and was approved, controller leases and activation
    claims that are not passed on are given back, and a thread leaves the queue
    it entered. *)

From stdpp Require Import base gmap list strings sorting.
From Stdlib Require Import ZArith Lia.
From ITree Require Import ITree.
From S2P Require Import Prelude GoStrings Policies Capabilities Config Fields Settings.
From S2P Require Import Endpoints Lifecycle Admission Coordinator Threads.

Local Open Scope Z_scope.
Local Open Scope go_scope.

Lemma remove_one_head {A} `{EqDecision A} (x : A) l : remove_one x (x :: l) = l.
Proof. simpl. by rewrite decide_True. Qed.

Section Methods.
Context `{NetURL} (c : AdmissionCoordinator).
Notation safe := (safe c).

(** The interfaces that dynamic targets need. *)
Record wired : Prop := {
  wd_registry : ac_registry c = true;
  wd_authorizer : ac_authorizer c = true;
  wd_controller t : is_target c t -> tg_Source t = EndpointActivatable ->
    b_Controller (tg_Binding t) ∈ ac_controllers c;
}.

Context (Hwired : wired).
Notation Hreg := (wd_registry Hwired).
Notation Haut := (wd_authorizer Hwired).

(** Nothing in hand changes, and approvals are kept. *)
Definition unchanged {R} (ap : list Endpoint) (h : hand) (Q : R -> list Endpoint -> Prop)
    (r : R) (ap' : list Endpoint) (h' : hand) : Prop :=
  h' = h /\ ap ⊆ ap' /\ Q r ap'.

(** An endpoint that may be admitted for a target. *)
Definition fits (target : Target) (r : error + Endpoint) (ap : list Endpoint) : Prop :=
  match r with
  | inr e => endpoint_mismatch target e = None /\ e ∈ ap
  | inl _ => True
  end.

Lemma fits_mono target r ap ap' : ap ⊆ ap' -> fits target r ap -> fits target r ap'.
Proof. destruct r; simpl; [done|]. intros Hs [? ?]. split; [done|by apply Hs]. Qed.

Lemma unchanged_mono {R} ap ap1 h (Q Q' : R -> list Endpoint -> Prop) r ap' h' :
  ap ⊆ ap1 -> (forall r ap, Q r ap -> Q' r ap) -> unchanged ap1 h Q r ap' h' -> unchanged ap h Q' r ap' h'.
Proof. intros Hs HQ (-> & Hs' & Hq). split; [done|]. split; [by etransitivity|auto]. Qed.

Lemma validateEndpoint_safe n target e ap h :
  safe n (validateEndpoint target e) ap h
    (unchanged ap h (fun r ap' => fits target r ap' /\ match r with inr e' => e' = e | inl _ => True end)).
Proof.
  unfold validateEndpoint. destruct (endpoint_mismatch target e) as [d|] eqn:Hm.
  - by apply safe_ret.
  - apply safe_call; [apply Haut|]. intros m [err|] _; apply safe_ret; unfold unchanged; cbn.
    + done.
    + split_and!; try done; [set_solver|by left].
Qed.

Lemma first_ready_safe n target es ap h :
  safe n (first_ready target es) ap h (unchanged ap h (fits target)).
Proof.
  revert n ap. induction es as [|e es IH]; intros n ap; cbn [first_ready]; [by apply safe_ret|].
  eapply safe_seq; [intros; apply validateEndpoint_safe|].
  intros m [err|e'] ap1 h1 (-> & Hs & Hf & _).
  - eapply safe_mono; [reflexivity| |apply IH]. intros r ap2 h2. by apply unchanged_mono.
  - apply safe_call; [done|]. intros m' a _. destruct (_ && _).
    + eapply safe_mono; [reflexivity| |apply IH]. intros r ap2 h2. by apply unchanged_mono.
    + by apply safe_ret.
Qed.

Lemma readyEndpoint_safe n target ap h :
  safe n (readyEndpoint target) ap h (unchanged ap h (fits target)).
Proof.
  apply safe_call; [apply Hreg|]. intros m [err|es] _; [by apply safe_ret|apply first_ready_safe].
Qed.

Lemma find_registered_safe n target e es ap h :
  safe n (find_registered target e es) ap h (unchanged ap h (fits target)).
Proof.
  revert n ap. induction es as [|e' es IH]; intros n ap; cbn [find_registered]; [by apply safe_ret|].
  eapply safe_seq; [intros; apply validateEndpoint_safe|].
  intros m [err|e1] ap1 h1 (-> & Hs & Hf & _).
  - eapply safe_mono; [reflexivity| |apply IH]. intros r ap2 h2. by apply unchanged_mono.
  - destruct (sameRuntimeRegistration e1 e).
    + by apply safe_ret.
    + eapply safe_mono; [reflexivity| |apply IH]. intros r ap2 h2. by apply unchanged_mono.
Qed.

Lemma validateControllerLease_safe n target lease expected ap h :
  safe n (validateControllerLease target lease expected) ap h (unchanged ap h (fits target)).
Proof.
  unfold validateControllerLease. destruct (String.eqb _ _); [by apply safe_ret|].
  eapply safe_seq; [intros; apply validateEndpoint_safe|].
  intros m [err|e] ap1 h1 (-> & Hs & Hf & _); [by apply safe_ret|].
  destruct (_ && _); [by apply safe_ret|].
  apply safe_call; [apply Hreg|]. intros m' [err|es] _; [by apply safe_ret|].
  eapply safe_mono; [reflexivity| |apply find_registered_safe]. intros r ap2 h2. by apply unchanged_mono.
Qed.

(** ** State changes *)
Lemma transition_safe n b vm st re oc ep lat ap h :
  is_binding c b ->
  safe n (transition c b vm st re oc ep lat) ap h (unchanged ap h (fun _ _ => True)).
Proof.
  intros Hb. apply safe_call; [done|]. intros m now _. apply safe_call; [done|].
  intros m' [prior waiters] _. eapply (safe_seq _ _ _ _ _ _ (fun _ ap' h' => ap' = ap /\ h' = h)).
  - intros k. apply safe_call; [done|]. intros k' a _. by apply safe_ret.
  - intros k id ap' h' [-> ->]. by apply safe_call_tail.
Qed.

Lemma activationFailure_safe n b vm err ap h :
  is_binding c b ->
  safe n (activationFailure c b vm err) ap h (unchanged ap h (fun _ _ => True)).
Proof.
  intros Hb. unfold activationFailure. destruct (failure_reason err) as [reason outcome].
  eapply safe_seq; [intros; by apply transition_safe|]. intros m [] ap1 h1 Hu. by apply safe_ret.
Qed.

Lemma recordRejected_safe n b vm reason ap h :
  is_binding c b ->
  safe n (recordRejected c b vm reason) ap h (unchanged ap h (fun _ _ => True)).
Proof.
  intros Hb. apply safe_call; [done|]. intros m a _. by apply transition_safe.
Qed.

(** ** Admission *)

(** The outcome of an attempt: nothing in hand beyond what there was, or an
    admission to the target. *)
Definition attempt (target : Target) (ap : list Endpoint) (h : hand) (r : error + AdmissionLease)
    (ap' : list Endpoint) (h' : hand) : Prop :=
  ap ⊆ ap' /\
  match r with
  | inl _ => h' = h
  | inr l => h' = mkHand (h_waiting h) (Some l) (h_leases h) (h_claims h) /\
             al_deployment l = tg_Deployment target
  end.

Definition activatable (target : Target) : Prop :=
  is_target c target /\ tg_Source target = EndpointActivatable.

Lemma activatable_controller target :
  activatable target -> b_Controller (tg_Binding target) ∈ ac_controllers c.
Proof. intros [Ht Hs]. by apply (wd_controller Hwired). Qed.

Lemma activatable_binding target : activatable target -> is_binding c (tg_Binding target).
Proof.
  intros [(t' & Ht & Es & Ek & E1 & E2 & _ & _) Ha]. exists (tg_Deployment target), t'.
  split_and!; try done. congruence.
Qed.

(** Every way out of a failed attempt ends in [activationFailure]. *)
Lemma fail_safe {R} n target vm err (wrap_err : error -> R) ap ap0 h
    (Q : R -> list Endpoint -> hand -> Prop) :
  activatable target -> ap0 ⊆ ap -> (forall e ap', ap0 ⊆ ap' -> Q (wrap_err e) ap' h) ->
  safe n (let* e := activationFailure c (tg_Binding target) vm err in Ret (wrap_err e)) ap h Q.
Proof.
  intros Ht Hs HQ. eapply safe_seq; [intros; by apply activationFailure_safe, activatable_binding|].
  intros m e ap1 h1 (-> & Hs1 & _). apply safe_ret, HQ. by etransitivity.
Qed.

(** The answer of an [AdmitEndpoint] that does not enforce a capacity. *)
Lemma admit_answer target e lease s now r s' :
  run_section (AdmitEndpoint target e lease false) now s = Some (r, s') ->
  r = inr (mkAdmissionLease e (tg_Deployment target) lease).
Proof.
  cbn. unfold admitEndpoint. cbn [andb]. destruct (String.eqb _ _); [|by intros [= <- _]].
  destruct (as_bindings _ !! _); [|done]. by intros [= <- _].
Qed.

Lemma admit_safe n target e x ap h :
  activatable target -> h_admitted h = None -> endpoint_mismatch target e = None -> e ∈ ap ->
  safe n (locked (AdmitEndpoint target e (Some x) false)) ap
    (mkHand (h_waiting h) (h_admitted h) (x :: h_leases h) (h_claims h)) (attempt target ap h).
Proof.
  intros [Ht _] Hn Hm He. apply safe_call_tail.
  - cbn. split_and!; try done. by left.
  - intros a (s & now & s' & ->%admit_answer). split; [done|]. cbn [approve effect section_effect].
    split; [|done]. unfold admit_hand. cbn [h_waiting h_leases h_claims]. by rewrite remove_one_head.
Qed.

Lemma acquireControllerLease_safe n target features expected ap h :
  activatable target -> h_admitted h = None ->
  safe n (acquireControllerLease c target features expected) ap h (attempt target ap h).
Proof.
  intros Ht Hn. pose proof (activatable_binding target Ht) as Hb.
  apply safe_call; [by apply activatable_controller|].
  intros m [err|lease] _; cbn [approve effect].
  { by apply (fail_safe _ _ _ _ _ _ ap). }
  eapply safe_seq; [intros; apply validateControllerLease_safe|].
  intros m1 [err|e] ap1 h1 (-> & Hs & Hf).
  - apply safe_call; [cbn; by left|]. intros m2 a _. cbn [approve effect h_leases h_waiting h_admitted h_claims].
    rewrite remove_one_head. destruct h as [hw ha hl hc]. cbn in *.
    by apply (fail_safe _ _ _ _ _ _ ap).
  - destruct Hf as [Hm He]. eapply safe_mono; [reflexivity| |by apply admit_safe].
    intros r ap' h' [Hs' Hr]. split; [by etransitivity|done].
Qed.

(** Completing a claim takes it out of the hand. *)
Lemma complete_safe {R} n claim (k : option error -> itree coordE R) ap waiting admitted leases claims Q :
  (forall m a, safe m (k a) ap (mkHand waiting admitted leases claims) Q) ->
  safe n (let* a := call (ActivationsComplete claim) in k a) ap
    (mkHand waiting admitted leases (claim :: claims)) Q.
Proof.
  intros Hk. apply safe_call; [cbn; by left|]. intros m a _. cbn [effect approve h_claims].
  rewrite remove_one_head. apply Hk.
Qed.

(** A controller lease that is not admitted is given back. *)
Lemma give_back_safe {R} n controller lease err (k : option error -> itree coordE R) ap h Q :
  (forall m a, safe m (k a) ap h Q) ->
  safe n (let* a := release_failed controller lease err in k a) ap
    (mkHand (h_waiting h) (h_admitted h) ((controller, lease) :: h_leases h) (h_claims h)) Q.
Proof.
  intros Hk. apply safe_call; [cbn; by left|]. intros m a _. cbn [effect approve h_leases].
  rewrite remove_one_head. destruct h. apply Hk.
Qed.

Lemma activateOwner_safe n target features claim ap h :
  activatable target -> h_admitted h = None ->
  safe n (activateOwner c target features claim) ap
    (mkHand (h_waiting h) (h_admitted h) (h_leases h) (claim :: h_claims h)) (attempt target ap h).
Proof.
  intros Ht Hn. pose proof (activatable_binding target Ht) as Hb. unfold activateOwner.
  eapply safe_seq; [intros; by apply transition_safe|]. intros m0 [] ap0 h0 (-> & Hs0 & _).
  apply safe_call; [done|]. intros m1 started _.
  apply safe_call; [by apply activatable_controller|].
  assert (Hdone : forall n vm err ap1, ap ⊆ ap1 ->
    safe n (let* e := activationFailure c (tg_Binding target) vm err in
            Ret (inl e : error + AdmissionLease)) ap1 h (attempt target ap h)).
  { intros. by apply (fail_safe _ _ _ _ _ _ ap). }
  intros m2 [err|lease] _; cbn [effect approve h_waiting h_admitted h_leases h_claims].
  { apply complete_safe. intros m3 a. destruct h. by apply Hdone. }
  destruct (_ || _).
  { apply complete_safe. intros m3 a. apply give_back_safe. intros. by apply Hdone. }
  eapply safe_seq; [intros; apply validateControllerLease_safe|].
  intros m3 [err|e] ap1 h1 (-> & Hs1 & Hf); apply complete_safe; intros m4 a.
  { apply give_back_safe. intros. apply Hdone. by etransitivity. }
  destruct a as [err|].
  { apply give_back_safe. intros. apply Hdone. by etransitivity. }
  apply safe_call; [done|]. intros m5 finished _. cbn [effect approve].
  eapply safe_seq; [intros; by apply transition_safe|]. intros m6 [] ap2 h2 (-> & Hs2 & _).
  destruct Hf as [Hm He]. eapply safe_mono; [reflexivity| |apply admit_safe; [done..|by apply Hs2]].
  intros r ap' h' [Hs' Hr]. split; [|done]. repeat (etransitivity; [eassumption|]). done.
Qed.

Lemma observeActivation_safe n target b claim ap h :
  b_Controller b ∈ ac_controllers c ->
  safe n (observeActivation target b claim) ap h
    (unchanged ap h (fun r ap' =>
       match r with inr (Some e) => fits target (inr e) ap' | _ => True end)).
Proof.
  intros Hc. apply (safe_iter _ _ _ (fun _ ap' h' => h' = h /\ ap ⊆ ap')); [|done].
  clear n. intros n i ap1 h1 [-> Hs]. unfold observe_turn.
  set (wait := ITree.bind (call Now) _).
  assert (Hw : forall n ap2, ap ⊆ ap2 -> safe n wait ap2 h (fun r ap' h' =>
    match r with
    | inl _ => h' = h /\ ap ⊆ ap'
    | inr r => unchanged ap h (fun r ap' =>
        match r with inr (Some e) => fits target (inr e) ap' | _ => True end) r ap' h'
    end)).
  { intros k ap2 Hs2. apply safe_call; [done|]. intros m now _. destruct (negb _); [by apply safe_ret|].
    apply safe_call; [done|]. intros m' [err|] _; by apply safe_ret. }
  eapply safe_seq; [intros; apply readyEndpoint_safe|].
  intros m [err|e] ap2 h2 (-> & Hs2 & Hf); [|apply safe_ret; split_and!; [done|by etransitivity|done]].
  assert (Hs3 : ap ⊆ ap2) by (by etransitivity).
  apply safe_call; [done|]. intros m1 [err1|status] _; cbn [effect approve]; [by apply Hw|].
  destruct (String.eqb _ _); [by apply safe_ret|].
  destruct (st_Endpoint status) as [e|]; [|by apply Hw]. destruct (String.eqb _ _); [|by apply Hw].
  eapply safe_seq; [intros; apply validateEndpoint_safe|].
  intros m2 [err2|e'] ap3 h3 (-> & Hs4 & Hf' & _); [apply Hw; by etransitivity|].
  apply safe_ret. split_and!; [done|by etransitivity|done].
Qed.

Lemma attempt_mono target ap ap1 h r ap' h' :
  ap ⊆ ap1 -> attempt target ap1 h r ap' h' -> attempt target ap h r ap' h'.
Proof. intros Hs [Hs' Hr]. split; [by etransitivity|done]. Qed.

Lemma claim_loop_safe n target features holder ap h :
  activatable target -> h_admitted h = None ->
  safe n (ITree.iter (fun _ : unit => claim_turn c target features holder) tt) ap h (attempt target ap h).
Proof.
  intros Ht Hn. apply (safe_iter _ _ _ (fun _ ap' h' => h' = h /\ ap ⊆ ap')); [|done].
  clear n. intros n i ap1 h1 [-> Hs]. unfold claim_turn. apply safe_call; [done|].
  intros m [err|claim] _; cbn [effect approve].
  { by apply (fail_safe _ _ _ _ (fun e => inr (inl e)) _ ap). }
  destruct (is_owner _).
  { eapply safe_seq; [intros; by apply activateOwner_safe|]. intros m1 r ap2 h2 Hr.
    apply safe_ret. by eapply attempt_mono. }
  eapply safe_seq; [intros; by apply observeActivation_safe, activatable_controller|].
  intros m1 [err|[e|]] ap2 h2 (-> & Hs2 & _); [| |apply safe_ret; split; [done|by etransitivity]].
  { apply (fail_safe _ _ _ _ (fun e => inr (inl e)) _ ap); [done|by etransitivity|done]. }
  eapply safe_seq; [intros; by apply acquireControllerLease_safe|]. intros m2 r ap3 h3 Hr.
  apply safe_ret. eapply attempt_mono; [|exact Hr]. by etransitivity.
Qed.

Lemma queue_and_activate_safe n target features bodyBytes ap h :
  activatable target -> h_admitted h = None -> h_waiting h = None -> 0 <= bodyBytes ->
  safe n (queue_and_activate c target features bodyBytes) ap h (attempt target ap h).
Proof.
  intros Ht Hn Hw Hb. pose proof (activatable_binding target Ht) as Hbi.
  apply safe_call; [done|]. intros m [err|] _; cbn [effect section_effect approve].
  - eapply safe_seq; [intros; apply readyEndpoint_safe|]. intros m1 [err1|e] ap1 h1 (-> & Hs & _).
    + eapply safe_seq; [intros; by apply recordRejected_safe|]. intros m2 [] ap2 h2 (-> & Hs2 & _).
      apply safe_ret. split; [by etransitivity|done].
    + eapply safe_mono; [reflexivity| |by apply acquireControllerLease_safe].
      intros r ap' h'. by apply attempt_mono.
  - apply safe_call; [done|]. intros m1 k _. cbn [effect approve].
    eapply safe_seq; [intros; by apply claim_loop_safe|]. intros m2 r ap1 h1 [Hs Hr].
    apply safe_call; [cbn; destruct r as [err|l]; [by subst|by destruct Hr as [-> _]]|].
    intros m3 [] _. apply safe_ret. cbn [effect section_effect approve]. split; [done|].
    destruct r as [err|l]; [subst h1; destruct h; cbn in *; congruence|].
    destruct Hr as [-> Hd]. split; [|done]. cbn. by rewrite Hw.
Qed.

Lemma acquireActivatable_safe n target request ap h :
  activatable target -> h_admitted h = None -> h_waiting h = None -> 0 <= ar_BodyBytes request ->
  safe n (acquireActivatable c target request) ap h (attempt target ap h).
Proof.
  intros Ht Hn Hw Hb. pose proof (activatable_binding target Ht) as Hbi. unfold acquireActivatable.
  assert (Hrej : forall n vm ap1, ap ⊆ ap1 ->
    safe n (let* _ := recordRejected c (tg_Binding target) vm "cold_start_rejected" in
            Ret (inl (admissionError c "cold_start_rejected" ErrColdStartRejected) : error + AdmissionLease))
      ap1 h (attempt target ap h)).
  { intros k vm ap1 Hs. eapply safe_seq; [intros; by apply recordRejected_safe|].
    intros m2 [] ap2 h2 (-> & Hs2 & _). apply safe_ret. split; [by etransitivity|done]. }
  assert (Hq : forall n f ap1, ap ⊆ ap1 ->
    safe n (queue_and_activate c target f (ar_BodyBytes request)) ap1 h (attempt target ap h)).
  { intros k f ap1 Hs. eapply safe_mono; [reflexivity| |by apply queue_and_activate_safe].
    intros r ap' h'. by apply attempt_mono. }
  eapply safe_seq; [intros; apply readyEndpoint_safe|]. intros m [err|e] ap1 h1 (-> & Hs & _).
  - destruct (rq_PreparedOnly _); [by apply safe_ret|]. destruct (String.eqb _ _); [|by apply Hq].
    apply safe_call; [by apply activatable_controller|]. intros m1 [err1|status] _; [by apply Hrej|].
    destruct (st_Prepared status); [by apply Hq|by apply Hrej].
  - eapply safe_mono; [reflexivity| |by apply acquireControllerLease_safe].
    intros r ap' h'. by apply attempt_mono.
Qed.

Lemma acquire_discovered_safe n k target ap h :
  is_target c target -> h_admitted h = None ->
  safe n (acquire_discovered c k target) ap h (fun r ap' h' => ap ⊆ ap' /\
    match r with
    | inr (Some l) => h' = mkHand (h_waiting h) (Some l) (h_leases h) (h_claims h) /\
        al_deployment l = tg_Deployment target
    | inr None => False
    | inl _ => h' = h
    end).
Proof.
  intros Ht Hn. revert n ap. induction k as [|k IH]; intros n ap; cbn [acquire_discovered]; [by apply safe_ret|].
  eapply safe_seq; [intros; apply readyEndpoint_safe|].
  intros m [err|e] ap1 h1 (-> & Hs & Hf); [by apply safe_ret|]. destruct Hf as [Hm He].
  apply safe_call; [cbn; by split_and!|]. intros m1 [err|l] (s & now & s' & E); cbn [effect section_effect approve].
  - eapply safe_mono; [reflexivity| |apply IH]. intros r ap2 h2 [Hs2 Hr]. split; [by etransitivity|done].
  - apply safe_ret. split; [done|]. split; [done|]. cbn in E. unfold admitEndpoint in E.
    destruct (_ && _); [done|]. destruct (String.eqb _ _); [|by injection E as <- _].
    destruct (as_bindings _ !! _); [|done]. by injection E as <- _.
Qed.

(** ** Whole calls *)

(** What a call returns and leaves in hand: the lease it returns, or nothing. *)
Definition finished (r : option AdmissionLease) (h : hand) : Prop :=
  h = match r with Some l => mkHand None (Some l) [] [] | None => empty_hand end.

(** A call of [Acquire], and the lease it returns. *)
Definition acquire_call (request : AdmissionRequest) : itree coordE (option AdmissionLease) :=
  let* r := Acquire c request in
  Ret (match r with inr lease => lease | inl _ => None end).

(** A call of [Start], which releases what it acquires. *)
Definition start_call (deployment : string) : itree coordE (option AdmissionLease) :=
  let* _ := Start c deployment in Ret None.

Definition ready_call (deployment : string) : itree coordE (option AdmissionLease) :=
  let* _ := Ready c deployment in Ret None.

Definition snapshot_call `{UnicodeTables} : itree coordE (option AdmissionLease) :=
  let* _ := Snapshot c in Ret None.

(** A call of [Release] that swapped the flag of its lease. *)
Definition release_call (lease : AdmissionLease) (outcome : RequestOutcome)
  : itree coordE (option AdmissionLease) :=
  let* _ := Release c lease outcome in Ret None.
End Methods.

Section Calls.
Context `{NetURL} (c : AdmissionCoordinator).

(** What [NewAdmissionCoordinator] establishes. *)
Record coordinator_ok : Prop := {
  co_deployment d t : ac_targets c !! d = Some t -> tg_Deployment t = d;
  co_wired d t : ac_targets c !! d = Some t -> tg_Source t <> EndpointStatic ->
    ac_registry c = true /\ ac_authorizer c = true;
  co_controller d t : ac_targets c !! d = Some t -> tg_Source t = EndpointActivatable ->
    b_Controller (tg_Binding t) ∈ ac_controllers c /\ tg_Controller t = b_Controller (tg_Binding t);
  co_limits d t : ac_targets c !! d = Some t -> tg_Source t = EndpointActivatable ->
    0 < b_MaxQueuedWaiters (tg_Binding t) /\ 0 < b_MaxQueuedBodyBytes (tg_Binding t) <= MaxInt64;
  co_keys d1 t1 d2 t2 : ac_targets c !! d1 = Some t1 -> ac_targets c !! d2 = Some t2 ->
    tg_Source t1 = EndpointActivatable -> tg_Source t2 = EndpointActivatable ->
    ActivationKey (tg_Binding t1) = ActivationKey (tg_Binding t2) -> d1 = d2;
}.

Context (Hok : coordinator_ok).
Notation safe := (safe c).

Lemma target_self d t : ac_targets c !! d = Some t -> is_target c t.
Proof.
  intros Ht. exists t. rewrite (co_deployment Hok d t Ht). by split_and!.
Qed.

Lemma ok_wired d t : ac_targets c !! d = Some t -> tg_Source t <> EndpointStatic -> wired c.
Proof.
  intros Ht Hs. destruct (co_wired Hok d t Ht Hs). split; [done..|].
  intros t0 (t' & Ht' & Es & _ & _ & _ & Ec & _) Ha. rewrite Ec.
  eapply (co_controller Hok _ _ Ht'). congruence.
Qed.

Lemma acquire_call_safe n request ap :
  safe n (acquire_call c request) ap empty_hand (fun r _ h => finished r h).
Proof.
  unfold acquire_call.
  apply (safe_seq _ _ _ _ _ _ (fun r _ h => finished (match r with inr l => l | inl _ => None end) h));
    [|intros; by apply safe_ret].
  clear n. intros n. apply safe_call; [done|]. intros m [err|] _; [by apply safe_ret|].
  cbn [effect approve]. destruct (Z.ltb_spec (ar_BodyBytes request) 0); [by apply safe_ret|].
  destruct (ac_targets c !! ar_Deployment request) as [t|] eqn:Ht; [|by apply safe_ret].
  destruct (String.eqb_spec (tg_Source t) EndpointStatic) as [|Hs]; [by apply safe_ret|].
  pose proof (ok_wired _ _ Ht Hs) as Hw. pose proof (target_self _ _ Ht) as Hself.
  destruct (String.eqb_spec (tg_Source t) EndpointDiscovered) as [|Hd].
  { eapply safe_mono; [reflexivity| |by apply acquire_discovered_safe].
    intros [err|[l|]] ap' h' [_ Hr]; [by subst|by destruct Hr as [-> _]|done]. }
  destruct (String.eqb_spec (tg_Source t) EndpointActivatable) as [Ha|]; [|by apply safe_ret].
  eapply safe_seq; [intros; by apply acquireActivatable_safe|].
  intros m1 [err|l] ap1 h1 [_ Hr]; apply safe_ret; [by subst|by destruct Hr as [-> _]].
Qed.

Lemma Release_safe n lease outcome ap h :
  h_admitted h = Some lease ->
  safe n (Release c lease outcome) ap h
    (fun _ _ h' => h' = mkHand (h_waiting h) None (h_leases h) (h_claims h)).
Proof.
  intros Hl. apply safe_call; [cbn; by exists lease|]. intros m [] _. cbn [effect section_effect approve].
  rewrite Hl. cbn [mbind option_bind]. destruct (al_controllerLease lease) as [[controller l]|].
  - apply safe_call_tail; [cbn; by left|]. intros a _. cbn [effect approve].
    cbn [option_list app h_leases h_waiting h_admitted h_claims]. by rewrite remove_one_head.
  - by apply safe_ret.
Qed.

Lemma release_call_safe n lease outcome ap :
  safe n (release_call c lease outcome) ap (mkHand None (Some lease) [] []) (fun r _ h => finished r h).
Proof.
  eapply safe_seq; [intros; by apply Release_safe|]. intros m r ap' h' ->. by apply safe_ret.
Qed.

(** The target that [Start] works on. *)
Lemma start_target d t :
  ac_targets c !! d = Some t -> tg_Source t = EndpointActivatable ->
  activatable c (set_tg_Binding (set_ColdStart ColdStartWait (tg_Binding t)) t).
Proof.
  intros Ht Hs. pose proof (co_deployment Hok _ _ Ht) as Hd. rewrite <- Hd in Ht.
  destruct t as [dj de um lm pr so co b], b. split; [|done]. by eexists.
Qed.

Lemma start_call_safe n d ap : safe n (start_call c d) ap empty_hand (fun r _ h => finished r h).
Proof.
  unfold start_call. apply (safe_seq _ _ _ _ _ _ (fun _ _ h => h = empty_hand));
    [|intros m r ap' h' ->; by apply safe_ret].
  clear n. intros n. unfold Start. destruct (ac_targets c !! d) as [t|] eqn:Ht; [|by apply safe_ret].
  destruct (String.eqb_spec (tg_Source t) EndpointActivatable) as [Hs|]; [|by apply safe_ret].
  assert (Hw : wired c) by (apply (ok_wired _ _ Ht); by rewrite Hs).
  cbn [negb]. eapply safe_seq; [intros; apply acquireActivatable_safe; [done|by apply (start_target d)|done..]|].
  intros m [err|l] ap1 h1 [_ Hr]; [by apply safe_ret|]. destruct Hr as [-> _].
  eapply safe_seq; [intros; by apply Release_safe|].
  intros m1 [err|] ap2 h2 ->; by apply safe_ret.
Qed.

Lemma ready_call_safe n d ap : safe n (ready_call c d) ap empty_hand (fun r _ h => finished r h).
Proof.
  unfold ready_call. apply (safe_seq _ _ _ _ _ _ (fun _ _ h => h = empty_hand));
    [|intros m r ap' h' ->; by apply safe_ret].
  clear n. intros n. unfold Ready. destruct (ac_targets c !! d) as [t|] eqn:Ht; [|by apply safe_ret].
  destruct (negb (Eligible c d)); [by apply safe_ret|].
  destruct (String.eqb_spec (tg_Source t) EndpointStatic) as [|Hs]; [by apply safe_ret|].
  destruct (negb _); [by apply safe_ret|].
  eapply safe_seq; [intros; apply readyEndpoint_safe; by apply (ok_wired _ _ Ht)|].
  intros m r ap1 h1 [-> _]. by apply safe_ret.
Qed.
End Calls.
