(* ===== verification/CoordinatorStatus.v ===== *)
(** * The status of an admission coordinator

    What [AdmissionCoordinator.Snapshot] reports: one status per activatable
    target, with the counters that the critical section read, and one per
    controller of a dynamic target, with the sums of its bindings. *)

From stdpp Require Import base gmap list strings sorting.
From Stdlib Require Import ZArith Lia.
From ITree Require Import ITree.
From S2P Require Import Prelude GoStrings Policies Capabilities Config Fields Settings.
From S2P Require Import Endpoints Lifecycle LifecycleStatus StatusTheorems Admission Coordinator Threads.
From S2P Require Import CoordinatorFacts.

Local Open Scope Z_scope.
Local Open Scope go_scope.

(** ** What a snapshot says *)

Definition activatable (t : Target) : bool := String.eqb (tg_Source t) EndpointActivatable.

Definition sum_of {A} (f : A -> Z) (l : list A) : Z := foldr (fun x n => f x + n) 0 l.

Lemma sum_of_Permutation {A} (f : A -> Z) l k : l ≡ₚ k -> sum_of f l = sum_of f k.
Proof. unfold sum_of. induction 1; cbn; lia. Qed.

(** The statuses of the bindings of a controller. *)
Definition bindings_of (controller : string) (l : list BindingStatus) : list BindingStatus :=
  List.filter (fun b => String.eqb (bst_Controller b) controller) l.

(** The counters of a controller are the sums of those of its bindings. *)
Record totals (l : list BindingStatus) (a : ControllerStatus) : Prop := {
  to_bindings : cst_Bindings a = int64 (Z.of_nat (length (bindings_of (cst_Controller a) l)));
  to_leases : cst_ActiveLeases a = int64 (sum_of bst_ActiveLeases (bindings_of (cst_Controller a) l));
  to_waiters : cst_QueuedWaiters a = int64 (sum_of bst_QueuedWaiters (bindings_of (cst_Controller a) l));
  to_bytes : cst_QueuedBodyBytes a = int64 (sum_of bst_QueuedBodyBytes (bindings_of (cst_Controller a) l));
}.

(** The counters of a binding are those of its state. *)
Record counts (t : Target) (state : admissionBindingState) (b : BindingStatus) : Prop := {
  cn_deployment : bst_Deployment b = tg_Deployment t;
  cn_controller : bst_Controller b = b_Controller (tg_Binding t);
  cn_leases : bst_ActiveLeases b = abs_activeLeases state;
  cn_waiters : bst_QueuedWaiters b = abs_queuedWaiters state;
  cn_bytes : bst_QueuedBodyBytes b = abs_queuedBodyBytes state;
  cn_limits : bst_MaxQueuedWaiters b = b_MaxQueuedWaiters (tg_Binding t) /\
    bst_MaxQueuedBodyBytes b = b_MaxQueuedBodyBytes (tg_Binding t);
}.

Section Status.
Context `{NetURL} `{UnicodeTables} (c : AdmissionCoordinator).

Definition state_of (bindings : gmap string admissionBindingState) (t : Target) : admissionBindingState :=
  default no_binding_state (bindings !! ActivationKey (tg_Binding t)).

(** A snapshot of the bindings. *)
Record snapshot_of_bindings (bindings : gmap string admissionBindingState) (s : LifecycleStatus.Snapshot)
  : Prop := {
  sb_bindings : NoDup (bst_Deployment <$> snap_Bindings s) /\
    sorted_by (fun x y => String.ltb (bst_Deployment x) (bst_Deployment y)) (snap_Bindings s);
  sb_targets d : d ∈ bst_Deployment <$> snap_Bindings s <-> IsActivatable c d = true;
  sb_counts b : b ∈ snap_Bindings s ->
    exists t, ac_targets c !! bst_Deployment b = Some t /\ counts t (state_of bindings t) b;
  sb_controllers : NoDup (cst_Controller <$> snap_Controllers s) /\
    sorted_by by_controller (snap_Controllers s);
  sb_dynamic co : co ∈ cst_Controller <$> snap_Controllers s <->
    exists d t, ac_targets c !! d = Some t /\ tg_Source t <> EndpointStatic /\ tg_Controller t = co;
  sb_totals a : a ∈ snap_Controllers s -> totals (snap_Bindings s) a;
}.

Context (Hok : coordinator_ok c) (observedAt : Z) (bindings : gmap string admissionBindingState).

(** ** The loop over the targets *)
Definition same_controller (t : Target) : Prop :=
  activatable t = true -> tg_Controller t = b_Controller (tg_Binding t).

Record targets_seen (ts : list Target) (acc : gmap string ControllerStatus * list BindingStatus)
  : Prop := {
  ts_statuses : Forall2 (fun t b => counts t (state_of bindings t) b) (List.filter activatable ts) acc.2;
  ts_totals co : let a := default (new_aggregate co observedAt) (acc.1 !! co) in
    cst_Controller a = co /\ totals acc.2 a;
  ts_dom co : co ∈ dom acc.1 <-> exists t, t ∈ ts /\ tg_Source t <> EndpointStatic /\ tg_Controller t = co;
}.

Lemma sum_of_app {A} (f : A -> Z) l k : sum_of f (l ++ k) = sum_of f l + sum_of f k.
Proof.
  induction l as [|x l IH]; [done|].
  change (f x + sum_of f (l ++ k) = f x + sum_of f l + sum_of f k). lia.
Qed.

Lemma totals_add l a t observed :
  totals l a -> cst_Controller a = b_Controller (tg_Binding t) ->
  totals (l ++ [binding_status t (state_of bindings t) observed observedAt])
    (add_binding (state_of bindings t) a).
Proof.
  intros [T1 T2 T3 T4] E. destruct a as [co he ua bi en re al qw qb rs]. cbn in *. subst co.
  split; cbn; unfold bindings_of in *; rewrite List.filter_app, ?length_app, ?sum_of_app; cbn [List.filter];
    cbn [binding_status bst_Controller]; rewrite String.eqb_refl; cbn.
  - rewrite T1, int64_add. apply (f_equal int64). lia.
  - rewrite T2, int64_add. apply (f_equal int64). lia.
  - rewrite T3, int64_add. apply (f_equal int64). lia.
  - rewrite T4, int64_add. apply (f_equal int64). lia.
Qed.

Lemma totals_other l a b : totals l a -> cst_Controller a <> bst_Controller b -> totals (l ++ [b]) a.
Proof.
  intros [T1 T2 T3 T4] E.
  assert (Hb : bindings_of (cst_Controller a) (l ++ [b]) = bindings_of (cst_Controller a) l).
  { unfold bindings_of. rewrite List.filter_app. cbn [List.filter].
    rewrite (proj2 (String.eqb_neq _ _)) by (by apply not_eq_sym). apply app_nil_r. }
  split; rewrite Hb; assumption.
Qed.

Lemma totals_counters l a a' :
  totals l a -> cst_Controller a' = cst_Controller a -> cst_Bindings a' = cst_Bindings a ->
  cst_ActiveLeases a' = cst_ActiveLeases a -> cst_QueuedWaiters a' = cst_QueuedWaiters a ->
  cst_QueuedBodyBytes a' = cst_QueuedBodyBytes a -> totals l a'.
Proof. intros [T1 T2 T3 T4] E1 E2 E3 E4 E5.
  split; [rewrite E2, T1|rewrite E3, T2|rewrite E4, T3|rewrite E5, T4]; rewrite E1; reflexivity. Qed.

Lemma targets_seen_static ts acc t :
  targets_seen ts acc -> tg_Source t = EndpointStatic -> targets_seen (ts ++ [t]) acc.
Proof.
  intros [S1 S2 S3] Hs. split.
  - rewrite List.filter_app. cbn. unfold activatable at 2. rewrite Hs. cbn. by rewrite app_nil_r.
  - done.
  - intros co. rewrite S3. setoid_rewrite elem_of_app. setoid_rewrite list_elem_of_singleton. naive_solver.
Qed.

(** The aggregate of a dynamic target is updated. *)
Lemma targets_seen_dynamic ts acc t a statuses :
  targets_seen ts acc -> tg_Source t <> EndpointStatic -> cst_Controller a = tg_Controller t ->
  Forall2 (fun t b => counts t (state_of bindings t) b)
    (List.filter activatable (ts ++ [t])) (acc.2 ++ statuses) ->
  totals (acc.2 ++ statuses) a ->
  Forall (fun b => bst_Controller b = tg_Controller t) statuses -> (length statuses <= 1)%nat ->
  targets_seen (ts ++ [t]) (<[tg_Controller t := a]> acc.1, acc.2 ++ statuses).
Proof.
  intros [S1 S2 S3] Hs Ha Hf Ht Hst Hl. split; cbn [fst snd].
  - done.
  - intros co. destruct (decide (tg_Controller t = co)) as [<-|Hne].
    + rewrite lookup_insert_eq. by split.
    + rewrite lookup_insert_ne by done. destruct (S2 co) as [E1 E2]. split; [done|].
      destruct statuses as [|b [|? ?]]; [by rewrite app_nil_r| |cbn in Hl; lia].
      apply totals_other; [done|]. rewrite Forall_singleton in Hst. intros E. apply Hne. by rewrite <- Hst, <- E, E1.
  - intros co. rewrite dom_insert, elem_of_union, elem_of_singleton, S3.
    setoid_rewrite elem_of_app. setoid_rewrite list_elem_of_singleton. naive_solver.
Qed.

Lemma target_status_safe n ts acc t ap h Q :
  wired c -> same_controller t -> targets_seen ts acc ->
  (forall acc' ap', targets_seen (ts ++ [t]) acc' -> Q acc' ap' h) ->
  safe c n (target_status c observedAt bindings acc t) ap h Q.
Proof.
  intros Hw Hsame Hseen HQ. destruct acc as [aggregates statuses]. unfold target_status.
  destruct (String.eqb_spec (tg_Source t) EndpointStatic) as [Hs|Hs].
  { apply safe_ret, HQ. by apply targets_seen_static. }
  apply safe_call; [by apply (wd_registry c Hw)|]. intros m r _. cbn [effect approve].
  set (ready := match r with inr l => _ | inl _ => _ end). clearbody ready. clear r.
  destruct (ts_totals _ _ Hseen (tg_Controller t)) as [A1 A2]. cbn [fst snd] in A1, A2.
  set (a := default _ (aggregates !! tg_Controller t)) in *. clearbody a.
  assert (A3 : totals statuses (add_ready ready a)) by (destruct a; by eapply totals_counters).
  assert (A4 : cst_Controller (add_ready ready a) = tg_Controller t) by (by destruct a).
  set (a' := add_ready ready a) in *. clearbody a'. clear a A1 A2.
  destruct (String.eqb_spec (tg_Source t) EndpointActivatable) as [Ha|Ha]; cbn [negb].
  - assert (Hac : activatable t = true) by (unfold activatable; by rewrite Ha).
    assert (Hend : forall observed ap', Q (<[tg_Controller t := add_binding (state_of bindings t) a']> aggregates,
      statuses ++ [binding_status t (state_of bindings t) observed observedAt]) ap' h).
    { intros observed ap'. apply HQ.
      apply (targets_seen_dynamic ts (aggregates, statuses)); cbn [fst snd]; try done.
      - by destruct a'.
      - rewrite List.filter_app. apply Forall2_app; [apply (ts_statuses _ _ Hseen)|].
        cbn. rewrite Hac. repeat constructor.
      - apply totals_add; [done|]. rewrite A4. by apply Hsame.
      - constructor; [|constructor]. cbn. symmetry. by apply Hsame. }
    case_bool_decide as Hc.
    + apply (safe_seq _ _ _ _ _ _ (fun _ _ h' => h' = h)); [|intros m' observed ap' h' ->; apply safe_ret, Hend].
      intros k. apply safe_call; [done|]. intros m' s _. by apply safe_ret.
    + apply (safe_seq _ _ _ _ _ _ (fun _ _ h' => h' = h)); [|intros m' observed ap' h' ->; apply safe_ret, Hend].
      intros k. by apply safe_ret.
  - apply safe_ret, HQ. rewrite <- (app_nil_r statuses).
    apply (targets_seen_dynamic ts (aggregates, statuses)); cbn [fst snd]; try done.
    + rewrite List.filter_app, app_nil_r. cbn. unfold activatable at 2.
      rewrite (proj2 (String.eqb_neq _ _) Ha), app_nil_r. apply (ts_statuses _ _ Hseen).
    + by rewrite app_nil_r.
    + cbn. lia.
Qed.

Lemma target_statuses_safe n ts seen acc ap h Q :
  (forall t, t ∈ ts -> same_controller t) -> (Exists (fun t => tg_Source t <> EndpointStatic) ts -> wired c) ->
  targets_seen seen acc -> (forall acc' ap', targets_seen (seen ++ ts) acc' -> Q acc' ap' h) ->
  safe c n (target_statuses c observedAt bindings acc ts) ap h Q.
Proof.
  revert n seen acc ap. induction ts as [|t ts IH]; intros n seen acc ap Hsame Hw Hseen HQ; cbn [target_statuses].
  { apply safe_ret, HQ. by rewrite app_nil_r. }
  apply (safe_seq _ _ _ _ _ _ (fun acc' _ h' => targets_seen (seen ++ [t]) acc' /\ h' = h)).
  - intros k. destruct (decide (tg_Source t = EndpointStatic)) as [Hs|Hs].
    + destruct acc as [aggregates statuses]. unfold target_status. rewrite (proj2 (String.eqb_eq _ _) Hs).
      apply safe_ret. split; [by apply targets_seen_static|done].
    + eapply target_status_safe; [apply Hw; by constructor|apply Hsame; by left|done|by intros].
  - intros m acc' ap' h' [Hseen' ->]. apply (IH _ (seen ++ [t])); [|by intros; apply Hw; constructor|done|].
    + intros t' Ht'. apply Hsame. by right.
    + intros acc1 ap1. rewrite <- app_assoc. apply HQ.
Qed.

(** ** The endpoints of the controllers *)

(** The aggregates with other numbers of endpoints. *)
Definition same_but_endpoints (a a' : gmap string ControllerStatus) : Prop :=
  forall co, match a !! co, a' !! co with
  | Some x, Some y => exists v, y = x \/ y = set_Endpoints v x
  | None, None => True
  | _, _ => False
  end.

Lemma set_Endpoints_twice v w x : set_Endpoints v (set_Endpoints w x) = set_Endpoints v x.
Proof. by destruct x. Qed.

Lemma count_endpoints_safe n a a' controllers ap h Q :
  ac_inspector c = true -> same_but_endpoints a a' ->
  (forall a1 ap1, same_but_endpoints a a1 -> Q a1 ap1 h) ->
  safe c n (count_endpoints a' controllers) ap h Q.
Proof.
  intros Hi. revert n a' ap. induction controllers as [|co controllers IH]; intros n a' ap Ha HQ; cbn [count_endpoints].
  { by apply safe_ret, HQ. }
  apply safe_call; [done|]. intros m r _. cbn [effect approve]. apply IH; [|done].
  destruct r as [err|page]; [done|]. intros co'. specialize (Ha co').
  destruct (decide (co = co')) as [<-|Hne]; [|by rewrite lookup_alter_ne].
  rewrite lookup_alter_eq. destruct (a !! co) as [x|], (a' !! co) as [y|]; cbn in *; try done.
  destruct Ha as [v Ha]. exists (Z.of_nat (length (page_Endpoints page))). right.
  destruct Ha as [->| ->]; [done|apply set_Endpoints_twice].
Qed.

Lemma same_but_endpoints_totals a a' l co x :
  same_but_endpoints a a' -> a' !! co = Some x ->
  exists y, a !! co = Some y /\ cst_Controller x = cst_Controller y /\ (totals l y -> totals l x).
Proof.
  intros Ha Hx. specialize (Ha co). rewrite Hx in Ha. destruct (a !! co) as [y|]; [|done].
  exists y. split; [done|]. destruct Ha as [v [->| ->]]; [done|]. destruct y. split; [done|].
  intros Ht. by eapply totals_counters.
Qed.

Lemma same_but_endpoints_dom a a' : same_but_endpoints a a' -> dom a' = dom a.
Proof.
  intros Ha. apply set_eq. intros co. rewrite !elem_of_dom. specialize (Ha co).
  destruct (a !! co), (a' !! co); cbn in Ha; try done; by rewrite !is_Some_alt.
Qed.

(** ** The snapshot *)

Lemma in_range_order {V} (m : gmap string V) names x :
  names ≡ₚ elements (dom m) -> x ∈ omap (fun d => m !! d) names <-> exists d, m !! d = Some x.
Proof.
  intros Hn. rewrite list_elem_of_omap. split; [intros (d & _ & E); by exists d|].
  intros [d E]. exists d. split; [|done]. rewrite Hn. apply elem_of_elements, elem_of_dom. by exists x.
Qed.

Lemma range_order_keys {V} (m : gmap string V) (key : V -> string) names :
  (forall d v, m !! d = Some v -> key v = d) -> names ≡ₚ elements (dom m) ->
  key <$> omap (fun d => m !! d) names = names.
Proof.
  intros Hk Hn. assert (Hin : forall d, d ∈ names -> is_Some (m !! d)).
  { intros d Hd. rewrite Hn in Hd. by apply elem_of_elements, elem_of_dom in Hd. }
  clear Hn. induction names as [|d names IH]; [done|]. cbn [omap list_omap].
  destruct (Hin d) as [v E]; [by left|]. rewrite E. cbn [fmap list_fmap]. rewrite (Hk d v E). f_equal.
  apply IH. intros d' Hd'. apply Hin. by right.
Qed.

Lemma counts_deployments ts l :
  Forall2 (fun t b => counts t (state_of bindings t) b) ts l -> bst_Deployment <$> l = tg_Deployment <$> ts.
Proof. induction 1 as [|t b ts l Hb Hl IH]; [done|]. cbn. by rewrite IH, (cn_deployment _ _ _ Hb). Qed.

Lemma seen_snapshot names acc aggregates controllers :
  names ≡ₚ elements (dom (ac_targets c)) ->
  targets_seen (omap (fun d => ac_targets c !! d) names) acc ->
  same_but_endpoints acc.1 aggregates -> controllers ≡ₚ elements (dom aggregates) ->
  snapshot_of_bindings bindings
    {| snap_ObservedAt := observedAt;
       snap_Controllers := stable_sort by_controller (omap (fun co => aggregates !! co) controllers);
       snap_Bindings := stable_sort (fun x y => String.ltb (bst_Deployment x) (bst_Deployment y)) acc.2 |}.
Proof.
  intros Hn [S1 S2 S3] Ha Hc. set (ts := omap _ names) in *.
  assert (Hin : forall t, t ∈ ts <-> exists d, ac_targets c !! d = Some t) by (intros; by apply in_range_order).
  assert (Hkeys : tg_Deployment <$> ts = names) by (apply range_order_keys; [apply (co_deployment c Hok)|done]).
  assert (Hnd : NoDup names) by (rewrite Hn; apply NoDup_elements).
  assert (Hagg : forall co a, aggregates !! co = Some a -> cst_Controller a = co /\ totals acc.2 a).
  { intros co a E. destruct (same_but_endpoints_totals _ _ acc.2 co a Ha E) as (y & Ey & E1 & E2).
    destruct (S2 co) as [T1 T2]. rewrite Ey in T1, T2. cbn in T1, T2. rewrite E1. split; [done|by apply E2]. }
  assert (Hck : cst_Controller <$> omap (fun co => aggregates !! co) controllers = controllers)
    by (apply range_order_keys; [intros; by apply Hagg|done]).
  pose proof (counts_deployments _ _ S1) as Hdep.
  assert (Hact : forall d, d ∈ tg_Deployment <$> List.filter activatable ts <-> IsActivatable c d = true).
  { intros d. rewrite list_elem_of_fmap. unfold IsActivatable. split.
    - intros (t & -> & Ht). apply list_elem_of_In, List.filter_In in Ht as [Ht Hat].
      apply list_elem_of_In, Hin in Ht as [d' Hd']. by rewrite (co_deployment c Hok _ _ Hd'), Hd'.
    - destruct (ac_targets c !! d) as [t|] eqn:E; [|done]. intros Hat. exists t.
      split; [symmetry; by apply (co_deployment c Hok)|].
      apply list_elem_of_In, List.filter_In. split; [|done]. apply list_elem_of_In, Hin. by exists d. }
  split; cbn [snap_Bindings snap_Controllers].
  - split; [|apply stable_sort_sorted; apply _].
    rewrite stable_sort_Permutation, Hdep. rewrite <- Hkeys in Hnd. eapply sublist_NoDup; [exact Hnd|].
    apply fmap_sublist, filter_sublist.
  - intros d. rewrite stable_sort_Permutation, Hdep. apply Hact.
  - intros b. rewrite stable_sort_Permutation. intros Hb.
    apply list_elem_of_lookup in Hb as [i Hi]. destruct (Forall2_lookup_r _ _ _ _ _ S1 Hi) as (t & Ht & Hcn).
    exists t. split; [|done]. rewrite (cn_deployment _ _ _ Hcn).
    apply list_elem_of_lookup_2, list_elem_of_In, List.filter_In in Ht as [Ht _].
    apply list_elem_of_In, Hin in Ht as [d Hd]. by rewrite (co_deployment c Hok _ _ Hd).
  - split; [|apply stable_sort_sorted; apply _]. rewrite stable_sort_Permutation, Hck, Hc. apply NoDup_elements.
  - intros co. rewrite stable_sort_Permutation, Hck, Hc, elem_of_elements.
    rewrite (same_but_endpoints_dom _ _ Ha), S3. setoid_rewrite Hin. naive_solver.
  - intros a. rewrite stable_sort_Permutation, in_range_order by done. intros [co E].
    destruct (Hagg co a E) as [_ [T1 T2 T3 T4]].
    assert (Hp : forall co, bindings_of co (stable_sort (fun x y => String.ltb (bst_Deployment x) (bst_Deployment y)) acc.2)
               ≡ₚ bindings_of co acc.2) by (intros; apply filter_Permutation, stable_sort_Permutation).
    split; [rewrite T1|rewrite T2|rewrite T3|rewrite T4]; f_equal; [by rewrite Hp|apply sum_of_Permutation; by rewrite Hp..].
Qed.

Lemma snapshot_from_safe n ap h :
  safe c n (snapshot_from c observedAt bindings) ap h
    (fun s _ h' => h' = h /\ snapshot_of_bindings bindings s).
Proof.
  unfold snapshot_from. apply safe_call; [done|]. intros m names Hn. cbn [effect approve answers] in *.
  set (ts := omap _ names).
  assert (Hin : forall t, t ∈ ts <-> exists d, ac_targets c !! d = Some t) by (intros; by apply in_range_order).
  apply (safe_seq _ _ _ _ _ _ (fun acc _ h' => targets_seen ts acc /\ h' = h)).
  - intros k. apply (target_statuses_safe _ _ []).
    + intros t [d Hd]%Hin Ha. apply (co_controller c Hok d); [done|by apply String.eqb_eq].
    + intros (t & [d Hd]%Hin & Hs)%Exists_exists. by apply (ok_wired c Hok d t).
    + split; cbn; [constructor| |]; [intros co; by split; [|split]|].
      intros co. rewrite dom_empty. split; [set_solver|]. intros (t & Ht & _). by apply elem_of_nil in Ht.
    + by intros.
  - intros k [aggregates statuses] ap1 h1 [Hseen ->].
    apply (safe_seq _ _ _ _ _ _ (fun a _ h' => same_but_endpoints aggregates a /\ h' = h)).
    + assert (Hrefl : same_but_endpoints aggregates aggregates).
      { intros co. destruct (aggregates !! co) as [x|]; [|done]. exists 0. by left. }
      intros k1. destruct (ac_inspector c) eqn:Hi; [|by apply safe_ret].
      apply safe_call; [done|]. intros k2 controllers _. by apply (count_endpoints_safe _ aggregates).
    + intros k1 a ap2 h2 [Ha ->]. apply safe_call; [done|]. intros k2 controllers Hc.
      apply safe_ret. split; [done|]. by apply (seen_snapshot names (aggregates, statuses)).
Qed.
End Status.

Lemma snapshot_call_safe `{NetURL} `{UnicodeTables} c n ap :
  coordinator_ok c -> safe c n (snapshot_call c) ap empty_hand (fun r _ h => finished r h).
Proof.
  intros Hok. unfold snapshot_call. apply (safe_seq _ _ _ _ _ _ (fun _ _ h => h = empty_hand));
    [|intros m r ap' h' ->; by apply safe_ret].
  clear n. intros n. apply safe_call; [done|]. intros m [err|] _; [by apply safe_ret|].
  apply safe_call; [done|]. intros m1 now _. apply safe_call; [done|]. intros m2 bindings _.
  eapply safe_seq; [intros; by apply snapshot_from_safe|].
  intros m3 r ap' h' [-> _]. by apply safe_ret.
Qed.
