(* ===== verification/CoordinatorSystem.v ===== *)
(** * Concurrent use of an admission coordinator

    Requests, operator starts, readiness checks and releases run as threads
    over the state that [mu] guards.  One event of one thread is a step: a
    critical section acts on the state, any other event gets an arbitrary
    answer, so registries, controllers, clocks, contexts and schedulers are all
    arbitrary. *)

From stdpp Require Import base gmap list strings sorting.
From Stdlib Require Import ZArith Lia.
From ITree Require Import ITree.
From S2P Require Import Prelude GoStrings Policies Capabilities Config Fields Settings.
From S2P Require Import Endpoints Lifecycle LifecycleStatus Admission Coordinator Threads CoordinatorFacts.
From S2P Require Import CoordinatorStatus.

Local Open Scope Z_scope.
Local Open Scope go_scope.

(** ** Transitions *)

(** A thread: what remains of its call, and what it has in hand. *)
Record thread := mkThread {
  th_rest : itree coordE (option AdmissionLease);
  th_hand : hand;
}.

Record system := mkSystem {
  sy_state : admissionState;
  sy_threads : gmap nat thread;
  sy_leases : gmap nat AdmissionLease;
  sy_approved : list Endpoint;
}.

(** What an event does to the guarded state, with its answer. *)
Definition performs {A} (e : coordE A) : A -> admissionState -> admissionState -> Prop :=
  match e in coordE A return A -> admissionState -> admissionState -> Prop with
  | Locked sec => fun a s s' => exists now, run_section sec now s = Some (a, s')
  | Iterate keys => fun names s s' => names ≡ₚ elements keys /\ s' = s
  | _ => fun _ s s' => s' = s
  end.

Section System.
Context `{NetURL} `{UnicodeTables} (c : AdmissionCoordinator).

Inductive sys_step (s : system) : system -> Prop :=
  | step_acquire id request :
      sy_threads s !! id = None ->
      sys_step s (mkSystem (sy_state s)
        (<[id := mkThread (acquire_call c request) empty_hand]> (sy_threads s))
        (sy_leases s) (sy_approved s))
  | step_start id deployment :
      sy_threads s !! id = None ->
      sys_step s (mkSystem (sy_state s)
        (<[id := mkThread (start_call c deployment) empty_hand]> (sy_threads s))
        (sy_leases s) (sy_approved s))
  | step_ready id deployment :
      sy_threads s !! id = None ->
      sys_step s (mkSystem (sy_state s)
        (<[id := mkThread (ready_call c deployment) empty_hand]> (sy_threads s))
        (sy_leases s) (sy_approved s))
  | step_snapshot id :
      sy_threads s !! id = None ->
      sys_step s (mkSystem (sy_state s)
        (<[id := mkThread (snapshot_call c) empty_hand]> (sy_threads s))
        (sy_leases s) (sy_approved s))
  | step_release id lid lease outcome :
      sy_threads s !! id = None -> sy_leases s !! lid = Some lease ->
      sys_step s (mkSystem (sy_state s)
        (<[id := mkThread (release_call c lease outcome) (mkHand None (Some lease) [] [])]> (sy_threads s))
        (delete lid (sy_leases s)) (sy_approved s))
  | step_tau id t t' h :
      sy_threads s !! id = Some (mkThread t h) -> observe t = TauF t' ->
      sys_step s (mkSystem (sy_state s) (<[id := mkThread t' h]> (sy_threads s))
        (sy_leases s) (sy_approved s))
  | step_event id t h A (e : coordE A) k a st :
      sy_threads s !! id = Some (mkThread t h) -> observe t = VisF e k ->
      performs e a (sy_state s) st ->
      sys_step s (mkSystem st (<[id := mkThread (k a) (effect e a h)]> (sy_threads s))
        (sy_leases s) (approve e a (sy_approved s)))
  | step_return id t h r lid :
      sy_threads s !! id = Some (mkThread t h) -> observe t = RetF r -> sy_leases s !! lid = None ->
      sys_step s (mkSystem (sy_state s) (delete id (sy_threads s))
        (match r with Some lease => <[lid := lease]> (sy_leases s) | None => sy_leases s end)
        (sy_approved s)).

Inductive sys_reach (st : admissionState) : system -> Prop :=
  | sys_reach_start : sys_reach st (mkSystem st ∅ ∅ [])
  | sys_reach_step s s' : sys_reach st s -> sys_step s s' -> sys_reach st s'.

(** ** Counting *)

(** The binding key that a lease occupies. *)
Definition lease_key (l : AdmissionLease) : option string :=
  target ← ac_targets c !! al_deployment l;
  if String.eqb (tg_Source target) EndpointActivatable
  then Some (ActivationKey (tg_Binding target)) else None.

Definition bool_Z (b : bool) : Z := if b then 1 else 0.

Lemma bool_Z_nonneg b : 0 <= bool_Z b.
Proof. destruct b; simpl; lia. Qed.

Definition waits_on (key : string) (h : hand) : bool :=
  match h_waiting h with Some (k, _) => String.eqb k key | None => false end.
Definition waiting_bytes (key : string) (h : hand) : Z :=
  match h_waiting h with Some (k, n) => if String.eqb k key then n else 0 | None => 0 end.
Definition lease_on (key : string) (l : AdmissionLease) : bool :=
  bool_decide (lease_key l = Some key).
Definition lease_at (id : string) (l : AdmissionLease) : bool :=
  String.eqb (ep_ID (al_Endpoint l)) id.
Definition admitted_to (P : AdmissionLease -> bool) (h : hand) : bool :=
  match h_admitted h with Some l => P l | None => false end.

(** The threads in the queue of a binding and the bytes they hold there. *)
Definition waiters (key : string) (s : system) : Z :=
  sum_map (fun t => bool_Z (waits_on key (th_hand t))) (sy_threads s).
Definition queued_bytes (key : string) (s : system) : Z :=
  sum_map (fun t => waiting_bytes key (th_hand t)) (sy_threads s).

(** The admissions in use: those of threads and those of leases not released. *)
Definition in_use (P : AdmissionLease -> bool) (s : system) : Z :=
  sum_map (fun t => bool_Z (admitted_to P (th_hand t))) (sy_threads s) +
  sum_map (fun l => bool_Z (P l)) (sy_leases s).

(** ** The invariant *)

(** A lease that was rightly admitted. *)
Definition lease_ok (approved : list Endpoint) (l : AdmissionLease) : Prop :=
  exists t, ac_targets c !! al_deployment l = Some t /\
    endpoint_mismatch t (al_Endpoint l) = None /\ al_Endpoint l ∈ approved.

(** A binding state against the threads and leases. *)
Record binding_ok (b : Binding) (bs : admissionBindingState) (s : system) : Prop := {
  bo_waiters : abs_queuedWaiters bs = waiters (ActivationKey b) s;
  bo_waiters_limit : abs_queuedWaiters bs <= b_MaxQueuedWaiters b;
  bo_bytes : abs_queuedBodyBytes bs = queued_bytes (ActivationKey b) s;
  bo_bytes_limit : abs_queuedBodyBytes bs <= b_MaxQueuedBodyBytes b;
  bo_leases : abs_activeLeases bs = in_use (lease_on (ActivationKey b)) s;
}.

(** A thread that its remaining events handle well. *)
Definition thread_ok (approved : list Endpoint) (t : thread) : Prop :=
  (exists ap, ap ⊆ approved /\
     forall n, safe c n (th_rest t) ap (th_hand t) (fun r _ h => finished r h)) /\
  (forall l, h_admitted (th_hand t) = Some l -> lease_ok approved l) /\
  (forall key n, h_waiting (th_hand t) = Some (key, n) -> 0 <= n).

Record sys_inv (s : system) : Prop := {
  si_thread id t : sy_threads s !! id = Some t -> thread_ok (sy_approved s) t;
  si_lease lid l : sy_leases s !! lid = Some l -> lease_ok (sy_approved s) l;
  si_binding b : is_binding c b ->
    exists bs, as_bindings (sy_state s) !! ActivationKey b = Some bs /\ binding_ok b bs s;
  si_active id : active_of (sy_state s) id = in_use (lease_at id) s;
}.

(** ** The sums after a step *)

(** A thread is added, with the sums it brings. *)
Lemma sums_insert st s id t leases ap key P :
  sy_threads s !! id = None ->
  let s' := mkSystem st (<[id := t]> (sy_threads s)) leases ap in
  waiters key s' = bool_Z (waits_on key (th_hand t)) + waiters key s /\
  queued_bytes key s' = waiting_bytes key (th_hand t) + queued_bytes key s /\
  in_use P s' = bool_Z (admitted_to P (th_hand t)) + in_use P s
                - sum_map (fun l => bool_Z (P l)) (sy_leases s) + sum_map (fun l => bool_Z (P l)) leases.
Proof.
  intros Hi. unfold waiters, queued_bytes, in_use. cbn [sy_threads sy_leases].
  rewrite !sum_map_insert by done. lia.
Qed.

(** A thread moves on. *)
Lemma sums_update st s id t t' ap key P :
  sy_threads s !! id = Some t ->
  let s' := mkSystem st (<[id := t']> (sy_threads s)) (sy_leases s) ap in
  waiters key s' = waiters key s - bool_Z (waits_on key (th_hand t)) + bool_Z (waits_on key (th_hand t')) /\
  queued_bytes key s' = queued_bytes key s - waiting_bytes key (th_hand t) + waiting_bytes key (th_hand t') /\
  in_use P s' = in_use P s - bool_Z (admitted_to P (th_hand t)) + bool_Z (admitted_to P (th_hand t')).
Proof.
  intros Hi. unfold waiters, queued_bytes, in_use. cbn [sy_threads sy_leases].
  rewrite (sum_map_update _ _ _ t' t), (sum_map_update _ _ _ t' t), (sum_map_update _ _ _ t' t) by done. lia.
Qed.

(** A thread returns, with its lease or without one. *)
Lemma sums_return st s id t r lid ap key P :
  sy_threads s !! id = Some t -> finished r (th_hand t) -> sy_leases s !! lid = None ->
  let s' := mkSystem st (delete id (sy_threads s))
              (match r with Some lease => <[lid := lease]> (sy_leases s) | None => sy_leases s end) ap in
  waiters key s' = waiters key s /\ queued_bytes key s' = queued_bytes key s /\
  in_use P s' = in_use P s.
Proof.
  intros Hi Hf Hl. unfold waiters, queued_bytes, in_use. cbn [sy_threads sy_leases].
  rewrite !(sum_map_delete _ _ _ t) by done. unfold finished in Hf. rewrite Hf.
  destruct r as [l|]; cbn; [rewrite sum_map_insert by done|]; lia.
Qed.

(** What a binding state depends on. *)
Definition same_sums (key : string) (s s' : system) : Prop :=
  waiters key s' = waiters key s /\ queued_bytes key s' = queued_bytes key s /\
  in_use (lease_on key) s' = in_use (lease_on key) s.

Lemma binding_ok_same b bs s s' :
  same_sums (ActivationKey b) s s' -> binding_ok b bs s -> binding_ok b bs s'.
Proof. intros (E1 & E2 & E3) [H1 H2 H3 H4 H5]. split; congruence. Qed.

(** The parts of the hand that the sums depend on. *)
Definition same_place (h h' : hand) : Prop :=
  h_waiting h' = h_waiting h /\ h_admitted h' = h_admitted h.

Lemma same_place_sums h h' key P :
  same_place h h' ->
  waits_on key h' = waits_on key h /\ waiting_bytes key h' = waiting_bytes key h /\
  admitted_to P h' = admitted_to P h.
Proof. unfold waits_on, waiting_bytes, admitted_to. by intros [-> ->]. Qed.

(** Steps that move no thread in the queue and change no admission. *)
Lemma inv_same_place s id t t' st ap :
  sys_inv s -> sy_threads s !! id = Some t -> same_place (th_hand t) (th_hand t') ->
  (forall key bs, as_bindings (sy_state s) !! key = Some bs ->
     exists bs', as_bindings st !! key = Some bs' /\ abs_queuedWaiters bs' = abs_queuedWaiters bs /\
       abs_queuedBodyBytes bs' = abs_queuedBodyBytes bs /\ abs_activeLeases bs' = abs_activeLeases bs) ->
  as_endpointActive st = as_endpointActive (sy_state s) ->
  sy_approved s ⊆ ap -> thread_ok ap t' ->
  (forall t, thread_ok (sy_approved s) t -> thread_ok ap t) ->
  (forall l, lease_ok (sy_approved s) l -> lease_ok ap l) ->
  sys_inv (mkSystem st (<[id := t']> (sy_threads s)) (sy_leases s) ap).
Proof.
  intros [I1 I2 I3 I4] Ht Hp Hb Ha Hs Hok Htm Hlm.
  assert (Hsum : forall key P, same_sums key s (mkSystem st (<[id := t']> (sy_threads s)) (sy_leases s) ap) /\
    in_use P (mkSystem st (<[id := t']> (sy_threads s)) (sy_leases s) ap) = in_use P s).
  { intros key P. pose proof (sums_update st s id t t' ap key P Ht) as (E1 & E2 & E3).
    pose proof (sums_update st s id t t' ap key (lease_on key) Ht) as (_ & _ & E4).
    destruct (same_place_sums _ _ key P Hp) as (F1 & F2 & F3).
    destruct (same_place_sums _ _ key (lease_on key) Hp) as (_ & _ & F4).
    unfold same_sums. rewrite E1, E2, E3, E4, F1, F2, F3, F4. lia. }
  split; cbn [sy_threads sy_leases sy_approved sy_state].
  - intros id' t0 Hin. apply lookup_insert_Some in Hin as [[_ <-]|[_ Hin]]; [done|]. by apply Htm, (I1 id').
  - intros lid l Hl. by apply Hlm, (I2 lid).
  - intros b Hbi. destruct (I3 b Hbi) as (bs & Hbs & [B1 B2 B3 B4 B5]).
    destruct (Hb _ _ Hbs) as (bs' & Hbs' & E1 & E2 & E3). exists bs'. split; [done|].
    destruct (Hsum (ActivationKey b) (lease_on (ActivationKey b))) as [(F1 & F2 & F3) _].
    split; congruence.
  - intros e. unfold active_of. cbn [as_endpointActive]. rewrite Ha.
    destruct (Hsum "" (lease_at e)) as [_ ->]. apply I4.
Qed.

Lemma lease_ok_mono ap ap' l : ap ⊆ ap' -> lease_ok ap l -> lease_ok ap' l.
Proof. intros Hs (t & Ht & Hm & He). exists t. split_and!; auto. Qed.

Lemma thread_ok_mono ap ap' t : ap ⊆ ap' -> thread_ok ap t -> thread_ok ap' t.
Proof.
  intros Hs ((ap0 & Hs0 & Hsafe) & Hl & Hw). split_and!; [|intros l Hl'; by eapply lease_ok_mono, Hl|done].
  exists ap0. split; [by etransitivity|done].
Qed.

(** A thread in its place, with the rest of its call safe from there. *)
Lemma thread_ok_next ap ap1 t h t' :
  thread_ok ap (mkThread t h) -> same_place h (th_hand t') -> ap ⊆ ap1 ->
  (exists ap0, ap0 ⊆ ap1 /\ forall n, safe c n (th_rest t') ap0 (th_hand t') (fun r _ h => finished r h)) ->
  thread_ok ap1 t'.
Proof.
  intros (_ & Hl & Hw) [E1 E2] Hs Hsafe. split; [done|]. cbn in Hl, Hw. rewrite E1, E2.
  split; [|done]. intros l Hl'. eapply lease_ok_mono; [done|by apply Hl].
Qed.

Context (Hok : coordinator_ok c).

(** Bindings of one key are bindings of one target. *)
Lemma is_binding_limits b1 b2 :
  is_binding c b1 -> is_binding c b2 -> ActivationKey b1 = ActivationKey b2 ->
  b_MaxQueuedWaiters b1 = b_MaxQueuedWaiters b2 /\ b_MaxQueuedBodyBytes b1 = b_MaxQueuedBodyBytes b2 /\
  0 < b_MaxQueuedWaiters b1 /\ 0 < b_MaxQueuedBodyBytes b1 <= MaxInt64.
Proof.
  intros (d1 & t1 & H1 & S1 & K1 & W1 & B1) (d2 & t2 & H2 & S2 & K2 & W2 & B2) Hk.
  assert (d1 = d2) as <- by (apply (co_keys c Hok d1 t1 d2 t2); congruence).
  assert (t1 = t2) as <- by congruence. rewrite W1, W2, B1, B2.
  destruct (co_limits c Hok d1 t1 H1 S1). split_and!; try done; lia.
Qed.

(** What the logic promises of the next event. *)
Lemma thread_event s id t h A (e : coordE A) k :
  sys_inv s -> sy_threads s !! id = Some (mkThread t h) -> observe t = VisF e k ->
  exists ap, ap ⊆ sy_approved s /\ requires c ap e h /\
    forall a, answers e a -> forall n, safe c n (k a) (approve e a ap) (effect e a h) (fun r _ h => finished r h).
Proof.
  intros Hi Ht He. destruct (si_thread s Hi id _ Ht) as ((ap & Hs & Hsafe) & _). cbn in Hsafe.
  exists ap. split; [done|]. split.
  - specialize (Hsafe 1%nat). cbn [safe] in Hsafe. rewrite He in Hsafe. apply Hsafe.
  - intros a Ha n. specialize (Hsafe (S n)). cbn [safe] in Hsafe. rewrite He in Hsafe. by apply Hsafe.
Qed.

Lemma approve_mono {A} (e : coordE A) a ap ap' : ap ⊆ ap' -> approve e a ap ⊆ approve e a ap'.
Proof. intros Hs. destruct e; cbn; try done. destruct a; [done|]. set_solver. Qed.

Lemma approve_more {A} (e : coordE A) a ap : ap ⊆ approve e a ap.
Proof. destruct e; cbn; try done. destruct a; [done|]. set_solver. Qed.

(** An event outside the lock. *)
Lemma inv_outside s id t h A (e : coordE A) k a :
  sys_inv s -> sy_threads s !! id = Some (mkThread t h) -> observe t = VisF e k ->
  same_place h (effect e a h) -> answers e a ->
  sys_inv (mkSystem (sy_state s) (<[id := mkThread (k a) (effect e a h)]> (sy_threads s))
             (sy_leases s) (approve e a (sy_approved s))).
Proof.
  intros Hi Ht He Hp Ha. destruct (thread_event s id t h A e k Hi Ht He) as (ap & Hs & _ & Hk).
  apply (inv_same_place s id (mkThread t h)); try done.
  - intros key bs Hbs. by exists bs.
  - apply approve_more.
  - eapply thread_ok_next; [by apply (si_thread s Hi id)|done|apply approve_more|].
    exists (approve e a ap). split; [by apply approve_mono|]. by apply Hk.
  - intros t0. apply thread_ok_mono, approve_more.
  - intros l. apply lease_ok_mono, approve_more.
Qed.

(** ** Critical sections *)

(** The system after a section of thread [id]. *)
Definition after (s : system) (id : nat) (t : thread) (st : admissionState) : system :=
  mkSystem st (<[id := t]> (sy_threads s)) (sy_leases s) (sy_approved s).

(** A section re-establishes the invariant when it does so for each binding and
    each endpoint. *)
Lemma inv_after s id t t' st :
  sys_inv s -> sy_threads s !! id = Some t -> thread_ok (sy_approved s) t' ->
  (forall b bs, is_binding c b -> as_bindings (sy_state s) !! ActivationKey b = Some bs ->
     binding_ok b bs s ->
     exists bs', as_bindings st !! ActivationKey b = Some bs' /\ binding_ok b bs' (after s id t' st)) ->
  (forall e, active_of st e = in_use (lease_at e) (after s id t' st)) ->
  sys_inv (after s id t' st).
Proof.
  intros [I1 I2 I3 I4] Ht Hok' Hb Ha. split; cbn [after sy_threads sy_leases sy_approved sy_state].
  - intros id' t0 Hin. apply lookup_insert_Some in Hin as [[_ <-]|[_ Hin]]; [done|by apply (I1 id')].
  - done.
  - intros b Hbi. destruct (I3 b Hbi) as (bs & Hbs & Hbo). by apply (Hb b bs).
  - done.
Qed.

(** Sections that keep the counters. *)
Lemma inv_keep s id t h A (sec : section A) k a st :
  sys_inv s -> sy_threads s !! id = Some (mkThread t h) -> observe t = VisF (Locked sec) k ->
  answers (Locked sec) a -> section_effect sec a h = h ->
  (forall key bs, as_bindings (sy_state s) !! key = Some bs ->
     exists bs', as_bindings st !! key = Some bs' /\ abs_queuedWaiters bs' = abs_queuedWaiters bs /\
       abs_queuedBodyBytes bs' = abs_queuedBodyBytes bs /\ abs_activeLeases bs' = abs_activeLeases bs) ->
  as_endpointActive st = as_endpointActive (sy_state s) ->
  sys_inv (after s id (mkThread (k a) h) st).
Proof.
  intros Hi Ht He Ha Hh Hb Hact.
  destruct (thread_event s id t h A _ k Hi Ht He) as (ap & Hs & _ & Hk).
  apply (inv_same_place s id (mkThread t h)); try done.
  eapply thread_ok_next; [by apply (si_thread s Hi id)|done|done|]. exists ap. split; [done|].
  intros n. specialize (Hk a Ha n). cbn [approve effect] in Hk. rewrite Hh in Hk. exact Hk.
Qed.

Lemma waits_on_place key key' n h :
  h_waiting h = Some (key, n) ->
  waits_on key' h = String.eqb key key' /\
  waiting_bytes key' h = if String.eqb key key' then n else 0.
Proof. unfold waits_on, waiting_bytes. by intros ->. Qed.

Lemma waits_on_none key h : h_waiting h = None -> waits_on key h = false /\ waiting_bytes key h = 0.
Proof. unfold waits_on, waiting_bytes. by intros ->. Qed.

(** A section that moves a thread into or out of the queue of a binding. *)
Lemma inv_queue s id t h t' binding bs waiting bytes now :
  sys_inv s -> sy_threads s !! id = Some (mkThread t h) -> is_binding c binding ->
  as_bindings (sy_state s) !! ActivationKey binding = Some bs ->
  thread_ok (sy_approved s) t' -> h_admitted (th_hand t') = h_admitted h ->
  let key := ActivationKey binding in
  waiting = abs_queuedWaiters bs - bool_Z (waits_on key h) + bool_Z (waits_on key (th_hand t')) ->
  bytes = abs_queuedBodyBytes bs - waiting_bytes key h + waiting_bytes key (th_hand t') ->
  waiting <= b_MaxQueuedWaiters binding -> bytes <= b_MaxQueuedBodyBytes binding ->
  (forall key', key' <> key -> waits_on key' (th_hand t') = waits_on key' h /\
     waiting_bytes key' (th_hand t') = waiting_bytes key' h) ->
  sys_inv (after s id t' (set_binding key (set_abs_queue waiting bytes now bs) (sy_state s))).
Proof.
  intros Hi Ht Hbi Hbs Hok' Hadm key Hw Hb L1 L2 Hother. set (st := set_binding _ _ _).
  assert (Hsum := fun key P => sums_update st s id _ t' (sy_approved s) key P Ht). cbn [th_hand] in Hsum.
  assert (Hadm' : forall P, admitted_to P (th_hand t') = admitted_to P h).
  { intros P. unfold admitted_to. by rewrite Hadm. }
  apply (inv_after s id (mkThread t h)); [done..| |].
  - intros b bs1 Hb1 Hbs1 Hbo. destruct (decide (ActivationKey b = key)) as [Ek|Ek].
    + destruct (is_binding_limits b binding Hb1 Hbi Ek) as (E1 & E2 & _).
      destruct (Hsum key (lease_on key)) as (S1 & S2 & S3). rewrite Hadm' in S3.
      assert (bs1 = bs) as -> by (unfold key in Ek; congruence). destruct Hbo as [B1 B2 B3 B4 B5].
      rewrite Ek in *. eexists. split; [apply lookup_insert_eq|]. unfold after in *.
      destruct bs; cbn in *. split; cbn; rewrite ?Ek, ?E1, ?E2; fold key in S1, S2, S3; lia.
    + exists bs1. split; [cbn [st set_binding as_bindings]; by rewrite lookup_insert_ne|].
      eapply binding_ok_same; [|done]. destruct (Hother _ Ek) as [W1 W2].
      destruct (Hsum (ActivationKey b) (lease_on (ActivationKey b))) as (S1 & S2 & S3).
      unfold same_sums, after. rewrite S1, S2, S3, Hadm', W1, W2. lia.
  - intros e. destruct (Hsum "" (lease_at e)) as (_ & _ & S3). unfold after. rewrite S3, Hadm'.
    change (active_of st e) with (active_of (sy_state s) e). rewrite (si_active s Hi e). lia.
Qed.

Lemma waiting_bytes_nonneg s id t key :
  sys_inv s -> sy_threads s !! id = Some t -> 0 <= waiting_bytes key (th_hand t).
Proof.
  intros Hi Hin. destruct (si_thread s Hi id _ Hin) as (_ & _ & Hn). unfold waiting_bytes.
  destruct (h_waiting (th_hand t)) as [[k0 n0]|]; [|lia]. destruct (String.eqb _ _); [|lia].
  by eapply Hn.
Qed.

Lemma queued_bytes_nonneg s key : sys_inv s -> 0 <= queued_bytes key s.
Proof. intros Hi. apply sum_map_nonneg. intros i t Hin. by eapply waiting_bytes_nonneg. Qed.

Lemma inv_enqueue s id t h binding bytes k a st now :
  sys_inv s -> sy_threads s !! id = Some (mkThread t h) ->
  observe t = VisF (Locked (Enqueue binding bytes)) k ->
  run_section (Enqueue binding bytes) now (sy_state s) = Some (a, st) ->
  sys_inv (after s id (mkThread (k a) (section_effect (Enqueue binding bytes) a h)) st).
Proof.
  intros Hi Ht He Hrun.
  assert (Ha : answers (Locked (Enqueue binding bytes)) a) by (by exists now, (sy_state s), st).
  destruct (thread_event s id t h _ _ k Hi Ht He) as (ap & Hs & (Hbi & Hw & Hby) & Hk).
  specialize (Hk a Ha). cbn [run_section] in Hrun. unfold enqueue in Hrun.
  destruct (si_binding s Hi binding Hbi) as (bs & Hbs & [B1 B2 B3 B4 B5]). rewrite Hbs in Hrun.
  cbn [mbind option_bind] in Hrun.
  destruct (is_binding_limits binding binding Hbi Hbi eq_refl) as (_ & _ & L1 & L2 & L3).
  pose proof (queued_bytes_nonneg s (ActivationKey binding) Hi) as Hq0.
  rewrite (int64_id (b_MaxQueuedBodyBytes binding - _)) in Hrun by (unfold is_int64, MinInt64; lia).
  destruct (Z.leb_spec (b_MaxQueuedWaiters binding) (abs_queuedWaiters bs)).
  { injection Hrun as <- <-. apply (inv_keep s id t h _ (Enqueue binding bytes)); try done.
    intros key bs0 Hbs0. by exists bs0. }
  destruct (Z.ltb_spec (b_MaxQueuedBodyBytes binding - abs_queuedBodyBytes bs) bytes).
  { injection Hrun as <- <-. apply (inv_keep s id t h _ (Enqueue binding bytes)); try done.
    intros key bs0 Hbs0. by exists bs0. }
  rewrite int64_id in Hrun by (unfold is_int64, MinInt64; lia). injection Hrun as <- <-.
  cbn [section_effect]. set (h' := mkHand _ _ _ _).
  destruct (waits_on_none (ActivationKey binding) h Hw) as [W1 W2].
  destruct (waits_on_place _ (ActivationKey binding) _ h' eq_refl) as [W3 W4].
  rewrite String.eqb_refl in W3, W4. cbn [approve effect section_effect] in Hk. fold h' in Hk.
  apply (inv_queue s id t h); cbn [th_hand]; rewrite ?W1, ?W2, ?W3, ?W4; cbn [bool_Z]; try done; try lia.
  - destruct (si_thread s Hi id _ Ht) as (_ & Hl & _). split; [by exists ap|]. split; [done|].
    intros key n [= _ <-]. done.
  - intros key' Hne. destruct (waits_on_none key' h Hw) as [-> ->].
    destruct (waits_on_place _ key' _ h' eq_refl) as [-> ->].
    by rewrite (proj2 (String.eqb_neq _ _)).
Qed.

Lemma inv_dequeue s id t h binding bytes k a st now :
  sys_inv s -> sy_threads s !! id = Some (mkThread t h) ->
  observe t = VisF (Locked (Dequeue binding bytes)) k ->
  run_section (Dequeue binding bytes) now (sy_state s) = Some (a, st) ->
  sys_inv (after s id (mkThread (k a) (section_effect (Dequeue binding bytes) a h)) st).
Proof.
  intros Hi Ht He Hrun.
  assert (Ha : answers (Locked (Dequeue binding bytes)) a) by (by exists now, (sy_state s), st).
  destruct (thread_event s id t h _ _ k Hi Ht He) as (ap & Hs & (Hbi & Hw) & Hk).
  specialize (Hk a Ha). cbn [run_section] in Hrun. unfold dequeue in Hrun.
  destruct (si_binding s Hi binding Hbi) as (bs & Hbs & [B1 B2 B3 B4 B5]). rewrite Hbs in Hrun.
  cbn [mbind option_bind] in Hrun.
  destruct (is_binding_limits binding binding Hbi Hbi eq_refl) as (_ & _ & L1 & L2 & L3).
  destruct (waits_on_place _ (ActivationKey binding) _ h Hw) as [W1 W2]. rewrite String.eqb_refl in W1, W2.
  assert (Hone : 1 <= abs_queuedWaiters bs).
  { rewrite B1. transitivity (bool_Z (waits_on (ActivationKey binding) h)); [by rewrite W1|].
    apply (sum_map_ge (fun t => bool_Z (waits_on _ (th_hand t))) _ id (mkThread t h)); [|done].
    intros. apply bool_Z_nonneg. }
  assert (Hbytes : bytes <= abs_queuedBodyBytes bs).
  { rewrite B3, <- W2. apply (sum_map_ge (fun t => waiting_bytes _ (th_hand t)) _ id (mkThread t h)); [|done].
    intros i t0 Hin. by eapply waiting_bytes_nonneg. }
  pose proof (waiting_bytes_nonneg s id _ (ActivationKey binding) Hi Ht) as Hpos. cbn in Hpos. rewrite W2 in Hpos.
  rewrite (proj2 (Z.ltb_lt _ _)), (proj2 (Z.leb_le _ _)) in Hrun by lia.
  rewrite int64_id in Hrun by (unfold is_int64, MinInt64; lia). injection Hrun as <- <-.
  cbn [section_effect]. set (h' := mkHand _ _ _ _). cbn [approve effect section_effect] in Hk. fold h' in Hk.
  apply (inv_queue s id t h); cbn [th_hand]; rewrite ?W1, ?W2; cbn [bool_Z]; try done;
    try (change (waits_on _ h') with false; change (waiting_bytes _ h') with 0; cbn [bool_Z]; lia); try lia.
  - destruct (si_thread s Hi id _ Ht) as (_ & Hl & _). split; [by exists ap|]. by split.
  - intros key' Hne. destruct (waits_on_place _ key' _ h Hw) as [-> ->].
    by rewrite (proj2 (String.eqb_neq _ _)).
Qed.

(** The key of a lease of a target. *)
Lemma lease_key_target target e x :
  is_target c target ->
  lease_key (mkAdmissionLease e (tg_Deployment target) x) =
    if String.eqb (tg_Source target) EndpointActivatable
    then Some (ActivationKey (tg_Binding target)) else None.
Proof.
  intros (t' & Ht & Es & Ek & _). unfold lease_key. cbn [al_deployment]. rewrite Ht.
  cbn [mbind option_bind]. by rewrite Es, Ek.
Qed.

Lemma target_binding t :
  is_target c t -> tg_Source t = EndpointActivatable -> is_binding c (tg_Binding t).
Proof.
  intros (t' & Ht & Es & Ek & E1 & E2 & _) Ha. exists (tg_Deployment t), t'.
  split_and!; try done. congruence.
Qed.

(** A section that changes the admission of a thread, from [l0] to [l1]: the
    binding of the lease and its endpoint follow. *)
Lemma inv_admission s id t h t' st l0 l1 :
  sys_inv s -> sy_threads s !! id = Some (mkThread t h) -> thread_ok (sy_approved s) t' ->
  h_waiting (th_hand t') = h_waiting h -> h_admitted h = l0 -> h_admitted (th_hand t') = l1 ->
  let count (P : AdmissionLease -> bool) (l : option AdmissionLease) :=
    bool_Z (match l with Some l => P l | None => false end) in
  (forall b bs, is_binding c b -> as_bindings (sy_state s) !! ActivationKey b = Some bs ->
     binding_ok b bs s ->
     exists bs', as_bindings st !! ActivationKey b = Some bs' /\
       abs_queuedWaiters bs' = abs_queuedWaiters bs /\ abs_queuedBodyBytes bs' = abs_queuedBodyBytes bs /\
       abs_activeLeases bs' = abs_activeLeases bs - count (lease_on (ActivationKey b)) l0
                              + count (lease_on (ActivationKey b)) l1) ->
  (forall e, active_of st e = active_of (sy_state s) e - count (lease_at e) l0 + count (lease_at e) l1) ->
  sys_inv (after s id t' st).
Proof.
  intros Hi Ht Hok' Hw E0 E1 count Hb Ha.
  assert (Hsum := fun key P => sums_update st s id _ t' (sy_approved s) key P Ht). cbn [th_hand] in Hsum.
  assert (Hq : forall key, waits_on key (th_hand t') = waits_on key h /\
                 waiting_bytes key (th_hand t') = waiting_bytes key h).
  { intros key. unfold waits_on, waiting_bytes. by rewrite Hw. }
  assert (Hp : forall P, admitted_to P h = match l0 with Some l => P l | None => false end) by (by subst).
  assert (Hp' : forall P, admitted_to P (th_hand t') = match l1 with Some l => P l | None => false end) by (by subst).
  unfold count in *. apply (inv_after s id (mkThread t h)); [done..| |].
  - intros b bs Hbi Hbs Hbo. destruct (Hb b bs Hbi Hbs Hbo) as (bs' & Hbs' & F1 & F2 & F3).
    exists bs'. split; [done|]. destruct Hbo as [B1 B2 B3 B4 B5].
    destruct (Hsum (ActivationKey b) (lease_on (ActivationKey b))) as (S1 & S2 & S3).
    destruct (Hq (ActivationKey b)) as [Q1 Q2]. rewrite Hp, Hp' in S3. rewrite Q1 in S1. rewrite Q2 in S2.
    unfold after. split; lia.
  - intros e. destruct (Hsum "" (lease_at e)) as (_ & _ & S3). rewrite Hp, Hp' in S3.
    unfold after. rewrite S3, Ha, (si_active s Hi e). done.
Qed.

(** The leases of a binding and of an endpoint that a thread holds are counted. *)
Lemma in_use_ge s id t P :
  sy_threads s !! id = Some t -> bool_Z (admitted_to P (th_hand t)) <= in_use P s.
Proof.
  intros Ht. unfold in_use.
  pose proof (sum_map_ge (fun t => bool_Z (admitted_to P (th_hand t))) _ id t
    (fun _ _ _ => bool_Z_nonneg _) Ht).
  pose proof (sum_map_nonneg (fun l => bool_Z (P l)) (sy_leases s) (fun _ _ _ => bool_Z_nonneg _)).
  cbv beta in *. lia.
Qed.

Lemma active_of_insert st bindings id v e :
  active_of (mkAdmissionState bindings (<[id := v]> (as_endpointActive st))) e =
    if String.eqb id e then v else active_of st e.
Proof.
  unfold active_of. cbn [as_endpointActive]. destruct (String.eqb_spec id e) as [->|].
  - by rewrite lookup_insert_eq.
  - by rewrite lookup_insert_ne.
Qed.

Lemma active_of_delete st bindings id e :
  active_of (mkAdmissionState bindings (delete id (as_endpointActive st))) e =
    if String.eqb id e then 0 else active_of st e.
Proof.
  unfold active_of. cbn [as_endpointActive]. destruct (String.eqb_spec id e) as [->|].
  - by rewrite lookup_delete_eq.
  - by rewrite lookup_delete_ne.
Qed.

Lemma admitEndpoint_cases s now target e x enforce a st :
  admitEndpoint s now target e x enforce = Some (a, st) ->
  (a = inl ErrEndpointNotReady /\ st = s) \/
  (a = inr (mkAdmissionLease e (tg_Deployment target) x) /\
   as_endpointActive st = <[ep_ID e := active_of s (ep_ID e) + 1]> (as_endpointActive s) /\
   if String.eqb (tg_Source target) EndpointActivatable then
     exists bs, as_bindings s !! ActivationKey (tg_Binding target) = Some bs /\
       as_bindings st = <[ActivationKey (tg_Binding target) := admitted_state (ep_ID e) now bs]> (as_bindings s)
   else as_bindings st = as_bindings s).
Proof.
  unfold admitEndpoint. destruct (_ && _); [intros [= <- <-]; by left|].
  destruct (String.eqb _ _).
  - cbn [as_bindings]. destruct (as_bindings s !! _) as [bs|] eqn:Hbs; [|done].
    intros [= <- <-]. right. split_and!; [done..|]. by exists bs.
  - intros [= <- <-]. by right.
Qed.

Lemma inv_admit s id t h target e x enforce k a st now :
  sys_inv s -> sy_threads s !! id = Some (mkThread t h) ->
  observe t = VisF (Locked (AdmitEndpoint target e x enforce)) k ->
  run_section (AdmitEndpoint target e x enforce) now (sy_state s) = Some (a, st) ->
  sys_inv (after s id (mkThread (k a) (section_effect (AdmitEndpoint target e x enforce) a h)) st).
Proof.
  intros Hi Ht He Hrun.
  assert (Ha : answers (Locked (AdmitEndpoint target e x enforce)) a) by (by exists now, (sy_state s), st).
  destruct (thread_event s id t h _ _ k Hi Ht He) as (ap & Hs & (Htg & Hn & Hm & Hap & Hx) & Hk).
  specialize (Hk a Ha). cbn [run_section] in Hrun.
  destruct (admitEndpoint_cases _ _ _ _ _ _ _ _ Hrun) as [[-> ->]|(-> & Hact & Hbind)].
  { apply (inv_keep s id t h _ (AdmitEndpoint target e x enforce)); try done.
    intros key bs0 Hbs0. by exists bs0. }
  set (lease := mkAdmissionLease e (tg_Deployment target) x) in *.
  pose proof (lease_key_target target e x Htg) as Hkey. fold lease in Hkey.
  apply (inv_admission s id t h _ _ None (Some lease)); [done..| |done|done|done| |].
  - destruct (si_thread s Hi id _ Ht) as (_ & _ & Hw). split; [by exists ap|]. split; [|done].
    intros l [= <-]. destruct Htg as (t' & Ht' & _ & _ & _ & _ & _ & Hm').
    exists t'. split; [done|]. split; [by rewrite <- Hm'|]. by apply Hs.
  - intros b bs Hbi Hbs Hbo. unfold lease_on. rewrite Hkey. cbn [bool_Z].
    destruct (String.eqb_spec (tg_Source target) EndpointActivatable) as [Hsrc|Hsrc].
    + destruct Hbind as (bs0 & Hbs0 & ->).
      destruct (decide (ActivationKey (tg_Binding target) = ActivationKey b)) as [Ek|Ek].
      * rewrite Ek in *. assert (bs0 = bs) as -> by congruence. rewrite bool_decide_eq_true_2 by done.
        eexists. split; [apply lookup_insert_eq|]. destruct bs; cbn. split_and!; [done..|lia].
      * rewrite bool_decide_eq_false_2 by congruence. exists bs.
        rewrite lookup_insert_ne by done. cbn. split_and!; [done..|lia].
    + rewrite Hbind, bool_decide_eq_false_2 by done. exists bs. cbn. split_and!; [done..|lia].
  - intros e'. destruct st as [bd ac]. cbn [as_endpointActive] in Hact. rewrite Hact, active_of_insert.
    cbn [bool_Z]. unfold lease_at. cbn [lease al_Endpoint].
    destruct (String.eqb_spec (ep_ID e) e') as [->|]; cbn; lia.
Qed.

Lemma inv_release s id t h target eid k a st now :
  sys_inv s -> sy_threads s !! id = Some (mkThread t h) ->
  observe t = VisF (Locked (ReleaseLease target eid)) k ->
  run_section (ReleaseLease target eid) now (sy_state s) = Some (a, st) ->
  sys_inv (after s id (mkThread (k a) (section_effect (ReleaseLease target eid) a h)) st).
Proof.
  intros Hi Ht He Hrun.
  assert (Ha : answers (Locked (ReleaseLease target eid)) a) by (by exists now, (sy_state s), st).
  destruct (thread_event s id t h _ _ k Hi Ht He) as (ap & Hs & (l & Hl & -> & ->) & Hk).
  specialize (Hk a Ha). cbn [run_section] in Hrun. unfold release_lease in Hrun.
  destruct (si_thread s Hi id _ Ht) as (_ & Hlok & Hw). cbn [th_hand] in Hlok, Hw.
  destruct (Hlok l Hl) as (tg & Htg & _ & _). rewrite Htg in Hrun.
  set (active := if 1 <? _ then _ else _) in Hrun.
  assert (Hact : forall bindings e, active_of (mkAdmissionState bindings active) e =
            active_of (sy_state s) e - bool_Z (lease_at e l)).
  { intros bindings e. pose proof (in_use_ge s id _ (lease_at (ep_ID (al_Endpoint l))) Ht) as Hge.
    unfold admitted_to in Hge. cbn [th_hand] in Hge. rewrite Hl in Hge.
    rewrite <- (si_active s Hi) in Hge. unfold lease_at in *. rewrite String.eqb_refl in Hge. cbn in Hge.
    unfold active. destruct (Z.ltb_spec 1 (active_of (sy_state s) (ep_ID (al_Endpoint l)))).
    - rewrite active_of_insert. destruct (String.eqb_spec (ep_ID (al_Endpoint l)) e) as [->|]; cbn; lia.
    - rewrite active_of_delete. destruct (String.eqb_spec (ep_ID (al_Endpoint l)) e) as [<-|]; cbn; lia. }
  assert (Hkey : lease_key l = if String.eqb (tg_Source tg) EndpointActivatable
                               then Some (ActivationKey (tg_Binding tg)) else None)
    by (unfold lease_key; by rewrite Htg).
  assert (Hthread : thread_ok (sy_approved s)
    (mkThread (k a) (section_effect (ReleaseLease (Some tg) (ep_ID (al_Endpoint l))) a h))).
  { split; [|by split]. exists ap. rewrite Htg in Hk. by split. }
  rewrite Htg. destruct (String.eqb_spec (tg_Source tg) EndpointActivatable) as [Hsrc|Hsrc].
  - cbn [as_bindings] in Hrun. pose proof (target_binding tg (target_self c Hok _ _ Htg) Hsrc) as Hbi.
    destruct (si_binding s Hi _ Hbi) as (bs & Hbs & Hbo). rewrite Hbs in Hrun. injection Hrun as <- <-.
    assert (Hone : 1 <= abs_activeLeases bs).
    { rewrite (bo_leases _ _ _ Hbo).
      pose proof (in_use_ge s id _ (lease_on (ActivationKey (tg_Binding tg))) Ht) as Hge.
      unfold admitted_to in Hge. cbn [th_hand] in Hge. rewrite Hl in Hge. unfold lease_on in Hge at 1.
      rewrite Hkey, bool_decide_eq_true_2 in Hge by done. done. }
    rewrite (proj2 (Z.ltb_lt _ _)) by lia.
    apply (inv_admission s id t h _ _ (Some l) None); try done.
    + intros b bs1 Hb1 Hbs1 _. unfold lease_on. rewrite Hkey. cbn [bool_Z set_binding as_bindings].
      destruct (decide (ActivationKey (tg_Binding tg) = ActivationKey b)) as [Ek|Ek].
      * rewrite Ek in *. assert (bs1 = bs) as -> by congruence. rewrite bool_decide_eq_true_2 by done.
        eexists. split; [apply lookup_insert_eq|]. destruct bs; cbn. split_and!; [done..|lia].
      * rewrite bool_decide_eq_false_2 by congruence. exists bs1.
        rewrite lookup_insert_ne by done. cbn. split_and!; [done..|lia].
    + intros e. change (active_of (set_binding _ _ _) e) with
        (active_of (mkAdmissionState (as_bindings (sy_state s)) active) e). rewrite Hact. cbn. lia.
  - injection Hrun as <- <-. apply (inv_admission s id t h _ _ (Some l) None); try done.
    + intros b bs1 Hb1 Hbs1 _. exists bs1. unfold lease_on. rewrite Hkey, bool_decide_eq_false_2 by done.
      cbn. split_and!; [done..|lia].
    + intros e. rewrite Hact. cbn. lia.
Qed.

(** ** Every step *)
Lemma inv_section s id t h A (sec : section A) k a st now :
  sys_inv s -> sy_threads s !! id = Some (mkThread t h) -> observe t = VisF (Locked sec) k ->
  run_section sec now (sy_state s) = Some (a, st) ->
  sys_inv (after s id (mkThread (k a) (section_effect sec a h)) st).
Proof.
  intros Hi Ht He Hrun. assert (Ha : answers (Locked sec) a) by (by exists now, (sy_state s), st).
  destruct sec as [eid|b n|b n|tg e x enforce|b ns re ep nw|b| |tg eid].
  - injection Hrun as <- <-. apply (inv_keep s id t h _ (ReadActive eid)); try done.
    intros key bs Hbs. by exists bs.
  - by eapply inv_enqueue.
  - by eapply inv_dequeue.
  - by eapply inv_admit.
  - apply (inv_keep s id t h _ (Transition b ns re ep nw)); try done; cbn [run_section] in Hrun;
      unfold Admission.transition in Hrun;
      (destruct (as_bindings (sy_state s) !! ActivationKey b) as [bs|] eqn:Hbs; [|done]);
      injection Hrun as <- <-; [|done].
    intros key bs' Hbs'. cbn [set_binding as_bindings].
    destruct (decide (ActivationKey b = key)) as [<-|Hne].
    + eexists. split; [apply lookup_insert_eq|]. simplify_eq. done.
    + exists bs'. by rewrite lookup_insert_ne.
  - cbn [run_section] in Hrun. destruct (as_bindings _ !! _) as [bs|]; [|done]. injection Hrun as <- <-.
    apply (inv_keep s id t h _ (ReadState b)); try done. intros key bs' Hbs'. by exists bs'.
  - injection Hrun as <- <-. apply (inv_keep s id t h _ ReadBindings); try done.
    intros key bs Hbs. by exists bs.
  - by eapply inv_release.
Qed.

Lemma inv_spawn s id t :
  sys_inv s -> sy_threads s !! id = None -> th_hand t = empty_hand ->
  (forall n ap, safe c n (th_rest t) ap empty_hand (fun r _ h => finished r h)) ->
  sys_inv (mkSystem (sy_state s) (<[id := t]> (sy_threads s)) (sy_leases s) (sy_approved s)).
Proof.
  intros [I1 I2 I3 I4] Hn Hh Hsafe.
  assert (Hsum := fun key P => sums_insert (sy_state s) s id t (sy_leases s) (sy_approved s) key P Hn).
  rewrite Hh in Hsum. split; cbn [sy_threads sy_leases sy_approved sy_state].
  - intros id' t0 Hin. apply lookup_insert_Some in Hin as [[_ <-]|[_ Hin]]; [|by apply (I1 id')].
    split; [exists []; rewrite Hh; split; [set_solver|done]|]. by rewrite Hh.
  - done.
  - intros b Hb. destruct (I3 b Hb) as (bs & Hbs & Hbo). exists bs. split; [done|].
    eapply binding_ok_same; [|done].
    destruct (Hsum (ActivationKey b) (lease_on (ActivationKey b))) as (S1 & S2 & S3).
    unfold same_sums. rewrite S1, S2, S3. cbn. lia.
  - intros e. destruct (Hsum "" (lease_at e)) as (_ & _ & S3). rewrite S3, (I4 e). cbn. lia.
Qed.

Lemma sys_inv_step s s' : sys_inv s -> sys_step s s' -> sys_inv s'.
Proof.
  intros Hi Hst. destruct Hst as [id request Hn|id d Hn|id d Hn|id Hn|id lid lease outcome Hn Hl
    |id t t' h Ht He|id t h A e k a st Ht He Hp|id t h r lid Ht He Hl].
  - apply inv_spawn; [done..|]. intros. by apply acquire_call_safe.
  - apply inv_spawn; [done..|]. intros. by apply start_call_safe.
  - apply inv_spawn; [done..|]. intros. by apply ready_call_safe.
  - apply inv_spawn; [done..|]. intros. by apply snapshot_call_safe.
  - pose proof Hi as [I1 I2 I3 I4].
    set (t := mkThread _ _). set (leases := delete lid _).
    assert (Hsum := fun key P => sums_insert (sy_state s) s id t leases (sy_approved s) key P Hn).
    assert (Hdel := fun P => sum_map_delete (fun l => bool_Z (P l)) (sy_leases s) lid lease Hl).
    cbv beta in Hdel. fold leases in Hdel.
    split; cbn [sy_threads sy_leases sy_approved sy_state].
    + intros id' t0 Hin. apply lookup_insert_Some in Hin as [[_ <-]|[_ Hin]]; [|by apply (I1 id')].
      split_and!; [|by intros l [= <-]; apply (I2 lid)|done].
      exists []. split; [set_solver|]. intros n. apply release_call_safe.
    + intros lid' l [_ Hl']%lookup_delete_Some. by apply (I2 lid').
    + intros b Hb. destruct (I3 b Hb) as (bs & Hbs & Hbo). exists bs. split; [done|].
      eapply binding_ok_same; [|done].
      destruct (Hsum (ActivationKey b) (lease_on (ActivationKey b))) as (S1 & S2 & S3).
      specialize (Hdel (lease_on (ActivationKey b))). unfold same_sums. rewrite S1, S2, S3. cbn. lia.
    + intros e. destruct (Hsum "" (lease_at e)) as (_ & _ & S3). specialize (Hdel (lease_at e)).
      rewrite S3, (I4 e). cbn. lia.
  - apply (inv_same_place s id (mkThread t h)); try done; [by intros key bs Hbs; exists bs|].
    destruct (si_thread s Hi id _ Ht) as ((ap & Hs & Hsafe) & Hl & Hw).
    split; [|by split]. exists ap. split; [done|]. intros n. specialize (Hsafe (S n)).
    cbn [safe th_rest] in Hsafe. by rewrite He in Hsafe.
  - assert (Hsame : match e with Locked _ => True | _ => same_place h (effect e a h) end).
    { destruct e; try done; destruct a as [?|x]; try done; cbn. by destruct (is_owner _). }
    destruct e as [A sec| | | | | | | | | | | | | |]; cbn [performs] in Hp;
      try (subst st; by apply (inv_outside s id t h)).
    + destruct Hp as [now Hrun]. by apply (inv_section s id t h _ sec k a st now).
    + destruct Hp as [Hp ->]. by apply (inv_outside s id t h).
  - pose proof Hi as [I1 I2 I3 I4]. destruct (I1 id _ Ht) as ((ap & Hs & Hsafe) & Hlok & _).
    assert (Hf : finished r h).
    { specialize (Hsafe 1%nat). cbn [safe th_rest th_hand] in Hsafe. by rewrite He in Hsafe. }
    cbn [th_hand] in Hlok.
    assert (Hsum := fun key P => sums_return (sy_state s) s id _ r lid (sy_approved s) key P Ht Hf Hl).
    split; cbn [sy_threads sy_leases sy_approved sy_state].
    + intros id' t0 [_ Hin]%lookup_delete_Some. by apply (I1 id').
    + intros lid' l Hin. destruct r as [l0|]; [|by apply (I2 lid')].
      apply lookup_insert_Some in Hin as [[_ <-]|[_ Hin]]; [|by apply (I2 lid')].
      apply Hlok. by rewrite Hf.
    + intros b Hb. destruct (I3 b Hb) as (bs & Hbs & Hbo). exists bs. split; [done|].
      eapply binding_ok_same; [|done].
      destruct (Hsum (ActivationKey b) (lease_on (ActivationKey b))) as (S1 & S2 & S3). by split_and!.
    + intros e. destruct (Hsum "" (lease_at e)) as (_ & _ & S3). by rewrite S3, (I4 e).
Qed.

Lemma sys_inv_reach st s :
  (forall b, is_binding c b -> exists now, as_bindings st !! ActivationKey b = Some (offline_state now)) ->
  as_endpointActive st = ∅ -> sys_reach st s -> sys_inv s.
Proof.
  intros Hb Ha. induction 1 as [|s s' Hr IH Hst]; [|by eapply sys_inv_step].
  split; cbn [sy_threads sy_leases sy_approved sy_state]; [done..| |].
  - intros b Hbi. destruct (Hb b Hbi) as [now Hbs]. eexists. split; [exact Hbs|].
    destruct (is_binding_limits b b Hbi Hbi eq_refl) as (_ & _ & L1 & L2 & L3).
    unfold waiters, queued_bytes, in_use.
    split; cbn; unfold waiters, queued_bytes, in_use; cbn; rewrite ?sum_map_empty; lia.
  - intros e. unfold active_of, in_use. cbn. rewrite Ha, lookup_empty, !sum_map_empty. done.
Qed.
End System.
