(* ===== verification/CoordinatorTheorems.v ===== *)
(** * Properties of the admission coordinator

    What [NewAdmissionCoordinator] establishes, and what then holds in every
    state that concurrent calls reach: the counters tell the truth and respect
    the limits of the queue, no critical section panics, every lease was
    rightly admitted, and a call leaves nothing behind. *)

From stdpp Require Import base gmap list strings sorting.
From Stdlib Require Import ZArith Lia.
From ITree Require Import ITree.
From S2P Require Import Prelude GoStrings Policies Capabilities Config Fields Settings.
From S2P Require Import Endpoints Lifecycle LifecycleStatus Admission Coordinator Threads CoordinatorFacts.
From S2P Require Import CoordinatorStatus CoordinatorSystem.

Local Open Scope Z_scope.
Local Open Scope go_scope.

(** ** Construction *)
Section Construction.
Context (options : AdmissionOptions).

(** The targets and bindings that the loop has built. *)
Record built (targets : gmap string Target) (bindings : gmap string admissionBindingState) : Prop := {
  bt_deployment d t : targets !! d = Some t -> tg_Deployment t = d;
  bt_wired d t : targets !! d = Some t -> tg_Source t <> EndpointStatic ->
    ao_Registry options = true /\ ao_Authorizer options = true;
  bt_activatable d t : targets !! d = Some t -> tg_Source t = EndpointActivatable ->
    b_Controller (tg_Binding t) ∈ ao_Controllers options /\ tg_Controller t = b_Controller (tg_Binding t) /\
    0 < b_MaxQueuedWaiters (tg_Binding t) /\ 0 < b_MaxQueuedBodyBytes (tg_Binding t) <= MaxInt64 /\
    exists now, bindings !! ActivationKey (tg_Binding t) = Some (offline_state now);
  bt_keys d1 t1 d2 t2 : targets !! d1 = Some t1 -> targets !! d2 = Some t2 ->
    tg_Source t1 = EndpointActivatable -> tg_Source t2 = EndpointActivatable ->
    ActivationKey (tg_Binding t1) = ActivationKey (tg_Binding t2) -> d1 = d2;
}.

(** A new target that is not activatable. *)
Lemma built_plain targets bindings t :
  built targets bindings -> targets !! tg_Deployment t = None ->
  tg_Source t <> EndpointActivatable ->
  (tg_Source t <> EndpointStatic -> ao_Registry options = true /\ ao_Authorizer options = true) ->
  built (<[tg_Deployment t := t]> targets) bindings.
Proof.
  intros [B1 B2 B3 B4] Hn Hs Hw. split.
  - intros d t' [[<- <-]|[_ Ht]]%lookup_insert_Some; [done|by apply B1].
  - intros d t' [[<- <-]|[_ Ht]]%lookup_insert_Some; [done|by apply (B2 d)].
  - intros d t' [[<- <-]|[_ Ht]]%lookup_insert_Some; [done|by apply (B3 d)].
  - intros d1 t1 d2 t2 [[<- <-]|[_ H1]]%lookup_insert_Some [[<- <-]|[_ H2]]%lookup_insert_Some; try done.
    by apply (B4 d1 t1 d2 t2).
Qed.

(** A new activatable target with a key of its own. *)
Lemma built_activatable targets bindings t now :
  built targets bindings -> targets !! tg_Deployment t = None ->
  bindings !! ActivationKey (tg_Binding t) = None ->
  ao_Registry options = true /\ ao_Authorizer options = true ->
  b_Controller (tg_Binding t) ∈ ao_Controllers options -> tg_Controller t = b_Controller (tg_Binding t) ->
  0 < b_MaxQueuedWaiters (tg_Binding t) -> 0 < b_MaxQueuedBodyBytes (tg_Binding t) <= MaxInt64 ->
  built (<[tg_Deployment t := t]> targets) (<[ActivationKey (tg_Binding t) := offline_state now]> bindings).
Proof.
  intros [B1 B2 B3 B4] Hn Hk Hw Hc Hco L1 L2.
  assert (Hold : forall d t', targets !! d = Some t' -> tg_Source t' = EndpointActivatable ->
            ActivationKey (tg_Binding t') <> ActivationKey (tg_Binding t)).
  { intros d t' Ht Hs E. destruct (B3 d t' Ht Hs) as (_ & _ & _ & _ & now' & Hb). congruence. }
  split.
  - intros d t' [[<- <-]|[_ Ht]]%lookup_insert_Some; [done|by apply B1].
  - intros d t' [[<- <-]|[_ Ht]]%lookup_insert_Some; [done|by apply (B2 d)].
  - intros d t' [[<- <-]|[_ Ht]]%lookup_insert_Some Hs.
    + split_and!; try done; try lia. exists now. apply lookup_insert_eq.
    + destruct (B3 d t' Ht Hs) as (E1 & E0 & E2 & E3 & now' & Hb). split_and!; try done; try lia.
      exists now'. by rewrite lookup_insert_ne by (by apply not_eq_sym, (Hold d)).
  - intros d1 t1 d2 t2 [[<- <-]|[_ Ht1]]%lookup_insert_Some [[<- <-]|[_ Ht2]]%lookup_insert_Some; try done.
    + intros _ Hs E. by destruct (Hold d2 t2 Ht2 Hs).
    + intros Hs _ E. by destruct (Hold d1 t1 Ht1 Hs).
    + by apply (B4 d1 t1 d2 t2).
Qed.

Lemma addTarget_built targets bindings now t targets' bindings' :
  b_MaxQueuedBodyBytes (tg_Binding t) <= MaxInt64 ->
  built targets bindings ->
  addTarget (ao_Registry options) (ao_Authorizer options) (ao_Controllers options)
    (targets, bindings) now t = inr (targets', bindings') ->
  built targets' bindings'.
Proof.
  intros Hmax Hb. unfold addTarget. rewrite !check_then_inr, !fail_if_None.
  intros (_ & Hn & Hr). rewrite bool_decide_eq_false, <- eq_None_not_Some in Hn.
  set (t0 := if String.eqb (tg_Source t) "" then _ else t) in Hr.
  assert (Hd : tg_Deployment t0 = tg_Deployment t) by (unfold t0; by destruct (String.eqb _ _)).
  assert (Hbi : tg_Binding t0 = tg_Binding t) by (unfold t0; by destruct (String.eqb _ _)).
  rewrite <- Hd in Hn. rewrite <- Hbi in Hmax. clearbody t0. clear t Hd Hbi.
  destruct (String.eqb_spec (tg_Source t0) EndpointStatic) as [Es|Es].
  { injection Hr as <- <-. by apply built_plain; [..|rewrite Es; discriminate|]. }
  destruct (String.eqb_spec (tg_Source t0) EndpointDiscovered) as [Ed|Ed].
  { rewrite !check_then_inr, !fail_if_None, orb_false_iff, !negb_false_iff in Hr.
    destruct Hr as (_ & Hw & [= <- <-]). by apply built_plain; [..|rewrite Ed; discriminate|]. }
  destruct (String.eqb_spec (tg_Source t0) EndpointActivatable) as [Ea|Ea]; [|done].
  unfold add_activatable in Hr. destruct (_ ?; _) as [e|[t1 b1]] eqn:E; [done|]. injection Hr as <- <-.
  rewrite !check_then_inr, !fail_if_None in E. destruct E as (E1 & E2 & E3 & Hw & Hc & Hk & [= <- <-]).
  set (b := if String.eqb (b_ColdStart (defaulted_binding t0)) "" then _ else _) in *.
  assert (Hbb : b_MaxQueuedWaiters b = b_MaxQueuedWaiters (defaulted_binding t0) /\
                b_MaxQueuedBodyBytes b = b_MaxQueuedBodyBytes (defaulted_binding t0) /\
                b_MaxQueuedBodyBytes b = b_MaxQueuedBodyBytes (tg_Binding t0)).
  { unfold b, defaulted_binding. destruct (tg_Binding t0).
    repeat match goal with |- context [if ?x then _ else _] => destruct x end; done. }
  destruct Hbb as (F1 & F2 & F3).
  rewrite !orb_false_iff, !Z.leb_gt in E1. rewrite orb_false_iff, !negb_false_iff in Hw.
  rewrite negb_false_iff, bool_decide_eq_true in Hc.
  rewrite bool_decide_eq_false, <- eq_None_not_Some in Hk.
  apply (built_activatable targets bindings (set_tg_Binding b (set_tg_Controller (b_Controller b) t0)) now);
    cbn [set_tg_Binding set_tg_Controller tg_Deployment tg_Binding]; try done; lia.
Qed.

(** A machine-width limit of queued bytes. *)
Definition int64_limits (targets : list Target) : Prop :=
  Forall (fun t => b_MaxQueuedBodyBytes (tg_Binding t) <= MaxInt64) targets.

Lemma target_turn_built now targets l r :
  int64_limits l -> scan (target_turn options now) targets l = inr r ->
  built targets.1.1.1 targets.1.1.2 -> built r.1.1.1 r.1.1.2.
Proof.
  intros Hl. revert targets. induction Hl as [|t l Ht Hl IH]; intros acc; simpl; [by intros [= <-]|].
  destruct (target_turn options now acc t) as [e|acc'] eqn:E; [done|]. intros Hs Hb.
  apply (IH acc' Hs). destruct acc as [[[tg bd] cs] n]. unfold target_turn in E.
  destruct (addTarget _ _ _ _ _ _) as [e|[tg' bd']] eqn:Ea; [done|].
  pose proof (addTarget_built _ _ _ _ _ _ Ht Hb Ea) as Hb'.
  by destruct (tg' !! tg_Deployment t); injection E as <-.
Qed.

Context (targets : list Target) (random : string + string) (now : Z).

Lemma NewAdmissionCoordinator_spec c st :
  NewAdmissionCoordinator targets options random now = inr (c, st) -> int64_limits targets ->
  coordinator_ok c /\
  (forall b, is_binding c b -> exists now, as_bindings st !! ActivationKey b = Some (offline_state now)) /\
  as_endpointActive st = ∅.
Proof.
  unfold NewAdmissionCoordinator. rewrite !check_then_inr. intros (_ & _ & Hr) Hl.
  destruct (if String.eqb _ _ then _ else _) as [e|instanceID]; [done|].
  rewrite check_then_inr in Hr. destruct Hr as [_ Hr].
  destruct (scan _ _ _) as [e|[[[tg bd] cs] n]] eqn:E; [done|].
  rewrite !check_then_inr in Hr. destruct Hr as (_ & _ & [= <- <-]).
  apply target_turn_built in E; [|done|by split].
  destruct E as [B1 B2 B3 B4]. cbn in B1, B2, B3, B4. split_and!; [split; cbn| |done].
  - done.
  - done.
  - intros d t Ht Hs. by destruct (B3 d t Ht Hs) as (L0 & L1 & _).
  - intros d t Ht Hs. by destruct (B3 d t Ht Hs) as (_ & _ & L1 & L2 & _).
  - done.
  - intros b (d & t & Ht & Hs & Hk & _). destruct (B3 d t Ht Hs) as (_ & _ & _ & _ & now' & Hb).
    exists now'. cbn. by rewrite Hk.
Qed.
End Construction.

(** ** What concurrent calls preserve *)
Section Theorems.
Context `{NetURL} `{UnicodeTables}.

(** The systems that calls on a new coordinator reach. *)
Definition runs (targets : list Target) (options : AdmissionOptions) (c : AdmissionCoordinator)
    (s : system) : Prop :=
  exists random now st, NewAdmissionCoordinator targets options random now = inr (c, st) /\
    int64_limits targets /\ sys_reach c st s.

Lemma runs_inv targets options c s :
  runs targets options c s -> coordinator_ok c /\ sys_inv c s.
Proof.
  intros (random & now & st & Hn & Hl & Hr).
  destruct (NewAdmissionCoordinator_spec _ _ _ _ _ _ Hn Hl) as (Hok & Hb & Ha).
  split; [done|]. by apply (sys_inv_reach c Hok st).
Qed.

(** The state of a binding against the threads and the leases. *)
Lemma binding_facts c s d t :
  coordinator_ok c -> sys_inv c s -> ac_targets c !! d = Some t -> tg_Source t = EndpointActivatable ->
  let key := ActivationKey (tg_Binding t) in
  exists bs, as_bindings (sy_state s) !! key = Some bs /\
    abs_queuedWaiters bs = waiters key s /\
    0 <= abs_queuedWaiters bs <= b_MaxQueuedWaiters (tg_Binding t) /\
    abs_queuedBodyBytes bs = queued_bytes key s /\
    0 <= abs_queuedBodyBytes bs <= b_MaxQueuedBodyBytes (tg_Binding t) /\
    abs_activeLeases bs = in_use (lease_on c key) s.
Proof.
  intros Hok Hi Ht Hs key.
  destruct (si_binding c s Hi _ (target_binding c t (target_self c Hok d t Ht) Hs))
    as (bs & Hbs & [B1 B2 B3 B4 B5]).
  exists bs. split_and!; try done.
  - rewrite B1. apply sum_map_nonneg. intros. apply bool_Z_nonneg.
  - rewrite B3. by apply (queued_bytes_nonneg c).
Qed.

(** C23: The counters of an [AdmissionCoordinator] tell the truth: however the
    critical sections of requests, operator starts, readiness checks and
    releases interleave, and whatever registries, controllers, authorizers,
    clocks and contexts answer, [queuedWaiters] and [queuedBodyBytes] of a
    binding are the threads in its queue and the bytes they hold, within the
    configured limits and never negative, [activeLeases] counts the admissions
    to it that are not released, and [endpointActive] those of each endpoint. *)
Theorem lifecycle_accounting targets options c s :
  runs targets options c s ->
  (forall d t, ac_targets c !! d = Some t -> tg_Source t = EndpointActivatable ->
     let key := ActivationKey (tg_Binding t) in
     exists bs, as_bindings (sy_state s) !! key = Some bs /\
       abs_queuedWaiters bs = waiters key s /\
       0 <= abs_queuedWaiters bs <= b_MaxQueuedWaiters (tg_Binding t) /\
       abs_queuedBodyBytes bs = queued_bytes key s /\
       0 <= abs_queuedBodyBytes bs <= b_MaxQueuedBodyBytes (tg_Binding t) /\
       abs_activeLeases bs = in_use (lease_on c key) s) /\
  (forall id, active_of (sy_state s) id = in_use (lease_at id) s).
Proof.
  intros Hr. destruct (runs_inv _ _ _ _ Hr) as [Hok Hi]. split; [|exact (si_active _ _ Hi)].
  intros d t Ht Hs key. destruct (binding_facts c s d t Hok Hi Ht Hs) as (bs & Hbs & F1 & F2 & F3 & F4 & F5).
  exists bs. exact (conj Hbs (conj F1 (conj F2 (conj F3 (conj F4 F5))))).
Qed.

(** C35: No call on a coordinator that [NewAdmissionCoordinator] built panics:
    in every reachable state, the critical section that a thread is about to
    enter finds the binding state it dereferences, and the registry, the
    authorizer and the controllers that a thread is about to call are set. *)
Theorem lifecycle_never_panics targets options c s id t h A (e : coordE A) k :
  runs targets options c s -> sy_threads s !! id = Some (mkThread t h) -> observe t = VisF e k ->
  match e with
  | Locked sec => forall now, run_section sec now (sy_state s) <> None
  | RegistryReady _ => ac_registry c = true
  | InspectorList _ => ac_inspector c = true
  | AuthorizeEndpoint _ => ac_authorizer c = true
  | EnsureReady controller _ _ | ReadStatus controller _ => controller ∈ ac_controllers c
  | _ => True
  end.
Proof.
  intros Hr Ht He. destruct (runs_inv _ _ _ _ Hr) as [Hok Hi].
  destruct (thread_event c s id t h A e k Hi Ht He) as (ap & _ & Hreq & _).
  assert (Hb : forall b, is_binding c b -> exists bs, as_bindings (sy_state s) !! ActivationKey b = Some bs).
  { intros b Hb. destruct (si_binding c s Hi b Hb) as (bs & Hbs & _). by exists bs. }
  destruct e as [A sec| | | | | | | | | | | | | |]; try done. intros now.
  destruct sec as [eid|b n|b n|tg e x enforce|b ns re ep nw|b| |tg eid]; cbn [run_section].
  - done.
  - destruct Hreq as [Hbi _]. unfold enqueue. destruct (Hb b Hbi) as [bs ->]. simpl. by repeat case_match.
  - destruct Hreq as [Hbi _]. unfold dequeue. by destruct (Hb b Hbi) as [bs ->].
  - destruct Hreq as [Htg _]. unfold admitEndpoint. destruct (_ && _); [done|].
    destruct (String.eqb_spec (tg_Source tg) EndpointActivatable) as [Hs|]; [|done].
    cbn [as_bindings]. by destruct (Hb _ (target_binding c tg Htg Hs)) as [bs ->].
  - unfold Admission.transition. by destruct (Hb b Hreq) as [bs ->].
  - by destruct (Hb b Hreq) as [bs ->].
  - done.
  - destruct Hreq as (l & _ & -> & _). unfold release_lease.
    destruct (ac_targets c !! al_deployment l) as [tg|] eqn:Htg; [|done].
    destruct (String.eqb_spec (tg_Source tg) EndpointActivatable) as [Hs|]; [|done].
    cbn [as_bindings]. by destruct (Hb _ (target_binding c tg (target_self c Hok _ _ Htg) Hs)) as [bs ->].
Qed.

(** C30: Only fitting, authorized endpoints are admitted: every lease that a call
    returned, in every reachable state, is for an endpoint that passes the
    checks of its target (registration, state, controller, binding revision and
    fencing token, protocol, served models) and that the authorizer approved. *)
Theorem leases_fit targets options c s lid lease :
  runs targets options c s -> sy_leases s !! lid = Some lease ->
  exists t, ac_targets c !! al_deployment lease = Some t /\
    endpoint_mismatch t (al_Endpoint lease) = None /\ al_Endpoint lease ∈ sy_approved s.
Proof.
  intros Hr Hl. destruct (runs_inv _ _ _ _ Hr) as [Hok Hi]. by apply (si_lease c s Hi lid).
Qed.

(** C24: A call leaves nothing behind: when it returns, it has left the queue it
    entered, every activation claim it owned was completed, and every lease
    that a controller gave it was given back or went into the lease it
    returns. *)
Theorem calls_leave_nothing targets options c s id t h r :
  runs targets options c s -> sy_threads s !! id = Some (mkThread t h) -> observe t = RetF r ->
  h_waiting h = None /\ h_claims h = [] /\ h_leases h = [] /\ h_admitted h = r.
Proof.
  intros Hr Ht He. destruct (runs_inv _ _ _ _ Hr) as [Hok Hi].
  destruct (si_thread c s Hi id _ Ht) as ((ap & _ & Hsafe) & _).
  specialize (Hsafe 1%nat). cbn [safe th_rest th_hand] in Hsafe. rewrite He in Hsafe.
  unfold finished in Hsafe. subst h. by destruct r.
Qed.

(** The status tells the truth: a snapshot that is taken in any reachable
    state has one entry per activatable deployment, in order, with the waiters
    that are in its queue, the bytes they hold and the admissions in use at that
    moment, within the limits it reports; and one entry per controller of a
    dynamic deployment, in order, whose counters are the sums of those of its
    bindings, whatever registries, controllers and inspectors answer. *)
Theorem status_adds_up targets options c s n observedAt snapshot :
  runs targets options c s ->
  results n (snapshot_from c observedAt (as_bindings (sy_state s))) snapshot ->
  snapshot_of_bindings c (as_bindings (sy_state s)) snapshot /\
  forall b, b ∈ snap_Bindings snapshot ->
    exists t, ac_targets c !! bst_Deployment b = Some t /\
      let key := ActivationKey (tg_Binding t) in
      bst_QueuedWaiters b = waiters key s /\ 0 <= bst_QueuedWaiters b <= bst_MaxQueuedWaiters b /\
      bst_QueuedBodyBytes b = queued_bytes key s /\
      0 <= bst_QueuedBodyBytes b <= bst_MaxQueuedBodyBytes b /\
      bst_ActiveLeases b = in_use (lease_on c key) s.
Proof.
  intros Hr Hres. destruct (runs_inv _ _ _ _ Hr) as [Hok Hi].
  assert (Hs : snapshot_of_bindings c (as_bindings (sy_state s)) snapshot).
  { revert Hres. apply (safe_results c n _ _ [] empty_hand). eapply safe_mono; [reflexivity| |].
    2: by apply snapshot_from_safe. by intros r ap h [_ ?]. }
  split; [done|]. intros b Hb. destruct (sb_counts _ _ _ Hs b Hb) as (t & Ht & [C1 C2 C3 C4 C5 [C6 C7]]).
  assert (Hd : IsActivatable c (bst_Deployment b) = true) by (by apply (sb_targets _ _ _ Hs), list_elem_of_fmap_2).
  unfold IsActivatable in Hd. rewrite Ht, String.eqb_eq in Hd.
  destruct (binding_facts c s _ t Hok Hi Ht Hd) as (bs & Hbs & F1 & F2 & F3 & F4 & F5).
  unfold state_of in *. rewrite Hbs in *. cbn [default] in *.
  exists t. split; [done|]. cbn. rewrite C3, C4, C5, C6, C7.
  exact (conj F1 (conj F2 (conj F3 (conj F4 F5)))).
Qed.
End Theorems.
