(* ===== verification/CoordinatorWitnesses.v ===== *)
(** * Concrete runs of an admission coordinator

    An executable scheduler: answers of the outside given as a record of
    functions, and threads driven one event at a time.  What it computes is
    reachable, so that the theorems apply to the runs below. *)

From stdpp Require Import base gmap list strings sorting.
From Stdlib Require Import ZArith Lia.
From ITree Require Import ITree.
From S2P Require Import Prelude GoStrings Policies Capabilities Config Fields Settings.
From S2P Require Import Endpoints Lifecycle LifecycleStatus Admission Coordinator Threads CoordinatorFacts.
From S2P Require Import CoordinatorStatus CoordinatorSystem CoordinatorTheorems Fixtures.

Local Open Scope Z_scope.
Local Open Scope go_scope.

(** ** A scheduler *)

(** An outside that answers alike whenever it is asked. *)
Record outside := mkOutside {
  out_now : Z;
  out_ctx : option error;
  out_tick : option error;
  out_ready : string -> error + list Endpoint;
  out_authorized : Endpoint -> bool;
  out_ensure : string -> Binding -> error + Lease;
  out_released : option error;
  out_status : error + Status;
  out_begin : string -> string -> error + ActivationClaim;
  out_complete : option error;
  out_page : error + Page;
}.

Definition perform (o : outside) {A} (e : coordE A) (s : admissionState) : option (A * admissionState) :=
  match e in coordE A return option (A * admissionState) with
  | Locked sec => run_section sec (out_now o) s
  | Now => Some (out_now o, s)
  | NextEvent => Some (7, s)
  | CtxErr => Some (out_ctx o, s)
  | Tick => Some (out_tick o, s)
  | Iterate keys => Some (elements keys, s)
  | RegistryReady target => Some (out_ready o target, s)
  | InspectorList _ => Some (out_page o, s)
  | AuthorizeEndpoint e => Some (if out_authorized o e then None else Some (ErrText "denied"), s)
  | EnsureReady controller b _ => Some (out_ensure o controller b, s)
  | ControllerRelease _ _ _ => Some (out_released o, s)
  | ReadStatus _ _ => Some (out_status o, s)
  | ActivationsBegin key holder _ => Some (out_begin o key holder, s)
  | ActivationsComplete _ => Some (out_complete o, s)
  | RecordEvent _ => Some (tt, s)
  end.

Lemma perform_performs o A (e : coordE A) s a s' : perform o e s = Some (a, s') -> performs e a s s'.
Proof.
  destruct e; cbn; try (by intros [= _ <-]).
  - intros Hr. by exists (out_now o).
  - by intros [= <- <-].
Qed.

Lemma perform_answers o A (e : coordE A) s a s' : perform o e s = Some (a, s') -> answers e a.
Proof.
  destruct e; cbn; try done.
  - intros Hr. by exists (out_now o), s, s'.
  - by intros [= <- _].
Qed.

(** The result of a call that runs alone. *)
Fixpoint run_alone (n : nat) (o : outside) {R} (t : itree coordE R) (s : admissionState) : option R :=
  match n with
  | O => None
  | S n =>
      match observe t with
      | RetF r => Some r
      | TauF t => run_alone n o t s
      | VisF e k => '(a, s) ← perform o e s; run_alone n o (k a) s
      end
  end.

Lemma run_alone_results n o {R} (t : itree coordE R) s r :
  run_alone n o t s = Some r -> results n t r.
Proof.
  revert t s. induction n as [|n IH]; intros t s; [done|]. cbn [run_alone results].
  destruct (observe t) as [x|t'|A e k].
  - by intros [= <-].
  - apply IH.
  - destruct (perform o e s) as [[a s']|] eqn:E; [|done]. cbn. intros Hr.
    exists a. split; [by eapply perform_answers|by eapply IH].
Qed.

(** One step of thread [id]; the lease that it returns gets the number [lid]. *)
Definition turn (o : outside) (id lid : nat) (s : system) : option system :=
  t ← sy_threads s !! id;
  match observe (th_rest t) with
  | RetF r =>
      if decide (sy_leases s !! lid = None) then
        Some (mkSystem (sy_state s) (delete id (sy_threads s))
          (match r with Some lease => <[lid := lease]> (sy_leases s) | None => sy_leases s end)
          (sy_approved s))
      else None
  | TauF t' =>
      Some (mkSystem (sy_state s) (<[id := mkThread t' (th_hand t)]> (sy_threads s))
        (sy_leases s) (sy_approved s))
  | VisF e k =>
      '(a, st) ← perform o e (sy_state s);
      Some (mkSystem st (<[id := mkThread (k a) (effect e a (th_hand t))]> (sy_threads s))
        (sy_leases s) (approve e a (sy_approved s)))
  end.

(** At most [n] steps of thread [id]. *)
Fixpoint drive (n : nat) (o : outside) (id lid : nat) (s : system) : system :=
  match n with
  | O => s
  | S n => match turn o id lid s with Some s' => drive n o id lid s' | None => s end
  end.

Section Scheduler.
Context `{NetURL} `{UnicodeTables} (c : AdmissionCoordinator) (st : admissionState).

Lemma turn_reach o id lid s s' : sys_reach c st s -> turn o id lid s = Some s' -> sys_reach c st s'.
Proof.
  intros Hr. unfold turn. destruct (sy_threads s !! id) as [[t h]|] eqn:Ht; [|done]. cbn.
  destruct (observe t) as [r|t'|A e k] eqn:He.
  - destruct (decide _) as [Hl|]; [|done]. intros [= <-].
    eapply sys_reach_step; [done|]. by eapply step_return.
  - intros [= <-]. eapply sys_reach_step; [done|]. by eapply step_tau.
  - destruct (perform o e (sy_state s)) as [[a st']|] eqn:Hp; [|done]. intros [= <-].
    eapply sys_reach_step; [done|]. eapply step_event; [done..|]. by eapply perform_performs.
Qed.

Lemma drive_reach n o id lid s : sys_reach c st s -> sys_reach c st (drive n o id lid s).
Proof.
  revert s. induction n as [|n IH]; intros s Hr; simpl; [done|].
  destruct (turn o id lid s) as [s'|] eqn:E; [|done]. by eapply IH, turn_reach.
Qed.

(** A request arrives. *)
Definition arrive (id : nat) (request : AdmissionRequest) (s : system) : system :=
  match sy_threads s !! id with
  | Some _ => s
  | None => mkSystem (sy_state s)
      (<[id := mkThread (acquire_call c request) empty_hand]> (sy_threads s)) (sy_leases s) (sy_approved s)
  end.

Lemma arrive_reach id request s : sys_reach c st s -> sys_reach c st (arrive id request s).
Proof.
  intros Hr. unfold arrive. destruct (sy_threads s !! id) eqn:E; [done|].
  eapply sys_reach_step; [done|]. by eapply step_acquire.
Qed.
End Scheduler.

(** ** A run *)
Section Run.
#[local] Existing Instance plain_tables.
Local Instance node_url : NetURL := fun s =>
  if String.eqb s "http://node" then Some (mkURL "http" "node" false "" "") else None.

(** An activatable deployment, whose queue holds two requests of 100 bytes. *)
Definition chat_target : Target :=
  mkTarget [] "chat" "llama" ["chat"] "openai" EndpointActivatable "sparkrun"
    (mkBinding (mkRecoveryPolicy "" 0 0 0 0 0 0) "" "sparkrun" "r1" "chat" "chat" "recipe" "" [] ∅
       (10 * Second) 0 2 100 ColdStartWait 0).

Definition chat_options : AdmissionOptions :=
  mkAdmissionOptions true false true {["sparkrun"%string]} true "replica" 0 0.

Definition chat_built : AdmissionCoordinator * admissionState :=
  match NewAdmissionCoordinator [chat_target] chat_options (inl "") 0 with
  | inr r => r
  | inl _ => (mkAdmissionCoordinator false false false ∅ "" 0 0 ∅, mkAdmissionState ∅ ∅)
  end.
Definition chat : AdmissionCoordinator := chat_built.1.

Definition chat_request (bytes : Z) : AdmissionRequest :=
  mkAdmissionRequest "chat" (mkRequestFeatures false false "chat" "openai" false) bytes.

Definition chat_endpoint (token : Z) : Endpoint :=
  mkEndpoint "job-1" "chat" "http://node" "openai" ["llama"] "sparkrun" "" "" "r1" "" token StateReady
    0 0 0 0 0 ∅.

Definition observed_ready : Status :=
  mkStatus true None [] [] (Some true) "" "job-1" StateReady None 4 "Warm start!".

(** Endpoint [job-1] serves; a controller that finds it; every claim is granted. *)
Definition warm : outside :=
  mkOutside 5 None None (fun _ => inr [chat_endpoint 3]) (fun _ => true)
    (fun _ b => inr (mkLease "lease-1" (chat_endpoint (if b_FencingToken b =? 0 then 3 else b_FencingToken b))))
    None (inr observed_ready)
    (fun key holder => inr (mkActivationClaim key holder 3 ActivationOwner 90)) None
    (inr (mkPage [chat_endpoint 3] "")).

(** Nothing serves yet. *)
Definition cold : outside :=
  mkOutside 5 None None (fun _ => inr []) (fun _ => true) (out_ensure warm) None (out_status warm)
    (out_begin warm) None (out_page warm).

(** Request 1 acquires the running endpoint; request 2, of 60 bytes, finds
    none and is taken up to a number of events past its queueing. *)
Definition started : system := mkSystem chat_built.2 ∅ ∅ [].
Definition served : system := drive 60 warm 1 1 (arrive chat 1 (chat_request 40) started).
Definition queued (n : nat) : system := drive n cold 2 2 (arrive chat 2 (chat_request 60) served).

Lemma queued_runs n : runs [chat_target] chat_options chat (queued n).
Proof.
  exists (inl ""), 0, chat_built.2. split; [by vm_compute|]. split.
  - repeat constructor. vm_compute. discriminate.
  - apply drive_reach, arrive_reach, drive_reach, arrive_reach, sys_reach_start.
Qed.

(** The thread [id] of a system, and the event that it is about to perform. *)
Definition thread_of (s : system) (id : nat) : thread :=
  default (mkThread (Ret None) empty_hand) (sy_threads s !! id).

Definition next (t : thread) : option {A & coordE A} :=
  match observe (th_rest t) with VisF e _ => Some (existT _ e) | _ => None end.

Lemma next_observe t p :
  next t = Some p -> exists k, observe (th_rest t) = VisF (projT2 p) k.
Proof.
  unfold next. destruct (observe (th_rest t)) as [r|t'|B e' k]; [done..|]. intros [= <-]. by exists k.
Qed.

Lemma thread_of_lookup s id :
  is_Some (sy_threads s !! id) ->
  sy_threads s !! id = Some (mkThread (th_rest (thread_of s id)) (th_hand (thread_of s id))).
Proof. intros [[t h] Ht]. unfold thread_of. by rewrite Ht. Qed.

Definition chat_key : string := ActivationKey (tg_Binding chat_target).

Lemma lifecycle_accounting_witness :
  exists bs, as_bindings (sy_state (queued 11)) !! chat_key = Some bs /\
    abs_queuedWaiters bs = waiters chat_key (queued 11) /\
    0 <= abs_queuedWaiters bs <= 2 /\
    abs_queuedBodyBytes bs = queued_bytes chat_key (queued 11) /\
    0 <= abs_queuedBodyBytes bs <= 100 /\
    abs_activeLeases bs = in_use (lease_on chat chat_key) (queued 11) /\
    waiters chat_key (queued 11) = 1 /\ queued_bytes chat_key (queued 11) = 60.
Proof.
  destruct (lifecycle_accounting _ _ _ _ (queued_runs 11)) as [Hb _].
  destruct (Hb "chat"%string chat_target) as (bs & E0 & E1 & E2 & E3 & E4 & E5);
    [vm_compute; reflexivity..|].
  exists bs. split_and!; [exact E0|exact E1|apply E2|apply E2|exact E3|apply E4|apply E4|exact E5|..];
    vm_compute; reflexivity.
Defined.

(** Request 2 is about to publish that it activates the deployment. *)
Lemma lifecycle_never_panics_witness :
  run_section (Transition (tg_Binding chat_target) StateActivating "activation_started" None 5)
    8 (sy_state (queued 6)) <> None.
Proof.
  destruct (next_observe (thread_of (queued 6) 2) (existT _
    (Locked (Transition (tg_Binding chat_target) StateActivating "activation_started" None 5))))
    as [k Hk]; [vm_compute; reflexivity|].
  refine (lifecycle_never_panics _ _ chat (queued 6) 2 _ (th_hand (thread_of (queued 6) 2)) _ _ k
    (queued_runs 6) _ Hk 8).
  apply thread_of_lookup, (bool_decide_unpack _). vm_compute. exact I.
Defined.

Definition chat_lease : AdmissionLease :=
  mkAdmissionLease (chat_endpoint 3) "chat" (Some ("sparkrun"%string, mkLease "lease-1" (chat_endpoint 3))).

Lemma leases_fit_witness :
  exists t, ac_targets chat !! "chat"%string = Some t /\
    endpoint_mismatch t (chat_endpoint 3) = None /\ chat_endpoint 3 ∈ sy_approved (queued 11).
Proof. apply (leases_fit _ _ _ _ 1 chat_lease (queued_runs 11)). vm_compute. reflexivity. Defined.

(** Request 2 gives the lease back that its controller gave it, and fails. *)
Lemma calls_leave_nothing_witness :
  h_waiting (th_hand (thread_of (queued 20) 2)) = None /\ h_claims (th_hand (thread_of (queued 20) 2)) = [] /\
  h_leases (th_hand (thread_of (queued 20) 2)) = [] /\ h_admitted (th_hand (thread_of (queued 20) 2)) = None.
Proof.
  apply (calls_leave_nothing _ _ chat (queued 20) 2 (th_rest (thread_of (queued 20) 2)) _ None
    (queued_runs 20)).
  - apply thread_of_lookup, (bool_decide_unpack _). vm_compute. exact I.
  - vm_compute. reflexivity.
Defined.

(** The status while request 2 is in the queue. *)
Abbreviation queued_status :=
  (run_alone 50 cold (snapshot_from chat 5 (as_bindings (sy_state (queued 11)))) (sy_state (queued 11))).

Lemma queued_status_values :
  (fun s => (cst_QueuedBodyBytes <$> snap_Controllers s, bst_Reason <$> snap_Bindings s)) <$> queued_status =
    Some ([60], ["warm_start"%string]).
Proof. vm_compute. reflexivity. Qed.

Lemma status_adds_up_witness :
  exists snapshot, queued_status = Some snapshot /\
    snapshot_of_bindings chat (as_bindings (sy_state (queued 11))) snapshot /\
    cst_QueuedBodyBytes <$> snap_Controllers snapshot = [60] /\
    bst_Reason <$> snap_Bindings snapshot = ["warm_start"%string].
Proof.
  pose proof queued_status_values as Hv. destruct queued_status as [snapshot|] eqn:E; [|done].
  injection Hv as Hc Hb. exists snapshot. split; [reflexivity|]. split; [|by split].
  apply (status_adds_up [chat_target] chat_options chat (queued 11) 50 5 snapshot (queued_runs 11)).
  exact (run_alone_results 50 cold _ _ _ E).
Defined.
End Run.
