(* ===== verification/LifecycleStart.v ===== *)
(** * From a validated document to a coordinator

    The lifecycle targets of a document that validates are ones that
    [NewAdmissionCoordinator] accepts, and the coordinator it builds knows
    exactly the dynamic deployments of the document. *)

From stdpp Require Import base gmap list strings sorting.
From Stdlib Require Import ZArith Lia.
From ITree Require Import ITree.
From S2P Require Import Prelude GoStrings Json RouterPolicy Policies Capabilities Privacy Config Fields Settings.
From S2P Require Import Profiles ProfileFacts Picker Plan Validate PlanFacts SnapshotTheorems.
From S2P Require Import ValidateFacts Compiled Endpoints Lifecycle LifecycleStatus Activation.
From S2P Require Import Admission Coordinator Threads CoordinatorFacts CoordinatorTheorems.
From S2P Require Import Fixtures CompiledWitnesses.

Local Open Scope Z_scope.
Local Open Scope go_scope.

(** ** Targets that the coordinator accepts *)

(** A target that needs no default and passes every check of [addTarget]. *)
Record ready_target (controllers : gset string) (t : Target) : Prop := {
  rt_deployment : tg_Deployment t <> ""%string /\ zlen (tg_Deployment t) <= 1024;
  rt_controller : tg_Controller t <> ""%string;
  rt_int64 : b_MaxQueuedBodyBytes (tg_Binding t) <= MaxInt64;
  rt_source : tg_Source t = EndpointDiscovered \/
    (tg_Source t = EndpointActivatable /\
     let b := tg_Binding t in
     b_Deployment b = tg_Deployment t /\ b_Controller b = tg_Controller t /\
     b_Controller b ∈ controllers /\ b_Revision b <> ""%string /\ b_Recipe b <> ""%string /\
     0 < b_ActivationTimeout b /\ 0 < b_MaxQueuedWaiters b /\
     0 < b_MaxQueuedBodyBytes b <= MaxInt64 /\
     (b_ColdStart b = ColdStartWait \/ b_ColdStart b = ColdStartReject));
}.

Definition activatable_target (t : Target) : bool := String.eqb (tg_Source t) EndpointActivatable.

(** The state of the loop after a ready target. *)
Definition with_target (now : Z) (t : Target)
    (acc : gmap string Target * gmap string admissionBindingState)
  : gmap string Target * gmap string admissionBindingState :=
  (<[tg_Deployment t := t]> acc.1,
   if activatable_target t then <[ActivationKey (tg_Binding t) := offline_state now]> acc.2 else acc.2).

Lemma addTarget_ready controllers targets bindings now t :
  ready_target controllers t -> targets !! tg_Deployment t = None ->
  (activatable_target t = true -> bindings !! ActivationKey (tg_Binding t) = None) ->
  addTarget true true controllers (targets, bindings) now t = inr (with_target now t (targets, bindings)).
Proof.
  intros [[Hd Hlen] Hc _ Hs] Hn Hk. unfold addTarget, with_target, activatable_target in *.
  rewrite (proj2 (String.eqb_neq _ _) Hd), (proj2 (Z.ltb_ge _ _) Hlen), Hn.
  rewrite bool_decide_eq_false_2 by (intros [? ?]; done). cbn [orb fail_if check_then].
  destruct t as [dj de um lm pr so co b]. cbn [tg_Deployment tg_Controller tg_Source tg_Binding] in *.
  apply String.eqb_neq in Hc.
  destruct Hs as [->|(-> & E1 & E2 & E3 & E4 & E5 & E6 & E7 & E8 & E9)]; cbn -[fail_if]; [by rewrite Hc|].
  assert (Hb : defaulted_binding (mkTarget dj de um lm pr EndpointActivatable co b) = b).
  { unfold defaulted_binding. cbn [tg_Binding tg_Deployment tg_Controller].
    by rewrite E2, Hc, E1, (proj2 (String.eqb_neq _ _) Hd). }
  unfold add_activatable. rewrite Hb. cbn [tg_Deployment]. rewrite <- E2 in Hc.
  rewrite Hc, (proj2 (String.eqb_neq _ _) E4), (proj2 (String.eqb_neq _ _) E5), (proj2 (Z.leb_gt _ _) E6),
    (proj2 (Z.leb_gt _ _) E7), (proj2 (Z.leb_gt _ _) (proj1 E8)), E1, String.eqb_refl.
  assert (Hcs : String.eqb (b_ColdStart b) "" = false /\
    negb (String.eqb (b_ColdStart b) ColdStartWait) && negb (String.eqb (b_ColdStart b) ColdStartReject) = false)
    by (by destruct E9 as [->| ->]).
  destruct Hcs as [Hcs1 Hcs2]. rewrite Hcs1, Hcs2, bool_decide_eq_true_2 by done.
  rewrite Hk by done. rewrite bool_decide_eq_false_2 by (intros [? ?]; done).
  cbn [orb negb fail_if check_then set_tg_Controller set_tg_Binding tg_Deployment fst snd].
  by rewrite E2.
Qed.

(** The controllers of targets. *)
Definition target_controllers (ts : list Target) : gset string := ⋃ (target_controller <$> ts).

Lemma turns_ready options now ts acc :
  ao_Registry options = true -> ao_Authorizer options = true ->
  Forall (ready_target (ao_Controllers options)) ts ->
  NoDup (tg_Deployment <$> ts) -> Forall (fun t => acc.1.1.1 !! tg_Deployment t = None) ts ->
  NoDup ((fun t => ActivationKey (tg_Binding t)) <$> List.filter activatable_target ts) ->
  Forall (fun t => acc.1.1.2 !! ActivationKey (tg_Binding t) = None) (List.filter activatable_target ts) ->
  exists bindings,
    scan (target_turn options now) acc ts =
      inr (foldl (fun m t => <[tg_Deployment t := t]> m) acc.1.1.1 ts, bindings,
           acc.1.2 ∪ target_controllers ts,
           acc.2 + Z.of_nat (length (List.filter activatable_target ts))).
Proof.
  intros Hr Ha Hf. revert acc.
  induction Hf as [|t ts Ht Hf IH]; intros [[[targets bindings] cs] n] Hnd Hnew Hnk Hnewk;
    cbn [fst snd] in *; cbn [scan].
  { exists bindings. unfold target_controllers. cbn. rewrite Z.add_0_r. repeat f_equal. set_solver. }
  apply NoDup_cons in Hnd as [Hni Hnd]. apply Forall_cons in Hnew as [Hn Hnew].
  unfold target_turn at 1. rewrite Hr, Ha, addTarget_ready; [|done|done|].
  2:{ intros E. cbn [List.filter] in Hnewk. rewrite E in Hnewk. by apply Forall_cons in Hnewk as [? _]. }
  cbn [with_target fst snd]. rewrite lookup_insert_eq. fold (activatable_target t).
  edestruct IH as [bs ->]; cycle 4.
  { exists bs. cbn [fst snd foldl]. do 2 f_equal; [|cbn [List.filter]; destruct (activatable_target t); cbn [length]; lia].
    f_equal. unfold target_controllers. cbn. set_solver. }
  all: cbn [fst snd].
  - done.
  - apply Forall_forall. intros t' Ht'. rewrite Forall_forall in Hnew.
    rewrite lookup_insert_ne; [by apply Hnew|]. intros E. apply Hni. rewrite E. by apply list_elem_of_fmap_2.
  - cbn [List.filter] in Hnk. destruct (activatable_target t); [by apply NoDup_cons in Hnk as [_ ?]|done].
  - cbn [List.filter] in Hnk, Hnewk. destruct (activatable_target t); [|done].
    apply NoDup_cons in Hnk as [Hni' _]. apply Forall_cons in Hnewk as [_ Hnewk].
    apply Forall_forall. intros t' Ht'. rewrite Forall_forall in Hnewk.
    rewrite lookup_insert_ne; [by apply Hnewk|]. intros E. apply Hni'. rewrite E.
    by apply (list_elem_of_fmap_2 (fun t => ActivationKey (tg_Binding t))).
Qed.

(** ** The targets of a document *)

(** The target of a deployment that is not static. *)
Definition dynamic_target (d : Document) (dep : Deployment) : option Target :=
  let source := dep_EndpointSource dep in
  let target :=
    {| tg_DiscoveryJobIDs := dep_DiscoveryJobIDs dep;
       tg_Deployment := dep_Name dep;
       tg_UpstreamModel := dep_Model dep;
       tg_LogicalModels := Compact (sort_Strings (modelsByDeployment d (dep_Name dep)));
       tg_Protocol := providerProtocol d (dep_Provider dep);
       tg_Source := EndpointSourceType_Effective (es_Type source);
       tg_Controller := es_Controller source;
       tg_Binding := no_binding |} in
  if String.eqb (EndpointSourceType_Effective (es_Type source)) EndpointSourceDiscovered then Some target
  else if is_activatable source then Some (set_tg_Binding (source_binding d dep) target)
  else None.

Lemma targets_scan d acc deps targets :
  scan (target_of d) acc deps = inr targets -> targets = acc ++ omap (dynamic_target d) deps.
Proof.
  intros Hs. revert Hs. apply (scan_invariant (target_of d)
    (fun deps targets => targets = acc ++ omap (dynamic_target d) deps)); [by rewrite app_nil_r|].
  intros l dep s s' -> Hstep. rewrite omap_app, app_assoc. unfold target_of in Hstep.
  cbn [omap list_omap]. unfold dynamic_target at 2. unfold is_activatable.
  destruct (String.eqb_spec (EndpointSourceType_Effective (es_Type (dep_EndpointSource dep))) EndpointSourceStatic)
    as [E|_]; [rewrite E; cbn; injection Hstep as <-; by rewrite app_nil_r|].
  destruct (String.eqb_spec (EndpointSourceType_Effective (es_Type (dep_EndpointSource dep))) EndpointSourceDiscovered)
    as [E|_]; [rewrite E; injection Hstep as <-; done|].
  destruct (String.eqb_spec (EndpointSourceType_Effective (es_Type (dep_EndpointSource dep))) EndpointSourceActivatable)
    as [E|_]; [rewrite E; injection Hstep as <-; done|done].
Qed.

Section Sources.
Context `{UnicodeTables} `{EncodingJSON} `{NetURL}.

Lemma validateID_length v : validateID v = None -> v <> ""%string /\ zlen v <= 256.
Proof.
  unfold validateID. intros Hv. split_checks. split; [by apply String.eqb_neq|by apply Z.ltb_ge].
Qed.

(** What the source of a deployment promises. *)
Record source_ok (s : EndpointSource) : Prop := {
  so_type : is_static s = false ->
    EndpointSourceType_Effective (es_Type s) = EndpointSourceDiscovered \/ is_activatable s = true;
  so_controller : is_static s = false -> es_Controller s <> ""%string;
  so_activation : is_activatable s = true ->
    es_Revision s <> ""%string /\ es_Recipe s <> ""%string /\
    0 < EffectiveActivationTimeout s /\ 0 < EffectiveMaxQueuedWaiters s /\
    0 < EffectiveMaxQueuedBodyBytes s <= MaxInt64 /\
    (ColdStartPolicy_Effective (es_ColdStart s) = ColdStartWait \/
     ColdStartPolicy_Effective (es_ColdStart s) = ColdStartReject);
}.

Lemma or_default_pos v x : 0 <= v -> 0 < x -> 0 < or_default v x.
Proof. unfold or_default. destruct (Z.eqb_spec v 0); lia. Qed.

Lemma EndpointSource_Validate_ok s : EndpointSource_Validate s = None -> source_ok s.
Proof.
  unfold EndpointSource_Validate. intros Hv. split_checks.
  match goal with Hx : (if String.eqb _ _ then _ else _) = None |- _ => rename Hx into Hs end.
  unfold is_static, is_activatable in *.
  destruct (String.eqb_spec (EndpointSourceType_Effective (es_Type s)) EndpointSourceStatic) as [E|_].
  { split; unfold is_static, is_activatable; rewrite E; done. }
  destruct (String.eqb_spec (EndpointSourceType_Effective (es_Type s)) EndpointSourceDiscovered) as [E|_].
  { split_checks. split; unfold is_static, is_activatable; rewrite E; [by left| |done].
    intros _. by eapply validateID_length. }
  destruct (String.eqb_spec (EndpointSourceType_Effective (es_Type s)) EndpointSourceActivatable) as [E|]; [|done].
  unfold validate_activatable in Hs. split_checks.
  split; unfold is_static, is_activatable; rewrite E; [by right| |].
  { intros _. by eapply validateID_length. }
  intros _. repeat match goal with Hx : validateID _ = None |- _ => apply validateID_length in Hx as [? _] end.
  prop_tests. unfold EffectiveActivationTimeout, EffectiveMaxQueuedWaiters, EffectiveMaxQueuedBodyBytes.
  split_and!; try done; try (by apply or_default_pos).
  - unfold or_default, maxQueuedBodyBytes, defaultMaxQueuedBodyBytes in *.
    destruct (_ =? _); unfold MaxInt64; lia.
  - match goal with Hx : mem _ [ColdStartWait; ColdStartReject] = true |- _ =>
      by rewrite mem_spec, elem_of_cons, list_elem_of_singleton in Hx end.
Qed.

(** What the loop over the deployments checks of the sources. *)
Lemma sources_scan d deps s :
  scan (deployment_step d) (∅, []) deps = inr s ->
  Forall (fun dep => zlen (dep_Name dep) <= 256 /\ source_ok (dep_EndpointSource dep)) deps /\
  s.2 = reverse (binding_key <$> List.filter is_activatable (dep_EndpointSource <$> deps)) /\
  NoDup s.2.
Proof.
  intros Hs. revert Hs. apply (scan_invariant (deployment_step d) (fun deps s =>
    Forall (fun dep => zlen (dep_Name dep) <= 256 /\ source_ok (dep_EndpointSource dep)) deps /\
    s.2 = reverse (binding_key <$> List.filter is_activatable (dep_EndpointSource <$> deps)) /\
    NoDup s.2)); [split_and!; [constructor|done|constructor]|].
  intros l dep [m keys] s1 (Hf & Hk & Hn) Hstep. unfold deployment_step in Hstep. cbn [snd] in *.
  split_checks. subst s1. cbn [snd].
  rewrite Forall_app, Forall_singleton, fmap_app, List.filter_app, fmap_app, reverse_app.
  match goal with Hx : EndpointSource_Validate _ = None |- _ => apply EndpointSource_Validate_ok in Hx end.
  match goal with Hx : validateID _ = None |- _ => apply validateID_length in Hx as [_ Hx] end.
  match goal with Hx : is_activatable _ && mem _ _ = false |- _ => rename Hx into Hdup end.
  split; [done|]. cbn [fmap list_fmap List.filter].
  destruct (is_activatable (dep_EndpointSource dep)); [|by split].
  cbn [andb] in Hdup. split; [by rewrite Hk|]. constructor; [|done]. by apply mem_false.
Qed.

Lemma refresh_fields d dep :
  dep_Name (refresh_profiles d dep) = dep_Name dep /\
  dep_EndpointSource (refresh_profiles d dep) = dep_EndpointSource dep.
Proof. unfold refresh_profiles. by repeat case_match. Qed.

Lemma Validate_sources d :
  Validate d = None ->
  NoDup (dep_Name <$> doc_Deployments d) /\
  Forall (fun dep => dep_Name dep <> ""%string /\ zlen (dep_Name dep) <= 256 /\
                     source_ok (dep_EndpointSource dep)) (doc_Deployments d) /\
  NoDup (binding_key <$> List.filter is_activatable (dep_EndpointSource <$> doc_Deployments d)).
Proof.
  unfold Validate. intros Hv. apply error_of_None in Hv as [[] Hv]. split_checks.
  destruct (ResolveModelPolicies d) as [e|d1] eqn:Hm; [done|].
  pose proof (ResolveModelPolicies_spec d d1 Hm) as (_ & ms & -> & _ & _).
  pose proof (validate_resolved_wf _ _ Hv) as [[_ Hnd _] Hwf _].
  unfold validate_resolved in Hv. set (d' := ResolveCapabilityPolicies _ _) in *. cbv zeta in Hv. split_checks.
  destruct (scan provider_step [] (doc_Providers d')) as [e|ps]; [done|].
  destruct (scan (deployment_step d') (∅, []) (doc_Deployments d')) as [e|[deployments keys]] eqn:Ed; [done|].
  apply sources_scan in Ed as (Hf & -> & Hk). cbn [snd] in Hk.
  assert (En : dep_Name <$> doc_Deployments d' = dep_Name <$> doc_Deployments d).
  { unfold d'. rewrite ResolveCapabilityPolicies_spec. cbn [with_resolved with_VirtualModels with_Deployments doc_Deployments].
    rewrite <- !list_fmap_compose. apply list_fmap_ext. intros i dep _. apply (refresh_fields d dep). }
  assert (Es : dep_EndpointSource <$> doc_Deployments d' = dep_EndpointSource <$> doc_Deployments d).
  { unfold d'. rewrite ResolveCapabilityPolicies_spec. cbn [with_resolved with_VirtualModels with_Deployments doc_Deployments].
    rewrite <- !list_fmap_compose. apply list_fmap_ext. intros i dep _. apply (refresh_fields d dep). }
  rewrite Es in Hk. rewrite En in Hnd. split_and!; [done| |by rewrite <- reverse_Permutation].
  assert (Hall : Forall (fun dep => dep_Name dep <> ""%string /\ zlen (dep_Name dep) <= 256 /\
                     source_ok (dep_EndpointSource dep)) (doc_Deployments d')).
  { apply Forall_forall. intros dep Hin. rewrite Forall_forall in Hf, Hwf.
    split; [by destruct (Hwf dep Hin)|by apply Hf]. }
  unfold d' in Hall. rewrite ResolveCapabilityPolicies_spec, Forall_fmap in Hall.
  unfold with_resolved in Hall. cbn [with_VirtualModels with_Deployments doc_Deployments] in Hall.
  rewrite Forall_fmap in Hall. eapply Forall_impl; [exact Hall|]. intros dep. cbn.
  by destruct (refresh_fields d dep) as [-> ->].
Qed.
End Sources.

(** ** The coordinator of a document *)

(** Distinct images under one function are distinct under a finer one. *)
Lemma NoDup_fmap_finer {A B C} (g : A -> B) (h : A -> C) l :
  (forall x y, h x = h y -> g x = g y) -> NoDup (g <$> l) -> NoDup (h <$> l).
Proof.
  intros Hgh. induction l as [|x l IH]; [constructor|]. cbn. rewrite !NoDup_cons. intros [Hn Hl].
  split; [|by apply IH]. intros (y & E & Hy)%list_elem_of_fmap. apply Hn.
  rewrite (Hgh _ _ E). by apply list_elem_of_fmap_2.
Qed.

Lemma filter_source (f : EndpointSource -> bool) deps :
  List.filter f (dep_EndpointSource <$> deps) =
    dep_EndpointSource <$> List.filter (fun dep => f (dep_EndpointSource dep)) deps.
Proof. induction deps as [|dep deps IH]; [done|]. cbn. rewrite IH. by destruct (f _). Qed.

Lemma dynamic_target_activatable d dep t :
  dynamic_target d dep = Some t ->
  activatable_target t = is_activatable (dep_EndpointSource dep) /\
  (is_activatable (dep_EndpointSource dep) = true -> tg_Binding t = source_binding d dep) /\
  tg_Deployment t = dep_Name dep.
Proof.
  unfold dynamic_target, activatable_target, is_activatable.
  destruct (String.eqb_spec (EndpointSourceType_Effective (es_Type (dep_EndpointSource dep))) EndpointSourceDiscovered)
    as [E|_]; [intros [= <-]; cbn; by rewrite ?E|].
  destruct (String.eqb_spec (EndpointSourceType_Effective (es_Type (dep_EndpointSource dep))) EndpointSourceActivatable)
    as [E|_]; [|done]. intros [= <-]. cbn. by rewrite ?E.
Qed.

Lemma dynamic_target_static d dep t :
  dynamic_target d dep = Some t ->
  is_static (dep_EndpointSource dep) = false /\ tg_Source t <> EndpointStatic.
Proof.
  unfold dynamic_target, is_static, is_activatable.
  destruct (String.eqb_spec (EndpointSourceType_Effective (es_Type (dep_EndpointSource dep))) EndpointSourceDiscovered)
    as [E|_]; [intros [= <-]; cbn; by rewrite ?E|].
  destruct (String.eqb_spec (EndpointSourceType_Effective (es_Type (dep_EndpointSource dep))) EndpointSourceActivatable)
    as [E|_]; [|done]. intros [= <-]. cbn. by rewrite ?E.
Qed.

Lemma activatable_targets d deps :
  (fun t => ActivationKey (tg_Binding t)) <$> List.filter activatable_target (omap (dynamic_target d) deps) =
    (fun dep => ActivationKey (source_binding d dep)) <$>
      List.filter (fun dep => is_activatable (dep_EndpointSource dep)) deps.
Proof.
  induction deps as [|dep deps IH]; [done|]. cbn [omap list_omap List.filter].
  destruct (dynamic_target d dep) as [t|] eqn:E.
  - apply dynamic_target_activatable in E as (E1 & E2 & _). cbn [List.filter]. rewrite E1.
    destruct (is_activatable _) eqn:E3; [|done]. cbn. by rewrite E2, <- IH.
  - unfold dynamic_target in E. destruct (String.eqb _ _); [done|]. by destruct (is_activatable _).
Qed.

(** A coordinator with everything dynamic targets need. *)
Record wired_options (options : AdmissionOptions) (random : string + string) : Prop := {
  wo_registry : ao_Registry options = true;
  wo_authorizer : ao_Authorizer options = true;
  wo_poll : 10 * Millisecond <= or_default (ao_PollInterval options) (100 * Millisecond) <= Minute;
  wo_retry : 0 <= or_default (ao_RetryAfter options) Second <= Minute;
  wo_instance : exists id, zlen id <= 128 /\
    (if String.eqb (ao_InstanceID options) "" then random else inr (ao_InstanceID options)) = inr id;
}.

Section Start.
Context `{UnicodeTables} `{EncodingJSON} `{NetURL}.

Lemma dynamic_target_ready d dep t controllers :
  dep_Name dep <> ""%string -> zlen (dep_Name dep) <= 256 -> source_ok (dep_EndpointSource dep) ->
  (is_activatable (dep_EndpointSource dep) = true -> es_Controller (dep_EndpointSource dep) ∈ controllers) ->
  dynamic_target d dep = Some t -> ready_target controllers t.
Proof.
  intros Hn Hlen [S1 S2 S3] Hc Hd. unfold dynamic_target in Hd. unfold is_static, is_activatable in *.
  destruct (String.eqb_spec (EndpointSourceType_Effective (es_Type (dep_EndpointSource dep))) EndpointSourceDiscovered)
    as [E|_].
  { rewrite E in *. injection Hd as <-. split; cbn; [split; [done|lia]|by apply S2|done|by left]. }
  destruct (String.eqb_spec (EndpointSourceType_Effective (es_Type (dep_EndpointSource dep))) EndpointSourceActivatable)
    as [E|_]; [|done]. rewrite E in *. injection Hd as <-. destruct (S3 eq_refl) as (F1 & F2 & F3 & F4 & F5 & F6).
  split; cbn; [split; [done|lia]|by apply S2|by apply F5|right]. split_and!; try done; [by apply Hc|apply F5..].
Qed.

(** What the targets of a document are. *)
Lemma TargetsFromDocument_spec document d targets :
  ResolveRequestProfiles document = inr d -> TargetsFromDocument document = inr targets ->
  targets ≡ₚ omap (dynamic_target d) (doc_Deployments d) /\ Validate d = None.
Proof.
  intros Hr. unfold TargetsFromDocument. rewrite Hr.
  rewrite check_then_inr, wrap_None. intros [Hv Hs]. split; [|done].
  destruct (scan (target_of d) [] (doc_Deployments d)) as [e|ts] eqn:E; [done|]. injection Hs as <-.
  apply targets_scan in E as ->. apply stable_sort_Permutation.
Qed.

Lemma lookup_targets ts name t :
  NoDup (tg_Deployment <$> ts) ->
  foldl (fun m t => <[tg_Deployment t := t]> m) (∅ : gmap string Target) ts !! name = Some t <->
  t ∈ ts /\ tg_Deployment t = name.
Proof.
  intros Hn. rewrite (foldl_insert_map tg_Deployment (fun m => m)).
  rewrite insert_all_lookup by by rewrite <- list_fmap_compose.
  rewrite lookup_empty, list_elem_of_fmap. naive_solver.
Qed.

Lemma dynamic_names d deps :
  NoDup (dep_Name <$> deps) -> NoDup (tg_Deployment <$> omap (dynamic_target d) deps).
Proof.
  assert (Hsub : forall (deps : list Deployment) x, x ∈ tg_Deployment <$> omap (dynamic_target d) deps -> x ∈ dep_Name <$> deps).
  { intros ds x (t & -> & (dep & Hin & E)%list_elem_of_omap)%list_elem_of_fmap.
    apply dynamic_target_activatable in E as (_ & _ & ->). by apply list_elem_of_fmap_2. }
  induction deps as [|dep deps IH]; [constructor|]. cbn [fmap list_fmap]. rewrite NoDup_cons. intros [Hn Hl].
  cbn [omap list_omap]. destruct (dynamic_target d dep) as [t|] eqn:E; [|by apply IH].
  cbn [fmap list_fmap]. apply dynamic_target_activatable in E as (_ & _ & ->).
  constructor; [|by apply IH]. intros Hin. by apply Hn, Hsub.
Qed.

(** Validation suffices to start the workload lifecycle: the targets that
    [TargetsFromDocument] takes from a document that validates are accepted by
    [NewAdmissionCoordinator] when its options are within range, the controllers
    of the activatable deployments are configured, and the limits of 64
    controllers and 500 bindings are kept; the coordinator then knows exactly
    the deployments that are not static, each with its own target.  The request
    profiles of the document are resolved first. *)
Theorem document_lifecycle_starts document d targets options random now :
  ResolveRequestProfiles document = inr d -> TargetsFromDocument document = inr targets -> wired_options options random ->
  (forall dep, dep ∈ doc_Deployments d -> is_activatable (dep_EndpointSource dep) = true ->
     es_Controller (dep_EndpointSource dep) ∈ ao_Controllers options) ->
  Z.of_nat (size (target_controllers targets)) <= MaxStatusControllers ->
  Z.of_nat (length (List.filter activatable_target targets)) <= MaxStatusBindings ->
  exists c st, NewAdmissionCoordinator targets options random now = inr (c, st) /\
    int64_limits targets /\
    (forall name t, ac_targets c !! name = Some t <->
       exists dep, dep ∈ doc_Deployments d /\ dep_Name dep = name /\ dynamic_target d dep = Some t) /\
    (forall name, IsDynamic c name = true <->
       exists dep, dep ∈ doc_Deployments d /\ dep_Name dep = name /\
         is_static (dep_EndpointSource dep) = false).
Proof.
  intros Hres Htargets. destruct (TargetsFromDocument_spec document d targets Hres Htargets) as (Hperm & Hv).
  clear Hres Htargets. intros [Wr Wa Wp Wt (id & Wid & Wi)] Hc Hcs Hbs.
  apply Validate_sources in Hv as (Hnd & Hok & Hkeys). rewrite Forall_forall in Hok.
  assert (Hready : Forall (ready_target (ao_Controllers options)) targets).
  { rewrite Hperm. apply Forall_forall. intros t (dep & Hin & E)%list_elem_of_omap.
    destruct (Hok dep Hin) as (N1 & N2 & N3). apply (dynamic_target_ready d dep); auto. }
  assert (Hnames : NoDup (tg_Deployment <$> targets)) by (rewrite Hperm; by apply dynamic_names).
  assert (Hnk : NoDup ((fun t => ActivationKey (tg_Binding t)) <$> List.filter activatable_target targets)).
  { rewrite (filter_Permutation activatable_target _ _ Hperm), activatable_targets.
    rewrite filter_source, <- list_fmap_compose in Hkeys. eapply NoDup_fmap_finer; [|exact Hkeys].
    intros dep1 dep2 [E1 E2]%ActivationKey_split. cbn in *. unfold binding_key. by rewrite E1, E2. }
  destruct (turns_ready options now targets (∅, ∅, ∅, 0)) as [bindings Hscan]; [exact Wr|exact Wa|exact Hready|exact Hnames| |exact Hnk| |].
  { apply Forall_forall. intros. apply lookup_empty. }
  { apply Forall_forall. intros. apply lookup_empty. }
  exists (mkAdmissionCoordinator true (ao_Inspector options || (true && ao_RegistryInspects options)) true (ao_Controllers options) id
    (or_default (ao_PollInterval options) (100 * Millisecond))
    (or_default (ao_RetryAfter options) Second)
    (foldl (fun m t => <[tg_Deployment t := t]> m) ∅ targets)), (mkAdmissionState bindings ∅).
  assert (Hlookup : forall name t,
    foldl (fun m t => <[tg_Deployment t := t]> m) (∅ : gmap string Target) targets !! name = Some t <->
    exists dep, dep ∈ doc_Deployments d /\ dep_Name dep = name /\ dynamic_target d dep = Some t).
  { intros name t. rewrite lookup_targets, Hperm, list_elem_of_omap by done. split.
    - intros [(dep & Hin & E) <-]. exists dep. by destruct (dynamic_target_activatable _ _ _ E) as (_ & _ & ->).
    - intros (dep & Hin & <- & E). split; [by exists dep|]. by apply dynamic_target_activatable in E as (_ & _ & ->). }
  split_and!.
  - unfold NewAdmissionCoordinator. rewrite Wi, Hscan.
    rewrite (proj2 (Z.ltb_ge _ _) (proj1 Wp)), (proj2 (Z.ltb_ge _ _) (proj2 Wp)),
      (proj2 (Z.ltb_ge _ _) (proj1 Wt)), (proj2 (Z.ltb_ge _ _) (proj2 Wt)), (proj2 (Z.ltb_ge _ _) Wid).
    cbn [fst snd orb fail_if check_then].
    rewrite (left_id_L ∅ (∪)), Z.add_0_l, (proj2 (Z.ltb_ge _ _) Hcs), (proj2 (Z.ltb_ge _ _) Hbs).
    cbn [fail_if check_then]. by rewrite Wr, Wa.
  - eapply Forall_impl; [exact Hready|]. by intros t [].
  - exact Hlookup.
  - intros name. unfold IsDynamic. cbn [ac_targets].
    destruct (foldl _ _ _ !! name) as [t|] eqn:E.
    + apply Hlookup in E as (dep & Hin & <- & E). pose proof (dynamic_target_static _ _ _ E) as [E1 E2].
      rewrite (proj2 (String.eqb_neq _ _) E2). split; [intros _; by exists dep|done].
    + split; [done|]. intros (dep & Hin & <- & Es). exfalso.
      destruct (dynamic_target d dep) as [t|] eqn:Et.
      * assert (Hx : foldl (fun m t => <[tg_Deployment t := t]> m) ∅ targets !! dep_Name dep = Some t)
          by (apply Hlookup; by exists dep). congruence.
      * destruct (Hok dep Hin) as (_ & _ & [So _ _]). unfold dynamic_target in Et. cbv zeta in Et.
        destruct (So Es) as [So'|So']; [by rewrite So', String.eqb_refl in Et|].
        rewrite So' in Et. by destruct (String.eqb _ EndpointSourceDiscovered) in Et.
Qed.
End Start.

(** ** A document with an activatable deployment *)
Section Example.
#[local] Existing Instances plain_tables any_json host_url.

(** Deployment ["c"] is activated by the controller ["sparkrun"]. *)
Definition dep_c : Deployment :=
  {| dep_RequestProfiles := ∅; dep_ProfileSource := None; dep_DiscoveryJobIDs := []; dep_ModelMetadata := None; dep_Name := "c"; dep_Title := ""; dep_Provider := "openai";
     dep_Model := "m"; dep_NativeProtocols := [];
     dep_EndpointSource :=
       {| es_Recovery := zeroRecoveryPolicy; es_IdleAction := ""; es_Type := "activatable";
          es_Controller := "sparkrun"; es_Revision := "r1"; es_Recipe := "llama"; es_RecipeRevision := "";
          es_ClusterCandidates := []; es_Overrides := ∅; es_ActivationTimeout := 0; es_IdleTTL := 0;
          es_MaxQueuedWaiters := 0; es_MaxQueuedBodyBytes := 0; es_ColdStart := "" |};
     dep_Credential := ""; dep_UpstreamHeaders := ∅; dep_ExtraBody := ∅; dep_Capabilities := [];
     dep_CapabilityPolicy := {| capol_Unknown := ""; capol_Unsupported := [] |};
     dep_MaxConcurrency := 0; dep_Circuit := disabled_circuit |}.

Definition activating_document : Document := with_Deployments full_document (fleet ++ [dep_c]).

Definition activating_resolved : Document :=
  match ResolveRequestProfiles activating_document with inr d => d | inl _ => activating_document end.

Lemma activating_resolves : ResolveRequestProfiles activating_document = inr activating_resolved.
Proof. vm_compute. reflexivity. Qed.

Lemma activating_resolved_deployments : doc_Deployments activating_resolved = fleet ++ [dep_c].
Proof. vm_compute. reflexivity. Qed.

Definition activating_targets : list Target :=
  match TargetsFromDocument activating_document with inr ts => ts | inl _ => [] end.

Definition activating_options : AdmissionOptions :=
  mkAdmissionOptions true false true {["sparkrun"%string]} true "replica" 0 0.

Lemma activating_deployments dep :
  dep ∈ fleet ++ [dep_c] -> dep = dep_a \/ dep = dep_b \/ dep = dep_c.
Proof.
  change (fleet ++ [dep_c]) with [dep_a; dep_b; dep_c].
  rewrite !elem_of_cons, elem_of_nil. naive_solver.
Qed.

Lemma document_lifecycle_starts_witness :
  exists c st, NewAdmissionCoordinator activating_targets activating_options (inl "") 0 = inr (c, st) /\
    (forall name, IsDynamic c name = true <->
       exists dep, dep ∈ fleet ++ [dep_c] /\ dep_Name dep = name /\
         is_static (dep_EndpointSource dep) = false) /\
    IsDynamic c "c" = true /\ IsDynamic c "a" = false.
Proof.
  destruct (document_lifecycle_starts activating_document activating_resolved activating_targets activating_options (inl ""%string) 0)
    as (c & st & E & _ & _ & Hd).
  - apply activating_resolves.
  - vm_compute. reflexivity.
  - split; try reflexivity; try (split; vm_compute; discriminate).
    exists "replica"%string. split; [vm_compute; discriminate|reflexivity].
  - intros dep Hin Ha. rewrite activating_resolved_deployments in Hin.
    destruct (activating_deployments dep Hin) as [->|[->| ->]]; [done|done|]. apply (bool_decide_unpack _). vm_compute. exact I.
  - vm_compute. discriminate.
  - vm_compute. discriminate.
  - rewrite activating_resolved_deployments in Hd. exists c, st. split_and!; [exact E|exact Hd|..].
    + apply Hd. exists dep_c. split_and!; [|reflexivity..]. by right; right; left.
    + destruct (IsDynamic c "a") eqn:Ed; [|done]. apply Hd in Ed as (dep & Hin & Hn & Hs).
      by destruct (activating_deployments dep Hin) as [->|[->| ->]].
Defined.
End Example.
