(* ===== verification/EventStream.v ===== *)
(** * AWS event streams ([pkg/gateway/aws_eventstream.go])

    The framing of the streams that one provider answers with: reading a
    message, decoding its headers, relaying messages, and replacing the payload
    of one.  A buffer is the list of its bytes; a slice or an index out of
    range is a Go panic, [Panic].  Before them come what they use of
    [encoding/binary] (big-endian integers) and [hash/crc32] (the IEEE checksum,
    which tells apart texts of one length that differ in a single byte). *)

From stdpp Require Import base gmap list strings.
From Stdlib Require Import Ascii ZArith Lia.
From S2P Require Import Prelude GoStrings.

Local Open Scope Z_scope.

(** ** Bytes as integers *)
Definition zbyte (c : ascii) : Z := Z.of_N (N_of_ascii c).
Definition byte_z (z : Z) : ascii := ascii_of_N (Z.to_N (z mod 256)).

Lemma zbyte_bounds c : 0 <= zbyte c < 256.
Proof. destruct c as [[] [] [] [] [] [] [] []]; vm_compute; split; congruence. Qed.

Lemma zbyte_byte_z z : zbyte (byte_z z) = z mod 256.
Proof.
  pose proof (Z.mod_pos_bound z 256 ltac:(lia)). unfold zbyte, byte_z.
  rewrite N_ascii_embedding by lia. lia.
Qed.

Lemma byte_z_zbyte c : byte_z (zbyte c) = c.
Proof. by destruct c as [[] [] [] [] [] [] [] []]. Qed.

Lemma zbyte_inj c c' : zbyte c = zbyte c' -> c = c'.
Proof. intros E. by rewrite <- (byte_z_zbyte c), E, byte_z_zbyte. Qed.

(** ** Big-endian integers *)
Fixpoint be_value (acc : Z) (l : list ascii) : Z :=
  match l with
  | [] => acc
  | c :: l => be_value (acc * 256 + zbyte c) l
  end.

(** [binary.BigEndian.Uint32], [Uint16] of the bytes read. *)
Definition Uint (l : list ascii) : Z := be_value 0 l.

(** [binary.BigEndian.PutUint32] *)
Definition PutUint32 (v : Z) : list ascii :=
  [byte_z (Z.shiftr v 24); byte_z (Z.shiftr v 16); byte_z (Z.shiftr v 8); byte_z v].

Definition is_uint32 (z : Z) : Prop := 0 <= z < 4294967296.
Definition uint32 (z : Z) : Z := z mod 4294967296.

Lemma uint32_id z : is_uint32 z -> uint32 z = z.
Proof. unfold is_uint32, uint32. intros. by rewrite Z.mod_small. Qed.

Lemma Uint_PutUint32 v : is_uint32 v -> Uint (PutUint32 v) = v.
Proof.
  unfold is_uint32. intros Hv. unfold Uint, PutUint32. cbn [be_value]. rewrite !zbyte_byte_z.
  rewrite !Z.shiftr_div_pow2 by lia.
  change (2 ^ 24) with (256 * 256 * 256). change (2 ^ 16) with (256 * 256). change (2 ^ 8) with 256.
  rewrite <- !Z.div_div by lia.
  pose proof (Z.div_mod v 256). pose proof (Z.div_mod (v / 256) 256).
  pose proof (Z.div_mod (v / 256 / 256) 256). pose proof (Z.div_mod (v / 256 / 256 / 256) 256).
  assert (v / 256 / 256 / 256 / 256 = 0) by (rewrite !Z.div_div by lia; apply Z.div_small; lia).
  lia.
Qed.

Lemma be_value_bounds l acc :
  0 <= acc -> 0 <= be_value acc l < (acc + 1) * 256 ^ Z.of_nat (length l).
Proof.
  revert acc. induction l as [|c l IH]; intros acc Hacc; cbn [be_value length].
  - change (256 ^ Z.of_nat 0) with 1. lia.
  - pose proof (zbyte_bounds c). destruct (IH (acc * 256 + zbyte c) ltac:(lia)) as [H1 H2].
    split; [done|]. rewrite Nat2Z.inj_succ, Z.pow_succ_r by lia.
    assert (0 < 256 ^ Z.of_nat (length l)) by (apply Z.pow_pos_nonneg; lia). nia.
Qed.

Lemma Uint_bounds l : 0 <= Uint l < 256 ^ Z.of_nat (length l).
Proof. unfold Uint. pose proof (be_value_bounds l 0). lia. Qed.

Lemma be_value_inj l l' acc acc' :
  length l = length l' -> be_value acc l = be_value acc' l' -> acc = acc' /\ l = l'.
Proof.
  revert l' acc acc'. induction l as [|c l IH]; intros [|c' l'] acc acc' Hl E; try discriminate; [done|].
  simplify_eq/=. apply IH in E as [E ->]; [|done].
  pose proof (zbyte_bounds c). pose proof (zbyte_bounds c').
  assert (acc = acc' /\ zbyte c = zbyte c') as [-> Ec] by lia. by apply zbyte_inj in Ec as ->.
Qed.

Lemma Uint_inj l l' : length l = length l' -> Uint l = Uint l' -> l = l'.
Proof. intros Hl E. by apply be_value_inj in E as [_ ?]. Qed.

(** ** The checksum *)
Definition IEEE : Z := 0xedb88320.

(** One shift of [simpleMakeTable], and an entry of the table. *)
Definition table_shift (crc : Z) : Z :=
  if Z.testbit crc 0 then Z.lxor (Z.shiftr crc 1) IEEE else Z.shiftr crc 1.

Definition table_entry (i : Z) : Z := Nat.iter 8 table_shift i.

Definition IEEETable : list Z := Eval vm_compute in table_entry <$> seqZ 0 256.

Definition table_at (i : Z) : Z := nth (Z.to_nat i) IEEETable 0.

(** The loop body of [simpleUpdate]:
    [crc = tab[byte(crc)^v] ^ (crc >> 8)]. *)
Definition crc_byte (crc : Z) (v : ascii) : Z :=
  Z.lxor (table_at (Z.lxor (Z.land crc 255) (zbyte v))) (Z.shiftr crc 8).

Definition crc_update (crc : Z) (p : list ascii) : Z := foldl crc_byte crc p.

(** [crc32.ChecksumIEEE]; [^crc] flips 32 bits. *)
Definition ChecksumIEEE (data : list ascii) : Z :=
  Z.lxor (crc_update (Z.lxor 0 0xffffffff) data) 0xffffffff.

(** The check value of the algorithm, for the text [123456789]. *)
Example ChecksumIEEE_check :
  ChecksumIEEE (byte_z <$> seqZ 49 9) = 0xcbf43926.
Proof. vm_compute. reflexivity. Qed.

(** ** Ranges *)
Lemma is_uint32_testbit z : is_uint32 z <-> 0 <= z /\ forall i, 32 <= i -> Z.testbit z i = false.
Proof.
  unfold is_uint32. change 4294967296 with (2 ^ 32). split.
  - intros [H1 H2]. split; [done|]. intros i Hi.
    destruct (decide (z = 0)) as [->|]; [apply Z.testbit_0_l|].
    apply Z.bits_above_log2; [done|]. apply Z.log2_lt_pow2 in H2; lia.
  - intros [H1 H2]. split; [done|]. destruct (decide (z = 0)) as [->|]; [lia|].
    apply Z.log2_lt_pow2; [lia|]. destruct (Z.lt_ge_cases (Z.log2 z) 32) as [|Hge]; [done|].
    specialize (H2 _ Hge). rewrite Z.bit_log2 in H2 by lia. done.
Qed.

Lemma lxor_uint32 a b : is_uint32 a -> is_uint32 b -> is_uint32 (Z.lxor a b).
Proof.
  rewrite !is_uint32_testbit. intros [Ha Ha'] [Hb Hb']. split; [by apply Z.lxor_nonneg|].
  intros i Hi. by rewrite Z.lxor_spec, Ha', Hb'.
Qed.

Lemma low_byte_bounds crc c : 0 <= Z.lxor (Z.land crc 255) (zbyte c) < 256.
Proof.
  assert (Hin : forall a b, 0 <= a < 2 ^ 8 -> 0 <= b < 2 ^ 8 -> 0 <= Z.lxor a b < 2 ^ 8).
  { intros a b Ha Hb. split; [apply Z.lxor_nonneg; lia|].
    destruct (decide (Z.lxor a b = 0)) as [->|]; [lia|].
    pose proof (proj2 (Z.lxor_nonneg a b) ltac:(lia)).
    apply Z.log2_lt_pow2; [lia|]. pose proof (Z.log2_lxor a b ltac:(lia) ltac:(lia)).
    pose proof (Z.log2_le_mono a 255 ltac:(lia)). pose proof (Z.log2_le_mono b 255 ltac:(lia)).
    change (Z.log2 255) with 7 in *. lia. }
  apply (Hin (Z.land crc 255)); [|apply zbyte_bounds].
  change 255 with (Z.ones 8). rewrite Z.land_ones by lia. apply Z.mod_pos_bound. lia.
Qed.

Lemma table_at_spec (P : Z -> Prop) i :
  0 <= i < 256 -> Forall P IEEETable -> P (table_at i).
Proof.
  intros Hi HP. unfold table_at. eapply Forall_forall in HP; [apply HP|].
  apply list_elem_of_In, nth_In. change (length IEEETable) with 256%nat. lia.
Qed.

Lemma table_uint32 i : 0 <= i < 256 -> is_uint32 (table_at i).
Proof.
  intros Hi. apply (table_at_spec is_uint32); [done|].
  apply (bool_decide_unpack (Forall (fun z => 0 <= z < 4294967296) IEEETable)). vm_compute. exact I.
Qed.

(** The entries differ in their top bytes. *)
Lemma table_top_inj i j :
  0 <= i < 256 -> 0 <= j < 256 ->
  Z.shiftr (table_at i) 24 = Z.shiftr (table_at j) 24 -> i = j.
Proof.
  intros Hi Hj E.
  assert (Hnd : NoDup ((fun z => Z.shiftr z 24) <$> IEEETable))
    by (apply (bool_decide_unpack _); vm_compute; exact I).
  assert (Hat : forall k, 0 <= k < 256 ->
            ((fun z => Z.shiftr z 24) <$> IEEETable) !! Z.to_nat k = Some (Z.shiftr (table_at k) 24)).
  { intros k Hk. destruct (lookup_lt_is_Some_2 IEEETable (Z.to_nat k)) as [z Hz];
      [change (length IEEETable) with 256%nat; lia|].
    assert (table_at k = z) as -> by (by apply nth_lookup_Some).
    by rewrite list_lookup_fmap, Hz. }
  enough (Z.to_nat i = Z.to_nat j) by lia.
  eapply NoDup_lookup; [exact Hnd|exact (Hat i Hi)|rewrite E; exact (Hat j Hj)].
Qed.

Lemma crc_byte_uint32 crc c : is_uint32 crc -> is_uint32 (crc_byte crc c).
Proof.
  intros Hc. unfold crc_byte. apply lxor_uint32; [apply table_uint32, low_byte_bounds|].
  unfold is_uint32 in *. rewrite Z.shiftr_div_pow2 by lia.
  split; [apply Z.div_pos; lia|]. apply Z.div_lt_upper_bound; lia.
Qed.

Lemma crc_update_uint32 p crc : is_uint32 crc -> is_uint32 (crc_update crc p).
Proof.
  revert crc. induction p as [|c p IH]; intros crc Hc; [done|].
  apply IH. by apply crc_byte_uint32.
Qed.

Lemma ChecksumIEEE_uint32 data : is_uint32 (ChecksumIEEE data).
Proof.
  unfold ChecksumIEEE. apply lxor_uint32; [|by unfold is_uint32].
  apply crc_update_uint32. by unfold is_uint32.
Qed.

(** ** One byte changes the checksum *)
Lemma crc_byte_split crc c crc' c' :
  is_uint32 crc -> is_uint32 crc' -> crc_byte crc c = crc_byte crc' c' ->
  Z.lxor (Z.land crc 255) (zbyte c) = Z.lxor (Z.land crc' 255) (zbyte c') /\
  Z.shiftr crc 8 = Z.shiftr crc' 8.
Proof.
  intros Hc Hc' E. unfold crc_byte in E.
  set (i := Z.lxor (Z.land crc 255) (zbyte c)) in *.
  set (j := Z.lxor (Z.land crc' 255) (zbyte c')) in *.
  assert (Hi : 0 <= i < 256) by apply low_byte_bounds.
  assert (Hj : 0 <= j < 256) by apply low_byte_bounds.
  assert (Htop : forall z, is_uint32 z -> Z.shiftr (Z.shiftr z 8) 24 = 0).
  { intros z [H1 H2]. rewrite Z.shiftr_shiftr, Z.shiftr_div_pow2 by lia. apply Z.div_small.
    change (2 ^ (8 + 24)) with 4294967296. lia. }
  assert (i = j) as Eij.
  { apply table_top_inj; [done..|].
    apply (f_equal (fun z => Z.shiftr z 24)) in E. rewrite !Z.shiftr_lxor, !Htop in E by done.
    by rewrite !Z.lxor_0_r in E. }
  split; [done|]. rewrite Eij in E. clearbody i j.
  apply (f_equal (Z.lxor (table_at j))) in E.
  by rewrite <- !Z.lxor_assoc, Z.lxor_nilpotent, !Z.lxor_0_l in E.
Qed.

Lemma crc_byte_inj_byte crc c c' :
  is_uint32 crc -> crc_byte crc c = crc_byte crc c' -> c = c'.
Proof.
  intros Hc E. apply crc_byte_split in E as [E _]; [|done..].
  apply (f_equal (Z.lxor (Z.land crc 255))) in E.
  rewrite <- !Z.lxor_assoc, Z.lxor_nilpotent, !Z.lxor_0_l in E. by apply zbyte_inj.
Qed.

Lemma crc_byte_inj_state crc crc' c :
  is_uint32 crc -> is_uint32 crc' -> crc_byte crc c = crc_byte crc' c -> crc = crc'.
Proof.
  intros Hc Hc' E. apply crc_byte_split in E as [E1 E2]; [|done..].
  apply (f_equal (fun z => Z.lxor z (zbyte c))) in E1.
  rewrite !Z.lxor_assoc, Z.lxor_nilpotent, !Z.lxor_0_r in E1.
  change 255 with (Z.ones 8) in E1. rewrite !Z.land_ones in E1 by lia.
  rewrite !Z.shiftr_div_pow2 in E2 by lia.
  rewrite (Z.div_mod crc (2 ^ 8)), (Z.div_mod crc' (2 ^ 8)) by lia. by rewrite E1, E2.
Qed.

Lemma crc_update_inj p crc crc' :
  is_uint32 crc -> is_uint32 crc' -> crc_update crc p = crc_update crc' p -> crc = crc'.
Proof.
  revert crc crc'. induction p as [|c p IH]; intros crc crc' Hc Hc' E; [done|].
  apply (crc_byte_inj_state _ _ c); [done..|]. apply IH; [by apply crc_byte_uint32..|done].
Qed.

Lemma ChecksumIEEE_one_byte p c c' s :
  ChecksumIEEE (p ++ c :: s) = ChecksumIEEE (p ++ c' :: s) -> c = c'.
Proof.
  unfold ChecksumIEEE. intros E.
  apply (f_equal (fun z => Z.lxor z 0xffffffff)) in E.
  rewrite !Z.lxor_assoc, Z.lxor_nilpotent, !Z.lxor_0_r in E.
  unfold crc_update in E. rewrite !foldl_app in E. cbn [foldl] in E.
  change (foldl crc_byte ?a ?l) with (crc_update a l) in E.
  assert (H0 : is_uint32 (crc_update (Z.lxor 0 0xffffffff) p))
    by (apply crc_update_uint32; by unfold is_uint32).
  apply crc_update_inj in E; [|by apply crc_byte_uint32..].
  by apply crc_byte_inj_byte in E.
Qed.

Local Open Scope go_scope.

(** ** Results *)
Inductive StreamError :=
  | EOF
  | ErrUnexpectedEOF
  | Errorf (msg : string).

Inductive outcome (A : Type) :=
  | Panic
  | Failed (e : StreamError)
  | Done (a : A).
Arguments Panic {A}.
Arguments Failed {A} e.
Arguments Done {A} a.

#[export] Instance outcome_ret : MRet outcome := fun _ a => Done a.
#[export] Instance outcome_bind : MBind outcome := fun _ _ f m =>
  match m with Panic => Panic | Failed e => Failed e | Done a => f a end.

#[export] Instance StreamError_eq_dec : EqDecision StreamError.
Proof. solve_decision. Defined.

(** ** Buffers *)
Definition blen (l : list ascii) : Z := Z.of_nat (length l).

(** [l[i]] *)
Definition index (l : list ascii) (i : Z) : outcome ascii :=
  if 0 <=? i then match l !! Z.to_nat i with Some c => Done c | None => Panic end else Panic.

(** [l[from:to]] of a slice whose capacity is its length. *)
Definition slice (l : list ascii) (from to : Z) : outcome (list ascii) :=
  if (0 <=? from) && (from <=? to) && (to <=? blen l)
  then Done (take (Z.to_nat (to - from)) (drop (Z.to_nat from) l)) else Panic.

(** [l[from:]] *)
Definition slice_from (l : list ascii) (from : Z) : outcome (list ascii) := slice l from (blen l).

(** [make([]byte, n)] *)
Definition make_bytes (n : Z) : outcome (list ascii) :=
  if 0 <=? n then Done (replicate (Z.to_nat n) "000"%char) else Panic.

(** [copy(l[from:to], src)] *)
Definition copy_into (l : list ascii) (from to : Z) (src : list ascii) : outcome (list ascii) :=
  target ← slice l from to;
  let n := Nat.min (length target) (length src) in
  mret (take (Z.to_nat from) l ++ take n src ++ drop (Z.to_nat from + n) l).

(** [binary.BigEndian.Uint32(l[from:to])] *)
Definition uint_at (l : list ascii) (from to : Z) : outcome Z :=
  field ← slice l from to; mret (Uint field).

(** ** Readers

    What a reader still yields, and the error it then answers with. *)
Record Reader := mkReader { rd_bytes : list ascii; rd_end : StreamError }.

(** [io.ReadFull] into a buffer of [n > 0] bytes: the bytes read, the error,
    and the reader afterwards. *)
Definition ReadFull (source : Reader) (n : Z) : list ascii * option StreamError * Reader :=
  let got := take (Z.to_nat n) (rd_bytes source) in
  let source' := mkReader (drop (Z.to_nat n) (rd_bytes source)) (rd_end source) in
  let err :=
    if blen got =? n then None
    else match got, rd_end source with
         | [], e => Some e
         | _, EOF => Some ErrUnexpectedEOF
         | _, e => Some e
         end in
  (got, err, source').

(** ** Messages *)
Definition awsEventPreludeBytes : Z := 12.
Definition awsEventOverheadBytes : Z := 16.
Definition maxAWSEventPayloadBytes : Z := Z.shiftl 16 20.
Definition maxAWSEventHeaderBytes : Z := Z.shiftl 128 10.
Definition maxAWSEventMessageBytes : Z :=
  maxAWSEventPayloadBytes + maxAWSEventHeaderBytes + awsEventOverheadBytes.

Record awsEventMessage := mkAwsEventMessage {
  msg_raw : list ascii;
  msg_headers : gmap string string;
  msg_payload : list ascii;
}.

Section WithTables.
Context `{UnicodeTables}.

Definition header (m : awsEventMessage) (name : string) : string :=
  default "" (msg_headers m !! ToLower name).

Definition truncated_value : StreamError := Errorf "AWS event-stream header value is truncated".

Definition decodeAWSEventHeaderValue (valueType : ascii) (raw : list ascii) : outcome (string * Z) :=
  let fixed (size : Z) : outcome (string * Z) :=
    if blen raw <? size then Failed truncated_value else Done (""%string, size) in
  let t := zbyte valueType in
  if t =? 0 then Done ("true"%string, 0)
  else if t =? 1 then Done ("false"%string, 0)
  else if t =? 2 then fixed 1
  else if t =? 3 then fixed 2
  else if t =? 4 then fixed 4
  else if (t =? 5) || (t =? 8) then fixed 8
  else if (t =? 6) || (t =? 7) then
    if blen raw <? 2 then Failed truncated_value
    else
      length ← uint_at raw 0 2;
      if blen raw <? 2 + length then Failed truncated_value
      else if t =? 7
      then value ← slice raw 2 (2 + length); Done (of_bytes value, 2 + length)
      else Done (""%string, 2 + length)
  else if t =? 9 then fixed 16
  else Failed (Errorf "AWS event-stream header has an unknown value type").

(** The loop of [decodeAWSEventHeaders]; running out of [fuel] is [Panic]. *)
Fixpoint decode_headers (fuel : nat) (headers : gmap string string) (raw : list ascii)
  : outcome (gmap string string) :=
  if blen raw =? 0 then Done headers
  else
    match fuel with
    | O => Panic
    | S fuel =>
        first ← index raw 0;
        let nameLength := zbyte first in
        raw ← slice_from raw 1;
        if (nameLength =? 0) || (blen raw <? nameLength + 1)
        then Failed (Errorf "AWS event-stream header is truncated")
        else
          name ← slice raw 0 nameLength;
          let name := ToLower (of_bytes name) in
          raw ← slice_from raw nameLength;
          valueType ← index raw 0;
          raw ← slice_from raw 1;
          '(value, consumed) ← decodeAWSEventHeaderValue valueType raw;
          raw ← slice_from raw consumed;
          match headers !! name with
          | Some _ => Failed (Errorf "AWS event-stream contains a duplicate header")
          | None => decode_headers fuel (<[name := value]> headers) raw
          end
    end.

Definition decodeAWSEventHeaders (raw : list ascii) : outcome (gmap string string) :=
  decode_headers (length raw) ∅ raw.

Definition readAWSEventMessage (source : Reader) : outcome (awsEventMessage * Reader) :=
  let '(prelude, err, source) := ReadFull source awsEventPreludeBytes in
  match err with
  | Some EOF => Failed (if blen prelude =? 0 then EOF else ErrUnexpectedEOF)
  | Some _ => Failed ErrUnexpectedEOF
  | None =>
      totalLength ← uint_at prelude 0 4;
      headersLength ← uint_at prelude 4 8;
      expectedPreludeCRC ← uint_at prelude 8 12;
      if (totalLength <? awsEventOverheadBytes) || (maxAWSEventMessageBytes <? totalLength)
      then Failed (Errorf "AWS event-stream message length is invalid")
      else if (maxAWSEventHeaderBytes <? headersLength) ||
              (totalLength - awsEventOverheadBytes <? headersLength)
      then Failed (Errorf "AWS event-stream header length is invalid")
      else if maxAWSEventPayloadBytes <? totalLength - awsEventOverheadBytes - headersLength
      then Failed (Errorf "AWS event-stream payload length is invalid")
      else
        start ← slice prelude 0 8;
        if negb (ChecksumIEEE start =? expectedPreludeCRC)
        then Failed (Errorf "AWS event-stream prelude checksum is invalid")
        else
          raw ← make_bytes totalLength;
          raw ← copy_into raw 0 (blen raw) prelude;
          rest ← slice_from raw awsEventPreludeBytes;
          let '(body, err, source) := ReadFull source (blen rest) in
          raw ← copy_into raw awsEventPreludeBytes (blen raw) body;
          match err with
          | Some _ => Failed ErrUnexpectedEOF
          | None =>
              expectedMessageCRC ← uint_at raw (totalLength - 4) (blen raw);
              checked ← slice raw 0 (totalLength - 4);
              if negb (ChecksumIEEE checked =? expectedMessageCRC)
              then Failed (Errorf "AWS event-stream message checksum is invalid")
              else
                block ← slice raw awsEventPreludeBytes (awsEventPreludeBytes + headersLength);
                headers ← decodeAWSEventHeaders block;
                payload ← slice raw (awsEventPreludeBytes + headersLength) (totalLength - 4);
                Done (mkAwsEventMessage raw headers payload, source)
          end
  end.

Definition replaceAWSEventPayload (message : awsEventMessage) (payload : list ascii)
  : outcome (list ascii) :=
  if maxAWSEventPayloadBytes <? blen payload
  then Failed (Errorf "AWS event-stream payload exceeds %d bytes")
  else
    headersLength ← uint_at (msg_raw message) 4 8;
    let totalLength := awsEventOverheadBytes + headersLength + blen payload in
    if maxAWSEventMessageBytes <? totalLength
    then Failed (Errorf "AWS event-stream message exceeds %d bytes")
    else
      result ← make_bytes totalLength;
      result ← copy_into result 0 4 (PutUint32 (uint32 totalLength));
      result ← copy_into result 4 8 (PutUint32 (uint32 headersLength));
      start ← slice result 0 8;
      result ← copy_into result 8 12 (PutUint32 (ChecksumIEEE start));
      block ← slice (msg_raw message) awsEventPreludeBytes (awsEventPreludeBytes + headersLength);
      result ← copy_into result awsEventPreludeBytes (awsEventPreludeBytes + headersLength) block;
      result ← copy_into result (awsEventPreludeBytes + headersLength) (totalLength - 4) payload;
      checked ← slice result 0 (totalLength - 4);
      copy_into result (totalLength - 4) (blen result) (PutUint32 (ChecksumIEEE checked)).

(** ** Relaying

    The destination and the observer, over a world [W].  A destination that
    cannot flush has the identity as [Flush]; a nil observer is [None]. *)
Record Destination (W : Type) := mkDestination {
  Write : W -> list ascii -> option StreamError * W;
  Flush : W -> W;
}.
Arguments Write {W} _ _ _.
Arguments Flush {W} _ _.

Section Proxy.
Context {W : Type} (destination : Destination W).
Context (observe : option (awsEventMessage -> W -> option StreamError * W)).

Definition observed (message : awsEventMessage) (w : W) : option StreamError * W :=
  match observe with Some f => f message w | None => (None, w) end.

(** The loop of [proxyAWSEventMessages]. *)
Fixpoint proxy_loop (fuel : nat) (source : Reader) (w : W) : outcome (option StreamError * W) :=
  match fuel with
  | O => Panic
  | S fuel =>
      match readAWSEventMessage source with
      | Panic => Panic
      | Failed EOF => Done (None, w)
      | Failed e => Done (Some e, w)
      | Done (message, source) =>
          match observed message w with
          | (Some e, w) => Done (Some e, w)
          | (None, w) =>
              match Write destination w (msg_raw message) with
              | (Some e, w) => Done (Some e, w)
              | (None, w) => proxy_loop fuel source (Flush destination w)
              end
          end
      end
  end.

Definition proxyAWSEventMessages (source : Reader) (w : W) : outcome (option StreamError * W) :=
  proxy_loop (S (length (rd_bytes source))) source w.
End Proxy.
End WithTables.
