(* ===== verification/EventStreamTheorems.v ===== *)
(** * Properties of event streams

    Reading a message is a total function of the bytes of its source, it
    recovers exactly the well-formed frames, it refuses every frame with one
    corrupted byte, replacing a payload is undone by reading, and the relay
    passes whole messages on unchanged. *)

From stdpp Require Import base gmap list strings.
From Stdlib Require Import Ascii ZArith Lia.
From S2P Require Import Prelude GoStrings Fixtures EventStream.

Local Open Scope Z_scope.
Local Open Scope go_scope.

(** ** Buffers *)
Lemma blen_nonneg l : 0 <= blen l.
Proof. unfold blen. lia. Qed.

Lemma blen_app l k : blen (l ++ k) = blen l + blen k.
Proof. unfold blen. rewrite length_app. lia. Qed.

Lemma blen_take n l : 0 <= n <= blen l -> blen (take (Z.to_nat n) l) = n.
Proof. unfold blen. intros. rewrite length_take. lia. Qed.

Lemma blen_drop n l : 0 <= n <= blen l -> blen (drop (Z.to_nat n) l) = blen l - n.
Proof. unfold blen. intros. rewrite length_drop. lia. Qed.

Lemma blen_PutUint32 v : blen (PutUint32 v) = 4.
Proof. done. Qed.

Lemma PutUint32_Uint l : blen l = 4 -> PutUint32 (Uint l) = l.
Proof.
  unfold blen. intros Hl. assert (Hl' : length l = 4%nat) by lia.
  apply Uint_inj; [done|]. apply Uint_PutUint32.
  pose proof (Uint_bounds l) as Hb. rewrite Hl' in Hb. by unfold is_uint32.
Qed.

Lemma slice_in l from to :
  0 <= from <= to -> to <= blen l ->
  slice l from to = Done (take (Z.to_nat (to - from)) (drop (Z.to_nat from) l)).
Proof. intros. unfold slice. by rewrite !(proj2 (Z.leb_le _ _)) by lia. Qed.

Lemma slice_from_in l from :
  0 <= from <= blen l -> slice_from l from = Done (drop (Z.to_nat from) l).
Proof.
  intros. unfold slice_from. rewrite slice_in by lia.
  by rewrite take_ge by (rewrite length_drop; unfold blen in *; lia).
Qed.

Lemma slice_mid a b c from to :
  from = blen a -> to = blen a + blen b -> slice (a ++ b ++ c) from to = Done b.
Proof.
  intros -> ->. pose proof (blen_nonneg a). pose proof (blen_nonneg b). pose proof (blen_nonneg c).
  rewrite slice_in by (rewrite ?blen_app; lia). unfold blen.
  rewrite Nat2Z.id. replace (Z.to_nat _) with (length b) by lia.
  by rewrite drop_app_length, take_app_length.
Qed.

Lemma copy_in l from to src :
  0 <= from <= to -> to <= blen l -> blen src <= to - from ->
  copy_into l from to src =
    Done (take (Z.to_nat from) l ++ src ++ drop (Z.to_nat (from + blen src)) l).
Proof.
  intros Hf Ht Hs. unfold copy_into. rewrite slice_in by done. cbn [mbind outcome_bind].
  rewrite Nat.min_r by (rewrite length_take, length_drop; unfold blen in *; lia).
  rewrite (take_ge src) by done. repeat f_equal. unfold blen in *. lia.
Qed.

Lemma copy_mid a b c from to src :
  from = blen a -> to = blen a + blen b -> blen src = blen b ->
  copy_into (a ++ b ++ c) from to src = Done (a ++ src ++ c).
Proof.
  intros -> -> Hs. pose proof (blen_nonneg a). pose proof (blen_nonneg b). pose proof (blen_nonneg c).
  rewrite copy_in by (rewrite ?blen_app; lia). rewrite Hs. unfold blen in *.
  rewrite Z2Nat.inj_add, !Nat2Z.id by lia.
  by rewrite take_app_length, <- drop_drop, drop_app_length, drop_app_length.
Qed.

Lemma slice_head b c to : to = blen b -> slice (b ++ c) 0 to = Done b.
Proof. intros ->. by apply (slice_mid []). Qed.

Lemma copy_head b c to src :
  to = blen b -> blen src = blen b -> copy_into (b ++ c) 0 to src = Done (src ++ c).
Proof. intros ->. by apply (copy_mid []). Qed.

Lemma make_bytes_in n :
  0 <= n -> make_bytes n = Done (replicate (Z.to_nat n) "000"%char).
Proof. intros. unfold make_bytes. by rewrite (proj2 (Z.leb_le _ _)). Qed.

Lemma index_in l i : 0 <= i < blen l -> exists c, index l i = Done c.
Proof.
  unfold blen. intros Hi. unfold index. rewrite (proj2 (Z.leb_le _ _)) by lia.
  destruct (lookup_lt_is_Some_2 l (Z.to_nat i)) as [c ->]; [lia|]. eauto.
Qed.

Lemma blen_replicate n c : 0 <= n -> blen (replicate (Z.to_nat n) c) = n.
Proof. intros. unfold blen. rewrite length_replicate. lia. Qed.

(** ** Headers *)
Section WithTables.
Context `{UnicodeTables}.

(** A value is decoded within the bytes that are left. *)
Lemma header_value_total valueType raw :
  match decodeAWSEventHeaderValue valueType raw with
  | Panic => False
  | Failed e => e <> EOF
  | Done (_, consumed) => 0 <= consumed <= blen raw
  end.
Proof.
  pose proof (blen_nonneg raw) as Hr. unfold decodeAWSEventHeaderValue, truncated_value. cbv zeta.
  repeat match goal with
  | |- context [if (_ =? _) || _ then _ else _] => destruct (_ || _)
  | |- context [if zbyte _ =? _ then _ else _] => destruct (_ =? _)
  | |- context [if blen raw <? ?n then _ else _] => destruct (Z.ltb_spec (blen raw) n); try done
  end; try lia; try done.
  all: unfold uint_at; rewrite slice_in by lia; cbn [mbind outcome_bind mret outcome_ret];
    match goal with |- context [Uint ?l] => pose proof (Uint_bounds l) as [Hu _]; generalize dependent (Uint l) end;
    intros n Hn; destruct (Z.ltb_spec (blen raw) (2 + n)); [done|]; try lia;
    rewrite slice_in by lia; cbn; lia.
Qed.

(** Headers never run past their block. *)
Lemma decode_headers_total fuel headers raw :
  (length raw <= fuel)%nat ->
  match decode_headers fuel headers raw with
  | Panic => False | Failed e => e <> EOF | Done _ => True
  end.
Proof.
  revert headers raw. induction fuel as [|fuel IH]; intros headers raw Hf; cbn [decode_headers].
  { destruct raw; [done|cbn in Hf; lia]. }
  destruct (Z.eqb_spec (blen raw) 0) as [|Hne]; [done|]. pose proof (blen_nonneg raw).
  destruct (index_in raw 0) as [first ->]; [lia|]. cbn [mbind outcome_bind].
  rewrite slice_from_in by lia. cbn [mbind outcome_bind]. pose proof (zbyte_bounds first) as Hb.
  generalize dependent (zbyte first). intros n Hn.
  pose proof (blen_drop 1 raw ltac:(lia)) as Hd. set (raw1 := drop (Z.to_nat 1) raw) in *.
  destruct (Z.eqb_spec n 0); [done|]. destruct (Z.ltb_spec (blen raw1) (n + 1)); [done|]. cbn [orb].
  rewrite slice_in by lia. cbn [mbind outcome_bind].
  rewrite slice_from_in by lia. cbn [mbind outcome_bind].
  pose proof (blen_drop n raw1 ltac:(lia)) as Hd2. set (raw2 := drop (Z.to_nat n) raw1) in *.
  destruct (index_in raw2 0) as [valueType ->]; [lia|]. cbn [mbind outcome_bind].
  rewrite slice_from_in by lia. cbn [mbind outcome_bind].
  pose proof (blen_drop 1 raw2 ltac:(lia)) as Hd3. set (raw3 := drop (Z.to_nat 1) raw2) in *.
  pose proof (header_value_total valueType raw3) as Hv.
  destruct (decodeAWSEventHeaderValue valueType raw3) as [|e|[value consumed]]; [done..|].
  cbn [mbind outcome_bind]. rewrite slice_from_in by lia. cbn [mbind outcome_bind].
  destruct (headers !! _); [done|]. apply IH.
  pose proof (blen_drop consumed raw3 ltac:(lia)) as Hd4. unfold blen in *. lia.
Qed.

Lemma decodeAWSEventHeaders_total raw :
  match decodeAWSEventHeaders raw with
  | Panic => False | Failed e => e <> EOF | Done _ => True
  end.
Proof. by apply decode_headers_total. Qed.

(** ** Reading as a function of the bytes

    The reader without its buffers. *)
Definition fields_of (b : list ascii) : Z * Z * Z :=
  (Uint (take 4 b), Uint (take 4 (drop 4 b)), Uint (take 4 (drop 8 b))).

Definition lengths_error (total headers : Z) : option StreamError :=
  if (total <? awsEventOverheadBytes) || (maxAWSEventMessageBytes <? total)
  then Some (Errorf "AWS event-stream message length is invalid")
  else if (maxAWSEventHeaderBytes <? headers) || (total - awsEventOverheadBytes <? headers)
  then Some (Errorf "AWS event-stream header length is invalid")
  else if maxAWSEventPayloadBytes <? total - awsEventOverheadBytes - headers
  then Some (Errorf "AWS event-stream payload length is invalid")
  else None.

Definition read_bytes (source : Reader) : outcome (awsEventMessage * Reader) :=
  let b := rd_bytes source in
  if blen b <? 12
  then Failed (match b, rd_end source with [], EOF => EOF | _, _ => ErrUnexpectedEOF end)
  else
    let '(total, hl, crc) := fields_of b in
    match lengths_error total hl with
    | Some e => Failed e
    | None =>
        if negb (ChecksumIEEE (take 8 b) =? crc)
        then Failed (Errorf "AWS event-stream prelude checksum is invalid")
        else if blen b <? total then Failed ErrUnexpectedEOF
        else
          let raw := take (Z.to_nat total) b in
          if negb (ChecksumIEEE (take (Z.to_nat (total - 4)) raw) =?
                   Uint (drop (Z.to_nat (total - 4)) raw))
          then Failed (Errorf "AWS event-stream message checksum is invalid")
          else
            headers ← decodeAWSEventHeaders (take (Z.to_nat hl) (drop 12 raw));
            Done (mkAwsEventMessage raw headers
                    (take (Z.to_nat (total - 16 - hl)) (drop (Z.to_nat (12 + hl)) raw)),
                  mkReader (drop (Z.to_nat total) b) (rd_end source))
    end.

(** A full read returns the front of the source, a short one all of it. *)
Lemma ReadFull_full source n :
  0 <= n <= blen (rd_bytes source) ->
  ReadFull source n =
    (take (Z.to_nat n) (rd_bytes source), None,
     mkReader (drop (Z.to_nat n) (rd_bytes source)) (rd_end source)).
Proof. intros Hn. unfold ReadFull. by rewrite blen_take, Z.eqb_refl. Qed.

Lemma ReadFull_short source n :
  blen (rd_bytes source) < n ->
  exists e, ReadFull source n =
    (rd_bytes source, Some e, mkReader (drop (Z.to_nat n) (rd_bytes source)) (rd_end source)) /\
    (e = EOF <-> rd_bytes source = [] /\ rd_end source = EOF).
Proof.
  intros Hn. unfold ReadFull. rewrite take_ge by (unfold blen in *; lia).
  rewrite (proj2 (Z.eqb_neq _ _)) by lia.
  destruct (rd_bytes source); [|destruct (rd_end source)]; eexists; (split; [reflexivity|]);
    split; try done; by intros [??].
Qed.

Lemma fields_of_prelude b :
  12 <= blen b ->
  uint_at (take (Z.to_nat 12) b) 0 4 = Done (fields_of b).1.1 /\
  uint_at (take (Z.to_nat 12) b) 4 8 = Done (fields_of b).1.2 /\
  uint_at (take (Z.to_nat 12) b) 8 12 = Done (fields_of b).2 /\
  slice (take (Z.to_nat 12) b) 0 8 = Done (take 8 b).
Proof.
  intros Hb. unfold uint_at. rewrite !slice_in by (rewrite ?blen_take; lia).
  unfold fields_of. change (Z.to_nat 12) with 12%nat.
  repeat match goal with |- context [Z.to_nat ?n] =>
    let v := eval vm_compute in (Z.to_nat n) in change (Z.to_nat n) with v end.
  by rewrite !drop_0, !skipn_firstn_comm, !take_take.
Qed.

Lemma read_bytes_spec source : readAWSEventMessage source = read_bytes source.
Proof.
  unfold readAWSEventMessage, read_bytes. set (b := rd_bytes source).
  change awsEventPreludeBytes with 12.
  destruct (Z.ltb_spec (blen b) 12) as [Hs|Hb].
  { destruct (ReadFull_short source 12 Hs) as (e & -> & He). fold b in He |- *.
    destruct b as [|c b'] eqn:Eb; [|destruct (rd_end source) eqn:Ee];
      destruct e; try done; try (destruct (rd_end source); done || (destruct He as [_ He]; specialize (He (conj eq_refl eq_refl)); done));
      destruct He as [He _]; specialize (He eq_refl); destruct He as [? He]; try done; by rewrite He. }
  rewrite ReadFull_full by (fold b; lia). fold b.
  destruct (fields_of_prelude b Hb) as (-> & -> & -> & E8).
  cbn [mbind outcome_bind].
  assert (Hhl0 : 0 <= (fields_of b).1.2) by apply Uint_bounds.
  destruct (fields_of b) as [[total hl] crc]. cbn [fst snd] in *.
  unfold lengths_error. change awsEventOverheadBytes with 16.
  destruct (Z.ltb_spec total 16) as [|Ht]; [done|].
  destruct (Z.ltb_spec maxAWSEventMessageBytes total) as [|Ht']; [done|]. cbn [orb].
  destruct (Z.ltb_spec maxAWSEventHeaderBytes hl); [done|].
  destruct (Z.ltb_spec (total - 16) hl) as [|Hhl]; [done|]. cbn [orb].
  destruct (_ <? _); [done|].
  rewrite E8. cbn [mbind outcome_bind].
  destruct (negb _); [done|].
  rewrite make_bytes_in by lia. cbn [mbind outcome_bind].
  pose proof (blen_replicate total "000"%char ltac:(lia)) as Hz.
  set (zeros := replicate (Z.to_nat total) "000"%char) in *.
  pose proof (blen_take 12 b ltac:(lia)) as Hp. set (prelude := take (Z.to_nat 12) b) in *.
  rewrite copy_in by lia. cbn [mbind outcome_bind].
  rewrite Hp. change (take (Z.to_nat 0) zeros) with (@nil ascii). cbn [app].
  change (0 + 12) with 12. pose proof (blen_drop 12 zeros ltac:(lia)) as Hz'.
  rewrite slice_from_in by (rewrite blen_app; lia). cbn [mbind outcome_bind].
  replace (drop (Z.to_nat 12) (prelude ++ _)) with (drop (Z.to_nat 12) zeros); cycle 1.
  { unfold blen in Hp. assert (Hp' : length prelude = Z.to_nat 12) by lia.
    by rewrite <- Hp' at 2; rewrite drop_app_length. }
  rewrite Hz', Hz.
  destruct (Z.ltb_spec (blen b) total) as [Hs|Hb'].
  { destruct (ReadFull_short (mkReader (drop (Z.to_nat 12) b) (rd_end source)) (total - 12))
      as (e & -> & _); [cbn [rd_bytes]; rewrite blen_drop; lia|].
    cbn [rd_bytes]. rewrite copy_in by (rewrite ?blen_app, ?blen_drop; lia). done. }
  rewrite ReadFull_full by (cbn [rd_bytes]; rewrite blen_drop; lia). cbn [rd_bytes rd_end].
  rewrite copy_in by (rewrite ?blen_app, ?blen_take, ?blen_drop by (rewrite ?blen_drop; lia); lia).
  cbn [mbind outcome_bind].
  match goal with |- context [uint_at ?r _ _] => assert (r = take (Z.to_nat total) b) as -> end.
  { rewrite blen_take by (rewrite blen_drop; lia).
    rewrite (drop_ge (prelude ++ _)), app_nil_r;
      [|pose proof (blen_app prelude (drop (Z.to_nat 12) zeros)); unfold blen in *; lia].
    rewrite take_app_length' by (unfold blen in Hp; lia). unfold prelude. rewrite take_take_drop.
    f_equal. lia. }
  pose proof (blen_take total b ltac:(lia)) as Hraw. set (raw := take (Z.to_nat total) b) in *.
  unfold uint_at. rewrite (slice_in raw (total - 4) (blen raw)) by lia.
  cbn [mbind outcome_bind mret outcome_ret].
  rewrite (slice_in raw 0 (total - 4)) by lia. cbn [mbind outcome_bind].
  change (drop (Z.to_nat 0) raw) with raw. rewrite Z.sub_0_r.
  rewrite (take_ge (drop _ raw)) by (rewrite length_drop; unfold blen in *; lia).
  destruct (negb _); [done|].
  rewrite (slice_in raw 12 (12 + hl)) by lia. cbn [mbind outcome_bind].
  replace (12 + hl - 12) with hl by lia. change (Z.to_nat 12) with 12%nat.
  destruct (decodeAWSEventHeaders _); [done..|]. cbn [mbind outcome_bind].
  rewrite (slice_in raw (12 + hl) (total - 4)) by lia. cbn [mbind outcome_bind].
  replace (total - 4 - (12 + hl)) with (total - 16 - hl) by lia.
  rewrite drop_drop. by replace (12 + Z.to_nat (total - 12))%nat with (Z.to_nat total) by lia.
Qed.

(** ** Frames

    The bytes of a message with a block of headers and a payload, each part
    followed by its checksum. *)
Definition sealed (l : list ascii) : list ascii := l ++ PutUint32 (ChecksumIEEE l).

Definition frame_lengths (block payload : list ascii) : list ascii :=
  PutUint32 (16 + blen block + blen payload) ++ PutUint32 (blen block).

Definition frame (block payload : list ascii) : list ascii :=
  sealed (sealed (frame_lengths block payload) ++ block ++ payload).

Definition fits (block payload : list ascii) : Prop :=
  blen block <= maxAWSEventHeaderBytes /\ blen payload <= maxAWSEventPayloadBytes.

Lemma blen_sealed l : blen (sealed l) = blen l + 4.
Proof. unfold sealed. by rewrite blen_app, blen_PutUint32. Qed.

Lemma blen_frame block payload : blen (frame block payload) = 16 + blen block + blen payload.
Proof. unfold frame. rewrite !blen_sealed, !blen_app, blen_sealed. change (blen (frame_lengths _ _)) with 8. lia. Qed.

Lemma PutUint32_inj v v' : is_uint32 v -> is_uint32 v' -> PutUint32 v = PutUint32 v' -> v = v'.
Proof. intros Hv Hv' E. apply (f_equal Uint) in E. by rewrite !Uint_PutUint32 in E. Qed.

(** Two sealed texts that differ in at most one place are the same there. *)
Lemma sealed_one_byte a a' p c c' s :
  p ++ c :: s = sealed a -> p ++ c' :: s = sealed a' -> c = c'.
Proof.
  unfold sealed. intros E E'.
  assert (Hl : length a = length a').
  { apply (f_equal length) in E, E'. rewrite !length_app in *. cbn in *. lia. }
  assert (Hlater : forall k, p = a ++ k -> PutUint32 (ChecksumIEEE a) = k ++ c :: s -> c = c').
  { intros k -> Ek. rewrite <- app_assoc in E'. apply app_inj_1 in E' as [<- E']; [|done].
    rewrite Ek in E'. apply app_inj_1 in E' as [_ E']; [|done]. by injection E'. }
  apply app_eq_inv in E as [(k & -> & E)|(k & Ea & E)]; [by apply (Hlater k)|].
  destruct k as [|d k]; [apply (Hlater []); [by rewrite app_nil_r, Ea, app_nil_r|done]|].
  cbn [app] in E. injection E as <- ->.
  change (p ++ c' :: k ++ PutUint32 (ChecksumIEEE a))
    with (p ++ (c' :: k) ++ PutUint32 (ChecksumIEEE a)) in E'.
  rewrite app_assoc in E'. apply app_inj_2 in E' as [Ea' E']; [|done].
  apply PutUint32_inj in E'; [|apply ChecksumIEEE_uint32..].
  subst a a'. by apply ChecksumIEEE_one_byte in E'.
Qed.

Lemma split_at n l : 0 <= n <= blen l -> exists a k, l = a ++ k /\ blen a = n.
Proof.
  intros Hn. exists (take (Z.to_nat n) l), (drop (Z.to_nat n) l).
  by rewrite take_drop, blen_take.
Qed.

Lemma take_blen n a k : n = blen a -> take (Z.to_nat n) (a ++ k) = a.
Proof. intros ->. unfold blen. rewrite Nat2Z.id. apply take_app_length. Qed.

Lemma drop_blen n a k : n = blen a -> drop (Z.to_nat n) (a ++ k) = k.
Proof. intros ->. unfold blen. rewrite Nat2Z.id. apply drop_app_length. Qed.

(** Lengths that fit are accepted. *)
Lemma lengths_error_fits block payload :
  fits block payload <->
  lengths_error (16 + blen block + blen payload) (blen block) = None.
Proof.
  pose proof (blen_nonneg block). pose proof (blen_nonneg payload).
  unfold fits, lengths_error, maxAWSEventMessageBytes. change awsEventOverheadBytes with 16.
  destruct (Z.ltb_spec (16 + blen block + blen payload) 16); [lia|]. cbn [orb].
  destruct (Z.ltb_spec (maxAWSEventPayloadBytes + maxAWSEventHeaderBytes + 16)
              (16 + blen block + blen payload)).
  { split; [lia|done]. }
  destruct (Z.ltb_spec maxAWSEventHeaderBytes (blen block)); cbn [orb]; [split; [lia|done]|].
  destruct (Z.ltb_spec (16 + blen block + blen payload - 16) (blen block)); [lia|].
  destruct (Z.ltb_spec maxAWSEventPayloadBytes (16 + blen block + blen payload - 16 - blen block));
    (split; intros; first [done | lia]).
Qed.

(** A source cut into the parts of a message. *)
Lemma read_parts f1 f2 f3 block payload f4 more e :
  blen f1 = 4 -> blen f2 = 4 -> blen f3 = 4 -> blen f4 = 4 ->
  Uint f1 = 16 + blen block + blen payload -> Uint f2 = blen block -> fits block payload ->
  readAWSEventMessage (mkReader (f1 ++ f2 ++ f3 ++ block ++ payload ++ f4 ++ more) e) =
    if negb (ChecksumIEEE (f1 ++ f2) =? Uint f3)
    then Failed (Errorf "AWS event-stream prelude checksum is invalid")
    else if negb (ChecksumIEEE ((f1 ++ f2) ++ f3 ++ block ++ payload) =? Uint f4)
    then Failed (Errorf "AWS event-stream message checksum is invalid")
    else
      headers ← decodeAWSEventHeaders block;
      Done (mkAwsEventMessage (f1 ++ f2 ++ f3 ++ block ++ payload ++ f4) headers payload,
            mkReader more e).
Proof.
  intros H1 H2 H3 H4 U1 U2 Hfit. rewrite read_bytes_spec. unfold read_bytes. cbn [rd_bytes rd_end].
  set (b := f1 ++ _). pose proof (blen_nonneg block). pose proof (blen_nonneg payload).
  pose proof (blen_nonneg more).
  assert (Hb : blen b = 16 + blen block + blen payload + blen more)
    by (unfold b; rewrite !blen_app; lia).
  rewrite (proj2 (Z.ltb_ge _ _)) by lia.
  assert (fields_of b = (Uint f1, Uint f2, Uint f3)) as ->.
  { unfold fields_of, b, blen in *.
    change (take 4) with (take (A := ascii) (Z.to_nat 4)). rewrite take_blen by (unfold blen; lia).
    change (drop 4) with (drop (A := ascii) (Z.to_nat 4)). rewrite drop_blen by (unfold blen; lia).
    rewrite take_blen by (unfold blen; lia).
    change (drop 8) with (drop (A := ascii) (Z.to_nat 8)).
    rewrite (app_assoc f1 f2), drop_blen by (rewrite blen_app; unfold blen; lia).
    by rewrite take_blen by (unfold blen; lia). }
  rewrite U1, U2, (proj1 (lengths_error_fits _ _) Hfit).
  change (take 8) with (take (A := ascii) (Z.to_nat 8)).
  assert (take (Z.to_nat 8) b = f1 ++ f2) as ->.
  { unfold b. rewrite (app_assoc f1 f2), take_blen; [done|]. rewrite blen_app. lia. }
  destruct (negb _); [done|].
  rewrite (proj2 (Z.ltb_ge _ _)) by lia.
  set (total := 16 + blen block + blen payload) in *.
  set (raw := f1 ++ f2 ++ f3 ++ block ++ payload ++ f4).
  assert (Hraw : blen raw = total) by (unfold raw; rewrite !blen_app; lia).
  assert (b = raw ++ more) as -> by (unfold b, raw; by rewrite <- !app_assoc).
  rewrite take_blen, drop_blen by done.
  set (checked := (f1 ++ f2) ++ f3 ++ block ++ payload).
  assert (Hc : blen checked = total - 4) by (unfold checked; rewrite !blen_app; lia).
  assert (raw = checked ++ f4) as Er by (unfold raw, checked; by rewrite <- !app_assoc).
  rewrite Er at 1 2. rewrite take_blen, drop_blen by done.
  destruct (negb _); [done|].
  change (drop 12) with (drop (A := ascii) (Z.to_nat 12)).
  assert (take (Z.to_nat (blen block)) (drop (Z.to_nat 12) raw) = block) as ->.
  { unfold raw. rewrite (app_assoc f2 f3), (app_assoc f1 (f2 ++ f3)), drop_blen
      by (rewrite !blen_app; lia). by apply take_blen. }
  destruct (decodeAWSEventHeaders block); [done..|]. cbn [mbind outcome_bind].
  repeat f_equal. unfold raw.
  rewrite (app_assoc f3 block), (app_assoc f2 (f3 ++ block)), (app_assoc f1 (f2 ++ f3 ++ block)),
    drop_blen by (rewrite !blen_app; lia).
  apply take_blen. lia.
Qed.

Definition total_of (block payload : list ascii) : Z := 16 + blen block + blen payload.

Lemma fits_uint32 block payload :
  fits block payload -> is_uint32 (total_of block payload) /\ is_uint32 (blen block).
Proof.
  unfold fits, is_uint32, total_of. change maxAWSEventHeaderBytes with 131072.
  change maxAWSEventPayloadBytes with 16777216. pose proof (blen_nonneg block).
  pose proof (blen_nonneg payload). lia.
Qed.

Lemma frame_parts block payload :
  frame block payload =
    PutUint32 (total_of block payload) ++ PutUint32 (blen block) ++
    PutUint32 (ChecksumIEEE (frame_lengths block payload)) ++ block ++ payload ++
    PutUint32 (ChecksumIEEE (sealed (frame_lengths block payload) ++ block ++ payload)).
Proof.
  unfold frame, sealed at 1. generalize (ChecksumIEEE (sealed (frame_lengths block payload) ++ block ++ payload)).
  intros crc. unfold sealed, frame_lengths. by rewrite <- !app_assoc.
Qed.

(** Reading a frame decodes its headers. *)
Lemma read_frame block payload more e :
  fits block payload ->
  readAWSEventMessage (mkReader (frame block payload ++ more) e) =
    headers ← decodeAWSEventHeaders block;
    Done (mkAwsEventMessage (frame block payload) headers payload, mkReader more e).
Proof.
  intros Hfit. pose proof (fits_uint32 _ _ Hfit) as [Ht Hh]. rewrite frame_parts, <- !app_assoc.
  rewrite read_parts by (try done; by rewrite Uint_PutUint32).
  rewrite !Uint_PutUint32 by apply ChecksumIEEE_uint32.
  change (PutUint32 (total_of block payload) ++ PutUint32 (blen block)) with (frame_lengths block payload).
  rewrite Z.eqb_refl. cbn [negb]. rewrite app_assoc.
  change (frame_lengths block payload ++ PutUint32 _) with (sealed (frame_lengths block payload)).
  by rewrite Z.eqb_refl.
Qed.

(** Whatever is read is a frame. *)
Lemma read_framed source m source' :
  readAWSEventMessage source = Done (m, source') ->
  exists block,
    fits block (msg_payload m) /\ decodeAWSEventHeaders block = Done (msg_headers m) /\
    msg_raw m = frame block (msg_payload m) /\
    source = mkReader (msg_raw m ++ rd_bytes source') (rd_end source').
Proof.
  destruct source as [b e]. intros E.
  assert (Hcut : exists f1 f2 f3 block payload f4 more,
            b = f1 ++ f2 ++ f3 ++ block ++ payload ++ f4 ++ more /\
            blen f1 = 4 /\ blen f2 = 4 /\ blen f3 = 4 /\ blen f4 = 4 /\
            Uint f1 = 16 + blen block + blen payload /\ Uint f2 = blen block /\ fits block payload).
  { rewrite read_bytes_spec in E. unfold read_bytes in E. cbn [rd_bytes rd_end] in E.
    destruct (Z.ltb_spec (blen b) 12) as [|Hb]; [done|].
    destruct (split_at 4 b) as (f1 & b1 & -> & Hl1); [lia|]. rewrite blen_app in Hb.
    destruct (split_at 4 b1) as (f2 & b2 & -> & Hl2); [lia|]. rewrite blen_app in Hb.
    destruct (split_at 4 b2) as (f3 & b3 & -> & Hl3); [lia|]. rewrite blen_app in Hb.
    unfold fields_of in E. cbv beta zeta in E.
    change (take 4) with (take (A := ascii) (Z.to_nat 4)) in E.
    change (drop 4) with (drop (A := ascii) (Z.to_nat 4)) in E.
    rewrite (take_blen 4 f1), (drop_blen 4 f1), (take_blen 4 f2) in E by lia.
    destruct (lengths_error (Uint f1) (Uint f2)) as [|] eqn:El; [done|].
    destruct (negb _); [done|].
    destruct (Z.ltb_spec (blen (f1 ++ f2 ++ f3 ++ b3)) (Uint f1)) as [|Hlen]; [done|].
    rewrite !blen_app in Hlen. pose proof (proj1 (Uint_bounds f2)).
    assert (16 <= Uint f1 /\ Uint f2 <= Uint f1 - 16) as [].
    { unfold lengths_error in El. change awsEventOverheadBytes with 16 in El.
      destruct (Z.ltb_spec (Uint f1) 16); [done|].
      destruct (_ || _); [done|]. destruct (_ <? Uint f2) in El; [done|].
      destruct (Z.ltb_spec (Uint f1 - 16) (Uint f2)); [done|]. done. }
    destruct (split_at (Uint f2) b3) as (block & b4 & -> & Hl4); [lia|]. rewrite blen_app in Hlen.
    destruct (split_at (Uint f1 - 16 - Uint f2) b4) as (payload & b5 & -> & Hl5); [lia|].
    rewrite blen_app in Hlen.
    destruct (split_at 4 b5) as (f4 & more & -> & Hl6); [lia|].
    assert (Hfit : fits block payload).
    { apply lengths_error_fits. rewrite <- El, Hl4. f_equal. lia. }
    exists f1, f2, f3, block, payload, f4, more. repeat split; try done; try lia; apply Hfit. }
  destruct Hcut as (f1 & f2 & f3 & block & payload & f4 & more & -> & Hl1 & Hl2 & Hl3 & Hl4 & U1 & U2 & Hfit).
  rewrite read_parts in E by done.
  destruct (Z.eqb_spec (ChecksumIEEE (f1 ++ f2)) (Uint f3)) as [C1|]; [|done].
  destruct (Z.eqb_spec (ChecksumIEEE ((f1 ++ f2) ++ f3 ++ block ++ payload)) (Uint f4)) as [C2|]; [|done].
  cbn [negb] in E.
  destruct (decodeAWSEventHeaders block) as [| |headers] eqn:Ed; [done..|]. injection E as <- <-.
  cbn [msg_payload msg_headers msg_raw rd_bytes rd_end]. exists block.
  split; [done|]. split; [done|]. split; [|by rewrite <- !app_assoc].
  assert (f1 = PutUint32 (total_of block payload)) as -> by (unfold total_of; by rewrite <- U1, PutUint32_Uint).
  assert (f2 = PutUint32 (blen block)) as -> by (by rewrite <- U2, PutUint32_Uint).
  assert (f3 = PutUint32 (ChecksumIEEE (frame_lengths block payload))) as ->
    by (by rewrite <- (PutUint32_Uint f3), <- C1).
  rewrite <- (PutUint32_Uint f4), <- C2, frame_parts by done.
  by do 6 f_equal.
Qed.

Lemma frame_header_fields block payload :
  slice (frame block payload) 4 8 = Done (PutUint32 (blen block)) /\
  slice (frame block payload) 12 (12 + blen block) = Done block.
Proof.
  rewrite frame_parts. split; [by apply slice_mid|].
  generalize (PutUint32 (ChecksumIEEE (sealed (frame_lengths block payload) ++ block ++ payload))).
  intros f4. set (f3 := PutUint32 (ChecksumIEEE (frame_lengths block payload))).
  rewrite (app_assoc (PutUint32 (blen block))), (app_assoc (PutUint32 _)). by apply slice_mid.
Qed.

(** Replacing the payload of a frame builds the frame of the new one. *)
Lemma replace_frame m block payload0 payload :
  fits block payload0 -> msg_raw m = frame block payload0 -> fits block payload ->
  replaceAWSEventPayload m payload = Done (frame block payload).
Proof.
  intros Hfit0 Hm Hfit. pose proof (fits_uint32 _ _ Hfit0) as [Ht0 Hh].
  pose proof (fits_uint32 _ _ Hfit) as [Ht _]. destruct Hfit as [Hf1 Hf2].
  pose proof (blen_nonneg block). pose proof (blen_nonneg payload).
  unfold replaceAWSEventPayload. rewrite (proj2 (Z.ltb_ge _ _)) by done.
  rewrite Hm. unfold uint_at. destruct (frame_header_fields block payload0) as [-> Hblock].
  cbn [mbind outcome_bind mret outcome_ret]. rewrite Uint_PutUint32 by done.
  change (awsEventOverheadBytes + blen block + blen payload) with (total_of block payload).
  change awsEventPreludeBytes with 12.
  rewrite (proj2 (Z.ltb_ge _ _)); [|unfold total_of, maxAWSEventMessageBytes;
    change awsEventOverheadBytes with 16; lia].
  rewrite make_bytes_in by (unfold total_of; lia). cbn [mbind outcome_bind].
  set (z := fun n => replicate (Z.to_nat n) "000"%char).
  assert (Hz : forall n, 0 <= n -> blen (z n) = n) by (intros; by apply blen_replicate).
  assert (replicate (Z.to_nat (total_of block payload)) "000"%char =
          z 4 ++ z 4 ++ z 4 ++ z (blen block) ++ z (blen payload) ++ z 4) as ->.
  { unfold z. rewrite <- !replicate_add. f_equal. unfold total_of. lia. }
  set (n := total_of block payload) in *. set (h := blen block) in *.
  rewrite !uint32_id by done.
  rewrite copy_head by done. cbn [mbind outcome_bind].
  rewrite (copy_mid (PutUint32 n) (z 4)) by done. cbn [mbind outcome_bind].
  rewrite (app_assoc (PutUint32 n)), slice_head by done.
  cbn [mbind outcome_bind]. change (PutUint32 n ++ PutUint32 h) with (frame_lengths block payload).
  rewrite (copy_mid (frame_lengths block payload) (z 4)) by done. cbn [mbind outcome_bind].
  set (c := PutUint32 (ChecksumIEEE (frame_lengths block payload))).
  rewrite Hblock. cbn [mbind outcome_bind].
  rewrite (app_assoc (frame_lengths _ _) c).
  change (frame_lengths block payload ++ c) with (sealed (frame_lengths block payload)).
  rewrite (copy_mid _ (z h)) by (rewrite ?Hz by done; done). cbn [mbind outcome_bind].
  set (p := sealed (frame_lengths block payload)).
  assert (Hp : blen p = 12) by done.
  rewrite (app_assoc p block), (copy_mid (p ++ block) (z (blen payload)))
    by (rewrite ?blen_app, ?Hz by done; unfold n, total_of; lia).
  cbn [mbind outcome_bind].
  rewrite <- (app_assoc p block), (app_assoc block), (app_assoc p).
  set (checked := p ++ block ++ payload).
  assert (Hc : blen checked = n - 4) by (unfold checked; rewrite !blen_app; unfold n, total_of; lia).
  rewrite slice_head by done. cbn [mbind outcome_bind].
  rewrite <- (app_nil_r (z 4)), (copy_mid checked (z 4)) by (rewrite ?blen_app, ?Hz by done; done).
  by rewrite app_nil_r.
Qed.

Lemma read_total source : readAWSEventMessage source <> Panic.
Proof.
  rewrite read_bytes_spec. unfold read_bytes. destruct (_ <? 12); [done|].
  destruct (fields_of _) as [[total hl] crc]. destruct (lengths_error total hl); [done|].
  destruct (negb _); [done|]. destruct (_ <? total); [done|]. destruct (negb _); [done|].
  pose proof (decodeAWSEventHeaders_total
    (take (Z.to_nat hl) (drop 12 (take (Z.to_nat total) (rd_bytes source))))) as Hd.
  by destruct (decodeAWSEventHeaders _).
Qed.

(** [EOF] means that the stream ended between two messages. *)
Lemma read_EOF source :
  readAWSEventMessage source = Failed EOF <-> rd_bytes source = [] /\ rd_end source = EOF.
Proof.
  split; [|destruct source as [b e]; cbn; by intros [-> ->]].
  rewrite read_bytes_spec. unfold read_bytes, lengths_error. destruct (_ <? 12).
  { destruct (rd_bytes source), (rd_end source); try done. }
  destruct (fields_of _) as [[total hl] crc].
  destruct (_ || _); [done|]. destruct (_ || _); [done|]. destruct (_ <? _); [done|].
  destruct (negb _); [done|]. destruct (_ <? total); [done|]. destruct (negb _); [done|].
  pose proof (decodeAWSEventHeaders_total
    (take (Z.to_nat hl) (drop 12 (take (Z.to_nat total) (rd_bytes source))))) as Hd.
  destruct (decodeAWSEventHeaders _) as [|e|]; [done| |done]. cbn. congruence.
Qed.

(** A message that was read is read again from its own bytes. *)
Lemma read_again source m source' more e :
  readAWSEventMessage source = Done (m, source') ->
  readAWSEventMessage (mkReader (msg_raw m ++ more) e) = Done (m, mkReader more e).
Proof.
  intros E. apply read_framed in E as (block & Hfit & Hd & Hraw & _).
  rewrite Hraw, read_frame, Hd by done. destruct m. cbn in *. by rewrite Hraw.
Qed.

Lemma fits_payload block payload0 payload :
  fits block payload0 -> blen payload <= maxAWSEventPayloadBytes -> fits block payload.
Proof. by intros [? _]. Qed.

(** C33: Replacing the payload of any message that was read gives the bytes of a
    message that reads back, before any other bytes, with the same headers and
    the new payload. *)
Theorem replace_payload_roundtrip source m source' payload more e :
  readAWSEventMessage source = Done (m, source') ->
  blen payload <= maxAWSEventPayloadBytes ->
  exists raw,
    replaceAWSEventPayload m payload = Done raw /\
    readAWSEventMessage (mkReader (raw ++ more) e) =
      Done (mkAwsEventMessage raw (msg_headers m) payload, mkReader more e).
Proof.
  intros E Hp. apply read_framed in E as (block & Hfit & Hd & Hraw & _).
  pose proof (fits_payload _ _ _ Hfit Hp) as Hfit'. exists (frame block payload).
  split; [by apply (replace_frame m block (msg_payload m))|]. by rewrite read_frame, Hd.
Qed.

(** Frames with the same first field have the same length. *)
Lemma frame_same_length block payload block' payload' :
  fits block payload -> fits block' payload' ->
  take 4 (frame block payload) = take 4 (frame block' payload') ->
  length (frame block payload) = length (frame block' payload').
Proof.
  intros Hf Hf' E. apply fits_uint32 in Hf as [Hf _]. apply fits_uint32 in Hf' as [Hf' _].
  enough (blen (frame block payload) = blen (frame block' payload')) by (unfold blen in *; lia).
  rewrite !blen_frame. rewrite !frame_parts, !take_app_length' in E by done.
  by apply PutUint32_inj in E.
Qed.

(** The first twelve bytes of a frame are sealed by themselves. *)
Lemma frame_prelude block payload :
  take 12 (frame block payload) = sealed (frame_lengths block payload).
Proof. unfold frame, sealed at 1. rewrite <- app_assoc. by rewrite take_app_length' by done. Qed.

(** A message with one corrupted byte, wherever it is and whatever follows, is
    refused, and never mistaken for the end of the stream. *)
Theorem corrupted_message_refused source m source' p c c' s more e :
  readAWSEventMessage source = Done (m, source') ->
  msg_raw m = p ++ c :: s -> c <> c' ->
  exists err, readAWSEventMessage (mkReader ((p ++ c' :: s) ++ more) e) = Failed err /\ err <> EOF.
Proof.
  intros E Hm Hc. apply read_framed in E as (block & Hfit & _ & Hraw & _). rewrite Hm in Hraw.
  destruct (readAWSEventMessage (mkReader ((p ++ c' :: s) ++ more) e)) as [|err|[m' rest]] eqn:E'.
  - by apply read_total in E'.
  - exists err. split; [done|]. intros ->. apply read_EOF in E' as [E' _]. by destruct p.
  - exfalso. apply Hc. apply read_framed in E' as (block' & Hfit' & _ & Hraw' & E').
    injection E' as E' _. rewrite Hraw' in E'.
    destruct (decide (length p < 12)%nat) as [Hp|Hp].
    + apply (sealed_one_byte (frame_lengths block (msg_payload m))
               (frame_lengths block' (msg_payload m')) p c c' (take (11 - length p) s)).
      * rewrite <- frame_prelude, <- Hraw, take_app_ge by lia.
        by replace (12 - length p)%nat with (S (11 - length p)) by lia.
      * rewrite <- frame_prelude.
        transitivity (take 12 (frame block' (msg_payload m') ++ rd_bytes rest)).
        { rewrite <- E', <- app_assoc, take_app_ge by lia.
          replace (12 - length p)%nat with (S (11 - length p)) by lia. cbn [take app].
          rewrite take_app_le; [done|].
          apply (f_equal length) in Hraw. pose proof (blen_frame block (msg_payload m)) as Hl.
          unfold blen in Hl. rewrite <- Hraw, length_app in Hl. cbn in Hl. lia. }
        rewrite take_app_le; [done|]. pose proof (blen_frame block' (msg_payload m')).
        unfold blen in *. lia.
    + assert (Hl : length (frame block (msg_payload m)) = length (frame block' (msg_payload m'))).
      { apply frame_same_length; [done..|]. apply (f_equal (take 4)) in E'.
        rewrite <- app_assoc, take_app_le in E' by lia. rewrite take_app_le in E'; cycle 1.
        { pose proof (blen_frame block' (msg_payload m')). unfold blen in *. lia. }
        by rewrite <- Hraw, take_app_le, E' by lia. }
      rewrite <- Hraw, !length_app in Hl.
      apply app_inj_1 in E' as [E' _]; [|rewrite length_app; cbn in *; lia].
      by apply (sealed_one_byte _ _ p c c' s Hraw E').
Qed.

(** ** The relay

    A destination and an observer that remember what they were given; the
    observer turns messages away by [verdict]. *)
Definition recorder : Destination (list awsEventMessage * list ascii) :=
  mkDestination _ (fun w b => (None, (w.1, w.2 ++ b))) id.

Definition recording (verdict : awsEventMessage -> option StreamError)
  : awsEventMessage -> list awsEventMessage * list ascii ->
    option StreamError * (list awsEventMessage * list ascii) :=
  fun m w => (verdict m, (w.1 ++ [m], w.2)).

(** A message that stands by itself and that the observer lets through. *)
Definition relayed (verdict : awsEventMessage -> option StreamError) (m : awsEventMessage) : Prop :=
  readAWSEventMessage (mkReader (msg_raw m) EOF) = Done (m, mkReader [] EOF) /\ verdict m = None.

(** Why a relay ends with [err] before [rest], having shown [observed] to the
    observer and passed on [messages]. *)
Definition relay_end (verdict : awsEventMessage -> option StreamError) (rest : Reader)
    (messages observed : list awsEventMessage) (err : option StreamError) : Prop :=
  match err with
  | None => observed = messages /\ rd_bytes rest = [] /\ rd_end rest = EOF
  | Some e =>
      (observed = messages /\ readAWSEventMessage rest = Failed e /\ e <> EOF) \/
      (exists m rest', observed = messages ++ [m] /\ verdict m = Some e /\
        readAWSEventMessage rest = Done (m, rest'))
  end.

Lemma read_shorter source m source' :
  readAWSEventMessage source = Done (m, source') ->
  rd_bytes source = msg_raw m ++ rd_bytes source' /\ rd_end source' = rd_end source /\
  (length (rd_bytes source') < length (rd_bytes source))%nat.
Proof.
  intros E. apply read_framed in E as (block & _ & _ & Hraw & ->). cbn [rd_bytes rd_end].
  split; [done|]. split; [done|]. rewrite length_app.
  pose proof (blen_frame block (msg_payload m)) as Hl. rewrite <- Hraw in Hl. unfold blen in Hl. lia.
Qed.

Lemma proxy_loop_relays verdict fuel source seen written :
  (length (rd_bytes source) < fuel)%nat ->
  exists messages observed rest err,
    proxy_loop recorder (Some (recording verdict)) fuel source (seen, written) =
      Done (err, (seen ++ observed, written ++ concat (msg_raw <$> messages))) /\
    rd_bytes source = concat (msg_raw <$> messages) ++ rest /\
    Forall (relayed verdict) messages /\
    relay_end verdict (mkReader rest (rd_end source)) messages observed err.
Proof.
  revert source seen written. induction fuel as [|fuel IH]; intros source seen written Hf; [lia|].
  cbn [proxy_loop]. destruct (readAWSEventMessage source) as [|e|[m source']] eqn:E.
  - by apply read_total in E.
  - exists [], [], (rd_bytes source), (if decide (e = EOF) then None else Some e).
    rewrite !app_nil_r. split; [by destruct e|]. split; [done|]. split; [done|].
    destruct (decide (e = EOF)) as [->|He]; cbn [relay_end rd_bytes rd_end].
    + by apply read_EOF in E as [??].
    + left. by destruct source.
  - unfold observed. cbn [recording]. destruct (verdict m) as [e|] eqn:Hv.
    { exists [], [m], (rd_bytes source), (Some e). rewrite !app_nil_r.
      split; [done|]. split; [done|]. split; [done|]. right. exists m, source'.
      split; [done|]. split; [done|]. by destruct source. }
    destruct (read_shorter _ _ _ E) as (Hb & He & Hlen). cbn [Write recorder Flush fst snd id].
    destruct (IH source' (seen ++ [m]) (written ++ msg_raw m)) as (ms & obs & rest & err & -> & Hb' & Hf' & Hend); [lia|].
    exists (m :: ms), (m :: obs), rest, err. cbn [fmap list_fmap concat].
    split; [by rewrite <- !app_assoc|]. split; [by rewrite Hb, Hb', app_assoc|].
    split.
    { constructor; [|done]. split; [|done].
      pose proof (read_again _ _ _ [] EOF E) as Hr. by rewrite app_nil_r in Hr. }
    rewrite <- He. destruct err as [e|]; cbn [relay_end] in *.
    + destruct Hend as [(-> & ?)|(m' & rest' & -> & ?)]; [by left|right]. by exists m', rest'.
    + by destruct Hend as (-> & ?).
Qed.

(** The relay ends; it has shown the observer and passed on, unchanged and in
    order, the whole messages at the front of its source, none of which the
    observer refused; it reports no error exactly when nothing is left and the
    source ended there, and otherwise the error of what comes next: the bytes
    that are no message, or the message that the observer refused, which was
    not passed on. *)
Theorem proxy_relays_whole_messages verdict source seen written :
  exists messages observed rest err,
    proxyAWSEventMessages recorder (Some (recording verdict)) source (seen, written) =
      Done (err, (seen ++ observed, written ++ concat (msg_raw <$> messages))) /\
    rd_bytes source = concat (msg_raw <$> messages) ++ rest /\
    Forall (relayed verdict) messages /\
    relay_end verdict (mkReader rest (rd_end source)) messages observed err.
Proof. apply proxy_loop_relays. lia. Qed.
End WithTables.

(** ** A concrete stream *)
Section Sample.
#[local] Instance plain_tables : UnicodeTables :=
  {| unicode_ToLower s := s; unicode_TrimSpace s := s |}.

(** One header [:Event-Type], a string, and the payload [{}]. *)
Definition sample_block : list ascii :=
  byte_z 11 :: bytes ":Event-Type" ++ [byte_z 7; byte_z 0; byte_z 5] ++ bytes "chunk".

Definition sample_message : awsEventMessage :=
  mkAwsEventMessage (frame sample_block (bytes "{}")) {[":event-type"%string := "chunk"%string]}
    (bytes "{}").

Definition sample_source : Reader := mkReader (frame sample_block (bytes "{}")) EOF.

Lemma sample_read : readAWSEventMessage sample_source = Done (sample_message, mkReader [] EOF).
Proof. vm_compute. reflexivity. Qed.

Lemma replace_payload_roundtrip_witness :
  exists raw,
    replaceAWSEventPayload sample_message (bytes "{1}") = Done raw /\
    readAWSEventMessage (mkReader (raw ++ bytes "rest") EOF) =
      Done (mkAwsEventMessage raw (msg_headers sample_message) (bytes "{1}"),
            mkReader (bytes "rest") EOF).
Proof.
  apply (replace_payload_roundtrip sample_source sample_message (mkReader [] EOF)).
  - exact sample_read.
  - apply Z.leb_le. vm_compute. reflexivity.
Defined.

Lemma corrupted_message_refused_witness :
  exists err,
    readAWSEventMessage
      (mkReader ((take 33 (msg_raw sample_message) ++ "{"%char :: drop 34 (msg_raw sample_message)) ++ []) EOF) =
      Failed err /\ err <> EOF.
Proof.
  apply (corrupted_message_refused sample_source sample_message (mkReader [] EOF) _ "}"%char).
  - exact sample_read.
  - vm_compute. reflexivity.
  - discriminate.
Defined.
End Sample.
