(* ===== verification/AsyncWriter.v ===== *)
(** * The asynchronous ledger writer ([pkg/ledger/async.go])

    [Record] hands a record to a bounded queue without waiting; one goroutine
    batches the queue to a store, another reports losses.  Every access to
    shared state (the lock, a channel, an atomic counter, the store) is one
    step of the goroutine that makes it, so that callers, the writer and the
    reporter interleave between any two of them. *)

From stdpp Require Import base gmap list strings.
From Stdlib Require Import ZArith Lia.
From S2P Require Import Prelude GoStrings Policies Capabilities Config Fields Ledger.

Local Open Scope Z_scope.
Local Open Scope go_scope.

(** ** Options *)
Record AsyncOptions := mkAsyncOptions {
  ao_QueueCapacity : Z;
  ao_MaxBatchRecords : Z;
  ao_MaxBatchBytes : Z;
  ao_FlushInterval : Z;
  ao_WriteTimeout : Z;
  ao_MaxRetries : Z;
  ao_InitialRetryDelay : Z;
  ao_OnLoss : bool;
}.

Definition or_default (value default : Z) : Z := if value =? 0 then default else value.

Definition withAsyncDefaults (o : AsyncOptions) : AsyncOptions :=
  {| ao_QueueCapacity := or_default (ao_QueueCapacity o) 4096;
     ao_MaxBatchRecords := or_default (ao_MaxBatchRecords o) 256;
     ao_MaxBatchBytes := or_default (ao_MaxBatchBytes o) (Z.shiftl 1 20);
     ao_FlushInterval := or_default (ao_FlushInterval o) Second;
     ao_WriteTimeout := or_default (ao_WriteTimeout o) (5 * Second);
     ao_MaxRetries := or_default (ao_MaxRetries o) 3;
     ao_InitialRetryDelay := or_default (ao_InitialRetryDelay o) (50 * Millisecond);
     ao_OnLoss := ao_OnLoss o |}.

Definition validateAsyncOptions (o : AsyncOptions) : option string :=
  first_error [
    fail_if (ao_QueueCapacity o <=? 0) "queue capacity must be positive";
    fail_if ((ao_MaxBatchRecords o <=? 0) || (ao_MaxBatchBytes o <=? 0))
      "batch record and byte limits must be positive";
    fail_if ((ao_FlushInterval o <=? 0) || (ao_WriteTimeout o <=? 0))
      "flush interval and write timeout must be positive";
    fail_if ((ao_MaxRetries o <? 0) || (16 <? ao_MaxRetries o)) "max retries must be between 0 and 16";
    fail_if (ao_InitialRetryDelay o <=? 0) "initial retry delay must be positive"].

(** ** The writer *)
Definition LossInvalidRecord : string := "invalid_record".
Definition LossQueueFull : string := "queue_full".
Definition LossWriterClosed : string := "writer_closed".
Definition LossStoreFailure : string := "store_failure".

Record LossEvent := mkLossEvent {
  le_At : Z;
  le_Reason : string;
  le_Count : Z;
  le_Err : option string;
}.

(** What the goroutines share.  [closed] is set, and [stop] closed, in one
    critical section: both are [w_closed]. *)
Record AsyncWriter := mkAsyncWriter {
  w_options : AsyncOptions;
  w_queue : list LedgerRecord;
  w_closed : bool;
  w_done : bool;
  w_lossQueue : list LossEvent;
  w_lossStop : bool;
  w_lossDone : bool;
  w_closeErr : option string;
  w_enqueued : Z;
  w_written : Z;
  w_lost : Z;
  w_batches : Z;
  w_retries : Z;
}.

Definition set_queue v '(mkAsyncWriter o _ c d lq ls ld ce e wr l b rt) :=
  mkAsyncWriter o v c d lq ls ld ce e wr l b rt.
Definition set_closed v '(mkAsyncWriter o q _ d lq ls ld ce e wr l b rt) :=
  mkAsyncWriter o q v d lq ls ld ce e wr l b rt.
Definition set_done v '(mkAsyncWriter o q c _ lq ls ld ce e wr l b rt) :=
  mkAsyncWriter o q c v lq ls ld ce e wr l b rt.
Definition set_lossQueue v '(mkAsyncWriter o q c d _ ls ld ce e wr l b rt) :=
  mkAsyncWriter o q c d v ls ld ce e wr l b rt.
Definition set_lossStop v '(mkAsyncWriter o q c d lq _ ld ce e wr l b rt) :=
  mkAsyncWriter o q c d lq v ld ce e wr l b rt.
Definition set_lossDone v '(mkAsyncWriter o q c d lq ls _ ce e wr l b rt) :=
  mkAsyncWriter o q c d lq ls v ce e wr l b rt.
Definition set_closeErr v '(mkAsyncWriter o q c d lq ls ld _ e wr l b rt) :=
  mkAsyncWriter o q c d lq ls ld v e wr l b rt.
Definition add_enqueued n '(mkAsyncWriter o q c d lq ls ld ce e wr l b rt) :=
  mkAsyncWriter o q c d lq ls ld ce (uint64 (e + n)) wr l b rt.
Definition add_written n '(mkAsyncWriter o q c d lq ls ld ce e wr l b rt) :=
  mkAsyncWriter o q c d lq ls ld ce e (uint64 (wr + n)) l b rt.
Definition add_lost n '(mkAsyncWriter o q c d lq ls ld ce e wr l b rt) :=
  mkAsyncWriter o q c d lq ls ld ce e wr (uint64 (l + n)) b rt.
Definition add_batches n '(mkAsyncWriter o q c d lq ls ld ce e wr l b rt) :=
  mkAsyncWriter o q c d lq ls ld ce e wr l (uint64 (b + n)) rt.
Definition add_retries n '(mkAsyncWriter o q c d lq ls ld ce e wr l b rt) :=
  mkAsyncWriter o q c d lq ls ld ce e wr l b (uint64 (rt + n)).

(** [NewAsyncWriter]; [hasStore] is [store != nil]. *)
Definition NewAsyncWriter (hasStore : bool) (options : AsyncOptions) : string + AsyncWriter :=
  fail_if (negb hasStore) "ledger store is required" ?;
  let options := withAsyncDefaults options in
  validateAsyncOptions options ?;
  inr (mkAsyncWriter options [] false false [] false false None 0 0 0 0 0).

Record Stats := mkStats {
  as_QueueDepth : Z;
  as_Enqueued : Z;
  as_Written : Z;
  as_Lost : Z;
  as_Batches : Z;
  as_Retries : Z;
}.

Definition WriterStats (w : AsyncWriter) : Stats :=
  mkStats (Z.of_nat (length (w_queue w))) (w_enqueued w) (w_written w) (w_lost w) (w_batches w)
    (w_retries w).

(** The send of [recordLoss], after [lost.Add]. *)
Definition lossQueueCapacity : nat := 64.

Definition report_loss (event : LossEvent) (w : AsyncWriter) : AsyncWriter :=
  if ao_OnLoss (w_options w) then
    if decide (length (w_lossQueue w) < lossQueueCapacity)%nat
    then set_lossQueue (w_lossQueue w ++ [event]) w else w
  else w.

(** ** [AsyncWriter.Record]

    What a call does next.  [CallLocked] to [CallUnlocking] hold the read
    lock. *)
Inductive call_pc :=
  | CallValidating (record : LedgerRecord)
  | CallLocking (record : LedgerRecord)
  | CallLocked (record : LedgerRecord)
  | CallSending (record : LedgerRecord)
  | CallCounting
  | CallUnlocking
  | CallUnlockingLost (reason : string)
  | CallLosing (reason : string) (err : option string)
  | CallReporting (reason : string) (err : option string)
  | CallReturned (accepted : bool).

Definition holds_lock (pc : call_pc) : bool :=
  match pc with
  | CallLocked _ | CallSending _ | CallCounting | CallUnlocking | CallUnlockingLost _ => true
  | _ => false
  end.

Definition queue_full (w : AsyncWriter) : bool :=
  ao_QueueCapacity (w_options w) <=? Z.of_nat (length (w_queue w)).

Section WithJSON.
Context `{EncodingJSON}.

(** One step of a call; [now] is the clock of the loss event. *)
Definition call_step (now : Z) (w : AsyncWriter) (pc : call_pc) : AsyncWriter * call_pc :=
  match pc with
  | CallValidating record =>
      match validateRecord record with
      | Some err => (w, CallLosing LossInvalidRecord (Some err))
      | None => (w, CallLocking record)
      end
  | CallLocking record => (w, CallLocked record)
  | CallLocked record =>
      if w_closed w then (w, CallUnlockingLost LossWriterClosed) else (w, CallSending record)
  | CallSending record =>
      if queue_full w then (w, CallUnlockingLost LossQueueFull)
      else (set_queue (w_queue w ++ [record]) w, CallCounting)
  | CallCounting => (add_enqueued 1 w, CallUnlocking)
  | CallUnlocking => (w, CallReturned true)
  | CallUnlockingLost reason => (w, CallLosing reason None)
  | CallLosing reason err => (add_lost 1 w, CallReporting reason err)
  | CallReporting reason err =>
      (report_loss (mkLossEvent now reason 1 err) w, CallReturned false)
  | CallReturned accepted => (w, pc)
  end.
End WithJSON.

(** The critical section of [Close], and what it then waits for. *)
Definition close_section (w : AsyncWriter) : AsyncWriter := set_closed true w.

Definition close_result (w : AsyncWriter) : option (option string) :=
  if w_done w then Some (w_closeErr w) else None.

(** ** The writing goroutine

    What follows a flush: the loop, the record that did not fit the batch, or
    the end. *)
Inductive after_flush := ThenLoop | ThenAppend (record : LedgerRecord) | ThenShutdown.

Inductive run_pc :=
  | RunSelect
  | RunDrain
  | RunAttempt (attempt : Z) (k : after_flush)
  | RunWritten (k : after_flush)
  | RunBatches (k : after_flush)
  | RunRetry (attempt : Z) (k : after_flush)
  | RunLosing (err : option string) (k : after_flush)
  | RunReporting (err : option string) (k : after_flush)
  | RunFlushed (k : after_flush)
  | RunCloseStore
  | RunStopLosses
  | RunWaitLosses
  | RunExited.

Record runner := mkRunner {
  rn_pc : run_pc;
  rn_draining : bool;
  rn_batch : list LedgerRecord;
  rn_bytes : Z;
}.

Definition set_pc (pc : run_pc) (rn : runner) : runner :=
  mkRunner pc (rn_draining rn) (rn_batch rn) (rn_bytes rn).

(** Back to the select the goroutine came from. *)
Definition resume (rn : runner) : runner := set_pc (if rn_draining rn then RunDrain else RunSelect) rn.

(** The closure [flush]: [idle] when there is nothing to write. *)
Definition flush (k : after_flush) (idle rn : runner) : runner :=
  match rn_batch rn with [] => idle | _ => set_pc (RunAttempt 0 k) rn end.

(** The second half of the closure [add]. *)
Definition append_record (o : AsyncOptions) (record : LedgerRecord) (rn : runner) : runner :=
  let rn := mkRunner (rn_pc rn) (rn_draining rn) (rn_batch rn ++ [record])
              (rn_bytes rn + EstimatedBytes record) in
  if (ao_MaxBatchRecords o <=? Z.of_nat (length (rn_batch rn))) || (ao_MaxBatchBytes o <=? rn_bytes rn)
  then flush ThenLoop (resume rn) rn
  else resume rn.

(** The closure [add]. *)
Definition add_record (o : AsyncOptions) (record : LedgerRecord) (rn : runner) : runner :=
  if (0 <? Z.of_nat (length (rn_batch rn))) &&
     ((ao_MaxBatchRecords o <=? Z.of_nat (length (rn_batch rn))) ||
      (ao_MaxBatchBytes o <? rn_bytes rn + EstimatedBytes record))
  then flush (ThenAppend record) (append_record o record rn) rn
  else append_record o record rn.

(** The delay before the next attempt. *)
Definition retry_delay (o : AsyncOptions) (attempt : Z) : Z :=
  let delay := int64 (Z.shiftl (ao_InitialRetryDelay o) attempt) in
  if (delay <=? 0) || (Minute <? delay) then Minute else delay.

(** The case a [select] takes, when it has a choice. *)
Inductive select_case := CaseRecord | CaseTick | CaseStop.

(** One step of [run] and of the [AsyncWriter.flush] it calls.  [answer] is what
    the store answers to [AppendBatch] or [Close], and [now] the clock of a loss
    event; [None] when the goroutine cannot take the case, or waits. *)
Definition run_step (case : select_case) (answer : option string) (now : Z)
    (w : AsyncWriter) (rn : runner) : option (AsyncWriter * runner) :=
  let o := w_options w in
  let count := Z.of_nat (length (rn_batch rn)) in
  match rn_pc rn with
  | RunSelect =>
      match case with
      | CaseRecord =>
          match w_queue w with
          | [] => None
          | record :: queue => Some (set_queue queue w, add_record o record rn)
          end
      | CaseTick => Some (w, flush ThenLoop rn rn)
      | CaseStop =>
          if w_closed w
          then Some (w, mkRunner RunDrain true (rn_batch rn) (rn_bytes rn)) else None
      end
  | RunDrain =>
      match w_queue w with
      | record :: queue => Some (set_queue queue w, add_record o record rn)
      | [] => Some (w, flush ThenShutdown (set_pc RunCloseStore rn) rn)
      end
  | RunAttempt attempt k =>
      if ao_MaxRetries o <? attempt then Some (w, set_pc (RunLosing None k) rn)
      else
        match answer with
        | None => Some (w, set_pc (RunWritten k) rn)
        | Some err =>
            if attempt =? ao_MaxRetries o then Some (w, set_pc (RunLosing (Some err) k) rn)
            else Some (w, set_pc (RunRetry attempt k) rn)
        end
  | RunRetry attempt k => Some (add_retries 1 w, set_pc (RunAttempt (attempt + 1) k) rn)
  | RunWritten k => Some (add_written count w, set_pc (RunBatches k) rn)
  | RunBatches k => Some (add_batches 1 w, set_pc (RunFlushed k) rn)
  | RunLosing err k => Some (add_lost count w, set_pc (RunReporting err k) rn)
  | RunReporting err k =>
      Some (report_loss (mkLossEvent now LossStoreFailure count err) w, set_pc (RunFlushed k) rn)
  | RunFlushed k =>
      let rn := mkRunner (rn_pc rn) (rn_draining rn) [] 0 in
      Some (w, match k with
               | ThenLoop => resume rn
               | ThenAppend record => append_record o record rn
               | ThenShutdown => set_pc RunCloseStore rn
               end)
  | RunCloseStore => Some (set_closeErr answer w, set_pc RunStopLosses rn)
  | RunStopLosses => Some (set_lossStop true w, set_pc RunWaitLosses rn)
  | RunWaitLosses => if w_lossDone w then Some (set_done true w, set_pc RunExited rn) else None
  | RunExited => None
  end.

(** ** The reporting goroutine *)
Inductive report_pc :=
  | ReportSelect
  | ReportDrain
  | ReportCalling (event : LossEvent) (draining : bool)
  | ReportExited.

(** One step of [reportLosses]; [case] is [CaseStop] to take the stop. *)
Definition report_step (case : select_case) (w : AsyncWriter) (pc : report_pc)
  : option (AsyncWriter * report_pc) :=
  match pc with
  | ReportSelect =>
      match case with
      | CaseStop => if w_lossStop w then Some (w, ReportDrain) else None
      | _ =>
          match w_lossQueue w with
          | [] => None
          | event :: rest => Some (set_lossQueue rest w, ReportCalling event false)
          end
      end
  | ReportDrain =>
      match w_lossQueue w with
      | event :: rest => Some (set_lossQueue rest w, ReportCalling event true)
      | [] => Some (set_lossDone true w, ReportExited)
      end
  | ReportCalling event draining => Some (w, if draining then ReportDrain else ReportSelect)
  | ReportExited => None
  end.
