(* ===== verification/AsyncWriterTheorems.v ===== *)
(** * Properties of the asynchronous ledger writer

    Under any interleaving of calls, writer, reporter and [Close], whatever the
    store answers: the store is offered exactly the records that were queued, in
    order and in bounded batches, every call is counted once as queued or lost,
    and when the writer has exited nothing is left anywhere. *)

From stdpp Require Import base gmap list strings.
From Stdlib Require Import ZArith Lia.
From S2P Require Import Prelude GoStrings Fixtures Policies Capabilities Config Fields Ledger AsyncWriter.

Local Open Scope Z_scope.
Local Open Scope go_scope.

(** ** The system

    [ws_sent] are the records that were put in the queue and [ws_log] the batches
    that were flushed, with whether the store took them; both are history that
    the program does not keep. *)
Record wsys := mkWsys {
  ws_w : AsyncWriter;
  ws_rn : runner;
  ws_rp : report_pc;
  ws_calls : gmap nat call_pc;
  ws_sent : list LedgerRecord;
  ws_log : list (list LedgerRecord * bool);
}.

(** The record that the step of a call puts in the queue. *)
Definition sent_by (w : AsyncWriter) (pc : call_pc) : list LedgerRecord :=
  match pc with CallSending record => if queue_full w then [] else [record] | _ => [] end.

(** The batch that a step of the writer is done with. *)
Definition logged_by (o : AsyncOptions) (answer : option string) (rn : runner)
  : list (list LedgerRecord * bool) :=
  match rn_pc rn with
  | RunAttempt attempt _ =>
      if ao_MaxRetries o <? attempt then [(rn_batch rn, false)]
      else match answer with
           | None => [(rn_batch rn, true)]
           | Some _ => if attempt =? ao_MaxRetries o then [(rn_batch rn, false)] else []
           end
  | _ => []
  end.

Definition writer_start (w : AsyncWriter) : wsys :=
  mkWsys w (mkRunner RunSelect false [] 0) ReportSelect ∅ [] [].

Section WithJSON.
Context `{EncodingJSON}.

Inductive wsys_step (s : wsys) : wsys -> Prop :=
  | step_new_call id record :
      ws_calls s !! id = None ->
      wsys_step s (mkWsys (ws_w s) (ws_rn s) (ws_rp s) (<[id := CallValidating record]> (ws_calls s))
                     (ws_sent s) (ws_log s))
  | step_call id pc now w' pc' :
      ws_calls s !! id = Some pc -> call_step now (ws_w s) pc = (w', pc') ->
      wsys_step s (mkWsys w' (ws_rn s) (ws_rp s) (<[id := pc']> (ws_calls s))
                     (ws_sent s ++ sent_by (ws_w s) pc) (ws_log s))
  | step_close :
      (forall id pc, ws_calls s !! id = Some pc -> holds_lock pc = false) ->
      wsys_step s (mkWsys (close_section (ws_w s)) (ws_rn s) (ws_rp s) (ws_calls s) (ws_sent s)
                     (ws_log s))
  | step_run case answer now w' rn' :
      run_step case answer now (ws_w s) (ws_rn s) = Some (w', rn') ->
      wsys_step s (mkWsys w' rn' (ws_rp s) (ws_calls s) (ws_sent s)
                     (ws_log s ++ logged_by (w_options (ws_w s)) answer (ws_rn s)))
  | step_report case w' rp' :
      report_step case (ws_w s) (ws_rp s) = Some (w', rp') ->
      wsys_step s (mkWsys w' (ws_rn s) rp' (ws_calls s) (ws_sent s) (ws_log s)).

Inductive wsys_reach (w : AsyncWriter) : wsys -> Prop :=
  | wsys_reach_start : wsys_reach w (writer_start w)
  | wsys_reach_step s s' : wsys_reach w s -> wsys_step s s' -> wsys_reach w s'.

(** ** What the writer holds *)
Definition bytes_of (l : list LedgerRecord) : Z := foldr (fun r n => EstimatedBytes r + n) 0 l.

Lemma bytes_of_snoc l r : bytes_of (l ++ [r]) = bytes_of l + EstimatedBytes r.
Proof. unfold bytes_of. induction l as [|x l IH]; cbn [app foldr]; lia. Qed.

(** A batch within the limits: a record that is too large goes alone. *)
Definition batch_fits (o : AsyncOptions) (l : list LedgerRecord) : Prop :=
  l <> [] /\ Z.of_nat (length l) <= ao_MaxBatchRecords o /\
  (bytes_of l <= ao_MaxBatchBytes o \/ length l = 1%nat).

(** A batch with room for more. *)
Definition has_space (o : AsyncOptions) (l : list LedgerRecord) : Prop :=
  Z.of_nat (length l) < ao_MaxBatchRecords o /\ bytes_of l < ao_MaxBatchBytes o.

Definition carried (k : after_flush) : list LedgerRecord :=
  match k with ThenAppend record => [record] | _ => [] end.

(** The records that the writer took from the queue and has not offered. *)
Definition unlogged (rn : runner) : list LedgerRecord :=
  match rn_pc rn with
  | RunAttempt _ k | RunRetry _ k => rn_batch rn ++ carried k
  | RunWritten k | RunBatches k | RunLosing _ k | RunReporting _ k | RunFlushed k => carried k
  | _ => rn_batch rn
  end.

(** The batch is consistent with what the writer does. *)
Definition batch_ok (o : AsyncOptions) (rn : runner) : Prop :=
  rn_bytes rn = bytes_of (rn_batch rn) /\
  match rn_pc rn with
  | RunSelect | RunDrain => has_space o (rn_batch rn)
  | RunAttempt _ _ | RunRetry _ _ | RunWritten _ | RunBatches _ | RunLosing _ _
  | RunReporting _ _ | RunFlushed _ => batch_fits o (rn_batch rn)
  | _ => rn_batch rn = []
  end.

Definition options_ok (o : AsyncOptions) : Prop :=
  0 < ao_QueueCapacity o /\ 0 < ao_MaxBatchRecords o /\ 0 < ao_MaxBatchBytes o /\
  0 <= ao_MaxRetries o <= 16 /\ 0 < ao_InitialRetryDelay o.

Lemma new_writer_ok hasStore options w :
  NewAsyncWriter hasStore options = inr w ->
  options_ok (w_options w) /\
  w = mkAsyncWriter (withAsyncDefaults options) [] false false [] false false None 0 0 0 0 0.
Proof.
  unfold NewAsyncWriter. rewrite !check_then_inr. intros (_ & Hv & [= <-]). split; [|done].
  cbn [w_options]. unfold validateAsyncOptions in Hv.
  rewrite !first_error_cons, !fail_if_None, !orb_false_iff, !Z.leb_gt, !Z.ltb_ge in Hv.
  unfold options_ok. tauto.
Qed.

(** ** Appending *)
Lemma append_record_spec o record rn :
  batch_fits o (rn_batch rn ++ [record]) -> rn_bytes rn = bytes_of (rn_batch rn) ->
  let rn' := append_record o record rn in
  batch_ok o rn' /\ rn_draining rn' = rn_draining rn /\
  unlogged rn' = rn_batch rn ++ [record] /\
  (rn_pc rn' = RunAttempt 0 ThenLoop \/
   rn_pc rn' = if rn_draining rn then RunDrain else RunSelect).
Proof.
  intros Hfit Hb. unfold append_record. cbn [rn_batch rn_bytes rn_draining rn_pc].
  assert (Hb' : rn_bytes rn + EstimatedBytes record = bytes_of (rn_batch rn ++ [record]))
    by (rewrite bytes_of_snoc; lia).
  destruct (_ || _) eqn:E.
  - unfold flush. cbn [rn_batch]. destruct (rn_batch rn ++ [record]) as [|x l] eqn:El;
      [by apply app_eq_nil in El as [_ [=]]|].
    unfold batch_ok, unlogged, set_pc. cbn [rn_pc rn_batch rn_bytes rn_draining carried].
    rewrite app_nil_r. auto.
  - apply orb_false_iff in E as [E1%Z.leb_gt E2%Z.leb_gt].
    unfold resume, batch_ok, unlogged, set_pc, has_space. cbn [rn_pc rn_batch rn_bytes rn_draining].
    rewrite <- Hb'. destruct (rn_draining rn); auto.
Qed.

Lemma add_record_spec o record rn :
  options_ok o -> rn_bytes rn = bytes_of (rn_batch rn) -> has_space o (rn_batch rn) ->
  let rn' := add_record o record rn in
  batch_ok o rn' /\ rn_draining rn' = rn_draining rn /\
  unlogged rn' = rn_batch rn ++ [record] /\
  (rn_pc rn' = RunAttempt 0 ThenLoop \/ rn_pc rn' = RunAttempt 0 (ThenAppend record) \/
   rn_pc rn' = if rn_draining rn then RunDrain else RunSelect).
Proof.
  intros (_ & Ho1 & Ho2 & _) Hb [Hs1 Hs2]. unfold add_record.
  destruct (Z.ltb_spec 0 (Z.of_nat (length (rn_batch rn)))) as [Hl|Hl]; cbn [andb].
  - rewrite (proj2 (Z.leb_gt _ _)) by done. cbn [orb].
    destruct (Z.ltb_spec (ao_MaxBatchBytes o) (rn_bytes rn + EstimatedBytes record)).
    + unfold flush. destruct (rn_batch rn) as [|x l] eqn:El; [cbn in Hl; lia|].
      unfold batch_ok, unlogged, set_pc, batch_fits. cbn [rn_pc rn_batch rn_bytes rn_draining carried].
      rewrite El. split; [|by auto]. split; [done|]. split; [done|]. lia.
    + destruct (append_record_spec o record rn) as (? & ? & ? & ?); [|done|tauto].
      split; [by destruct (rn_batch rn)|]. rewrite length_app, bytes_of_snoc. cbn [length]. lia.
  - destruct (append_record_spec o record rn) as (? & ? & ? & ?); [|done|tauto].
    destruct (rn_batch rn); [|cbn in Hl; lia]. split; [done|]. cbn [length app]. lia.
Qed.
(** ** The invariant *)
Definition is_sent (pc : call_pc) : bool :=
  match pc with CallCounting | CallUnlocking => true | CallReturned accepted => accepted | _ => false end.
Definition is_counted (pc : call_pc) : bool :=
  match pc with CallUnlocking => true | CallReturned accepted => accepted | _ => false end.
Definition is_lost (pc : call_pc) : bool :=
  match pc with CallReporting _ _ => true | CallReturned accepted => negb accepted | _ => false end.

(** A call that may only be there while the writer is open. *)
Definition needs_open (pc : call_pc) : bool :=
  match pc with CallSending _ | CallCounting | CallUnlocking => true | _ => false end.

Definition log_count (stored : bool) (log : list (list LedgerRecord * bool)) : Z :=
  foldr (fun e n => (if Bool.eqb e.2 stored then Z.of_nat (length e.1) else 0) + n) 0 log.

Lemma log_count_app stored l k : log_count stored (l ++ k) = log_count stored l + log_count stored k.
Proof. unfold log_count. induction l as [|e l IH]; cbn [app foldr]; lia. Qed.

Lemma log_count_total log :
  log_count true log + log_count false log = Z.of_nat (length (concat (fst <$> log))).
Proof.
  unfold log_count. induction log as [|[l b] log IH]; [done|].
  cbn [fmap list_fmap concat fst]. rewrite length_app, Nat2Z.inj_add, <- IH. destruct b; cbn; lia.
Qed.

(** What is logged and not counted yet. *)
Definition uncounted (stored : bool) (rn : runner) : Z :=
  match rn_pc rn, stored with
  | RunWritten _, true | RunLosing _ _, false => Z.of_nat (length (rn_batch rn))
  | _, _ => 0
  end.

Definition shutting_down (pc : run_pc) : bool :=
  match pc with
  | RunAttempt _ ThenShutdown | RunRetry _ ThenShutdown | RunWritten ThenShutdown
  | RunBatches ThenShutdown | RunLosing _ ThenShutdown | RunReporting _ ThenShutdown
  | RunFlushed ThenShutdown | RunCloseStore | RunStopLosses | RunWaitLosses | RunExited => true
  | _ => false
  end.

Record winv (s : wsys) : Prop := {
  wi_options : options_ok (w_options (ws_w s));
  wi_batch : batch_ok (w_options (ws_w s)) (ws_rn s);
  wi_fifo : concat (fst <$> ws_log s) ++ unlogged (ws_rn s) ++ w_queue (ws_w s) = ws_sent s;
  wi_log : Forall (fun e => batch_fits (w_options (ws_w s)) e.1) (ws_log s);
  wi_sent : Z.of_nat (length (ws_sent s)) = count_map is_sent (ws_calls s);
  wi_enqueued : w_enqueued (ws_w s) = uint64 (count_map is_counted (ws_calls s));
  wi_written : w_written (ws_w s) = uint64 (log_count true (ws_log s) - uncounted true (ws_rn s));
  wi_lost : w_lost (ws_w s) =
    uint64 (count_map is_lost (ws_calls s) + log_count false (ws_log s) - uncounted false (ws_rn s));
  wi_draining : rn_draining (ws_rn s) = true -> w_closed (ws_w s) = true;
  wi_mode : (rn_pc (ws_rn s) = RunSelect -> rn_draining (ws_rn s) = false) /\
    (rn_pc (ws_rn s) = RunDrain -> rn_draining (ws_rn s) = true);
  wi_shutdown : shutting_down (rn_pc (ws_rn s)) = true ->
    w_queue (ws_w s) = [] /\ rn_draining (ws_rn s) = true;
  wi_lock : w_closed (ws_w s) = true ->
    forall id pc, ws_calls s !! id = Some pc -> needs_open pc = false;
  wi_capacity : Z.of_nat (length (w_queue (ws_w s))) <= ao_QueueCapacity (w_options (ws_w s));
  wi_done : w_done (ws_w s) = true -> rn_pc (ws_rn s) = RunExited;
}.

Lemma start_winv w hasStore options :
  NewAsyncWriter hasStore options = inr w -> winv (writer_start w).
Proof.
  intros [Ho ->]%new_writer_ok. pose proof Ho as (H1 & H2 & H3 & _). cbn [w_options] in *.
  cbn in H1. split; cbn; try done; lia.
Qed.

Lemma new_call_winv s id record :
  ws_calls s !! id = None -> winv s ->
  winv (mkWsys (ws_w s) (ws_rn s) (ws_rp s) (<[id := CallValidating record]> (ws_calls s))
          (ws_sent s) (ws_log s)).
Proof.
  intros Hid [I1 I2 I3 I4 I5 I6 I7 I8 I9 I10 I11 I12 I13 I14].
  split; cbn [ws_w ws_rn ws_rp ws_calls ws_sent ws_log]; try done;
    rewrite ?count_map_insert by done; cbn [is_sent is_counted is_lost]; rewrite ?Z.add_0_r; try done.
  intros Hc id' pc. rewrite lookup_insert. case_decide; [by intros [= <-]|by apply I12].
Qed.

Lemma close_winv s :
  (forall id pc, ws_calls s !! id = Some pc -> holds_lock pc = false) -> winv s ->
  winv (mkWsys (close_section (ws_w s)) (ws_rn s) (ws_rp s) (ws_calls s) (ws_sent s) (ws_log s)).
Proof.
  intros Hl [I1 I2 I3 I4 I5 I6 I7 I8 I9 I10 I11 I12 I13 I14].
  destruct s as [[] rn rp calls sent log].
  split; cbn in *; try done. intros _ id pc Hid. specialize (Hl id pc Hid). by destruct pc.
Qed.

Lemma report_winv s case w' rp' :
  report_step case (ws_w s) (ws_rp s) = Some (w', rp') -> winv s ->
  winv (mkWsys w' (ws_rn s) rp' (ws_calls s) (ws_sent s) (ws_log s)).
Proof.
  intros E [I1 I2 I3 I4 I5 I6 I7 I8 I9 I10 I11 I12 I13 I14].
  destruct s as [[] rn rp calls sent log]. cbn in *.
  destruct rp, case; cbn in E; repeat (case_match; try done); simplify_eq; by split.
Qed.

(** What the step of a call leaves alone. *)
Lemma call_step_frame now w pc w' pc' :
  call_step now w pc = (w', pc') ->
  w_options w' = w_options w /\ w_closed w' = w_closed w /\ w_done w' = w_done w /\
  w_written w' = w_written w /\ w_queue w' = w_queue w ++ sent_by w pc.
Proof.
  destruct w. destruct pc; cbn; intros E; repeat (case_match; try done);
    simplify_eq; cbn; rewrite ?app_nil_r; unfold report_loss; cbn; repeat case_match; done.
Qed.

(** How it moves the counters. *)
Definition flag (b : bool) : Z := if b then 1 else 0.

Lemma call_step_counts now w pc w' pc' :
  call_step now w pc = (w', pc') ->
  Z.of_nat (length (sent_by w pc)) = flag (is_sent pc') - flag (is_sent pc) /\
  (forall n, w_enqueued w = uint64 n ->
             w_enqueued w' = uint64 (n - flag (is_counted pc) + flag (is_counted pc'))) /\
  (forall n, w_lost w = uint64 n ->
             w_lost w' = uint64 (n - flag (is_lost pc) + flag (is_lost pc'))).
Proof.
  intros E. destruct w. destruct pc; cbn in E; repeat (case_match; try done); simplify_eq; cbn.
  all: unfold report_loss; cbn; repeat case_match; cbn; (split; [first [done | lia]|]).
  all: split; intros ? ->; rewrite ?uint64_add; apply (f_equal uint64); cbn; lia.
Qed.

Lemma call_winv s id pc now w' pc' :
  ws_calls s !! id = Some pc -> call_step now (ws_w s) pc = (w', pc') -> winv s ->
  winv (mkWsys w' (ws_rn s) (ws_rp s) (<[id := pc']> (ws_calls s))
          (ws_sent s ++ sent_by (ws_w s) pc) (ws_log s)).
Proof.
  intros Hid E [I1 I2 I3 I4 I5 I6 I7 I8 I9 I10 I11 I12 I13 I14].
  destruct (call_step_frame _ _ _ _ _ E) as (Eo & Ec & Ed & Ew & Eq).
  destruct (call_step_counts _ _ _ _ _ E) as (Cs & Ce & Cl).
  assert (Hopen : w_closed (ws_w s) = true -> needs_open pc' = false /\ sent_by (ws_w s) pc = []).
  { intros Hc. specialize (I12 Hc id pc Hid). destruct (ws_w s).
    destruct pc; cbn in *; repeat (case_match; try done); by simplify_eq. }
  split; cbn [ws_w ws_rn ws_rp ws_calls ws_sent ws_log]; rewrite ?Eo, ?Ec, ?Ed; try done.
  - by rewrite Eq, <- I3, <- !app_assoc.
  - rewrite length_app, Nat2Z.inj_add, I5, (count_map_update _ _ _ _ _ Hid). unfold flag in Cs. lia.
  - rewrite (Ce _ I6), (count_map_update _ _ _ _ _ Hid). done.
  - by rewrite Ew.
  - rewrite (Cl _ I8), (count_map_update _ _ _ _ _ Hid). apply (f_equal uint64). unfold flag. lia.
  - intros Hsh. specialize (I11 Hsh) as [Iq Id]. split; [|done]. rewrite Eq, Iq.
    by destruct (Hopen (I9 Id)) as [_ ->].
  - intros Hc id' pc2. rewrite lookup_insert. case_decide; [intros [= <-]; by apply Hopen|by apply I12].
  - rewrite Eq, length_app. unfold sent_by, queue_full. destruct pc; cbn [length]; try lia.
    destruct (Z.leb_spec (ao_QueueCapacity (w_options (ws_w s))) (Z.of_nat (length (w_queue (ws_w s)))));
      cbn [length]; lia.
Qed.

(** ** Steps of the writer *)
Lemma pc_of_append o record rn :
  exists rn', append_record o record rn = rn' /\ rn_draining rn' = rn_draining rn /\
  rn_batch rn' = rn_batch rn ++ [record] /\
  (rn_pc rn' = RunAttempt 0 ThenLoop \/ rn_pc rn' = if rn_draining rn then RunDrain else RunSelect).
Proof.
  eexists. split; [reflexivity|]. unfold append_record, flush. cbn.
  destruct (rn_batch rn ++ [record]) eqn:E; [by apply app_eq_nil in E as [_ [=]]|].
  destruct (_ || _); cbn; rewrite ?E; auto.
Qed.

Lemma pc_of_add o record rn :
  exists rn', add_record o record rn = rn' /\ rn_draining rn' = rn_draining rn /\
  (rn_pc rn' = RunAttempt 0 ThenLoop \/ rn_pc rn' = RunAttempt 0 (ThenAppend record) \/
   rn_pc rn' = if rn_draining rn then RunDrain else RunSelect).
Proof.
  eexists. split; [reflexivity|]. unfold add_record.
  destruct (pc_of_append o record rn) as (rn' & -> & Hd & _ & Hp).
  destruct (_ && _) eqn:E; [|tauto]. unfold flush. destruct (rn_batch rn) eqn:Eb; [done|]. cbn. auto.
Qed.

Lemma run_step_frame case answer now w rn w' rn' :
  run_step case answer now w rn = Some (w', rn') ->
  w_options w' = w_options w /\ w_closed w' = w_closed w /\ w_enqueued w' = w_enqueued w /\
  (w_done w' = true -> w_done w = true \/ rn_pc rn' = RunExited) /\
  (w_done w = true -> rn_pc rn <> RunExited).
Proof.
  destruct w, rn as [pc dr ba by']. unfold run_step, report_loss.
  destruct pc, case; cbn; intros E; repeat (case_match; try done); simplify_eq; cbn;
    repeat split; auto; by intros _.
Qed.

Lemma run_step_counts case answer now w rn w' rn' n m :
  run_step case answer now w rn = Some (w', rn') ->
  w_written w = uint64 (n - uncounted true rn) -> w_lost w = uint64 (m - uncounted false rn) ->
  w_written w' =
    uint64 (n + log_count true (logged_by (w_options w) answer rn) - uncounted true rn') /\
  w_lost w' =
    uint64 (m + log_count false (logged_by (w_options w) answer rn) - uncounted false rn').
Proof.
  assert (Hadd : forall o record rn b, uncounted b (add_record o record rn) = 0).
  { intros o record rn0 b. destruct (pc_of_add o record rn0) as (rn1 & -> & _ & Hp).
    unfold uncounted. destruct Hp as [->|[->| ->]]; [done..|]. by destruct (rn_draining rn0). }
  assert (Happ : forall o record rn b, uncounted b (append_record o record rn) = 0).
  { intros o record rn0 b. destruct (pc_of_append o record rn0) as (rn1 & -> & _ & _ & Hp).
    unfold uncounted. destruct Hp as [->| ->]; [done|]. by destruct (rn_draining rn0). }
  assert (Hres : forall dr b l k, uncounted b (resume (mkRunner k dr l 0)) = 0) by (by intros []).
  unfold run_step, logged_by, report_loss. intros E Hw Hl. destruct w, rn as [pc dr ba by'].
  destruct pc; cbn in E, Hw, Hl |- *; repeat (case_match; try done); simplify_eq; cbn;
    rewrite ?Hadd, ?Happ, ?Hres, ?uint64_add; cbn.
  all: unfold flush; destruct ba; cbn; split; apply (f_equal uint64); unfold uncounted; cbn; lia.
Qed.

(** The records go from the queue to the batch and from there to the log. *)
Lemma run_step_fifo case answer now w rn w' rn' :
  options_ok (w_options w) -> batch_ok (w_options w) rn ->
  run_step case answer now w rn = Some (w', rn') ->
  batch_ok (w_options w) rn' /\
  concat (fst <$> logged_by (w_options w) answer rn) ++ unlogged rn' ++ w_queue w' =
    unlogged rn ++ w_queue w /\
  Forall (fun e => batch_fits (w_options w) e.1) (logged_by (w_options w) answer rn).
Proof.
  intros Ho [Hb Hpc] E. destruct w as [o q c d lq ls ld ce e wr l b rt], rn as [pc dr ba by'].
  unfold run_step, logged_by in *. cbn [rn_pc rn_batch rn_bytes w_options w_queue w_closed w_lossDone] in *.
  assert (Hone : forall record, batch_fits o [record]).
  { intros record. destruct Ho as (_ & ? & _). split; [done|]. cbn [length]. lia. }
  assert (Hadd : forall record q', has_space o ba ->
    batch_ok o (add_record o record (mkRunner pc dr ba by')) /\
    unlogged (add_record o record (mkRunner pc dr ba by')) ++ q' = ba ++ record :: q').
  { intros record q' Hs.
    destruct (add_record_spec o record (mkRunner pc dr ba by') Ho Hb Hs) as (Hk & _ & -> & _).
    split; [done|]. cbn [rn_batch]. by rewrite <- app_assoc. }
  assert (Hflush : forall k k' pc', has_space o ba -> carried k' = [] ->
    batch_ok o (mkRunner pc' dr [] 0) -> unlogged (mkRunner pc' dr [] 0) = [] ->
    batch_ok o (flush k' (mkRunner pc' dr ba by') (mkRunner k dr ba by')) /\
    unlogged (flush k' (mkRunner pc' dr ba by') (mkRunner k dr ba by')) = ba).
  { intros k k' pc' [Hs1 Hs2] Hk Hok Hun. unfold flush. cbn [rn_batch].
    destruct ba as [|x ba]; [cbn in Hb; subst by'; by split|]. unfold batch_ok, unlogged, set_pc.
    cbn [rn_pc rn_batch rn_bytes rn_draining]. rewrite Hk, app_nil_r. split; [|done].
    split; [done|]. split; [done|]. lia. }
  destruct pc; [destruct case|..].
  - destruct q as [|record q']; [done|]. injection E as <- <-.
    destruct (Hadd record q' Hpc) as [H1 H2]. split; [exact H1|split; [exact H2|constructor]].
  - injection E as <- <-. destruct (Hflush RunSelect ThenLoop RunSelect Hpc) as [H1 H2]; [done| |done|].
    { split; [done|]. destruct Ho as (_ & ? & ? & _). by split. }
    split; [exact H1|split; [exact (f_equal (fun x => x ++ q) H2)|constructor]].
  - destruct c; [|done]. injection E as <- <-. split; [by split|split; [done|constructor]].
  - destruct q as [|record q'].
    + injection E as <- <-.
      destruct (Hflush RunDrain ThenShutdown RunCloseStore Hpc) as [H1 H2]; [done..|].
      split; [exact H1|split; [exact (f_equal (fun x => x ++ []) H2)|constructor]].
    + injection E as <- <-. destruct (Hadd record q' Hpc) as [H1 H2].
      split; [exact H1|split; [exact H2|constructor]].
  - destruct (_ <? attempt); [|destruct answer; [destruct (_ =? _)|]]; injection E as <- <-;
      unfold unlogged; cbn; rewrite ?app_nil_r, ?app_assoc; repeat split; try done; apply Hpc || by constructor.
  - injection E as <- <-. by repeat split; try apply Hpc.
  - injection E as <- <-. by repeat split; try apply Hpc.
  - injection E as <- <-. by repeat split; try apply Hpc.
  - injection E as <- <-. by repeat split; try apply Hpc.
  - injection E as <- <-. unfold report_loss. cbn. repeat case_match; by repeat split; try apply Hpc.
  - injection E as <- <-. unfold unlogged at 2. cbn [rn_pc].
    destruct k as [|record|]; cbn [carried].
    + split; [|by destruct dr]. destruct Ho as (_ & ? & ? & _). by destruct dr; split; [|split| |split].
    + destruct (append_record_spec o record (mkRunner (RunFlushed (ThenAppend record)) dr [] 0))
        as (H1 & _ & H2 & _); [apply Hone|done|].
      split; [exact H1|split; [exact (f_equal (fun x => x ++ q) H2)|constructor]].
    + by repeat split.
  - injection E as <- <-. by repeat split.
  - injection E as <- <-. by repeat split.
  - destruct ld; [|done]. injection E as <- <-. by repeat split.
  - done.
Qed.

Local Ltac control Hsh := cbn; repeat split; auto; try (by intros); by apply Hsh.

(** Draining and shutting down are for ever, and only start when the queue is
    closed, or empty. *)
Lemma run_step_control case answer now w rn w' rn' :
  run_step case answer now w rn = Some (w', rn') ->
  (rn_draining rn = true -> w_closed w = true) ->
  (rn_pc rn = RunSelect -> rn_draining rn = false) ->
  (rn_pc rn = RunDrain -> rn_draining rn = true) ->
  (shutting_down (rn_pc rn) = true -> w_queue w = [] /\ rn_draining rn = true) ->
  (rn_draining rn' = true -> w_closed w = true) /\
  (rn_pc rn' = RunSelect -> rn_draining rn' = false) /\
  (rn_pc rn' = RunDrain -> rn_draining rn' = true) /\
  (shutting_down (rn_pc rn') = true -> w_queue w' = [] /\ rn_draining rn' = true) /\
  (length (w_queue w') <= length (w_queue w))%nat.
Proof.
  intros E Hd Hs Hdr Hsh. destruct w as [o q c d lq ls ld ce e wr l b rt], rn as [pc dr ba by'].
  unfold run_step, report_loss in E.
  cbn [rn_pc rn_batch rn_bytes rn_draining w_options w_queue w_closed w_lossDone] in *.
  assert (Hadd : forall record, let rn2 := add_record o record (mkRunner pc dr ba by') in
    rn_draining rn2 = dr /\ (rn_pc rn2 = RunSelect -> dr = false) /\
    (rn_pc rn2 = RunDrain -> dr = true) /\ shutting_down (rn_pc rn2) = false).
  { intros record. destruct (pc_of_add o record (mkRunner pc dr ba by')) as (rn2 & -> & Hd2 & Hp).
    cbn [rn_draining] in *. cbn zeta.
    destruct Hp as [->|[->| ->]]; [by repeat split..|]. by destruct dr. }
  assert (Happ : forall record, let rn2 := append_record o record (mkRunner pc dr [] 0) in
    rn_draining rn2 = dr /\ (rn_pc rn2 = RunSelect -> dr = false) /\
    (rn_pc rn2 = RunDrain -> dr = true) /\ shutting_down (rn_pc rn2) = false).
  { intros record. destruct (pc_of_append o record (mkRunner pc dr [] 0)) as (rn2 & -> & Hd2 & _ & Hp).
    cbn [rn_draining] in *. cbn zeta. destruct Hp as [->| ->]; [by repeat split|]. by destruct dr. }
  destruct pc; [destruct case|..]; cbn [shutting_down] in *.
  - destruct q as [|record q']; [done|]. injection E as <- <-.
    destruct (Hadd record) as (-> & H1 & H2 & ->). cbn. repeat split; auto; by lia.
  - injection E as <- <-. unfold flush. destruct ba; cbn; repeat split; auto; by intros.
  - destruct c; [|done]. injection E as <- <-. cbn. repeat split; auto; by intros.
  - destruct q as [|record q']; injection E as <- <-.
    + unfold flush. destruct ba; cbn; repeat split; auto; by intros.
    + destruct (Hadd record) as (-> & H1 & H2 & ->). cbn. repeat split; auto; by lia.
  - destruct (_ <? attempt); [|destruct answer; [destruct (_ =? _)|]]; injection E as <- <-; control Hsh.
  - injection E as <- <-. control Hsh.
  - injection E as <- <-. control Hsh.
  - injection E as <- <-. control Hsh.
  - injection E as <- <-. control Hsh.
  - injection E as <- <-. repeat case_match; control Hsh.
  - injection E as <- <-. destruct k as [|record|]; cbn [w_queue].
    + cbn. destruct dr; repeat split; auto; by intros.
    + destruct (Happ record) as (-> & H1 & H2 & ->). cbn. repeat split; auto; by intros.
    + control Hsh.
  - injection E as <- <-. control Hsh.
  - injection E as <- <-. control Hsh.
  - destruct ld; [|done]. injection E as <- <-. control Hsh.
  - done.
Qed.

Lemma run_winv s case answer now w' rn' :
  run_step case answer now (ws_w s) (ws_rn s) = Some (w', rn') -> winv s ->
  winv (mkWsys w' rn' (ws_rp s) (ws_calls s) (ws_sent s)
          (ws_log s ++ logged_by (w_options (ws_w s)) answer (ws_rn s))).
Proof.
  intros E [I1 I2 I3 I4 I5 I6 I7 I8 I9 [I10 I10'] I11 I12 I13 I14].
  destruct (run_step_frame _ _ _ _ _ _ _ E) as (Eo & Ec & Ee & Ed & Ed').
  destruct (run_step_counts _ _ _ _ _ _ _ _ _ E I7 I8) as [Ew El].
  destruct (run_step_fifo _ _ _ _ _ _ _ I1 I2 E) as (Hk & Hf & Hl).
  destruct (run_step_control _ _ _ _ _ _ _ E I9 I10 I10' I11) as (C1 & C2 & C3 & C4 & C5).
  split; cbn [ws_w ws_rn ws_rp ws_calls ws_sent ws_log]; rewrite ?Eo, ?Ec; try done.
  - by rewrite fmap_app, concat_app, <- app_assoc, Hf.
  - by apply Forall_app.
  - by rewrite Ee.
  - by rewrite log_count_app.
  - rewrite El, log_count_app. apply (f_equal uint64). lia.
  - lia.
  - intros Hd. destruct (Ed Hd) as [Hd'|]; [|done]. by destruct (Ed' Hd' (I14 Hd')).
Qed.

Lemma reach_winv hasStore options w s :
  NewAsyncWriter hasStore options = inr w -> wsys_reach w s -> winv s.
Proof.
  intros Hw. induction 1 as [|s s' _ IH Hstep]; [by apply (start_winv _ hasStore options)|].
  destruct Hstep as [id record Hid|id pc now w' pc' Hid E|Hl|case answer now w' rn' E|case w' rp' E].
  - by apply new_call_winv.
  - by apply (call_winv s id pc now).
  - by apply close_winv.
  - by apply (run_winv s case answer now).
  - by apply (report_winv s case).
Qed.

(** Every call that was made has returned. *)
Definition all_returned (s : wsys) : Prop :=
  forall id pc, ws_calls s !! id = Some pc -> exists accepted, pc = CallReturned accepted.

Lemma all_returned_counts (calls : gmap nat call_pc) :
  (forall id pc, calls !! id = Some pc -> exists accepted, pc = CallReturned accepted) ->
  count_map is_sent calls = count_map is_counted calls /\
  count_map is_counted calls + count_map is_lost calls = Z.of_nat (size calls).
Proof.
  induction calls as [|id pc calls Hid IH] using map_ind; intros Hall.
  { rewrite !count_map_empty, map_size_empty. done. }
  rewrite !count_map_insert, map_size_insert_None by done.
  destruct (Hall id pc) as [accepted ->]; [apply lookup_insert_eq|].
  destruct IH as [-> IH]; [|destruct accepted; cbn; lia].
  intros id' pc' Hid'. apply (Hall id'). rewrite lookup_insert_ne; [done|]. congruence.
Qed.

(** Under any interleaving of calls of [Record], the writer, the reporter and
    [Close], and whatever the store answers: the batches that were flushed, what
    the writer holds and the queue are together exactly the records that were
    queued, in their order; every batch has between one record and the maximum,
    and either fits the byte limit or is a single record; the queue is within
    its capacity. *)
Theorem ledger_queue_fifo hasStore options w s :
  NewAsyncWriter hasStore options = inr w -> wsys_reach w s ->
  concat (fst <$> ws_log s) ++ unlogged (ws_rn s) ++ w_queue (ws_w s) = ws_sent s /\
  Forall (fun e => batch_fits (w_options (ws_w s)) e.1) (ws_log s) /\
  Z.of_nat (length (w_queue (ws_w s))) <= ao_QueueCapacity (w_options (ws_w s)).
Proof. intros Hw Hs. destruct (reach_winv _ _ _ _ Hw Hs). auto. Qed.

(** C29: When the writer has exited and every call has returned, nothing is left in
    the queue or a batch, the store was offered every queued record in order,
    [Enqueued] counts what was queued, [Written] what the store took, and every
    call is counted once, as written or as lost (counters are modulo 2^64). *)
Theorem ledger_accounts_for_every_record hasStore options w s :
  NewAsyncWriter hasStore options = inr w -> wsys_reach w s ->
  w_done (ws_w s) = true -> all_returned s ->
  w_queue (ws_w s) = [] /\ rn_batch (ws_rn s) = [] /\
  concat (fst <$> ws_log s) = ws_sent s /\
  w_enqueued (ws_w s) = uint64 (Z.of_nat (length (ws_sent s))) /\
  w_written (ws_w s) = uint64 (log_count true (ws_log s)) /\
  uint64 (w_written (ws_w s) + w_lost (ws_w s)) = uint64 (Z.of_nat (size (ws_calls s))).
Proof.
  intros Hw Hs Hd Hall. destruct (reach_winv _ _ _ _ Hw Hs) as [I1 I2 I3 I4 I5 I6 I7 I8 I9 I10 I11 I12 I13 I14].
  specialize (I14 Hd). destruct (I11 ltac:(by rewrite I14)) as [Iq _]. destruct I2 as [_ I2].
  rewrite I14 in I2. unfold unlogged in I3. rewrite I14, I2, Iq, !app_nil_r in I3.
  unfold uncounted in I7, I8. rewrite I14 in I7, I8. rewrite Z.sub_0_r in I7, I8.
  destruct (all_returned_counts _ Hall) as [Ha Hb].
  split; [done|]. split; [done|]. split; [done|]. split; [by rewrite I6, I5, Ha|]. split; [done|].
  rewrite I7, I8, uint64_add, Z.add_comm, uint64_add. apply (f_equal uint64).
  assert (Hc : log_count true (ws_log s) + log_count false (ws_log s) = Z.of_nat (length (ws_sent s))).
  { by rewrite <- I3, log_count_total. }
  lia.
Qed.

(** ** Draining ends

    The steps that the writer still takes while it drains: per record of the
    queue two flushes, and per flush an attempt and a wait per retry. *)
Definition flush_work (o : AsyncOptions) : Z := 5 + 2 * Z.max 0 (ao_MaxRetries o).

Definition after_work (o : AsyncOptions) (k : after_flush) : Z :=
  match k with
  | ThenLoop => flush_work o + 4
  | ThenAppend _ => 2 * flush_work o + 4
  | ThenShutdown => 3
  end.

Definition pc_work (o : AsyncOptions) (pc : run_pc) : Z :=
  match pc with
  | RunSelect | RunDrain => flush_work o + 4
  | RunAttempt a k => 5 + 2 * Z.max 0 (ao_MaxRetries o - a) + after_work o k
  | RunRetry a k => 6 + 2 * Z.max 0 (ao_MaxRetries o - a - 1) + after_work o k
  | RunWritten k | RunLosing _ k => 3 + after_work o k
  | RunBatches k | RunReporting _ k => 2 + after_work o k
  | RunFlushed k => 1 + after_work o k
  | RunCloseStore => 3
  | RunStopLosses => 2
  | RunWaitLosses => 1
  | RunExited => 0
  end.

Definition drain_work (w : AsyncWriter) (rn : runner) : Z :=
  Z.of_nat (length (w_queue w)) * (2 * flush_work (w_options w) + 1) + pc_work (w_options w) (rn_pc rn).

Lemma flush_work_pos o : 5 <= flush_work o.
Proof. unfold flush_work. lia. Qed.

Lemma pc_work_nonneg o pc : 0 <= pc_work o pc.
Proof.
  pose proof (flush_work_pos o). destruct pc; cbn [pc_work]; try lia;
    destruct k; cbn [after_work]; lia.
Qed.

Lemma append_work o record rn :
  pc_work o (rn_pc (append_record o record rn)) <= 2 * flush_work o + 4.
Proof.
  pose proof (flush_work_pos o).
  destruct (pc_of_append o record rn) as (rn' & -> & _ & _ & [->| ->]); [|destruct (rn_draining rn)];
    cbn [pc_work after_work]; unfold flush_work in *; lia.
Qed.

Lemma add_work o record rn :
  pc_work o (rn_pc (add_record o record rn)) <= 3 * flush_work o + 4.
Proof.
  pose proof (flush_work_pos o).
  destruct (pc_of_add o record rn) as (rn' & -> & _ & [->|[->| ->]]); [..|destruct (rn_draining rn)];
    cbn [pc_work after_work]; unfold flush_work in *; lia.
Qed.

Lemma run_step_work case answer now w rn w' rn' :
  rn_pc rn <> RunSelect -> run_step case answer now w rn = Some (w', rn') ->
  drain_work w' rn' < drain_work w rn.
Proof.
  intros Hs E. destruct w as [o q c d lq ls ld ce e wr l b rt], rn as [pc dr ba by'].
  pose proof (flush_work_pos o) as Hf. unfold run_step, drain_work in *.
  cbn [rn_pc rn_batch rn_bytes rn_draining w_options w_queue w_closed w_lossDone] in *.
  destruct pc; [done|..].
  - destruct q as [|record q']; injection E as <- <-.
    + unfold flush. destruct ba; cbn [set_pc rn_pc rn_batch w_queue w_options length pc_work after_work];
        unfold flush_work in *; lia.
    + pose proof (add_work o record (mkRunner RunDrain dr ba by')).
      cbn [w_queue w_options length pc_work set_queue] in *. lia.
  - destruct (Z.ltb_spec (ao_MaxRetries o) attempt);
      [|destruct answer; [destruct (Z.eqb_spec attempt (ao_MaxRetries o))|]]; injection E as <- <-;
      cbn [set_pc rn_pc w_queue w_options pc_work]; lia.
  - injection E as <- <-. cbn [set_pc rn_pc w_queue w_options pc_work add_written]. lia.
  - injection E as <- <-. cbn [set_pc rn_pc w_queue w_options pc_work add_batches]. lia.
  - injection E as <- <-. cbn [set_pc rn_pc w_queue w_options pc_work add_retries].
    replace (ao_MaxRetries o - (attempt + 1)) with (ao_MaxRetries o - attempt - 1) by lia. lia.
  - injection E as <- <-. cbn [set_pc rn_pc w_queue w_options pc_work add_lost]. lia.
  - injection E as <- <-. unfold report_loss.
    repeat case_match; cbn [set_pc rn_pc w_queue w_options pc_work set_lossQueue]; lia.
  - injection E as <- <-. destruct k as [|record|]; cbn [w_queue w_options].
    + destruct dr; cbn [resume set_pc rn_pc rn_draining pc_work after_work]; lia.
    + pose proof (append_work o record (mkRunner (RunFlushed (ThenAppend record)) dr [] 0)).
      cbn [pc_work after_work]. lia.
    + cbn [set_pc rn_pc pc_work after_work]. lia.
  - injection E as <- <-. cbn [set_pc rn_pc w_queue w_options pc_work set_closeErr]. lia.
  - injection E as <- <-. cbn [set_pc rn_pc w_queue w_options pc_work set_lossStop]. lia.
  - destruct ld; [|done]. injection E as <- <-. cbn [set_pc rn_pc w_queue w_options pc_work set_done]. lia.
  - done.
Qed.

(** Once the writer has seen that it is closed, every step it takes brings it
    closer to its exit, by a measure that no other step raises; it can take a
    step unless it has exited or waits for the last losses to be reported.  So it
    drains the queue whatever the store answers. *)
Theorem ledger_drain_terminates hasStore options w s :
  NewAsyncWriter hasStore options = inr w -> wsys_reach w s -> rn_draining (ws_rn s) = true ->
  0 <= drain_work (ws_w s) (ws_rn s) /\
  (forall case answer now w' rn',
     run_step case answer now (ws_w s) (ws_rn s) = Some (w', rn') ->
     drain_work w' rn' < drain_work (ws_w s) (ws_rn s)) /\
  (forall s', wsys_step s s' -> drain_work (ws_w s') (ws_rn s') <= drain_work (ws_w s) (ws_rn s)) /\
  (rn_pc (ws_rn s) = RunExited \/
   (rn_pc (ws_rn s) = RunWaitLosses /\ w_lossDone (ws_w s) = false) \/
   forall case answer now, exists next, run_step case answer now (ws_w s) (ws_rn s) = Some next).
Proof.
  intros Hw Hs Hdr. destruct (reach_winv _ _ _ _ Hw Hs) as [I1 I2 I3 I4 I5 I6 I7 I8 I9 [I10 _] I11 I12 I13 I14].
  assert (Hpc : rn_pc (ws_rn s) <> RunSelect) by (intros E; specialize (I10 E); congruence).
  split; [|split; [|split]].
  - unfold drain_work. pose proof (pc_work_nonneg (w_options (ws_w s)) (rn_pc (ws_rn s))).
    pose proof (flush_work_pos (w_options (ws_w s))). nia.
  - intros case answer now w' rn' E. by apply (run_step_work case answer now).
  - intros s' Hstep. destruct Hstep as [id record Hid|id pc now w' pc' Hid E|Hl|case answer now w' rn' E|case w' rp' E];
      cbn [ws_w ws_rn]; try done.
    + destruct (call_step_frame _ _ _ _ _ E) as (Eo & _ & _ & _ & Eq).
      assert (sent_by (ws_w s) pc = []) as Hsent.
      { pose proof (I12 (I9 Hdr) id pc Hid). by destruct pc. }
      unfold drain_work. by rewrite Eo, Eq, Hsent, app_nil_r.
    + by destruct (ws_w s).
    + apply Z.lt_le_incl. by apply (run_step_work case answer now).
    + destruct s as [[] rn rp calls sent log]. cbn in *.
      destruct rp, case; cbn in E; repeat (case_match; try done); by simplify_eq.
  - destruct (ws_w s), (ws_rn s) as [pc dr ba by']. cbn in Hpc |- *.
    destruct pc; [done|..]; try (by left); try (right; right; intros; unfold run_step; cbn;
      repeat case_match; by eexists).
    destruct w_lossDone; [right; right; intros; by eexists|by right; left].
Qed.

(** The delay before a retry is positive and at most a minute; it is the
    initial delay doubled once per attempt, when that does not exceed 2^62
    nanoseconds and within the minute. *)
Theorem ledger_retry_delay hasStore options w attempt :
  NewAsyncWriter hasStore options = inr w ->
  0 < retry_delay (w_options w) attempt <= Minute /\
  (0 <= attempt -> ao_InitialRetryDelay (w_options w) * 2 ^ attempt <= 2 ^ 62 ->
   retry_delay (w_options w) attempt =
     Z.min Minute (ao_InitialRetryDelay (w_options w) * 2 ^ attempt)).
Proof.
  intros [(_ & _ & _ & _ & Hp) _]%new_writer_ok. unfold retry_delay. split.
  - destruct (Z.leb_spec (int64 (Z.shiftl (ao_InitialRetryDelay (w_options w)) attempt)) 0); [done|].
    destruct (Z.ltb_spec Minute (int64 (Z.shiftl (ao_InitialRetryDelay (w_options w)) attempt))); [done|].
    cbn [orb]. lia.
  - intros Ha Hle. rewrite Z.shiftl_mul_pow2 by done.
    assert (0 < 2 ^ attempt) by (by apply Z.pow_pos_nonneg).
    set (d := ao_InitialRetryDelay (w_options w) * 2 ^ attempt) in *.
    assert (0 < d) by (unfold d; nia). change (2 ^ 62) with 4611686018427387904 in Hle.
    rewrite int64_id by (unfold is_int64, MinInt64, MaxInt64; lia).
    destruct (Z.leb_spec d 0); [lia|]. destruct (Z.ltb_spec Minute d); cbn [orb]; lia.
Qed.
End WithJSON.

(** ** Concrete runs *)
Section Runs.
#[local] Existing Instance any_json.

Inductive action :=
  | NewCall (id : nat) (record : LedgerRecord)
  | StepCall (id : nat)
  | DoClose
  | StepRun (case : select_case) (answer : option string)
  | StepReport (case : select_case).

Definition perform (a : action) (s : wsys) : option wsys :=
  match a with
  | NewCall id record =>
      match ws_calls s !! id with
      | Some _ => None
      | None => Some (mkWsys (ws_w s) (ws_rn s) (ws_rp s)
                        (<[id := CallValidating record]> (ws_calls s)) (ws_sent s) (ws_log s))
      end
  | StepCall id =>
      match ws_calls s !! id with
      | None => None
      | Some pc =>
          let '(w', pc') := call_step 1 (ws_w s) pc in
          Some (mkWsys w' (ws_rn s) (ws_rp s) (<[id := pc']> (ws_calls s))
                  (ws_sent s ++ sent_by (ws_w s) pc) (ws_log s))
      end
  | DoClose =>
      if forallb (fun kv => negb (holds_lock kv.2)) (map_to_list (ws_calls s))
      then Some (mkWsys (close_section (ws_w s)) (ws_rn s) (ws_rp s) (ws_calls s) (ws_sent s) (ws_log s))
      else None
  | StepRun case answer =>
      match run_step case answer 1 (ws_w s) (ws_rn s) with
      | None => None
      | Some (w', rn') =>
          Some (mkWsys w' rn' (ws_rp s) (ws_calls s) (ws_sent s)
                  (ws_log s ++ logged_by (w_options (ws_w s)) answer (ws_rn s)))
      end
  | StepReport case =>
      match report_step case (ws_w s) (ws_rp s) with
      | None => None
      | Some (w', rp') => Some (mkWsys w' (ws_rn s) rp' (ws_calls s) (ws_sent s) (ws_log s))
      end
  end.

Fixpoint perform_all (l : list action) (s : wsys) : option wsys :=
  match l with
  | [] => Some s
  | a :: l => match perform a s with Some s => perform_all l s | None => None end
  end.

Lemma perform_step a s s' : perform a s = Some s' -> wsys_step s s'.
Proof.
  destruct a; cbn [perform]; intros E.
  - destruct (ws_calls s !! id) eqn:Hid; [done|]. injection E as <-. by constructor.
  - destruct (ws_calls s !! id) as [pc|] eqn:Hid; [|done].
    destruct (call_step 1 (ws_w s) pc) as [w' pc'] eqn:Ec. injection E as <-. by apply (step_call s id pc 1).
  - destruct (forallb _ _) eqn:Hf; [|done]. injection E as <-. constructor. intros id pc Hid.
    rewrite forallb_forall in Hf. apply elem_of_map_to_list, list_elem_of_In in Hid.
    specialize (Hf _ Hid). by apply negb_true_iff in Hf.
  - destruct (run_step case answer 1 (ws_w s) (ws_rn s)) as [[w' rn']|] eqn:Er; [|done].
    injection E as <-. by apply (step_run s case answer 1).
  - destruct (report_step case (ws_w s) (ws_rp s)) as [[w' rp']|] eqn:Er; [|done].
    injection E as <-. by apply (step_report s case).
Qed.

Lemma perform_reach l w s s' : wsys_reach w s -> perform_all l s = Some s' -> wsys_reach w s'.
Proof.
  revert s. induction l as [|a l IH]; cbn [perform_all]; intros s Hs E; [by injection E as <-|].
  destruct (perform a s) as [s1|] eqn:Ea; [|done]. apply (IH s1); [|done].
  by apply (wsys_reach_step w s), (perform_step a).
Qed.

(** A writer of batches of two that retries once and reports losses. *)
Definition small_options : AsyncOptions := mkAsyncOptions 2 2 0 0 0 1 0 true.

Definition small_writer : AsyncWriter :=
  mkAsyncWriter (withAsyncDefaults small_options) [] false false [] false false None 0 0 0 0 0.

Lemma small_writer_new : NewAsyncWriter true small_options = inr small_writer.
Proof. vm_compute. reflexivity. Qed.

(** Three records, one invalid; the writer is closed with one in the queue, and
    the store refuses the first attempt. *)
Definition draining_run : list action :=
  [NewCall 0 sample_record] ++ replicate 6 (StepCall 0) ++
  [NewCall 1 (mkLedgerRecord "x" None None None)] ++ replicate 3 (StepCall 1) ++
  [StepRun CaseRecord None; NewCall 2 sample_record] ++ replicate 6 (StepCall 2) ++
  [DoClose; StepRun CaseStop None].

Definition closing_run : list action :=
  [StepRun CaseStop None; StepRun CaseStop (Some "down"%string)] ++ replicate 5 (StepRun CaseStop None) ++
  replicate 3 (StepRun CaseStop None) ++ [StepReport CaseRecord; StepReport CaseStop; StepReport CaseStop;
  StepReport CaseStop; StepRun CaseStop None].

Definition or_start (s : option wsys) : wsys := default (writer_start small_writer) s.

Definition draining : wsys := or_start (perform_all draining_run (writer_start small_writer)).
Definition closed : wsys := or_start (perform_all closing_run draining).

Lemma draining_is : perform_all draining_run (writer_start small_writer) = Some draining.
Proof. vm_compute. reflexivity. Qed.

Lemma closed_is : perform_all closing_run draining = Some closed.
Proof. vm_compute. reflexivity. Qed.

Lemma closed_done : w_done (ws_w closed) = true.
Proof. vm_compute. reflexivity. Qed.

Lemma draining_reached : wsys_reach small_writer draining.
Proof.
  apply (perform_reach draining_run small_writer (writer_start small_writer)); [constructor|].
  exact draining_is.
Qed.

Lemma closed_reached : wsys_reach small_writer closed.
Proof. apply (perform_reach closing_run small_writer draining); [exact draining_reached|exact closed_is]. Qed.

Definition returned (pc : call_pc) : bool := match pc with CallReturned _ => true | _ => false end.

Lemma all_returned_check s :
  forallb (fun kv => returned kv.2) (map_to_list (ws_calls s)) = true -> all_returned s.
Proof.
  rewrite forallb_forall. intros Hf id pc Hid.
  apply elem_of_map_to_list, list_elem_of_In in Hid. specialize (Hf _ Hid).
  destruct pc as [| | | | | | | | |accepted]; try done. by exists accepted.
Qed.

Lemma closed_returned : all_returned closed.
Proof. apply all_returned_check. vm_compute. reflexivity. Qed.

Lemma draining_mode : rn_draining (ws_rn draining) = true.
Proof. vm_compute. reflexivity. Qed.

Lemma ledger_queue_fifo_witness :
  concat (fst <$> ws_log draining) ++ unlogged (ws_rn draining) ++ w_queue (ws_w draining) = ws_sent draining /\
  Forall (fun e => batch_fits (w_options (ws_w draining)) e.1) (ws_log draining) /\
  Z.of_nat (length (w_queue (ws_w draining))) <= ao_QueueCapacity (w_options (ws_w draining)).
Proof.
  apply (ledger_queue_fifo true small_options small_writer draining);
    [exact small_writer_new|exact draining_reached].
Defined.

Lemma ledger_accounts_for_every_record_witness :
  w_queue (ws_w closed) = [] /\ rn_batch (ws_rn closed) = [] /\
  concat (fst <$> ws_log closed) = ws_sent closed /\
  w_enqueued (ws_w closed) = uint64 (Z.of_nat (length (ws_sent closed))) /\
  w_written (ws_w closed) = uint64 (log_count true (ws_log closed)) /\
  uint64 (w_written (ws_w closed) + w_lost (ws_w closed)) = uint64 (Z.of_nat (size (ws_calls closed))).
Proof.
  apply (ledger_accounts_for_every_record true small_options small_writer closed);
    [exact small_writer_new|exact closed_reached|exact closed_done|exact closed_returned].
Defined.

Lemma ledger_drain_terminates_witness :
  0 <= drain_work (ws_w draining) (ws_rn draining).
Proof.
  apply (ledger_drain_terminates true small_options small_writer draining);
    [exact small_writer_new|exact draining_reached|exact draining_mode].
Defined.

Lemma ledger_retry_delay_witness :
  0 < retry_delay (w_options small_writer) 0 <= Minute.
Proof. apply (ledger_retry_delay true small_options small_writer 0). exact small_writer_new. Defined.
End Runs.
