(* ===== verification/Gateway.v ===== *)
(** * Operations and classifications of the gateway ([pkg/gateway])

    The operations a handler serves and how they are presented to an upstream
    ([responses.go], [anthropic.go], [gemini.go], [bedrock.go]), how statuses
    and errors are classified ([chatcompletions.go], [retry.go],
    [observation.go]), and the ledger record a request keeps while it is served
    ([requestObservation]).  A response header is a map from canonical names to
    values. *)

From stdpp Require Import base gmap list strings pretty.
From Stdlib Require Import Ascii ZArith Lia.
From S2P Require Import Prelude GoStrings Policies Capabilities Config Fields.
From S2P Require Import Ledger Lifecycle LifecycleStatus Admission Targets Picker Plan.

Local Open Scope Z_scope.

(** ** HTTP statuses *)
Definition StatusBadRequest : Z := 400.
Definition StatusUnauthorized : Z := 401.
Definition StatusForbidden : Z := 403.
Definition StatusNotFound : Z := 404.
Definition StatusRequestTimeout : Z := 408.
Definition StatusFailedDependency : Z := 424.
Definition StatusTooManyRequests : Z := 429.
Definition StatusInternalServerError : Z := 500.
Definition StatusBadGateway : Z := 502.
Definition StatusServiceUnavailable : Z := 503.
Definition StatusGatewayTimeout : Z := 504.

(** ** Operations *)
Inductive openAIOperation :=
  | openAIOperationChatCompletions
  | openAIOperationResponses
  | openAIOperationResponsesCompact
  | openAIOperationEmbeddings
  | anthropicOperationMessages
  | anthropicOperationCountTokens
  | geminiOperationGenerateContent
  | geminiOperationStreamContent
  | geminiOperationCountTokens
  | geminiOperationEmbedContent
  | geminiOperationBatchEmbed
  | bedrockOperationConverse
  | bedrockOperationConverseStream.

#[export] Instance openAIOperation_eq_dec : EqDecision openAIOperation.
Proof. solve_decision. Defined.

(** [openAIOperation.String] *)
Definition operation_String (o : openAIOperation) : string :=
  match o with
  | openAIOperationChatCompletions => "chat_completions"
  | openAIOperationResponses => "responses"
  | openAIOperationResponsesCompact => "responses_compact"
  | openAIOperationEmbeddings => "embeddings"
  | anthropicOperationMessages => "messages"
  | anthropicOperationCountTokens => "messages_count_tokens"
  | geminiOperationGenerateContent => "generate_content"
  | geminiOperationStreamContent => "stream_generate_content"
  | geminiOperationCountTokens => "count_tokens"
  | geminiOperationEmbedContent => "embed_content"
  | geminiOperationBatchEmbed => "batch_embed_contents"
  | bedrockOperationConverse => "converse"
  | bedrockOperationConverseStream => "converse_stream"
  end.

Definition isAnthropic (o : openAIOperation) : bool :=
  bool_decide (o = anthropicOperationMessages) || bool_decide (o = anthropicOperationCountTokens).

Definition isGemini (o : openAIOperation) : bool :=
  match o with
  | geminiOperationGenerateContent | geminiOperationStreamContent | geminiOperationCountTokens
  | geminiOperationEmbedContent | geminiOperationBatchEmbed => true
  | _ => false
  end.

Definition isBedrock (o : openAIOperation) : bool :=
  bool_decide (o = bedrockOperationConverse) || bool_decide (o = bedrockOperationConverseStream).

Definition responseName (o : openAIOperation) : string :=
  match o with
  | openAIOperationResponses => "Responses"
  | openAIOperationResponsesCompact => "Responses compact"
  | openAIOperationEmbeddings => "Embeddings"
  | anthropicOperationMessages => "Anthropic Messages"
  | anthropicOperationCountTokens => "Anthropic token-count"
  | geminiOperationGenerateContent => "Gemini GenerateContent"
  | geminiOperationStreamContent => "Gemini streamGenerateContent"
  | geminiOperationCountTokens => "Gemini token-count"
  | geminiOperationEmbedContent => "Gemini EmbedContent"
  | geminiOperationBatchEmbed => "Gemini BatchEmbedContents"
  | bedrockOperationConverse => "Bedrock Converse"
  | bedrockOperationConverseStream => "Bedrock ConverseStream"
  | openAIOperationChatCompletions => "Chat Completions"
  end.

(** [openAIOperation.protocol] *)
Definition operation_protocol (o : openAIOperation) : string :=
  if isAnthropic o then "anthropic"
  else if isGemini o then "gemini"
  else if isBedrock o then "bedrock"
  else "openai".

Definition upstreamOperationForProtocol (o : openAIOperation) (protocol : string) (streaming : bool)
  : openAIOperation :=
  if bool_decide (o = openAIOperationChatCompletions) && String.eqb protocol ProtocolBedrock then
    if streaming then bedrockOperationConverseStream else bedrockOperationConverse
  else if bool_decide (o = openAIOperationChatCompletions) && String.eqb protocol ProtocolAnthropic
  then anthropicOperationMessages
  else if bool_decide (o = openAIOperationChatCompletions) && String.eqb protocol ProtocolGemini then
    if streaming then geminiOperationStreamContent else geminiOperationGenerateContent
  else if bool_decide (o = openAIOperationEmbeddings) && String.eqb protocol ProtocolGemini
  then geminiOperationEmbedContent
  else o.

Definition selectionUpstreamProtocol (selection : Selection) : string :=
  if negb (String.eqb (sel_UpstreamProtocol selection) "") then sel_UpstreamProtocol selection
  else ProtocolForProviderType (prov_Type (sel_Provider selection)).

Definition upstreamOperationForSelection (operation : openAIOperation) (selection : Selection)
    (streaming : bool) : openAIOperation :=
  let protocol := selectionUpstreamProtocol selection in
  if bool_decide (operation = openAIOperationResponses) && String.eqb protocol ProtocolOpenAI &&
     negb (sel_NativeProtocol selection)
  then openAIOperationChatCompletions
  else upstreamOperationForProtocol operation protocol streaming.

Definition anthropicBetaCapability : string := "x-anthropic-beta.".

Definition requiresSingleAttempt (o : openAIOperation) (required : list Capability) : bool :=
  if isGemini o then
    existsb (fun capability =>
      String.eqb capability CapabilityProviderTools ||
      String.eqb capability CapabilityStoredCompletion ||
      String.eqb capability CapabilityPromptCaching) required
  else if isBedrock o then
    existsb (fun capability =>
      String.eqb capability CapabilityProviderTools ||
      String.eqb capability CapabilityPromptCaching) required
  else if negb (bool_decide (o = anthropicOperationMessages)) then false
  else
    existsb (fun capability =>
      String.eqb capability CapabilityProviderTools ||
      String.eqb capability CapabilityPromptCaching ||
      String.prefix anthropicBetaCapability capability) required.

(** The status test of every operation, and that of an operation. *)
Definition isRetryableStatus (status : Z) : bool :=
  bool_decide (status ∈
    [StatusRequestTimeout; StatusUnauthorized; StatusForbidden; StatusNotFound;
     StatusTooManyRequests; StatusInternalServerError; StatusBadGateway;
     StatusServiceUnavailable; StatusGatewayTimeout; 529]).

Definition operation_isRetryableStatus (o : openAIOperation) (status : Z) : bool :=
  isRetryableStatus status || isBedrock o && (status =? StatusFailedDependency).

(** [presentedModelName]: the name and whether the response is rewritten. *)
Definition presentedModelName (selection : Selection) : string * bool :=
  if String.eqb (sel_ResponseModel selection) ResponseModelUpstream then (""%string, false)
  else if String.eqb (sel_ResponseModel selection) ResponseModelRequested
  then (sel_RequestedModel selection, true)
  else (sel_VirtualModel selection, true).

(** ** Proxied responses *)
Record proxyResult := mkProxyResult {
  px_gatewayStatus : Z;
  px_outcome : string;
  px_failureClass : string;
  px_usage : TokenUsage;
  px_postGuardrailTerminated : bool;
}.

Definition targetResultForProxy (operation : openAIOperation) (selection : Selection) (status : Z)
    (result : proxyResult) : TargetResult :=
  if String.eqb (px_outcome result) OutcomeSuccess then TargetSuccess
  else if String.eqb (px_outcome result) OutcomeClientCancelled then TargetNeutral
  else if String.eqb (px_outcome result) OutcomeStreamError then TargetFailure
  else if operation_isRetryableStatus (upstreamOperationForSelection operation selection false) status
          || (200 <=? status) && (status <? 300)
  then TargetFailure
  else TargetNeutral.

(** [streamFailure]: [contextError] is whether the context has ended. *)
Definition streamFailure (contextError idleTimedOut : bool) : string * string :=
  if idleTimedOut then (OutcomeStreamError, "stream_idle_timeout"%string)
  else if contextError then (OutcomeClientCancelled, "client_cancelled"%string)
  else (OutcomeStreamError, "response_stream_error"%string).

(** ** Failures *)
Definition is_queue_full (e : error) : bool := match e with ErrQueueFull => true | _ => false end.
Definition is_cold_start_rejected (e : error) : bool :=
  match e with ErrColdStartRejected => true | _ => false end.
Definition is_not_ready (e : error) : bool := match e with ErrEndpointNotReady => true | _ => false end.

(** [lifecycleAdmissionFailure]: status, outcome, failure class, message. *)
Definition lifecycleAdmissionFailure (err : error) (callerCancelled : bool)
  : Z * string * string * string :=
  (if callerCancelled || errors_Is is_canceled err then
    (0, OutcomeClientCancelled, "client_cancelled", "request was cancelled")
  else if errors_Is is_deadline err then
    (StatusGatewayTimeout, OutcomeTransportError, "activation_timeout",
     "the model did not become ready before the request deadline")
  else if errors_Is is_queue_full err then
    (StatusServiceUnavailable, OutcomeExhausted, "cold_start_queue_full",
     "the model cold-start queue has no capacity")
  else if errors_Is is_queue_bytes err then
    (StatusServiceUnavailable, OutcomeExhausted, "cold_start_queue_bytes_exceeded",
     "the model cold-start byte queue has no capacity")
  else if errors_Is is_cold_start_rejected err then
    (StatusServiceUnavailable, OutcomeExhausted, "cold_start_rejected",
     "the model is cold and waiting is disabled")
  else if errors_Is is_not_ready err then
    (StatusServiceUnavailable, OutcomeExhausted, "endpoint_not_ready",
     "the deployment has no ready endpoint")
  else if errors_Is is_invalid_endpoint err then
    (StatusServiceUnavailable, OutcomeConfigError, "invalid_runtime_endpoint",
     "the runtime controller returned an unusable endpoint")
  else
    (StatusServiceUnavailable, OutcomeUpstreamError, "activation_failed",
     "the model could not be activated"))%string.

(** [errors.As(err, &admissionErr)]: the [RetryAfter] of the first
    [AdmissionError] of the chain. *)
Definition admission_retry_after (err : error) : option Z :=
  match err with AdmissionError _ retryAfter _ => Some retryAfter | _ => None end.

Definition retryFailureClass (err : error) : string :=
  if errors_Is is_deadline err then "retry_deadline_exceeded"
  else if errors_Is is_canceled err then "retry_delay_cancelled"
  else "retry_delay_error".

(** [timerRetrySleeper.Sleep]: [ended] is the context's error if it has ended
    at once, [fires] whether the timer fires before the context ends, with the
    error [later]. *)
Definition timerRetrySleeper_Sleep (delay : Z) (ended : option error) (fires : bool) (later : error)
  : option error :=
  if delay <=? 0 then ended else if fires then None else Some later.

(** [Duration.Round]: to the nearest multiple, halfway values away from zero,
    saturating at the bounds of a [Duration]. *)
Definition Duration_Round (d m : Z) : Z :=
  if m <=? 0 then d
  else
    let r := Z.rem d m in
    if d <? 0 then
      let r := - r in
      if r + r <? m then d + r
      else let d1 := int64 (d - m + r) in if d1 <? d then d1 else MinInt64
    else if r + r <? m then d - r
    else let d1 := int64 (d + m - r) in if d <? d1 then d1 else MaxInt64.

(** The [Retry-After] of an admission error, in whole seconds. *)
Definition retry_after_seconds (retryAfter : Z) : Z :=
  Z.max 1 (Z.quot (Duration_Round retryAfter Second) Second).

Definition restartableFailure (status : Z) (failureClass : string) : bool :=
  if (status =? 429) || (status =? 503) || (400 <=? status) && (status <? 500) then false
  else if (500 <=? status) && (status <=? 599) then true
  else bool_decide (failureClass ∈
    ["upstream_transport_error"; "upstream_transport"; "per_try_timeout"; "stream_idle_timeout";
     "stream_read_error"; "upstream_read_error"; "response_stream_error"]%string).

(** ** Response headers *)
Definition Header : Type := gmap string (list string).

(** [http.Header.Get] of a canonical name. *)
Definition Header_Get (h : Header) (name : string) : string :=
  match h !! name with Some (value :: _) => value | _ => "" end.

(** [http.Header.Set] of a canonical name. *)
Definition Header_Set (h : Header) (name value : string) : Header := <[name := [value]]> h.

Fixpoint first_request_id (h : Header) (names : list string) : string :=
  match names with
  | [] => ""
  | name :: names =>
      let value := Header_Get h name in
      if negb (String.eqb value "") then String.substring 0 512 value
      else first_request_id h names
  end.

Definition upstreamRequestID (h : Header) : string :=
  first_request_id h
    ["X-Request-Id"; "Request-Id"; "X-Upstream-Request-Id"; "X-Amzn-Requestid"]%string.

(** What [sendUpstream] answers, without the body. *)
Record Response := mkResponse {
  resp_StatusCode : Z;
  resp_Header : Header;
}.

(** ** Ledger records *)
Definition missingUsage : TokenUsage :=
  mkTokenUsage None None None None None None None None None ∅ "" UsageMissing "".

(** The record [recordAttempt] writes. *)
Definition attempt_record (requestID : string) (attempt started : Z) (firstByte : option Z)
    (completed : Z) (selection : Selection) (status : Z) (upstreamRequestID outcome failureClass : string)
    (retried : bool) (usage : TokenUsage) : AttemptRecord :=
  mkAttemptRecord requestID attempt started firstByte completed
    (prov_Name (sel_Provider selection)) (dep_Name (sel_Deployment selection))
    (dep_Model (sel_Deployment selection)) (sel_PoolPriority selection) status upstreamRequestID
    outcome failureClass retried (time_Sub completed started) usage.

(** The outcome [recordAttempt] reports to a runtime controller: [lease] is the
    target's lease after its completion. *)
Definition request_outcome (lease : option TargetLease) (targetResult : TargetResult) (status : Z)
    (outcome failureClass : string) : RequestOutcome :=
  let success := String.eqb outcome OutcomeSuccess in
  match lease with
  | None => mkRequestOutcome false false false false success failureClass
  | Some l =>
      mkRequestOutcome (tl_HealthApplied l) (tl_CircuitOpened l) (tl_HalfOpenProbe l)
        (is_failure targetResult && restartableFailure status failureClass) success failureClass
  end.
