(* ===== verification/AttemptState.v ===== *)
(** * What an attempt reads, calls and changes ([pkg/gateway/chatcompletions.go])

    The variables of [chatCompletionsHandler.ServeHTTP] that its attempt loop
    reads ([Serve]) and assigns ([attemptState]), the calls it makes
    ([serveE]), and the request's ledger record ([requestObservation] of
    [observation.go]). *)

From stdpp Require Import base gmap list strings pretty.
From Stdlib Require Import Ascii ZArith Lia.
From S2P Require Import Prelude GoStrings Policies Capabilities Config Privacy Fields.
From S2P Require Import Endpoints Ledger Lifecycle LifecycleStatus Admission Targets Picker Plan.
From S2P Require Import RetryBudget Retry Gateway.

(** ** Programs with effects

    A sequential piece of the source that calls code outside the model is a
    finite tree of calls: [Do e k] makes the call [e] and continues with its
    answer.  Nothing is assumed of the answers, so a theorem about every run
    holds whatever the outside does; a program always ends, because the tree is
    inductive.  A monitor is an automaton over the calls and their answers, and
    [follows] the proof rule by which every run of a program is accepted. *)
Section Programs.
Context {E : Type -> Type}.

Inductive prog (A : Type) : Type :=
  | Ret (a : A)
  | Do {X : Type} (e : E X) (k : X -> prog A).
#[global] Arguments Ret {A} a.
#[global] Arguments Do {A X} e k.

Definition call {X} (e : E X) : prog X := Do e Ret.

Fixpoint prog_bind {A B} (f : A -> prog B) (p : prog A) : prog B :=
  match p with
  | Ret a => f a
  | Do e k => Do e (fun x => prog_bind f (k x))
  end.

#[export] Instance prog_mret : MRet prog := fun _ a => Ret a.
#[export] Instance prog_mbind : MBind prog := @prog_bind.

(** A call with its answer. *)
Inductive event :=
  | Event {X : Type} (e : E X) (x : X).

(** The complete runs of a program. *)
Inductive runs {A} : prog A -> list event -> A -> Prop :=
  | runs_ret a : runs (Ret a) [] a
  | runs_do {X} (e : E X) k x tr a : runs (k x) tr a -> runs (Do e k) (Event e x :: tr) a.

(** Running against a handler with a state. *)
Fixpoint exec {A S} (h : forall X, E X -> S -> X * S) (p : prog A) (s : S) : list event * A * S :=
  match p with
  | Ret a => ([], a, s)
  | Do e k =>
      let '(x, s) := h _ e s in
      let '(tr, a, s) := exec h (k x) s in
      (Event e x :: tr, a, s)
  end.

Lemma exec_runs {A S} h (p : prog A) (s : S) : runs p (exec h p s).1.1 (exec h p s).1.2.
Proof.
  revert s. induction p as [a|X e k IH]; intros s; simpl; [constructor|].
  destruct (h X e s) as [x s1]. specialize (IH x s1).
  destruct (exec h (k x) s1) as [[tr a] s2]. by constructor.
Qed.

(** ** Monitors *)
Section Monitor.
Context {M : Type} (step : M -> forall X, E X -> X -> option M).

Definition step_event (m : M) (ev : event) : option M :=
  match ev with Event e x => step m _ e x end.

Fixpoint accepts (m : M) (tr : list event) : option M :=
  match tr with
  | [] => Some m
  | ev :: tr => match step_event m ev with Some m => accepts m tr | None => None end
  end.

(** Whatever the answers, the monitor accepts every call of [p], and [Q] holds
    of the result and the monitor at the end. *)
Fixpoint follows {A} (p : prog A) (Q : A -> M -> Prop) (m : M) : Prop :=
  match p with
  | Ret a => Q a m
  | Do e k => forall x, match step m _ e x with Some m => follows (k x) Q m | None => False end
  end.

Lemma follows_mono {A} (p : prog A) (Q Q' : A -> M -> Prop) m :
  follows p Q m -> (forall a m, Q a m -> Q' a m) -> follows p Q' m.
Proof.
  intros H HQ. revert m H. induction p as [a|X e k IH]; simpl; intros m H; [auto|].
  intros x. specialize (H x). destruct (step m X e x); [by apply IH|done].
Qed.

Lemma follows_bind {A B} (p : prog A) (f : A -> prog B) Q m :
  follows p (fun a => follows (f a) Q) m -> follows (p ≫= f) Q m.
Proof.
  revert m. induction p as [a|X e k IH]; intros m H; [done|].
  intros x. specialize (H x). destruct (step m X e x); [by apply IH|done].
Qed.

Lemma follows_runs {A} (p : prog A) Q m tr a :
  follows p Q m -> runs p tr a -> exists m', accepts m tr = Some m' /\ Q a m'.
Proof.
  intros H Hr. revert m H. induction Hr as [a|X e k x tr a Hr IH]; intros m H; [by exists m|].
  specialize (H x). simpl. destruct (step m X e x); [by apply IH|done].
Qed.

(** Running against a handler while the monitor accepts: a relation between the
    monitor and the handler's state that every accepted call keeps holds at the
    end. *)
Lemma exec_follows {A S} (h : forall X, E X -> S -> X * S) (R : M -> S -> Prop) (p : prog A) Q m w :
  (forall m X (e : E X) w m', R m w -> step m X e (h X e w).1 = Some m' -> R m' (h X e w).2) ->
  follows p Q m -> R m w ->
  exists m', Q (exec h p w).1.2 m' /\ R m' (exec h p w).2.
Proof.
  intros Hstep. revert m w. induction p as [a|X e k IH]; intros m w Hf Hr; [by exists m|].
  cbn in Hf. cbn [exec]. specialize (Hf (h X e w).1). pose proof (Hstep m X e w) as Hs.
  destruct (h X e w) as [x w1]. cbn in *. destruct (step m X e x) as [m1|]; [|done].
  specialize (IH x m1 w1 Hf (Hs m1 Hr eq_refl)). by destruct (exec h (k x) w1) as [[tr a] w2].
Qed.

Lemma accepts_app m tr1 tr2 :
  accepts m (tr1 ++ tr2) =
    match accepts m tr1 with Some m => accepts m tr2 | None => None end.
Proof.
  revert m. induction tr1 as [|ev tr1 IH]; intros m; simpl; [done|].
  by destruct (step_event m ev).
Qed.

(** What an accepted trace leaves unchanged or relates, step by step. *)
Lemma accepts_invariant (I : list event -> M -> Prop) m0 tr m :
  I [] m0 ->
  (forall tr m ev m', I tr m -> step_event m ev = Some m' -> I (tr ++ [ev]) m') ->
  accepts m0 tr = Some m -> I tr m.
Proof.
  intros H0 Hstep. revert m. induction tr as [|ev tr IH] using rev_ind; intros m.
  - simpl. by intros [= <-].
  - rewrite accepts_app. destruct (accepts m0 tr) as [m1|] eqn:E1; [|done]. simpl.
    destruct (step_event m1 ev) as [m2|] eqn:E2; [|done]. intros [= <-]. eauto.
Qed.

Lemma accepts_prefix m tr1 tr2 m' :
  accepts m (tr1 ++ tr2) = Some m' -> exists m1, accepts m tr1 = Some m1.
Proof. rewrite accepts_app. destruct (accepts m tr1); [eauto|done]. Qed.
End Monitor.
End Programs.

#[global] Arguments prog E A : clear implicits.
#[global] Arguments event E : clear implicits.

Local Open Scope Z_scope.

(** ** What the handler holds when the loop starts *)

Record preparedProfileRequest := mkPreparedProfileRequest {
  ppr_body : string;
  ppr_route : ProtocolRoute;
  ppr_embeddingDimensions : Z;
  ppr_embeddingInputCount : Z;
}.

(** The zero value a missing map entry reads as. *)
Definition no_profile_request : preparedProfileRequest :=
  mkPreparedProfileRequest "" (mkProtocolRoute "" false []) 0 0.

(** The variables of [ServeHTTP] that the loop reads: [sv_lifecycle] is
    [h.lifecycle], [sv_profile] is [model.Profile], [sv_pii] the policy of a
    non-nil [piiSession], [sv_embedding] the embedding fields of
    [responseState], [sv_postGuardrails] is [len(guardrails.Post) != 0],
    [sv_overallDeadline] the deadline of [overallContext]. *)
Record Serve := mkServe {
  sv_plan : Plan;
  sv_operation : openAIOperation;
  sv_lifecycle : option AdmissionCoordinator;
  sv_requestID : string;
  sv_streaming : bool;
  sv_overallDeadline : Z;
  sv_raw : string;
  sv_profile : option string;
  sv_profileRequests : gmap string preparedProfileRequest;
  sv_bedrockChatBody : string;
  sv_anthropicChatBody : string;
  sv_geminiChatBody : string;
  sv_geminiEmbeddingBody : string;
  sv_geminiEmbeddingInputCount : Z;
  sv_responsesChatBody : string;
  sv_embedding : Z * Z;
  sv_postGuardrails : bool;
  sv_pii : option EffectivePIIPolicy;
}.

(** ** Calls

    [ReserveRetry] is [reserveRetry]: a reservation, or the stop reason and the
    error of a nil one.  [AcquireRuntime] is [AdmissionCoordinator.Acquire] of a
    target that is not static, which never grants a nil lease. *)
Record AttemptStart := mkAttemptStart {
  as_VirtualModel : string;
  as_Provider : string;
  as_Deployment : string;
  as_UpstreamModel : string;
  as_UpstreamProtocol : string;
  as_NativeProtocol : bool;
  as_RequiredCapabilities : list Capability;
  as_CircuitState : CircuitState;
  as_HalfOpenProbe : bool;
  as_ActiveAtAdmission : Z;
  as_RetryReason : string;
  as_RetryDelay : Z;
  as_Attempt : Z;
  as_PoolPriority : Z;
}.

(** [guardrailResult] *)
Record guardrailResult := mkGuardrailResult {
  gr_body : string;
  gr_blocked : bool;
  gr_failed : bool;
}.

(** An error of [sendUpstream]; [ue_continuation] is
    [errors.Is(err, errUpstreamContinuation)]. *)
Record upstream_error := mkUpstreamError {
  ue_error : error;
  ue_continuation : bool;
}.

(** The rewritings of a request body that can fail. *)
Inductive rewriting :=
  | rewriteTranslatedAnthropicModel
  | rewriteGeminiBatchEmbeddingModel
  | rewriteTranslatedOpenAIModel
  | rewriteRequest.

Inductive serveE : Type -> Type :=
  (* clock and contexts *)
  | TimeNow : serveE Z
  | CallerDone : serveE bool
  | OverallExpired : serveE bool
  | AttemptExpired : serveE bool
  | RequestDone : serveE bool
  | WithTimeout (timeout : Z) : serveE unit
  | CancelAttempt : serveE unit
  (* admission *)
  | AcquireTarget (deployment : string) : serveE (option TargetLease)
  | CompleteTarget (lease : option TargetLease) (result : TargetResult) (failureClass : string)
      : serveE (option TargetLease)
  | AcquireRuntime (request : AdmissionRequest) : serveE (error + AdmissionLease)
  | ReleaseRuntime (lease : AdmissionLease) (outcome : RequestOutcome) : serveE unit
  (* retries *)
  | BeginBudgetRequest : serveE unit
  | ReserveRetry (retryNumber : Z) (retryAfter reason : string)
      : serveE ((retryStopReason * option string) + retryReservation)
  | ReleaseRetry (lease : retryBudgetLease) : serveE unit
  | RecordRetryDelay (reason : string) (delay : Z) : serveE unit
  | SleepRetry (delay : Z) : serveE (option error)
  | EndBudgetRequest : serveE unit
  (* the upstream *)
  | RewriteBody (how : rewriting) (body model : string) : serveE (error + string)
  | ApplyExtraBodyDefaults (body : string) (selection : Selection) : serveE (error + string)
  | BuildUpstreamRequest (selection : Selection) (body : string) : serveE (option error)
  | SendUpstream (selection : Selection) : serveE (upstream_error + Response)
  | CloseBody : serveE unit
  | ProxyResponse (buffered : bool) (attempts : Z) (selection : Selection) (response : Response)
      (embedding : Z * Z)
      : serveE proxyResult
  (* delivery *)
  | BufferedBody : serveE string
  | RedactPIIResponse (body : string) : serveE (error + string)
  | RestorePIIResponse (body : string) : serveE (error + string)
  | RedactAllStrings (body : string) : serveE (error + string)
  | RestoreAllStrings (body : string) : serveE (error + string)
  | ApplyPostGuardrails (body : string) : serveE guardrailResult
  | RecordPrivacyFailure : serveE unit
  | WriteBufferedResponse (body : string) : serveE (option error)
  | WriteError (status : Z) (code message : string) : serveE unit
  | SetAttemptCount (attempts : Z) : serveE unit
  | SetRetryAfter (seconds : Z) : serveE unit
  (* telemetry, traces and the ledger *)
  | StartAttempt (start : AttemptStart) : serveE unit
  | EndAttempt (record : AttemptRecord) : serveE unit
  | RecordLedger (record : LedgerRecord) : serveE unit
  | EndRequest (record : RequestRecord) : serveE unit
  | TraceProfile (selector deployment : string) : serveE unit
  | DisableSavedTrace : serveE unit
  | OverrideCapture (body : string) : serveE unit
  | FinishSavedTrace : serveE unit
  | RecordPromptAffinity (selection : Selection) (now : Z) : serveE unit.

Notation proc := (prog serveE).

(** ** Loop state

    The variables the loop assigns: [st_err] is the [err] of [ServeHTTP], which
    an iteration inherits from the one before, [st_embedding] the embedding
    dimensions and input count of [responseState], [st_record] the request's
    ledger record. *)
Record attemptState := mkAttemptState {
  st_attempts : Z;
  st_finalStatus : Z;
  st_finalCode : string;
  st_finalMessage : string;
  st_activeRetry : option retryBudgetLease;
  st_activeRetryReason : string;
  st_activeRetryDelay : Z;
  st_err : option error;
  st_embedding : Z * Z;
  st_record : RequestRecord;
}.

Definition initial_state (embedding : Z * Z) (record : RequestRecord) : attemptState :=
  mkAttemptState 0 StatusBadGateway "upstream_attempts_exhausted"
    "all eligible upstream attempts failed before a response was committed" None "" 0 None embedding record.

Definition set_attempts (v : Z) (st : attemptState) : attemptState :=
  mkAttemptState v (st_finalStatus st) (st_finalCode st) (st_finalMessage st) (st_activeRetry st)
    (st_activeRetryReason st) (st_activeRetryDelay st) (st_err st) (st_embedding st) (st_record st).
Definition set_final (status : Z) (code message : string) (st : attemptState) : attemptState :=
  mkAttemptState (st_attempts st) status code message (st_activeRetry st)
    (st_activeRetryReason st) (st_activeRetryDelay st) (st_err st) (st_embedding st) (st_record st).
Definition set_retry (lease : option retryBudgetLease) (reason : string) (delay : Z)
    (st : attemptState) : attemptState :=
  mkAttemptState (st_attempts st) (st_finalStatus st) (st_finalCode st) (st_finalMessage st)
    lease reason delay (st_err st) (st_embedding st) (st_record st).
Definition set_err (err : option error) (st : attemptState) : attemptState :=
  mkAttemptState (st_attempts st) (st_finalStatus st) (st_finalCode st) (st_finalMessage st)
    (st_activeRetry st) (st_activeRetryReason st) (st_activeRetryDelay st) err (st_embedding st) (st_record st).
Definition set_embedding (embedding : Z * Z) (st : attemptState) : attemptState :=
  mkAttemptState (st_attempts st) (st_finalStatus st) (st_finalCode st) (st_finalMessage st)
    (st_activeRetry st) (st_activeRetryReason st) (st_activeRetryDelay st) (st_err st) embedding
    (st_record st).
Definition set_record (record : RequestRecord) (st : attemptState) : attemptState :=
  mkAttemptState (st_attempts st) (st_finalStatus st) (st_finalCode st) (st_finalMessage st)
    (st_activeRetry st) (st_activeRetryReason st) (st_activeRetryDelay st) (st_err st) (st_embedding st) record.

(** ** The request's record ([requestObservation]) *)

(** [requestObservation.fail] *)
Definition observation_fail (status : Z) (outcome failureClass : string) (r : RequestRecord)
  : RequestRecord :=
  mkRequestRecord (rr_RequestID r) (rr_StartedAt r) (rr_CompletedAt r) (rr_PrincipalID r)
    (rr_PrincipalType r) (rr_PrincipalSubject r) (rr_PrincipalRoles r) (rr_TenantID r)
    (rr_Attribution r) (rr_Protocol r) (rr_Operation r) (rr_Stream r) (rr_RequestedModel r)
    (rr_VirtualModel r) (rr_ResponsePresentedModel r) (rr_ConfigRevision r) (rr_FinalProvider r)
    (rr_FinalDeployment r) (rr_FinalUpstreamModel r) (rr_AttemptCount r) status outcome failureClass
    (rr_Latency r) (rr_TimeToFirstByte r) (rr_Usage r).

Definition set_AttemptCount (attempts : Z) (r : RequestRecord) : RequestRecord :=
  mkRequestRecord (rr_RequestID r) (rr_StartedAt r) (rr_CompletedAt r) (rr_PrincipalID r)
    (rr_PrincipalType r) (rr_PrincipalSubject r) (rr_PrincipalRoles r) (rr_TenantID r)
    (rr_Attribution r) (rr_Protocol r) (rr_Operation r) (rr_Stream r) (rr_RequestedModel r)
    (rr_VirtualModel r) (rr_ResponsePresentedModel r) (rr_ConfigRevision r) (rr_FinalProvider r)
    (rr_FinalDeployment r) (rr_FinalUpstreamModel r) attempts (rr_HTTPStatus r) (rr_Outcome r)
    (rr_FailureClass r) (rr_Latency r) (rr_TimeToFirstByte r) (rr_Usage r).

(** [requestObservation.selectFinal] *)
Definition selectFinal (selection : Selection) (attempts firstByte : Z) (r : RequestRecord)
  : RequestRecord :=
  let presented :=
    let '(name, rewritten) := presentedModelName selection in
    if rewritten : bool then name else dep_Model (sel_Deployment selection) in
  mkRequestRecord (rr_RequestID r) (rr_StartedAt r) (rr_CompletedAt r) (rr_PrincipalID r)
    (rr_PrincipalType r) (rr_PrincipalSubject r) (rr_PrincipalRoles r) (rr_TenantID r)
    (rr_Attribution r) (rr_Protocol r) (rr_Operation r) (rr_Stream r) (rr_RequestedModel r)
    (rr_VirtualModel r) presented (rr_ConfigRevision r) (prov_Name (sel_Provider selection))
    (dep_Name (sel_Deployment selection)) (dep_Model (sel_Deployment selection)) attempts
    (rr_HTTPStatus r) (rr_Outcome r) (rr_FailureClass r) (rr_Latency r)
    (Some (time_Sub firstByte (rr_StartedAt r))) (rr_Usage r).

(** [requestObservation.completeResponse] *)
Definition completeResponse (result : proxyResult) (r : RequestRecord) : RequestRecord :=
  mkRequestRecord (rr_RequestID r) (rr_StartedAt r) (rr_CompletedAt r) (rr_PrincipalID r)
    (rr_PrincipalType r) (rr_PrincipalSubject r) (rr_PrincipalRoles r) (rr_TenantID r)
    (rr_Attribution r) (rr_Protocol r) (rr_Operation r) (rr_Stream r) (rr_RequestedModel r)
    (rr_VirtualModel r) (rr_ResponsePresentedModel r) (rr_ConfigRevision r) (rr_FinalProvider r)
    (rr_FinalDeployment r) (rr_FinalUpstreamModel r) (rr_AttemptCount r) (px_gatewayStatus result)
    (px_outcome result) (px_failureClass result) (rr_Latency r) (rr_TimeToFirstByte r)
    (px_usage result).

(** The record [requestObservation.finish] writes. *)
Definition finish_record (completed : Z) (r : RequestRecord) : RequestRecord :=
  mkRequestRecord (rr_RequestID r) (rr_StartedAt r) completed (rr_PrincipalID r)
    (rr_PrincipalType r) (rr_PrincipalSubject r) (rr_PrincipalRoles r) (rr_TenantID r)
    (rr_Attribution r) (rr_Protocol r) (rr_Operation r) (rr_Stream r) (rr_RequestedModel r)
    (rr_VirtualModel r) (rr_ResponsePresentedModel r) (rr_ConfigRevision r) (rr_FinalProvider r)
    (rr_FinalDeployment r) (rr_FinalUpstreamModel r) (rr_AttemptCount r) (rr_HTTPStatus r)
    (rr_Outcome r) (rr_FailureClass r) (time_Sub completed (rr_StartedAt r))
    (rr_TimeToFirstByte r) (rr_Usage r).

(** [requestObservation.resolve] *)
Definition resolve (plan : Plan) (streaming : bool) (r : RequestRecord) : RequestRecord :=
  mkRequestRecord (rr_RequestID r) (rr_StartedAt r) (rr_CompletedAt r) (rr_PrincipalID r)
    (rr_PrincipalType r) (rr_PrincipalSubject r) (rr_PrincipalRoles r) (rr_TenantID r)
    (rr_Attribution r) (rr_Protocol r) (rr_Operation r) streaming (plan_RequestedModel plan)
    (plan_VirtualModel plan) (rr_ResponsePresentedModel r) (rr_ConfigRevision r)
    (rr_FinalProvider r) (rr_FinalDeployment r) (rr_FinalUpstreamModel r) (rr_AttemptCount r)
    (rr_HTTPStatus r) (rr_Outcome r) (rr_FailureClass r) (rr_Latency r) (rr_TimeToFirstByte r)
    (rr_Usage r).
