(* ===== verification/Attempts.v ===== *)
(** * The attempts of a request ([pkg/gateway/chatcompletions.go])

    The end of [chatCompletionsHandler.ServeHTTP]: the loop that offers a
    planned request to one candidate after the other, with admission, retries,
    the delivery of the response and the ledger records, as a program over its
    calls.  The answers of the calls are arbitrary: clocks, contexts, admission,
    the upstream, guardrails and PII transformation. *)

From stdpp Require Import base gmap list strings pretty.
From Stdlib Require Import Ascii ZArith Lia.
From S2P Require Import Prelude GoStrings Policies Capabilities Config Privacy Fields.
From S2P Require Import Endpoints Ledger Lifecycle LifecycleStatus Admission Targets Picker Plan.
From S2P Require Import RetryBudget Retry Gateway AttemptState.

Local Open Scope Z_scope.

(** ** The loop *)

(** How an iteration ends: [continue], [break] or [return]. *)
Inductive turn :=
  | Next (st : attemptState)
  | Break (st : attemptState)
  | Return (st : attemptState).

Section Loop.
Context (s : Serve).

(** *** Retries *)
Definition releaseActiveRetry (st : attemptState) : proc attemptState :=
  _ ← match st_activeRetry st with
      | Some lease => call (ReleaseRetry lease)
      | None => mret tt
      end;
  mret (set_retry None "" 0 st).

Definition scheduleRetry (canRetry : bool) (retryAfter reason : string) (st : attemptState)
  : proc (attemptState * bool * retryStopReason * option string) :=
  st ← releaseActiveRetry st;
  if negb canRetry then mret (st, false, retryPolicyDisabled, None)
  else
    reservation ← call (ReserveRetry (st_attempts st) retryAfter reason);
    match reservation with
    | inl (stop, err) => mret (st, false, stop, err)
    | inr r => mret (set_retry (Some (rr_lease r)) (rr_reason r) (rr_delay r) st, true, retryAllowed, None)
    end.

Definition applyRetryStop (stop : retryStopReason) (st : attemptState) : attemptState :=
  match stop with
  | retryBudgetDenied =>
      set_final StatusServiceUnavailable "retry_budget_exhausted"
        "the shared retry budget has no capacity" st
  | retryDeadline =>
      set_final StatusGatewayTimeout "request_timeout"
        "the request deadline does not permit another attempt" st
  | _ => st
  end.

Definition waitForRetry (st : attemptState) : proc (option error) :=
  _ ← call (RecordRetryDelay (st_activeRetryReason st) (st_activeRetryDelay st));
  call (SleepRetry (st_activeRetryDelay st)).

(** [fail] *)
Definition fail (status : Z) (outcome code message : string) (st : attemptState)
  : proc attemptState :=
  _ ← call (WriteError status code message);
  mret (set_record (observation_fail status outcome code (st_record st)) st).

(** [observation.record.AttemptCount = attempts] and the response header. *)
Definition count_attempts (st : attemptState) : proc attemptState :=
  _ ← call (SetAttemptCount (st_attempts st));
  mret (set_record (set_AttemptCount (st_attempts st) (st_record st)) st).

(** The record of a request whose caller is gone; nothing is written. *)
Definition client_cancelled (st : attemptState) : attemptState :=
  set_record (observation_fail 0 OutcomeClientCancelled "client_cancelled" (st_record st)) st.

Definition failRetryWait (waitErr : error) (st : attemptState) : proc attemptState :=
  st ← releaseActiveRetry st;
  st ← count_attempts st;
  callerDone ← call CallerDone;
  if callerDone : bool then mret (client_cancelled st)
  else
    expired ← if errors_Is is_deadline waitErr then mret true else call OverallExpired;
    if expired : bool then
      fail StatusGatewayTimeout OutcomeExhausted "request_timeout"
        "the request deadline expired before another attempt" st
    else
      fail StatusInternalServerError OutcomeConfigError (retryFailureClass waitErr)
        "could not schedule another upstream attempt" st.

(** What every failed attempt ends with. *)
Definition after_failure (willRetry : bool) (retryErr : option string) (st : attemptState)
  : proc turn :=
  match retryErr with
  | Some _ =>
      st ← releaseActiveRetry st;
      st ← count_attempts st;
      st ← fail StatusInternalServerError OutcomeConfigError "retry_scheduling_error"
             "could not schedule another upstream attempt" st;
      mret (Return st)
  | None =>
      if negb willRetry then mret (Break st)
      else
        waitErr ← waitForRetry st;
        match waitErr with
        | Some e => st ← failRetryWait e st; mret (Return st)
        | None => mret (Next st)
        end
  end.

(** *** Records *)
Definition release_runtime (outcome : RequestOutcome) (item : option AdmissionLease) : proc unit :=
  match sv_lifecycle s, item with
  | Some _, Some lease => call (ReleaseRuntime lease outcome)
  | _, _ => mret tt
  end.

Definition recordAttempt (lease : option TargetLease) (targetResult : TargetResult)
    (attempt started : Z) (firstByte : option Z) (selection : Selection) (status : Z)
    (outcome failureClass : string) (retried : bool) (upstreamRequestID : string)
    (usage : TokenUsage) (runtime : option AdmissionLease) : proc unit :=
  completed ← call TimeNow;
  let record := attempt_record (sv_requestID s) attempt started firstByte completed selection status
                  upstreamRequestID outcome failureClass retried usage in
  _ ← call (RecordLedger (NewAttemptRecord record));
  _ ← call (EndAttempt record);
  after ← call (CompleteTarget lease targetResult failureClass);
  let lease := lease ≫= (fun _ => after) in
  release_runtime (request_outcome lease targetResult status outcome failureClass) runtime.

(** [recordAttempt] of an attempt without a response. *)
Definition record_failure (lease : option TargetLease) (targetResult : TargetResult)
    (started : Z) (selection : Selection) (outcome failureClass : string) (retried : bool)
    (runtime : option AdmissionLease) (st : attemptState) : proc unit :=
  recordAttempt lease targetResult (st_attempts st) started None selection 0 outcome failureClass
    retried "" missingUsage runtime.

(** An attempt whose caller is gone. *)
Definition abandon (lease : option TargetLease) (started : Z) (selection : Selection)
    (outcome failureClass : string) (runtime : option AdmissionLease) (st : attemptState)
  : proc turn :=
  _ ← record_failure lease TargetNeutral started selection outcome failureClass false runtime st;
  st ← releaseActiveRetry st;
  mret (Return (client_cancelled (set_record (set_AttemptCount (st_attempts st) (st_record st)) st))).

(** *** Admission of an endpoint of the lifecycle coordinator *)
Definition activatable_candidate (name : string) : bool :=
  match sv_lifecycle s with Some c => IsActivatable c name | None => false end.

Definition runtime_request (selection : Selection) (candidateBytes : Z) : AdmissionRequest :=
  mkAdmissionRequest (dep_Name (sel_Deployment selection))
    (mkRequestFeatures (sel_Running selection) false (plan_VirtualModel (sv_plan s))
       (selectionUpstreamProtocol selection) (sv_streaming s))
    candidateBytes.

Definition is_policy_disabled (stop : retryStopReason) : bool :=
  match stop with retryPolicyDisabled => true | _ => false end.

(** [h.lifecycle.Acquire] failed. *)
Definition runtime_refused (err : error) (started : Z) (canRetry : bool) (selection : Selection)
    (rest : list Selection) (st : attemptState) : proc turn :=
  callerCancelled ← call CallerDone;
  let '(status, outcome, failureClass, message) := lifecycleAdmissionFailure err callerCancelled in
  _ ← call CancelAttempt;
  if callerCancelled : bool then abandon None started selection outcome failureClass None st
  else
    let canRetryActivation :=
      if negb (sel_Running selection) && activatable_candidate (dep_Name (sel_Deployment selection)) &&
         match rest with
         | next :: _ => activatable_candidate (dep_Name (sel_Deployment next))
         | [] => false
         end
      then false else canRetry in
    '(st, willRetry, stop, retryErr) ← scheduleRetry canRetryActivation "" failureClass st;
    let st := applyRetryStop stop st in
    st ← (if negb willRetry && is_policy_disabled stop then
            let st := set_final status failureClass message st in
            match admission_retry_after err with
            | Some retryAfter =>
                if 0 <? retryAfter then
                  _ ← call (SetRetryAfter (retry_after_seconds retryAfter)); mret st
                else mret st
            | None => mret st
            end
          else mret st);
    _ ← record_failure None TargetNeutral started selection outcome failureClass willRetry None st;
    after_failure willRetry retryErr st.

(** The activated target has no capacity. *)
Definition target_refused (runtime : AdmissionLease) (started : Z) (canRetry : bool)
    (selection : Selection) (st : attemptState) : proc turn :=
  _ ← call CancelAttempt;
  let failureClass := "target_admission_unavailable"%string in
  '(st, willRetry, stop, retryErr) ← scheduleRetry canRetry "" failureClass st;
  let st := applyRetryStop stop st in
  let st :=
    if negb willRetry && is_policy_disabled stop then
      set_final StatusServiceUnavailable failureClass "the activated target has no request capacity" st
    else st in
  _ ← record_failure None TargetNeutral started selection OutcomeExhausted failureClass willRetry
        (Some runtime) st;
  after_failure willRetry retryErr st.

(** *** The upstream request *)

(** [upstreamBody, err = rewrite(...)] *)
Definition rewrite_body (how : rewriting) (body model : string) (st : attemptState)
  : proc (string * attemptState) :=
  r ← call (RewriteBody how body model);
  mret (match r with
        | inl e => (""%string, set_err (Some e) st)
        | inr body => (body, set_err None st)
        end).

(** The body for the candidate; the branches that only copy a body leave [err]
    as it is. *)
Definition upstream_body (selection : Selection) (st : attemptState)
  : proc (string * attemptState) :=
  let protocol := selectionUpstreamProtocol selection in
  let model := dep_Model (sel_Deployment selection) in
  let is_chat := bool_decide (sv_operation s = openAIOperationChatCompletions) in
  match sv_profile s with
  | Some selector =>
      let name := dep_Name (sel_Deployment selection) in
      let prepared := default no_profile_request (sv_profileRequests s !! name) in
      _ ← call (TraceProfile selector name);
      mret (ppr_body prepared,
            set_embedding (ppr_embeddingDimensions prepared, ppr_embeddingInputCount prepared) st)
  | None =>
      if is_chat && String.eqb protocol ProtocolBedrock then mret (sv_bedrockChatBody s, st)
      else if is_chat && String.eqb protocol ProtocolAnthropic then
        rewrite_body rewriteTranslatedAnthropicModel (sv_anthropicChatBody s) model st
      else if is_chat && String.eqb protocol ProtocolGemini then mret (sv_geminiChatBody s, st)
      else if bool_decide (sv_operation s = openAIOperationEmbeddings) &&
              String.eqb protocol ProtocolGemini then
        if 1 <? sv_geminiEmbeddingInputCount s then
          rewrite_body rewriteGeminiBatchEmbeddingModel (sv_geminiEmbeddingBody s) model st
        else mret (sv_geminiEmbeddingBody s, st)
      else if bool_decide (sv_operation s = openAIOperationResponses) &&
              String.eqb protocol ProtocolOpenAI && negb (sel_NativeProtocol selection) then
        rewrite_body rewriteTranslatedOpenAIModel (sv_responsesChatBody s) model st
      else rewrite_body rewriteRequest (sv_raw s) model st
  end.

(** The request cannot be prepared for this candidate, nor for another. *)
Definition unprepared (failureClass message : string) (lease : TargetLease)
    (runtime : option AdmissionLease) (started : Z) (selection : Selection) (st : attemptState)
  : proc turn :=
  _ ← call CancelAttempt;
  _ ← record_failure (Some lease) TargetNeutral started selection OutcomeConfigError failureClass
        false runtime st;
  st ← releaseActiveRetry st;
  st ← count_attempts st;
  st ← fail StatusInternalServerError OutcomeConfigError failureClass message st;
  mret (Return st).

(** [callerCancelled], [overallTimedOut] and [attemptTimedOut] after an error. *)
Definition read_contexts : proc (bool * bool * bool) :=
  callerCancelled ← call CallerDone;
  now ← call TimeNow;
  attemptTimedOut ← call AttemptExpired;
  mret (callerCancelled, negb (time_Before now (sv_overallDeadline s)), attemptTimedOut).

(** [buildUpstreamRequest] failed. *)
Definition build_failed (lease : TargetLease) (runtime : option AdmissionLease) (started : Z)
    (canRetry : bool) (selection : Selection) (st : attemptState) : proc turn :=
  '(callerCancelled, overallTimedOut, attemptTimedOut) ← read_contexts;
  _ ← call CancelAttempt;
  if callerCancelled : bool then
    abandon (Some lease) started selection OutcomeClientCancelled "client_cancelled" runtime st
  else
    let '(failureClass, attemptOutcome, canRetryAttempt, st) :=
      if overallTimedOut : bool then
        ("overall_timeout"%string, OutcomeTransportError, false,
         set_final StatusGatewayTimeout "request_timeout"
           "the request deadline expired during upstream preparation" st)
      else if attemptTimedOut : bool then
        ("per_try_timeout"%string, OutcomeTransportError, canRetry,
         set_final StatusGatewayTimeout "upstream_timeout"
           "an upstream attempt exceeded its deadline" st)
      else ("upstream_configuration_error"%string, OutcomeConfigError, canRetry, st) in
    '(st, willRetry, stop, retryErr) ← scheduleRetry canRetryAttempt "" failureClass st;
    let st := applyRetryStop stop st in
    _ ← record_failure (Some lease) TargetFailure started selection attemptOutcome failureClass
          willRetry runtime st;
    after_failure willRetry retryErr st.

(** [sendUpstream] failed. *)
Definition send_failed (err : upstream_error) (lease : TargetLease)
    (runtime : option AdmissionLease) (started : Z) (canRetry : bool) (selection : Selection)
    (st : attemptState) : proc turn :=
  '(callerCancelled, overallTimedOut, attemptTimedOut) ← read_contexts;
  _ ← call CancelAttempt;
  if callerCancelled : bool then
    abandon (Some lease) started selection OutcomeClientCancelled "client_cancelled" runtime st
  else
    let '(failureClass, canRetryAttempt, st) :=
      if ue_continuation err then
        ("upstream_continuation_error"%string, false,
         set_final StatusBadGateway "upstream_continuation_failed"
           "could not retrieve the accepted upstream request result" st)
      else ("upstream_transport_error"%string, canRetry, st) in
    let '(failureClass, canRetryAttempt, st) :=
      if overallTimedOut : bool then
        ("overall_timeout"%string, false,
         set_final StatusGatewayTimeout "request_timeout"
           "the request deadline expired during an upstream attempt" st)
      else if attemptTimedOut : bool then
        ("per_try_timeout"%string, canRetryAttempt,
         set_final StatusGatewayTimeout "upstream_timeout"
           "an upstream attempt exceeded its deadline" st)
      else (failureClass, canRetryAttempt, st) in
    '(st, willRetry, stop, retryErr) ← scheduleRetry canRetryAttempt "" failureClass st;
    let st := applyRetryStop stop st in
    _ ← record_failure (Some lease) TargetFailure started selection OutcomeTransportError failureClass
          willRetry runtime st;
    after_failure willRetry retryErr st.

(** *** Delivery *)
Definition set_result (status : Z) (outcome failureClass : string) (r : proxyResult) : proxyResult :=
  mkProxyResult status outcome failureClass (px_usage r) (px_postGuardrailTerminated r).

Definition is_success (r : proxyResult) : bool :=
  String.eqb (px_outcome r) OutcomeSuccess && (200 <=? px_gatewayStatus r) &&
  (px_gatewayStatus r <? 300).

(** The response is replaced by an error. *)
Definition reject (attempts status : Z) (outcome code message : string) (result : proxyResult)
  : proc proxyResult :=
  _ ← call (SetAttemptCount attempts);
  _ ← call (WriteError status code message);
  mret (set_result status outcome code result).

(** A PII transformation failed: [inr] goes on with the body as it was. *)
Definition privacy_failure (pii : EffectivePIIPolicy) (attempts : Z) (code message body : string)
    (result : proxyResult) : proc (proxyResult + string) :=
  _ ← call RecordPrivacyFailure;
  _ ← call DisableSavedTrace;
  if String.eqb (epii_FailureMode pii) PIIFailClosed then
    result ← reject attempts StatusBadGateway OutcomeUpstreamError code message result;
    mret (inl result)
  else mret (inr body).

(** The body the post-guardrails see. *)
Definition privacy_safe_body (attempts : Z) (body : string) (result : proxyResult)
  : proc (proxyResult + string) :=
  match sv_pii s with
  | None => mret (inr body)
  | Some pii =>
      r ← call (RedactPIIResponse body);
      match r with
      | inr body => mret (inr body)
      | inl _ =>
          privacy_failure pii attempts "pii_transform_failed"
            "PII substitution could not safely inspect the response" body result
      end
  end.

(** The body with the substituted values put back, if the policy asks for it. *)
Definition restored_body (pii : EffectivePIIPolicy) (attempts : Z) (trace : string)
    (result : proxyResult) : proc (proxyResult + string) :=
  if String.eqb (epii_Response pii) PIIResponseRestore then
    r ← call (RestorePIIResponse trace);
    match r with
    | inr caller => mret (inr caller)
    | inl _ =>
        privacy_failure pii attempts "pii_restore_failed"
          "PII substitution could not safely restore the response" trace result
    end
  else mret (inr trace).

Definition mask_trace (pii : EffectivePIIPolicy) (trace : string) : proc unit :=
  if String.eqb (epii_TraceContent pii) PIITraceMasked then call (OverrideCapture trace)
  else mret tt.

(** Go on with a body unless the caller has been answered. *)
Definition with_body (r : proxyResult + string) (k : string -> proc (proxyResult + string))
  : proc (proxyResult + string) :=
  match r with inl result => mret (inl result) | inr body => k body end.

(** The body of an accepted response that the caller gets. *)
Definition caller_body (attempts : Z) (body : string) (result : proxyResult)
  : proc (proxyResult + string) :=
  match sv_pii s with
  | None => mret (inr body)
  | Some pii =>
      r ← call (RedactPIIResponse body);
      trace ← match r with
              | inr trace => mret (inr trace)
              | inl _ =>
                  privacy_failure pii attempts "pii_transform_failed"
                    "PII substitution could not safely transform the response" body result
              end;
      with_body trace (fun trace =>
        caller ← restored_body pii attempts trace result;
        with_body caller (fun caller => _ ← mask_trace pii trace; mret (inr caller)))
  end.

Definition write_body (body : string) (result : proxyResult) : proc proxyResult :=
  err ← call (WriteBufferedResponse body);
  match err with
  | Some _ =>
      ended ← call RequestDone;
      let '(outcome, failureClass) := streamFailure ended false in
      mret (set_result (px_gatewayStatus result) outcome failureClass result)
  | None => mret result
  end.

(** A buffered response that is not a success. *)
Definition mask_error_trace (pii : EffectivePIIPolicy) (body : string) : proc unit :=
  if String.eqb (epii_TraceContent pii) PIITraceMasked then
    r ← call (RedactAllStrings body);
    match r with
    | inl _ => call DisableSavedTrace
    | inr masked => call (OverrideCapture masked)
    end
  else mret tt.

Definition restored_error_body (pii : EffectivePIIPolicy) (body : string) : proc string :=
  if String.eqb (epii_Response pii) PIIResponseRestore then
    r ← call (RestoreAllStrings body);
    mret (match r with inr restored => restored | inl _ => body end)
  else mret body.

Definition deliver_error_body (body : string) (result : proxyResult) : proc proxyResult :=
  match sv_pii s with
  | None => write_body body result
  | Some pii =>
      _ ← mask_error_trace pii body;
      body ← restored_error_body pii body;
      write_body body result
  end.

(** The delivery of a buffered response; the boolean is whether [ServeHTTP]
    returns right after [completeResponse]. *)
Definition deliver_buffered (attempts : Z) (result : proxyResult) : proc (proxyResult * bool) :=
  body ← call BufferedBody;
  if is_success result then
    safe ← privacy_safe_body attempts body result;
    match safe with
    | inl result => mret (result, true)
    | inr safe =>
        post ← call (ApplyPostGuardrails safe);
        if gr_blocked post then
          result ← reject attempts StatusBadRequest OutcomeRejected "guardrail_blocked"
            "response was rejected by a configured guardrail" result;
          mret (result, false)
        else if gr_failed post then
          result ← reject attempts StatusBadGateway OutcomeUpstreamError "guardrail_failed"
            "a required response guardrail could not produce a valid verdict" result;
          mret (result, false)
        else
          caller ← caller_body attempts (gr_body post) result;
          match caller with
          | inl result => mret (result, false)
          | inr caller => result ← write_body caller result; mret (result, false)
          end
    end
  else
    result ← deliver_error_body body result;
    mret (result, false).

(** *** The response *)

(** A response that is relayed to the caller. *)
Definition forward (response : Response) (firstByte : Z) (lease : TargetLease)
    (runtime : option AdmissionLease) (started : Z) (selection : Selection) (st : attemptState)
  : proc turn :=
  let attempts := st_attempts st in
  let st := set_record (selectFinal selection attempts firstByte (st_record st)) st in
  let buffered := negb (sv_streaming s) &&
    (sv_postGuardrails s || match sv_pii s with Some _ => true | None => false end) in
  primary ← call (ProxyResponse buffered attempts selection response (st_embedding st));
  _ ← call CancelAttempt;
  let attemptResult :=
    if px_postGuardrailTerminated primary
    then set_result (px_gatewayStatus primary) OutcomeSuccess "" primary else primary in
  let status := resp_StatusCode response in
  _ ← recordAttempt (Some lease) (targetResultForProxy (sv_operation s) selection status attemptResult)
        attempts started (Some firstByte) selection status (px_outcome attemptResult)
        (px_failureClass attemptResult) false (upstreamRequestID (resp_Header response))
        (px_usage primary) runtime;
  st ← releaseActiveRetry st;
  '(result, early) ← (if buffered then deliver_buffered attempts primary else mret (primary, false));
  let st := set_record (completeResponse result (st_record st)) st in
  if negb early && is_success result then
    now ← call TimeNow;
    _ ← call (RecordPromptAffinity selection now);
    mret (Return st)
  else mret (Return st).

Definition http_failure_class (status : Z) : string := ("upstream_http_" +:+ pretty status)%string.

(** The upstream answered. *)
Definition answered (response : Response) (lease : TargetLease) (runtime : option AdmissionLease)
    (started : Z) (canRetry : bool) (selection : Selection) (st : attemptState) : proc turn :=
  firstByte ← call TimeNow;
  let status := resp_StatusCode response in
  if operation_isRetryableStatus
       (upstreamOperationForSelection (sv_operation s) selection (sv_streaming s)) status && canRetry
  then
    let failureClass := http_failure_class status in
    '(st, willRetry, _, retryErr) ←
      scheduleRetry true (Header_Get (resp_Header response) "Retry-After") failureClass st;
    if match retryErr with None => willRetry | Some _ => false end then
      _ ← call CloseBody;
      _ ← call CancelAttempt;
      _ ← recordAttempt (Some lease) TargetFailure (st_attempts st) started (Some firstByte) selection
            status OutcomeUpstreamError failureClass true (upstreamRequestID (resp_Header response))
            missingUsage runtime;
      after_failure true None st
    else forward response firstByte lease runtime started selection st
  else forward response firstByte lease runtime started selection st.

(** *** An attempt with a target lease *)
Definition with_BaseURL (url : string) (p : Provider) : Provider :=
  mkProvider (prov_Name p) (prov_Type p) url (prov_SubscriptionProfile p) (prov_Region p)
    (prov_Auth p) (prov_DefaultHeaders p) (prov_Continuations p) (prov_ExtraBody p)
    (prov_CapabilityDefaults p).

Definition set_BaseURL (url : string) (selection : Selection) : Selection :=
  {| sel_RequestedModel := sel_RequestedModel selection; sel_VirtualModel := sel_VirtualModel selection;
     sel_Provider := with_BaseURL url (sel_Provider selection); sel_Deployment := sel_Deployment selection;
     sel_UpstreamProtocol := sel_UpstreamProtocol selection;
     sel_NativeProtocol := sel_NativeProtocol selection; sel_PoolPriority := sel_PoolPriority selection;
     sel_Running := sel_Running selection; sel_PreferenceClass := sel_PreferenceClass selection;
     sel_ProviderPreference := sel_ProviderPreference selection; sel_Weight := sel_Weight selection;
     sel_ResponseModel := sel_ResponseModel selection |}.

Definition send_attempt (lease : TargetLease) (runtime : option AdmissionLease) (started : Z)
    (canRetry : bool) (selection : Selection) (st : attemptState) : proc turn :=
  '(body, st) ← upstream_body selection st;
  match st_err st with
  | Some _ =>
      unprepared "request_rewrite_error" "could not prepare upstream request" lease runtime started
        selection st
  | None =>
      defaults ← call (ApplyExtraBodyDefaults body selection);
      match defaults with
      | inl e =>
          unprepared "request_defaults_error" "could not apply configured upstream request defaults"
            lease runtime started selection (set_err (Some e) st)
      | inr body =>
          built ← call (BuildUpstreamRequest selection body);
          match built with
          | Some _ => build_failed lease runtime started canRetry selection st
          | None =>
              sent ← call (SendUpstream selection);
              match sent with
              | inl err => send_failed err lease runtime started canRetry selection st
              | inr response => answered response lease runtime started canRetry selection st
              end
          end
      end
  end.

(** *** One candidate *)

(** [observation.startAttempt] *)
Definition attempt_start (selection : Selection) (lease : option TargetLease)
    (required : list Capability) (st : attemptState) : AttemptStart :=
  mkAttemptStart (rr_VirtualModel (st_record st)) (prov_Name (sel_Provider selection))
    (dep_Name (sel_Deployment selection)) (dep_Model (sel_Deployment selection))
    (selectionUpstreamProtocol selection) (sel_NativeProtocol selection) required
    (match lease with Some l => tl_CircuitState l | None => CircuitClosed end)
    (match lease with Some l => tl_HalfOpenProbe l | None => false end)
    (match lease with Some l => tl_ActiveRequests l | None => 0 end)
    (st_activeRetryReason st) (st_activeRetryDelay st) (st_attempts st) (sel_PoolPriority selection).

Definition candidate_bytes (selection : Selection) : Z :=
  match sv_profileRequests s !! dep_Name (sel_Deployment selection) with
  | Some prepared => Z.of_nat (String.length (ppr_body prepared))
  | None => Z.of_nat (String.length (sv_raw s))
  end.

Definition candidate_capabilities (selection : Selection) : list Capability :=
  plan_RequiredCapabilities (sv_plan s) ++
  match sv_profileRequests s !! dep_Name (sel_Deployment selection) with
  | Some prepared => pr_RequiredCapabilities (ppr_route prepared)
  | None => []
  end.

(** The admission of an attempt by the lifecycle coordinator. *)
Definition runtime_attempt (started : Z) (canRetry : bool) (selection : Selection)
    (rest : list Selection) (st : attemptState) : proc turn :=
  granted ← call (AcquireRuntime (runtime_request selection (candidate_bytes selection)));
  match granted with
  | inl err => runtime_refused err started canRetry selection rest (set_err (Some err) st)
  | inr runtime =>
      let st := set_err None st in
      let selection := set_BaseURL (ep_BaseURL (al_Endpoint runtime)) selection in
      lease ← call (AcquireTarget (dep_Name (sel_Deployment selection)));
      match lease with
      | None => target_refused runtime started canRetry selection st
      | Some lease => send_attempt lease (Some runtime) started canRetry selection st
      end
  end.

(** The iteration after the target of a static endpoint is admitted; [lease] is
    nil for a dynamic one. *)
Definition start_attempt (lease : option TargetLease) (selection : Selection)
    (rest : list Selection) (st : attemptState) : proc turn :=
  let st := set_attempts (st_attempts st + 1) st in
  started ← call TimeNow;
  let canRetry := (st_attempts st <? plan_MaxAttempts (sv_plan s)) &&
    match rest with [] => false | _ => true end in
  _ ← call (StartAttempt (attempt_start selection lease (candidate_capabilities selection) st));
  now ← call TimeNow;
  let remaining := time_Sub (sv_overallDeadline s) now in
  let perTry := eml_PerTryTimeout (plan_Limits (sv_plan s)) in
  let attemptTimeout := if remaining <? perTry then remaining else perTry in
  if attemptTimeout <=? 0 then
    _ ← record_failure lease TargetNeutral started selection OutcomeTransportError "overall_timeout"
          false None st;
    st ← releaseActiveRetry st;
    mret (Break (set_final StatusGatewayTimeout "request_timeout"
                   "the request deadline expired before an upstream attempt" st))
  else
    _ ← call (WithTimeout attemptTimeout);
    match lease with
    | Some lease => send_attempt lease None started canRetry selection st
    | None => runtime_attempt started canRetry selection rest st
    end.

Definition is_dynamic (name : string) : bool :=
  match sv_lifecycle s with Some c => IsDynamic c name | None => false end.

Definition attempt_turn (selection : Selection) (rest : list Selection) (st : attemptState)
  : proc turn :=
  now ← call TimeNow;
  if negb (time_Before now (sv_overallDeadline s)) then
    mret (Break (set_final StatusGatewayTimeout "request_timeout"
                   "the request deadline expired before an upstream attempt" st))
  else
    let name := dep_Name (sel_Deployment selection) in
    if is_dynamic name then start_attempt None selection rest st
    else
      lease ← call (AcquireTarget name);
      match lease with
      | None => mret (Next st)
      | Some lease => start_attempt (Some lease) selection rest st
      end.

(** *** The loop and what follows it *)
Definition final_failure (st : attemptState) : proc attemptState :=
  st ← count_attempts st;
  if (st_attempts st =? 0) && negb (st_finalStatus st =? StatusGatewayTimeout) then
    fail StatusServiceUnavailable OutcomeExhausted "model_unavailable"
      "requested model has no target capacity available" st
  else fail (st_finalStatus st) OutcomeExhausted (st_finalCode st) (st_finalMessage st) st.

Fixpoint attempt_loop (candidates : list Selection) (st : attemptState) : proc attemptState :=
  match candidates with
  | [] => final_failure st
  | selection :: rest =>
      if plan_MaxAttempts (sv_plan s) <=? st_attempts st then final_failure st
      else
        t ← attempt_turn selection rest st;
        match t with
        | Next st => attempt_loop rest st
        | Break st => final_failure st
        | Return st => mret st
        end
  end.

(** [observation.finish] *)
Definition observation_finish (r : RequestRecord) : proc unit :=
  completed ← call TimeNow;
  let record := finish_record completed r in
  _ ← call (RecordLedger (NewRequestRecord record));
  _ ← call (EndRequest record);
  call FinishSavedTrace.

(** [ServeHTTP] from the resolution of the plan on, with its deferred calls. *)
Definition serve_plan (record : RequestRecord) : proc unit :=
  let st := initial_state (sv_embedding s) (resolve (sv_plan s) (sv_streaming s) record) in
  _ ← call BeginBudgetRequest;
  st ← attempt_loop (plan_Candidates (sv_plan s)) st;
  st ← releaseActiveRetry st;
  _ ← call EndBudgetRequest;
  observation_finish (st_record st).
End Loop.
