(* ===== verification/AttemptProtocol.v ===== *)
(** * The protocol of a request's attempts

    An abstract specification of the attempt loop: what it may hold, in which
    order it may acquire, use and give back, and what it owes at the end.
    [step] is the automaton; the lemmas show that every part of the loop follows
    it. *)

From stdpp Require Import base gmap list strings.
From Stdlib Require Import ZArith Lia.
From S2P Require Import Prelude GoStrings Policies Capabilities Config Privacy Fields.
From S2P Require Import Endpoints Ledger Lifecycle LifecycleStatus Admission Targets Picker Plan.
From S2P Require Import RetryBudget Retry Gateway AttemptState Attempts.

Local Open Scope Z_scope.

#[export] Instance TargetLease_eq_dec : EqDecision TargetLease.
Proof. solve_decision. Defined.
#[export] Instance Lease_eq_dec : EqDecision Lease.
Proof. solve_decision. Defined.
#[export] Instance AdmissionLease_eq_dec : EqDecision AdmissionLease.
Proof. solve_decision. Defined.
#[export] Instance retryBudgetLease_eq_dec : EqDecision retryBudgetLease.
Proof. solve_decision. Defined.

(** What the caller has been sent: an error with its status and code, or a
    response of the upstream. *)
Inductive reply :=
  | NoReply
  | ErrorReply (status : Z) (code : string)
  | Relayed.

(** [m_open] is between the beginning and the end of the budget request,
    [m_span] between the start of an attempt and the end of its span, [m_timer]
    and [m_body] are a pending attempt context and an open response body;
    [m_recorded] counts the attempts in the ledger. *)
Record mon := mkMon {
  m_open : bool;
  m_retry : option retryBudgetLease;
  m_target : option TargetLease;
  m_runtime : option AdmissionLease;
  m_span : bool;
  m_timer : bool;
  m_body : bool;
  m_recorded : Z;
  m_reply : reply;
  m_finished : bool;
}.

Definition start_mon : mon := mkMon false None None None false false false 0 NoReply false.

(** Nothing of an attempt is held. *)
Definition at_rest (m : mon) : bool :=
  match m_target m, m_runtime m with None, None => true | _, _ => false end &&
  negb (m_span m) && negb (m_timer m) && negb (m_body m).

Definition no_reply (m : mon) : bool := match m_reply m with NoReply => true | _ => false end.
Definition no_retry (m : mon) : bool := match m_retry m with None => true | _ => false end.

(** The request's record agrees with what happened. *)
Definition record_agrees (attempts : Z) (answer : reply) (r : RequestRecord) : bool :=
  (rr_AttemptCount r =? attempts) &&
  match answer with
  | NoReply => (rr_HTTPStatus r =? 0) && String.eqb (rr_Outcome r) OutcomeClientCancelled
  | ErrorReply status code => (rr_HTTPStatus r =? status) && String.eqb (rr_FailureClass r) code
  | Relayed => true
  end.

Definition guard_step (b : bool) (m : mon) : option mon := if b then Some m else None.

(** [limit] is the number of attempts the plan allows. *)
Definition step (limit : Z) (m : mon) (X : Type) (e : serveE X) : X -> option mon :=
  let '(mkMon op retry target runtime span timer body recorded answer finished) := m in
  match e in serveE X return X -> option mon with
  | BeginBudgetRequest => fun _ =>
      guard_step (negb op && negb finished)
        (mkMon true retry target runtime span timer body recorded answer finished)
  | EndBudgetRequest => fun _ =>
      guard_step (op && at_rest m && no_retry m)
        (mkMon false retry target runtime span timer body recorded answer finished)
  | ReserveRetry _ _ _ => fun r =>
      guard_step (op && no_retry m && no_reply m)
        (mkMon op (match r with inr r => Some (rr_lease r) | inl _ => None end) target runtime span
           timer body recorded answer finished)
  | ReleaseRetry lease => fun _ =>
      guard_step (bool_decide (retry = Some lease))
        (mkMon op None target runtime span timer body recorded answer finished)
  | SleepRetry _ => fun _ => guard_step (at_rest m && negb (no_retry m)) m
  | AcquireTarget _ => fun lease =>
      guard_step (op && match target with None => true | _ => false end && no_reply m)
        (mkMon op retry lease runtime span timer body recorded answer finished)
  | CompleteTarget lease _ _ => fun _ =>
      guard_step (bool_decide (lease = target) && negb body)
        (mkMon op retry None runtime span timer body recorded answer finished)
  | AcquireRuntime _ => fun r =>
      guard_step (timer && match runtime with None => true | _ => false end && no_reply m)
        (mkMon op retry target (match r with inr lease => Some lease | inl _ => None end) span timer
           body recorded answer finished)
  | ReleaseRuntime lease _ => fun _ =>
      guard_step (bool_decide (runtime = Some lease) && negb body)
        (mkMon op retry target None span timer body recorded answer finished)
  | StartAttempt start => fun _ =>
      guard_step
        (op && negb span && no_reply m && (as_Attempt start =? recorded + 1) &&
         (as_Attempt start <=? limit) && ((as_Attempt start =? 1) || negb (no_retry m)))
        (mkMon op retry target runtime true timer body recorded answer finished)
  | EndAttempt record => fun _ =>
      guard_step (span && (Ledger.ar_Attempt record =? recorded))
        (mkMon op retry target runtime false timer body recorded answer finished)
  | WithTimeout timeout => fun _ =>
      guard_step (span && negb timer && (0 <? timeout))
        (mkMon op retry target runtime span true body recorded answer finished)
  | CancelAttempt => fun _ =>
      guard_step timer (mkMon op retry target runtime span false body recorded answer finished)
  | SendUpstream _ => fun r =>
      guard_step
        (span && timer && negb body && no_reply m && match target with Some _ => true | _ => false end)
        (mkMon op retry target runtime span timer (match r with inr _ => true | inl _ => false end)
           recorded answer finished)
  | CloseBody => fun _ =>
      guard_step body (mkMon op retry target runtime span timer false recorded answer finished)
  | ProxyResponse buffered _ _ _ _ => fun _ =>
      guard_step (op && body && timer && no_reply m)
        (mkMon op retry target runtime span timer false recorded
           (if buffered then NoReply else Relayed) finished)
  | WriteBufferedResponse _ => fun _ =>
      guard_step (op && negb body && no_reply m)
        (mkMon op retry target runtime span timer body recorded Relayed finished)
  | WriteError status code _ => fun _ =>
      guard_step (op && at_rest m && no_reply m)
        (mkMon op retry target runtime span timer body recorded (ErrorReply status code) finished)
  | RecordLedger record => fun _ =>
      match lr_Attempt record, lr_Request record with
      | Some a, None =>
          guard_step (op && span && negb timer && negb body && (Ledger.ar_Attempt a =? recorded + 1))
            (mkMon op retry target runtime span timer body (recorded + 1) answer finished)
      | None, Some r =>
          guard_step (negb op && at_rest m && no_retry m && negb finished &&
                      record_agrees recorded answer r)
            (mkMon op retry target runtime span timer body recorded answer true)
      | _, _ => None
      end
  | _ => fun _ => Some m
  end.

(** ** The parts of the loop follow the protocol *)

Lemma follows_call {M : Type} (stp : M -> forall X, serveE X -> X -> option M) {A X} (e : serveE X)
    (k : X -> proc A) Q m :
  (forall x, exists m', stp m X e x = Some m' /\ follows stp (k x) Q m') ->
  follows stp (call e ≫= k) Q m.
Proof. intros H x. destruct (H x) as (m' & -> & Hk). exact Hk. Qed.

Lemma follows_ret {M : Type} (stp : M -> forall X, serveE X -> X -> option M) {A} (a : A)
    (Q : A -> M -> Prop) m : Q a m -> follows stp (mret a) Q m.
Proof. done. Qed.

Lemma follows_last_call {M : Type} (stp : M -> forall X, serveE X -> X -> option M) {A} (e : serveE A)
    Q m :
  (forall x, exists m', stp m A e x = Some m' /\ Q x m') -> follows stp (call e) Q m.
Proof. intros H x. destruct (H x) as (m' & -> & Hk). exact Hk. Qed.

(** Between attempts, during an attempt, and after the answer; [n] attempts
    are recorded and [retry] is the active retry lease. *)
Definition idle (n : Z) (retry : option retryBudgetLease) : mon :=
  mkMon true retry None None false false false n NoReply false.
Definition busy (n : Z) (retry : option retryBudgetLease) (target : option TargetLease)
    (runtime : option AdmissionLease) (timer body : bool) : mon :=
  mkMon true retry target runtime true timer body n NoReply false.
Definition replied (n : Z) (retry : option retryBudgetLease) (answer : reply) : mon :=
  mkMon true retry None None false false false n answer false.

Definition set_m_retry (retry : option retryBudgetLease) (m : mon) : mon :=
  mkMon (m_open m) retry (m_target m) (m_runtime m) (m_span m) (m_timer m) (m_body m) (m_recorded m)
    (m_reply m) (m_finished m).

(** How an iteration that made the [n]th attempt may end. *)
Definition turn_post (n : Z) (t : turn) (m : mon) : Prop :=
  match t with
  | Next st => st_attempts st = n /\ st_activeRetry st <> None /\ m = idle n (st_activeRetry st)
  | Break st => st_attempts st = n /\ m = idle n (st_activeRetry st)
  | Return st =>
      exists answer, record_agrees n answer (st_record st) = true /\
                     m = replied n (st_activeRetry st) answer
  end.

Section Follows.
Context (s : Serve) (limit : Z).

#[local] Arguments AttemptState.follows : simpl never.
Notation follows := (follows (step limit)).

(** One call: the guard of the step is computed. *)
Ltac make_call :=
  first [apply follows_last_call | apply follows_call]; intros ? ; eexists; split;
    [cbn; rewrite ?bool_decide_true by done; try reflexivity|cbv beta].
Ltac start_calls := unfold idle, busy, replied, set_m_retry in *; simpl in *.

Lemma releaseActiveRetry_follows st m Q :
  m_retry m = st_activeRetry st ->
  Q (set_retry None "" 0 st) (set_m_retry None m) -> follows (releaseActiveRetry st) Q m.
Proof.
  unfold releaseActiveRetry. destruct m as [op retry ta ru sp ti bo re an fi]. simpl. intros -> HQ.
  destruct (st_activeRetry st) as [l|]; [|exact HQ]. intros []. cbn.
  rewrite bool_decide_true by done. exact HQ.
Qed.

Lemma scheduleRetry_follows canRetry after reason st m Q :
  m_retry m = st_activeRetry st -> m_open m = true -> m_reply m = NoReply ->
  (forall st' will stop err,
     st_attempts st' = st_attempts st -> st_record st' = st_record st -> st_err st' = st_err st ->
     (will = true -> st_activeRetry st' <> None /\ err = None) ->
     Q (st', will, stop, err) (set_m_retry (st_activeRetry st') m)) ->
  follows (scheduleRetry canRetry after reason st) Q m.
Proof.
  intros Hr Ho Hn HQ. unfold scheduleRetry. apply follows_bind, releaseActiveRetry_follows; [done|].
  destruct canRetry; [|apply HQ; done].
  apply follows_call. intros answer. destruct m as [op retry ta ru sp ti bo re an fi].
  simpl in *. subst op an. eexists. split; [reflexivity|].
  destruct answer as [[stop err]|r]; [apply HQ; done|]. by apply HQ.
Qed.

Lemma count_attempts_follows st m Q :
  Q (set_record (set_AttemptCount (st_attempts st) (st_record st)) st) m ->
  follows (count_attempts st) Q m.
Proof. intros HQ []. destruct m. exact HQ. Qed.

Lemma fail_follows status outcome code message st n retry Q :
  (forall st', st_activeRetry st' = st_activeRetry st -> st_attempts st' = st_attempts st ->
     st_record st' = observation_fail status outcome code (st_record st) ->
     Q st' (replied n retry (ErrorReply status code))) ->
  follows (fail status outcome code message st) Q (idle n retry).
Proof. intros HQ []. by apply HQ. Qed.

(** An error that is the answer of the request after [n] attempts. *)
Lemma fail_agrees status outcome code n r :
  rr_AttemptCount r = n ->
  record_agrees n (ErrorReply status code) (observation_fail status outcome code r) = true.
Proof.
  intros Hn. unfold record_agrees. simpl. by rewrite Hn, !Z.eqb_refl, String.eqb_refl.
Qed.

Lemma client_cancelled_agrees n st :
  rr_AttemptCount (st_record st) = n -> record_agrees n NoReply (st_record (client_cancelled st)) = true.
Proof. intros Hn. unfold record_agrees. simpl. by rewrite Hn, Z.eqb_refl. Qed.

(** Giving up: the retry lease is released, the attempts counted, the error
    written. *)
Lemma give_up_follows status outcome code message st n Q :
  st_attempts st = n ->
  (forall st', turn_post n (Return st') (replied n None (ErrorReply status code)) ->
     Q st' (replied n None (ErrorReply status code))) ->
  follows (st ← releaseActiveRetry st; st ← count_attempts st; fail status outcome code message st)
    Q (idle n (st_activeRetry st)).
Proof.
  intros Hn HQ. apply follows_bind, releaseActiveRetry_follows; [done|].
  apply follows_bind, count_attempts_follows, fail_follows. intros st' Hr _ Hrec. apply HQ.
  exists (ErrorReply status code). rewrite Hrec, Hr. split; [by apply fail_agrees|done].
Qed.

Lemma failRetryWait_follows waitErr st n :
  st_attempts st = n ->
  follows (failRetryWait waitErr st) (fun st m => turn_post n (Return st) m)
    (idle n (st_activeRetry st)).
Proof.
  intros Hn. unfold failRetryWait. apply follows_bind, releaseActiveRetry_follows; [done|].
  apply follows_bind, count_attempts_follows. make_call. destruct x.
  { exists NoReply. split; [by apply client_cancelled_agrees|done]. }
  apply follows_bind.
  assert (H : forall expired : bool, follows
    (if expired then
       fail StatusGatewayTimeout OutcomeExhausted "request_timeout"
         "the request deadline expired before another attempt"
         (set_record (set_AttemptCount (st_attempts st) (st_record st)) (set_retry None "" 0 st))
     else
       fail StatusInternalServerError OutcomeConfigError (retryFailureClass waitErr)
         "could not schedule another upstream attempt"
         (set_record (set_AttemptCount (st_attempts st) (st_record st)) (set_retry None "" 0 st)))
    (fun st m => turn_post n (Return st) m) (idle n None)).
  { intros []; apply fail_follows; intros st' Hr _ Hrec; eexists; (split; [|by rewrite Hr]);
      rewrite Hrec; by apply fail_agrees. }
  destruct (errors_Is is_deadline waitErr); [apply (H true)|]. intros []; apply H.
Qed.

Lemma after_failure_follows will retryErr st n :
  st_attempts st = n -> (will = true -> st_activeRetry st <> None) ->
  follows (after_failure will retryErr st) (turn_post n) (idle n (st_activeRetry st)).
Proof.
  intros Hn Hw. unfold after_failure. destruct retryErr as [e|].
  - apply follows_bind, releaseActiveRetry_follows; [done|].
    apply follows_bind, count_attempts_follows. apply follows_bind, fail_follows.
    intros st' Hr _ Hrec. exists (ErrorReply StatusInternalServerError "retry_scheduling_error").
    rewrite Hrec, Hr. split; [by apply fail_agrees|done].
  - destruct will; cbn [negb]; [|done]. specialize (Hw eq_refl).
    destruct (st_activeRetry st) as [l|] eqn:El; [|done].
    apply follows_bind. unfold waitForRetry. make_call. make_call.
    destruct x0 as [e|]; cbv iota.
    + apply follows_bind. rewrite <- El. by apply failRetryWait_follows.
    + apply follows_ret. simpl. by rewrite El.
Qed.

(** ** Attempts *)

(** A runtime lease is only held with a coordinator. *)
Definition coordinated (runtime : option AdmissionLease) : Prop :=
  runtime <> None -> sv_lifecycle s <> None.

Lemma release_runtime_follows outcome runtime n retry answer Q :
  coordinated runtime -> Q tt (replied n retry answer) ->
  follows (release_runtime s outcome runtime) Q
    (mkMon true retry None runtime false false false n answer false).
Proof.
  unfold coordinated, release_runtime. intros Hc HQ. destruct runtime as [l|].
  - destruct (sv_lifecycle s); [|by destruct (Hc ltac:(done))]. make_call. by destruct x.
  - by destruct (sv_lifecycle s).
Qed.

Lemma recordAttempt_follows lease result attempt started fb sel status outcome class retried id usage
    runtime n retry answer Q :
  attempt = n + 1 -> coordinated runtime -> Q tt (replied (n + 1) retry answer) ->
  follows (recordAttempt s lease result attempt started fb sel status outcome class retried id usage
             runtime) Q (mkMon true retry lease runtime true false false n answer false).
Proof.
  intros -> Hc HQ. unfold recordAttempt. make_call. apply follows_call. intros []. eexists.
  split; [cbn; by rewrite Z.eqb_refl|]. apply follows_call. intros []. eexists.
  split; [cbn; by rewrite Z.eqb_refl|]. make_call. by apply release_runtime_follows.
Qed.

Lemma record_failure_follows lease result started sel outcome class retried runtime st n Q :
  st_attempts st = n + 1 -> coordinated runtime -> Q tt (idle (n + 1) (st_activeRetry st)) ->
  follows (record_failure s lease result started sel outcome class retried runtime st) Q
    (busy n (st_activeRetry st) lease runtime false false).
Proof. intros. by apply (recordAttempt_follows _ _ _ _ _ _ _ _ _ _ _ _ _ n _ NoReply). Qed.

Lemma abandon_follows lease started sel outcome class runtime st n :
  st_attempts st = n + 1 -> coordinated runtime ->
  follows (abandon s lease started sel outcome class runtime st) (turn_post (n + 1))
    (busy n (st_activeRetry st) lease runtime false false).
Proof.
  intros Hn Hc. unfold abandon. apply follows_bind, record_failure_follows; [done..|].
  apply follows_bind, releaseActiveRetry_follows; [done|]. exists NoReply.
  split; [by apply client_cancelled_agrees|done].
Qed.

(** A failed attempt is recorded, and the loop goes on, stops or returns. *)
Lemma conclude_follows lease result started sel outcome class will err runtime st n :
  st_attempts st = n + 1 -> coordinated runtime -> (will = true -> st_activeRetry st <> None) ->
  follows (_ ← record_failure s lease result started sel outcome class will runtime st;
           after_failure will err st)
    (turn_post (n + 1)) (busy n (st_activeRetry st) lease runtime false false).
Proof.
  intros Hn Hc Hw. apply follows_bind, record_failure_follows; [done..|].
  by apply after_failure_follows.
Qed.

Lemma applyRetryStop_same stop st :
  st_attempts (applyRetryStop stop st) = st_attempts st /\
  st_activeRetry (applyRetryStop stop st) = st_activeRetry st.
Proof. by destruct stop. Qed.

(** A retry is scheduled while the attempt still holds its leases. *)
Lemma schedule_busy_follows canRetry after reason st n lease runtime Q :
  (forall st' will stop err,
     st_attempts st' = st_attempts st -> st_record st' = st_record st -> st_err st' = st_err st ->
     (will = true -> st_activeRetry st' <> None /\ err = None) ->
     Q (st', will, stop, err) (busy n (st_activeRetry st') lease runtime false false)) ->
  follows (scheduleRetry canRetry after reason st) Q
    (busy n (st_activeRetry st) lease runtime false false).
Proof. intros HQ. by apply scheduleRetry_follows. Qed.

Lemma runtime_refused_follows err started canRetry sel rest st n :
  st_attempts st = n + 1 ->
  follows (runtime_refused s err started canRetry sel rest st) (turn_post (n + 1))
    (busy n (st_activeRetry st) None None true false).
Proof.
  intros Hn. unfold runtime_refused. make_call. rename x into callerCancelled.
  destruct (lifecycleAdmissionFailure err callerCancelled) as [[[status outcome] class] message].
  make_call. destruct callerCancelled; [by apply abandon_follows; [|intros []]|].
  apply follows_bind, schedule_busy_follows. intros st' will stop e Hn' _ _ Hw. cbv iota.
  destruct (applyRetryStop_same stop st') as [Ha Hr].
  assert (Hend : forall st2, st_attempts st2 = st_attempts st' -> st_activeRetry st2 = st_activeRetry st' ->
    follows (_ ← record_failure s None TargetNeutral started sel outcome class will None st2;
             after_failure will e st2) (turn_post (n + 1))
      (busy n (st_activeRetry st') None None false false)).
  { intros st2 E1 E2. rewrite <- E2. apply conclude_follows; [congruence|by intros []|].
    rewrite E2. by intros []%Hw. }
  apply follows_bind. destruct (negb will && is_policy_disabled stop); [|by apply Hend].
  destruct (admission_retry_after err) as [ra|]; [|by apply Hend].
  destruct (0 <? ra); [|by apply Hend]. make_call. by apply Hend.
Qed.

Lemma target_refused_follows runtime started canRetry sel st n :
  st_attempts st = n + 1 -> sv_lifecycle s <> None ->
  follows (target_refused s runtime started canRetry sel st) (turn_post (n + 1))
    (busy n (st_activeRetry st) None (Some runtime) true false).
Proof.
  intros Hn Hl. unfold target_refused. make_call.
  apply follows_bind, schedule_busy_follows. intros st' will stop e Hn' _ _ Hw. cbv iota zeta.
  destruct (applyRetryStop_same stop st') as [Ha Hr].
  match goal with |- context [record_failure _ _ _ _ _ _ _ _ _ ?x] => set (st2 := x) end.
  assert (E : st_attempts st2 = st_attempts st' /\ st_activeRetry st2 = st_activeRetry st').
  { unfold st2. by destruct (negb will && is_policy_disabled stop). }
  destruct E as [E1 E2]. rewrite <- E2. apply conclude_follows; [congruence|by intros _|].
  rewrite E2. by intros []%Hw.
Qed.

Lemma rewrite_body_follows how body model st Q m :
  (forall b err, Q (b, set_err err st) m) -> follows (rewrite_body how body model st) Q m.
Proof. intros HQ. unfold rewrite_body. intros r. destruct m, r; apply HQ. Qed.

Lemma upstream_body_follows sel st m Q :
  (forall b st', st_attempts st' = st_attempts st -> st_activeRetry st' = st_activeRetry st ->
     st_record st' = st_record st -> Q (b, st') m) ->
  follows (upstream_body s sel st) Q m.
Proof.
  intros HQ. unfold upstream_body. destruct (sv_profile s) as [selector|].
  { intros []. destruct m. by apply HQ. }
  repeat match goal with
  | |- follows (if ?b then _ else _) _ _ => destruct b
  | |- follows (rewrite_body _ _ _ _) _ _ => apply rewrite_body_follows; intros
  | |- follows (mret _) _ _ => apply follows_ret
  end; by apply HQ.
Qed.

Lemma unprepared_follows class message lease runtime started sel st n :
  st_attempts st = n + 1 -> coordinated runtime ->
  follows (unprepared s class message lease runtime started sel st) (turn_post (n + 1))
    (busy n (st_activeRetry st) (Some lease) runtime true false).
Proof.
  intros Hn Hc. unfold unprepared. make_call.
  apply follows_bind, record_failure_follows; [done..|].
  apply follows_bind, releaseActiveRetry_follows; [done|].
  apply follows_bind, count_attempts_follows. apply follows_bind, fail_follows.
  intros st' Hr _ Hrec. exists (ErrorReply StatusInternalServerError class).
  rewrite Hrec, Hr. split; [by apply fail_agrees|done].
Qed.

Lemma read_contexts_follows m Q :
  (forall a b c, Q (a, b, c) m) -> follows (read_contexts s) Q m.
Proof. intros HQ. unfold read_contexts. intros ?. destruct m. intros ? ?. apply HQ. Qed.

Lemma build_failed_follows lease runtime started canRetry sel st n :
  st_attempts st = n + 1 -> coordinated runtime ->
  follows (build_failed s lease runtime started canRetry sel st) (turn_post (n + 1))
    (busy n (st_activeRetry st) (Some lease) runtime true false).
Proof.
  intros Hn Hc. unfold build_failed. apply follows_bind, read_contexts_follows. intros gone late slow.
  cbv iota. make_call. destruct gone; [by apply abandon_follows|].
  destruct late; [|destruct slow]; apply follows_bind.
  all: apply (schedule_busy_follows _ _ _ (set_final _ _ _ st)) || apply schedule_busy_follows.
  all: intros st' will stop e Hn' _ _ Hw; cbv iota zeta.
  all: destruct (applyRetryStop_same stop st') as [Ha Hr]; rewrite <- Hr; apply conclude_follows;
    [simpl in *; congruence|done|rewrite Hr; by intros []%Hw].
Qed.

Lemma send_failed_follows err lease runtime started canRetry sel st n :
  st_attempts st = n + 1 -> coordinated runtime ->
  follows (send_failed s err lease runtime started canRetry sel st) (turn_post (n + 1))
    (busy n (st_activeRetry st) (Some lease) runtime true false).
Proof.
  intros Hn Hc. unfold send_failed. apply follows_bind, read_contexts_follows. intros gone late slow.
  cbv iota. make_call. destruct gone; [by apply abandon_follows|].
  destruct (ue_continuation err), late, slow; cbv iota zeta; apply follows_bind.
  all: apply (schedule_busy_follows _ _ _ (set_final _ _ _ st)) ||
       apply (schedule_busy_follows _ _ _ (set_final _ _ _ (set_final _ _ _ st))) ||
       apply schedule_busy_follows.
  all: intros st' will stop e Hn' _ _ Hw; cbv iota zeta.
  all: destruct (applyRetryStop_same stop st') as [Ha Hr]; rewrite <- Hr; apply conclude_follows;
    [simpl in *; congruence|done|rewrite Hr; by intros []%Hw].
Qed.

(** ** Delivery *)

(** What the caller was sent agrees with the result that is recorded. *)
Definition result_agrees (result : proxyResult) (answer : reply) : Prop :=
  answer = Relayed \/ answer = ErrorReply (px_gatewayStatus result) (px_failureClass result).

Definition delivered (n : Z) (retry : option retryBudgetLease) (result : proxyResult) (m : mon)
  : Prop := exists answer, result_agrees result answer /\ m = replied n retry answer.

Lemma reject_follows attempts status outcome code message result n retry :
  follows (reject attempts status outcome code message result) (delivered n retry) (idle n retry).
Proof.
  unfold reject. make_call. make_call. apply follows_ret. eexists. split; [by right|done].
Qed.

Lemma write_body_follows body result n retry :
  follows (write_body body result) (delivered n retry) (idle n retry).
Proof.
  unfold write_body. make_call. destruct x as [e|].
  - make_call. rename x into ended. destruct (streamFailure ended false) as [outcome class].
    eexists. split; [by left|done].
  - eexists. split; [by left|done].
Qed.

(** A transformation either answered the caller or goes on with a body. *)
Definition transformed (n : Z) (retry : option retryBudgetLease) (r : proxyResult + string) (m : mon)
  : Prop :=
  match r with inl result => delivered n retry result m | inr _ => m = idle n retry end.

Lemma privacy_failure_follows pii attempts code message body result n retry :
  follows (privacy_failure pii attempts code message body result) (transformed n retry) (idle n retry).
Proof.
  unfold privacy_failure. make_call. make_call. destruct (String.eqb _ _); [|done].
  apply follows_bind. eapply follows_mono; [apply reject_follows|]. intros r m Hm. exact Hm.
Qed.

Lemma privacy_safe_body_follows attempts body result n retry :
  follows (privacy_safe_body s attempts body result) (transformed n retry) (idle n retry).
Proof.
  unfold privacy_safe_body. destruct (sv_pii s); [|done]. make_call.
  destruct x; [apply privacy_failure_follows|done].
Qed.

Lemma transformed_bind (p : proc (proxyResult + string)) k n retry :
  follows p (transformed n retry) (idle n retry) ->
  (forall body, follows (k body) (transformed n retry) (idle n retry)) ->
  follows (r ← p; with_body r k) (transformed n retry) (idle n retry).
Proof.
  intros Hp Hk. apply follows_bind. eapply follows_mono; [exact Hp|].
  intros [result|body] m Hm; [exact Hm|]. cbn in Hm. rewrite Hm. apply Hk.
Qed.

Lemma restored_body_follows pii attempts trace result n retry :
  follows (restored_body pii attempts trace result) (transformed n retry) (idle n retry).
Proof.
  unfold restored_body. destruct (String.eqb _ _); [|done]. make_call.
  destruct x; [apply privacy_failure_follows|done].
Qed.

Lemma caller_body_follows attempts body result n retry :
  follows (caller_body s attempts body result) (transformed n retry) (idle n retry).
Proof.
  unfold caller_body. destruct (sv_pii s) as [pii|]; [|done]. make_call. apply transformed_bind.
  { destruct x; [apply privacy_failure_follows|done]. }
  intros trace. apply transformed_bind; [apply restored_body_follows|]. intros caller.
  apply follows_bind. unfold mask_trace. destruct (String.eqb _ _); [by intros []|done].
Qed.

Lemma deliver_error_body_follows body result n retry :
  follows (deliver_error_body s body result) (delivered n retry) (idle n retry).
Proof.
  unfold deliver_error_body. destruct (sv_pii s) as [pii|]; [|apply write_body_follows].
  apply follows_bind. unfold mask_error_trace.
  assert (Hend : follows (body ← restored_error_body pii body; write_body body result)
    (delivered n retry) (idle n retry)).
  { apply follows_bind. unfold restored_error_body.
    destruct (String.eqb _ _); [make_call|]; apply write_body_follows. }
  destruct (String.eqb _ _); [|exact Hend]. make_call. destruct x; make_call; exact Hend.
Qed.

Lemma deliver_buffered_follows attempts result n retry :
  follows (deliver_buffered s attempts result) (fun r m => delivered n retry r.1 m) (idle n retry).
Proof.
  unfold deliver_buffered. make_call. rename x into body. destruct (is_success result).
  - apply follows_bind. eapply follows_mono; [apply privacy_safe_body_follows|].
    intros [r|safe]  m Hm; [exact Hm|]; cbn in Hm; subst m. make_call. rename x into post.
    destruct (gr_blocked post); [|destruct (gr_failed post)].
    1, 2: apply follows_bind; eapply follows_mono; [apply reject_follows|]; done.
    apply follows_bind. eapply follows_mono; [apply caller_body_follows|].
    intros [r|caller]  m Hm; [exact Hm|]; cbn in Hm; subst m. apply follows_bind.
    eapply follows_mono; [apply write_body_follows|]. done.
  - apply follows_bind. eapply follows_mono; [apply deliver_error_body_follows|]. done.
Qed.
End Follows.
