(* ===== verification/AttemptLoop.v ===== *)
(** * The attempt loop follows its protocol

    The iterations, the loop and the whole of [serve_plan] against the automaton
    of [AttemptProtocol.v], and what an accepted trace says of the calls. *)

From stdpp Require Import base gmap list strings.
From Stdlib Require Import ZArith Lia.
From S2P Require Import Prelude GoStrings Policies Capabilities Config Privacy Fields.
From S2P Require Import Endpoints Ledger Lifecycle LifecycleStatus Admission Targets Picker Plan.
From S2P Require Import RetryBudget Retry Gateway AttemptState Attempts AttemptProtocol.

Local Open Scope Z_scope.

Section Loop.
Context (s : Serve) (limit : Z).

#[local] Arguments AttemptState.follows : simpl never.
Notation follows := (follows (step limit)).

Ltac make_call :=
  first [apply follows_last_call | apply follows_call]; intros ? ; eexists; split;
    [cbn; rewrite ?bool_decide_true by done; try reflexivity|cbv beta].

(** [forward] answers the caller and ends the request. *)
Lemma forward_follows response fb lease runtime started sel st n :
  st_attempts st = n + 1 -> coordinated s runtime ->
  follows (forward s response fb lease runtime started sel st) (turn_post (n + 1))
    (busy n (st_activeRetry st) (Some lease) runtime true true).
Proof.
  intros Hn Hc. unfold forward.
  set (st1 := set_record _ st). set (buffered := negb _ && _).
  assert (Hend : forall r m, delivered (n + 1) None r.1 m -> follows
    (let '(result, early) := r in
     let st := set_record (completeResponse result (st_record (set_retry None "" 0 st1)))
                 (set_retry None "" 0 st1) in
     if negb early && is_success result then
       now ← call TimeNow; _ ← call (RecordPromptAffinity sel now); mret (Return st)
     else mret (Return st)) (turn_post (n + 1)) m).
  { intros [result early] m (answer & Ha & ->). cbv iota zeta.
    set (st2 := set_record _ (set_retry None "" 0 st1)).
    assert (Hpost : turn_post (n + 1) (Return st2) (replied (n + 1) None answer)).
    { exists answer. split; [|done]. unfold record_agrees. cbn.
      rewrite Hn, Z.eqb_refl. destruct Ha as [-> | ->]; cbn; [done|].
      by rewrite Z.eqb_refl, String.eqb_refl. }
    destruct (negb early && is_success result); [|exact Hpost].
    make_call. make_call. exact Hpost. }
  make_call. rename x into primary. make_call.
  destruct buffered; apply follows_bind.
  - apply (recordAttempt_follows _ _ _ _ _ _ _ _ _ _ _ _ _ _ _ n _ NoReply); [done..|].
    apply follows_bind, releaseActiveRetry_follows; [done|]. apply follows_bind.
    eapply follows_mono; [apply deliver_buffered_follows|]. exact Hend.
  - apply (recordAttempt_follows _ _ _ _ _ _ _ _ _ _ _ _ _ _ _ n _ Relayed); [done..|].
    apply follows_bind, releaseActiveRetry_follows; [done|]. apply (Hend (primary, false)).
    exists Relayed. split; [by left|done].
Qed.

Lemma answered_follows response lease runtime started canRetry sel st n :
  st_attempts st = n + 1 -> coordinated s runtime ->
  follows (answered s response lease runtime started canRetry sel st) (turn_post (n + 1))
    (busy n (st_activeRetry st) (Some lease) runtime true true).
Proof.
  intros Hn Hc. unfold answered. make_call.
  destruct (_ && canRetry); [|by apply forward_follows].
  apply follows_bind, scheduleRetry_follows; [done..|]. intros st' will stop e Hn' Hrec _ Hw.
  cbv iota. change (set_m_retry (st_activeRetry st') (busy n (st_activeRetry st) (Some lease) runtime true true))
    with (busy n (st_activeRetry st') (Some lease) runtime true true).
  destruct (match e with Some _ => false | None => will end) eqn:Hwill.
  - make_call. make_call. apply follows_bind.
    apply (recordAttempt_follows _ _ _ _ _ _ _ _ _ _ _ _ _ _ _ n _ NoReply); [congruence|done|].
    apply after_failure_follows; [congruence|]. intros _. destruct e; [done|]. by apply Hw.
  - apply forward_follows; [congruence|done].
Qed.

Lemma send_attempt_follows lease runtime started canRetry sel st n :
  st_attempts st = n + 1 -> coordinated s runtime ->
  follows (send_attempt s lease runtime started canRetry sel st) (turn_post (n + 1))
    (busy n (st_activeRetry st) (Some lease) runtime true false).
Proof.
  intros Hn Hc. unfold send_attempt. apply follows_bind, upstream_body_follows.
  intros body st' Hn' Hr _. cbv iota. rewrite <- Hr.
  destruct (st_err st'); [apply unprepared_follows; [congruence|done]|].
  make_call. destruct x as [e|body'].
  { apply (unprepared_follows _ _ _ _ _ _ _ _ (set_err (Some e) st')); [|done]. cbn. congruence. }
  make_call. destruct x; [apply build_failed_follows; [congruence|done]|].
  make_call. destruct x; [apply send_failed_follows|apply answered_follows]; (congruence || done).
Qed.

Lemma runtime_attempt_follows started canRetry sel rest st n :
  st_attempts st = n + 1 -> sv_lifecycle s <> None ->
  follows (runtime_attempt s started canRetry sel rest st) (turn_post (n + 1))
    (busy n (st_activeRetry st) None None true false).
Proof.
  intros Hn Hl. unfold runtime_attempt. make_call. destruct x as [e|runtime].
  { by apply (runtime_refused_follows s limit e started canRetry sel rest (set_err (Some e) st)). }
  cbv zeta. make_call. destruct x as [lease|].
  - by apply (send_attempt_follows lease (Some runtime) started canRetry _ (set_err None st)); [|intros _].
  - by apply (target_refused_follows s limit runtime started canRetry _ (set_err None st)).
Qed.

(** An attempt may start when a retry lease is held, unless it is the first. *)
Definition may_start (st : attemptState) : Prop :=
  0 <= st_attempts st < limit /\ (0 < st_attempts st -> st_activeRetry st <> None).

Lemma start_attempt_follows lease sel rest st n :
  st_attempts st = n -> may_start st -> (lease = None -> sv_lifecycle s <> None) ->
  follows (start_attempt s lease sel rest st) (turn_post (n + 1))
    (mkMon true (st_activeRetry st) lease None false false false n NoReply false).
Proof.
  intros Hn [Hlim Hr] Hl. unfold start_attempt. cbv zeta. make_call. apply follows_call. intros [].
  exists (busy n (st_activeRetry st) lease None false false). split.
  { cbn. rewrite Hn. unfold guard_step. rewrite Z.eqb_refl.
    replace (n + 1 <=? limit) with true by (symmetry; apply Z.leb_le; lia). cbn.
    replace ((n + 1 =? 1) || _) with true; [done|]. symmetry. apply orb_true_iff.
    destruct (Z.eqb_spec (n + 1) 1); [by left|right]. unfold no_retry. cbn.
    destruct (st_activeRetry st); [done|]. exfalso. apply Hr; [lia|done]. }
  make_call. destruct (_ <=? 0) eqn:Et.
  - apply follows_bind.
    apply (record_failure_follows s limit _ _ _ _ _ _ _ None (set_attempts (st_attempts st + 1) st) n);
      [cbn; lia|by intros []|].
    apply follows_bind, releaseActiveRetry_follows; [done|]. apply follows_ret. cbn.
    rewrite Hn. done.
  - apply follows_call. intros []. exists (busy n (st_activeRetry st) lease None true false). split.
    { cbn. unfold guard_step. apply Z.leb_gt in Et. apply Z.ltb_lt in Et. by rewrite Et. }
    destruct lease as [lease|].
    + apply (send_attempt_follows lease None _ _ sel (set_attempts (st_attempts st + 1) st));
        [cbn; lia|by intros []].
    + apply (runtime_attempt_follows _ _ sel rest (set_attempts (st_attempts st + 1) st));
        [cbn; lia|by apply Hl].
Qed.

(** How an iteration may end: without an attempt, or after one. *)
Lemma attempt_turn_follows sel rest st n :
  st_attempts st = n -> may_start st ->
  follows (attempt_turn s sel rest st)
    (fun t m => turn_post (n + 1) t m \/
       (t = Next st \/ exists st', t = Break st' /\ st_attempts st' = n /\
                                   st_activeRetry st' = st_activeRetry st) /\
       m = idle n (st_activeRetry st))
    (idle n (st_activeRetry st)).
Proof.
  intros Hn Hs. unfold attempt_turn. make_call. rename x into now. destruct (negb _).
  { apply follows_ret. right. split; [|done]. right. by eexists. }
  unfold is_dynamic. destruct (sv_lifecycle s) as [c|] eqn:El.
  - destruct (IsDynamic c _).
    { eapply follows_mono; [apply (start_attempt_follows None); [done..|congruence]|]. by left. }
    make_call. destruct x as [lease|]; [|apply follows_ret; right; by split; [left|]].
    eapply follows_mono; [by apply (start_attempt_follows (Some lease))|]. by left.
  - make_call. destruct x as [lease|]; [|apply follows_ret; right; by split; [left|]].
    eapply follows_mono; [by apply (start_attempt_follows (Some lease))|]. by left.
Qed.

(** ** The loop *)
Definition loop_post (st : attemptState) (m : mon) : Prop :=
  exists n answer, 0 <= n <= Z.max 0 limit /\ record_agrees n answer (st_record st) = true /\
                   m = replied n (st_activeRetry st) answer.

Lemma final_failure_follows st n :
  st_attempts st = n -> 0 <= n <= Z.max 0 limit ->
  follows (final_failure st) loop_post (idle n (st_activeRetry st)).
Proof.
  intros Hn Hb. unfold final_failure. apply follows_bind, count_attempts_follows.
  destruct (_ && _); apply fail_follows; intros st' Hr _ Hrec; eexists n, _;
    (split; [done|]); (split; [|by rewrite Hr]); rewrite Hrec; by apply fail_agrees.
Qed.

Lemma attempt_loop_follows (total : Z) candidates : forall st,
  limit = Z.min (plan_MaxAttempts (sv_plan s)) total ->
  0 <= st_attempts st <= Z.max 0 limit -> st_attempts st + Z.of_nat (length candidates) <= total ->
  (0 < st_attempts st -> st_activeRetry st <> None) ->
  follows (attempt_loop s candidates st) loop_post (idle (st_attempts st) (st_activeRetry st)).
Proof.
  induction candidates as [|sel rest IH]; intros st Hl Hb Ht Hr; cbn [attempt_loop];
    [by apply final_failure_follows|].
  destruct (Z.leb_spec (plan_MaxAttempts (sv_plan s)) (st_attempts st)) as [Hm|Hm];
    [by apply final_failure_follows|].
  cbn [length] in Ht. apply follows_bind.
  eapply follows_mono; [apply attempt_turn_follows; [done|split; [lia|done]]|].
  intros t m [Hpost|[[->|(st' & -> & Hn & Hr')] ->]].
  - destruct t as [st'|st'|st']; cbn in Hpost.
    + destruct Hpost as (Hn & Hr' & ->). rewrite <- Hn. apply IH; (lia || done).
    + destruct Hpost as (Hn & ->). apply final_failure_follows; [done|lia].
    + destruct Hpost as (answer & Ha & ->). exists (st_attempts st + 1), answer.
      split; [lia|done].
  - apply IH; (lia || done).
  - rewrite <- Hr'. apply final_failure_follows; [done|lia].
Qed.

(** ** A whole request *)
Lemma serve_plan_follows record :
  limit = Z.min (plan_MaxAttempts (sv_plan s)) (Z.of_nat (length (plan_Candidates (sv_plan s)))) ->
  follows (serve_plan s record)
    (fun _ m => m_finished m = true /\ m_open m = false /\ at_rest m = true /\ no_retry m = true /\
                0 <= m_recorded m <= Z.max 0 limit) start_mon.
Proof.
  intros Hl. unfold serve_plan. cbv zeta. make_call. apply follows_bind.
  eapply follows_mono.
  { apply (attempt_loop_follows (Z.of_nat (length (plan_Candidates (sv_plan s)))));
      [done|cbn; lia|cbn; lia|cbn; lia]. }
  intros st m (n & answer & Hn & Ha & ->). apply follows_bind, releaseActiveRetry_follows; [done|].
  make_call. unfold observation_finish. make_call. apply follows_call. intros [].
  eexists. split.
  { cbn. unfold guard_step. change (record_agrees n answer (finish_record x1 (st_record st)))
      with (record_agrees n answer (st_record st)). rewrite Ha. reflexivity. }
  make_call. make_call. done.
Qed.
End Loop.
