(* ===== verification/AttemptTheorems.v ===== *)
(** * What a request does with its leases, records and answer

    Consequences of the protocol for every run of [serve_plan], whatever the
    clocks, the admission, the upstream and the transformations answer; and a
    flaw of the loop: the error of a refused admission outlives its iteration. *)

From stdpp Require Import base gmap list strings numbers.
From Stdlib Require Import ZArith Lia.
From S2P Require Import Prelude GoStrings Policies Capabilities Config Privacy Fields.
From S2P Require Import Endpoints Ledger Lifecycle LifecycleStatus Admission Targets Picker Plan.
From S2P Require Import RetryBudget Retry Gateway AttemptState Attempts AttemptProtocol AttemptLoop.

Local Open Scope Z_scope.

(** ** Reading a trace *)
Notation trace := (list (event serveE)).

Definition acquired_target (ev : event serveE) : option TargetLease :=
  match ev with
  | Event e x => match e in serveE X return X -> option TargetLease with
                 | AcquireTarget _ => fun lease => lease
                 | _ => fun _ => None
                 end x
  end.

Definition completed_target (ev : event serveE) : option TargetLease :=
  match ev with
  | Event e _ => match e with CompleteTarget lease _ _ => lease | _ => None end
  end.

Definition acquired_runtime (ev : event serveE) : option AdmissionLease :=
  match ev with
  | Event e x => match e in serveE X return X -> option AdmissionLease with
                 | AcquireRuntime _ => fun r => match r with inr lease => Some lease | inl _ => None end
                 | _ => fun _ => None
                 end x
  end.

Definition released_runtime (ev : event serveE) : option AdmissionLease :=
  match ev with
  | Event e _ => match e with ReleaseRuntime lease _ => Some lease | _ => None end
  end.

Definition reserved_retry (ev : event serveE) : option retryBudgetLease :=
  match ev with
  | Event e x => match e in serveE X return X -> option retryBudgetLease with
                 | ReserveRetry _ _ _ => fun r => match r with inr r => Some (rr_lease r) | inl _ => None end
                 | _ => fun _ => None
                 end x
  end.

Definition released_retry (ev : event serveE) : option retryBudgetLease :=
  match ev with
  | Event e _ => match e with ReleaseRetry lease => Some lease | _ => None end
  end.

Definition recorded_attempt (ev : event serveE) : option AttemptRecord :=
  match ev with
  | Event e _ => match e with RecordLedger r => lr_Attempt r | _ => None end
  end.

Definition recorded_request (ev : event serveE) : option RequestRecord :=
  match ev with
  | Event e _ => match e with RecordLedger r => lr_Request r | _ => None end
  end.

(** What the caller is sent. *)
Definition sent_reply (ev : event serveE) : option reply :=
  match ev with
  | Event e _ =>
      match e with
      | WriteError status code _ => Some (ErrorReply status code)
      | WriteBufferedResponse _ => Some Relayed
      | ProxyResponse buffered _ _ _ _ => if buffered then None else Some Relayed
      | _ => None
      end
  end.

Definition option_list {A} (o : option A) : list A := match o with Some x => [x] | None => [] end.

Definition reply_list (r : reply) : list reply := match r with NoReply => [] | r => [r] end.

(** ** What the protocol keeps true *)
Section Invariants.
Context (limit : Z).

Lemma guard_step_Some b m m' : guard_step b m = Some m' -> b = true /\ m' = m.
Proof. destruct b; cbn; [|done]. by intros [= <-]. Qed.

(** Cases of one step. *)
Ltac step_cases ev m :=
  destruct ev as [X e x]; destruct m as [op retry target runtime span timer body recorded answer fin];
  destruct e; cbn; intros Hstep;
  try (apply guard_step_Some in Hstep as [Hg ->]; cbn in Hg |- * );
  try (injection Hstep as <-; cbn).

(** What is acquired in a trace is given back in the same order, up to what is
    still held. *)
Lemma balanced {A} (acquire release : event serveE -> option A) (held : mon -> option A) tr : forall m m',
  (forall m ev m', step_event (step limit) m ev = Some m' ->
     option_list (held m) ++ option_list (acquire ev) =
     option_list (release ev) ++ option_list (held m')) ->
  accepts (step limit) m tr = Some m' ->
  option_list (held m) ++ omap acquire tr = omap release tr ++ option_list (held m').
Proof.
  intros m m' Hstep. revert m m'. induction tr as [|ev tr IH]; intros m m'; cbn [accepts].
  - intros [= <-]. by rewrite app_nil_r.
  - destruct (step_event (step limit) m ev) as [m1|] eqn:E; [|done]. intros Ha%IH.
    apply Hstep in E. change (ev :: tr) with ([ev] ++ tr). rewrite !omap_app.
    change (omap acquire [ev]) with (option_list (acquire ev)).
    change (omap release [ev]) with (option_list (release ev)).
    by rewrite app_assoc, E, <- !app_assoc, Ha.
Qed.

Lemma target_step m ev m' :
  step_event (step limit) m ev = Some m' ->
  option_list (m_target m) ++ option_list (acquired_target ev) =
  option_list (completed_target ev) ++ option_list (m_target m').
Proof.
  step_cases ev m; rewrite ?app_nil_r; try done.
  - apply andb_prop in Hg as [Hg _]. apply andb_prop in Hg as [_ Hg]. by destruct target.
  - apply andb_prop in Hg as [->%bool_decide_eq_true _]. by destruct target.
  - destruct record as [k [q|] [a|] v]; cbn in Hstep; try done; by apply guard_step_Some in Hstep as [_ ->].
Qed.

Lemma runtime_step m ev m' :
  step_event (step limit) m ev = Some m' ->
  option_list (m_runtime m) ++ option_list (acquired_runtime ev) =
  option_list (released_runtime ev) ++ option_list (m_runtime m').
Proof.
  step_cases ev m; rewrite ?app_nil_r; try done.
  - apply andb_prop in Hg as [Hg _]. apply andb_prop in Hg as [_ Hg]. by destruct runtime, x.
  - by apply andb_prop in Hg as [->%bool_decide_eq_true _].
  - destruct record as [k [q|] [a|] v]; cbn in Hstep; try done; by apply guard_step_Some in Hstep as [_ ->].
Qed.

Lemma retry_step m ev m' :
  step_event (step limit) m ev = Some m' ->
  option_list (m_retry m) ++ option_list (reserved_retry ev) =
  option_list (released_retry ev) ++ option_list (m_retry m').
Proof.
  step_cases ev m; rewrite ?app_nil_r; try done.
  - apply andb_prop in Hg as [Hg _]. apply andb_prop in Hg as [_ Hg]. unfold no_retry in Hg.
    cbn in Hg. by destruct retry, x.
  - by apply bool_decide_eq_true in Hg as ->.
  - destruct record as [k [q|] [a|] v]; cbn in Hstep; try done; by apply guard_step_Some in Hstep as [_ ->].
Qed.

(** The attempts of the ledger are numbered from one. *)
Lemma recorded_step m ev m' :
  step_event (step limit) m ev = Some m' ->
  m_recorded m' = m_recorded m + (match recorded_attempt ev with Some _ => 1 | None => 0 end) /\
  (forall a, recorded_attempt ev = Some a -> Ledger.ar_Attempt a = m_recorded m + 1).
Proof.
  step_cases ev m; try (split; [lia|done]).
  destruct record as [k [q|] [a|] v]; cbn in Hstep |- *; try done;
    apply guard_step_Some in Hstep as [Hg ->]; cbn; (split; [lia|]); [done|].
  intros ? [= <-]. apply andb_prop in Hg as [_ Hg%Z.eqb_eq]. done.
Qed.

Lemma attempts_numbered tr m :
  accepts (step limit) start_mon tr = Some m ->
  Ledger.ar_Attempt <$> omap recorded_attempt tr = seqZ 1 (m_recorded m) /\ 0 <= m_recorded m.
Proof.
  apply (accepts_invariant (step limit) (fun tr m =>
    Ledger.ar_Attempt <$> omap recorded_attempt tr = seqZ 1 (m_recorded m) /\ 0 <= m_recorded m)).
  - done.
  - clear tr m. intros tr m ev m' [IH Hn] [Hr Ha]%recorded_step. rewrite omap_app, fmap_app, IH, Hr.
    split; [|destruct (recorded_attempt ev); lia]. cbn.
    destruct (recorded_attempt ev) as [a|]; cbn; [|by rewrite Z.add_0_r, app_nil_r].
    rewrite (Ha a) by done. rewrite seqZ_app by lia. f_equal.
    change (seqZ (1 + m_recorded m) 1) with [0 + (1 + m_recorded m)]. by rewrite Z.add_0_l, Z.add_comm.
Qed.

(** One answer, and one request record, which agrees with it. *)
Lemma reply_step m ev m' :
  step_event (step limit) m ev = Some m' ->
  reply_list (m_reply m') = reply_list (m_reply m) ++ option_list (sent_reply ev) /\
  (forall r, recorded_request ev = Some r ->
     m_finished m = false /\ m_finished m' = true /\
     record_agrees (m_recorded m) (m_reply m) r = true) /\
  (recorded_request ev = None -> m_finished m' = m_finished m).
Proof.
  step_cases ev m; rewrite ?app_nil_r; try done.
  - apply andb_prop in Hg as [_ Hg]. unfold no_reply in Hg. cbn in Hg. destruct answer; [|done..].
    by destruct buffered.
  - apply andb_prop in Hg as [_ Hg]. unfold no_reply in Hg. cbn in Hg. by destruct answer.
  - apply andb_prop in Hg as [_ Hg]. unfold no_reply in Hg. cbn in Hg. by destruct answer.
  - destruct record as [k [q|] [a|] v]; cbn in Hstep; try done;
      apply guard_step_Some in Hstep as [Hg ->]; cbn; rewrite ?app_nil_r; split_and!; try done.
    intros r [= <-]. apply andb_prop in Hg as [Hg Ha]. apply andb_prop in Hg as [_ Hf].
    by destruct fin.
Qed.

(** Once the request is recorded nothing is recorded or sent any more. *)
Lemma finished_step m ev m' :
  step_event (step limit) m ev = Some m' -> m_finished m = true -> m_open m = false ->
  recorded_request ev = None /\ m_finished m' = true /\ m_open m' = false /\
  m_recorded m' = m_recorded m /\ m_reply m' = m_reply m.
Proof.
  step_cases ev m; try (intros; subst; done).
  - intros -> ->. destruct record as [k [q|] [a|] v]; cbn in Hstep; try done;
  apply guard_step_Some in Hstep as [Hg _]; cbn in Hg; by rewrite ?andb_false_r in Hg.
Qed.

Lemma request_step m ev m' r :
  step_event (step limit) m ev = Some m' -> recorded_request ev = Some r ->
  m_open m' = false /\ m_recorded m' = m_recorded m /\ m_reply m' = m_reply m.
Proof.
  step_cases ev m; try done.
  destruct record as [k [q|] [a|] v]; cbn in Hstep |- *; try done;
    apply guard_step_Some in Hstep as [Hg ->]; cbn.
  intros _. repeat (apply andb_prop in Hg as [Hg _]). by destruct op.
Qed.

Lemma omap_snoc {A B} (f : A -> option B) l x : omap f (l ++ [x]) = omap f l ++ option_list (f x).
Proof. by rewrite omap_app. Qed.

(** One request record, which agrees with what was sent. *)
Lemma answered_once tr m :
  accepts (step limit) start_mon tr = Some m ->
  omap sent_reply tr = reply_list (m_reply m) /\
  if m_finished m then
    m_open m = false /\
    exists r, omap recorded_request tr = [r] /\ record_agrees (m_recorded m) (m_reply m) r = true
  else omap recorded_request tr = [].
Proof.
  apply (accepts_invariant (step limit) (fun tr m =>
    omap sent_reply tr = reply_list (m_reply m) /\
    if m_finished m then
      m_open m = false /\
      exists r, omap recorded_request tr = [r] /\ record_agrees (m_recorded m) (m_reply m) r = true
    else omap recorded_request tr = [])); [done|].
  clear tr m. intros tr m ev m' [Hs Hr] Hstep. rewrite !omap_snoc.
  pose proof (reply_step _ _ _ Hstep) as (Hs' & Hq & Hf). split; [by rewrite Hs, Hs'|].
  destruct (m_finished m) eqn:Ef.
  - destruct Hr as (Ho & r & Hr & Ha).
    destruct (finished_step _ _ _ Hstep Ef Ho) as (E1 & E2 & E3 & E4 & E5).
    rewrite E1, E2, E4, E5, Hr. split; [done|]. by exists r.
  - destruct (recorded_request ev) as [r|] eqn:Er.
    + destruct (Hq r eq_refl) as (_ & -> & Ha). rewrite Hr. cbn.
      destruct (request_step _ _ _ _ Hstep Er) as (Ho & -> & ->). split; [done|]. by exists r.
    + by rewrite (Hf eq_refl), Hr.
Qed.
End Invariants.

(** ** Claims *)

(** The number of attempts a plan allows. *)
Definition attempt_limit (s : Serve) : Z :=
  Z.min (plan_MaxAttempts (sv_plan s)) (Z.of_nat (length (plan_Candidates (sv_plan s)))).

Lemma serve_plan_accepted s record tr u :
  runs (serve_plan s record) tr u ->
  exists m, accepts (step (attempt_limit s)) start_mon tr = Some m /\
    m_finished m = true /\ m_open m = false /\ at_rest m = true /\ no_retry m = true /\
    0 <= m_recorded m <= Z.max 0 (attempt_limit s).
Proof. intros Hr. by eapply follows_runs in Hr; [|by apply serve_plan_follows]. Qed.

(** C3: Every request follows the attempt protocol, whatever the clocks, the
    admission, the upstream, the guardrails and the transformations answer: a
    target or runtime is acquired only when none is held, a request is sent
    only with a target admitted and inside its timeout, an attempt after the
    first is made only under a retry lease, the loop sleeps only when it holds no
    capacity, nothing is attempted once an answer is sent, and at the end no
    lease, timer or response body is held and the budget request is closed. *)
Theorem attempts_follow_protocol s record tr u :
  runs (serve_plan s record) tr u ->
  exists m, accepts (step (attempt_limit s)) start_mon tr = Some m /\
    m_finished m = true /\ m_open m = false /\ at_rest m = true /\ m_retry m = None.
Proof.
  intros (m & Ha & Hf & Ho & Hat & Hr & _)%serve_plan_accepted. exists m. split_and!; try done.
  unfold no_retry in Hr. by destruct (m_retry m).
Qed.

(** C4: Nothing leaks: in every run, the target leases that were acquired are
    completed, the endpoint leases released and the retry leases released, each
    exactly once and in the order in which they were acquired. *)
Theorem attempt_leases_balanced s record tr u :
  runs (serve_plan s record) tr u ->
  omap completed_target tr = omap acquired_target tr /\
  omap released_runtime tr = omap acquired_runtime tr /\
  omap released_retry tr = omap reserved_retry tr.
Proof.
  intros (m & Ha & _ & _ & Hat & Hr & _)%serve_plan_accepted.
  pose proof (balanced _ _ _ m_target tr _ _ (target_step _) Ha) as H1.
  pose proof (balanced _ _ _ m_runtime tr _ _ (runtime_step _) Ha) as H2.
  pose proof (balanced _ _ _ m_retry tr _ _ (retry_step _) Ha) as H3.
  unfold at_rest, no_retry in *. destruct (m_target m), (m_runtime m), (m_retry m); try done.
  cbn in *. rewrite app_nil_r in *. done.
Qed.

(** C5: The ledger tells the truth about a request: its attempts are recorded
    in order and numbered from one, no more of them than the plan allows or than
    it has candidates; the request is recorded exactly once, and that record's
    attempt count is the number of attempt records; at most one answer is sent,
    and when it is an error the record carries its status and its code, while a
    request without an answer is recorded as cancelled by its client. *)
Theorem ledger_tells_the_truth s record tr u :
  runs (serve_plan s record) tr u ->
  exists r n,
    omap recorded_request tr = [r] /\ rr_AttemptCount r = n /\
    Ledger.ar_Attempt <$> omap recorded_attempt tr = seqZ 1 n /\
    0 <= n <= Z.max 0 (Z.min (plan_MaxAttempts (sv_plan s))
                        (Z.of_nat (length (plan_Candidates (sv_plan s))))) /\
    match omap sent_reply tr with
    | [] => rr_HTTPStatus r = 0 /\ rr_Outcome r = OutcomeClientCancelled
    | [ErrorReply status code] => rr_HTTPStatus r = status /\ rr_FailureClass r = code
    | [Relayed] => True
    | _ => False
    end.
Proof.
  intros (m & Ha & Hf & _ & _ & _ & Hn)%serve_plan_accepted.
  destruct (attempts_numbered _ _ _ Ha) as [Hnum _].
  destruct (answered_once _ _ _ Ha) as [Hs Hr]. rewrite Hf in Hr. destruct Hr as (_ & r & Hr & Hg).
  unfold record_agrees in Hg. apply andb_prop in Hg as [Hc%Z.eqb_eq Hg].
  exists r, (m_recorded m). split_and!; try done; try (unfold attempt_limit in Hn; lia).
  rewrite Hs. destruct (m_reply m); cbn; try done.
  - by apply andb_prop in Hg as [Hg1%Z.eqb_eq Hg2%String.eqb_eq].
  - by apply andb_prop in Hg as [Hg1%Z.eqb_eq Hg2%String.eqb_eq].
Qed.

(** ** The error of a refused admission outlives its iteration *)

(** The bodies that are only copied: [err] is not assigned. *)
Definition copies_body (s : Serve) (selection : Selection) : bool :=
  let protocol := selectionUpstreamProtocol selection in
  match sv_profile s with
  | Some _ => true
  | None =>
      bool_decide (sv_operation s = openAIOperationChatCompletions) &&
        (String.eqb protocol ProtocolBedrock || String.eqb protocol ProtocolGemini) ||
      bool_decide (sv_operation s = openAIOperationEmbeddings) && String.eqb protocol ProtocolGemini &&
        negb (1 <? sv_geminiEmbeddingInputCount s)
  end.

Definition sends (ev : event serveE) : option Selection :=
  match ev with
  | Event e _ => match e with SendUpstream selection => Some selection | _ => None end
  end.

(** The monitor that keeps the trace. *)
Definition keep (tr : trace) (X : Type) (e : serveE X) (x : X) : option trace :=
  Some (tr ++ [Event e x]).

Lemma accepts_keep tr0 tr : accepts keep tr0 tr = Some (tr0 ++ tr).
Proof.
  revert tr0. induction tr as [|[X e x] tr IH]; intros tr0; cbn; [by rewrite app_nil_r|].
  rewrite IH. by rewrite <- app_assoc.
Qed.

Lemma runs_keep {A} (p : proc A) (Q : A -> trace -> Prop) tr a :
  follows keep p Q [] -> runs p tr a -> Q a tr.
Proof.
  intros H Hr. destruct (follows_runs _ _ _ _ _ _ H Hr) as (tr' & Ha & HQ).
  rewrite accepts_keep in Ha. by injection Ha as <-.
Qed.

Lemma upstream_body_copied s sel st :
  copies_body s sel = true -> exists body,
    upstream_body s sel st =
      (match sv_profile s with
       | Some selector => _ ← call (TraceProfile selector (dep_Name (sel_Deployment sel)));
                          mret (body, set_embedding
                            (let p := default no_profile_request
                                        (sv_profileRequests s !! dep_Name (sel_Deployment sel)) in
                             (ppr_embeddingDimensions p, ppr_embeddingInputCount p)) st)
       | None => mret (body, st)
       end).
Proof.
  unfold copies_body, upstream_body. destruct (sv_profile s); [by eexists|].
  destruct (bool_decide (_ = openAIOperationChatCompletions)) eqn:Eo; cbn [andb orb].
  - apply bool_decide_eq_true in Eo. rewrite Eo.
    rewrite (bool_decide_false (openAIOperationChatCompletions = openAIOperationEmbeddings)) by done.
    cbn [andb]. rewrite orb_false_r. intros [Hb|Hg]%orb_prop; [rewrite Hb; by eexists|].
    destruct (String.eqb _ ProtocolBedrock); [by eexists|].
    destruct (String.eqb _ ProtocolAnthropic) eqn:Ea.
    { apply String.eqb_eq in Ea. by rewrite Ea in Hg. }
    rewrite Hg. by eexists.
  - intros [[-> ->]%andb_prop Hn%negb_true_iff]%andb_prop. cbn. rewrite Hn. by eexists.
Qed.

Lemma unprepared_trace s class message lease runtime started sel st tr0 :
  omap sends tr0 = [] -> omap sent_reply tr0 = [] ->
  follows keep (unprepared s class message lease runtime started sel st)
    (fun t tr =>
       omap sends tr = [] /\ omap sent_reply tr = [ErrorReply StatusInternalServerError class] /\
       exists st', t = Return st' /\ rr_HTTPStatus (st_record st') = StatusInternalServerError /\
                   rr_FailureClass (st_record st') = class) tr0.
Proof.
  intros H1 H2. unfold unprepared, record_failure, recordAttempt, release_runtime, releaseActiveRetry.
  destruct (sv_lifecycle s), runtime, (st_activeRetry st); cbn; intros;
    rewrite !omap_app, H1, H2; (split; [done|]); (split; [done|]); by eexists.
Qed.

(** C7: The loop keeps one [err] for all its iterations, and a candidate whose
    body is only copied (a request profile, or a Chat Completions request
    translated for Bedrock or Gemini) does not assign it.  So when the error of
    an earlier candidate's admission is still there, the attempt with such a
    candidate is never sent: the request ends with status 500 and
    ["request_rewrite_error"], although the candidate was admitted. *)
Theorem stale_admission_error_refuses s lease runtime started canRetry sel st e tr t :
  copies_body s sel = true -> st_err st = Some e ->
  runs (send_attempt s lease runtime started canRetry sel st) tr t ->
  omap sends tr = [] /\
  omap sent_reply tr = [ErrorReply StatusInternalServerError "request_rewrite_error"] /\
  exists st', t = Return st' /\ rr_HTTPStatus (st_record st') = StatusInternalServerError /\
              rr_FailureClass (st_record st') = "request_rewrite_error"%string.
Proof.
  intros Hc He Hr.
  refine (runs_keep _ (fun t tr => _) _ _ _ Hr).
  unfold send_attempt. destruct (upstream_body_copied s sel st Hc) as [body ->].
  apply follows_bind. destruct (sv_profile s) as [selector|].
  - intros []. cbn [keep]. apply follows_ret. cbn [st_err set_embedding]. rewrite He.
    by apply unprepared_trace.
  - apply follows_ret. rewrite He. by apply unprepared_trace.
Qed.
