(* ===== verification/AttemptSystem.v ===== *)
(** * A request against the target manager and the retry budget

    The attempt loop composed with the components it calls: [connected] answers
    the calls to targets and retries with [Targets.v], [RetryBudget.v] and
    [reserveRetry], and leaves every other call, the clock and the random draws
    to an arbitrary outside. *)

From stdpp Require Import base gmap list strings.
From Stdlib Require Import ZArith Lia.
From S2P Require Import Prelude GoStrings Policies Capabilities Config Privacy Fields.
From S2P Require Import Endpoints Ledger Lifecycle LifecycleStatus Admission Targets TargetFacts.
From S2P Require Import TargetSystem Picker Plan RetryBudget RetryBudgetTheorems Retry Gateway.
From S2P Require Import AttemptState Attempts AttemptProtocol AttemptLoop AttemptTheorems.

Local Open Scope Z_scope.

(** ** The connected world *)
Section System.
Context `{UnicodeTables} `{HttpTime} {W : Type} `{Entropy W}.

(** [x_rest] is the state of the outside, [x_panic] whether a call has
    panicked. *)
Record connection := mkConnection {
  x_targets : TargetManager;
  x_budget : RetryBudgetManager;
  x_request : option retryBudgetRequest;
  x_panic : bool;
  x_rest : W;
}.

Definition panicked (w : connection) : connection :=
  mkConnection (x_targets w) (x_budget w) (x_request w) true (x_rest w).
Definition with_targets (m : TargetManager) (w : connection) : connection :=
  mkConnection m (x_budget w) (x_request w) (x_panic w) (x_rest w).
Definition with_budget (m : RetryBudgetManager) (r : option retryBudgetRequest) (w : connection)
  : connection := mkConnection (x_targets w) m r (x_panic w) (x_rest w).
Definition with_rest (rest : W) (w : connection) : connection :=
  mkConnection (x_targets w) (x_budget w) (x_request w) (x_panic w) rest.

(** The outside: its answers, the clock, and the picker of the retry delays. *)
Context (outside : forall X, serveE X -> W -> X * W) (clock : W -> Z).
Context (picker : option (WeightedPicker W)) (s : Serve).

Definition connected_retry (retryNumber : Z) (retryAfter reason : string) (w : connection)
  : ((retryStopReason * option string) + retryReservation) * connection :=
  match x_request w with
  | None => (inl (retryPolicyDisabled, None), panicked w)
  | Some request =>
      match reserveRetry (Some (sv_overallDeadline s)) (clock (x_rest w)) (clock (x_rest w))
              (x_budget w) request (plan_Retry (sv_plan s)) retryNumber retryAfter reason picker
              (x_rest w) with
      | None => (inl (retryPolicyDisabled, None), panicked w)
      | Some res =>
          (match res_reservation res with
           | Some r => inr r
           | None => inl (res_stop res, res_error res)
           end,
           with_rest (res_world res) (with_budget (res_manager res) (Some request) w))
      end
  end.

Definition connected (X : Type) (e : serveE X) (w : connection) : X * connection :=
  match e in serveE X return X * connection with
  | AcquireTarget name =>
      let '(r, m, _) := Targets.Acquire (x_targets w) (clock (x_rest w)) name in
      (match r with inl lease => Some lease | inr _ => None end, with_targets m w)
  | CompleteTarget lease result class =>
      match Targets.CompleteWithFailureClass (x_targets w) (clock (x_rest w)) lease result class with
      | Some (_, m, lease, _) => (lease, with_targets m w)
      | None => (lease, panicked w)
      end
  | BeginBudgetRequest =>
      let '(m, r) := BeginRequest (x_budget w) (plan_VirtualModel (sv_plan s))
                       (erp_Budget (plan_Retry (sv_plan s))) in
      (tt, with_budget m (Some r) w)
  | ReserveRetry n after reason => connected_retry n after reason w
  | ReleaseRetry lease =>
      match RetryBudget.Release (x_budget w) (Some lease) with
      | Some (m, _, _) => (tt, with_budget m (x_request w) w)
      | None => (tt, panicked w)
      end
  | EndBudgetRequest =>
      match x_request w ≫= RetryBudget.EndRequest (x_budget w) with
      | Some (m, r) => (tt, with_budget m (Some r) w)
      | None => (tt, panicked w)
      end
  | e => let '(x, rest) := outside _ e (x_rest w) in (x, with_rest rest w)
  end.

(** ** What a request holds of the managers *)
Context (targets0 : TargetManager) (budget0 : RetryBudgetManager).

Definition holds_target (m : mon) (name : string) : Z :=
  match m_target m with Some l => if String.eqb (tl_Deployment l) name then 1 else 0 | None => 0 end.

Definition targets_agree (m : mon) (targets : TargetManager) : Prop :=
  (forall name, match tm_targets targets !! name, tm_targets targets0 !! name with
     | Some t, Some t0 => wf t /\ t_active t = t_active t0 + holds_target m name
     | None, None => True
     | _, _ => False
     end) /\
  (forall l, m_target m = Some l ->
     tl_completed l = false /\ is_Some (tm_targets targets !! tl_Deployment l)).

Definition vm : string := plan_VirtualModel (sv_plan s).

Definition budget_agree (m : mon) (w : connection) : Prop :=
  let held := if m_open m then 1 else 0 in
  let retries := match m_retry m with Some _ => 1 | None => 0 end in
  (forall name, counters (x_budget w) name =
     if String.eqb name vm
     then {| rbs_activeRequests := rbs_activeRequests (counters budget0 name) + held;
             rbs_activeRetries := rbs_activeRetries (counters budget0 name) + retries |}
     else counters budget0 name) /\
  (m_open m = true ->
     is_Some (rbm_models (x_budget w) !! vm) /\
     exists policy, x_request w = Some (mkRetryBudgetRequest vm policy false)) /\
  (forall l, m_retry m = Some l -> m_open m = true /\ l = mkRetryBudgetLease vm false).

Record agree (m : mon) (w : connection) : Prop := {
  ag_targets : targets_agree m (x_targets w);
  ag_budget : budget_agree m w;
  ag_panic : x_panic w = false;
}.

Lemma agree_ext m m' w w' :
  agree m w -> m_target m' = m_target m -> m_open m' = m_open m -> m_retry m' = m_retry m ->
  x_targets w' = x_targets w -> x_budget w' = x_budget w -> x_request w' = x_request w ->
  x_panic w' = x_panic w -> agree m' w'.
Proof.
  intros [Ht Hb Hp] E1 E2 E3 E4 E5 E6 E7. unfold targets_agree, budget_agree, holds_target in *.
  split; unfold targets_agree, budget_agree, holds_target; rewrite ?E1, ?E2, ?E3, ?E4, ?E5, ?E6; try done.
  congruence.
Qed.

(** *** Targets *)
Lemma acquire_agree limit m w name m' :
  agree m w ->
  step limit m _ (AcquireTarget name) (connected _ (AcquireTarget name) w).1 = Some m' ->
  agree m' (connected _ (AcquireTarget name) w).2.
Proof.
  intros Hag. destruct m as [op retry target ru sp ti bo re an fi]. cbn [connected].
  destruct (Targets.Acquire (x_targets w) (clock (x_rest w)) name) as [[r tm] ev] eqn:Ea. cbn.
  intros [Hg ->]%guard_step_Some. apply andb_prop in Hg as [Hg _]. apply andb_prop in Hg as [_ Hg].
  destruct target; [done|]. destruct Hag as [[Ht Hl] Hb Hp].
  split; [|destruct r; exact Hb|done]. unfold Targets.Acquire in Ea.
  destruct (tm_targets (x_targets w) !! name) as [t|] eqn:En.
  2:{ injection Ea as <- <- _. split; [|done]. exact Ht. }
  pose proof (Acquire_cases (x_targets w) (clock (x_rest w)) name t En) as Hc.
  unfold Targets.Acquire in Hc. rewrite En in Hc. rewrite Ea in Hc. cbv zeta in Hc.
  pose proof (Ht name) as Hn. rewrite En in Hn. unfold holds_target in Hn. cbn in Hn.
  destruct (tm_targets targets0 !! name) as [t0|] eqn:E0; [|done]. destruct Hn as [Hw Hact].
  pose proof (advance_frame t (clock (x_rest w))) as [_ _ _ Hfa].
  pose proof (advance_wf t (clock (x_rest w)) Hw) as Hwa.
  destruct (admission_reason (advance t (clock (x_rest w))).1) as [reason|] eqn:Er;
    injection Hc as -> -> _.
  - split; [|done]. intros name'. unfold holds_target. cbn. rewrite lookup_insert.
    case_decide as Hd; [subst name'; rewrite E0; split; [done|lia]|].
    specialize (Ht name'). unfold holds_target in Ht. exact Ht.
  - split.
    + intros name'. unfold holds_target. cbn. rewrite lookup_insert.
      case_decide as Hd.
      * subst name'. rewrite E0. split; [by apply grant_wf|].
        destruct (grant_fields (advance t (clock (x_rest w))).1) as (_ & _ & _ & _ & _ & -> & _).
        cbn. rewrite String.eqb_refl. lia.
      * cbn. destruct (String.eqb_spec name name'); [done|]. specialize (Ht name').
        unfold holds_target in Ht. exact Ht.
    + cbn. intros l [= <-]. cbn. split; [done|]. rewrite lookup_insert_eq. eauto.
Qed.

Lemma complete_agree limit m w lease result class m' :
  (forall name t, tm_targets targets0 !! name = Some t -> 0 <= t_active t) ->
  agree m w ->
  step limit m _ (CompleteTarget lease result class)
    (connected _ (CompleteTarget lease result class) w).1 = Some m' ->
  agree m' (connected _ (CompleteTarget lease result class) w).2.
Proof.
  intros Hpos Hag. destruct m as [op retry target ru sp ti bo re an fi].
  intros Hstep. cbn [step] in Hstep. apply guard_step_Some in Hstep as [Hg ->].
  apply andb_prop in Hg as [->%bool_decide_eq_true _]. destruct Hag as [[Ht Hl] Hb Hp].
  cbn [connected]. unfold Targets.CompleteWithFailureClass. destruct target as [l|]; cbn.
  2:{ split; [split; [exact Ht|done]|exact Hb|done]. }
  destruct (Hl l eq_refl) as [Hc [t Et]]. rewrite Hc. cbn.
  set (l1 := Targets.mkTargetLease _ _ _ _ _ _ _ _). unfold Targets.finish. cbn. rewrite Et. cbn.
  pose proof (Ht (tl_Deployment l)) as Hn. rewrite Et in Hn. unfold holds_target in Hn. cbn in Hn.
  rewrite String.eqb_refl in Hn. destruct (tm_targets targets0 !! tl_Deployment l) as [t0|] eqn:E0; [|done].
  destruct Hn as [Hw Hact].
  destruct (release_spec t (clock (x_rest w)) l1 result class Hw) as (t' & l' & tr & Hr & Hw' & Ha' & _ & _ & _ & _ & _ & -> & _).
  { specialize (Hpos _ _ E0). lia. }
  rewrite Hr. cbn. split; [|exact Hb|done]. split; [|done].
  intros name. unfold holds_target. cbn. rewrite lookup_insert. case_decide as Hd.
  - destruct Hd. cbn. rewrite E0. split; [done|]. lia.
  - specialize (Ht name). cbn in Hd. unfold holds_target in Ht. cbn in Ht.
    destruct (String.eqb_spec (tl_Deployment l) name); [done|]. exact Ht.
Qed.

(** *** Retries *)
Lemma begin_agree limit m w m' :
  agree m w ->
  step limit m _ BeginBudgetRequest (connected _ BeginBudgetRequest w).1 = Some m' ->
  agree m' (connected _ BeginBudgetRequest w).2.
Proof.
  intros Hag. destruct m as [op retry target ru sp ti bo re an fi].
  intros Hstep. cbn [step] in Hstep. apply guard_step_Some in Hstep as [Hg ->].
  apply andb_prop in Hg as [Ho%negb_true_iff _]. cbn in Ho. subst op. destruct Hag as [Ht (Hc & Ho & Hr) Hp].
  destruct retry as [l|]; [by destruct (Hr l eq_refl)|].
  split; [exact Ht| |done]. split_and!; [|intros _|done].
  - intros name. cbn. change (default _ (rbm_models (x_budget w) !! vm)) with (counters (x_budget w) vm).
    rewrite counters_set. fold vm.
    change (match rbm_models (x_budget w) !! vm with Some s => s | None => _ end) with (counters (x_budget w) vm).
    rewrite String.eqb_sym. cbn in Hc. pose proof (Hc name) as Hn.
    destruct (String.eqb_spec name vm) as [E|E]; [rewrite ?E in *|exact Hn].
    rewrite Hn. cbn. f_equal; lia.
  - cbn. rewrite lookup_insert_eq. eauto.
Qed.

Lemma end_agree limit m w m' :
  (forall name, 0 <= rbs_activeRequests (counters budget0 name)) ->
  agree m w ->
  step limit m _ EndBudgetRequest (connected _ EndBudgetRequest w).1 = Some m' ->
  agree m' (connected _ EndBudgetRequest w).2.
Proof.
  intros Hpos Hag. destruct m as [op retry target ru sp ti bo re an fi].
  intros Hstep. cbn [step] in Hstep. apply guard_step_Some in Hstep as [Hg ->].
  apply andb_prop in Hg as [Hg Hn]. apply andb_prop in Hg as [Ho _]. cbn in Ho. subst op.
  unfold no_retry in Hn. cbn in Hn. destruct retry; [done|]. destruct Hag as [Ht (Hc & Ho & Hr) Hp].
  cbn in Hc, Ho. destruct (Ho eq_refl) as [[st Hst] [policy Hreq]]. cbn [connected].
  rewrite Hreq. cbn. unfold RetryBudget.EndRequest. cbn. rewrite Hst. cbn.
  split; [exact Ht| |done]. split_and!; [|done..]. intros name. cbn. rewrite counters_set.
  pose proof (Hc name) as Hname. pose proof (Hc vm) as Hvm. rewrite String.eqb_refl in Hvm.
  rewrite (model_counters _ _ _ Hst) in Hvm. subst st. cbn. rewrite String.eqb_sym.
  destruct (String.eqb_spec name vm) as [E|E]; [rewrite ?E in *|exact Hname].
  specialize (Hpos vm). destruct (Z.ltb_spec 0 (rbs_activeRequests (counters budget0 vm) + 1)); [|lia].
  cbn. f_equal; lia.
Qed.

Lemma release_retry_agree limit m w lease m' :
  (forall name, 0 <= rbs_activeRetries (counters budget0 name)) ->
  agree m w ->
  step limit m _ (ReleaseRetry lease) (connected _ (ReleaseRetry lease) w).1 = Some m' ->
  agree m' (connected _ (ReleaseRetry lease) w).2.
Proof.
  intros Hpos Hag. destruct m as [op retry target ru sp ti bo re an fi].
  intros Hstep. cbn [step] in Hstep. apply guard_step_Some in Hstep as [Hg ->].
  apply bool_decide_eq_true in Hg as ->. destruct Hag as [Ht (Hc & Ho & Hr) Hp].
  cbn in Hc, Ho, Hr. destruct (Hr lease eq_refl) as [-> ->].
  destruct (Ho eq_refl) as [[st Hst] [policy Hreq]]. cbn [connected].
  unfold RetryBudget.Release, finish_release. cbn. rewrite Hst. cbn.
  split; [exact Ht| |done]. split_and!; [| |done].
  - intros name. cbn. rewrite counters_set.
    pose proof (Hc name) as Hname. pose proof (Hc vm) as Hvm. rewrite String.eqb_refl in Hvm.
    rewrite (model_counters _ _ _ Hst) in Hvm. subst st. cbn. rewrite String.eqb_sym.
    destruct (String.eqb_spec name vm) as [E|E]; [rewrite ?E in *|exact Hname].
    specialize (Hpos vm). destruct (Z.ltb_spec 0 (rbs_activeRetries (counters budget0 vm) + 1)); [|lia].
    cbn. f_equal; lia.
  - intros _. cbn. split; [|by exists policy]. rewrite lookup_insert_eq. eauto.
Qed.

Lemma reserve_agree limit m w n after reason m' :
  agree m w ->
  step limit m _ (ReserveRetry n after reason) (connected _ (ReserveRetry n after reason) w).1 = Some m' ->
  agree m' (connected _ (ReserveRetry n after reason) w).2.
Proof.
  intros Hag. destruct m as [op retry target ru sp ti bo re an fi].
  intros Hstep. cbn [step] in Hstep. apply guard_step_Some in Hstep as [Hg ->].
  apply andb_prop in Hg as [Hg _]. apply andb_prop in Hg as [Ho Hn]. cbn in Ho. subst op.
  unfold no_retry in Hn. cbn in Hn. destruct retry; [done|].
  destruct Hag as [Ht (Hc & Ho & Hr) Hp]. cbn in Hc, Ho.
  destruct (Ho eq_refl) as [[st Hst] [policy Hreq]].
  cbn [connected]. unfold connected_retry. rewrite Hreq. unfold reserveRetry.
  assert (Hsame : forall rest, agree
    (mkMon true None target ru sp ti bo re an fi)
    (with_rest rest (with_budget (x_budget w) (Some (mkRetryBudgetRequest vm policy false)) w))).
  { intros. split; [exact Ht| |done]. split_and!; [exact Hc| |done]. intros _. cbn. eauto. }
  destruct (erp_Disabled _); [by apply Hsame|].
  destruct (retryDelay _ _ _ _ _ _) as [[e|delay] rest]; [by apply Hsame|]. cbn zeta.
  destruct (_ || _); [by apply Hsame|].
  rewrite (TryAcquireRetry_spec _ _ st) by done. cbv zeta.
  destruct (_ || _); cbn; [|by apply Hsame].
  split; [exact Ht| |done]. split_and!.
  - intros name. cbn. rewrite counters_set. pose proof (Hc name) as Hname. pose proof (Hc vm) as Hvm.
    rewrite String.eqb_refl in Hvm. rewrite (model_counters _ _ _ Hst) in Hvm. subst st. cbn.
    rewrite String.eqb_sym. destruct (String.eqb_spec name vm) as [E|E]; [rewrite ?E in *|exact Hname].
    f_equal; lia.
  - intros _. cbn. split; [|eauto]. rewrite lookup_insert_eq. eauto.
  - cbn. intros l [= <-]. done.
Qed.

(** Every accepted call keeps the managers in agreement with what is held. *)
Lemma connected_agree limit :
  (forall name t, tm_targets targets0 !! name = Some t -> 0 <= t_active t) ->
  (forall name, 0 <= rbs_activeRequests (counters budget0 name) /\
                0 <= rbs_activeRetries (counters budget0 name)) ->
  forall m X (e : serveE X) w m',
    agree m w -> step limit m X e (connected X e w).1 = Some m' -> agree m' (connected X e w).2.
Proof.
  intros Hpos Hbud m X e w m' Hag.
  destruct e; try (by apply acquire_agree); try (by apply complete_agree); try (by apply begin_agree);
    try (by apply end_agree; [intros; apply Hbud|]); try (by apply release_retry_agree; [intros; apply Hbud|]);
    try (by apply reserve_agree); cbn [connected];
    match goal with |- context [outside ?Y ?e ?r] => destruct (outside Y e r) as [x rest] end;
    destruct m as [op retry target ru sp ti bo re an fi]; cbn [step fst snd]; intros Hstep;
    try (apply guard_step_Some in Hstep as [_ ->]); try (injection Hstep as <-);
    try (by eapply agree_ext; [exact Hag|..]).
  destruct record as [k [q|] [a|] v]; cbn in Hstep; try done;
    apply guard_step_Some in Hstep as [_ ->]; by eapply agree_ext; [exact Hag|..].
Qed.
End System.

(** C6: A request leaves the capacity it used as it found it.  Composed with the
    target manager, the retry budget and [reserveRetry], and whatever the rest
    of the world answers and however long it takes, at the end of the request
    every target has as many active requests as before, the active requests and
    retries of every model's retry budget are those of before, and no call of the
    managers has panicked. *)
Theorem request_returns_capacity `{UnicodeTables} `{HttpTime} {W : Type} `{Entropy W}
    (outside : forall X, serveE X -> W -> X * W) clock picker s record targets budget rest :
  (forall name t, tm_targets targets !! name = Some t -> wf t) ->
  (forall name, 0 <= rbs_activeRequests (counters budget name) /\
                0 <= rbs_activeRetries (counters budget name)) ->
  let start := mkConnection targets budget None false rest in
  let final := (exec (connected outside clock picker s) (serve_plan s record) start).2 in
  (forall name, match tm_targets (x_targets final) !! name, tm_targets targets !! name with
     | Some t, Some t0 => t_active t = t_active t0
     | None, None => True
     | _, _ => False
     end) /\
  (forall name, counters (x_budget final) name = counters budget name) /\
  x_panic final = false.
Proof.
  intros Hw Hbud start final.
  destruct (exec_follows (step (attempt_limit s)) (connected outside clock picker s)
    (agree s targets budget) (serve_plan s record) _ start_mon start
    (connected_agree outside clock picker s targets budget (attempt_limit s)
       (fun name t Ht => wf_active t (Hw name t Ht)) Hbud)
    (serve_plan_follows s (attempt_limit s) record eq_refl)) as (m & (_ & Ho & Hat & Hr & _) & Hag).
  { split; [split; [|done]| |done].
    - intros name. unfold holds_target. cbn. destruct (tm_targets targets !! name) eqn:E; [|done].
      split; [by eapply Hw|lia].
    - split_and!; [|done..]. intros name. cbn. destruct (String.eqb _ _); [|done].
      destruct (counters budget name). cbn. f_equal; lia. }
  fold final in Hag. destruct Hag as [[Ht _] (Hc & _) Hp]. unfold at_rest, no_retry, holds_target in *.
  split_and!; [| |done].
  - intros name. specialize (Ht name). destruct (m_target m); [done|].
    destruct (tm_targets (x_targets final) !! name), (tm_targets targets !! name); try done. lia.
  - intros name. rewrite Hc, Ho. destruct (m_retry m); [done|]. destruct (String.eqb _ _); [|done].
    destruct (counters budget name). cbn. f_equal; lia.
Qed.
