(* ===== verification/AttemptWitnesses.v ===== *)
(** * Requests served by the modelled components

    Runs of [serve_plan] in which the target manager, the retry budget and
    [reserveRetry] are the models of their files, the clock stands still, and
    the upstream answers from a script. *)

From stdpp Require Import base gmap list strings.
From Stdlib Require Import ZArith Lia.
From S2P Require Import Prelude GoStrings Policies Capabilities Config Privacy Fields.
From S2P Require Import Endpoints Ledger Lifecycle LifecycleStatus Admission Targets Picker Plan.
From S2P Require Import TargetFacts TargetSystem RetryBudget RetryBudgetTheorems Retry Fixtures.
From S2P Require Import PlanWitnesses CoordinatorWitnesses.
From S2P Require Import Gateway AttemptState Attempts AttemptProtocol.
From S2P Require Import AttemptLoop AttemptTheorems AttemptSystem.

Local Open Scope Z_scope.

#[local] Existing Instances plain_tables last_entropy.
#[local] Instance no_dates : HttpTime := fun _ => None.

(** ** A world *)
Record world := mkWorld {
  w_targets : TargetManager;
  w_budget : RetryBudgetManager;
  w_request : option retryBudgetRequest;
  w_runtime : error + AdmissionLease;
  w_upstream : list Response;
}.

Definition set_w_targets (m : TargetManager) (w : world) : world :=
  mkWorld m (w_budget w) (w_request w) (w_runtime w) (w_upstream w).
Definition set_w_budget (m : RetryBudgetManager) (r : option retryBudgetRequest) (w : world) : world :=
  mkWorld (w_targets w) m r (w_runtime w) (w_upstream w).

Definition served_result (status : Z) : proxyResult :=
  mkProxyResult status (if (200 <=? status) && (status <? 300) then OutcomeSuccess else OutcomeUpstreamError)
    (if (200 <=? status) && (status <? 300) then "" else http_failure_class status) missingUsage false.

Definition reserve (plan : Plan) (n : Z) (after reason : string) (w : world)
  : ((retryStopReason * option string) + retryReservation) * world :=
  match w_request w with
  | None => (inl (retryPolicyDisabled, None), w)
  | Some request =>
      match reserveRetry (Some Minute) 0 0 (w_budget w) request (plan_Retry plan) n after reason
              (Some last_picker) tt with
      | Some res =>
          (match res_reservation res with
           | Some r => inr r
           | None => inl (res_stop res, res_error res)
           end, set_w_budget (res_manager res) (Some request) w)
      | None => (inl (retryPolicyDisabled, None), w)
      end
  end.

Definition handle (plan : Plan) (X : Type) (e : serveE X) (w : world) : X * world :=
  match e in serveE X return X * world with
  | AcquireTarget name =>
      let '(r, m, _) := Targets.Acquire (w_targets w) 0 name in
      (match r with inl lease => Some lease | inr _ => None end, set_w_targets m w)
  | CompleteTarget lease result class =>
      match Targets.CompleteWithFailureClass (w_targets w) 0 lease result class with
      | Some (_, m, lease, _) => (lease, set_w_targets m w)
      | None => (lease, w)
      end
  | BeginBudgetRequest =>
      let '(m, r) := BeginRequest (w_budget w) (plan_VirtualModel plan) (erp_Budget (plan_Retry plan)) in
      (tt, set_w_budget m (Some r) w)
  | ReserveRetry n after reason => reserve plan n after reason w
  | ReleaseRetry lease =>
      match RetryBudget.Release (w_budget w) (Some lease) with
      | Some (m, _, _) => (tt, set_w_budget m (w_request w) w)
      | None => (tt, w)
      end
  | EndBudgetRequest =>
      match w_request w ≫= RetryBudget.EndRequest (w_budget w) with
      | Some (m, r) => (tt, set_w_budget m (Some r) w)
      | None => (tt, w)
      end
  | AcquireRuntime _ => (w_runtime w, w)
  | SendUpstream _ =>
      match w_upstream w with
      | response :: rest =>
          (inr response, mkWorld (w_targets w) (w_budget w) (w_request w) (w_runtime w) rest)
      | [] => (inl (mkUpstreamError (ErrText "refused") false), w)
      end
  | ProxyResponse _ _ _ response _ => (served_result (resp_StatusCode response), w)
  | TimeNow => (0, w)
  | CallerDone | OverallExpired | AttemptExpired | RequestDone => (false, w)
  | SleepRetry _ | BuildUpstreamRequest _ _ | WriteBufferedResponse _ => (None, w)
  | RewriteBody _ body _ => (inr body, w)
  | ApplyExtraBodyDefaults body _ => (inr body, w)
  | BufferedBody => (""%string, w)
  | RedactPIIResponse body | RestorePIIResponse body | RedactAllStrings body
  | RestoreAllStrings body => (inr body, w)
  | ApplyPostGuardrails body => (mkGuardrailResult body false false, w)
  | WithTimeout _ | CancelAttempt | ReleaseRuntime _ _ | RecordRetryDelay _ _ | CloseBody
  | RecordPrivacyFailure | WriteError _ _ _ | SetAttemptCount _ | SetRetryAfter _ | StartAttempt _
  | EndAttempt _ | RecordLedger _ | EndRequest _ | TraceProfile _ _ | DisableSavedTrace
  | OverrideCapture _ | FinishSavedTrace | RecordPromptAffinity _ _ => (tt, w)
  end.

Definition first_world (runtime : error + AdmissionLease) (upstream : list Response) : world :=
  mkWorld (match NewTargetManager fleet false with inr m => m | inl _ => mkTargetManager ∅ false end)
    (NewRetryBudgetManager false) None runtime upstream.

(** ** Requests *)
Definition answer (status : Z) : Response := mkResponse status ∅.

Definition candidate_of (type : string) (d : Deployment) : Selection :=
  mkSelection "m" "m" (provider_named (dep_Provider d) type) d "" false 1 false 0 0 1 "virtual".

Definition two_candidates (first second : Selection) : Plan :=
  mkPlan "m" "m" [] 3 (mkEffectiveModelLimits 3 Minute Minute Minute)
    (RetryPolicy_Effective zeroRetryPolicy) {| gp_Pre := []; gp_Post := []; gp_Stream := None |} []
    [first; second].

Definition request_for (plan : Plan) (lifecycle : option AdmissionCoordinator) : Serve :=
  mkServe plan openAIOperationChatCompletions lifecycle "r1" false Minute "{}" None ∅ "{}" "{}" "{}"
    "" 0 "" (0, 0) false None.

Definition fresh_record : RequestRecord :=
  mkRequestRecord "r1" 0 0 "" "" "" [] "" ∅ "openai" "chat_completions" false "" "" "" "v1" "" "" "" 0 0
    OutcomeRejected "" 0 None missingUsage.

Definition serve_in (s : Serve) (w : world) : list (event serveE) * unit * world :=
  exec (handle (sv_plan s)) (serve_plan s fresh_record) w.

(** The first target answers 503, the second 200. *)
Definition failing_over : Serve :=
  request_for (two_candidates (candidate_of "openai" dep_a) (candidate_of "openai" dep_b)) None.
Definition failed_over : list (event serveE) * unit * world :=
  serve_in failing_over (first_world (inl ErrQueueFull) [answer 503; answer 200]).
Definition failover_trace : list (event serveE) := failed_over.1.1.

Lemma failover_runs : runs (serve_plan failing_over fresh_record) failover_trace failed_over.1.2.
Proof. apply exec_runs. Qed.

Lemma attempts_follow_protocol_witness :
  exists m, accepts (step (attempt_limit failing_over)) start_mon failover_trace = Some m /\
    m_finished m = true /\ m_open m = false /\ at_rest m = true /\ m_retry m = None.
Proof. exact (attempts_follow_protocol failing_over fresh_record _ _ failover_runs). Defined.

(** Two target leases and a retry lease come back. *)
Lemma attempt_leases_balanced_witness :
  tl_Deployment <$> omap completed_target failover_trace = ["a"; "b"]%string /\
  length (omap released_retry failover_trace) = 1%nat.
Proof.
  destruct (attempt_leases_balanced failing_over fresh_record _ _ failover_runs) as (H1 & _ & H3).
  rewrite H1, H3. split; vm_compute; reflexivity.
Defined.

Lemma ledger_tells_the_truth_witness :
  exists r, omap recorded_request failover_trace = [r] /\ rr_AttemptCount r = 2 /\
    Ledger.ar_Attempt <$> omap recorded_attempt failover_trace = [1; 2] /\
    omap sent_reply failover_trace = [Relayed].
Proof.
  destruct (ledger_tells_the_truth failing_over fresh_record _ _ failover_runs)
    as (r & n & Hr & Hc & Hn & _). exists r.
  assert (Ledger.ar_Attempt <$> omap recorded_attempt failover_trace = [1; 2]) as E
    by (vm_compute; reflexivity).
  rewrite E in Hn. split; [exact Hr|]. split; [|split; [exact E|vm_compute; reflexivity]].
  vm_compute in Hr. injection Hr as <-. reflexivity.
Defined.

(** A request with a dynamic target, whose admission is refused, and a static
    Bedrock target in reserve. *)
Definition bedrock_candidate : Selection := candidate_of "bedrock" dep_b.
Definition chat_candidate : Selection :=
  candidate_of "openai" (deployment_named "chat" "openai" 1 brittle_circuit).
Definition falling_back : Serve := request_for (two_candidates chat_candidate bedrock_candidate) (Some chat).

Definition reserve_lease : TargetLease := mkTargetLease false false "b" CircuitClosed false 1 0 false.

Definition stale_state : attemptState :=
  set_err (Some ErrQueueFull) (initial_state (0, 0) fresh_record).

Definition stale_run : list (event serveE) * Attempts.turn * world :=
  exec (handle (sv_plan falling_back))
    (send_attempt falling_back reserve_lease None 0 false bedrock_candidate stale_state)
    (first_world (inl ErrQueueFull) [answer 200]).

Definition fallback_run : list (event serveE) * unit * world :=
  serve_in falling_back (first_world (inl ErrQueueFull) [answer 200]).

(** The state is that of the second iteration, and the whole request ends with
    status 500 although the reserve target would have answered 200. *)
Lemma stale_admission_error_refuses_witness :
  omap sent_reply stale_run.1.1 = [ErrorReply 500 "request_rewrite_error"] /\
  omap sends stale_run.1.1 = [] /\
  omap sent_reply fallback_run.1.1 = [ErrorReply 500 "request_rewrite_error"] /\
  omap sends fallback_run.1.1 = [] /\
  tl_Deployment <$> omap acquired_target fallback_run.1.1 = ["b"]%string.
Proof.
  destruct (stale_admission_error_refuses falling_back reserve_lease None 0 false bedrock_candidate
    stale_state ErrQueueFull stale_run.1.1 stale_run.1.2) as (H1 & H2 & _).
  - vm_compute. reflexivity.
  - reflexivity.
  - apply exec_runs.
  - split; [exact H2|]. split; [exact H1|]. vm_compute. repeat split.
Defined.

(** ** The same requests against the connected managers *)
Definition fresh_targets : TargetManager :=
  match NewTargetManager fleet true with inr m => m | inl _ => mkTargetManager ∅ false end.

Lemma fresh_targets_new : NewTargetManager fleet true = inr fresh_targets.
Proof. vm_compute. reflexivity. Qed.

Lemma fresh_targets_wf name t : tm_targets fresh_targets !! name = Some t -> wf t.
Proof. intros Ht. exact (to_wf _ _ _ _ (inv_target _ _ (new_inv _ _ _ fresh_targets_new) name t Ht)). Qed.

Lemma fresh_budget_counts name :
  0 <= rbs_activeRequests (counters (NewRetryBudgetManager true) name) /\
  0 <= rbs_activeRetries (counters (NewRetryBudgetManager true) name).
Proof. unfold counters. cbn. rewrite lookup_empty. cbn. lia. Qed.

(** The world as the outside: it supplies the upstream's answers and the random
    draws. *)
Definition world_picker : WeightedPicker world := fun total w => ((last_picker total tt).1, w).
#[local] Instance world_draws : Entropy world := world_picker.

Definition connected_run : list (event serveE) * unit * connection :=
  exec (connected (handle (sv_plan failing_over)) (fun _ => 0) (Some world_picker) failing_over)
    (serve_plan failing_over fresh_record)
    (mkConnection fresh_targets (NewRetryBudgetManager true) None false
       (first_world (inl ErrQueueFull) [answer 503; answer 200])).

(** After the failover target ["a"] is idle again; its failure has opened its
    circuit. *)
Lemma request_returns_capacity_witness :
  counters (x_budget connected_run.2) "m" = mkRetryBudgetState 0 0 /\
  t_active <$> tm_targets (x_targets connected_run.2) !! "a"%string = Some 0 /\
  t_state <$> tm_targets (x_targets connected_run.2) !! "a"%string = Some CircuitOpen /\
  omap sent_reply connected_run.1.1 = [Relayed] /\ x_panic connected_run.2 = false.
Proof.
  destruct (request_returns_capacity (handle (sv_plan failing_over)) (fun _ => 0) (Some world_picker)
    failing_over fresh_record fresh_targets (NewRetryBudgetManager true)
    (first_world (inl ErrQueueFull) [answer 503; answer 200]) fresh_targets_wf fresh_budget_counts)
    as (Ht & Hc & Hp).
  split; [exact (Hc "m"%string)|].
  split; [vm_compute; reflexivity|]. split; [vm_compute; reflexivity|].
  split; [vm_compute; reflexivity|exact Hp].
Defined.
