(* ===== verification/Identity.v ===== *)
(** * Caller identities and the keys derived from them
    ([pkg/identity/identity.go], [pkg/gateway/selection.go])

    The authenticated caller with its attribution, the trusted key that weighted
    hashing selects by, and the scope of prompt-cache affinity. *)

From stdpp Require Import base gmap list strings.
From Stdlib Require Import Ascii ZArith Lia.
From S2P Require Import Prelude GoStrings Policies.

(** ** Identities *)
Definition AttributeTenant : string := "sparkroute.tenant".
Definition AttributeUser : string := "sparkroute.user".
Definition AttributeWorkspace : string := "sparkroute.workspace".
Definition AttributeThreadID : string := "sparkroute.thread_id".
Definition AttributeTaskID : string := "sparkroute.task_id".
Definition AttributeExperiment : string := "sparkroute.experiment".
Definition AttributeSession : string := "sparkroute.session".

Record Principal := mkPrincipal {
  pr_ID : string;
  pr_Type : string;
  pr_Tenant : string;
  pr_Subject : string;
  pr_Roles : list string;
  pr_AllowedAttribution : list string;
  pr_FixedAttribution : gmap string string;
}.

Record Identity := mkIdentity {
  id_Principal : Principal;
  id_Attribution : gmap string string;
}.

(** Reading a missing key of a Go map of strings. *)
Definition attribute (caller : Identity) (name : string) : string :=
  default ""%string (id_Attribution caller !! name).

(** The separator byte of composed keys. *)
Definition NUL : string := String "000"%char EmptyString.

Section Keys.
Context `{UnicodeTables}.

(** ** The trusted selection key *)
Definition selection_value (hashKey : string) (caller : Identity) : string :=
  if String.eqb hashKey SelectionHashTenant then
    (if String.eqb (pr_Tenant (id_Principal caller)) "" then attribute caller AttributeTenant
     else pr_Tenant (id_Principal caller))
  else if String.eqb hashKey SelectionHashPrincipal then pr_ID (id_Principal caller)
  else if String.eqb hashKey SelectionHashUser then attribute caller AttributeUser
  else if String.eqb hashKey SelectionHashWorkspace then attribute caller AttributeWorkspace
  else if String.eqb hashKey SelectionHashThreadID then attribute caller AttributeThreadID
  else if String.eqb hashKey SelectionHashTaskID then attribute caller AttributeTaskID
  else if String.eqb hashKey SelectionHashExperiment then attribute caller AttributeExperiment
  else if String.eqb hashKey SelectionHashSession then attribute caller AttributeSession
  else "".

Definition trustedSelectionKey (policy : SelectionPolicy) (caller : Identity)
    (configRevision virtualModel : string) : string :=
  if negb (String.eqb (sp_Mode policy) SelectionWeightedHash) then ""
  else
    let value := selection_value (sp_HashKey policy) caller in
    if String.eqb (TrimSpace value) "" then ""
    else "v1" +:+ NUL +:+ configRevision +:+ NUL +:+ virtualModel +:+ NUL +:+ sp_HashKey policy +:+
         NUL +:+ value.

(** ** The scope of prompt-cache affinity ([promptCacheScope]) *)
Definition promptCacheScope (scope : string) (caller : Identity) : string :=
  let tenant :=
    if String.eqb (pr_Tenant (id_Principal caller)) "" then attribute caller AttributeTenant
    else pr_Tenant (id_Principal caller) in
  if String.eqb scope PromptCacheAffinityTenant then
    let tenant := if String.eqb tenant "" then "default"%string else tenant in
    "tenant" +:+ NUL +:+ tenant
  else
    let principal :=
      if String.eqb (pr_ID (id_Principal caller)) "" then "anonymous"%string
      else pr_ID (id_Principal caller) in
    "caller" +:+ NUL +:+ tenant +:+ NUL +:+ principal.
End Keys.
