(* ===== verification/PromptCache.v ===== *)
(** * Prompt-cache affinity ([pkg/promptcache], [pkg/gateway/promptcache.go])

    The directory of routes that served a prompt prefix: its in-memory backend,
    the queue that keeps recording off the request path, the keyed fingerprints
    of a request's prefixes, and the gateway's use of them.  The order in which
    [range] visits a map is an argument; the functions of [encoding/json] are
    parameters. *)

From stdpp Require Import base gmap list strings countable.
From Stdlib Require Import Ascii ZArith Lia.
From S2P Require Import Prelude GoStrings Policies Capabilities Config Fields Json Sha256.
From S2P Require Import Picker Plan Endpoints Ledger Lifecycle LifecycleStatus Admission Targets.
From S2P Require Import Gateway Identity.

Local Open Scope Z_scope.

(** ** Data *)
Record Prefix := mkPrefix {
  px_Digest : string;
  px_Bytes : Z;
  px_Segments : Z;
}.

Record Route := mkRoute {
  ro_Provider : string;
  ro_Deployment : string;
  ro_UpstreamModel : string;
  ro_UpstreamProtocol : string;
}.

#[export] Instance Route_eq_dec : EqDecision Route.
Proof. solve_decision. Defined.

(** The prefixes of a query are the longest first. *)
Record Query := mkQuery {
  q_ScopeDigest : string;
  q_VirtualModel : string;
  q_Operation : string;
  q_ConfigRevision : string;
  q_Prefixes : list Prefix;
  q_Candidates : list Route;
  q_Now : Z;
}.

Record Match := mkMatch {
  ma_Prefix : Prefix;
  ma_Route : Route;
  ma_LastSuccess : Z;
  ma_ExpiresAt : Z;
}.

Record Observation := mkObservation {
  ob_ScopeDigest : string;
  ob_VirtualModel : string;
  ob_Operation : string;
  ob_ConfigRevision : string;
  ob_Prefixes : list Prefix;
  ob_Route : Route;
  ob_LastSuccess : Z;
  ob_ExpiresAt : Z;
}.

(** ** The backend

    What the directory and the gateway rely on: a state with [Lookup] and
    [Record], which may fail with an error.  The answer is the state after the
    call.  [clock] is the reading of [time.Now] of the call. *)
Class Backend (S : Type) := {
  Lookup : Query -> Z -> S -> (string + option Match) * S;
  Record_observation : Observation -> Z -> S -> option string * S;
}.

(** A backend that answers from its history: [holds h s] says that [s] is a
    state after the successful records [h], and a match is then one of them,
    live at the time of the query and among its candidates. *)
Definition supports (query : Query) (now : Z) (m : Match) (o : Observation) : Prop :=
  ob_ScopeDigest o = q_ScopeDigest query /\ ob_VirtualModel o = q_VirtualModel query /\
  ob_Operation o = q_Operation query /\ ob_ConfigRevision o = q_ConfigRevision query /\
  ob_Route o = ma_Route m /\ ob_LastSuccess o = ma_LastSuccess m /\ ob_ExpiresAt o = ma_ExpiresAt m /\
  ma_Prefix m ∈ ob_Prefixes o /\ now < ob_ExpiresAt o.

Definition query_time (query : Query) (clock : Z) : Z :=
  if time_IsZero (q_Now query) then clock else q_Now query.

Class BackendLaws (S : Type) `{Backend S} (start : S) (holds : list Observation -> S -> Prop)
  : Prop := {
  holds_start : holds [] start;
  holds_lookup h s query clock : holds h s -> holds h (Lookup query clock s).2;
  holds_record h s o clock :
    holds h s ->
    let '(err, s') := Record_observation o clock s in
    holds (match err with None => h ++ [o] | Some _ => h end) s';
  lookup_supported h s query clock m :
    holds h s -> (Lookup query clock s).1 = inr (Some m) ->
    (exists o, o ∈ h /\ supports query (query_time query clock) m o) /\
    ma_Route m ∈ q_Candidates query /\ px_Digest (ma_Prefix m) ∈ (px_Digest <$> q_Prefixes query);
}.

(** ** The store in memory ([memory.go]) *)
Record memoryKey := mkMemoryKey {
  mk_scope : string;
  mk_model : string;
  mk_operation : string;
  mk_revision : string;
  mk_prefix : string;
  mk_deployment : string;
}.

#[export] Instance memoryKey_eq_dec : EqDecision memoryKey.
Proof. solve_decision. Defined.

#[export] Instance memoryKey_countable : Countable memoryKey.
Proof.
  apply (inj_countable'
    (fun k => (mk_scope k, mk_model k, mk_operation k, mk_revision k, mk_prefix k, mk_deployment k))
    (fun '(a, b, c, d, e, f) => mkMemoryKey a b c d e f)).
  by intros [].
Defined.

Record memoryEntry := mkMemoryEntry {
  me_prefix : Prefix;
  me_route : Route;
  me_lastSuccess : Z;
  me_expiresAt : Z;
}.

Record MemoryStore := mkMemoryStore {
  ms_maxEntries : Z;
  ms_entries : gmap memoryKey memoryEntry;
}.

Definition defaultMaxEntries : Z := 100000.

Definition NewMemoryStore (maxEntries : Z) : MemoryStore :=
  mkMemoryStore (if maxEntries =? 0 then defaultMaxEntries else maxEntries) ∅.

(** [entry.expiresAt.After(now)] *)
Definition live_at (now : Z) (e : memoryEntry) : bool := now <? me_expiresAt e.

Definition removeExpired (now clock : Z) (entries : gmap memoryKey memoryEntry)
  : gmap memoryKey memoryEntry :=
  let now := if time_IsZero now then clock else now in
  filter (fun kv => live_at now kv.2 = true) entries.

Definition lookup_key (query : Query) (prefix : Prefix) (route : Route) : memoryKey :=
  mkMemoryKey (q_ScopeDigest query) (q_VirtualModel query) (q_Operation query)
    (q_ConfigRevision query) (px_Digest prefix) (ro_Deployment route).

(** The loop over the candidates of one prefix, with the best entry so far. *)
Fixpoint best_candidate (entries : gmap memoryKey memoryEntry) (query : Query) (now : Z)
    (prefix : Prefix) (best : option memoryEntry) (candidates : list Route) : option memoryEntry :=
  match candidates with
  | [] => best
  | route :: candidates =>
      let best :=
        match entries !! lookup_key query prefix route with
        | None => best
        | Some entry =>
            if negb (bool_decide (me_route entry = route)) || negb (live_at now entry) then best
            else
              match best with
              | None => Some entry
              | Some b => if me_lastSuccess b <? me_lastSuccess entry then Some entry else best
              end
        end in
      best_candidate entries query now prefix best candidates
  end.

Definition match_of (e : memoryEntry) : Match :=
  mkMatch (me_prefix e) (me_route e) (me_lastSuccess e) (me_expiresAt e).

Fixpoint lookup_prefixes (entries : gmap memoryKey memoryEntry) (query : Query) (now : Z)
    (prefixes : list Prefix) : option Match :=
  match prefixes with
  | [] => None
  | prefix :: prefixes =>
      match best_candidate entries query now prefix None (q_Candidates query) with
      | Some best => Some (match_of best)
      | None => lookup_prefixes entries query now prefixes
      end
  end.

Definition set_entries (entries : gmap memoryKey memoryEntry) (s : MemoryStore) : MemoryStore :=
  mkMemoryStore (ms_maxEntries s) entries.

(** [MemoryStore.Lookup] *)
Definition MemoryStore_Lookup (query : Query) (clock : Z) (s : MemoryStore)
  : option Match * MemoryStore :=
  let now := query_time query clock in
  let s := set_entries (removeExpired now clock (ms_entries s)) s in
  (lookup_prefixes (ms_entries s) query now (q_Prefixes query), s).

Definition record_key (o : Observation) (prefix : Prefix) : memoryKey :=
  mkMemoryKey (ob_ScopeDigest o) (ob_VirtualModel o) (ob_Operation o) (ob_ConfigRevision o)
    (px_Digest prefix) (ro_Deployment (ob_Route o)).

Definition record_entry (o : Observation) (prefix : Prefix) : memoryEntry :=
  mkMemoryEntry prefix (ob_Route o) (ob_LastSuccess o) (ob_ExpiresAt o).

Definition record_prefix (o : Observation) (entries : gmap memoryKey memoryEntry) (prefix : Prefix)
  : gmap memoryKey memoryEntry :=
  let key := record_key o prefix in
  let newer :=
    match entries !! key with
    | Some previous => ob_LastSuccess o <? me_lastSuccess previous
    | None => false
    end in
  if newer then entries else <[key := record_entry o prefix]> entries.

(** The order in which [range] visits the entries. *)
Definition visiting : Type := gmap memoryKey memoryEntry -> list (memoryKey * memoryEntry).

(** The loop that looks for the entry to evict. *)
Fixpoint oldest_entry (found : option (memoryKey * Z)) (l : list (memoryKey * memoryEntry))
  : option (memoryKey * Z) :=
  match l with
  | [] => found
  | (key, entry) :: l =>
      let found :=
        match found with
        | None => Some (key, me_lastSuccess entry)
        | Some (_, oldest) =>
            if time_Before (me_lastSuccess entry) oldest then Some (key, me_lastSuccess entry) else found
        end in
      oldest_entry found l
  end.

(** [for s.maxEntries > 0 && len(s.entries) > s.maxEntries]: [fuel] is at least
    the number of entries. *)
Fixpoint evict (visit : visiting) (maxEntries : Z) (fuel : nat)
    (entries : gmap memoryKey memoryEntry) : gmap memoryKey memoryEntry :=
  match fuel with
  | O => entries
  | S fuel =>
      if (0 <? maxEntries) && (maxEntries <? Z.of_nat (size entries)) then
        match oldest_entry None (visit entries) with
        | Some (key, _) => evict visit maxEntries fuel (delete key entries)
        | None => entries
        end
      else entries
  end.

(** [MemoryStore.Record] *)
Definition MemoryStore_Record (visit : visiting) (o : Observation) (clock : Z) (s : MemoryStore)
  : MemoryStore :=
  let entries := removeExpired (ob_LastSuccess o) clock (ms_entries s) in
  let entries := foldl (record_prefix o) entries (ob_Prefixes o) in
  set_entries (evict visit (ms_maxEntries s) (size entries) entries) s.

#[export] Instance MemoryStore_backend (visit : visiting) : Backend MemoryStore := {|
  Lookup query clock s := let '(m, s) := MemoryStore_Lookup query clock s in (inr m, s);
  Record_observation o clock s := (None, MemoryStore_Record visit o clock s);
|}.

(** ** The directory ([store.go]) *)

Record DirectoryOptions := mkDirectoryOptions {
  do_QueueSize : Z;
  do_LookupTimeout : Z;
  do_WriteTimeout : Z;
}.

(** The worker between two observations, writing one, or gone ([d.done] is
    closed). *)
Inductive worker := WorkerIdle | WorkerWriting (o : Observation) | WorkerDone.

(** [d_reported] counts the calls of [OnError], [d_lost] those of [OnLoss];
    [d_accepted] and [d_written] are ghosts: the observations put in the queue,
    and those given to the backend with whether it recorded them. *)
Record Directory (S : Type) := mkDirectory {
  d_backend : S;
  d_queueSize : Z;
  d_queue : list Observation;
  d_closed : bool;
  d_worker : worker;
  d_reported : Z;
  d_lost : Z;
  d_accepted : list Observation;
  d_written : list (Observation * bool);
}.
#[global] Arguments mkDirectory {S}.
#[global] Arguments d_backend {S}.
#[global] Arguments d_queueSize {S}.
#[global] Arguments d_queue {S}.
#[global] Arguments d_closed {S}.
#[global] Arguments d_worker {S}.
#[global] Arguments d_reported {S}.
#[global] Arguments d_lost {S}.
#[global] Arguments d_accepted {S}.
#[global] Arguments d_written {S}.

Section Directory.
Context {S : Type} `{Backend S}.

Definition NewDirectory (backend : S) (options : DirectoryOptions) : string + Directory S :=
  let queueSize := if do_QueueSize options =? 0 then 1024 else do_QueueSize options in
  let lookupTimeout :=
    if do_LookupTimeout options =? 0 then 50 * Millisecond else do_LookupTimeout options in
  let writeTimeout := if do_WriteTimeout options =? 0 then 5 * Second else do_WriteTimeout options in
  if queueSize <? 1 then inl "prompt-cache queue size must be positive"%string
  else if (lookupTimeout <? 0) || (writeTimeout <? 0)
  then inl "prompt-cache timeouts must be positive"%string
  else inr (mkDirectory backend queueSize [] false WorkerIdle 0 0 [] []).

(** [Directory.Lookup]: the match, and the directory after the call. *)
Definition Directory_Lookup (query : Query) (clock : Z) (d : Directory S)
  : option Match * Directory S :=
  match q_Prefixes query, q_Candidates query with
  | [], _ | _, [] => (None, d)
  | _, _ =>
      let '(r, backend) := Lookup query clock (d_backend d) in
      match r with
      | inl _ =>
          (None, mkDirectory backend (d_queueSize d) (d_queue d) (d_closed d) (d_worker d)
                   (d_reported d + 1) (d_lost d) (d_accepted d) (d_written d))
      | inr m =>
          (m, mkDirectory backend (d_queueSize d) (d_queue d) (d_closed d) (d_worker d)
                (d_reported d) (d_lost d) (d_accepted d) (d_written d))
      end
  end.

Definition lose (d : Directory S) : Directory S :=
  mkDirectory (d_backend d) (d_queueSize d) (d_queue d) (d_closed d) (d_worker d) (d_reported d)
    (d_lost d + 1) (d_accepted d) (d_written d).

(** [Directory.Record]: one step under [stateMu.RLock], because [Close] takes
    the lock to set [closed] and the channel's own send is atomic. *)
Definition Directory_Record (o : Observation) (d : Directory S) : Directory S :=
  match ob_Prefixes o with
  | [] => d
  | _ =>
      if d_closed d then lose d
      else if Z.of_nat (length (d_queue d)) <? d_queueSize d then
        mkDirectory (d_backend d) (d_queueSize d) (d_queue d ++ [o]) (d_closed d) (d_worker d)
          (d_reported d) (d_lost d) (d_accepted d ++ [o]) (d_written d)
      else lose d
  end.

(** The critical section of [Directory.Close]. *)
Definition Directory_Close (d : Directory S) : Directory S :=
  mkDirectory (d_backend d) (d_queueSize d) (d_queue d) true (d_worker d) (d_reported d) (d_lost d)
    (d_accepted d) (d_written d).

(** One step of [Directory.run]: it takes an observation from the queue, ends
    when the closed queue is empty, or finishes a write.  [None] is blocked. *)
Definition run_worker (clock : Z) (d : Directory S) : option (Directory S) :=
  let worker_is w queue :=
    mkDirectory (d_backend d) (d_queueSize d) queue (d_closed d) w (d_reported d) (d_lost d)
      (d_accepted d) (d_written d) in
  match d_worker d with
  | WorkerIdle =>
      match d_queue d with
      | o :: queue => Some (worker_is (WorkerWriting o) queue)
      | [] => if d_closed d then Some (worker_is WorkerDone []) else None
      end
  | WorkerWriting o =>
      let '(err, backend) := Record_observation o clock (d_backend d) in
      match err with
      | None =>
          Some (mkDirectory backend (d_queueSize d) (d_queue d) (d_closed d) WorkerIdle
                  (d_reported d) (d_lost d) (d_accepted d) (d_written d ++ [(o, true)]))
      | Some _ =>
          Some (mkDirectory backend (d_queueSize d) (d_queue d) (d_closed d) WorkerIdle
                  (d_reported d + 1) (d_lost d) (d_accepted d) (d_written d ++ [(o, false)]))
      end
  | WorkerDone => None
  end.

(** The actions of the requests and of the worker, in any order. *)
Inductive directory_step (d : Directory S) : Directory S -> Prop :=
  | step_lookup query clock : directory_step d (Directory_Lookup query clock d).2
  | step_record o : directory_step d (Directory_Record o d)
  | step_close : directory_step d (Directory_Close d)
  | step_worker clock d' : run_worker clock d = Some d' -> directory_step d d'.

Inductive directory_reach (start : Directory S) : Directory S -> Prop :=
  | directory_start : directory_reach start start
  | directory_next d d' :
      directory_reach start d -> directory_step d d' -> directory_reach start d'.
End Directory.

(** ** Fingerprints ([fingerprint.go]) *)

(** What is used of [encoding/json]: [json_array] is [Unmarshal] into
    [[]json.RawMessage], [json_valid] whether [Unmarshal] into [any] succeeds,
    [json_canonical] the bytes of [Marshal] of the decoded value, [json_object]
    [Marshal] of a map of raw messages. *)
Class JsonText := {
  json_array : string -> option (list string);
  json_valid : string -> bool;
  json_canonical : string -> string + string;
  json_object : gmap string string -> string + string;
}.

Record FingerprintOptions := mkFingerprintOptions {
  fo_ScopeDigest : string;
  fo_VirtualModel : string;
  fo_Operation : string;
  fo_ConfigRevision : string;
  fo_SequenceField : string;
  fo_MinPrefixBytes : Z;
  fo_MaxPrefixes : Z;
}.

(** The key of a [Fingerprinter]. *)
Definition NewFingerprinter (key : list Z) : string + list Z :=
  if Z.of_nat (length key) <? 32
  then inl "prompt-cache fingerprint key must be at least 32 bytes"%string else inr key.

Section Fingerprints.
Context `{JsonText} (key : list Z).

Definition digestBytes (material : list Z) : list Z := hmac_sha256 key material.

Definition encodeDigest (value : list Z) : string := of_bytes (EncodeToString (val_byte <$> value)).

Definition digest (material : list Z) : string := encodeDigest (digestBytes material).

Definition ScopeDigest (scope : string) : string :=
  digest (string_bytes ("scope-v1" +:+ NUL +:+ scope)).

Definition ignored_names : list string :=
  ["model"; "stream"; "stream_options"; "max_tokens"; "max_completion_tokens"; "max_output_tokens";
   "temperature"; "top_p"; "top_k"; "seed"; "n"; "logprobs"; "top_logprobs"; "service_tier"; "store";
   "metadata"; "user"; "background"]%string.

Definition ignoredOutputField (name : string) : bool := bool_decide (name ∈ ignored_names).

Definition sequenceItems (raw : string) : string + list string :=
  match json_array raw with
  | Some items => inr items
  | None => if json_valid raw then inr [raw] else inl "decode prompt-cache sequence"%string
  end.

Definition static_fields (envelope : gmap string string) (field : string) : gmap string string :=
  filter (fun kv => negb (String.eqb kv.1 field || ignoredOutputField kv.1) = true) envelope.

Definition prefix_seed (options : FingerprintOptions) (staticBytes : string) : list Z :=
  string_bytes ("prefix-v1" +:+ NUL +:+ fo_ScopeDigest options +:+ NUL +:+ fo_ConfigRevision options
    +:+ NUL +:+ fo_VirtualModel options +:+ NUL +:+ fo_Operation options +:+ NUL +:+
    fo_SequenceField options +:+ NUL +:+ staticBytes).

(** The digest of one more item: the previous digest, the length of the item
    in eight bytes and the item. *)
Definition chain_digest (previous : list Z) (canonical : string) : list Z :=
  digestBytes (previous ++ to_bytes 8 (zlen canonical) ++ string_bytes canonical).

(** The loop over the items, from item [index] on. *)
Fixpoint prefix_loop (minimum : Z) (previous : list Z) (prefixBytes index : Z) (all : list Prefix)
    (items : list string) : string + list Prefix :=
  match items with
  | [] => inr all
  | item :: items =>
      match json_canonical item with
      | inl err => inl err
      | inr canonical =>
          let previous := chain_digest previous canonical in
          let prefixBytes := prefixBytes + zlen canonical in
          let all :=
            if minimum <=? prefixBytes
            then all ++ [mkPrefix (encodeDigest previous) prefixBytes (index + 1)] else all in
          prefix_loop minimum previous prefixBytes (index + 1) all items
      end
  end.

(** [Fingerprinter.Prefixes]: the longest [MaxPrefixes] prefixes, longest
    first. *)
Definition Prefixes (envelope : gmap string string) (options : FingerprintOptions)
  : string + list Prefix :=
  if String.eqb (fo_SequenceField options) "" || (fo_MaxPrefixes options <? 1) then inr []
  else
    match envelope !! fo_SequenceField options with
    | None => inr []
    | Some sequenceRaw =>
        match sequenceItems sequenceRaw with
        | inl err => inl err
        | inr items =>
            match json_object (static_fields envelope (fo_SequenceField options)) with
            | inl err => inl err
            | inr staticBytes =>
                match prefix_loop (fo_MinPrefixBytes options)
                        (digestBytes (prefix_seed options staticBytes)) (zlen staticBytes) 0 [] items with
                | inl err => inl err
                | inr all => inr (reverse (last_n (Z.to_nat (fo_MaxPrefixes options)) all))
                end
            end
        end
    end.
End Fingerprints.

(** ** The gateway's affinity ([gateway/promptcache.go]) *)
Definition promptCacheRoute (selection : Selection) : Route :=
  mkRoute (prov_Name (sel_Provider selection)) (dep_Name (sel_Deployment selection))
    (dep_Model (sel_Deployment selection)) (selectionUpstreamProtocol selection).

Definition promptCacheCandidates (candidates : list Selection) : list Route :=
  match candidates with
  | [] => []
  | first :: _ =>
      promptCacheRoute <$>
        List.filter (fun selection =>
          (sel_PoolPriority selection =? sel_PoolPriority first) &&
          (sel_PreferenceClass selection =? sel_PreferenceClass first)) candidates
  end.

Definition promptCacheSequenceField (o : openAIOperation) : string :=
  match o with
  | openAIOperationChatCompletions | anthropicOperationMessages | bedrockOperationConverse
  | bedrockOperationConverseStream => "messages"
  | openAIOperationResponses => "input"
  | geminiOperationGenerateContent | geminiOperationStreamContent => "contents"
  | _ => ""
  end.

(** [requestPromptAffinity]; the zero value is [None]. *)
Record requestPromptAffinity := mkRequestPromptAffinity {
  rpa_scopeDigest : string;
  rpa_virtualModel : string;
  rpa_operation : string;
  rpa_configRevision : string;
  rpa_prefixes : list Prefix;
  rpa_ttl : Z;
  rpa_match : option Match;
}.

Section Affinity.
Context `{UnicodeTables} `{JsonText} {S : Type} `{Backend S}.

(** [preparePromptCacheAffinity] with a directory and a fingerprinter; [now] is
    the query's time, [clock] that of the backend. *)
Definition preparePromptCacheAffinity (key : list Z) (operation : openAIOperation)
    (configRevision : string) (model : VirtualModel) (caller : Identity)
    (envelope : gmap string string) (candidates : list Selection) (disabled : bool) (now clock : Z)
    (d : Directory S) : option requestPromptAffinity * Directory S :=
  let policy := PromptCacheAffinityPolicy_Effective (sp_PromptCacheAffinity (vm_Selection model)) in
  let sequenceField := promptCacheSequenceField operation in
  if disabled || negb (pca_Enabled policy) || String.eqb sequenceField "" then (None, d)
  else
    let scopeDigest := ScopeDigest key (promptCacheScope (pca_Scope policy) caller) in
    let options :=
      mkFingerprintOptions scopeDigest (vm_Name model) (operation_String operation) configRevision
        sequenceField (pca_MinPrefixBytes policy) (pca_MaxPrefixesPerRequest policy) in
    match Prefixes key envelope options with
    | inl _ | inr [] => (None, d)
    | inr prefixes =>
        match promptCacheCandidates candidates with
        | [] => (None, d)
        | routes =>
            let query :=
              mkQuery scopeDigest (vm_Name model) (operation_String operation) configRevision prefixes
                routes now in
            let '(found, d) := Directory_Lookup query clock d in
            (Some (mkRequestPromptAffinity scopeDigest (vm_Name model) (operation_String operation)
                     configRevision prefixes (pca_TTL policy) found), d)
        end
    end.

(** [requestPromptAffinity.record] *)
Definition affinity_record (a : option requestPromptAffinity) (selection : Selection) (now : Z)
    (d : Directory S) : Directory S :=
  match a with
  | None => d
  | Some a =>
      match rpa_prefixes a with
      | [] => d
      | _ =>
          Directory_Record
            (mkObservation (rpa_scopeDigest a) (rpa_virtualModel a) (rpa_operation a)
               (rpa_configRevision a) (rpa_prefixes a) (promptCacheRoute selection) now
               (time_Add now (rpa_ttl a))) d
      end
  end.
End Affinity.
