(* ===== verification/PromptCacheTheorems.v ===== *)
(** * Prompt-cache affinity: what the directory promises

    The eviction order and the answers of the store in memory, the directory
    against the interface of its backend, and the fingerprints of a conversation
    that goes on. *)

From stdpp Require Import base gmap list strings sorting.
From Stdlib Require Import Ascii ZArith Lia.
From S2P Require Import Prelude GoStrings Policies Capabilities Config Fields Json Sha256.
From S2P Require Import Picker Plan Endpoints Ledger Lifecycle LifecycleStatus Admission Targets.
From S2P Require Import Gateway Identity PromptCache.

Local Open Scope Z_scope.

(** ** Eviction *)
Definition visits_all (visit : visiting) : Prop := forall entries, visit entries ≡ₚ map_to_list entries.

Lemma oldest_entry_spec l : forall found,
  (found = None -> l <> []) ->
  exists key oldest, oldest_entry found l = Some (key, oldest) /\
    (found = Some (key, oldest) \/ exists e, (key, e) ∈ l /\ me_lastSuccess e = oldest) /\
    (forall k t, found = Some (k, t) -> oldest <= t) /\
    (forall k e, (k, e) ∈ l -> oldest <= me_lastSuccess e).
Proof.
  induction l as [|[k0 e0] l IH]; intros found Hne; cbn [oldest_entry].
  - destruct found as [[key oldest]|]; [|by destruct (Hne eq_refl)].
    exists key, oldest. split_and!; [done|by left|intros ? ? [= <- <-]; lia|].
    intros k e Hin. by apply elem_of_nil in Hin.
  - unfold time_Before.
    set (found' := match found with None => _ | Some _ => _ end).
    assert (Hf : exists k1 t1, found' = Some (k1, t1) /\ t1 <= me_lastSuccess e0 /\
      (forall k t, found = Some (k, t) -> t1 <= t) /\
      (found = Some (k1, t1) \/ k1 = k0 /\ t1 = me_lastSuccess e0)).
    { unfold found'. destruct found as [[k t]|].
      - destruct (Z.ltb_spec (me_lastSuccess e0) t); eexists _, _; split_and!;
          try reflexivity; try lia; try (intros ? ? [= <- <-]; lia); auto.
      - eexists _, _; split_and!; try reflexivity; auto; done. }
    clearbody found'. destruct Hf as (k1 & t1 & -> & Hle & Hold & Hsrc).
    destruct (IH (Some (k1, t1))) as (key & oldest & Hr & Hin & Hf & Hl); [done|].
    exists key, oldest. specialize (Hf k1 t1 eq_refl). split_and!; [done| | |].
    + destruct Hin as [[= -> ->]|(e & He & Ht)].
      * destruct Hsrc as [->|[-> ->]]; [by left|]. right. exists e0. split; [left|done].
      * right. exists e. split; [by right|done].
    + intros k t E. specialize (Hold k t E). lia.
    + intros k e [[= -> ->]|H]%elem_of_cons; [lia|by eapply Hl].
Qed.

(** The entries kept by an eviction, and the rest. *)
Record lru (maxEntries : Z) (entries kept : gmap memoryKey memoryEntry) : Prop := {
  lru_sub : kept ⊆ entries;
  lru_size : Z.of_nat (size kept) =
    if 0 <? maxEntries then Z.min maxEntries (Z.of_nat (size entries)) else Z.of_nat (size entries);
  lru_order k e k' e' : entries !! k = Some e -> kept !! k = None -> kept !! k' = Some e' ->
    me_lastSuccess e <= me_lastSuccess e';
}.

Lemma lru_refl maxEntries entries :
  (0 <? maxEntries) && (maxEntries <? Z.of_nat (size entries)) = false -> lru maxEntries entries entries.
Proof.
  intros Hc. split; [done| |congruence].
  destruct (Z.ltb_spec 0 maxEntries), (Z.ltb_spec maxEntries (Z.of_nat (size entries))); try done; lia.
Qed.

Lemma evict_lru visit maxEntries fuel : forall entries,
  visits_all visit -> (size entries <= fuel)%nat ->
  lru maxEntries entries (evict visit maxEntries fuel entries).
Proof.
  induction fuel as [|fuel IH]; intros entries Hv Hf; cbn [evict].
  - apply lru_refl. destruct (Z.ltb_spec 0 maxEntries); [|done]. apply Z.ltb_ge. lia.
  - destruct (_ && _) eqn:Hc; [|by apply lru_refl].
    apply andb_prop in Hc as [Hm%Z.ltb_lt Hs%Z.ltb_lt].
    destruct (oldest_entry_spec (visit entries) None) as (key & oldest & -> & Hin & _ & Hold).
    { intros _ E. pose proof (Hv entries) as Hp. rewrite E in Hp.
      apply Permutation_nil_l in Hp. symmetry in Hp. apply map_to_list_empty_iff in Hp. subst.
      rewrite map_size_empty in Hs. lia. }
    destruct Hin as [|(e & Hin & <-)]; [done|].
    apply (elem_of_Permutation_proper _ _ _ (Hv entries)), elem_of_map_to_list in Hin.
    assert (Hd : size (delete key entries) = Nat.pred (size entries)) by (apply map_size_delete_Some; eauto).
    destruct (IH (delete key entries)) as [Hsub Hsize Hord]; [done|lia|].
    split.
    + etrans; [exact Hsub|apply delete_subseteq].
    + rewrite Hsize, Hd. destruct (Z.ltb_spec 0 maxEntries); lia.
    + intros k e1 k' e' Hk Hnone Hk'. destruct (decide (k = key)) as [->|Hne].
      * assert (e1 = e) as -> by congruence. apply (Hold k').
        apply (elem_of_Permutation_proper _ _ _ (Hv entries)), elem_of_map_to_list. apply (lookup_weaken _ _ _ _ Hk') in Hsub.
        by apply lookup_delete_Some in Hsub as [_ ?].
      * apply (Hord k e1 k' e'); [by rewrite lookup_delete_ne|done..].
Qed.

(** The entries after an observation, before the eviction. *)
Definition observed_entries (o : Observation) (clock : Z) (s : MemoryStore)
  : gmap memoryKey memoryEntry :=
  foldl (record_prefix o) (removeExpired (ob_LastSuccess o) clock (ms_entries s)) (ob_Prefixes o).

(** ** Lookup *)
Section Lookup.
Context (entries : gmap memoryKey memoryEntry) (query : Query) (now : Z).

(** The entry of a prefix that a candidate route hits: recorded for that very
    route, and live. *)
Definition hit (prefix : Prefix) (route : Route) : option memoryEntry :=
  match entries !! lookup_key query prefix route with
  | Some e => if bool_decide (me_route e = route) && live_at now e then Some e else None
  | None => None
  end.

Definition hits (prefix : Prefix) : list memoryEntry := omap (hit prefix) (q_Candidates query).

Definition better (best : option memoryEntry) (e : memoryEntry) : option memoryEntry :=
  match best with
  | None => Some e
  | Some b => if me_lastSuccess b <? me_lastSuccess e then Some e else best
  end.

Lemma best_candidate_hits prefix candidates : forall best,
  best_candidate entries query now prefix best candidates = foldl better best (omap (hit prefix) candidates).
Proof.
  induction candidates as [|route candidates IH]; intros best; [done|]. cbn [best_candidate].
  change (omap (hit prefix) (route :: candidates))
    with (match hit prefix route with Some e => e :: omap (hit prefix) candidates | None => omap (hit prefix) candidates end).
  rewrite IH. unfold hit at 2. destruct (entries !! _) as [e|]; [|done].
  destruct (bool_decide (me_route e = route)), (live_at now e); done.
Qed.

(** The best of some entries: the first one with the latest success. *)
Lemma foldl_better l : forall best,
  match foldl better best l with
  | None => best = None /\ l = []
  | Some e =>
      (best = Some e /\ Forall (fun x => me_lastSuccess x <= me_lastSuccess e) l) \/
      (exists l1 l2, l = l1 ++ e :: l2 /\
         (forall b, best = Some b -> me_lastSuccess b < me_lastSuccess e) /\
         Forall (fun x => me_lastSuccess x < me_lastSuccess e) l1 /\
         Forall (fun x => me_lastSuccess x <= me_lastSuccess e) l2)
  end.
Proof.
  induction l as [|x l IH]; intros best; cbn [foldl].
  - destruct best; [left; done|done].
  - specialize (IH (better best x)). destruct (foldl better (better best x) l) as [e|].
    2:{ destruct IH as [Hn _]. unfold better in Hn. destruct best; [by destruct (_ <? _)|done]. }
    destruct IH as [[Hb Hl]|(l1 & l2 & -> & Hb & H1 & H2)].
    + unfold better in Hb. destruct best as [b|].
      * destruct (Z.ltb_spec (me_lastSuccess b) (me_lastSuccess x)); injection Hb as ->.
        -- right. exists [], l. split_and!; [done| |constructor|done]. by intros ? [= <-].
        -- left. split; [done|]. by constructor.
      * injection Hb as ->. right. exists [], l. split_and!; [done|done|constructor|done].
    + right. exists (x :: l1), l2. split_and!; [done| | |done].
      * intros b ->. unfold better in Hb.
        destruct (Z.ltb_spec (me_lastSuccess b) (me_lastSuccess x)); specialize (Hb _ eq_refl); lia.
      * constructor; [|done]. unfold better in Hb. destruct best as [b|]; [|by apply (Hb _ eq_refl)].
        destruct (Z.ltb_spec (me_lastSuccess b) (me_lastSuccess x)); specialize (Hb _ eq_refl); lia.
Qed.

(** The specification: the first prefix that any candidate hits, and among its
    hits the first one with the latest success. *)
Definition best_hit (prefix : Prefix) (e : memoryEntry) : Prop :=
  exists l1 l2, hits prefix = l1 ++ e :: l2 /\
    Forall (fun x => me_lastSuccess x < me_lastSuccess e) l1 /\
    Forall (fun x => me_lastSuccess x <= me_lastSuccess e) l2.

Lemma best_candidate_spec prefix :
  match best_candidate entries query now prefix None (q_Candidates query) with
  | None => hits prefix = []
  | Some e => best_hit prefix e
  end.
Proof.
  rewrite best_candidate_hits. fold (hits prefix). pose proof (foldl_better (hits prefix) None) as H.
  destruct (foldl better None (hits prefix)) as [e|]; [|by destruct H].
  destruct H as [[? _]|(l1 & l2 & E & _ & H1 & H2)]; [done|]. by exists l1, l2.
Qed.

Lemma lookup_prefixes_spec prefixes :
  match lookup_prefixes entries query now prefixes with
  | None => Forall (fun prefix => hits prefix = []) prefixes
  | Some m =>
      exists shorter prefix longer e, prefixes = longer ++ prefix :: shorter /\
        Forall (fun prefix => hits prefix = []) longer /\ best_hit prefix e /\ m = match_of e
  end.
Proof.
  induction prefixes as [|prefix prefixes IH]; cbn [lookup_prefixes]; [constructor|].
  pose proof (best_candidate_spec prefix) as H.
  destruct (best_candidate _ _ _ _ _ _) as [e|].
  - exists prefixes, prefix, [], e. split_and!; [done|constructor|done|done].
  - destruct (lookup_prefixes _ _ _ _) as [m|]; [|by constructor].
    destruct IH as (shorter & p & longer & e & -> & Hl & He & ->).
    exists shorter, p, (prefix :: longer), e. split_and!; [done|by constructor|done|done].
Qed.

Lemma hits_elem prefix e :
  e ∈ hits prefix <->
  exists route, route ∈ q_Candidates query /\ entries !! lookup_key query prefix route = Some e /\
    me_route e = route /\ now < me_expiresAt e.
Proof.
  unfold hits. rewrite list_elem_of_omap. split; intros (route & Hr & H); exists route; (split; [done|]).
  - unfold hit in H. destruct (entries !! _) as [e'|]; [|done].
    case_bool_decide; [|done]. cbn in H. unfold live_at in H.
    destruct (Z.ltb_spec now (me_expiresAt e')); [|done]. by simplify_eq.
  - destruct H as (He & Hroute & Hlive). unfold hit. rewrite He, bool_decide_true by done.
    unfold live_at. apply Z.ltb_lt in Hlive. by rewrite Hlive.
Qed.

Lemma best_hit_elem prefix e : best_hit prefix e -> e ∈ hits prefix.
Proof. intros (l1 & l2 & -> & _). apply elem_of_app. right. left. Qed.
End Lookup.

(** ** The store keeps the promises of a backend *)

(** Every entry is what some observation of the history recorded. *)
Definition recorded (h : list Observation) (s : MemoryStore) : Prop :=
  forall k e, ms_entries s !! k = Some e ->
    exists o prefix, o ∈ h /\ prefix ∈ ob_Prefixes o /\ k = record_key o prefix /\
                     e = record_entry o prefix.

Lemma recorded_mono h h' s s' :
  (forall o, o ∈ h -> o ∈ h') -> ms_entries s' ⊆ ms_entries s -> recorded h s -> recorded h' s'.
Proof.
  intros Hh Hs Hr k e Hk. destruct (Hr k e) as (o & prefix & Ho & Hp); [by eapply lookup_weaken|].
  exists o, prefix. split; [auto|done].
Qed.

Lemma removeExpired_sub now clock entries : removeExpired now clock entries ⊆ entries.
Proof. apply map_filter_subseteq. Qed.

Lemma evict_sub visit maxEntries fuel : forall entries, evict visit maxEntries fuel entries ⊆ entries.
Proof.
  induction fuel as [|fuel IH]; intros entries; cbn [evict]; [done|]. destruct (_ && _); [|done].
  destruct (oldest_entry None (visit entries)) as [[key t]|]; [|done].
  etrans; [apply IH|apply delete_subseteq].
Qed.

Lemma record_prefixes_recorded h o prefixes : forall entries,
  (forall k e, entries !! k = Some e ->
     exists o' prefix, o' ∈ h ++ [o] /\ prefix ∈ ob_Prefixes o' /\ k = record_key o' prefix /\
                       e = record_entry o' prefix) ->
  (forall prefix, prefix ∈ prefixes -> prefix ∈ ob_Prefixes o) ->
  forall k e, foldl (record_prefix o) entries prefixes !! k = Some e ->
    exists o' prefix, o' ∈ h ++ [o] /\ prefix ∈ ob_Prefixes o' /\ k = record_key o' prefix /\
                      e = record_entry o' prefix.
Proof.
  induction prefixes as [|prefix prefixes IH]; intros entries He Hp; cbn [foldl]; [done|].
  apply IH; [|intros; apply Hp; by right]. intros k e. unfold record_prefix.
  destruct (match entries !! _ with Some _ => _ | None => false end); [apply He|].
  rewrite lookup_insert. case_decide as Hd; [|apply He]. intros [= <-]. subst k.
  exists o, prefix. split_and!; [apply elem_of_app; right; by apply list_elem_of_singleton| |done..].
  apply Hp. left.
Qed.

Lemma MemoryStore_Record_recorded visit h o clock s :
  recorded h s -> recorded (h ++ [o]) (MemoryStore_Record visit o clock s).
Proof.
  intros Hr k e Hk. unfold MemoryStore_Record, set_entries in Hk. cbn in Hk.
  pose proof (lookup_weaken _ _ _ _ Hk (evict_sub _ _ _ _)) as Hk'.
  eapply (record_prefixes_recorded h o); [|done|exact Hk'].
  intros k1 e1 H1. pose proof (lookup_weaken _ _ _ _ H1 (removeExpired_sub _ _ _)) as H2.
  destruct (Hr k1 e1 H2) as (o1 & p1 & Ho & Hp). exists o1, p1. split; [apply elem_of_app; by left|done].
Qed.

(** A hit of the store was recorded for the query. *)
Lemma match_supported h s query clock m :
  recorded h s -> (MemoryStore_Lookup query clock s).1 = Some m ->
  (exists o, o ∈ h /\ supports query (query_time query clock) m o) /\
  ma_Route m ∈ q_Candidates query /\ px_Digest (ma_Prefix m) ∈ (px_Digest <$> q_Prefixes query).
Proof.
  intros Hr Hm. unfold MemoryStore_Lookup in Hm. cbn in Hm.
  pose proof (lookup_prefixes_spec
    (removeExpired (query_time query clock) clock (ms_entries s)) query (query_time query clock)
    (q_Prefixes query)) as H. rewrite Hm in H.
  destruct H as (shorter & prefix & longer & e & Hp & _ & He & ->).
  apply best_hit_elem, hits_elem in He as (route & Hroute & Hk & Heq & Hlive).
  pose proof (lookup_weaken _ _ _ _ Hk (removeExpired_sub _ _ _)) as Hk'.
  destruct (Hr _ _ Hk') as (o & p & Ho & Hpo & Ekey & ->). unfold lookup_key, record_key in Ekey.
  injection Ekey as E1 E2 E3 E4 E5 E6. cbn in *. subst route. split_and!.
  - exists o. split; [done|]. unfold supports. cbn. split_and!; done.
  - done.
  - rewrite <- E5, Hp. apply list_elem_of_fmap. exists prefix. split; [done|].
    apply elem_of_app. right. left.
Qed.

#[export] Instance MemoryStore_laws visit maxEntries :
  @BackendLaws MemoryStore (MemoryStore_backend visit) (NewMemoryStore maxEntries) recorded.
Proof.
  split.
  - intros k e Hk. cbn in Hk. by rewrite lookup_empty in Hk.
  - intros h s query clock Hr. apply (recorded_mono h h s); [done| |done]. apply removeExpired_sub.
  - intros h s o clock Hr. by apply MemoryStore_Record_recorded.
  - intros h s query clock m Hr Hm. cbn in Hm. apply (match_supported h s); [done|].
    by injection Hm as Hm.
Qed.

(** ** The directory *)
Section Directory.
Context {S : Type} `{BackendLaws S}.

Definition writing (d : Directory S) : list Observation :=
  match d_worker d with WorkerWriting o => [o] | _ => [] end.

(** What the backend recorded. *)
Definition applied (d : Directory S) : list Observation :=
  fst <$> filter (fun x => x.2 = true) (d_written d).

(** Nothing accepted is lost or reordered, the backend's history is what it
    recorded, and a worker that has ended left nothing behind. *)
Record directory_inv (d : Directory S) : Prop := {
  di_order : d_accepted d = (fst <$> d_written d) ++ writing d ++ d_queue d;
  di_history : holds (applied d) (d_backend d);
  di_capacity : Z.of_nat (length (d_queue d)) <= d_queueSize d;
  di_done : d_worker d = WorkerDone -> d_closed d = true /\ d_queue d = [];
}.

Lemma NewDirectory_inv options d : NewDirectory start options = inr d -> directory_inv d.
Proof.
  unfold NewDirectory. destruct (_ <? 1) eqn:Hq; [done|]. destruct (_ || _); [done|].
  intros [= <-]. split; cbn; [done|apply holds_start| |done]. apply Z.ltb_ge in Hq. lia.
Qed.

Lemma Directory_Lookup_inv query clock d :
  directory_inv d -> directory_inv (Directory_Lookup query clock d).2.
Proof.
  intros [Ho Hh Hc Hd]. unfold Directory_Lookup.
  destruct (q_Prefixes query); [done|]. destruct (q_Candidates query); [done|].
  pose proof (holds_lookup _ _ query clock Hh) as Hl.
  destruct (Lookup query clock (d_backend d)) as [[err|m] backend]; by split.
Qed.

Lemma Directory_Record_inv o d : directory_inv d -> directory_inv (Directory_Record o d).
Proof.
  intros [Ho Hh Hc Hd]. unfold Directory_Record. destruct (ob_Prefixes o); [done|].
  destruct (d_closed d) eqn:Ec; [by split; cbn; rewrite ?Ec|].
  destruct (Z.ltb_spec (Z.of_nat (length (d_queue d))) (d_queueSize d)) as [Hl|Hl]; [|by split; cbn; rewrite ?Ec].
  split; cbn.
  - by rewrite Ho, <- !app_assoc.
  - done.
  - rewrite length_app. cbn. lia.
  - intros Hw. destruct (Hd Hw) as [E _]. congruence.
Qed.

Lemma run_worker_inv clock d d' : directory_inv d -> run_worker clock d = Some d' -> directory_inv d'.
Proof.
  intros [Ho Hh Hc Hd]. unfold run_worker, writing in *. destruct (d_worker d) as [|o|] eqn:Ew; [| |done].
  - destruct (d_queue d) as [|o queue] eqn:Eq.
    + destruct (d_closed d) eqn:Ec; [|done]. intros [= <-]. by split.
    + intros [= <-]. split; cbn; try done. cbn in Hc. lia.
  - pose proof (holds_record _ _ o clock Hh) as Hr.
    destruct (Record_observation o clock (d_backend d)) as [[err|] backend]; intros [= <-]; split; cbn; try done.
    + by rewrite Ho, fmap_app, <- !app_assoc.
    + unfold applied. cbn. rewrite filter_app, fmap_app. cbn. by rewrite app_nil_r.
    + by rewrite Ho, fmap_app, <- !app_assoc.
    + unfold applied. cbn. by rewrite filter_app, fmap_app.
Qed.

Lemma Directory_Close_inv d : directory_inv d -> directory_inv (Directory_Close d).
Proof. intros [Ho Hh Hc Hd]. split; cbn; try done. intros Hw. split; [done|]. by apply Hd. Qed.

Lemma directory_reach_inv options d0 d :
  NewDirectory start options = inr d0 -> directory_reach d0 d -> directory_inv d.
Proof.
  intros Hn. induction 1 as [|d d' Hr IH Hs]; [by eapply NewDirectory_inv|].
  destruct Hs as [query clock|o| |clock d' Hw].
  - by apply Directory_Lookup_inv.
  - by apply Directory_Record_inv.
  - by apply Directory_Close_inv.
  - by eapply run_worker_inv.
Qed.

(** A worker that has ended gave everything to the backend. *)
Lemma done_wrote_all d : directory_inv d ->
  d_worker d = WorkerDone -> d_closed d = true /\ fst <$> d_written d = d_accepted d.
Proof.
  intros [Ho _ _ Hd] Hw. destruct (Hd Hw) as [Hc Hq]. split; [done|].
  rewrite Ho, Hq. unfold writing. by rewrite Hw, !app_nil_r.
Qed.

(** The worker alone, a turn at each reading of the clock; it waits where it is
    blocked. *)
Definition work_off (clocks : list Z) (d : Directory S) : Directory S :=
  foldl (fun d clock => default d (run_worker clock d)) d clocks.

Lemma work_off_cons clock clocks d : work_off (clock :: clocks) d = work_off clocks (default d (run_worker clock d)).
Proof. done. Qed.

(** The turns the worker of a closed directory has left. *)
Definition work_left (d : Directory S) : nat :=
  2 * length (d_queue d) + match d_worker d with WorkerIdle => 1 | WorkerWriting _ => 2 | WorkerDone => 0 end.

Lemma run_worker_proceeds clock d : d_closed d = true -> d_worker d <> WorkerDone ->
  exists d', run_worker clock d = Some d' /\ d_closed d' = true /\ d_accepted d' = d_accepted d /\
    (work_left d' < work_left d)%nat.
Proof.
  intros Hc Hw. unfold run_worker, work_left. destruct (d_worker d) as [|o|] eqn:Ew; [| |done].
  - destruct (d_queue d) as [|o queue]; rewrite ?Hc; eexists; (split; [done|]); cbn; split_and!; try done; lia.
  - destruct (Record_observation o clock (d_backend d)) as [[err|] backend];
      eexists; (split; [done|]); cbn; split_and!; try done; lia.
Qed.

Lemma work_off_ends clocks d : directory_inv d -> d_closed d = true -> (work_left d <= length clocks)%nat ->
  let d' := work_off clocks d in
  d_worker d' = WorkerDone /\ d_accepted d' = d_accepted d /\ fst <$> d_written d' = d_accepted d.
Proof.
  revert d. induction clocks as [|clock clocks IH]; intros d Hinv Hc Hlen; cbn [length] in Hlen.
  - assert (Hw : d_worker d = WorkerDone) by (unfold work_left in Hlen; by destruct (d_worker d); try lia).
    cbn. split_and!; [done|done|]. by apply done_wrote_all.
  - cbn zeta. rewrite work_off_cons. destruct (decide (work_left d = 0%nat)) as [Hz|Hz].
    + assert (Hw : d_worker d = WorkerDone) by (unfold work_left in Hz; by destruct (d_worker d); try lia).
      assert (Hnone : run_worker clock d = None) by (unfold run_worker; by rewrite Hw).
      rewrite Hnone. apply IH; [done..|]. cbn [default from_option id]. rewrite Hz. lia.
    + assert (Hw : d_worker d <> WorkerDone).
      { intros Hw. destruct Hinv as [_ _ _ Hd]. destruct (Hd Hw) as [_ Hq]. apply Hz. unfold work_left. by rewrite Hw, Hq. }
      destruct (run_worker_proceeds clock d Hc Hw) as (d' & E & Hc' & Ha & Hl).
      rewrite E, <- Ha. cbn [default from_option id]. apply IH; [by eapply run_worker_inv|done|lia].
Qed.
End Directory.

(** ** Fingerprints of a conversation *)
Section Chain.
Context `{JsonText} (key : list Z) (minimum : Z).

(** The state of the loop after some items. *)
Lemma prefix_loop_app items more : forall previous bytes index all all1,
  prefix_loop key minimum previous bytes index all items = inr all1 ->
  exists previous' bytes' index',
    prefix_loop key minimum previous bytes index all (items ++ more) =
    prefix_loop key minimum previous' bytes' index' all1 more.
Proof.
  induction items as [|item items IH]; intros previous bytes index all all1; cbn [prefix_loop app].
  - intros [= <-]. eauto.
  - destruct (json_canonical item) as [err|canonical]; [done|]. apply IH.
Qed.

(** The loop only appends, at most one prefix per item. *)
Lemma prefix_loop_extends items : forall previous bytes index all all',
  prefix_loop key minimum previous bytes index all items = inr all' ->
  exists ext, all' = all ++ ext /\ (length ext <= length items)%nat.
Proof.
  induction items as [|item items IH]; intros previous bytes index all all'; cbn [prefix_loop].
  - intros [= <-]. exists []. by rewrite app_nil_r.
  - destruct (json_canonical item) as [err|canonical]; [done|]. intros (ext & -> & Hl)%IH.
    destruct (minimum <=? _).
    + eexists. rewrite <- app_assoc. split; [done|]. cbn. lia.
    + exists ext. split; [done|]. cbn. lia.
Qed.
End Chain.

Lemma elem_of_last_n {A} (l ext : list A) x n :
  (length ext < n)%nat -> x ∈ last_n n (l ++ [x] ++ ext).
Proof.
  intros Hn. unfold last_n. rewrite !length_app. cbn [length].
  rewrite drop_app_le by lia. apply elem_of_app. right. left.
Qed.

Lemma last_n_snoc {A} (l : list A) x n : (0 < n)%nat -> exists l', last_n n (l ++ [x]) = l' ++ [x].
Proof.
  intros Hn. unfold last_n. rewrite length_app. cbn. rewrite drop_app_le by lia. eauto.
Qed.

Section Conversation.
Context `{JsonText} (key : list Z) (options : FingerprintOptions).

(** The longest fingerprint of a conversation is among those of any
    conversation that goes on from it with fewer items than the limit. *)
Lemma longest_prefix_persists envelope1 envelope2 raw1 raw2 items more p rest ps2 :
  envelope1 !! fo_SequenceField options = Some raw1 ->
  envelope2 !! fo_SequenceField options = Some raw2 ->
  json_array raw1 = Some items -> json_array raw2 = Some (items ++ more) ->
  static_fields envelope1 (fo_SequenceField options) = static_fields envelope2 (fo_SequenceField options) ->
  Z.of_nat (length more) < fo_MaxPrefixes options ->
  Prefixes key envelope1 options = inr (p :: rest) ->
  Prefixes key envelope2 options = inr ps2 -> p ∈ ps2.
Proof.
  intros E1 E2 A1 A2 Hs Hmore. unfold Prefixes.
  destruct (String.eqb _ _ || _) eqn:Hg; [done|]. rewrite E1, E2. unfold sequenceItems.
  rewrite A1, A2, Hs. destruct (json_object _) as [|static]; [done|].
  destruct (prefix_loop key _ _ _ 0 [] items) as [|all1] eqn:P1; [done|]. intros [= Hp].
  destruct (prefix_loop_app key _ items more _ _ _ _ _ P1) as (prev & by' & ix & ->).
  destruct (prefix_loop key _ prev by' ix all1 more) as [|all2] eqn:P2; [done|]. intros [= <-].
  destruct (prefix_loop_extends _ _ _ _ _ _ _ _ P2) as (ext & -> & Hext).
  apply orb_false_iff in Hg as [_ Hm%Z.ltb_ge].
  destruct all1 as [|x all1 _] using rev_ind.
  { unfold last_n in Hp. cbn in Hp. done. }
  destruct (last_n_snoc all1 x (Z.to_nat (fo_MaxPrefixes options)) ltac:(lia)) as [l' El].
  rewrite El, reverse_snoc in Hp. injection Hp as <- _.
  rewrite elem_of_reverse, <- app_assoc. apply elem_of_last_n. lia.
Qed.
End Conversation.

(** *** Recording and looking up again *)

Lemma live_removeExpired now clock entries k e :
  entries !! k = Some e -> live_at (if time_IsZero now then clock else now) e = true ->
  removeExpired now clock entries !! k = Some e.
Proof. intros Hk Hl. by apply map_lookup_filter_Some. Qed.

(** Entries that are all older give way to the observation. *)
Lemma record_prefixes_lookup o prefixes : forall entries,
  (forall k e, entries !! k = Some e -> me_lastSuccess e <= ob_LastSuccess o) ->
  (forall k e, foldl (record_prefix o) entries prefixes !! k = Some e ->
     me_lastSuccess e <= ob_LastSuccess o) /\
  forall prefix, prefix ∈ prefixes -> exists prefix',
    px_Digest prefix' = px_Digest prefix /\
    foldl (record_prefix o) entries prefixes !! record_key o prefix = Some (record_entry o prefix').
Proof.
  induction prefixes as [|x prefixes IH] using rev_ind; intros entries He.
  { split; [done|]. intros prefix Hin. by apply elem_of_nil in Hin. }
  rewrite foldl_app. cbn [foldl]. destruct (IH entries He) as [Hle Hin].
  set (entries1 := foldl (record_prefix o) entries prefixes) in *.
  assert (Hx : record_prefix o entries1 x = <[record_key o x := record_entry o x]> entries1).
  { unfold record_prefix. destruct (entries1 !! record_key o x) as [e|] eqn:E; [|done].
    specialize (Hle _ _ E). by destruct (Z.ltb_spec (ob_LastSuccess o) (me_lastSuccess e)); [lia|]. }
  rewrite Hx. split.
  - intros k e. rewrite lookup_insert. case_decide; [intros [= <-]; cbn; lia|apply Hle].
  - intros prefix [Hp|Hp%list_elem_of_singleton]%elem_of_app.
    + rewrite lookup_insert. case_decide as Hd; [|by apply Hin].
      exists x. split; [|done]. unfold record_key in Hd. by injection Hd.
    + subst. exists x. by rewrite lookup_insert_eq.
Qed.

Lemma evict_none visit maxEntries fuel entries :
  Z.of_nat (size entries) <= maxEntries \/ maxEntries <= 0 -> evict visit maxEntries fuel entries = entries.
Proof.
  intros Hs. destruct fuel; cbn; [done|].
  destruct (Z.ltb_spec 0 maxEntries), (Z.ltb_spec maxEntries (Z.of_nat (size entries))); try done; lia.
Qed.

(** ** Claims *)

(** [MemoryStore.Record] keeps the store within its limit and drops the
    least recent first: whatever order the map is visited in, the entries kept
    are entries of the store and the observation, as many as the limit allows,
    and nothing that is dropped succeeded later than anything that is kept. *)
Theorem memory_store_lru visit o clock s :
  visits_all visit -> lru (ms_maxEntries s) (observed_entries o clock s)
                        (ms_entries (MemoryStore_Record visit o clock s)).
Proof. intros Hv. by apply evict_lru. Qed.

(** [MemoryStore.Lookup] is exact: it answers with the first prefix of the
    query for which some candidate route has a live entry, recorded for that very
    route under the query's scope, model, operation and revision, and among those
    with the first entry of the latest success; it finds nothing only when no
    prefix has such an entry. *)
Theorem affinity_lookup_exact query clock s :
  let now := query_time query clock in
  let entries := removeExpired now clock (ms_entries s) in
  match (MemoryStore_Lookup query clock s).1 with
  | Some m =>
      exists longer prefix shorter e,
        q_Prefixes query = longer ++ prefix :: shorter /\
        Forall (fun p => hits entries query now p = []) longer /\
        best_hit entries query now prefix e /\ m = match_of e
  | None => Forall (fun p => hits entries query now p = []) (q_Prefixes query)
  end.
Proof.
  intros now entries. unfold MemoryStore_Lookup. cbn. fold now entries.
  pose proof (lookup_prefixes_spec entries query now (q_Prefixes query)) as H.
  destruct (lookup_prefixes _ _ _ _) as [m|]; [|exact H].
  destruct H as (shorter & p & longer & e & ?). by exists longer, p, shorter, e.
Qed.

(** C39: The directory works off what it accepts, over any backend that keeps its
    promises.  Under any interleaving of lookups, records, [Close] and the worker,
    the observations it accepted are, in order, those given to the backend, the
    one being written and those in its bounded queue.  When the worker has ended
    the directory is closed and everything it accepted was given to the backend;
    and once it is closed the worker does end, without blocking, after two turns
    for each observation in the queue and two more at most, having written all
    that was accepted.  The match of any lookup is an observation that the backend
    recorded, under the same scope, model, operation and revision, of a prefix of
    the query and a candidate route, and not yet expired. *)
Theorem directory_serves_its_history {T : Type} {HB : Backend T} {start : T} {holds} {HL : BackendLaws T start holds} options d0 d :
  NewDirectory start options = inr d0 -> directory_reach d0 d ->
  (d_accepted d = (fst <$> d_written d) ++ writing d ++ d_queue d /\
   Z.of_nat (length (d_queue d)) <= d_queueSize d) /\
  (d_worker d = WorkerDone -> d_closed d = true /\ fst <$> d_written d = d_accepted d) /\
  (forall clocks, (2 * length (d_queue d) + 2 <= length clocks)%nat ->
     let d' := work_off clocks (Directory_Close d) in
     d_worker d' = WorkerDone /\ d_accepted d' = d_accepted d /\ fst <$> d_written d' = d_accepted d) /\
  (forall query clock m, (Directory_Lookup query clock d).1 = Some m ->
     (exists o, (o, true) ∈ d_written d /\ supports query (query_time query clock) m o) /\
     ma_Route m ∈ q_Candidates query /\ px_Digest (ma_Prefix m) ∈ (px_Digest <$> q_Prefixes query)).
Proof.
  intros Hn Hr. pose proof (directory_reach_inv _ _ _ Hn Hr) as Hinv. pose proof Hinv as [Ho Hh Hc Hd].
  split; [done|]. split; [by apply (done_wrote_all (holds := holds))|]. split.
  { intros clocks Hlen. apply (work_off_ends (holds := holds) clocks (Directory_Close d)); [by apply (Directory_Close_inv (holds := holds))|done|].
    unfold work_left. cbn. destruct (d_worker d); lia. }
  intros query clock m Hm. unfold Directory_Lookup in Hm.
  destruct (q_Prefixes query) eqn:Ep; [done|]. destruct (q_Candidates query) eqn:Ec; [done|].
  destruct (Lookup query clock (d_backend d)) as [[err|m'] backend] eqn:El; [done|]. cbn in Hm. subst m'.
  destruct (lookup_supported _ _ query clock m Hh) as ((o & Hoh & Hs) & H1 & H2); [by rewrite El|].
  rewrite <- Ep, <- Ec. split; [|done]. exists o. split; [|done].
  apply list_elem_of_fmap in Hoh as ([o' b] & -> & [Hb Hw]%list_elem_of_filter). cbn in *. by subst b.
Qed.

(** C40: A conversation finds its route again.  When a request continues the
    conversation of an earlier one (its sequence starts with the same items, its
    static fields are the same, and it adds fewer items than the limit of
    prefixes), and the earlier request was recorded in a store with room whose
    entries are not newer, then a lookup for it before the expiry and with that
    route among the candidates finds a match. *)
Theorem conversation_finds_its_route `{JsonText} key options visit envelope1 envelope2 raw1 raw2
    items more ps1 ps2 s o query clock clock' :
  envelope1 !! fo_SequenceField options = Some raw1 ->
  envelope2 !! fo_SequenceField options = Some raw2 ->
  json_array raw1 = Some items -> json_array raw2 = Some (items ++ more) ->
  static_fields envelope1 (fo_SequenceField options) = static_fields envelope2 (fo_SequenceField options) ->
  Z.of_nat (length more) < fo_MaxPrefixes options ->
  Prefixes key envelope1 options = inr ps1 -> ps1 <> [] -> Prefixes key envelope2 options = inr ps2 ->
  ob_Prefixes o = ps1 -> q_Prefixes query = ps2 ->
  ob_ScopeDigest o = q_ScopeDigest query -> ob_VirtualModel o = q_VirtualModel query ->
  ob_Operation o = q_Operation query -> ob_ConfigRevision o = q_ConfigRevision query ->
  ob_Route o ∈ q_Candidates query -> query_time query clock' < ob_ExpiresAt o ->
  (forall k e, ms_entries s !! k = Some e -> me_lastSuccess e <= ob_LastSuccess o) ->
  Z.of_nat (size (observed_entries o clock s)) <= ms_maxEntries s ->
  exists m, (MemoryStore_Lookup query clock' (MemoryStore_Record visit o clock s)).1 = Some m.
Proof.
  intros E1 E2 A1 A2 Hst Hmore P1 Hne P2 Hop Hqp S1 S2 S3 S4 Hroute Hlive Hold Hroom.
  destruct ps1 as [|p rest]; [done|].
  pose proof (longest_prefix_persists _ _ _ _ _ _ _ _ _ _ _ E1 E2 A1 A2 Hst Hmore P1 P2) as Hin.
  destruct (record_prefixes_lookup o (ob_Prefixes o)
    (removeExpired (ob_LastSuccess o) clock (ms_entries s))) as [_ Hrec].
  { intros k e Hk. eapply Hold, lookup_weaken; [exact Hk|apply removeExpired_sub]. }
  destruct (Hrec p) as (p' & Hd & Hk); [rewrite Hop; left|].
  destruct (MemoryStore_Lookup query clock' (MemoryStore_Record visit o clock s)).1 as [m|] eqn:Em;
    [by exists m|]. exfalso.
  unfold MemoryStore_Lookup in Em. cbn in Em.
  pose proof (lookup_prefixes_spec (removeExpired (query_time query clock') clock'
    (ms_entries (MemoryStore_Record visit o clock s))) query (query_time query clock') (q_Prefixes query)) as H'.
  cbn in H'. rewrite Em in H'. rewrite Forall_forall in H'. rewrite Hqp in H'. specialize (H' p Hin).
  assert (record_entry o p' ∈ hits (removeExpired (query_time query clock') clock'
    (ms_entries (MemoryStore_Record visit o clock s))) query (query_time query clock') p) as Hhit.
  { apply hits_elem. exists (ob_Route o). split; [done|]. split; [|done].
    apply live_removeExpired.
    - cbn. rewrite evict_none by (left; exact Hroom).
      unfold lookup_key. rewrite <- S1, <- S2, <- S3, <- S4. exact Hk.
    - unfold live_at. cbn. apply Z.ltb_lt. destruct (time_IsZero (query_time query clock')) eqn:Ez; [|done].
      unfold query_time in *. destruct (time_IsZero (q_Now query)) eqn:E0; [exact Hlive|]. congruence. }
  cbn in Hhit. rewrite H' in Hhit. by apply elem_of_nil in Hhit.
Qed.
