(* ===== verification/PromptCacheWitnesses.v ===== *)
(** * Prompt-cache affinity: concrete runs

    A conversation of one-letter messages, the store in memory behind a
    directory, and two candidates that only their readiness tells apart. *)

From stdpp Require Import base gmap list strings.
From Stdlib Require Import Ascii ZArith Lia.
From S2P Require Import Prelude GoStrings Policies Capabilities Config Fields Json Sha256.
From S2P Require Import Picker Plan Fixtures PlanWitnesses Gateway Identity.
From S2P Require Import PromptCache PromptCacheTheorems.

Local Open Scope Z_scope.

#[local] Existing Instance plain_tables.

(** ** A notation of messages

    A sequence of letters for an array, and the names and values of an object
    one after the other. *)
#[local] Instance letters : JsonText := {|
  json_array s := Some ((fun c => String c EmptyString) <$> Stdlib.Strings.String.list_ascii_of_string s);
  json_valid _ := true;
  json_canonical s := inr s;
  json_object m := inr (String.concat "" ((fun kv => kv.1 +:+ ":" +:+ kv.2) <$> map_to_list m));
|}.

Definition in_order : visiting := map_to_list.

Lemma in_order_all : visits_all in_order.
Proof. intros entries. reflexivity. Qed.

Definition key32 : list Z := replicate 32 7.

Definition route_named (name : string) : Route := mkRoute "openai" name "m" "openai".

Definition observation_of (name : string) (prefixes : list Prefix) (at_ : Z) : Observation :=
  mkObservation "scope" "m" "chat_completions" "rev" prefixes (route_named name) at_ (at_ + 100).

Definition asked (prefixes : list Prefix) (routes : list Route) (now : Z) : Query :=
  mkQuery "scope" "m" "chat_completions" "rev" prefixes routes now.

Definition px (digest : string) : Prefix := mkPrefix digest 1 1.

(** ** Eviction *)

(** A store of two entries forgets the oldest of three. *)
Definition two_recorded : MemoryStore :=
  MemoryStore_Record in_order (observation_of "b" [px "y"] 20) 20
    (MemoryStore_Record in_order (observation_of "a" [px "x"] 10) 10 (NewMemoryStore 2)).

Lemma memory_store_lru_witness :
  lru 2 (observed_entries (observation_of "a" [px "z"] 30) 30 two_recorded)
    (ms_entries (MemoryStore_Record in_order (observation_of "a" [px "z"] 30) 30 two_recorded)) /\
  (me_lastSuccess <$> (map_to_list
     (ms_entries (MemoryStore_Record in_order (observation_of "a" [px "z"] 30) 30 two_recorded))).*2) ≡ₚ
    [20; 30].
Proof.
  split.
  - apply (memory_store_lru in_order (observation_of "a" [px "z"] 30) 30 two_recorded), in_order_all.
  - apply (bool_decide_unpack _). vm_compute. exact I.
Defined.

(** ** The directory *)
#[local] Existing Instance MemoryStore_laws.

Definition options4 : DirectoryOptions := mkDirectoryOptions 4 0 0.
Definition dir0 : Directory MemoryStore :=
  mkDirectory (NewMemoryStore 0) 4 [] false WorkerIdle 0 0 [] [].
Definition dir1 : Directory MemoryStore := Directory_Record (observation_of "a" [px "x"] 10) dir0.
Definition ran (d : Directory MemoryStore) : Directory MemoryStore :=
  default d (@run_worker _ (MemoryStore_backend in_order) 10 d).
Definition dir3 : Directory MemoryStore := ran (ran dir1).

Lemma dir1_reached : @directory_reach _ (MemoryStore_backend in_order) dir0 dir1.
Proof. apply (directory_next _ dir0); [constructor|apply step_record]. Qed.

Lemma dir3_reached : @directory_reach _ (MemoryStore_backend in_order) dir0 dir3.
Proof.
  apply (directory_next _ (ran dir1)).
  - apply (directory_next _ dir1).
    + apply (directory_next _ dir0); [constructor|apply step_record].
    + apply (step_worker _ 10). reflexivity.
  - apply (step_worker _ 10). reflexivity.
Qed.

Definition found_a : Match := mkMatch (px "x") (route_named "a") 10 110.

(** The worker of a directory closed with an observation in its queue. *)
Lemma directory_serves_its_history_witness :
  (d_accepted dir3 = (fst <$> d_written dir3) ++ writing dir3 ++ d_queue dir3 /\
   Z.of_nat (length (d_queue dir3)) <= d_queueSize dir3) /\
  (exists o, (o, true) ∈ d_written dir3 /\
     supports (asked [px "x"] [route_named "a"] 50)
       (query_time (asked [px "x"] [route_named "a"] 50) 50) found_a o) /\
  fst <$> d_written (@work_off _ (MemoryStore_backend in_order) [20; 21; 22; 23] (Directory_Close dir1)) = d_accepted dir1.
Proof.
  pose proof (fun d Hd => @directory_serves_its_history MemoryStore (MemoryStore_backend in_order)
    (NewMemoryStore 0) recorded (MemoryStore_laws in_order 0) options4 dir0 d eq_refl Hd) as Hserves.
  destruct (Hserves dir3 dir3_reached) as (Hqueue & _ & _ & Hlookup).
  destruct (Hserves dir1 dir1_reached) as (_ & _ & Hoff & _).
  split; [exact Hqueue|]. split.
  - apply (Hlookup (asked [px "x"] [route_named "a"] 50) 50 found_a). reflexivity.
  - destruct (Hoff [20; 21; 22; 23]) as (_ & _ & E); [vm_compute; repeat constructor|exact E].
Defined.

(** ** A conversation *)
Definition fingerprints : FingerprintOptions :=
  mkFingerprintOptions "scope" "m" "chat_completions" "rev" "messages" 1 4.

Definition said (text : string) : gmap string string :=
  {["messages"%string := text; "model"%string := "m"%string]}.

Definition prefixes_of (text : string) : list Prefix :=
  match Prefixes key32 (said text) fingerprints with inr ps => ps | inl _ => [] end.

Lemma conversation_finds_its_route_witness :
  exists m,
    (MemoryStore_Lookup (asked (prefixes_of "abcd") [route_named "a"; route_named "b"] 50) 50
       (MemoryStore_Record in_order (observation_of "b" (prefixes_of "ab") 10) 10 (NewMemoryStore 0))).1 =
    Some m.
Proof.
  apply (conversation_finds_its_route key32 fingerprints in_order (said "ab") (said "abcd")
    "ab" "abcd" ["a"; "b"]%string ["c"; "d"]%string (prefixes_of "ab") (prefixes_of "abcd")).
  all: try (vm_compute; reflexivity).
  - vm_compute. discriminate.
  - right. left.
  - intros k e Hk. vm_compute in Hk. discriminate Hk.
  - vm_compute. discriminate.
Defined.

(** ** Which routes are asked for

    The routes asked for are those of the first candidate's priority and
    preference class.  [PreferDeployment] asks for the same readiness and
    provider preference as well, so the longer prefix of a candidate that is not
    running hides the shorter one of a candidate that could have been moved. *)
Definition running (s : Selection) : Selection :=
  mkSelection (sel_RequestedModel s) (sel_VirtualModel s) (sel_Provider s) (sel_Deployment s)
    (sel_UpstreamProtocol s) (sel_NativeProtocol s) (sel_PoolPriority s) true (sel_PreferenceClass s)
    (sel_ProviderPreference s) (sel_Weight s) (sel_ResponseModel s).

Definition planned : list Selection := [running (candidate "a"); running (candidate "b"); candidate "c"].

Definition both_known : MemoryStore :=
  MemoryStore_Record in_order
    (mkObservation "scope" "m" "chat_completions" "rev" [px "long"]
       (promptCacheRoute (candidate "c")) 20 120) 20
    (MemoryStore_Record in_order
       (mkObservation "scope" "m" "chat_completions" "rev" [px "short"]
          (promptCacheRoute (candidate "b")) 10 110) 10 (NewMemoryStore 0)).

Definition preferred (m : option Match) : bool :=
  match m with
  | Some m => (PreferDeployment planned (ro_Deployment (ma_Route m))).1
  | None => false
  end.

Example stopped_candidate_hides_running_one :
  preferred (MemoryStore_Lookup (asked [px "long"; px "short"] (promptCacheCandidates planned) 50) 50
               both_known).1 = false /\
  preferred (MemoryStore_Lookup
               (asked [px "long"; px "short"]
                  (promptCacheRoute <$> List.filter (same_rank (running (candidate "a"))) planned) 50) 50
               both_known).1 = true.
Proof. split; vm_compute; reflexivity. Qed.
