(* ===== verification/Regex.v ===== *)
(** * Regular expressions over bytes ([regexp])

    The matcher of the PII detector: Go's leftmost-first semantics, as the list
    of all ways to match a prefix, in the order in which a backtracking matcher
    tries them.  The first one is the match; [FindAllStringIndex] repeats the
    search after each match.

    Only non-empty matches are reported: no pattern of the program matches the
    empty string.  A class of a case-insensitive pattern is a class of bytes or
    the encoding of one of the two letters that fold to ASCII (U+017F and
    U+212A). *)

From stdpp Require Import base list sorting.
From Stdlib Require Import Ascii Lia Sorted.
From S2P Require Import Prelude GoStrings.

#[local] Arguments Nat.ltb : simpl never.

(** A text is the list of its bytes. *)
Abbreviation text := (list ascii).

Inductive regex :=
  | Cls (p : ascii -> bool)
  | Sequence (r1 r2 : regex)
  | Alt (r1 r2 : regex)
  | Repeat (least : nat) (most : option nat) (r : regex).

(** [run r s]: what is left of [s] after each way to match a prefix of it. *)
Section Repeat.
Context (f : text -> list text).

Fixpoint optional (extra : nat) (s : text) : list text :=
  match extra with
  | O => [s]
  | S extra =>
      (List.filter (fun rest => Nat.ltb (length rest) (length s)) (f s) ≫= optional extra) ++ [s]
  end.

Fixpoint repeated (least extra : nat) (s : text) : list text :=
  match least with
  | O => optional extra s
  | S least => f s ≫= repeated least extra
  end.
End Repeat.

Fixpoint run (r : regex) (s : text) : list text :=
  match r with
  | Cls p => match s with c :: s => if p c then [s] else [] | [] => [] end
  | Sequence r1 r2 => run r1 s ≫= run r2
  | Alt r1 r2 => run r1 s ++ run r2 s
  | Repeat least most r =>
      repeated (run r) least
        (match most with Some n => n - least | None => length s end) s
  end.

(** The length of the match at the start of [s]. *)
Definition match_length (r : regex) (s : text) : option nat :=
  match run r s with
  | rest :: _ => if Nat.ltb (length rest) (length s) then Some (length s - length rest) else None
  | [] => None
  end.

(** [FindAllStringIndex(s, -1)] from the offset [pos], after [skip] more bytes. *)
Fixpoint find_all (r : regex) (skip pos : nat) (s : text) : list (nat * nat) :=
  match s with
  | [] => []
  | _ :: s' =>
      match skip with
      | S skip => find_all r skip (S pos) s'
      | O =>
          match match_length r s with
          | Some n => (pos, pos + n) :: find_all r (n - 1) (S pos) s'
          | None => find_all r 0 (S pos) s'
          end
      end
  end.

Definition FindAllStringIndex (r : regex) (s : text) : list (nat * nat) := find_all r 0 0 s.

(** ** Suffixes *)

Lemma optional_suffix f extra : forall s rest,
  (forall s rest, rest ∈ f s -> rest `suffix_of` s) -> rest ∈ optional f extra s -> rest `suffix_of` s.
Proof.
  induction extra as [|extra IH]; intros s rest Hf; cbn [optional].
  - by intros ->%list_elem_of_singleton.
  - intros [(mid & Hr & Hm)%list_elem_of_bind | ->%list_elem_of_singleton]%elem_of_app; [|done].
    apply list_elem_of_In, filter_In in Hm as [Hm%list_elem_of_In _].
    etrans; [by eapply IH|by apply Hf].
Qed.

Lemma repeated_suffix f least extra : forall s rest,
  (forall s rest, rest ∈ f s -> rest `suffix_of` s) ->
  rest ∈ repeated f least extra s -> rest `suffix_of` s.
Proof.
  induction least as [|least IH]; intros s rest Hf; cbn [repeated]; [by apply optional_suffix|].
  intros (mid & Hr & Hm)%list_elem_of_bind. etrans; [by eapply IH|by apply Hf].
Qed.

Lemma run_suffix r : forall s rest, rest ∈ run r s -> rest `suffix_of` s.
Proof.
  induction r as [p|r1 IH1 r2 IH2|r1 IH1 r2 IH2|least most r IH]; intros s rest; cbn [run].
  - destruct s as [|c s]; [by intros ?%elem_of_nil|]. destruct (p c); [|by intros ?%elem_of_nil].
    intros ->%list_elem_of_singleton. by exists [c].
  - intros (mid & Hr & Hm)%list_elem_of_bind. etrans; [by eapply IH2|by apply IH1].
  - intros [H|H]%elem_of_app; [by apply IH1|by apply IH2].
  - by apply repeated_suffix.
Qed.

(** ** Locality

    An expression whose classes stay within [A] does not look past the first
    byte outside [A]. *)
Fixpoint within (A : ascii -> bool) (r : regex) : Prop :=
  match r with
  | Cls p => forall c, p c = true -> A c = true
  | Sequence r1 r2 | Alt r1 r2 => within A r1 /\ within A r2
  | Repeat _ _ r => within A r
  end.

(** More iterations than bytes make no difference. *)
Lemma filter_shorter_nil (l : list text) :
  List.filter (fun rest => Nat.ltb (length rest) (length (@nil ascii))) l = [].
Proof. induction l as [|x l IH]; cbn; [done|]. by destruct (Nat.ltb_spec (length x) 0); [lia|]. Qed.

Lemma bind_ext_in {A B} (f g : A -> list B) l : (forall x, x ∈ l -> f x = g x) -> l ≫= f = l ≫= g.
Proof.
  induction l as [|x l IH]; [done|]. intros H. cbn. rewrite (H x) by left. f_equal. apply IH.
  intros y Hy. apply H. by right.
Qed.

Lemma optional_nil f extra : optional f extra [] = [[]].
Proof. destruct extra; cbn [optional]; [done|]. by rewrite filter_shorter_nil. Qed.

Lemma optional_enough f e1 : forall e2 s,
  (length s <= e1)%nat -> (length s <= e2)%nat -> optional f e1 s = optional f e2 s.
Proof.
  induction e1 as [|e1 IH]; intros e2 s H1 H2; (destruct s as [|b s]; [by rewrite !optional_nil|]).
  - cbn in H1. lia.
  - destruct e2 as [|e2]; [cbn in H2; lia|]. cbn [optional]. f_equal. apply bind_ext_in.
    intros x [_ Hl%Nat.ltb_lt]%list_elem_of_In%filter_In. cbn [length] in *. apply IH; lia.
Qed.

Lemma repeated_enough f least : forall e1 e2 s,
  (forall s rest, rest ∈ f s -> rest `suffix_of` s) ->
  (length s <= e1)%nat -> (length s <= e2)%nat -> repeated f least e1 s = repeated f least e2 s.
Proof.
  induction least as [|least IH]; intros e1 e2 s Hf H1 H2; cbn [repeated]; [by apply optional_enough|].
  apply bind_ext_in. intros x Hx%Hf%suffix_length. apply IH; [done|lia..].
Qed.

Section Locality.
Context (A : ascii -> bool) (c : ascii) (v : text) (Hc : A c = false).

Definition before (l : list text) : list text := (fun rest => rest ++ c :: v) <$> l.

(** The answers on [u] followed by [c :: v] are those on [u]. *)
Definition local (f : text -> list text) : Prop := forall u, f (u ++ c :: v) = before (f u).

Lemma bind_local g l : local g -> before l ≫= g = before (l ≫= g).
Proof.
  intros Hg. induction l as [|x l IH]; [done|]. unfold before in *. cbn.
  rewrite (Hg x). unfold before. rewrite fmap_app. f_equal. exact IH.
Qed.

Lemma before_filter u l :
  List.filter (fun rest => Nat.ltb (length rest) (length (u ++ c :: v))) (before l) =
  before (List.filter (fun rest => Nat.ltb (length rest) (length u)) l).
Proof.
  induction l as [|x l IH]; [done|]. unfold before in *. cbn [fmap list_fmap List.filter].
  replace (Nat.ltb (length (x ++ c :: v)) (length (u ++ c :: v))) with (Nat.ltb (length x) (length u)).
  2:{ rewrite !length_app. cbn [length].
      destruct (Nat.ltb_spec (length x) (length u)),
        (Nat.ltb_spec (length x + S (length v)) (length u + S (length v))); lia. }
  destruct (Nat.ltb _ _); cbn [fmap list_fmap]; [f_equal|]; exact IH.
Qed.

Lemma optional_local f extra : local f -> local (optional f extra).
Proof.
  intros Hf. induction extra as [|extra IH]; intros u; cbn [optional]; [done|].
  unfold before. rewrite fmap_app. f_equal. rewrite Hf, before_filter. by apply bind_local.
Qed.

Lemma repeated_local f least extra : local f -> local (repeated f least extra).
Proof.
  intros Hf. induction least as [|least IH]; intros u; cbn [repeated]; [by apply optional_local|].
  rewrite Hf. by apply bind_local.
Qed.

Lemma run_local r : within A r -> local (run r).
Proof.
  induction r as [p|r1 IH1 r2 IH2|r1 IH1 r2 IH2|least most r IH]; cbn [within run].
  - intros Hp [|b u]; cbn [app].
    + destruct (p c) eqn:E; [|done]. apply Hp in E. congruence.
    + by destruct (p b).
  - intros [H1 H2] u. rewrite (IH1 H1). apply bind_local. by apply IH2.
  - intros [H1 H2] u. rewrite (IH1 H1), (IH2 H2). unfold before. by rewrite fmap_app.
  - intros Hr u. destruct most as [n|]; [by apply repeated_local, IH|].
    rewrite (repeated_local (run r) least (length (u ++ c :: v)) (IH Hr) u).
    f_equal. apply repeated_enough; [apply run_suffix|rewrite length_app; lia|done].
Qed.

Lemma match_length_local r u : within A r -> match_length r (u ++ c :: v) = match_length r u.
Proof.
  intros Hr. unfold match_length. rewrite (run_local r Hr u). unfold before.
  destruct (run r u) as [|rest l]; cbn; [done|]. rewrite !length_app. cbn [length].
  destruct (Nat.ltb_spec (length rest) (length u)),
    (Nat.ltb_spec (length rest + S (length v)) (length u + S (length v))); try lia; [apply (f_equal Some); lia|done].
Qed.
End Locality.

(** *** The matches of a text in two parts *)

Lemma match_length_le r s n : match_length r s = Some n -> (0 < n <= length s)%nat.
Proof.
  unfold match_length. destruct (run r s) as [|rest l] eqn:E; [done|].
  destruct (Nat.ltb_spec (length rest) (length s)); [|done]. intros [= <-]. lia.
Qed.

Lemma match_length_outside A r c v : within A r -> A c = false -> match_length r (c :: v) = None.
Proof.
  intros Hr Hc. change (c :: v) with ([] ++ c :: v); rewrite (match_length_local A c v Hc r [] Hr). unfold match_length.
  destruct (run r []) as [|rest l]; [done|]. by destruct (Nat.ltb_spec (length rest) (length (@nil ascii))); [cbn in *; lia|].
Qed.

Definition shift (d : nat) (m : nat * nat) : nat * nat := (d + m.1, d + m.2).

Lemma find_all_shift r s : forall skip pos d,
  find_all r skip (d + pos) s = shift d <$> find_all r skip pos s.
Proof.
  induction s as [|c s IH]; intros skip pos d; cbn [find_all]; [done|].
  rewrite <- Nat.add_succ_r. destruct skip as [|skip]; [|apply IH].
  destruct (match_length r (c :: s)) as [n|]; [|apply IH].
  cbn [fmap list_fmap]. rewrite IH. f_equal. unfold shift. cbn. f_equal. lia.
Qed.

(** A byte outside the classes ends every match before it. *)
Lemma find_all_split A r c : forall u v skip pos,
  within A r -> A c = false -> (skip <= length u)%nat ->
  find_all r skip pos (u ++ c :: v) = find_all r skip pos (u ++ [c]) ++ find_all r 0 (S (pos + length u)) v.
Proof.
  intros u v. induction u as [|b u IH]; intros skip pos Hr Hc Hs.
  - cbn in Hs. replace skip with 0 by lia. cbn [app find_all length].
    rewrite !(match_length_outside A) by done. by rewrite Nat.add_0_r.
  - cbn [app find_all length]. replace (pos + S (length u)) with (S pos + length u) by lia.
    destruct skip as [|skip]; [|apply IH; [done..|cbn in Hs; lia]].
    change (b :: u ++ c :: v) with ((b :: u) ++ c :: v). change (b :: u ++ [c]) with ((b :: u) ++ [c]).
    rewrite (match_length_local A c v Hc r (b :: u) Hr), (match_length_local A c [] Hc r (b :: u) Hr).
    destruct (match_length r (b :: u)) as [n|] eqn:E.
    + apply match_length_le in E as [_ Hn]. cbn in Hn. cbn [app]. f_equal. apply IH; [done..|lia].
    + apply IH; [done..|lia].
Qed.

(** The matches of [p ++ q], when the last byte of [p] is outside the classes. *)
Lemma FindAll_app A r p q :
  within A r -> (forall c, last p = Some c -> A c = false) ->
  FindAllStringIndex r (p ++ q) = FindAllStringIndex r p ++ (shift (length p) <$> FindAllStringIndex r q).
Proof.
  intros Hr Hlast. unfold FindAllStringIndex. destruct p as [|c p _] using rev_ind.
  { cbn. rewrite <- (find_all_shift r q 0 0 0). done. }
  specialize (Hlast c (last_snoc _ _)). rewrite <- app_assoc. cbn [app].
  rewrite (find_all_split A r c p q 0 0 Hr Hlast) by lia.
  f_equal. rewrite length_app. cbn [length]. rewrite <- find_all_shift. f_equal. lia.
Qed.

(** *** Where matches are *)

(** Matches lie in the text, one after the other. *)
Lemma find_all_bounds r s : forall skip pos,
  Forall (fun m => pos + skip <= m.1 /\ m.1 < m.2 /\ m.2 <= pos + length s)%nat (find_all r skip pos s).
Proof.
  induction s as [|c s IH]; intros skip pos; cbn [find_all length]; [constructor|].
  destruct skip as [|skip].
  - destruct (match_length r (c :: s)) as [n|] eqn:E.
    + apply match_length_le in E as [H0 Hn]. cbn in Hn. constructor; cbn; [lia|].
      eapply Forall_impl; [apply IH|]. cbn. lia.
    + eapply Forall_impl; [apply IH|]. cbn. lia.
  - eapply Forall_impl; [apply IH|]. cbn. lia.
Qed.

Lemma find_all_ordered r s : forall skip pos,
  StronglySorted (fun m m' => m.2 <= m'.1)%nat (find_all r skip pos s).
Proof.
  induction s as [|c s IH]; intros skip pos; cbn [find_all]; [constructor|].
  destruct skip as [|skip]; [|apply IH].
  destruct (match_length r (c :: s)) as [n|] eqn:E; [|apply IH].
  apply match_length_le in E as [H0 Hn]. constructor; [apply IH|].
  eapply Forall_impl; [apply find_all_bounds|]. cbn. lia.
Qed.

(** The bytes of a match are in the classes. *)
Lemma run_consumes A r : forall s rest,
  within A r -> rest ∈ run r s -> exists u, s = u ++ rest /\ Forall (fun c => A c = true) u.
Proof.
  assert (Hopt : forall f extra s rest,
    (forall s rest, rest ∈ f s -> exists u, s = u ++ rest /\ Forall (fun c => A c = true) u) ->
    rest ∈ optional f extra s -> exists u, s = u ++ rest /\ Forall (fun c => A c = true) u).
  { intros f extra. induction extra as [|extra IH]; intros s rest Hf; cbn [optional].
    - intros ->%list_elem_of_singleton. by exists [].
    - intros [(mid & Hr & Hm)%list_elem_of_bind | ->%list_elem_of_singleton]%elem_of_app; [|by exists []].
      apply list_elem_of_In, filter_In in Hm as [Hm%list_elem_of_In _].
      apply IH in Hr as (u & -> & Hu); [|done]. apply Hf in Hm as (u' & -> & Hu').
      exists (u' ++ u). rewrite <- app_assoc. split; [done|]. by apply Forall_app. }
  induction r as [p|r1 IH1 r2 IH2|r1 IH1 r2 IH2|least most r IH]; intros s rest; cbn [within run].
  - intros Hp. destruct s as [|c s]; [by intros ?%elem_of_nil|]. destruct (p c) eqn:E; [|by intros ?%elem_of_nil].
    intros ->%list_elem_of_singleton. exists [c]. split; [done|]. constructor; [by apply Hp|done].
  - intros [H1 H2] (mid & Hr & Hm)%list_elem_of_bind.
    apply IH2 in Hr as (u & -> & Hu); [|done]. apply IH1 in Hm as (u' & -> & Hu'); [|done].
    exists (u' ++ u). rewrite <- app_assoc. split; [done|]. by apply Forall_app.
  - intros [H1 H2] [H|H]%elem_of_app; [by apply IH1|by apply IH2].
  - intros Hr. generalize (match most with Some n => n - least | None => length s end).
    revert s rest. induction least as [|least IHl]; intros s rest extra; cbn [repeated].
    + apply Hopt. intros. by apply IH.
    + intros (mid & Hm & Hr')%list_elem_of_bind. apply IHl in Hm as (u & -> & Hu).
      apply IH in Hr' as (u' & -> & Hu'); [|done]. exists (u' ++ u). rewrite <- app_assoc.
      split; [done|]. by apply Forall_app.
Qed.

(** The same when the first byte of [q] is outside the classes. *)
Lemma find_all_drop_last A r c u : forall skip pos,
  within A r -> A c = false -> (skip <= length u)%nat ->
  find_all r skip pos (u ++ [c]) = find_all r skip pos u.
Proof.
  induction u as [|b u IH]; intros skip pos Hr Hc Hs.
  - cbn in Hs. replace skip with 0 by lia. cbn [app find_all]. by rewrite (match_length_outside A).
  - cbn [app find_all]. destruct skip as [|skip]; [|apply IH; [done..|cbn in Hs; lia]].
    change (b :: u ++ [c]) with ((b :: u) ++ [c]). rewrite (match_length_local A c [] Hc r (b :: u) Hr).
    destruct (match_length r (b :: u)) as [n|] eqn:E.
    + apply match_length_le in E as [_ Hn]. cbn in Hn. f_equal. apply IH; [done..|lia].
    + apply IH; [done..|lia].
Qed.

Lemma FindAll_app_head A r p c q :
  within A r -> A c = false ->
  FindAllStringIndex r (p ++ c :: q) =
    FindAllStringIndex r p ++ (shift (length p) <$> FindAllStringIndex r (c :: q)).
Proof.
  intros Hr Hc. unfold FindAllStringIndex. rewrite (find_all_split A r c p q 0 0 Hr Hc) by lia.
  rewrite (find_all_drop_last A r c p 0 0 Hr Hc) by lia. f_equal.
  cbn [find_all]. rewrite (match_length_outside A) by done. rewrite <- find_all_shift. f_equal. lia.
Qed.

(** The last byte of a match is in the classes. *)
Lemma find_all_within A r s : forall skip pos m i c,
  within A r -> m ∈ find_all r skip pos s -> (m.1 <= i < m.2)%nat -> s !! (i - pos) = Some c -> A c = true.
Proof.
  induction s as [|b s IH]; intros skip pos m i c Hr; cbn [find_all]; [by intros ?%elem_of_nil|].
  assert (Hrest : forall skip, m ∈ find_all r skip (S pos) s -> (m.1 <= i < m.2)%nat ->
    (b :: s) !! (i - pos) = Some c -> A c = true).
  { intros k Hin Hi Hc. pose proof (find_all_bounds r s k (S pos)) as Hb. rewrite Forall_forall in Hb.
    specialize (Hb m Hin). eapply IH; [done|exact Hin|exact Hi|].
    replace (i - pos) with (S (i - S pos)) in Hc by lia. exact Hc. }
  destruct skip as [|skip]; [|apply Hrest].
  destruct (match_length r (b :: s)) as [n|] eqn:E; [|apply Hrest].
  intros [-> |Hin]%elem_of_cons; [|by eapply Hrest]. cbn [fst snd]. intros Hi Hc.
  unfold match_length in E. destruct (run r (b :: s)) as [|rest l] eqn:Er; [done|].
  destruct (Nat.ltb_spec (length rest) (length (b :: s))); [|done]. injection E as <-.
  destruct (run_consumes A r (b :: s) rest Hr) as (u & Eu & Hu); [rewrite Er; left|].
  pose proof (f_equal length Eu) as El. rewrite length_app in El. cbn [length] in El, Hi.
  rewrite Eu in Hc. rewrite lookup_app_l in Hc by lia.
  rewrite Forall_lookup in Hu. by eapply Hu.
Qed.
