(* ===== verification/Detector.v ===== *)
(** * Detection of personal data ([pkg/pii/builtin.go], [stream.go])

    The interface of detectors and the built-in one: five patterns with their
    checks, the choice between overlapping candidates, and the prefix of an
    incomplete text that a stream may release.

    Offsets are byte offsets.  [ctx] is the error of the call's context at its
    last check: a call whose context ends on the way returns that error. *)

From stdpp Require Import base list strings.
From Stdlib Require Import Ascii ZArith Lia.
From S2P Require Import Prelude GoStrings Privacy Regex.

Local Open Scope Z_scope.

Definition text_len (s : text) : Z := Z.of_nat (length s).

(** [s[from:to]], within the bounds. *)
Definition slice (from to : Z) (s : text) : text :=
  take (Z.to_nat (to - from)) (drop (Z.to_nat from) s).

(** ** Detectors *)
Definition Entity : Type := string.

Definition EntityEmail : Entity := PIIEntityEmail.
Definition EntityPhone : Entity := PIIEntityPhone.
Definition EntitySSN : Entity := PIIEntitySSN.
Definition EntityCreditCard : Entity := PIIEntityCreditCard.
Definition EntityIPv4 : Entity := PIIEntityIPv4.

Definition defaultEntities : list Entity :=
  [EntityEmail; EntityPhone; EntitySSN; EntityCreditCard; EntityIPv4].

Record Span := mkSpan {
  sp_Start : Z;
  sp_End : Z;
  sp_Entity : Entity;
}.

Class Detector := {
  Detect : option string -> text -> list Entity -> string + list Span;
  Supports : Entity -> bool;
}.

(** Detectors that can be used on streams. *)
Class StreamingDetector `{Detector} := {
  SafePrefix : option string -> text -> list Entity -> string + Z;
}.

(** ** The patterns *)
Definition one_of (s : string) (c : ascii) : bool := existsb (Ascii.eqb c) (bytes s).
Definition ascii_between (lo hi : nat) (c : ascii) : bool :=
  Nat.leb lo (byte_of c) && Nat.leb (byte_of c) hi.
Definition is_digit : ascii -> bool := ascii_between 48 57.
Definition is_letter (c : ascii) : bool := ascii_between 97 122 c || ascii_between 65 90 c.

(** A class of a case-insensitive pattern that contains all letters: U+017F
    folds to [s] and U+212A to [k]. *)
Definition byte_is (n : nat) : regex := Cls (fun c => Nat.eqb (byte_of c) n).
Definition folded (p : ascii -> bool) : regex :=
  Alt (Cls p)
    (Alt (Sequence (byte_is 197) (byte_is 191))
         (Sequence (byte_is 226) (Sequence (byte_is 132) (byte_is 170)))).

Definition some_of (r : regex) : regex := Repeat 1 None r.
Definition maybe (r : regex) : regex := Repeat 0 (Some 1%nat) r.
Definition times (n : nat) (r : regex) : regex := Repeat n (Some n) r.
Definition digit : regex := Cls is_digit.

Definition local_byte (c : ascii) : bool :=
  is_letter c || is_digit c || one_of ".!#$%&'*+/=?^_`{|}~-" c.
Definition letter_or_digit (c : ascii) : bool := is_letter c || is_digit c.
Definition domain_byte (c : ascii) : bool := letter_or_digit c || one_of "-" c.

Definition domain_label : regex :=
  Sequence (folded letter_or_digit)
    (maybe (Sequence (Repeat 0 (Some 61%nat) (folded domain_byte)) (folded letter_or_digit))).

Definition emailPattern : regex :=
  Sequence (some_of (folded local_byte))
    (Sequence (Cls (one_of "@"))
       (Sequence domain_label (some_of (Sequence (Cls (one_of ".")) domain_label)))).

Definition phonePattern : regex :=
  Sequence (maybe (Cls (one_of "+")))
    (Sequence digit
       (Sequence (Repeat 7 None (Cls (fun c => is_digit c || one_of "() .-" c))) digit)).

Definition ssnPattern : regex :=
  Sequence (times 3 digit)
    (Sequence (Cls (one_of "-"))
       (Sequence (times 2 digit) (Sequence (Cls (one_of "-")) (times 4 digit)))).

Definition creditCardPattern : regex :=
  Sequence digit (Sequence (Repeat 11 (Some 21%nat) (Cls (fun c => is_digit c || one_of " -" c))) digit).

Definition octet : regex := Repeat 1 (Some 3%nat) digit.
Definition ipv4Pattern : regex :=
  Sequence (times 3 (Sequence octet (Cls (one_of ".")))) octet.

(** ** The checks of a match *)
Definition alwaysValid (_ : text) : bool := true.

Definition isWord (c : ascii) : bool := is_digit c || is_letter c || Nat.eqb (byte_of c) 95.

Definition asciiBoundary (s : text) (start stop : nat) : bool :=
  (Nat.eqb start 0 || negb (match s !! (start - 1)%nat with Some c => isWord c | None => false end)) &&
  (Nat.eqb stop (length s) || negb (match s !! stop with Some c => isWord c | None => false end)).

Definition digits (value : text) : text := List.filter is_digit value.

Definition validPhone (value : text) : bool :=
  let count := text_len (digits value) in (10 <=? count) && (count <=? 15).

Definition validSSN (value : text) : bool :=
  (text_len value =? 11) && negb (bool_decide (slice 0 3 value = bytes "000")) &&
  negb (bool_decide (slice 4 6 value = bytes "00")) &&
  negb (bool_decide (slice 7 (text_len value) value = bytes "0000")).

(** The loop over the digits from the last one. *)
Fixpoint luhn_sum (double : bool) (sum : Z) (numbers : text) : Z :=
  match numbers with
  | [] => sum
  | c :: numbers =>
      let digit := Z.of_nat (byte_of c) - 48 in
      let digit := if double then (if 9 <? digit * 2 then digit * 2 - 9 else digit * 2) else digit in
      luhn_sum (negb double) (sum + digit) numbers
  end.

Definition validCreditCard (value : text) : bool :=
  let numbers := digits value in
  if (text_len numbers <? 13) || (19 <? text_len numbers) then false
  else luhn_sum false 0 (reverse numbers) mod 10 =? 0.

(** [strings.Split] at a byte. *)
Fixpoint split_at (sep : ascii) (s : text) : list text :=
  match s with
  | [] => [[]]
  | c :: s =>
      match split_at sep s with
      | part :: parts => if Ascii.eqb c sep then [] :: part :: parts else (c :: part) :: parts
      | [] => [[]]
      end
  end.

Definition valid_octet (part : text) : bool :=
  if (1 <? text_len part) && match part with c :: _ => Ascii.eqb c "0" | [] => false end then false
  else
    match ParseInt (of_bytes part) with
    | Some number => (0 <=? number) && (number <=? 255)
    | None => false
    end.

Definition validIPv4 (value : text) : bool :=
  let parts := split_at "." value in
  Nat.eqb (length parts) 4 && forallb valid_octet parts.

(** ** The built-in detector *)
Record detectedSpan := mkDetectedSpan {
  ds_Span : Span;
  ds_priority : Z;
}.

Definition add_candidates (s : text) (entities : list Entity) (entity : Entity) (priority : Z)
    (pattern : regex) (valid : text -> bool) : list detectedSpan :=
  if bool_decide (entity ∈ entities) then
    (fun m => mkDetectedSpan (mkSpan (Z.of_nat m.1) (Z.of_nat m.2) entity) priority) <$>
      List.filter (fun m => asciiBoundary s m.1 m.2 && valid (slice (Z.of_nat m.1) (Z.of_nat m.2) s))
        (FindAllStringIndex pattern s)
  else [].

Definition candidate_before (left right : detectedSpan) : bool :=
  lex_less (fun x y => sp_Start (ds_Span x) <? sp_Start (ds_Span y))
    (lex_less (fun x y => ds_priority x <? ds_priority y)
              (fun x y => sp_End (ds_Span y) <? sp_End (ds_Span x))) left right.

(** The candidates that do not overlap one already taken; [last] is the end of
    the last one taken. *)
Fixpoint take_spans (last : option Z) (candidates : list detectedSpan) : list Span :=
  match candidates with
  | [] => []
  | candidate :: candidates =>
      let span := ds_Span candidate in
      if match last with Some e => sp_Start span <? e | None => false end
      then take_spans last candidates
      else span :: take_spans (Some (sp_End span)) candidates
  end.

Definition all_candidates (s : text) (entities : list Entity) : list detectedSpan :=
  add_candidates s entities EntityEmail 0 emailPattern alwaysValid ++
  add_candidates s entities EntitySSN 1 ssnPattern validSSN ++
  add_candidates s entities EntityCreditCard 2 creditCardPattern validCreditCard ++
  add_candidates s entities EntityIPv4 3 ipv4Pattern validIPv4 ++
  add_candidates s entities EntityPhone 4 phonePattern validPhone.

Definition BuiltinDetector_Detect (ctx : option string) (s : text) (entities : list Entity)
  : string + list Span :=
  match ctx with
  | Some err => inl err
  | None => inr (take_spans None (stable_sort candidate_before (all_candidates s entities)))
  end.

Definition BuiltinDetector_Supports (entity : Entity) : bool :=
  bool_decide (entity ∈ [EntityEmail; EntityPhone; EntitySSN; EntityCreditCard; EntityIPv4]).

(** ** Streams *)
Definition asciiLetterOrDigit (c : ascii) : bool := letter_or_digit c.
Definition emailStreamByte (c : ascii) : bool :=
  asciiLetterOrDigit c || one_of ".!#$%&'*+/=?^_`{|}~@-" c.
Definition phoneStreamByte (c : ascii) : bool := is_digit c || one_of "+() .-" c.
Definition ssnStreamByte (c : ascii) : bool := is_digit c || one_of "-" c.
Definition creditCardStreamByte (c : ascii) : bool := is_digit c || one_of " -" c.
Definition ipv4StreamByte (c : ascii) : bool := is_digit c || one_of "." c.

(** The number of bytes at the end of a text, given in reverse, that are allowed. *)
Fixpoint allowed_run (allowed : ascii -> bool) (rs : text) : nat :=
  match rs with
  | c :: rs => if allowed c then S (allowed_run allowed rs) else O
  | [] => O
  end.

Definition trailingAllowedStart (s : text) (allowed : ascii -> bool) : Z :=
  text_len s - Z.of_nat (allowed_run allowed (reverse s)).

Definition stream_bytes (entity : Entity) : option (ascii -> bool) :=
  if String.eqb entity EntityEmail then Some emailStreamByte
  else if String.eqb entity EntityPhone then Some phoneStreamByte
  else if String.eqb entity EntitySSN then Some ssnStreamByte
  else if String.eqb entity EntityCreditCard then Some creditCardStreamByte
  else if String.eqb entity EntityIPv4 then Some ipv4StreamByte
  else None.

Fixpoint safe_loop (s : text) (safe : Z) (entities : list Entity) : string + Z :=
  match entities with
  | [] => inr safe
  | entity :: entities =>
      match stream_bytes entity with
      | None => inl "PII entity %q has no built-in streaming grammar"%string
      | Some allowed =>
          let start := trailingAllowedStart s allowed in
          safe_loop s (if start <? safe then start else safe) entities
      end
  end.

Definition BuiltinDetector_SafePrefix (ctx : option string) (s : text) (entities : list Entity)
  : string + Z :=
  match ctx with
  | Some err => inl err
  | None => safe_loop s (text_len s) entities
  end.

#[export] Instance BuiltinDetector : Detector := {|
  Detect := BuiltinDetector_Detect;
  Supports := BuiltinDetector_Supports;
|}.

#[export] Instance BuiltinStreaming : StreamingDetector := {|
  SafePrefix := BuiltinDetector_SafePrefix;
|}.

(** ** Examples *)
Definition detected (s : string) : string + list Span := Detect None (bytes s) defaultEntities.

Example detects_each :
  detected "to bob@mail.example, 078-05-1120 or +1 (555) 010-9999; 4111 1111 1111 1111 at 10.0.0.7." =
    inr [mkSpan 3 19 EntityEmail; mkSpan 21 32 EntitySSN; mkSpan 36 53 EntityPhone;
         mkSpan 55 74 EntityCreditCard; mkSpan 78 86 EntityIPv4].
Proof. vm_compute. reflexivity. Qed.
