(* ===== verification/PiiSession.v ===== *)
(** * Substitution of personal data ([pkg/pii/privacy.go], [stream.go])

    A session replaces detected values by opaque tokens, remembers what they
    stand for and restores them; a redactor replaces them for good; the stream
    redactor does so on fragments, keeping back what a later fragment may
    complete.

    The source of token identifiers and the resolver of durable tokens act on a
    world of type [W].  Each function that takes the session's mutex is one step
    on the session. *)

From stdpp Require Import base gmap list strings.
From Stdlib Require Import Ascii ZArith Lia.
From S2P Require Import Prelude GoStrings Privacy Regex Detector.

Local Open Scope Z_scope.
Local Open Scope go_scope.

(** ** Text *)
Class UnicodeUpper := { unicode_ToUpper : string -> string }.

(** [strings.ToUpper] *)
Definition ToUpper `{UnicodeUpper} (s : string) : string :=
  if existsb non_ascii (bytes s) then unicode_ToUpper s else of_bytes (upper_byte <$> bytes s).

Fixpoint has_prefix (s prefix : text) : bool :=
  match prefix, s with
  | [], _ => true
  | p :: prefix, c :: s => Ascii.eqb p c && has_prefix s prefix
  | _ :: _, [] => false
  end.

Definition has_suffix (s suffix : text) : bool := has_prefix (reverse s) (reverse suffix).

Fixpoint contains (s sub : text) : bool :=
  has_prefix s sub || match s with [] => false | _ :: s => contains s sub end.

(** [strings.LastIndex]; [None] is [-1]. *)
Fixpoint last_index (s sub : text) : option nat :=
  match s with
  | [] => if has_prefix [] sub then Some O else None
  | _ :: s' =>
      match last_index s' sub with
      | Some i => Some (S i)
      | None => if has_prefix s sub then Some O else None
      end
  end.

(** [utf8.RuneStart] *)
Definition RuneStart (c : ascii) : bool := negb (Z.land (Z.of_nat (byte_of c)) 192 =? 128).

Definition rune_start_at (s : text) (i : Z) : bool :=
  match s !! Z.to_nat i with Some c => RuneStart c | None => false end.

(** [strings.NewReplacer(pairs...).Replace] for non-empty old strings: at each
    position the first pair that matches. *)
Fixpoint find_pair (pairs : list (text * text)) (s : text) : option (text * text) :=
  match pairs with
  | [] => None
  | (old, new) :: pairs => if has_prefix s old then Some (old, new) else find_pair pairs s
  end.

Fixpoint replace_from (pairs : list (text * text)) (skip : nat) (s : text) : text :=
  match s with
  | [] => []
  | c :: s' =>
      match skip with
      | S skip => replace_from pairs skip s'
      | O =>
          match find_pair pairs s with
          | Some (old, new) => new ++ replace_from pairs (length old - 1) s'
          | None => c :: replace_from pairs 0 s'
          end
      end
  end.

Definition Replace (pairs : list (text * text)) (s : text) : text := replace_from pairs 0 s.

(** ** Tokens *)
Definition opaqueTokenPrefix : text := bytes "[[SPARKROUTE_PII_".
Definition closing : text := bytes "]]".
Definition underscore : text := bytes "_".

Section Tokens.
Context `{UnicodeUpper}.

Definition token_prefix (entity : Entity) : text := opaqueTokenPrefix ++ bytes (ToUpper entity) ++ underscore.

Definition line_breaker (c : ascii) : bool :=
  Nat.eqb (byte_of c) 13 || Nat.eqb (byte_of c) 10 || Nat.eqb (byte_of c) 0.

Definition validateToken (entity : Entity) (token : text) : option string :=
  let prefix := token_prefix entity in
  fail_if (negb (has_prefix token prefix) || negb (has_suffix token closing) ||
           (text_len token <=? text_len prefix + 2) || existsb line_breaker token)
    "PII substitution token has an invalid shape".

Definition redaction (entity : Entity) : text :=
  opaqueTokenPrefix ++ bytes (ToUpper entity) ++ bytes "_REDACTED]]".
End Tokens.

(** The loop of [validateSpans]. *)
Fixpoint validate_spans (s : text) (previousEnd : Z) (spans : list Span) : option string :=
  match spans with
  | [] => None
  | span :: spans =>
      if (sp_Start span <? 0) || (sp_End span <=? sp_Start span) || (text_len s <? sp_End span)
      then Some "PII detector span %d is out of bounds"%string
      else if sp_Start span <? previousEnd
      then Some "PII detector spans overlap or are not ordered"%string
      else if String.eqb (sp_Entity span) "" then Some "PII detector span %d has no entity"%string
      else if negb (rune_start_at s (sp_Start span)) ||
              ((sp_End span <? text_len s) && negb (rune_start_at s (sp_End span)))
      then Some "PII detector span %d splits UTF-8"%string
      else validate_spans s (sp_End span) spans
  end.

Definition validateSpans (s : text) (spans : list Span) : option string := validate_spans s 0 spans.

(** The texts between the spans and what replaces each of them. *)
Fixpoint replaced_from (position : Z) (s : text) (spans : list Span) (new : list text) : text :=
  match spans, new with
  | span :: spans, n :: new =>
      slice position (sp_Start span) s ++ n ++ replaced_from (sp_End span) s spans new
  | _, _ => slice position (text_len s) s
  end.

(** ** Random tokens *)

(** [base32.StdEncoding.WithPadding(NoPadding)] *)
Definition base32_alphabet : text := bytes "ABCDEFGHIJKLMNOPQRSTUVWXYZ234567".

Definition byte_bits (b : Z) : list bool :=
  (fun i => Z.testbit b i) <$> [7; 6; 5; 4; 3; 2; 1; 0].

Definition base32_char (bits : list bool) : ascii :=
  let value := foldl (fun n (b : bool) => 2 * n + (if b then 1 else 0)) 0
                 (bits ++ replicate (5 - length bits) false) in
  default "A"%char (base32_alphabet !! Z.to_nat value).

Fixpoint base32_bits (fuel : nat) (bits : list bool) : text :=
  match fuel with
  | O => []
  | S fuel => match bits with [] => [] | _ => base32_char (take 5 bits) :: base32_bits fuel (drop 5 bits) end
  end.

Definition base32_EncodeToString (raw : list Z) : text :=
  let bits := raw ≫= byte_bits in base32_bits (length bits) bits.

Example base32_rfc4648 :
  base32_EncodeToString [102; 111; 111; 98; 97] = bytes "MZXW6YTB" /\
  base32_EncodeToString [102; 111] = bytes "MZXQ".
Proof. split; vm_compute; reflexivity. Qed.

(** [rand.Read] of sixteen bytes gives [raw] or an error. *)
Definition randomToken {W} (rand_Read : W -> (string + list Z) * W) : W -> (string + string) * W :=
  fun w =>
    match rand_Read w with
    | (inl err, w) => (inl err, w)
    | (inr raw, w) => (inr (of_bytes (base32_EncodeToString raw)), w)
    end.

(** ** Sessions *)
Record Mapping := mkMapping {
  map_Entity : Entity;
  map_Original : text;
  map_Token : text;
}.

(** [s_replacer] is the cached replacer: its pairs. *)
Record Session := mkSession {
  s_entities : list Entity;
  s_maximumMappings : Z;
  s_maximumOriginalBytes : Z;
  s_byOriginal : gmap text text;
  s_byToken : gmap text text;
  s_counts : gmap Entity Z;
  s_originalBytes : Z;
  s_replacer : option (list (text * text));
}.

Definition original_key (entity : Entity) (original : text) : text :=
  bytes entity ++ "000"%char :: original.

(** The assignments that add a mapping. *)
Definition insert_mapping (entity : Entity) (original token : text) (s : Session) : Session :=
  mkSession (s_entities s) (s_maximumMappings s) (s_maximumOriginalBytes s)
    (<[original_key entity original := token]> (s_byOriginal s))
    (<[token := original]> (s_byToken s))
    (<[entity := default 0 (s_counts s !! entity) + 1]> (s_counts s))
    (s_originalBytes s + text_len original) None.

(** [len(s.byToken) >= s.maximumMappings ||
    len(original) > s.maximumOriginalBytes-s.originalBytes] *)
Definition over_limit (s : Session) (original : text) : bool :=
  (s_maximumMappings s <=? Z.of_nat (size (s_byToken s))) ||
  (s_maximumOriginalBytes s - s_originalBytes s <? text_len original).

Definition ErrMappingLimit : string := "PII substitution mapping limit exceeded".

Definition pair_before (x y : text * text) : bool := String.ltb (of_bytes x.1) (of_bytes y.1).

(** The pairs of the replacer, by token. *)
Definition replacer_pairs (s : Session) : list (text * text) :=
  stable_sort pair_before (map_to_list (s_byToken s)).

(** [Session.Restore] *)
Definition Restore (s : Session) (t : text) : text * Session :=
  if Nat.eqb (size (s_byToken s)) 0 then (t, s)
  else
    let pairs := match s_replacer s with Some pairs => pairs | None => replacer_pairs s end in
    (Replace pairs t,
     mkSession (s_entities s) (s_maximumMappings s) (s_maximumOriginalBytes s) (s_byOriginal s)
       (s_byToken s) (s_counts s) (s_originalBytes s) (Some pairs)).

Definition MappingCount (s : Session) : Z := Z.of_nat (size (s_byToken s)).
Definition Counts (s : Session) : gmap Entity Z := s_counts s.

Section Session.
Context `{UnicodeTables} `{UnicodeUpper} `{Detector} {W : Type}.
Context (tokenSource : W -> (string + string) * W).
Context (mappingResolver : option (Entity -> text -> W -> (string + text) * W)).

(** A new token of [tokenFor]. *)
Definition make_token (entity : Entity) (original : text) : M W string text :=
  match mappingResolver with
  | Some resolve => fun w => resolve entity original w
  | None => fun w =>
      match tokenSource w with
      | (inl err, w) => (inl err, w)
      | (inr identifier, w) =>
          let identifier := TrimSpace identifier in
          if String.eqb identifier "" then (inl "PII substitution token is empty"%string, w)
          else (inr (token_prefix entity ++ bytes identifier ++ closing), w)
      end
  end.

(** [Session.tokenFor] *)
Definition tokenFor (entity : Entity) (original : text) : M (Session * W) string text :=
  fun '(s, w) =>
    match s_byOriginal s !! original_key entity original with
    | Some token => (inr token, (s, w))
    | None =>
        if over_limit s original then (inl ErrMappingLimit, (s, w))
        else
          match make_token entity original w with
          | (inl err, w) => (inl err, (s, w))
          | (inr token, w) =>
              match validateToken entity token with
              | Some err => (inl err, (s, w))
              | None =>
                  match s_byToken s !! token with
                  | Some _ => (inl "PII substitution token collision"%string, (s, w))
                  | None => (inr token, (insert_mapping entity original token s, w))
                  end
              end
          end
    end.

(** [Session.addMapping] *)
Definition addMapping (s : Session) (m : Mapping) : string + Session :=
  let entity := map_Entity m in
  let original := map_Original m in
  let token := map_Token m in
  fail_if (String.eqb (TrimSpace entity) "") "PII mapping entity is empty" ?;
  fail_if (bool_decide (original = [])) "PII mapping original value is empty" ?;
  validateToken entity token ?;
  match s_byOriginal s !! original_key entity original with
  | Some existing =>
      if bool_decide (existing = token) then inr s
      else inl "PII original value has conflicting tokens"%string
  | None =>
      fail_if (match s_byToken s !! token with
               | Some existing => negb (bool_decide (existing = original))
               | None => false
               end) "PII substitution token collision" ?;
      fail_if (over_limit s original) ErrMappingLimit ?;
      inr (insert_mapping entity original token s)
  end.

(** The checks of one entity in [NewSession]. *)
Definition session_entity_step (seen : list Entity) (entity : Entity) : string + list Entity :=
  fail_if (String.eqb (TrimSpace entity) "") "PII entity must not be empty" ?;
  fail_if (bool_decide (entity ∈ seen)) "duplicate PII entity %q" ?;
  fail_if (negb (Supports entity)) "PII detector does not support entity %q" ?;
  inr (entity :: seen).

Definition defaultMaximumMappings : Z := 4096.
Definition defaultMaximumOriginalBytes : Z := 4194304.

(** [NewSession] with a detector. *)
Definition NewSession (entities : list Entity) (maximumMappings maximumOriginalBytes : Z)
    (initial : list Mapping) : string + Session :=
  let entities := match entities with [] => defaultEntities | _ => entities end in
  match scan session_entity_step [] entities with
  | inl err => inl err
  | inr _ =>
      let mappings := if maximumMappings =? 0 then defaultMaximumMappings else maximumMappings in
      let bytes :=
        if maximumOriginalBytes =? 0 then defaultMaximumOriginalBytes else maximumOriginalBytes in
      fail_if ((mappings <? 1) || (bytes <? 1)) "PII mapping limits must be positive" ?;
      scan addMapping (mkSession entities mappings bytes ∅ ∅ ∅ 0 None) initial
  end.

(** The loop of [Substitute], from [position]. *)
Fixpoint substitute_from (position : Z) (t : text) (spans : list Span) : M (Session * W) string text :=
  match spans with
  | [] => mret (slice position (text_len t) t)
  | span :: spans =>
      token ← tokenFor (sp_Entity span) (slice (sp_Start span) (sp_End span) t);
      rest ← substitute_from (sp_End span) t spans;
      mret (slice position (sp_Start span) t ++ token ++ rest)
  end.

(** [Session.Substitute] *)
Definition Substitute (ctx : option string) (t : text) : M (Session * W) string text :=
  fun '(s, w) =>
    match Detect ctx t (s_entities s) with
    | inl err => (inl err, (s, w))
    | inr spans =>
        match validateSpans t spans with
        | Some err => (inl err, (s, w))
        | None => match spans with [] => (inr t, (s, w)) | _ => substitute_from 0 t spans (s, w) end
        end
    end.

(** [Session.Redact] *)
Definition Redact (entities : list Entity) (ctx : option string) (t : text) : string + text :=
  match Detect ctx t entities with
  | inl err => inl err
  | inr spans =>
      validateSpans t spans ?;
      match spans with
      | [] => inr t
      | _ => inr (replaced_from 0 t spans ((redaction ∘ sp_Entity) <$> spans))
      end
  end.
End Session.

(** ** Streams *)

(** The loop of [safeOpaqueTokenPrefix] over the lengths from [length] on. *)
Fixpoint partial_token (t : text) (n length_ : nat) (safe : Z) : Z :=
  match n with
  | O => safe
  | S n =>
      partial_token t n (S length_)
        (if has_suffix t (take length_ opaqueTokenPrefix) then text_len t - Z.of_nat length_ else safe)
  end.

Definition safeOpaqueTokenPrefix (t : text) : Z :=
  let maximumPartial := Nat.min (length opaqueTokenPrefix - 1) (length t) in
  let safe := partial_token t maximumPartial 1 (text_len t) in
  match last_index t opaqueTokenPrefix with
  | Some start =>
      if negb (contains (drop (start + length opaqueTokenPrefix) t) closing) && (Z.of_nat start <? safe)
      then Z.of_nat start else safe
  | None => safe
  end.

Definition defaultMaximumStreamPendingBytes : Z := 65536.

Record StreamRedactor := mkStreamRedactor {
  r_entities : list Entity;
  r_maximumPendingBytes : Z;
  r_pending : text;
}.

Section Streams.
Context `{UnicodeUpper} `{StreamingDetector}.

(** [Session.NewStreamRedactor] of a session whose detector streams. *)
Definition NewStreamRedactor (s : Session) (maximumPendingBytes : Z) : string + StreamRedactor :=
  let maximum :=
    if maximumPendingBytes =? 0 then defaultMaximumStreamPendingBytes else maximumPendingBytes in
  fail_if (maximum <? 1) "PII stream pending-byte limit must be positive" ?;
  inr (mkStreamRedactor (s_entities s) maximum []).

(** How many bytes of the text [Transform] may release. *)
Definition releasable (ctx : option string) (entities : list Entity) (combined : text) (final : bool)
  : string + Z :=
  if final then inr (text_len combined)
  else
    match SafePrefix ctx combined entities with
    | inl err => inl err
    | inr safe =>
        let tokenSafe := safeOpaqueTokenPrefix combined in
        inr (if tokenSafe <? safe then tokenSafe else safe)
    end.

(** [StreamRedactor.Transform] *)
Definition Transform (ctx : option string) (r : StreamRedactor) (fragment : text) (final : bool)
  : (string + text) * StreamRedactor :=
  let combined := r_pending r ++ fragment in
  match releasable ctx (r_entities r) combined final with
  | inl err => (inl err, r)
  | inr safe =>
      if (safe <? 0) || (text_len combined <? safe) ||
         ((safe <? text_len combined) && negb (rune_start_at combined safe))
      then (inl "PII streaming detector returned an invalid UTF-8 prefix"%string, r)
      else if r_maximumPendingBytes r <? text_len combined - safe
      then (inl "PII stream pending suffix exceeds %d bytes"%string, r)
      else
        match Redact (r_entities r) ctx (slice 0 safe combined) with
        | inl err => (inl err, r)
        | inr masked =>
            (inr masked,
             mkStreamRedactor (r_entities r) (r_maximumPendingBytes r)
               (slice safe (text_len combined) combined))
        end
  end.

(** [StreamRedactor.Abort] *)
Definition Abort (r : StreamRedactor) (fragment : text) : text * StreamRedactor :=
  (r_pending r ++ fragment, mkStreamRedactor (r_entities r) (r_maximumPendingBytes r) []).
End Streams.
