(* ===== verification/PiiTheorems.v ===== *)
(** * Sessions of PII substitution: what they promise

    The mapping of a session under any interleaving of its steps, and the round
    trip of substitution and restoration. *)

From stdpp Require Import base gmap list strings sorting.
From Stdlib Require Import Ascii ZArith Lia.
From S2P Require Import Prelude GoStrings Privacy Regex Detector PiiSession.

Local Open Scope Z_scope.
Local Open Scope go_scope.

#[local] Arguments Ascii.eqb : simpl never.
#[local] Arguments opaqueTokenPrefix : simpl never.
#[local] Arguments closing : simpl never.

(** ** Texts *)

Lemma has_prefix_spec p : forall s, has_prefix s p = true <-> exists r, s = p ++ r.
Proof.
  induction p as [|b p IH]; intros s; cbn [has_prefix].
  - split; [by exists s|by destruct s].
  - destruct s as [|c s]; [split; [done|by intros [r ?]]|].
    cbn [has_prefix]. rewrite andb_true_iff, Ascii.eqb_eq, IH. split.
    + intros [-> [r ->]]. by exists r.
    + intros [r [= -> ->]]. eauto.
Qed.

Lemma has_prefix_app s p r : has_prefix s p = true -> has_prefix (s ++ r) p = true.
Proof. rewrite !has_prefix_spec. intros [q ->]. exists (q ++ r). by rewrite <- app_assoc. Qed.

Lemma has_suffix_spec s p : has_suffix s p = true <-> exists r, s = r ++ p.
Proof.
  unfold has_suffix. rewrite has_prefix_spec. split.
  - intros [r E]. exists (reverse r). apply (f_equal reverse) in E.
    by rewrite reverse_involutive, reverse_app, reverse_involutive in E.
  - intros [r ->]. exists (reverse r). by rewrite reverse_app.
Qed.

Lemma contains_spec sub s : contains s sub = true <-> exists l r, s = l ++ sub ++ r.
Proof.
  induction s as [|c s IH]; cbn [contains].
  - rewrite orb_false_r, has_prefix_spec. split.
    + intros [r E]. by exists [], r.
    + intros (l & r & E). destruct l; [|done]. by exists r.
  - rewrite orb_true_iff, has_prefix_spec, IH. split.
    + intros [[r E]|(l & r & ->)]; [by exists [], r|by exists (c :: l), r].
    + intros ([|b l] & r & E); [left; by exists r|]. right. injection E as -> ->. by exists l, r.
Qed.

Lemma contains_part l s r sub : contains (l ++ s ++ r) sub = false -> contains s sub = false.
Proof.
  intros Hn. apply not_true_iff_false. intros (a & b & ->)%contains_spec.
  apply not_true_iff_false in Hn. apply Hn, contains_spec. exists (l ++ a), (b ++ r).
  by rewrite <- !app_assoc.
Qed.

Lemma slice_split s a b : 0 <= a -> a <= b -> s = take (Z.to_nat a) s ++ slice a b s ++ drop (Z.to_nat b) s.
Proof.
  intros Ha Hab. unfold slice. rewrite <- (take_drop (Z.to_nat a) s) at 1. f_equal.
  rewrite <- (take_drop (Z.to_nat (b - a)) (drop (Z.to_nat a) s)) at 1. f_equal.
  rewrite drop_drop. f_equal. lia.
Qed.

Lemma slice_app s a b c : 0 <= a -> a <= b -> b <= c -> slice a b s ++ slice b c s = slice a c s.
Proof.
  intros Ha Hab Hbc. unfold slice.
  replace (drop (Z.to_nat b) s) with (drop (Z.to_nat (b - a)) (drop (Z.to_nat a) s))
    by (rewrite drop_drop; f_equal; lia).
  rewrite take_take_drop. f_equal. lia.
Qed.

Lemma slice_all s : slice 0 (text_len s) s = s.
Proof. unfold slice, text_len. rewrite drop_0, take_ge; [done|lia]. Qed.

Lemma slice_contains s a b sub :
  0 <= a -> a <= b -> contains s sub = false -> contains (slice a b s) sub = false.
Proof. intros Ha Hab Hs. rewrite (slice_split s a b Ha Hab) in Hs. by eapply contains_part. Qed.

(** The spans that [validate_spans] accepts. *)
Fixpoint spans_ok (n previousEnd : Z) (spans : list Span) : Prop :=
  match spans with
  | [] => previousEnd <= n
  | span :: spans =>
      previousEnd <= sp_Start span /\ sp_Start span < sp_End span /\ sp_Entity span <> ""%string /\
      spans_ok n (sp_End span) spans
  end.

Lemma validate_spans_ok t spans : forall previousEnd,
  0 <= previousEnd <= text_len t -> validate_spans t previousEnd spans = None ->
  spans_ok (text_len t) previousEnd spans.
Proof.
  induction spans as [|span spans IH]; intros p Hp; cbn [validate_spans spans_ok]; [lia|].
  destruct (Z.ltb_spec (sp_Start span) 0), (Z.leb_spec (sp_End span) (sp_Start span)),
    (Z.ltb_spec (text_len t) (sp_End span)); cbn [orb]; try done.
  destruct (Z.ltb_spec (sp_Start span) p); [done|].
  destruct (String.eqb_spec (sp_Entity span) ""); [done|]. destruct (_ || _); [done|].
  intros Hv. split_and!; [lia|lia|done|]. apply IH; [lia|done].
Qed.

(** ** Tokens that end where they seem to

    A clean token has no [[]]] before its end; a text starts with at most one
    clean token. *)
Definition bracket : ascii := "]"%char.

Definition clean (token : text) : Prop := exists body, token = body ++ [bracket] /\ contains body closing = false.

Lemma clean_unique t1 t2 s : clean t1 -> clean t2 -> has_suffix t1 closing = true ->
  has_suffix t2 closing = true -> has_prefix s t1 = true -> has_prefix s t2 = true -> t1 = t2.
Proof.
  assert (Hone : forall a b r1 r2, clean a -> clean b -> has_suffix a closing = true ->
    a ++ r1 = b ++ r2 -> (length a < length b)%nat -> False).
  { intros a b r1 r2 _ (body & -> & Hn) (x & ->)%has_suffix_spec E Hl.
    rewrite length_app in Hl. cbn [length] in Hl.
    apply not_true_iff_false in Hn. apply Hn, contains_spec.
    rewrite <- (app_assoc body) in E. apply app_eq_inv in E as [(k & E1 & E2)|(k & E1 & E2)].
    - assert (k = []) as ->.
      { pose proof (f_equal length E1) as El. 
        destruct k; [done|]. rewrite ?length_app in El. rewrite ?length_app in Hl. cbn [length] in *. lia. }
      exists x, []. by rewrite !app_nil_r in *.
    - exists x, k. by rewrite E1, <- app_assoc. }
  intros C1 C2 S1 S2 (r1 & E1)%has_prefix_spec (r2 & E2)%has_prefix_spec.
  assert (E : t1 ++ r1 = t2 ++ r2) by congruence.
  destruct (Nat.lt_trichotomy (length t1) (length t2)) as [Hl|[Hl|Hl]].
  - destruct (Hone _ _ _ _ C1 C2 S1 E Hl).
  - by apply app_inj_1 in E as [? _].
  - destruct (Hone _ _ _ _ C2 C1 S2 (eq_sym E) Hl).
Qed.

(** The prefix of a token cannot start inside another one: no proper suffix of
    it is one of its prefixes. *)
Lemma token_prefix_borderless u p :
  opaqueTokenPrefix = u ++ p -> u <> [] -> p <> [] -> has_prefix opaqueTokenPrefix p = false.
Proof.
  intros E Hu Hp.
  assert (H : forallb (fun k => negb (has_prefix opaqueTokenPrefix (drop k opaqueTokenPrefix)))
                (seq 1 16) = true) by (vm_compute; reflexivity).
  rewrite forallb_forall in H. specialize (H (length u)).
  rewrite E in H at 2. rewrite drop_app_length in H. apply negb_true_iff, H, in_seq.
  assert (length opaqueTokenPrefix = 17%nat) as Hl by reflexivity. rewrite E, length_app in Hl.
  destruct u; [done|]. destruct p; [done|]. cbn [length] in *. lia.
Qed.

(** ** Replacement *)
Section Replace.
Context (pairs : list (text * text)).
Context (Hprefix : forall old new, (old, new) ∈ pairs -> has_prefix old opaqueTokenPrefix = true).
Context (Hunique : forall old new old' new' s, (old, new) ∈ pairs -> (old', new') ∈ pairs ->
           has_prefix s old = true -> has_prefix s old' = true -> (old, new) = (old', new')).

Lemma find_pair_spec ps s :
  match find_pair ps s with
  | Some (old, new) => (old, new) ∈ ps /\ has_prefix s old = true
  | None => forall old new, (old, new) ∈ ps -> has_prefix s old = false
  end.
Proof.
  induction ps as [|[old new] ps IH]; cbn [find_pair]; [by intros ? ? ?%elem_of_nil|].
  destruct (has_prefix s old) eqn:E; [split; [left|done]|].
  destruct (find_pair ps s) as [[o n]|].
  - destruct IH. split; [by right|done].
  - intros o n [[= -> ->]|H]%elem_of_cons; [done|by eapply IH].
Qed.

Lemma replace_skip u rest : replace_from pairs (length u) (u ++ rest) = replace_from pairs 0 rest.
Proof. induction u as [|c u IH]; [done|exact IH]. Qed.

(** A token is replaced by what it stands for. *)
Lemma replace_token token original rest :
  (token, original) ∈ pairs ->
  replace_from pairs 0 (token ++ rest) = original ++ replace_from pairs 0 rest.
Proof.
  intros Hin. assert (Hp := Hprefix _ _ Hin). apply has_prefix_spec in Hp as [r Hr].
  destruct token as [|c token]; [done|]. cbn [app replace_from].
  pose proof (find_pair_spec pairs (c :: token ++ rest)) as Hf.
  assert (has_prefix (c :: token ++ rest) (c :: token) = true) as Hself.
  { apply has_prefix_spec. by exists rest. }
  destruct (find_pair pairs _) as [[old new]|].
  - destruct Hf as [Hf Hs]. pose proof (Hunique _ _ _ _ _ Hf Hin Hs Hself) as [= -> ->].
    f_equal. cbn [length]. rewrite Nat.sub_1_r. cbn [Nat.pred]. apply replace_skip.
  - rewrite (Hf _ _ Hin) in Hself. done.
Qed.

(** A text without the prefix of tokens is left alone, when a token or nothing
    follows it. *)
Lemma replace_gap gap rest :
  contains gap opaqueTokenPrefix = false -> (rest = [] \/ has_prefix rest opaqueTokenPrefix = true) ->
  replace_from pairs 0 (gap ++ rest) = gap ++ replace_from pairs 0 rest.
Proof.
  intros Hgap Hrest. induction gap as [|c gap IH]; [done|].
  assert (find_pair pairs ((c :: gap) ++ rest) = None) as Hnone.
  { pose proof (find_pair_spec pairs ((c :: gap) ++ rest)) as Hf.
    destruct (find_pair pairs _) as [[old new]|]; [|done]. exfalso. destruct Hf as [Hin Hm].
    apply Hprefix, has_prefix_spec in Hin as [r0 ->]. apply has_prefix_spec in Hm as [r1 E].
    rewrite <- app_assoc in E. remember (c :: gap) as g eqn:Eg.
    apply app_eq_inv in E as [(p & E1 & E2)|(p & E1 & E2)].
    - apply not_true_iff_false in Hgap. apply Hgap, contains_spec. exists [], p. exact E1.
    - destruct p as [|b p].
      { apply not_true_iff_false in Hgap. apply Hgap, contains_spec. exists [], [].
        rewrite app_nil_r in *. done. }
      destruct Hrest as [->|[r2 Hr]%has_prefix_spec]; [done|].
      assert (has_prefix opaqueTokenPrefix (b :: p) = true) as Hb.
      { apply has_prefix_spec. rewrite E2 in Hr.
        assert (length (b :: p) <= length opaqueTokenPrefix)%nat by (rewrite E1, length_app; lia).
        apply app_eq_inv in Hr as [(k & Ek & _)|(k & Ek & _)]; [|by exists k].
        pose proof (f_equal length Ek) as El. rewrite ?length_app in El.
        assert (k = []) as -> by (destruct k; [done|cbn [length] in *; lia]). exists [].
        by rewrite app_nil_r in *. }
      rewrite (token_prefix_borderless g (b :: p)) in Hb; [done|done|by subst|done]. }
  cbn [app replace_from] in *. rewrite Hnone. f_equal. apply IH.
  apply (contains_part [c] gap []). by rewrite app_nil_r.
Qed.

(** The round trip, span by span. *)
Lemma replace_replaced t n spans : forall position tokens,
  n = text_len t -> contains t opaqueTokenPrefix = false -> 0 <= position ->
  spans_ok n position spans ->
  Forall2 (fun span token => (token, slice (sp_Start span) (sp_End span) t) ∈ pairs) spans tokens ->
  replace_from pairs 0 (replaced_from position t spans tokens) = slice position n t.
Proof.
  induction spans as [|span spans IH]; intros position tokens -> Ht Hpos Hok Hall.
  - cbn in Hok. replace (replaced_from position t [] tokens) with (slice position (text_len t) t)
      by by destruct tokens.
    rewrite <- (app_nil_r (slice position (text_len t) t)) at 1.
    rewrite replace_gap; [by rewrite app_nil_r|by apply slice_contains|by left].
  - apply Forall2_cons_inv_l in Hall as (token & tokens' & Hin & Hall & ->).
    destruct Hok as (H1 & H2 & _ & Hok). cbn [replaced_from].
    assert (sp_End span <= text_len t) as Hend.
    { clear -Hok H1 H2. revert Hok. generalize (sp_End span). induction spans as [|x spans IH]; cbn; intros e; [done|].
      intros (? & ? & _ & H). specialize (IH _ H). lia. }
    rewrite replace_gap.
    + rewrite (replace_token _ _ _ Hin). rewrite (IH (sp_End span) tokens') by (done || lia).
      rewrite slice_app, slice_app by lia. done.
    + apply slice_contains; [lia..|done].
    + right. apply has_prefix_app. by eapply Hprefix.
Qed.
End Replace.

(** ** Sessions *)

(** Entities whose name has no NUL: the key of a value is then unambiguous. *)
Definition plain_entity (entity : Entity) : Prop := "000"%char ∉ bytes entity.

Lemma original_key_inj e1 o1 e2 o2 :
  plain_entity e1 -> plain_entity e2 -> original_key e1 o1 = original_key e2 o2 -> e1 = e2 /\ o1 = o2.
Proof.
  intros P1 P2 E. unfold original_key in E.
  assert (bytes e1 = bytes e2 /\ o1 = o2) as [Eb ->].
  { unfold plain_entity in *. revert P1 P2 E. generalize (bytes e1) (bytes e2). intros b1.
    induction b1 as [|c b1 IH]; intros [|d b2] H1 H2 E; cbn in E.
    - by injection E.
    - injection E as <- _. destruct H2. left.
    - injection E as -> _. destruct H1. left.
    - injection E as -> E. apply not_elem_of_cons in H1 as [_ H1], H2 as [_ H2].
      by destruct (IH b2 H1 H2 E) as [-> ->]. }
  split; [|done]. by rewrite <- (of_bytes_bytes e1), Eb, of_bytes_bytes.
Qed.

Section Sessions.
Context `{UnicodeTables} `{UnicodeUpper} `{Detector} {W : Type}.
Context (tokenSource : W -> (string + string) * W).
Context (mappingResolver : option (Entity -> text -> W -> (string + text) * W)).

Abbreviation token_for := (tokenFor tokenSource mappingResolver).
Abbreviation substitute := (Substitute tokenSource mappingResolver).

(** The mapping of a session: both maps agree, within the limits, and the cached
    replacer is up to date. *)
Record session_inv (s : Session) : Prop := {
  si_back k t : s_byOriginal s !! k = Some t ->
    exists e o, plain_entity e /\ k = original_key e o /\ s_byToken s !! t = Some o /\
                validateToken e t = None;
  si_forth t o : s_byToken s !! t = Some o ->
    exists e, plain_entity e /\ s_byOriginal s !! original_key e o = Some t /\ validateToken e t = None;
  si_mappings : Z.of_nat (size (s_byToken s)) <= s_maximumMappings s;
  si_bytes : sum_map text_len (s_byToken s) <= s_originalBytes s <= s_maximumOriginalBytes s;
  si_cache : s_replacer s = None \/ s_replacer s = Some (replacer_pairs s);
}.

Definition grows (s s' : Session) : Prop :=
  s_byOriginal s ⊆ s_byOriginal s' /\ s_byToken s ⊆ s_byToken s'.

#[local] Instance grows_preorder : PreOrder grows.
Proof. split; [done|]. intros s1 s2 s3 [? ?] [? ?]. by split; etrans. Qed.

Lemma text_len_nonneg t : 0 <= text_len t.
Proof. unfold text_len. lia. Qed.

(** Adding a mapping that conflicts with none. *)
Lemma insert_mapping_inv e o token s :
  session_inv s -> plain_entity e -> validateToken e token = None ->
  s_byOriginal s !! original_key e o = None ->
  (s_byToken s !! token = None \/ s_byToken s !! token = Some o) -> over_limit s o = false ->
  session_inv (insert_mapping e o token s) /\ grows s (insert_mapping e o token s).
Proof.
  intros [Hb Hf Hm Hy Hc] He Hv Hk Ht Hl.
  apply orb_false_iff in Hl as [L1%Z.leb_gt L2%Z.ltb_ge].
  assert (Hs : s_byToken s ⊆ <[token := o]> (s_byToken s)).
  { destruct Ht as [Ht|Ht]; [by apply insert_subseteq|]. by rewrite insert_id. }
  assert (Ho : s_byOriginal s ⊆ <[original_key e o := token]> (s_byOriginal s)) by by apply insert_subseteq.
  split; [|by split]. split; cbn.
  - intros k t. rewrite lookup_insert. case_decide as Ek.
    + intros [= <-]. exists e, o. rewrite lookup_insert_eq. by subst.
    + intros (e' & o' & ? & ? & ? & ?)%Hb. exists e', o'. split_and!; try done. by eapply lookup_weaken.
  - intros t o'. rewrite lookup_insert. case_decide as Et.
    + intros [= <-]. exists e. rewrite lookup_insert_eq. by subst.
    + intros (e' & ? & ? & ?)%Hf. exists e'. split_and!; try done. by eapply lookup_weaken.
  - destruct Ht as [Ht|Ht]; [rewrite map_size_insert_None by done; lia|]. rewrite insert_id by done. lia.
  - pose proof (text_len_nonneg o). destruct Ht as [Ht|Ht].
    + rewrite sum_map_insert by done. lia.
    + rewrite insert_id by done. lia.
  - by left.
Qed.

(** What [tokenFor] does to a session and answers. *)
Lemma tokenFor_spec e o s w :
  session_inv s -> plain_entity e ->
  let '(r, (s', _)) := token_for e o (s, w) in
  session_inv s' /\ grows s s' /\
  match r with
  | inr token => s_byOriginal s' !! original_key e o = Some token /\ s_byToken s' !! token = Some o
  | inl _ => s' = s
  end.
Proof.
  intros Hi He. unfold PiiSession.tokenFor. destruct (s_byOriginal s !! original_key e o) as [token|] eqn:Ek.
  { split; [done|]. split; [done|]. split; [done|].
    destruct (si_back s Hi _ _ Ek) as (e' & o' & He' & E & Ht & _).
    by destruct (original_key_inj _ _ _ _ He He' E) as [_ ->]. }
  destruct (over_limit s o) eqn:Hl; [done|].
  destruct (make_token tokenSource mappingResolver e o w) as [[err|token] w']; [done|].
  destruct (validateToken e token) eqn:Hv; [done|].
  destruct (s_byToken s !! token) eqn:Ht; [done|].
  destruct (insert_mapping_inv e o token s) as [Hi' Hg]; try done; [by left|].
  split; [done|]. split; [done|]. cbn. by rewrite !lookup_insert_eq.
Qed.

Lemma addMapping_inv s m s' :
  session_inv s -> plain_entity (map_Entity m) -> addMapping s m = inr s' -> session_inv s'.
Proof.
  intros Hi He. unfold addMapping. rewrite !check_then_inr.
  intros (_ & _ & Hv & E). destruct (s_byOriginal s !! _) eqn:Ek.
  { case_bool_decide; [by injection E as <-|done]. }
  rewrite !check_then_inr, !fail_if_None in E. destruct E as (Hc & Hl & [= <-]).
  eapply insert_mapping_inv; try done.
  destruct (s_byToken s !! map_Token m) as [x|]; [|by left]. right.
  apply negb_false_iff, bool_decide_eq_true in Hc. by subst.
Qed.

Lemma NewSession_inv entities mm mb initial s :
  Forall (fun m => plain_entity (map_Entity m)) initial ->
  NewSession entities mm mb initial = inr s -> session_inv s.
Proof.
  intros Hp. unfold NewSession. destruct (scan session_entity_step [] _) as [|seen]; [done|].
  rewrite check_then_inr, fail_if_None. intros [[Lm Lb]%orb_false_iff Hs].
  apply Z.ltb_ge in Lm, Lb. revert Hs.
  match goal with |- scan addMapping ?s0 _ = _ -> _ => assert (session_inv s0) as Hs0 end.
  { split; cbn; try (intros ? ? ; rewrite lookup_empty; done); rewrite ?map_size_empty, ?sum_map_empty; try lia.
    by left. }
  revert Hs0. generalize (mkSession (match entities with [] => defaultEntities | _ => entities end)
    (if mm =? 0 then defaultMaximumMappings else mm)
    (if mb =? 0 then defaultMaximumOriginalBytes else mb) ∅ ∅ ∅ 0 None).
  induction Hp as [|m initial Hm Hp IH]; intros s0 Hs0; cbn [scan]; [by intros [= <-]|].
  destruct (addMapping s0 m) as [|s1] eqn:E; [done|]. apply IH. by eapply addMapping_inv.
Qed.

Lemma Restore_inv s t : session_inv s -> session_inv (Restore s t).2 /\ grows s (Restore s t).2.
Proof.
  intros [Hb Hf Hm Hy Hc]. unfold Restore. destruct (Nat.eqb _ _); [done|]. cbn.
  split; [|done]. split; cbn; try done.
  right. unfold replacer_pairs. destruct Hc as [-> | ->]; done.
Qed.

(** The entities in use, and what is asked of their tokens. *)
Context (good : Entity -> Prop).

Class TokenLaws : Prop := {
  good_plain e : good e -> plain_entity e;
  good_clean e o w token w' :
    good e -> make_token tokenSource mappingResolver e o w = (inr token, w') -> clean token;
}.
Context `{TokenLaws}.

(** Every token of the session is clean. *)
Definition clean_session (s : Session) : Prop := forall t o, s_byToken s !! t = Some o -> clean t.

Lemma tokenFor_clean e o s w :
  good e -> clean_session s -> clean_session (token_for e o (s, w)).2.1.
Proof.
  intros He Hc. unfold PiiSession.tokenFor. destruct (s_byOriginal s !! _); [done|].
  destruct (over_limit s o); [done|].
  destruct (make_token tokenSource mappingResolver e o w) as [[err|token] w'] eqn:Em; [done|].
  destruct (validateToken e token); [done|]. destruct (s_byToken s !! token); [done|].
  intros t x. cbn. rewrite lookup_insert. case_decide as Et; [|by apply Hc].
  intros _. subst. by eapply good_clean.
Qed.

(** The steps of the threads that share a session. *)
Inductive session_step : Session * W -> Session * W -> Prop :=
  | step_token e o c : good e -> session_step c (token_for e o c).2
  | step_restore t s w : session_step (s, w) ((Restore s t).2, w)
  | step_world s w w' : session_step (s, w) (s, w').

Definition session_reach : Session * W -> Session * W -> Prop := rtc session_step.

Lemma session_reach_inv c c' :
  session_reach c c' -> session_inv c.1 -> session_inv c'.1 /\ grows c.1 c'.1.
Proof.
  induction 1 as [c|c1 c2 c3 Hs Hr IH]; intros Hi; [done|].
  assert (session_inv c2.1 /\ grows c1.1 c2.1) as [Hi2 Hg].
  { destruct Hs as [e o [s w] He|t s w|s w w']; [|by apply Restore_inv|done].
    pose proof (tokenFor_spec e o s w Hi (good_plain e He)) as Ht. destruct (token_for e o (s, w)) as [r [s' w'']].
    by destruct Ht as (? & ? & _). }
  destruct (IH Hi2) as [Hi3 Hg3]. split; [done|]. by etrans.
Qed.

Lemma session_reach_clean c c' : session_reach c c' -> clean_session c.1 -> clean_session c'.1.
Proof.
  induction 1 as [c|c1 c2 c3 Hs Hr IH]; intros Hc; [done|]. apply IH. clear IH.
  destruct Hs as [e o [s w] He|t s w|s w w']; [by apply tokenFor_clean| |done].
  unfold Restore. by destruct (Nat.eqb _ _).
Qed.

(** *** Substitution *)
Lemma substitute_from_spec t spans : forall position s w,
  session_inv s -> Forall (fun span => good (sp_Entity span)) spans ->
  let '(r, (s', w')) := substitute_from tokenSource mappingResolver position t spans (s, w) in
  session_reach (s, w) (s', w') /\
  match r with
  | inr out => exists tokens, out = replaced_from position t spans tokens /\
      Forall2 (fun span token => s_byToken s' !! token = Some (slice (sp_Start span) (sp_End span) t))
        spans tokens
  | inl _ => True
  end.
Proof.
  induction spans as [|span spans IH]; intros position s w Hi Hp; cbn [substitute_from].
  { split; [apply rtc_refl|]. exists []. by split. }
  apply Forall_cons in Hp as [Hp Hps]. unfold mbind, M_bind.
  pose proof (tokenFor_spec (sp_Entity span) (slice (sp_Start span) (sp_End span) t) s w Hi
    (good_plain _ Hp)) as Ht.
  pose proof (step_token (sp_Entity span) (slice (sp_Start span) (sp_End span) t) (s, w) Hp) as Hstep.
  destruct (token_for _ _ (s, w)) as [[err|token] [s1 w1]]; cbn [snd] in Hstep.
  { split; [|done]. by apply rtc_once. }
  destruct Ht as (Hi1 & _ & _ & Htok). specialize (IH (sp_End span) s1 w1 Hi1 Hps).
  destruct (substitute_from _ _ (sp_End span) t spans (s1, w1)) as [[err|rest] [s2 w2]].
  { destruct IH as [Hr _]. split; [|done]. by eapply rtc_l. }
  destruct IH as [Hr (tokens & -> & Hall)]. split; [by eapply rtc_l|].
  exists (token :: tokens). split; [done|]. constructor; [|done].
  destruct (session_reach_inv _ _ Hr Hi1) as [_ [_ Hg]]. by eapply lookup_weaken.
Qed.

Definition good_spans (ctx : option string) (t : text) (entities : list Entity) : Prop :=
  match Detect ctx t entities with
  | inr spans => Forall (fun span => good (sp_Entity span)) spans
  | inl _ => True
  end.

Lemma Substitute_spec ctx t s w :
  session_inv s -> good_spans ctx t (s_entities s) ->
  let '(r, (s', w')) := substitute ctx t (s, w) in
  session_reach (s, w) (s', w') /\
  match r with
  | inr out => exists spans tokens,
      Detect ctx t (s_entities s) = inr spans /\ spans_ok (text_len t) 0 spans /\
      out = replaced_from 0 t spans tokens /\
      Forall2 (fun span token => s_byToken s' !! token = Some (slice (sp_Start span) (sp_End span) t))
        spans tokens
  | inl _ => True
  end.
Proof.
  intros Hi Hp. unfold PiiSession.Substitute, good_spans in *.
  destruct (Detect ctx t (s_entities s)) as [err|spans] eqn:Ed; [split; [apply rtc_refl|done]|].
  destruct (validateSpans t spans) eqn:Ev; [split; [apply rtc_refl|done]|].
  apply validate_spans_ok in Ev; [|pose proof (text_len_nonneg t); lia].
  destruct spans as [|span spans].
  { split; [apply rtc_refl|]. exists [], []. split_and!; try done. cbn. by rewrite slice_all. }
  pose proof (substitute_from_spec t (span :: spans) 0 s w Hi Hp) as Hs.
  destruct (substitute_from _ _ 0 t (span :: spans) (s, w)) as [[err|out] [s' w']]; [done|].
  destruct Hs as [Hr (tokens & -> & Hall)]. split; [done|]. by exists (span :: spans), tokens.
Qed.

Lemma validateToken_shape e token :
  validateToken e token = None ->
  has_prefix token opaqueTokenPrefix = true /\ has_suffix token closing = true.
Proof.
  unfold validateToken. rewrite fail_if_None, !orb_false_iff, !negb_false_iff.
  intros [[[Hp Hs] _] _]. split; [|done]. apply has_prefix_spec in Hp as [r ->].
  apply has_prefix_spec. unfold token_prefix. rewrite <- !app_assoc. eauto.
Qed.

Lemma elem_of_replacer_pairs s old new : (old, new) ∈ replacer_pairs s <-> s_byToken s !! old = Some new.
Proof.
  unfold replacer_pairs. rewrite (elem_of_Permutation_proper _ _ _ (stable_sort_Permutation _ _)).
  apply elem_of_map_to_list.
Qed.

Lemma Restore_pairs s t : session_inv s -> (Restore s t).1 = Replace (replacer_pairs s) t.
Proof.
  intros Hi. unfold Restore. destruct (Nat.eqb_spec (size (s_byToken s)) 0) as [E|_]; cbn.
  - apply map_size_empty_inv in E. unfold replacer_pairs. rewrite E, map_to_list_empty. cbn.
    unfold Replace. induction t as [|c t IH]; [done|]. cbn. by rewrite <- IH.
  - by destruct (si_cache s Hi) as [-> | ->].
Qed.

(** What restoration gives back of a substituted text. *)
Lemma Restore_replaced s t spans tokens :
  session_inv s -> clean_session s -> contains t opaqueTokenPrefix = false ->
  spans_ok (text_len t) 0 spans ->
  Forall2 (fun span token => s_byToken s !! token = Some (slice (sp_Start span) (sp_End span) t)) spans tokens ->
  (Restore s (replaced_from 0 t spans tokens)).1 = t.
Proof.
  intros Hi Hcl Ht Hok Hall. rewrite Restore_pairs by done. unfold Replace.
  assert (Hshape : forall old new, (old, new) ∈ replacer_pairs s ->
    has_prefix old opaqueTokenPrefix = true /\ has_suffix old closing = true /\ clean old).
  { intros old new Hin%elem_of_replacer_pairs. destruct (si_forth s Hi _ _ Hin) as (e & _ & _ & Hv).
    destruct (validateToken_shape _ _ Hv). split_and!; [done..|by eapply Hcl]. }
  rewrite (replace_replaced (replacer_pairs s)) with (n := text_len t); try done.
  - apply slice_all.
  - intros old new Hin. by destruct (Hshape _ _ Hin).
  - intros old new old' new' x Hin Hin' Hp Hp'.
    destruct (Hshape _ _ Hin) as (_ & S1 & C1), (Hshape _ _ Hin') as (_ & S2 & C2).
    assert (old = old') as -> by by apply (clean_unique _ _ x).
    apply elem_of_replacer_pairs in Hin, Hin'. congruence.
  - eapply Forall2_impl; [exact Hall|]. intros span token. by rewrite elem_of_replacer_pairs.
Qed.
End Sessions.

(** ** Claims *)
Section Claims.
Context `{UnicodeTables} `{UnicodeUpper} `{Detector} {W : Type}.
Context (tokenSource : W -> (string + string) * W).
Context (mappingResolver : option (Entity -> text -> W -> (string + text) * W)).
Context (good : Entity -> Prop) `{!TokenLaws tokenSource mappingResolver good}.

Definition mapping_ok (m : Mapping) : Prop := plain_entity (map_Entity m) /\ clean (map_Token m).

Lemma addMapping_clean s m s' :
  clean_session s -> clean (map_Token m) -> addMapping s m = inr s' -> clean_session s'.
Proof.
  intros Hc Hm. unfold addMapping. rewrite !check_then_inr. intros (_ & _ & _ & E).
  destruct (s_byOriginal s !! _).
  { case_bool_decide; [by injection E as <-|done]. }
  rewrite !check_then_inr in E. destruct E as (_ & _ & [= <-]).
  intros t x. cbn. rewrite lookup_insert. case_decide as Et; [|by apply Hc]. intros _. by subst.
Qed.

Lemma NewSession_clean entities mm mb initial s :
  Forall (fun m => clean (map_Token m)) initial ->
  NewSession entities mm mb initial = inr s -> clean_session s.
Proof.
  intros Hp. unfold NewSession. destruct (scan session_entity_step [] _) as [|seen]; [done|].
  rewrite check_then_inr. intros [_ Hs]. revert Hs.
  match goal with |- scan addMapping ?s0 _ = _ -> _ => assert (clean_session s0) as Hs0 by done; revert Hs0; generalize s0 end.
  induction Hp as [|m initial Hm Hp IH]; intros s0 Hs0; cbn [scan]; [by intros [= <-]|].
  destruct (addMapping s0 m) as [|s1] eqn:E; [done|]. apply IH. by eapply addMapping_clean.
Qed.

Lemma reached entities mm mb initial s0 w0 s w :
  NewSession entities mm mb initial = inr s0 -> Forall mapping_ok initial ->
  session_reach tokenSource mappingResolver good (s0, w0) (s, w) -> session_inv s /\ clean_session s.
Proof.
  intros Hn Hm Hr. split.
  - apply (session_reach_inv _ _ _ _ _ Hr). eapply NewSession_inv; [|done].
    eapply Forall_impl; [exact Hm|]. by intros m [? _].
  - apply (session_reach_clean _ _ _ _ _ Hr). eapply NewSession_clean; [|done].
    eapply Forall_impl; [exact Hm|]. by intros m [_ ?].
Qed.

(** C8: Restoration undoes substitution.  Take a session whose initial mappings
    are well formed, whose detector finds spans of entities in use only, and
    whose tokens keep [TokenLaws] (names of entities without NUL, the closing
    brackets only at the end of a token).  A text that does not contain the prefix
    of tokens is given back unchanged by [Restore] after it went through
    [Substitute], however many values other requests of the session substituted or
    restored in between.  (A text that already holds a token of the session has
    that token expanded too.) *)
Theorem substitution_roundtrip entities mm mb initial s0 w0 ctx t s w out c1 s2 w2 :
  NewSession entities mm mb initial = inr s0 -> Forall mapping_ok initial ->
  session_reach tokenSource mappingResolver good (s0, w0) (s, w) ->
  good_spans good ctx t (s_entities s) -> contains t opaqueTokenPrefix = false ->
  Substitute tokenSource mappingResolver ctx t (s, w) = (inr out, c1) ->
  session_reach tokenSource mappingResolver good c1 (s2, w2) ->
  (Restore s2 out).1 = t.
Proof.
  intros Hn Hm Hr Hg Ht Hs Hr2.
  destruct (reached _ _ _ _ _ _ _ _ Hn Hm Hr) as [Hi Hc].
  pose proof (Substitute_spec tokenSource mappingResolver good ctx t s w Hi Hg) as Hsp.
  rewrite Hs in Hsp. destruct c1 as [s1 w1], Hsp as [Hr1 (spans & tokens & _ & Hok & -> & Hall)].
  destruct (session_reach_inv _ _ _ _ _ Hr1 Hi) as [Hi1 _].
  destruct (session_reach_inv _ _ _ _ _ Hr2 Hi1) as [Hi2 [_ Hg2]]. cbn in Hi2, Hg2.
  apply Restore_replaced; try done.
  - apply (session_reach_clean _ _ _ _ _ Hr2). cbn.
    by apply (session_reach_clean _ _ _ _ _ Hr1).
  - eapply Forall2_impl; [exact Hall|]. intros span token Hl. exact (lookup_weaken _ _ _ _ Hl Hg2).
Qed.

(** Tokens identify values.  Within a session equal values of one entity get
    the same token and different values different ones, whatever happens between
    the two substitutions. *)
Theorem tokens_identify_values entities mm mb initial s0 w0 c e1 o1 t1 c1 c2 e2 o2 t2 c3 :
  NewSession entities mm mb initial = inr s0 -> Forall mapping_ok initial ->
  session_reach tokenSource mappingResolver good (s0, w0) c -> good e1 -> good e2 ->
  tokenFor tokenSource mappingResolver e1 o1 c = (inr t1, c1) ->
  session_reach tokenSource mappingResolver good c1 c2 ->
  tokenFor tokenSource mappingResolver e2 o2 c2 = (inr t2, c3) ->
  (e1 = e2 -> o1 = o2 -> t1 = t2) /\ (o1 <> o2 -> t1 <> t2).
Proof.
  intros Hn Hm Hr G1 G2 Ht1 Hr2 Ht2. destruct c as [s w], c1 as [s1 w1], c2 as [s2 w2], c3 as [s3 w3].
  destruct (reached _ _ _ _ _ _ _ _ Hn Hm Hr) as [Hi _].
  pose proof (tokenFor_spec tokenSource mappingResolver e1 o1 s w Hi (good_plain _ _ _ _ G1)) as S1.
  rewrite Ht1 in S1. destruct S1 as (Hi1 & _ & A1 & B1).
  destruct (session_reach_inv _ _ _ _ _ Hr2 Hi1) as [Hi2 [Hk Hb]]. cbn [fst] in *.
  pose proof (tokenFor_spec tokenSource mappingResolver e2 o2 s2 w2 Hi2 (good_plain _ _ _ _ G2)) as S2.
  rewrite Ht2 in S2. destruct S2 as (_ & [Hk' Hb'] & A2 & B2).
  pose proof (lookup_weaken _ _ _ _ (lookup_weaken _ _ _ _ A1 Hk) Hk') as A1'.
  pose proof (lookup_weaken _ _ _ _ (lookup_weaken _ _ _ _ B1 Hb) Hb') as B1'.
  split; [intros -> ->; congruence|intros Hne ->; congruence].
Qed.

(** C11: The mapping of a session is exact and bounded under any interleaving of
    its steps: both directions agree, tokens have the shape of their entity, the
    number of mappings and the bytes kept are within the limits, and the cached
    replacer is up to date. *)
Theorem session_mapping_bounded entities mm mb initial s0 w0 s w :
  NewSession entities mm mb initial = inr s0 -> Forall mapping_ok initial ->
  session_reach tokenSource mappingResolver good (s0, w0) (s, w) -> session_inv s.
Proof. intros Hn Hm Hr. by eapply reached. Qed.
End Claims.

(** ** The built-in detector with random tokens *)
Definition builtin_entity (e : Entity) : Prop := e ∈ defaultEntities.

Lemma clean_closed u : bracket ∉ u -> clean (u ++ closing).
Proof.
  intros Hu. exists (u ++ [bracket]). split; [by rewrite <- app_assoc|].
  apply not_true_iff_false. intros (l & r & E)%contains_spec. apply Hu.
  assert ((u ++ [bracket]) !! length l = Some bracket) as Hl.
  { rewrite E, lookup_app_r by lia. by rewrite Nat.sub_diag. }
  apply (f_equal length) in E. rewrite ?length_app in E. change (length closing) with 2%nat in E. cbn [length] in E.
  rewrite lookup_app_l in Hl by lia. by eapply list_elem_of_lookup_2.
Qed.

Definition plain_byte (c : ascii) : bool :=
  negb (non_ascii c) && negb (ascii_space c) && negb (Ascii.eqb c bracket).

Lemma base32_plain raw : Forall (fun c => plain_byte c = true) (base32_EncodeToString raw).
Proof.
  unfold base32_EncodeToString. generalize (raw ≫= byte_bits). intros bits. generalize (length bits). intros fuel.
  revert bits. induction fuel as [|fuel IH]; intros bits; cbn [base32_bits]; [constructor|].
  destruct bits as [|b bits]; [constructor|]. constructor; [|apply IH].
  unfold base32_char. destruct (base32_alphabet !! _) as [c|] eqn:E; [|done]. cbn [default].
  assert (Forall (fun c => plain_byte c = true) base32_alphabet) as Ha.
  { apply (bool_decide_unpack _). vm_compute. exact I. }
  rewrite Forall_lookup in Ha. by eapply Ha.
Qed.

Lemma TrimSpace_plain `{UnicodeTables} l :
  Forall (fun c => plain_byte c = true) l -> TrimSpace (of_bytes l) = of_bytes l.
Proof.
  intros Hl. unfold TrimSpace. rewrite bytes_of_bytes. destruct l as [|c l]; [done|].
  assert (plain_byte c = true) as Hc by (by inversion Hl). cbn [trim_left].
  unfold plain_byte in Hc. apply andb_prop in Hc as [[H1 H2]%andb_prop _].
  apply negb_true_iff in H1, H2. rewrite H1, H2.
  destruct (reverse (c :: l)) as [|d k] eqn:Er.
  { by apply (f_equal length) in Er; rewrite length_reverse in Er. }
  assert (plain_byte d = true) as Hd.
  { rewrite Forall_forall in Hl. apply Hl. apply elem_of_reverse. rewrite Er. left. }
  unfold plain_byte in Hd. apply andb_prop in Hd as [[D1 D2]%andb_prop _].
  apply negb_true_iff in D1, D2. cbn [trim_right]. rewrite D1, D2, <- Er, reverse_involutive. done.
Qed.

Lemma builtin_entity_plain `{UnicodeUpper} e : builtin_entity e -> plain_entity e /\ bracket ∉ token_prefix e.
Proof.
  intros He. unfold builtin_entity, defaultEntities in He.
  repeat (apply elem_of_cons in He as [-> | He];
    [split; [unfold plain_entity|]; apply (bool_decide_unpack _); vm_compute; exact I|]).
  by apply elem_of_nil in He.
Qed.

#[export] Instance random_token_laws `{UnicodeTables} `{UnicodeUpper} {W} (rand_Read : W -> (string + list Z) * W) :
  TokenLaws (randomToken rand_Read) None builtin_entity.
Proof.
  split; [intros e He; by apply builtin_entity_plain|].
  intros e o w token w' He. unfold make_token, randomToken.
  destruct (rand_Read w) as [[err|raw] w1]; [done|]. rewrite TrimSpace_plain by apply base32_plain.
  destruct (String.eqb _ _); [done|]. intros E.
  assert (token = token_prefix e ++ bytes (of_bytes (base32_EncodeToString raw)) ++ closing) as -> by congruence.
  rewrite app_assoc. apply clean_closed.
  apply not_elem_of_app. split; [by apply builtin_entity_plain|]. rewrite bytes_of_bytes.
  intros Hb. pose proof (base32_plain raw) as Hp. rewrite Forall_forall in Hp. by apply Hp in Hb.
Qed.

Lemma take_spans_entities (P : Entity -> Prop) l : forall last,
  Forall (fun d => P (sp_Entity (ds_Span d))) l -> Forall (fun x => P (sp_Entity x)) (take_spans last l).
Proof.
  induction l as [|d l IH]; intros last Hl; cbn [take_spans]; [constructor|].
  apply Forall_cons in Hl as [Hd Hl]. destruct (match last with Some _ => _ | None => false end); [by apply IH|].
  constructor; [done|by apply IH].
Qed.

Lemma builtin_good_spans ctx t entities : good_spans (H1 := BuiltinDetector) builtin_entity ctx t entities.
Proof.
  unfold good_spans. cbn. unfold BuiltinDetector_Detect. destruct ctx; [done|].
  apply take_spans_entities.
  assert (Hadd : forall e p r v, builtin_entity e ->
    Forall (fun d => builtin_entity (sp_Entity (ds_Span d))) (add_candidates t entities e p r v)).
  { intros e p r v He. unfold add_candidates. case_bool_decide; [|constructor].
    apply Forall_fmap, Forall_true. done. }
  rewrite (stable_sort_Permutation candidate_before). unfold all_candidates.
  repeat apply Forall_app_2; apply Hadd; unfold builtin_entity; apply (bool_decide_unpack _); vm_compute; exact I.
Qed.
