(* ===== verification/PiiStream.v ===== *)
(** * Redaction of streams

    What the stream redactor sends, against the redaction of the whole text:
    first for any detector whose safe prefixes split its answers, then for the
    built-in detector. *)

From stdpp Require Import base gmap list strings sorting.
From Stdlib Require Import Ascii ZArith Lia.
From S2P Require Import Prelude GoStrings Privacy Regex Detector PiiSession PiiTheorems.

Local Open Scope Z_scope.
Local Open Scope go_scope.

#[local] Arguments Ascii.eqb : simpl never.
#[local] Arguments opaqueTokenPrefix : simpl never.
#[local] Arguments closing : simpl never.
#[local] Arguments Nat.ltb : simpl never.

(** ** Spans of a text in two parts *)
Definition shift_span (d : Z) (span : Span) : Span :=
  mkSpan (d + sp_Start span) (d + sp_End span) (sp_Entity span).

Definition markers `{UnicodeUpper} (spans : list Span) : list text := (redaction ∘ sp_Entity) <$> spans.

Lemma spans_ok_le n spans : forall p, spans_ok n p spans -> p <= n.
Proof.
  induction spans as [|span spans IH]; intros p; cbn; [done|].
  intros (? & ? & _ & H). apply IH in H. lia.
Qed.

Lemma spans_ok_app n1 n2 s1 s2 : forall p,
  0 <= n2 -> spans_ok n1 p s1 -> spans_ok n2 0 s2 -> spans_ok (n1 + n2) p (s1 ++ (shift_span n1 <$> s2)).
Proof.
  induction s1 as [|span s1 IH]; intros p Hn; cbn [spans_ok app].
  - intros Hp. revert p Hp. assert (Hg : forall k p, p <= n1 + k -> spans_ok n2 k s2 ->
      spans_ok (n1 + n2) p (shift_span n1 <$> s2)).
    { induction s2 as [|x s2 IH]; intros k p Hp; cbn; [lia|]. intros (? & ? & ? & H).
      split_and!; [lia|lia|done|]. by apply (IH (sp_End x)). }
    intros p Hp Hs. by apply (Hg 0); [lia|].
  - intros (La & Lb & Lc & Ha) Hb. split_and!; try done. by apply IH.
Qed.

Lemma slice_app_l a b s t : 0 <= a -> b <= text_len s -> slice a b (s ++ t) = slice a b s.
Proof.
  intros Ha Hb. unfold slice, text_len in *. destruct (decide (Z.to_nat a <= length s)%nat).
  - rewrite drop_app_le by done. rewrite take_app_le; [done|]. rewrite length_drop. lia.
  - replace (Z.to_nat (b - a)) with O by lia. by rewrite !take_0.
Qed.

Lemma slice_app_r a b s t : 0 <= a -> slice (text_len s + a) (text_len s + b) (s ++ t) = slice a b t.
Proof.
  intros Ha. unfold slice, text_len. replace (Z.to_nat (Z.of_nat (length s) + a)) with (length s + Z.to_nat a)%nat by lia.
  rewrite <- drop_drop, drop_app_length.
  replace (Z.of_nat (length s) + b - (Z.of_nat (length s) + a)) with (b - a) by lia. done.
Qed.

Lemma text_len_app s t : text_len (s ++ t) = text_len s + text_len t.
Proof. unfold text_len. rewrite length_app. lia. Qed.

Section Render.
Context `{UnicodeUpper}.

Lemma replaced_shift a b spans : forall p,
  0 <= p -> spans_ok (text_len b) p spans ->
  replaced_from (text_len a + p) (a ++ b) (shift_span (text_len a) <$> spans)
    (markers (shift_span (text_len a) <$> spans)) =
  replaced_from p b spans (markers spans).
Proof.
  induction spans as [|span spans IH]; intros p Hp; cbn.
  - intros Hl. rewrite text_len_app. by apply slice_app_r.
  - intros (H1 & H2 & _ & H3). rewrite slice_app_r by lia.
    unfold markers in IH. rewrite IH; [done|lia|done].
Qed.

(** Rendering commutes with cutting a text. *)
Lemma replaced_app a b s1 s2 : forall p,
  0 <= p -> spans_ok (text_len a) p s1 -> spans_ok (text_len b) 0 s2 ->
  replaced_from p (a ++ b) (s1 ++ (shift_span (text_len a) <$> s2))
    (markers (s1 ++ (shift_span (text_len a) <$> s2))) =
  replaced_from p a s1 (markers s1) ++ replaced_from 0 b s2 (markers s2).
Proof.
  induction s1 as [|span s1 IH]; intros p Hp.
  - intros Hl Hs2. cbn in Hl. cbn [app]. rewrite <- (replaced_shift a b s2 0) by done.
    change (replaced_from p a [] (markers [])) with (slice p (text_len a) a).
    rewrite Z.add_0_r. destruct s2 as [|x s2]; cbn.
    + rewrite <- (slice_app (a ++ b) p (text_len a) (text_len (a ++ b))) by (rewrite ?text_len_app; unfold text_len in *; lia).
      by rewrite slice_app_l.
    + cbn in Hs2. destruct Hs2 as (? & ? & _ & ?).
      rewrite <- (slice_app (a ++ b) p (text_len a) (text_len a + sp_Start x)) by (unfold text_len in *; lia).
      rewrite slice_app_l by done. by rewrite <- app_assoc.
  - intros (H1 & H2 & _ & H3) Hs2. cbn [app markers fmap list_fmap replaced_from].
    pose proof (spans_ok_le _ _ _ H3). rewrite slice_app_l by lia.
    fold (markers (s1 ++ (shift_span (text_len a) <$> s2))). fold (markers s1). 
    unfold markers in IH |- *. rewrite IH; [|lia|done|done]. by rewrite <- !app_assoc.
Qed.

(** What [Redact] answers. *)
Lemma Redact_spec `{Detector} entities ctx t out :
  Redact entities ctx t = inr out ->
  exists spans, Detect ctx t entities = inr spans /\ spans_ok (text_len t) 0 spans /\
    out = replaced_from 0 t spans (markers spans).
Proof.
  unfold Redact. destruct (Detect ctx t entities) as [|spans]; [done|]. rewrite check_then_inr.
  intros [Hv E]. exists spans. split; [done|].
  apply validate_spans_ok in Hv; [|unfold text_len; lia]. split; [done|].
  destruct spans as [|span spans]; [|by injection E].
  injection E as <-. cbn. by rewrite slice_all.
Qed.
End Render.

(** ** Any detector

    [R]: how the spans of a whole text compare with those found in its parts. *)
Class SpanOrder (R : list Span -> list Span -> Prop) : Prop := {
  order_refl spans : R spans spans;
  order_trans s1 s2 s3 : R s1 s2 -> R s2 s3 -> R s1 s3;
  order_parts d s1 s2 s2' : R s2 s2' -> R (s1 ++ (shift_span d <$> s2)) (s1 ++ (shift_span d <$> s2'));
}.

#[export] Instance eq_SpanOrder : SpanOrder eq.
Proof. split; congruence. Qed.

(** Every span is among those of the parts. *)
Definition covered (spans spans' : list Span) : Prop := forall span, span ∈ spans -> span ∈ spans'.

#[export] Instance covered_SpanOrder : SpanOrder covered.
Proof.
  unfold covered. split; [auto..|]. intros d s1 s2 s2' Hc span. rewrite !elem_of_app, !list_elem_of_fmap.
  intros [?|(x & -> & ?)]; [by left|right]. eauto.
Qed.

(** The contract of a streaming detector, on texts that satisfy [P]. *)
Class StreamingLaws `{StreamingDetector} (entities : list Entity) (R : list Span -> list Span -> Prop)
    (P : text -> Prop) : Prop := {
  laws_order :: SpanOrder R;
  laws_suffix p q : P (p ++ q) -> P q;
  laws_split p q future n spans :
    P (p ++ q ++ future) ->
    releasable None entities (p ++ q) false = inr n -> n = text_len p ->
    Detect None (p ++ q ++ future) entities = inr spans ->
    exists s1 s2, Detect None p entities = inr s1 /\ Detect None (q ++ future) entities = inr s2 /\
      R spans (s1 ++ (shift_span (text_len p) <$> s2));
}.

Section Stream.
Context `{UnicodeUpper} `{StreamingDetector}.

(** Feeding the fragments of a stream, the last one as the final one. *)
Fixpoint stream_all (r : StreamRedactor) (fragments : list text) : string + text :=
  match fragments with
  | [] => inr []
  | [fragment] => (Transform None r fragment true).1
  | fragment :: fragments =>
      match Transform None r fragment false with
      | (inl err, _) => inl err
      | (inr out, r) =>
          match stream_all r fragments with
          | inl err => inl err
          | inr rest => inr (out ++ rest)
          end
      end
  end.

(** A step that succeeds splits what is pending at a releasable offset. *)
Lemma Transform_spec r fragment final out r' :
  Transform None r fragment final = (inr out, r') ->
  exists p q n, r_pending r ++ fragment = p ++ q /\ n = text_len p /\
    releasable None (r_entities r) (r_pending r ++ fragment) final = inr n /\
    Redact (r_entities r) None p = inr out /\
    r' = mkStreamRedactor (r_entities r) (r_maximumPendingBytes r) q /\
    text_len q <= r_maximumPendingBytes r.
Proof.
  unfold Transform. set (combined := r_pending r ++ fragment).
  destruct (releasable None (r_entities r) combined final) as [|safe]; [done|].
  destruct (_ || _) eqn:Hc; [done|]. apply orb_false_iff in Hc as [[L1 L2]%orb_false_iff _].
  apply Z.ltb_ge in L1, L2.
  destruct (Z.ltb_spec (r_maximumPendingBytes r) (text_len combined - safe)); [done|].
  destruct (Redact (r_entities r) None (slice 0 safe combined)) as [|masked] eqn:Er; [done|]. intros [= <- <-].
  assert (Hlen : text_len (slice 0 safe combined) = safe).
  { unfold slice, text_len in *. rewrite drop_0, length_take. lia. }
  exists (slice 0 safe combined), (slice safe (text_len combined) combined), safe. split_and!; try done.
  - rewrite slice_app by lia. by rewrite slice_all.
  - assert (text_len combined = safe + text_len (slice safe (text_len combined) combined)) as E; [|lia].
    rewrite <- (slice_all combined) at 1. rewrite <- (slice_app combined 0 safe) by lia.
    by rewrite text_len_app, Hlen.
Qed.

Section Laws.
Context (entities : list Entity) (R : list Span -> list Span -> Prop) (P : text -> Prop).
Context `{!StreamingLaws entities R P}.

(** The text sent is a rendering of the whole text, whose spans relate to those
    of the whole. *)
Lemma stream_rendering fragments : forall r out spans,
  fragments <> [] -> r_entities r = entities -> P (r_pending r ++ concat fragments) ->
  stream_all r fragments = inr out -> 
  Detect None (r_pending r ++ concat fragments) entities = inr spans ->
  exists found, R spans found /\ spans_ok (text_len (r_pending r ++ concat fragments)) 0 found /\
    out = replaced_from 0 (r_pending r ++ concat fragments) found (markers found).
Proof.
  induction fragments as [|fragment fragments IH]; intros r out spans Hne Hent HP Hs Hd; [done|].
  destruct fragments as [|fragment' fragments].
  - cbn [stream_all concat] in *. rewrite app_nil_r in *.
    destruct (Transform None r fragment true) as [[|out'] r'] eqn:Et; cbn in Hs; [done|]. injection Hs as ->.
    apply Transform_spec in Et as (p & q & n & E & -> & Hrel & Hred & _).
    cbn in Hrel. injection Hrel as Hn. assert (q = []) as ->.
    { rewrite E, text_len_app in Hn. destruct q; [done|]. unfold text_len in Hn. cbn [length] in Hn. lia. }
    rewrite app_nil_r in E. rewrite E in *.
    apply Redact_spec in Hred as (found & Hf & Hok & ->). rewrite Hent, Hd in Hf. injection Hf as <-.
    exists spans. split; [apply laws_order|done].
  - remember (fragment' :: fragments) as rest eqn:Erest.
    assert (stream_all r (fragment :: rest) =
      match Transform None r fragment false with
      | (inl err, _) => inl err
      | (inr out, r) => match stream_all r rest with inl err => inl err | inr rest => inr (out ++ rest) end
      end) as Estep by by rewrite Erest.
    rewrite Estep in Hs. clear Estep.
    destruct (Transform None r fragment false) as [[|out1] r'] eqn:Et; [done|].
    apply Transform_spec in Et as (p & q & n & E & Hn & Hrel & Hred & -> & _).
    destruct (stream_all _ rest) as [|out2] eqn:Es; [done|]. injection Hs as <-.
    cbn [concat] in *. rewrite app_assoc, E, <- app_assoc in HP, Hd |- *.
    destruct (laws_split p q (concat rest) n spans HP) as (s1 & s2 & D1 & D2 & HR); [|done|done|].
    { by rewrite <- Hent, <- E. }
    edestruct (IH (mkStreamRedactor (r_entities r) (r_maximumPendingBytes r) q) out2 s2)
      as (found & Hrel2 & Hok2 & ->); [by rewrite Erest|done| |done|done|].
    { cbn. by eapply laws_suffix. }
    cbn in Hok2 |- *. apply Redact_spec in Hred as (s1' & D1' & Hok1 & ->).
    rewrite Hent, D1 in D1'. injection D1' as <-.
    exists (s1 ++ (shift_span (text_len p) <$> found)). split_and!.
    + eapply order_trans; [exact HR|]. by apply order_parts.
    + rewrite text_len_app. apply spans_ok_app; [unfold text_len; lia|done|done].
    + by rewrite replaced_app.
Qed.
End Laws.
End Stream.

(** ** The built-in detector with one entity *)

(** The pattern, the check and the bytes of an entity's matches: those of
    [SafePrefix], and for addresses the bytes of the two letters that fold. *)
Definition folding_byte (c : ascii) : bool := bool_decide (byte_of c ∈ [197; 191; 226; 132; 170]%nat).

Definition grammar (e : Entity) : option (regex * (text -> bool) * (ascii -> bool)) :=
  if String.eqb e EntityEmail
  then Some (emailPattern, alwaysValid, fun c => emailStreamByte c || folding_byte c)
  else if String.eqb e EntityPhone then Some (phonePattern, validPhone, phoneStreamByte)
  else if String.eqb e EntitySSN then Some (ssnPattern, validSSN, ssnStreamByte)
  else if String.eqb e EntityCreditCard then Some (creditCardPattern, validCreditCard, creditCardStreamByte)
  else if String.eqb e EntityIPv4 then Some (ipv4Pattern, validIPv4, ipv4StreamByte)
  else None.

Ltac each_byte := let c := fresh in intros c; destruct c as [[] [] [] [] [] [] [] []]; vm_compute; congruence.

Lemma email_within : within (fun c => emailStreamByte c || folding_byte c) emailPattern.
Proof. cbn. repeat split; each_byte. Qed.
Lemma phone_within : within phoneStreamByte phonePattern.
Proof. cbn. repeat split; each_byte. Qed.
Lemma ssn_within : within ssnStreamByte ssnPattern.
Proof. cbn. repeat split; each_byte. Qed.
Lemma credit_card_within : within creditCardStreamByte creditCardPattern.
Proof. cbn. repeat split; each_byte. Qed.
Lemma ipv4_within : within ipv4StreamByte ipv4Pattern.
Proof. cbn. repeat split; each_byte. Qed.

Lemma grammar_within e r valid A : grammar e = Some (r, valid, A) -> within A r.
Proof.
  unfold grammar. repeat (destruct (String.eqb _ _)); intros [= <- <- <-];
    auto using email_within, phone_within, ssn_within, credit_card_within, ipv4_within.
Qed.

(** No match contains the bracket that tokens begin with. *)
Lemma grammar_bracket e r valid A : grammar e = Some (r, valid, A) -> A "["%char = false.
Proof.
  unfold grammar. repeat (destruct (String.eqb _ _)); intros [= <- <- <-]; vm_compute; reflexivity.
Qed.

Section Single.
Context (e : Entity) (r : regex) (valid : text -> bool) (A : ascii -> bool).
Context (Hg : grammar e = Some (r, valid, A)).

Definition admitted (t : text) (m : nat * nat) : bool :=
  asciiBoundary t m.1 m.2 && valid (slice (Z.of_nat m.1) (Z.of_nat m.2) t).

Definition span_of (m : nat * nat) : Span := mkSpan (Z.of_nat m.1) (Z.of_nat m.2) e.

Definition single_spans (t : text) : list Span := span_of <$> List.filter (admitted t) (FindAllStringIndex r t).

Lemma take_ordered priority l : forall last,
  StronglySorted (fun m m' => m.2 <= m'.1)%nat l -> 
  match last with Some x => Forall (fun m => x <= Z.of_nat m.1) l | None => True end ->
  take_spans last ((fun m => mkDetectedSpan (span_of m) priority) <$> l) = span_of <$> l.
Proof.
  induction l as [|m l IH]; intros last Hs Hl; [done|].
  apply StronglySorted_inv in Hs as [Hs Hm]. cbn.
  destruct (match last with Some x => Z.of_nat m.1 <? x | None => false end) eqn:E.
  { destruct last as [x|]; [|done]. apply Forall_cons in Hl as [Hx _]. lia. }
  f_equal. apply IH; [done|]. eapply Forall_impl; [exact Hm|]. cbn. lia.
Qed.

Lemma sort_ordered priority l :
  StronglySorted (fun m m' => m.2 <= m'.1)%nat l -> Forall (fun m => m.1 < m.2)%nat l ->
  stable_sort candidate_before ((fun m => mkDetectedSpan (span_of m) priority) <$> l) =
  (fun m => mkDetectedSpan (span_of m) priority) <$> l.
Proof.
  intros Hs Hb. apply stable_sort_id.
  induction Hs as [|m l Hs IH Hm]; cbn; [constructor|]. apply Forall_cons in Hb as [Hb Hbs].
  constructor; [by apply IH|]. apply Forall_fmap, Forall_forall. intros m' Hin.
  rewrite Forall_forall in Hm, Hbs. specialize (Hm m' Hin). specialize (Hbs m' Hin).
  unfold candidate_before, lex_less. cbn.
  destruct (Z.ltb_spec (Z.of_nat m'.1) (Z.of_nat m.1)), (Z.ltb_spec (Z.of_nat m.1) (Z.of_nat m'.1)); try lia; done.
Qed.

Lemma filter_matches t :
  StronglySorted (fun m m' => m.2 <= m'.1)%nat (List.filter (admitted t) (FindAllStringIndex r t)) /\
  Forall (fun m => m.1 < m.2)%nat (List.filter (admitted t) (FindAllStringIndex r t)).
Proof.
  unfold FindAllStringIndex. pose proof (find_all_ordered r t 0 0) as Ho. pose proof (find_all_bounds r t 0 0) as Hb.
  induction Ho as [|m l Ho IH Hm]; cbn; [by split; constructor|].
  apply Forall_cons in Hb as [Hb Hbs]. destruct (IH Hbs) as [I1 I2].
  destruct (admitted t m); [|done]. split; [constructor; [done|]|constructor; [lia|done]].
  rewrite Forall_forall in Hm |- *. intros x Hx%list_elem_of_In%filter_In. apply Hm, list_elem_of_In. by destruct Hx.
Qed.

(** The detector asked for one entity. *)
Lemma Detect_single t : BuiltinDetector_Detect None t [e] = inr (single_spans t).
Proof.
  destruct (filter_matches t) as [Hs Hb]. unfold single_spans. cbn [BuiltinDetector_Detect]. f_equal.
  assert (exists priority, all_candidates t [e] =
    (fun m => mkDetectedSpan (span_of m) priority) <$> List.filter (admitted t) (FindAllStringIndex r t))
    as [priority ->].
  { clear Hs Hb. revert Hg. unfold grammar, all_candidates, add_candidates, admitted, span_of.
    destruct (String.eqb_spec e EntityEmail) as [->|].
    { intros [= <- <- <-]. exists 0. cbn. by rewrite app_nil_r. }
    destruct (String.eqb_spec e EntityPhone) as [->|].
    { intros [= <- <- <-]. exists 4. reflexivity. }
    destruct (String.eqb_spec e EntitySSN) as [->|].
    { intros [= <- <- <-]. exists 1. cbn. by rewrite app_nil_r. }
    destruct (String.eqb_spec e EntityCreditCard) as [->|].
    { intros [= <- <- <-]. exists 2. cbn. by rewrite app_nil_r. }
    destruct (String.eqb_spec e EntityIPv4) as [->|]; [|done].
    intros [= <- <- <-]. exists 3. cbn. by rewrite app_nil_r. }
  rewrite sort_ordered by done. by apply take_ordered.
Qed.
End Single.

Section Split.
Context (e : Entity) (r : regex) (valid : text -> bool) (A : ascii -> bool).
Context (Hg : grammar e = Some (r, valid, A)) (p q : text).

Abbreviation FindAll := (FindAllStringIndex r).

(** Where a stream may be cut: after a byte that no match contains, or before
    the bracket of a token. *)
Definition cut_ok : Prop :=
  (forall c, last p = Some c -> A c = false) \/ (exists q', q = "["%char :: q').

(** No word goes on over the cut. *)
Definition word_ends : Prop :=
  (forall c, last p = Some c -> isWord c = false) \/ (exists q', q = "["%char :: q').

Context (Hcut : cut_ok).

Lemma FindAll_cut : FindAll (p ++ q) = FindAll p ++ (shift (length p) <$> FindAll q).
Proof.
  destruct Hcut as [Hl|[q' ->]]; [by apply (FindAll_app A), Hl; eapply grammar_within|].
  apply (FindAll_app_head A); [by eapply grammar_within|by eapply grammar_bracket].
Qed.

Lemma match_bounds t m : m ∈ FindAll t -> (m.1 < m.2 <= length t)%nat.
Proof.
  intros Hm. pose proof (find_all_bounds r t 0 0) as Hb. rewrite Forall_forall in Hb.
  specialize (Hb m Hm). lia.
Qed.

(** A match of [p] that ends with [p] is followed by a bracket. *)
Lemma match_end m : m ∈ FindAll p -> m.2 = length p -> exists q', q = "["%char :: q'.
Proof.
  intros Hm E. destruct Hcut as [Hl|Hq]; [|done]. exfalso.
  pose proof (match_bounds p m Hm) as Hb.
  destruct (lookup_lt_is_Some_2 p (length p - 1)) as [c Hc]; [lia|].
  assert (A c = true) as HA.
  { apply (find_all_within A r p 0 0 m (length p - 1)); [by eapply grammar_within|done|lia|].
    by rewrite Nat.sub_0_r. }
  rewrite (Hl c) in HA; [done|]. rewrite last_lookup. by replace (Nat.pred (length p)) with (length p - 1)%nat by lia.
Qed.

Lemma slice_left m : m ∈ FindAll p -> slice (Z.of_nat m.1) (Z.of_nat m.2) (p ++ q) = slice (Z.of_nat m.1) (Z.of_nat m.2) p.
Proof. intros Hm%match_bounds. apply slice_app_l; unfold text_len; lia. Qed.

Lemma admitted_left m : m ∈ FindAll p -> admitted valid (p ++ q) m = admitted valid p m.
Proof.
  intros Hm. unfold admitted. rewrite slice_left by done. f_equal.
  pose proof (match_bounds p m Hm) as Hb. pose proof (match_end m Hm) as He.
  unfold asciiBoundary. f_equal.
  - destruct (Nat.eqb_spec m.1 0); [done|]. cbn [orb]. by rewrite lookup_app_l by lia.
  - destruct (Nat.eqb_spec m.2 (length p)) as [E|E].
    + destruct (He E) as [q' ->]. rewrite lookup_app_r by lia. rewrite E, Nat.sub_diag. cbn.
      apply orb_true_r.
    + rewrite length_app. destruct (Nat.eqb_spec m.2 (length p + length q)); [lia|].
      by rewrite lookup_app_l by lia.
Qed.

Lemma admitted_right m :
  m ∈ FindAll q ->
  (admitted valid (p ++ q) (shift (length p) m) = true -> admitted valid q m = true) /\
  (word_ends -> admitted valid (p ++ q) (shift (length p) m) = admitted valid q m).
Proof.
  intros Hm. pose proof (match_bounds q m Hm) as Hb. unfold admitted, shift. cbn [fst snd].
  assert (slice (Z.of_nat (length p + m.1)) (Z.of_nat (length p + m.2)) (p ++ q) =
    slice (Z.of_nat m.1) (Z.of_nat m.2) q) as ->.
  { rewrite !Nat2Z.inj_add. apply slice_app_r. lia. }
  unfold asciiBoundary.
  replace (Nat.eqb (length p + m.2) (length (p ++ q))) with (Nat.eqb m.2 (length q)).
  2:{ rewrite length_app. destruct (Nat.eqb_spec m.2 (length q)), (Nat.eqb_spec (length p + m.2) (length p + length q)); lia. }
  rewrite (lookup_app_r p q (length p + m.2)) by lia.
  replace (length p + m.2 - length p)%nat with m.2 by lia.
  destruct (Nat.eqb_spec m.1 0) as [E|E].
  - cbn [orb andb]. split.
    + intros [[_ H1]%andb_prop H2]%andb_prop. by rewrite H1, H2.
    + intros Hw. f_equal. replace (_ || _) with true; [done|]. symmetry.
      destruct (Nat.eqb_spec (length p + m.1) 0); [done|]. cbn [orb]. rewrite E, Nat.add_0_r in *.
      destruct Hw as [Hl|[q' ->]].
      * rewrite lookup_app_l by lia. rewrite last_lookup in Hl.
        replace (Nat.pred (length p)) with (length p - 1)%nat in Hl by lia.
        destruct (p !! _) as [c|]; [|done]. by rewrite (Hl c).
      * exfalso. assert (A "["%char = true) as HA; [|by rewrite (grammar_bracket _ _ _ _ Hg) in HA].
        apply (find_all_within A r ("["%char :: q') 0 0 m 0); [by eapply grammar_within|done|lia|done].
  - destruct (Nat.eqb_spec (length p + m.1) 0); [lia|]. cbn [orb].
    rewrite lookup_app_r by lia. replace (length p + m.1 - 1 - length p)%nat with (m.1 - 1)%nat by lia. done.
Qed.

(** What is detected in the whole is detected in the parts; nothing more, when
    no word goes on over the cut. *)
Lemma single_spans_cut :
  covered (single_spans e r valid (p ++ q))
    (single_spans e r valid p ++ (shift_span (text_len p) <$> single_spans e r valid q)) /\
  (word_ends ->
   single_spans e r valid (p ++ q) =
     single_spans e r valid p ++ (shift_span (text_len p) <$> single_spans e r valid q)).
Proof.
  unfold single_spans. rewrite FindAll_cut, List.filter_app, fmap_app.
  assert (List.filter (admitted valid (p ++ q)) (FindAll p) = List.filter (admitted valid p) (FindAll p)) as ->.
  { apply filter_ext_in. intros m Hm%list_elem_of_In. by apply admitted_left. }
  assert (Hshift : forall m, span_of e (shift (length p) m) = shift_span (text_len p) (span_of e m)).
  { intros m. unfold span_of, shift, shift_span, text_len. cbn. f_equal; lia. }
  split.
  - intros span [Hin|Hin]%elem_of_app; apply elem_of_app; [by left|right].
    apply list_elem_of_fmap in Hin as (m' & -> & Hm'). apply list_elem_of_In, filter_In in Hm' as [Hin Ha].
    apply list_elem_of_In, list_elem_of_fmap in Hin as (m & -> & Hm).
    apply list_elem_of_fmap. exists (span_of e m). split; [apply Hshift|].
    apply list_elem_of_fmap. exists m. split; [done|]. apply list_elem_of_In, filter_In.
    split; [by apply list_elem_of_In|]. by apply (admitted_right m Hm).
  - intros Hw. f_equal. rewrite <- list_fmap_compose.
    assert (forall l, (forall m, m ∈ l -> m ∈ FindAll q) ->
      span_of e <$> List.filter (admitted valid (p ++ q)) (shift (length p) <$> l) =
      (shift_span (text_len p) ∘ span_of e) <$> List.filter (admitted valid q) l) as Hl; [|apply Hl; intros m Hm; exact Hm].
    induction l as [|m l IH]; intros Hin; [done|]. cbn [fmap list_fmap List.filter].
    destruct (admitted_right m (Hin m ltac:(left))) as [_ Heq]. rewrite (Heq Hw).
    destruct (admitted valid q m); cbn [fmap list_fmap]; rewrite ?Hshift;
      [f_equal|]; apply IH; intros x Hx; apply Hin; by right.
Qed.
End Split.

(** *** Where the redactor cuts *)
Lemma allowed_run_stops allowed rs c : rs !! allowed_run allowed rs = Some c -> allowed c = false.
Proof.
  induction rs as [|b rs IH]; cbn [allowed_run]; [done|].
  destruct (allowed b) eqn:E; [exact IH|]. intros [= <-]. exact E.
Qed.

Lemma allowed_run_le allowed rs : (allowed_run allowed rs <= length rs)%nat.
Proof. induction rs as [|b rs IH]; cbn; [lia|]. destruct (allowed b); lia. Qed.

Lemma trailing_cut allowed p q c :
  trailingAllowedStart (p ++ q) allowed = text_len p -> last p = Some c -> allowed c = false.
Proof.
  unfold trailingAllowedStart, text_len. rewrite length_app. intros E Hc.
  apply (allowed_run_stops allowed (reverse (p ++ q))).
  pose proof (allowed_run_le allowed (reverse (p ++ q))) as Hle. rewrite length_reverse, length_app in Hle.
  replace (allowed_run allowed (reverse (p ++ q))) with (length (reverse q) + 0)%nat
    by (rewrite length_reverse; lia).
  rewrite reverse_app, lookup_app_r by lia. replace (length (reverse q) + 0 - length (reverse q))%nat with O by lia.
  apply last_Some in Hc as [p' ->]. by rewrite reverse_app.
Qed.

Lemma opaque_head : exists tail, opaqueTokenPrefix = "["%char :: tail.
Proof. by eexists. Qed.

Definition bracket_at (t : text) (n : Z) : Prop := t !! Z.to_nat n = Some "["%char.

Lemma partial_token_cut t n : forall k safe,
  (1 <= k)%nat -> (k + n <= length opaqueTokenPrefix)%nat -> (safe = text_len t \/ bracket_at t safe) ->
  partial_token t n k safe = text_len t \/ bracket_at t (partial_token t n k safe).
Proof.
  induction n as [|n IH]; intros k safe Hk Hkn Hs; cbn [partial_token]; [done|]. apply IH; [lia|lia|].
  destruct (has_suffix t (take k opaqueTokenPrefix)) eqn:E; [|done]. right.
  apply has_suffix_spec in E as [x ->]. destruct opaque_head as [tail Ht]. rewrite Ht in Hkn |- *.
  destruct k as [|k]; [lia|]. cbn [take length] in *. unfold bracket_at, text_len. rewrite length_app. cbn [length].
  rewrite length_take. rewrite lookup_app_r by lia.
  by replace (Z.to_nat _ - length x)%nat with O by lia.
Qed.

Lemma last_index_spec sub t : forall i, last_index t sub = Some i -> has_prefix (drop i t) sub = true.
Proof.
  induction t as [|c t IH]; intros i; cbn [last_index].
  - destruct (has_prefix [] sub) eqn:E; [|done]. by intros [= <-].
  - destruct (last_index t sub) as [j|]; [intros [= <-]; by apply IH|].
    destruct (has_prefix (c :: t) sub) eqn:E; [|done]. by intros [= <-].
Qed.

Lemma token_cut t :
  safeOpaqueTokenPrefix t = text_len t \/ bracket_at t (safeOpaqueTokenPrefix t).
Proof.
  unfold safeOpaqueTokenPrefix. assert (length opaqueTokenPrefix = 17)%nat as H17 by reflexivity.
  assert (Hp := partial_token_cut t (Nat.min (length opaqueTokenPrefix - 1) (length t)) 1 (text_len t)
    (le_n 1)). destruct (last_index t opaqueTokenPrefix) as [start|] eqn:El.
  - destruct (_ && _); [right|apply Hp; [lia|by left]].
    apply last_index_spec, has_prefix_spec in El as [x E]. destruct opaque_head as [tail Ht]. rewrite Ht in E.
    unfold bracket_at. rewrite Nat2Z.id. rewrite <- (Nat.add_0_r start), <- lookup_drop, E. done.
  - apply Hp; [lia|by left].
Qed.

Definition ascii_text (t : text) : Prop := Forall (fun c => non_ascii c = false) t.

(** The texts on which the cuts of an entity are safe: the letters that fold to
    ASCII are not among the bytes that [SafePrefix] keeps for an address. *)
Definition safe_texts (e : Entity) (t : text) : Prop := e = EntityEmail -> ascii_text t.

Lemma folding_not_ascii c : folding_byte c = true -> non_ascii c = true.
Proof. destruct c as [[] [] [] [] [] [] [] []]; vm_compute; congruence. Qed.

Lemma isWord_email c : isWord c = true -> emailStreamByte c = true.
Proof. destruct c as [[] [] [] [] [] [] [] []]; vm_compute; congruence. Qed.

Lemma releasable_cut e r valid A p q future :
  grammar e = Some (r, valid, A) -> safe_texts e (p ++ q ++ future) ->
  releasable None [e] (p ++ q) false = inr (text_len p) ->
  cut_ok A p (q ++ future) /\ (e = EntityEmail -> word_ends p (q ++ future)).
Proof.
  intros Hg Ht. unfold releasable. cbn [SafePrefix BuiltinStreaming BuiltinDetector_SafePrefix safe_loop].
  assert (exists allowed, stream_bytes e = Some allowed /\
    (forall c, allowed c = false -> (e = EntityEmail -> non_ascii c = false) -> A c = false) /\
    (e = EntityEmail -> forall c, allowed c = false -> isWord c = false)) as (allowed & -> & HA & Hw).
  { clear Ht. revert Hg. unfold grammar, stream_bytes.
    destruct (String.eqb_spec e EntityEmail) as [->|Hne].
    { intros [= <- <- <-]. eexists. split; [done|]. split.
      - intros c Hc Hn. rewrite Hc. cbn. specialize (Hn eq_refl).
        destruct (folding_byte c) eqn:E; [|done]. apply folding_not_ascii in E. congruence.
      - intros _ c Hc. destruct (isWord c) eqn:E; [|done]. apply isWord_email in E. congruence. }
    repeat (destruct (String.eqb _ _)); intros [= <- <- <-]; eexists;
      (split; [done|]); (split; [by auto|]); intros He; by destruct (Hne He). }
  assert (Hascii : forall c, last p = Some c -> e = EntityEmail -> non_ascii c = false).
  { intros c Hc He. specialize (Ht He). apply Forall_app in Ht as [Ht _].
    apply last_Some in Hc as [p' ->]. apply Forall_app in Ht as [_ Hc].
    by inversion Hc. }
  set (start := trailingAllowedStart (p ++ q) allowed).
  assert (Hle : start <= text_len (p ++ q)) by (unfold start, trailingAllowedStart; lia).
  replace (if start <? text_len (p ++ q) then start else text_len (p ++ q)) with start
    by (destruct (Z.ltb_spec start (text_len (p ++ q))); lia).
  destruct (Z.ltb_spec (safeOpaqueTokenPrefix (p ++ q)) start) as [Hlt|Hge]; intros [= E].
  - destruct (token_cut (p ++ q)) as [Htok|Hb]; [lia|]. rewrite E in Hb.
    unfold bracket_at, text_len in Hb. rewrite Nat2Z.id, lookup_app_r, Nat.sub_diag in Hb by lia.
    destruct q as [|b q]; [done|]. injection Hb as ->. cbn [app]. split; [|intros _]; right; eauto.
  - split; [|intros He]; left; intros c Hc; pose proof (trailing_cut allowed p q c E Hc) as Hn.
    + apply HA; [done|]. by apply Hascii.
    + by apply Hw.
Qed.

(** The built-in detector keeps its contract for one entity: exactly for
    addresses, and otherwise it detects at least as much. *)
Lemma builtin_split e r valid A p q future :
  grammar e = Some (r, valid, A) -> safe_texts e (p ++ q ++ future) ->
  releasable None [e] (p ++ q) false = inr (text_len p) ->
  covered (single_spans e r valid (p ++ q ++ future))
    (single_spans e r valid p ++ (shift_span (text_len p) <$> single_spans e r valid (q ++ future))) /\
  (e = EntityEmail ->
   single_spans e r valid (p ++ q ++ future) =
     single_spans e r valid p ++ (shift_span (text_len p) <$> single_spans e r valid (q ++ future))).
Proof.
  intros Hg Ht Hr. destruct (releasable_cut e r valid A p q future Hg Ht Hr) as [Hc Hw].
  destruct (single_spans_cut e r valid A Hg p (q ++ future) Hc) as [H1 H2].
  split; [done|]. intros He. apply H2. by apply Hw.
Qed.

Lemma safe_texts_suffix e p q : safe_texts e (p ++ q) -> safe_texts e q.
Proof. intros H He. specialize (H He). unfold ascii_text in *. by apply Forall_app in H as [_ H]. Qed.

Lemma builtin_laws_covered e g : grammar e = Some g -> StreamingLaws [e] covered (safe_texts e).
Proof.
  intros Hg. destruct g as [[r valid] A]. split; [apply _|apply safe_texts_suffix|].
  intros p q future n spans Ht Hr -> Hd. cbn [Detect BuiltinDetector] in Hd |- *. rewrite (Detect_single e r valid A Hg) in Hd.
  exists (single_spans e r valid p), (single_spans e r valid (q ++ future)).
  rewrite !(Detect_single e r valid A Hg). split_and!; [done..|]. injection Hd as <-.
  by apply (builtin_split e r valid A).
Qed.

#[export] Instance builtin_laws_email : StreamingLaws [EntityEmail] eq ascii_text.
Proof.
  split; [apply _|by intros p q [_ ?]%Forall_app|].
  intros p q future n spans Ht Hr -> Hd. cbn [Detect BuiltinDetector] in Hd |- *.
  assert (Hg : grammar EntityEmail = Some (emailPattern, alwaysValid, fun c => emailStreamByte c || folding_byte c)) by done.
  rewrite (Detect_single _ _ _ _ Hg) in Hd.
  eexists _, _. rewrite !(Detect_single _ _ _ _ Hg). split_and!; [done..|]. injection Hd as <-.
  destruct (builtin_split _ _ _ _ p q future Hg (fun _ => Ht) Hr) as [_ Heq]. by apply Heq.
Qed.

(** ** Claims *)

(** C9: A stream is redacted like the whole text.  For any detector that keeps
    the contract of [StreamingDetector] (what it detects in a text is what it
    detects before and after the prefix it declares safe), whatever the fragments
    of a stream, their redactions put together are the redaction of the whole. *)
Theorem stream_equals_redaction `{UnicodeUpper} `{SD : StreamingDetector} entities P r fragments out out' :
  StreamingLaws entities eq P ->
  fragments <> [] -> r_entities r = entities -> r_pending r = [] -> P (concat fragments) ->
  stream_all r fragments = inr out -> Redact entities None (concat fragments) = inr out' -> out = out'.
Proof.
  intros HL Hne He Hp HP Hs Hr. apply Redact_spec in Hr as (spans & Hd & _ & ->).
  destruct (stream_rendering entities eq P fragments r out spans) as (found & <- & _ & ->);
    rewrite ?Hp; done.
Qed.

(** C10: With one entity the built-in detector lets nothing through in a stream
    that it would redact in the whole text: the text sent is a rendering of the
    whole text in which every detected span is replaced.  For e-mail addresses
    the text must be ASCII: the pattern also accepts the two letters outside
    ASCII that fold to [s] and [k], whose bytes the stream does not keep back. *)
Theorem builtin_stream_covers `{UnicodeUpper} e g r fragments out spans :
  grammar e = Some g -> safe_texts e (concat fragments) ->
  fragments <> [] -> r_entities r = [e] -> r_pending r = [] ->
  stream_all r fragments = inr out -> Detect None (concat fragments) [e] = inr spans ->
  exists found, (forall span, span ∈ spans -> span ∈ found) /\
    spans_ok (text_len (concat fragments)) 0 found /\
    out = replaced_from 0 (concat fragments) found (markers found).
Proof.
  intros Hg Ht Hne He Hp Hs Hd. pose proof (builtin_laws_covered e g Hg) as HL.
  destruct (stream_rendering [e] covered (safe_texts e) fragments r out spans) as (found & Hf & Hok & ->);
    rewrite ?Hp; try done. exists found. rewrite Hp in Hok. done.
Qed.
