(* ===== verification/PiiWitnesses.v ===== *)
(** * PII substitution: concrete runs

    The built-in detector, tokens drawn from a counter, and streams in which
    addresses are cut between fragments. *)

From stdpp Require Import base gmap list strings.
From Stdlib Require Import Ascii ZArith Lia.
From S2P Require Import Prelude GoStrings Privacy Regex Detector PiiSession PiiTheorems PiiStream.
From S2P Require Import Fixtures.

Local Open Scope Z_scope.

#[local] Existing Instance plain_tables.
#[local] Instance plain_upper : UnicodeUpper := {| unicode_ToUpper s := s |}.

(** ** Sessions *)

(** Sixteen times the number of the call. *)
Definition counter (w : Z) : (string + list Z) * Z := (inr (replicate 16 w), w + 1).

Abbreviation draw := (randomToken counter).

Definition fresh_session : Session :=
  mkSession [EntityEmail; EntitySSN] 3 100 ∅ ∅ ∅ 0 None.

Definition letter : text := bytes "to bob@mail.example, 078-05-1120, bob@mail.example".

Definition substituted : (string + text) * (Session * Z) :=
  Substitute draw None None letter (fresh_session, 0).

Definition sent_text : text := match substituted.1 with inr out => out | inl _ => [] end.

(** Another request of the session adds a mapping. *)
Definition later : Session * Z :=
  (tokenFor draw None EntityEmail (bytes "ann@mail.example") substituted.2).2.

Example the_token_is_used_twice :
  sent_text = bytes "to [[SPARKROUTE_PII_EMAIL_AAAAAAAAAAAAAAAAAAAAAAAAAA]], [[SPARKROUTE_PII_SSN_AEAQCAIBAEAQCAIBAEAQCAIBAE]], [[SPARKROUTE_PII_EMAIL_AAAAAAAAAAAAAAAAAAAAAAAAAA]]".
Proof. vm_compute. reflexivity. Qed.

Lemma substitution_roundtrip_witness : (Restore later.1 sent_text).1 = letter.
Proof.
  apply (substitution_roundtrip draw None builtin_entity [EntityEmail; EntitySSN] 3 100 []
    fresh_session 0 None letter fresh_session 0 sent_text substituted.2 later.1 later.2).
  - reflexivity.
  - constructor.
  - apply rtc_refl.
  - apply builtin_good_spans.
  - vm_compute. reflexivity.
  - vm_compute. reflexivity.
  - apply (rtc_l _ _ later); [|rewrite <- surjective_pairing; apply rtc_refl].
    apply step_token. apply (bool_decide_unpack _). vm_compute. exact I.
Defined.

Definition first_call : (string + text) * (Session * Z) :=
  tokenFor draw None EntityEmail (bytes "bob@mail.example") (fresh_session, 0).
Definition second_call : (string + text) * (Session * Z) :=
  tokenFor draw None EntityEmail (bytes "ann@mail.example") first_call.2.

Lemma tokens_identify_values_witness :
  (EntityEmail = EntityEmail -> bytes "bob@mail.example" = bytes "ann@mail.example" ->
   bytes "[[SPARKROUTE_PII_EMAIL_AAAAAAAAAAAAAAAAAAAAAAAAAA]]" =
     bytes "[[SPARKROUTE_PII_EMAIL_AEAQCAIBAEAQCAIBAEAQCAIBAE]]") /\
  (bytes "bob@mail.example" <> bytes "ann@mail.example" ->
   bytes "[[SPARKROUTE_PII_EMAIL_AAAAAAAAAAAAAAAAAAAAAAAAAA]]" <>
     bytes "[[SPARKROUTE_PII_EMAIL_AEAQCAIBAEAQCAIBAEAQCAIBAE]]").
Proof.
  apply (tokens_identify_values draw None builtin_entity [EntityEmail; EntitySSN] 3 100 []
    fresh_session 0 (fresh_session, 0) EntityEmail (bytes "bob@mail.example") _ first_call.2 first_call.2
    EntityEmail (bytes "ann@mail.example") _ second_call.2).
  - reflexivity.
  - constructor.
  - apply rtc_refl.
  - apply (bool_decide_unpack _). vm_compute. exact I.
  - apply (bool_decide_unpack _). vm_compute. exact I.
  - vm_compute. reflexivity.
  - apply rtc_refl.
  - vm_compute. reflexivity.
Defined.

Lemma session_mapping_bounded_witness : session_inv first_call.2.1.
Proof.
  apply (session_mapping_bounded draw None builtin_entity [EntityEmail; EntitySSN] 3 100 []
    fresh_session 0 first_call.2.1 first_call.2.2).
  - reflexivity.
  - constructor.
  - apply (rtc_l _ _ first_call.2); [|rewrite <- surjective_pairing; apply rtc_refl].
    apply step_token. apply (bool_decide_unpack _). vm_compute. exact I.
Defined.

(** A text that holds a token of the session is not given back as it was: the
    token is expanded with those that [Substitute] put in. *)
Definition quoting_letter : text :=
  bytes "[[SPARKROUTE_PII_EMAIL_AAAAAAAAAAAAAAAAAAAAAAAAAA]] or ann@mail.example".

Example known_token_is_expanded :
  match Substitute draw None None quoting_letter substituted.2 with
  | (inr out, (s, _)) => (Restore s out).1
  | (inl _, _) => []
  end = bytes "bob@mail.example or ann@mail.example".
Proof. vm_compute. reflexivity. Qed.

(** ** Streams *)
Definition stream_of (entities : list Entity) : StreamRedactor := mkStreamRedactor entities 64 [].

Definition cut_address : list text := bytes <$> ["reach bob@ma"; "il.example n"; "ow [[SPARK"]%string.

Definition sent (entities : list Entity) (fragments : list text) : text :=
  match stream_all (stream_of entities) fragments with inr out => out | inl _ => [] end.
Definition redacted (entities : list Entity) (t : text) : text :=
  match Redact entities None t with inr out => out | inl _ => [] end.

Lemma stream_equals_redaction_witness :
  sent [EntityEmail] cut_address = redacted [EntityEmail] (concat cut_address).
Proof.
  apply (stream_equals_redaction [EntityEmail] ascii_text (stream_of [EntityEmail]) cut_address).
  - apply builtin_laws_email.
  - discriminate.
  - reflexivity.
  - reflexivity.
  - apply (bool_decide_unpack _). vm_compute. exact I.
  - vm_compute. reflexivity.
  - vm_compute. reflexivity.
Defined.

(** A number that follows a letter is not detected in the whole text, but it is
    in the stream, where the letter has been sent before. *)
Definition cut_number : list text := bytes <$> ["no078-05"; "-1120, 078-05-1120 "; "x"]%string.

Lemma builtin_stream_covers_witness :
  exists found, (forall span, span ∈ [mkSpan 15 26 EntitySSN] -> span ∈ found) /\
    spans_ok (text_len (concat cut_number)) 0 found /\
    sent [EntitySSN] cut_number = replaced_from 0 (concat cut_number) found (markers found).
Proof.
  apply (builtin_stream_covers EntitySSN (ssnPattern, validSSN, ssnStreamByte) (stream_of [EntitySSN]) cut_number).
  - reflexivity.
  - intros E. discriminate E.
  - discriminate.
  - reflexivity.
  - reflexivity.
  - vm_compute. reflexivity.
  - vm_compute. reflexivity.
Defined.

(** With several entities a stream may let an address through: the safe prefix is
    the least of those of the entities, and the one for phone numbers, which goes
    back over spaces and points, falls into the address. *)
Definition cut_inside : list text := bytes <$> ["reach me at ann@10.0.0.7 "; "today"]%string.

Example stream_lets_address_through :
  redacted defaultEntities (concat cut_inside) = bytes "reach me at [[SPARKROUTE_PII_EMAIL_REDACTED]] today" /\
  sent defaultEntities cut_inside = bytes "reach me at ann@[[SPARKROUTE_PII_IPV4_REDACTED]] today".
Proof. split; vm_compute; reflexivity. Qed.

(** U+017F folds to [s], so that the pattern for addresses accepts it; its bytes
    are none that the stream keeps back, and an address cut there gets through. *)
Definition cut_folded : list text :=
  [bytes "to bob@ma" ++ ["197"; "191"]%char; bytes "k.example now"].

Example stream_lets_folded_address_through :
  redacted [EntityEmail] (concat cut_folded) = bytes "to [[SPARKROUTE_PII_EMAIL_REDACTED]] now" /\
  sent [EntityEmail] cut_folded = concat cut_folded.
Proof. split; vm_compute; reflexivity. Qed.

(** A candidate that overlaps an accepted one is dropped as a whole: what it has
    beyond the other is neither substituted nor redacted. *)
Example overlapping_number_is_kept :
  redacted defaultEntities (bytes "write x@y.z1.2 555 123 4567") =
    bytes "write [[SPARKROUTE_PII_EMAIL_REDACTED]] 555 123 4567".
Proof. vm_compute. reflexivity. Qed.
