(* ===== verification/ClientCredentials.v ===== *)
(** * Gateway-issued API keys ([pkg/clientcredentials])

    The manager that creates, rotates, disables and revokes client credentials
    and authenticates their keys, over the interface of its store; the store in
    SQLite; and the authenticator of the data plane.

    A store call may fail; its answer comes with the store after the call.  The
    readings of [time.Now] and the bytes of [crypto/rand] are arguments. *)

From stdpp Require Import base gmap list strings.
From Stdlib Require Import Ascii ZArith Lia.
From S2P Require Import Prelude GoStrings Sha256 Json Identity.

Local Open Scope Z_scope.
Local Open Scope go_scope.

Definition defaultListLimit : Z := 100.
Definition maxListLimit : Z := 500.
Definition maxNameBytes : Z := 128.
Definition maxIdentityBytes : Z := 256.
Definition maxRoleCount : Z := 64.
Definition maxMapEntries : Z := 64.

Definition StateActive : string := "active".
Definition StateDisabled : string := "disabled".
Definition StateRevoked : string := "revoked".

(** The errors that [errors.Is] tells apart. *)
Inductive credential_error :=
  | ErrNotFound
  | ErrConflict
  | ErrRevoked
  | ErrInvalidCredential (message : string)
  | ErrStore (message : string)
  | ErrRandom (message : string).

Record Credential := mkCredential {
  cr_ID : string;
  cr_Name : string;
  cr_TenantID : string;
  cr_PrincipalID : string;
  cr_PrincipalType : string;
  cr_PrincipalSubject : string;
  cr_Roles : list string;
  cr_AllowedAttribution : list string;
  cr_FixedAttribution : gmap string string;
  cr_State : string;
  cr_CreatedAt : Z;
  cr_CreatedBy : string;
  cr_UpdatedAt : Z;
  cr_UpdatedBy : string;
  cr_RotatedAt : option Z;
  cr_ExpiresAt : option Z;
  cr_RevokedAt : option Z;
}.

Record CredentialRecord := mkCredentialRecord {
  rec_Credential : Credential;
  rec_SecretSHA256 : list Z;
}.

Record CreateInput := mkCreateInput {
  in_Name : string;
  in_TenantID : string;
  in_PrincipalID : string;
  in_PrincipalType : string;
  in_PrincipalSubject : string;
  in_Roles : list string;
  in_AllowedAttribution : list string;
  in_FixedAttribution : gmap string string;
  in_ExpiresAt : option Z;
}.

Record IssuedCredential := mkIssuedCredential {
  is_Credential : Credential;
  is_APIKey : string;
}.

Record ListQuery := mkListQuery {
  lq_TenantID : string;
  lq_PrincipalID : string;
  lq_State : string;
  lq_Limit : Z;
}.

Record AuditEvent := mkAuditEvent {
  ae_ID : Z;
  ae_CredentialID : string;
  ae_TenantID : string;
  ae_Action : string;
  ae_OccurredAt : Z;
  ae_Actor : string;
  ae_Details : list (string * string);
}.

Record AuditQuery := mkAuditQuery {
  aq_TenantID : string;
  aq_CredentialID : string;
  aq_Action : string;
  aq_Limit : Z;
}.

(** ** The store *)

(** The first reading of the clock is that of the mutation, the second one that of
    its audit event. *)
Class Store (S : Type) := {
  store_Create : CredentialRecord -> string -> Z -> S -> option credential_error * S;
  store_Get : string -> S -> (credential_error + CredentialRecord) * S;
  store_List : ListQuery -> S -> (credential_error + list Credential) * S;
  store_Rotate : string -> list Z -> string -> Z -> Z -> S -> (credential_error + Credential) * S;
  store_SetState : string -> string -> string -> Z -> Z -> S -> (credential_error + Credential) * S;
  store_ListAudit : AuditQuery -> S -> (credential_error + list AuditEvent) * S;
}.

(** The rows that the mutations write. *)
Definition rotated (digest : list Z) (actor : string) (now : Z) (r : CredentialRecord) : CredentialRecord :=
  let c := rec_Credential r in
  mkCredentialRecord
    (mkCredential (cr_ID c) (cr_Name c) (cr_TenantID c) (cr_PrincipalID c) (cr_PrincipalType c)
       (cr_PrincipalSubject c) (cr_Roles c) (cr_AllowedAttribution c) (cr_FixedAttribution c) (cr_State c)
       (cr_CreatedAt c) (cr_CreatedBy c) now actor (Some now) (cr_ExpiresAt c) (cr_RevokedAt c)) digest.

Definition in_state (state actor : string) (now : Z) (r : CredentialRecord) : CredentialRecord :=
  let c := rec_Credential r in
  let revokedAt :=
    match cr_RevokedAt c with
    | None => if String.eqb state StateRevoked then Some now else None
    | Some t => Some t
    end in
  mkCredentialRecord
    (mkCredential (cr_ID c) (cr_Name c) (cr_TenantID c) (cr_PrincipalID c) (cr_PrincipalType c)
       (cr_PrincipalSubject c) (cr_Roles c) (cr_AllowedAttribution c) (cr_FixedAttribution c) state
       (cr_CreatedAt c) (cr_CreatedBy c) now actor (cr_RotatedAt c) (cr_ExpiresAt c) revokedAt)
    (rec_SecretSHA256 r).

(** What the manager relies on: a table of records behind the store, which a
    failed call leaves alone and a successful one changes as a whole. [available]
    says that reads do not fail. *)
Class StoreLaws (S : Type) `{Store S} (table : S -> gmap string CredentialRecord)
    (available : S -> Prop) : Prop := {
  law_create r actor now s :
    let '(err, s') := store_Create r actor now s in
    match err with
    | None => table s !! cr_ID (rec_Credential r) = None /\
              table s' = <[cr_ID (rec_Credential r) := r]> (table s)
    | Some _ => table s' = table s
    end;
  law_get id s :
    let '(res, s') := store_Get id s in
    table s' = table s /\
    match res with inr r => table s !! id = Some r | inl _ => available s -> table s !! id = None end;
  law_list query s : table (store_List query s).2 = table s;
  law_rotate id digest actor now then_ s :
    let '(res, s') := store_Rotate id digest actor now then_ s in
    match res with
    | inr c => exists r, table s !! id = Some r /\ cr_State (rec_Credential r) <> StateRevoked /\
        table s' = <[id := rotated digest actor now r]> (table s) /\
        c = rec_Credential (rotated digest actor now r)
    | inl _ => table s' = table s
    end;
  law_state id state actor now then_ s :
    let '(res, s') := store_SetState id state actor now then_ s in
    match res with
    | inr c => exists r, table s !! id = Some r /\
        (cr_State (rec_Credential r) = StateRevoked -> state = StateRevoked) /\
        table s' = <[id := in_state state actor now r]> (table s) /\
        c = rec_Credential (in_state state actor now r)
    | inl _ => table s' = table s
    end;
  law_audit query s : table (store_ListAudit query s).2 = table s;
}.

(** ** Checks *)
Definition letter_or_digit_byte (c : ascii) : bool :=
  let n := byte_of c in
  ((65 <=? n) && (n <=? 90) || (97 <=? n) && (n <=? 122) || (48 <=? n) && (n <=? 57))%nat.
Definition lower_letter (c : ascii) : bool := ((97 <=? byte_of c) && (byte_of c <=? 122))%nat.
Definition decimal_byte (c : ascii) : bool := ((48 <=? byte_of c) && (byte_of c <=? 57))%nat.
Definition byte_among (s : string) (c : ascii) : bool := existsb (Ascii.eqb c) (bytes s).

(** [identifierPattern] *)
Definition identifier_matches (s : string) : bool :=
  match bytes s with
  | c :: l => letter_or_digit_byte c && forallb (fun c => letter_or_digit_byte c || byte_among "._:@/-" c) l
  | [] => false
  end.

(** [rolePattern] *)
Definition role_matches (s : string) : bool :=
  match bytes s with
  | c :: l => lower_letter c && forallb (fun c => lower_letter c || decimal_byte c || byte_among "_:-" c) l
  | [] => false
  end.

Definition HasPrefix (s prefix : string) : bool := bool_decide (take (len prefix) (bytes s) = bytes prefix).

Definition validateCredentialID (id : string) : option string :=
  fail_if (negb (HasPrefix id "cc_") || (zlen id <? 10) || (64 <? zlen id) || negb (identifier_matches id))
    "invalid client credential ID".

(** [strings.Split(s, ".")] *)
Fixpoint split_dots (l : list ascii) : list (list ascii) :=
  match l with
  | [] => [[]]
  | c :: l =>
      match split_dots l with
      | part :: parts => if Ascii.eqb c "." then [] :: part :: parts else (c :: part) :: parts
      | [] => [[]]
      end
  end.

Definition credentialIDFromAPIKey (apiKey : string) : option string :=
  match split_dots (bytes apiKey) with
  | [version; id; secret] =>
      if negb (bool_decide (version = bytes "llmgw_v1")) || bool_decide (secret = []) then None
      else
        match validateCredentialID (of_bytes id) with
        | Some _ => None
        | None =>
            match DecodeString secret with
            | Some decoded => if Nat.eqb (length decoded) 32 then Some (of_bytes id) else None
            | None => None
            end
        end
  | _ => None
  end.

(** The key of a credential. *)
Definition api_key (id secret : string) : string := "llmgw_v1." +:+ id +:+ "." +:+ secret.

Definition key_digest (apiKey : string) : list Z := Sum256 (string_bytes apiKey).

(** ** Validation of a new credential *)
Section Checks.
Context `{UnicodeTables}.

Definition validateBounded (value : string) (maximum : Z) (required : bool) : option string :=
  let value := TrimSpace value in
  first_error
    [fail_if (required && String.eqb value "") "%s is required";
     fail_if (maximum <? zlen value) "%s exceeds %d bytes"].

Definition validateIdentifier (value : string) (required : bool) : option string :=
  let value := TrimSpace value in
  first_error
    [validateBounded value maxIdentityBytes required;
     fail_if (negb (String.eqb value "") && negb (identifier_matches value))
       "%s contains unsupported characters"].

Definition validateActor (actor : string) : option string := validateIdentifier actor true.

Definition validateMutation (id actor : string) : option string :=
  first_error [validateCredentialID id; validateActor actor].

(** The loop of [normalizedStrings], with the values seen. *)
Definition normalize_step (seen : list string) (value : string) : list string :=
  let value := TrimSpace value in
  if String.eqb value "" || bool_decide (value ∈ seen) then seen else seen ++ [value].

Definition normalizedStrings (values : list string) : list string :=
  sort_Strings (foldl normalize_step [] values).

Definition validate_role (role : string) : option string :=
  fail_if ((64 <? zlen role) || negb (role_matches role)) "invalid role %q".

(** [visit] is the order in which [range] visits a map. *)
Definition validateCreateInput (visit : gmap string string -> list (string * string))
    (input : CreateInput) (actor : string) (now : Z) : option string :=
  let roles := normalizedStrings (in_Roles input) in
  let allowed := normalizedStrings (in_AllowedAttribution input) in
  first_error
    [validateActor actor;
     validateBounded (in_Name input) maxNameBytes true;
     validateIdentifier (in_PrincipalID input) true;
     validateIdentifier (in_PrincipalType input) false;
     validateBounded (in_PrincipalSubject input) maxIdentityBytes false;
     validateBounded (in_TenantID input) maxIdentityBytes false;
     fail_if (bool_decide (roles = []) || (maxRoleCount <? Z.of_nat (length roles)))
       "roles must contain between 1 and %d unique entries";
     check_all validate_role roles;
     fail_if (maxMapEntries <? Z.of_nat (length allowed)) "allowed_attribution contains more than %d entries";
     check_all (fun name => validateIdentifier name true) allowed;
     fail_if (maxMapEntries <? Z.of_nat (size (in_FixedAttribution input)))
       "fixed_attribution contains more than %d entries";
     check_all (fun kv => first_error [validateIdentifier kv.1 true; validateBounded kv.2 maxIdentityBytes true])
       (visit (in_FixedAttribution input));
     fail_if (match in_ExpiresAt input with Some t => t <=? now | None => false end)
       "expires_at must be in the future"].

Definition valid_state (state : string) : bool :=
  String.eqb state StateActive || String.eqb state StateDisabled || String.eqb state StateRevoked.

Definition validateListQuery (query : ListQuery) : option string :=
  first_error
    [fail_if (negb (lq_Limit query =? 0) && ((lq_Limit query <? 1) || (maxListLimit <? lq_Limit query)))
       "credential limit must be between 1 and %d";
     fail_if (negb (String.eqb (lq_State query) "") && negb (valid_state (lq_State query)))
       "invalid client credential state %q";
     fail_if ((maxIdentityBytes <? zlen (lq_TenantID query)) || (maxIdentityBytes <? zlen (lq_PrincipalID query)))
       "client credential filter is too long"].
End Checks.

(** ** The manager *)
Definition principal_of (c : Credential) : Principal :=
  mkPrincipal (cr_PrincipalID c) (cr_PrincipalType c) (cr_TenantID c) (cr_PrincipalSubject c) (cr_Roles c)
    (cr_AllowedAttribution c) (cr_FixedAttribution c).

Definition ErrMissingCredentials : string := "caller credentials are required".
Definition ErrInvalidCredentials : string := "caller credentials are invalid".

Section Manager.
Context `{UnicodeTables} {S W : Type} `{Store S}.
Context (rand_Read : nat -> W -> (string + list Z) * W).
Context (visit : gmap string string -> list (string * string)).
Context (inputPolicy : option (CreateInput -> string + CreateInput)).

(** [err != nil] of a check. *)
Definition checked {X A} (e : option string) : M X credential_error A -> M X credential_error A :=
  fun k => match e with Some message => throw (ErrInvalidCredential message) | None => k end.

Definition on_store {A} (f : S -> (credential_error + A) * S) : M (S * W) credential_error A :=
  fun '(s, w) => let '(r, s) := f s in (r, (s, w)).

Definition store_create (r : CredentialRecord) (actor : string) (now : Z) : M (S * W) credential_error unit :=
  fun '(s, w) =>
    let '(err, s) := store_Create r actor now s in
    (match err with Some err => inl err | None => inr tt end, (s, w)).

Definition randomComponent (size : nat) : M (S * W) credential_error string :=
  fun '(s, w) =>
    match rand_Read size w with
    | (inl err, w) => (inl (ErrRandom err), (s, w))
    | (inr raw, w) => (inr (of_bytes (EncodeToString (val_byte <$> raw))), (s, w))
    end.

(** The defaults of [Create]. *)
Definition with_defaults (input : CreateInput) : CreateInput :=
  let type_ :=
    if String.eqb (TrimSpace (in_PrincipalType input)) "" then "machine"%string else in_PrincipalType input in
  let subject :=
    if String.eqb (TrimSpace (in_PrincipalSubject input)) "" then TrimSpace (in_PrincipalID input)
    else in_PrincipalSubject input in
  mkCreateInput (in_Name input) (in_TenantID input) (in_PrincipalID input) type_ subject (in_Roles input)
    (in_AllowedAttribution input) (in_FixedAttribution input) (in_ExpiresAt input).

Definition new_credential (input : CreateInput) (id actor : string) (now : Z) : Credential :=
  mkCredential id (TrimSpace (in_Name input)) (TrimSpace (in_TenantID input))
    (TrimSpace (in_PrincipalID input)) (TrimSpace (in_PrincipalType input))
    (TrimSpace (in_PrincipalSubject input)) (normalizedStrings (in_Roles input))
    (normalizedStrings (in_AllowedAttribution input)) (in_FixedAttribution input) StateActive
    now actor now actor None (in_ExpiresAt input) None.

(** [Manager.Create]; the clock is read for the check, for the record and by the
    store. *)
Definition Create (input : CreateInput) (actor : string) (now1 now2 now3 : Z)
  : M (S * W) credential_error IssuedCredential :=
  let input := with_defaults input in
  match match inputPolicy with Some policy => policy input | None => inr input end with
  | inl message => throw (ErrInvalidCredential message)
  | inr input =>
      checked (validateCreateInput visit input actor now1)
        (id ← randomComponent 18;
         secret ← randomComponent 32;
         let id := "cc_" +:+ id in
         let apiKey := api_key id secret in
         let credential := new_credential input id actor now2 in
         _ ← store_create (mkCredentialRecord credential (key_digest apiKey)) actor now3;
         mret (mkIssuedCredential credential apiKey))
  end.

(** [Manager.List] *)
Definition List (query : ListQuery) : M (S * W) credential_error (list Credential) :=
  checked (validateListQuery query) (on_store (store_List query)).

(** [Manager.Get] *)
Definition Get (id : string) : M (S * W) credential_error Credential :=
  checked (validateCredentialID id)
    (record ← on_store (store_Get id); mret (rec_Credential record)).

(** [Manager.Rotate] *)
Definition Rotate (id actor : string) (now then_ : Z) : M (S * W) credential_error IssuedCredential :=
  checked (validateMutation id actor)
    (secret ← randomComponent 32;
     let apiKey := api_key id secret in
     credential ← on_store (store_Rotate id (key_digest apiKey) actor now then_);
     mret (mkIssuedCredential credential apiKey)).

(** [Manager.SetState] *)
Definition SetState (id state actor : string) (now then_ : Z) : M (S * W) credential_error Credential :=
  checked (validateMutation id actor)
    (checked (fail_if (negb (valid_state state)) "unsupported client credential state %q")
       (on_store (store_SetState id state actor now then_))).

Definition with_audit_limit (limit : Z) (query : AuditQuery) : AuditQuery :=
  mkAuditQuery (aq_TenantID query) (aq_CredentialID query) (aq_Action query) limit.

(** [Manager.ListAudit] *)
Definition ListAudit (query : AuditQuery) : M (S * W) credential_error (list AuditEvent) :=
  let query := if aq_Limit query =? 0 then with_audit_limit defaultListLimit query else query in
  checked (first_error
      [fail_if ((aq_Limit query <? 1) || (maxListLimit <? aq_Limit query))
         "audit limit must be between 1 and %d";
       if String.eqb (aq_CredentialID query) "" then None else validateCredentialID (aq_CredentialID query);
       fail_if ((maxIdentityBytes <? zlen (aq_TenantID query)) || (64 <? zlen (aq_Action query)))
         "client credential audit filter is too long"])
    (on_store (store_ListAudit query)).

(** [Manager.AuthenticateBearer]; every failure is [ErrInvalidCredentials]. *)
Definition AuthenticateBearer (apiKey : string) (now : Z) : M (S * W) string Principal :=
  fun '(s, w) =>
    match credentialIDFromAPIKey apiKey with
    | None => (inl ErrInvalidCredentials, (s, w))
    | Some id =>
        let '(r, s) := store_Get id s in
        match r with
        | inl _ => (inl ErrInvalidCredentials, (s, w))
        | inr record =>
            let c := rec_Credential record in
            if negb (bool_decide (key_digest apiKey = rec_SecretSHA256 record)) ||
               negb (String.eqb (cr_State c) StateActive) ||
               match cr_ExpiresAt c with Some t => negb (now <? t) | None => false end
            then (inl ErrInvalidCredentials, (s, w))
            else (inr (principal_of c), (s, w))
        end
    end.
End Manager.

(** ** The authenticator of requests *)
Definition HasRole (principal : Principal) (role : string) : bool := bool_decide (role ∈ pr_Roles principal).

(** [strings.Fields] of an ASCII text: [word] is the field being read, in
    reverse. *)
Fixpoint fields_from (word l : list ascii) : list (list ascii) :=
  match l with
  | [] => match word with [] => [] | _ => [reverse word] end
  | c :: l =>
      if ascii_space c then match word with [] => fields_from [] l | _ => reverse word :: fields_from [] l end
      else fields_from (c :: word) l
  end.

(** [strings.Fields] beyond ASCII. *)
Class UnicodeFields := { unicode_Fields : string -> list string }.

Definition Fields `{UnicodeFields} (s : string) : list string :=
  if existsb non_ascii (bytes s) then unicode_Fields s else of_bytes <$> fields_from [] (bytes s).

(** [strings.EqualFold(s, "Bearer")]: no letter of the name has another case
    beyond ASCII. *)
Definition is_bearer (s : string) : bool := bool_decide (lower_byte <$> bytes s = bytes "bearer").

(** [bearerToken]: [values] are the [Authorization] headers of the request. *)
Definition bearerToken `{UnicodeFields} (values : list string) : string + string :=
  match values with
  | [] => inl ErrMissingCredentials
  | [value] =>
      match Fields value with
      | [scheme; token] =>
          if negb (is_bearer scheme) || String.eqb token "" then inl ErrInvalidCredentials else inr token
      | _ => inl ErrInvalidCredentials
      end
  | _ => inl ErrInvalidCredentials
  end.

(** [Authenticator.Authenticate] with a manager. *)
Definition Authenticate `{UnicodeFields} {S W} `{Store S} (requiredRole : string) (values : list string) (now : Z)
  : M (S * W) string Principal :=
  match bearerToken values with
  | inl err => throw err
  | inr apiKey =>
      principal ← AuthenticateBearer apiKey now;
      if negb (String.eqb requiredRole "") && negb (HasRole principal requiredRole)
      then throw ErrInvalidCredentials else mret principal
  end.

(** ** The store in SQLite ([sqlite/store.go])

    The rows of the two tables, the audit events oldest first.  The next answer of
    the database is taken from [db_faults]: an error of a statement or of the
    commit rolls the transaction back.  The JSON columns hold the lists they
    encode. *)
Record database := mkDatabase {
  db_rows : gmap string CredentialRecord;
  db_audit : list AuditEvent;
  db_nextEvent : Z;
  db_faults : list (option string);
}.

Definition next_fault (db : database) : option string * database :=
  match db_faults db with
  | [] => (None, db)
  | f :: faults => (f, mkDatabase (db_rows db) (db_audit db) (db_nextEvent db) faults)
  end.

(** The writes of a transaction that commits: a row and its audit event
    ([insertAudit]). *)
Definition commit (id : string) (row : CredentialRecord) (action actor : string) (now : Z)
    (details : list (string * string)) (db : database) : database :=
  mkDatabase (<[id := row]> (db_rows db))
    (db_audit db ++
       [mkAuditEvent (db_nextEvent db) id (cr_TenantID (rec_Credential row)) action now actor details])
    (db_nextEvent db + 1) (db_faults db).

(** [Store.Create].  Roles and attribution are columns of JSON; what they hold
    is read back as it was, as credentials come from JSON documents and are
    UTF-8 already. *)
Definition sqlite_Create (r : CredentialRecord) (actor : string) (now : Z) (db : database)
  : option credential_error * database :=
  let '(fault, db) := next_fault db in
  let c := rec_Credential r in
  match fault with
  | Some err => (Some (ErrStore err), db)
  | None =>
      match db_rows db !! cr_ID c with
      | Some _ => (Some ErrConflict, db)
      | None =>
          (None, commit (cr_ID c) r "created" actor now
                   [("name", cr_Name c); ("principal_id", cr_PrincipalID c); ("state", cr_State c)]%string db)
      end
  end.

Definition sqlite_Get (id : string) (db : database) : (credential_error + CredentialRecord) * database :=
  let '(fault, db) := next_fault db in
  match fault with
  | Some err => (inl (ErrStore err), db)
  | None => (match db_rows db !! id with Some r => inr r | None => inl ErrNotFound end, db)
  end.

(** [Store.mutate]: the row and the event of a mutation that [change] allows. *)
Definition sqlite_mutate (id actor : string) (then_ : Z)
    (change : CredentialRecord -> credential_error + (CredentialRecord * string * list (string * string)))
    (db : database) : (credential_error + Credential) * database :=
  let '(fault, db) := next_fault db in
  match fault with
  | Some err => (inl (ErrStore err), db)
  | None =>
      match db_rows db !! id with
      | None => (inl ErrNotFound, db)
      | Some current =>
          match change current with
          | inl err => (inl err, db)
          | inr (row, action, details) =>
              (inr (rec_Credential row), commit id row action actor then_ details db)
          end
      end
  end.

Definition sqlite_Rotate (id : string) (digest : list Z) (actor : string) (now then_ : Z)
  : database -> (credential_error + Credential) * database :=
  sqlite_mutate id actor then_ (fun current =>
    if String.eqb (cr_State (rec_Credential current)) StateRevoked then inl ErrRevoked
    else inr (rotated digest actor now current, "rotated"%string, [])).

(** A state that is none of the three violates the check of the column. *)
Definition sqlite_SetState (id state actor : string) (now then_ : Z)
  : database -> (credential_error + Credential) * database :=
  sqlite_mutate id actor then_ (fun current =>
    let previous := cr_State (rec_Credential current) in
    if String.eqb previous StateRevoked && negb (String.eqb state StateRevoked) then inl ErrRevoked
    else if negb (valid_state state) then inl (ErrStore "update SQLite client credential state: %w")
    else
      let action := if String.eqb state StateActive then "enabled"%string else state in
      inr (in_state state actor now current, action, [("previous_state", previous); ("state", state)]%string)).

(** The column equals the filter, when there is one. *)
Definition filtered (filter value : string) : bool := String.eqb filter "" || String.eqb value filter.

(** Newest first, the identifier breaking ties. *)
Definition newer (x y : Credential) : bool :=
  lex_less (fun x y => cr_CreatedAt y <? cr_CreatedAt x) (fun x y => String.ltb (cr_ID y) (cr_ID x)) x y.

Definition sqlite_List (query : ListQuery) (db : database) : (credential_error + list Credential) * database :=
  let '(fault, db) := next_fault db in
  match fault with
  | Some err => (inl (ErrStore err), db)
  | None =>
      let limit := if lq_Limit query =? 0 then 100 else lq_Limit query in
      let matches c :=
        filtered (lq_TenantID query) (cr_TenantID c) && filtered (lq_PrincipalID query) (cr_PrincipalID c) &&
        filtered (lq_State query) (cr_State c) in
      let rows := (fun kv => rec_Credential kv.2) <$> map_to_list (db_rows db) in
      (inr (take (Z.to_nat limit) (stable_sort newer (List.filter matches rows))), db)
  end.

Definition sqlite_ListAudit (query : AuditQuery) (db : database)
  : (credential_error + list AuditEvent) * database :=
  let '(fault, db) := next_fault db in
  match fault with
  | Some err => (inl (ErrStore err), db)
  | None =>
      let limit := if aq_Limit query =? 0 then 100 else aq_Limit query in
      let matches e :=
        filtered (aq_TenantID query) (ae_TenantID e) && filtered (aq_CredentialID query) (ae_CredentialID e) &&
        filtered (aq_Action query) (ae_Action e) in
      (inr (take (Z.to_nat limit) (reverse (List.filter matches (db_audit db)))), db)
  end.

#[export] Instance SqliteStore : Store database := {|
  store_Create := sqlite_Create;
  store_Get := sqlite_Get;
  store_List := sqlite_List;
  store_Rotate := sqlite_Rotate;
  store_SetState := sqlite_SetState;
  store_ListAudit := sqlite_ListAudit;
|}.
