(* ===== verification/CredentialTheorems.v ===== *)
(** * Theorems about gateway-issued API keys

    The abstract specification is a keyring: for every credential its current key,
    state, expiry and principal, with no digests and no store.  Every run of the
    manager over a lawful store follows it, and a request is let in exactly when
    the keyring grants its key. *)

From stdpp Require Import base gmap list strings.
From Stdlib Require Import Ascii ZArith Lia.
From S2P Require Import Prelude GoStrings Sha256 Json Identity ClientCredentials.

Local Open Scope Z_scope.
Local Open Scope go_scope.

(** ** Keys *)

Definition dotless (l : list ascii) : Prop := Forall (fun c => Ascii.eqb c "." = false) l.

Lemma split_dots_cons a l : dotless a -> split_dots (a ++ "."%char :: l) = a :: split_dots l.
Proof.
  intros Ha. induction Ha as [|c a Hc _ IH]; cbn [app split_dots].
  - rewrite Ascii.eqb_refl. destruct (split_dots l) as [|part parts] eqn:E; [|done].
    destruct l as [|c l]; [done|]. cbn in E. destruct (split_dots l); [done|by destruct (Ascii.eqb c ".")].
  - by rewrite IH, Hc.
Qed.

Lemma split_dots_last a : dotless a -> split_dots a = [a].
Proof. intros Ha. induction Ha as [|c a Hc _ IH]; [done|]. cbn [split_dots]. by rewrite IH, Hc. Qed.

Lemma split_dots_dotless l : Forall dotless (split_dots l).
Proof.
  induction l as [|c l IH]; cbn [split_dots]; [by repeat constructor|].
  destruct (split_dots l) as [|part parts]; [by repeat constructor|].
  apply Forall_cons in IH as [H1 H2]. destruct (Ascii.eqb c ".") eqn:Ec.
  - constructor; [constructor|]. by constructor.
  - constructor; [|done]. by constructor.
Qed.

Lemma encoded_in_alphabet l : Forall (fun c => c ∈ alphabet) (EncodeToString l).
Proof.
  assert (Hs : forall z, encode_sextet z ∈ alphabet).
  { intros z. unfold encode_sextet. apply list_elem_of_In, nth_In.
    assert (0 <= Z.land z 63 < 64) by (change 63 with (Z.ones 6); rewrite Z.land_ones; [apply Z.mod_pos_bound|]; lia).
    change (length alphabet) with 64%nat. lia. }
  induction l as [|a|a b|a b c l IH] using triple_ind; cbn [EncodeToString];
    repeat (apply Forall_cons; split; [apply Hs|]); done.
Qed.

(** The characters of the alphabet are those of an identifier, dots apart. *)
Lemma alphabet_identifies c :
  c ∈ alphabet -> letter_or_digit_byte c || byte_among "._:@/-" c = true /\ Ascii.eqb c "." = false.
Proof.
  enough (Hc : forallb (fun c => (letter_or_digit_byte c || byte_among "._:@/-" c) && negb (Ascii.eqb c "."))
                 alphabet = true).
  { intros Hin. rewrite forallb_forall in Hc. specialize (Hc c (proj1 (list_elem_of_In _ _) Hin)).
    by apply andb_true_iff in Hc as [-> ?%negb_true_iff]. }
  vm_compute. reflexivity.
Qed.

Lemma encoded_dotless l : dotless (EncodeToString l).
Proof. eapply Forall_impl; [apply encoded_in_alphabet|]. intros c Hc. by apply alphabet_identifies. Qed.

(** A random identifier of 18 bytes is one that the checks accept. *)
Lemma generated_id_valid raw :
  length raw = 18%nat ->
  validateCredentialID ("cc_" +:+ of_bytes (EncodeToString raw)) = None /\
  dotless (bytes ("cc_" +:+ of_bytes (EncodeToString raw))).
Proof.
  intros Hl. assert (Hn : Z.of_nat (length (EncodeToString raw)) = 24)
    by (rewrite length_EncodeToString, Hl; reflexivity).
  assert (Hb : bytes ("cc_" +:+ of_bytes (EncodeToString raw)) = bytes "cc_" ++ EncodeToString raw).
  { by rewrite bytes_app, bytes_of_bytes. }
  split; [|rewrite Hb; apply Forall_app; split; [repeat constructor|apply encoded_dotless]].
  unfold validateCredentialID. apply fail_if_None.
  assert (Hz : zlen ("cc_" +:+ of_bytes (EncodeToString raw)) = 27).
  { unfold zlen. rewrite <- length_bytes, Hb, length_app. change (length (bytes "cc_")) with 3%nat. lia. }
  unfold HasPrefix, identifier_matches. rewrite Hb.
  rewrite (bool_decide_eq_true_2 _ (eq_refl : take (len "cc_") (bytes "cc_" ++ EncodeToString raw) = bytes "cc_")).
  rewrite Hz. cbn -[letter_or_digit_byte byte_among].
  assert (forallb (fun c => letter_or_digit_byte c || byte_among "._:@/-" c) (EncodeToString raw) = true) as ->.
  { apply forallb_forall. intros c Hc. apply alphabet_identifies.
    pose proof (encoded_in_alphabet raw) as HF. rewrite Forall_forall in HF. by apply HF, list_elem_of_In. }
  reflexivity.
Qed.

(** The key of a valid identifier and of a secret of 32 bytes names it. *)
Lemma api_key_parses id raw :
  validateCredentialID id = None -> dotless (bytes id) -> length raw = 32%nat ->
  credentialIDFromAPIKey (api_key id (of_bytes (EncodeToString raw))) = Some id.
Proof.
  intros Hv Hd Hl. unfold credentialIDFromAPIKey, api_key.
  assert (bytes ("llmgw_v1." +:+ id +:+ "." +:+ of_bytes (EncodeToString raw)) =
    bytes "llmgw_v1" ++ "."%char :: bytes id ++ "."%char :: EncodeToString raw) as ->.
  { rewrite !bytes_app, bytes_of_bytes. reflexivity. }
  rewrite !split_dots_cons by (done || by repeat constructor).
  rewrite split_dots_last by apply encoded_dotless.
  rewrite bool_decide_eq_true_2 by done. rewrite bool_decide_eq_false_2.
  - cbn [negb orb]. rewrite of_bytes_bytes, Hv, DecodeString_EncodeToString, Hl. reflexivity.
  - intros E. pose proof (length_EncodeToString raw) as Hlen. rewrite E, Hl in Hlen. done.
Qed.

Lemma parsed_id apiKey id :
  credentialIDFromAPIKey apiKey = Some id -> validateCredentialID id = None /\ dotless (bytes id).
Proof.
  unfold credentialIDFromAPIKey. pose proof (split_dots_dotless (bytes apiKey)) as Hd.
  destruct (split_dots (bytes apiKey)) as [|version [|i [|secret [|]]]]; try done.
  destruct (_ || _); [done|]. destruct (validateCredentialID (of_bytes i)) eqn:Hv; [done|].
  destruct (DecodeString secret) as [decoded|]; [|done]. destruct (Nat.eqb _ _); [|done].
  intros [= <-]. split; [done|]. rewrite bytes_of_bytes. by apply Forall_cons in Hd as [_ [? _]%Forall_cons].
Qed.

(** ** The keyring *)
Record grant := mkGrant {
  gr_APIKey : string;
  gr_State : string;
  gr_ExpiresAt : option Z;
  gr_Principal : Principal;
}.

Notation keyring := (gmap string grant).

Definition issued_grant (i : IssuedCredential) : grant :=
  mkGrant (is_APIKey i) StateActive (cr_ExpiresAt (is_Credential i)) (principal_of (is_Credential i)).
Definition with_key (apiKey : string) (gr : grant) : grant :=
  mkGrant apiKey (gr_State gr) (gr_ExpiresAt gr) (gr_Principal gr).
Definition with_state (state : string) (gr : grant) : grant :=
  mkGrant (gr_APIKey gr) state (gr_ExpiresAt gr) (gr_Principal gr).

(** The keyring lets a key in. *)
Definition grants (g : keyring) (apiKey : string) (now : Z) (p : Principal) : Prop :=
  exists id gr, g !! id = Some gr /\ gr_APIKey gr = apiKey /\ gr_State gr = StateActive /\
    (forall t, gr_ExpiresAt gr = Some t -> now < t) /\ gr_Principal gr = p.

(** No key but the current one of a credential has its digest. *)
Definition no_collision (g : keyring) (apiKey : string) : Prop :=
  map_Forall (fun _ gr => key_digest apiKey = key_digest (gr_APIKey gr) -> apiKey = gr_APIKey gr) g.

#[export] Instance no_collision_dec g apiKey : Decision (no_collision g apiKey).
Proof. unfold no_collision. apply _. Defined.

(** ** Runs of the manager *)

(** The calls of the manager; the numbers are readings of the clock. *)
Inductive credential_call :=
  | CallCreate (input : CreateInput) (actor : string) (now1 now2 now3 : Z)
  | CallList (query : ListQuery)
  | CallGet (id : string)
  | CallRotate (id actor : string) (now then_ : Z)
  | CallSetState (id state actor : string) (now then_ : Z)
  | CallListAudit (query : AuditQuery)
  | CallAuthenticate (requiredRole : string) (values : list string) (now : Z).

Section Runs.
Context `{UnicodeTables} `{UnicodeFields} {S W : Type} `{Store S}.
Context (rand_Read : nat -> W -> (string + list Z) * W).
Context (visit : gmap string string -> list (string * string)).
Context (inputPolicy : option (CreateInput -> string + CreateInput)).

(** A call, with what its caller learns entered into the keyring. *)
Definition run_call (call : credential_call) (xg : (S * W) * keyring) : (S * W) * keyring :=
  let '(x, g) := xg in
  match call with
  | CallCreate input actor now1 now2 now3 =>
      match Create rand_Read visit inputPolicy input actor now1 now2 now3 x with
      | (inr issued, x) => (x, <[cr_ID (is_Credential issued) := issued_grant issued]> g)
      | (inl _, x) => (x, g)
      end
  | CallList query => ((List query x).2, g)
  | CallGet id => ((Get id x).2, g)
  | CallRotate id actor now then_ =>
      match Rotate rand_Read id actor now then_ x with
      | (inr issued, x) => (x, alter (with_key (is_APIKey issued)) id g)
      | (inl _, x) => (x, g)
      end
  | CallSetState id state actor now then_ =>
      match SetState id state actor now then_ x with
      | (inr _, x) => (x, alter (with_state state) id g)
      | (inl _, x) => (x, g)
      end
  | CallListAudit query => ((ListAudit query x).2, g)
  | CallAuthenticate role values now => ((Authenticate role values now x).2, g)
  end.

Definition run_credentials (calls : list credential_call) (xg : (S * W) * keyring) : (S * W) * keyring :=
  foldl (fun xg call => run_call call xg) xg calls.
End Runs.

(** Drawing random bytes leaves the store alone. *)
Lemma randomComponent_store {S W} (rand_Read : nat -> W -> (string + list Z) * W) n (s : S) w res s' w' :
  randomComponent rand_Read n (s, w) = (res, (s', w')) -> s' = s.
Proof. unfold randomComponent. by destruct (rand_Read n w) as [[]]; intros [= <- <- <-]. Qed.

(** ** The manager follows the keyring *)
Definition agrees (id : string) (r : CredentialRecord) (gr : grant) : Prop :=
  cr_ID (rec_Credential r) = id /\ rec_SecretSHA256 r = key_digest (gr_APIKey gr) /\
  cr_State (rec_Credential r) = gr_State gr /\ cr_ExpiresAt (rec_Credential r) = gr_ExpiresAt gr /\
  principal_of (rec_Credential r) = gr_Principal gr /\ credentialIDFromAPIKey (gr_APIKey gr) = Some id.

Definition follows (T : gmap string CredentialRecord) (g : keyring) : Prop :=
  forall id, option_Forall2 (agrees id) (T !! id) (g !! id).

Lemma follows_empty : follows ∅ ∅.
Proof. intros id. constructor. Qed.

Lemma follows_insert T g id r gr : follows T g -> agrees id r gr -> follows (<[id := r]> T) (<[id := gr]> g).
Proof.
  intros Hf Ha i. destruct (decide (i = id)) as [->|Hne].
  - rewrite !lookup_insert_eq. by constructor.
  - rewrite !lookup_insert_ne by done. apply Hf.
Qed.

(** A row and its grant change together. *)
Lemma follows_alter T g id r f h :
  follows T g -> T !! id = Some r -> (forall gr, agrees id r gr -> agrees id (f r) (h gr)) ->
  follows (<[id := f r]> T) (alter h id g).
Proof.
  intros Hf Hr Hfh i. destruct (decide (i = id)) as [->|Hne].
  - rewrite lookup_insert_eq, lookup_alter_eq. specialize (Hf id). rewrite Hr in Hf.
    inversion_clear Hf. cbn. constructor. auto.
  - rewrite lookup_insert_ne, lookup_alter_ne by done. apply Hf.
Qed.

Section Refinement.
Context `{UnicodeTables} `{UnicodeFields} {S W : Type} `{Store S}.
Context (table : S -> gmap string CredentialRecord) (available : S -> Prop) {HL : StoreLaws S table available}.
Context (rand_Read : nat -> W -> (string + list Z) * W).
Context (visit : gmap string string -> list (string * string)).
Context (inputPolicy : option (CreateInput -> string + CreateInput)).

(** [rand.Read] fills the whole buffer when it reports no error. *)
Context (Hrand : forall n w raw w', rand_Read n w = (inr raw, w') -> length raw = n).

Local Notation run_call := (run_call (S := S) (W := W) rand_Read visit inputPolicy).
Local Notation run := (run_credentials (S := S) (W := W) rand_Read visit inputPolicy).

Lemma randomComponent_inr n s w text s' w' :
  randomComponent (S := S) rand_Read n (s, w) = (inr text, (s', w')) ->
  s' = s /\ exists raw, length raw = n /\ text = of_bytes (EncodeToString raw).
Proof.
  unfold randomComponent. destruct (rand_Read n w) as [[err|raw] w1] eqn:E; [done|].
  intros [= <- <- <-]. split; [done|]. exists (val_byte <$> raw). split; [|done].
  rewrite length_fmap. by eapply Hrand.
Qed.

#[local] Arguments randomComponent : simpl never.
#[local] Arguments key_digest : simpl never.
#[local] Arguments api_key : simpl never.
#[local] Arguments new_credential : simpl never.
#[local] Arguments store_create : simpl never.

(** What the mutations do to the table. *)
Lemma Create_table input actor n1 n2 n3 s w :
  let '(res, x) := Create rand_Read visit inputPolicy input actor n1 n2 n3 (s, w) in
  match res with
  | inr issued =>
      exists id, credentialIDFromAPIKey (is_APIKey issued) = Some id /\ table s !! id = None /\
        cr_ID (is_Credential issued) = id /\ cr_State (is_Credential issued) = StateActive /\
        table x.1 = <[id := mkCredentialRecord (is_Credential issued) (key_digest (is_APIKey issued))]> (table s)
  | inl _ => table x.1 = table s
  end.
Proof.
  unfold Create, checked.
  destruct (match inputPolicy with Some policy => _ | None => _ end) as [err|input']; [done|].
  destruct (validateCreateInput _ _ _ _); [done|]. unfold mbind, M_bind. cbn.
  destruct (randomComponent rand_Read 18 (s, w)) as [[err|i] [s1 w1]] eqn:E1.
  { by apply randomComponent_store in E1 as ->. }
  apply randomComponent_inr in E1 as [-> (raw1 & Hl1 & ->)].
  destruct (randomComponent rand_Read 32 (s, w1)) as [[err|secret] [s2 w2]] eqn:E2.
  { by apply randomComponent_store in E2 as ->. }
  apply randomComponent_inr in E2 as [-> (raw2 & Hl2 & ->)].
  destruct (generated_id_valid raw1 Hl1) as [Hv Hd].
  set (id := "cc_" +:+ _) in *. set (r := mkCredentialRecord _ _).
  unfold store_create. pose proof (law_create r actor n3 s) as HC.
  destruct (store_Create r actor n3 s) as [[err|] s3]; [done|]. destruct HC as [HC1 HC2].
  exists id. cbn in *. by rewrite api_key_parses.
Qed.

Lemma Rotate_table id actor now then_ s w :
  let '(res, x) := Rotate rand_Read id actor now then_ (s, w) in
  match res with
  | inr issued =>
      exists r raw, table s !! id = Some r /\ cr_State (rec_Credential r) <> StateRevoked /\ length raw = 32%nat /\
        is_APIKey issued = api_key id (of_bytes (EncodeToString raw)) /\
        is_Credential issued = rec_Credential (rotated (key_digest (is_APIKey issued)) actor now r) /\
        table x.1 = <[id := rotated (key_digest (is_APIKey issued)) actor now r]> (table s)
  | inl _ => table x.1 = table s
  end.
Proof.
  unfold Rotate, checked. destruct (validateMutation _ _); [done|]. unfold mbind, M_bind. cbn.
  destruct (randomComponent rand_Read 32 (s, w)) as [[err|secret] [s1 w1]] eqn:E1.
  { by apply randomComponent_store in E1 as ->. }
  apply randomComponent_inr in E1 as [-> (raw & Hl & ->)]. unfold on_store.
  set (apiKey := api_key _ _). pose proof (law_rotate id (key_digest apiKey) actor now then_ s) as HR.
  destruct (store_Rotate _ _ _ _ _ s) as [[err|c] s2]; [done|].
  destruct HR as (r & ? & ? & ? & ->). exists r, raw. by rewrite Hl.
Qed.

Lemma SetState_table id state actor now then_ s w :
  let '(res, x) := SetState (W := W) id state actor now then_ (s, w) in
  match res with
  | inr c =>
      exists r, table s !! id = Some r /\ (cr_State (rec_Credential r) = StateRevoked -> state = StateRevoked) /\
        c = rec_Credential (in_state state actor now r) /\ table x.1 = <[id := in_state state actor now r]> (table s)
  | inl _ => table x.1 = table s
  end.
Proof.
  unfold SetState, checked. destruct (validateMutation _ _); [done|]. destruct (fail_if _ _); [done|].
  unfold on_store. pose proof (law_state id state actor now then_ s) as HR.
  destruct (store_SetState _ _ _ _ _ s) as [[err|c] s1]; [done|].
  destruct HR as (r & ? & ? & ? & ->). exists r. done.
Qed.

Lemma checked_table {A} e (m : M (S * W) credential_error A) x :
  table (m x).2.1 = table x.1 -> table (checked e m x).2.1 = table x.1.
Proof. by destruct e. Qed.

Lemma AuthenticateBearer_table apiKey now (x : S * W) : table (AuthenticateBearer apiKey now x).2.1 = table x.1.
Proof.
  destruct x as [s w]. unfold AuthenticateBearer. destruct (credentialIDFromAPIKey apiKey) as [id|]; [|done].
  pose proof (law_get id s) as HG. destruct (store_Get id s) as [[err|r] s']; [by destruct HG|].
  destruct HG as [HG _]. by destruct (_ || _).
Qed.

Lemma Authenticate_table role values now (x : S * W) : table (Authenticate role values now x).2.1 = table x.1.
Proof.
  unfold Authenticate. destruct (bearerToken values) as [err|apiKey]; [done|]. unfold mbind, M_bind.
  pose proof (AuthenticateBearer_table apiKey now x) as HA.
  destruct (AuthenticateBearer apiKey now x) as [[err|p] x']; [done|]. by destruct (_ && _).
Qed.

(** A read leaves the table alone. *)
Lemma reads_table (x : S * W) :
  (forall query, table (List query x).2.1 = table x.1) /\ (forall id, table (Get id x).2.1 = table x.1) /\
  (forall query, table (ListAudit query x).2.1 = table x.1).
Proof.
  destruct x as [s w]. split_and!; intros q; apply checked_table.
  - unfold on_store. pose proof (law_list q s) as HL1. by destruct (store_List q s).
  - unfold mbind, M_bind, on_store. pose proof (law_get q s) as HG.
    destruct (store_Get q s) as [[err|r] s']; by destruct HG.
  - unfold on_store. match goal with |- context [store_ListAudit ?q' s] => pose proof (law_audit q' s) as HA; by destruct (store_ListAudit q' s) end.
Qed.

Lemma run_call_follows call s w g :
  follows (table s) g ->
  let '((s', _), g') := run_call call ((s, w), g) in follows (table s') g'.
Proof.
  intros Hf. destruct (reads_table (s, w)) as (HRl & HRg & HRa). unfold CredentialTheorems.run_call.
  destruct call as [input actor n1 n2 n3|query|id|id actor now then_|id state actor now then_|query|role values now].
  - pose proof (Create_table input actor n1 n2 n3 s w) as HC.
    destruct (Create _ _ _ _ _ _ _ _ _) as [[err|issued] [s' w']]; cbn in HC; [by rewrite HC|].
    destruct HC as (id & Hid & _ & HI & HS & ->). rewrite HI. apply follows_insert; [done|].
    by split_and!.
  - specialize (HRl query). destruct (List query (s, w)) as [r [s' w']]. cbn in *. by rewrite HRl.
  - specialize (HRg id). destruct (Get id (s, w)) as [r [s' w']]. cbn in *. by rewrite HRg.
  - pose proof (Rotate_table id actor now then_ s w) as HR.
    destruct (Rotate _ _ _ _ _ _) as [[err|issued] [s' w']]; cbn in HR; [by rewrite HR|].
    destruct HR as (r & raw & Hr & _ & Hl & Hk & _ & ->). apply follows_alter; [done..|].
    intros gr (A1 & A2 & A3 & A4 & A5 & A6). split_and!; try done. cbn. rewrite Hk.
    apply parsed_id in A6 as [Hv Hd]. by apply api_key_parses.
  - pose proof (SetState_table id state actor now then_ s w) as HR.
    destruct (SetState _ _ _ _ _ _) as [[err|c] [s' w']]; cbn in HR; [by rewrite HR|].
    destruct HR as (r & Hr & _ & _ & ->). apply follows_alter; [done..|].
    intros gr (A1 & A2 & A3 & A4 & A5 & A6). by split_and!.
  - specialize (HRa query). destruct (ListAudit query (s, w)) as [r [s' w']]. cbn in *. by rewrite HRa.
  - pose proof (Authenticate_table role values now (s, w)) as HA.
    destruct (Authenticate role values now (s, w)) as [r [s' w']]. cbn in *. by rewrite HA.
Qed.

Lemma run_follows calls x g : follows (table x.1) g -> follows (table (run calls (x, g)).1.1) (run calls (x, g)).2.
Proof.
  revert x g. induction calls as [|call calls IH]; intros [s w] g Hf; [done|].
  unfold run_credentials in *. cbn [foldl].
  pose proof (run_call_follows call s w g Hf) as Hc. destruct (run_call call (s, w, g)) as [[s' w'] g'].
  by apply (IH (s', w')).
Qed.

(** A revoked row stays. *)
Definition revoked_row (id : string) (T : gmap string CredentialRecord) : Prop :=
  exists r, T !! id = Some r /\ cr_State (rec_Credential r) = StateRevoked.

Lemma revoked_row_insert id i r T :
  revoked_row id T -> (i = id -> cr_State (rec_Credential r) = StateRevoked) -> revoked_row id (<[i := r]> T).
Proof.
  intros (r0 & Hr & Hs) Hi. destruct (decide (i = id)) as [->|Hne].
  - exists r. rewrite lookup_insert_eq. auto.
  - exists r0. by rewrite lookup_insert_ne.
Qed.

Lemma run_call_revoked call x g id : revoked_row id (table x.1) -> revoked_row id (table (run_call call (x, g)).1.1).
Proof.
  destruct x as [s w]. intros Hid. destruct (reads_table (s, w)) as (HRl & HRg & HRa).
  unfold CredentialTheorems.run_call.
  destruct call as [input actor n1 n2 n3|query|i|i actor now then_|i state actor now then_|query|role values now];
    cbn [fst]; rewrite ?HRl, ?HRg, ?HRa, ?Authenticate_table; try done.
  - pose proof (Create_table input actor n1 n2 n3 s w) as HC.
    destruct (Create _ _ _ _ _ _ _ _ _) as [[err|issued] [s' w']]; cbn in *; [by rewrite HC|].
    destruct HC as (i & _ & Hi & _ & _ & ->). apply revoked_row_insert; [done|].
    intros ->. destruct Hid as (r & Hr & _). congruence.
  - pose proof (Rotate_table i actor now then_ s w) as HC.
    destruct (Rotate _ _ _ _ _ _) as [[err|issued] [s' w']]; cbn in *; [by rewrite HC|].
    destruct HC as (r & raw & Hr & Hne & _ & _ & _ & ->). apply revoked_row_insert; [done|].
    intros ->. destruct Hid as (r' & Hr' & ?). congruence.
  - pose proof (SetState_table i state actor now then_ s w) as HC.
    destruct (SetState _ _ _ _ _ _) as [[err|c] [s' w']]; cbn in *; [by rewrite HC|].
    destruct HC as (r & Hr & Him & _ & ->). apply revoked_row_insert; [done|].
    intros ->. destruct Hid as (r' & Hr' & ?). apply Him. congruence.
Qed.

Lemma run_revoked calls x g id : revoked_row id (table x.1) -> revoked_row id (table (run calls (x, g)).1.1).
Proof.
  revert x g. induction calls as [|call calls IH]; intros x g Hid; [done|].
  unfold run_credentials in *. cbn [foldl]. apply (run_call_revoked call x g) in Hid.
  destruct (run_call call (x, g)) as [x' g']. by apply IH.
Qed.

Lemma AuthenticateBearer_err apiKey now (x : S * W) err :
  (AuthenticateBearer apiKey now x).1 = inl err -> err = ErrInvalidCredentials.
Proof.
  destruct x as [s w]. unfold AuthenticateBearer. destruct (credentialIDFromAPIKey apiKey) as [id|]; [|by intros [= <-]].
  destruct (store_Get id s) as [[e|r] s']; [by intros [= <-]|]. destruct (_ || _); by intros [= <-].
Qed.

(** What the manager answers a key. *)
Lemma AuthenticateBearer_spec s (w : W) g apiKey now p :
  follows (table s) g -> no_collision g apiKey ->
  ((AuthenticateBearer (W := W) apiKey now (s, w)).1 = inr p -> grants g apiKey now p) /\
  (available s -> grants g apiKey now p -> (AuthenticateBearer apiKey now (s, w)).1 = inr p).
Proof.
  intros Hf Hc. unfold AuthenticateBearer. split.
  - destruct (credentialIDFromAPIKey apiKey) as [id|] eqn:Hid; [|done].
    pose proof (law_get id s) as HG. destruct (store_Get id s) as [[err|r] s']; [done|]. destruct HG as [_ Hr].
    destruct (_ || _) eqn:Eb; [done|]. intros [= <-]. specialize (Hf id). rewrite Hr in Hf.
    inversion Hf as [? gr (A1 & A2 & A3 & A4 & A5 & A6) Hx Hg|]; subst. symmetry in Hg.
    apply orb_false_iff in Eb as [[Eb1%negb_false_iff%bool_decide_eq_true Eb2%negb_false_iff%String.eqb_eq]%orb_false_iff Eb3].
    exists (cr_ID (rec_Credential r)), gr. split_and!; try done; try congruence.
    + symmetry. eapply Hc; [done|]. congruence.
    + intros t Ht. rewrite A4, Ht in Eb3. by apply negb_false_iff, Z.ltb_lt in Eb3.
  - intros Hav (id & gr & Hg & <- & Hs & Hx & <-). pose proof (Hf id) as Hi. rewrite Hg in Hi.
    inversion Hi as [r ? (A1 & A2 & A3 & A4 & A5 & A6) Hr|]; subst. symmetry in Hr. rewrite A6.
    pose proof (law_get (cr_ID (rec_Credential r)) s) as HG.
    destruct (store_Get _ s) as [[err|r'] s']; destruct HG as [_ HG]; [rewrite HG in Hr by done; done|].
    assert (r' = r) as -> by congruence. rewrite bool_decide_eq_true_2 by congruence.
    rewrite A3, Hs, A4. cbn. destruct (gr_ExpiresAt gr) as [t|] eqn:Ht; [|by rewrite A5].
    rewrite (proj2 (Z.ltb_lt _ _)) by auto. by rewrite A5.
Qed.

(** C36: API keys open exactly what was issued. Whatever calls are made on a manager
    that started with an empty store, a request with a bearer key is authenticated as
    a principal if the keyring grants the key (it is the current key of an active,
    unexpired credential of that principal, which has the required role), provided
    the store answers, and only then, provided no other key has its SHA-256 digest;
    every refusal is the same error. *)
Theorem keys_open_what_was_issued calls s0 w0 role values apiKey now :
  table s0 = ∅ -> bearerToken values = inr apiKey ->
  let xg := run calls ((s0, w0), ∅) in
  no_collision xg.2 apiKey ->
  let answer := (Authenticate role values now xg.1).1 in
  (forall p, answer = inr p -> grants xg.2 apiKey now p /\ (role = ""%string \/ role ∈ pr_Roles p)) /\
  (available xg.1.1 -> forall p, grants xg.2 apiKey now p -> role = ""%string \/ role ∈ pr_Roles p ->
     answer = inr p) /\
  (forall err, answer = inl err -> err = ErrInvalidCredentials).
Proof.
  intros H0s Hb. pose proof (run_follows calls (s0, w0) ∅) as Hf. cbn zeta.
  destruct (run calls _) as [[s w] g]. cbn [fst snd] in *. rewrite H0s in Hf. specialize (Hf follows_empty). intros Hc.
  pose proof (AuthenticateBearer_err apiKey now (s, w)) as HE.
  pose proof (fun p => AuthenticateBearer_spec s w g apiKey now p Hf Hc) as HS.
  unfold Authenticate. rewrite Hb. unfold mbind, M_bind.
  destruct (AuthenticateBearer apiKey now (s, w)) as [[err|q] x']; cbn in *.
  - split_and!; [done| |auto]. intros Ha p Hp. destruct (HS p) as [_ Hq]. by apply Hq in Hp.
  - destruct (HS q) as [Hq _]. specialize (Hq eq_refl). unfold HasRole.
    destruct (_ && _) eqn:Er.
    + split_and!; [done| |by intros err [= <-]]. intros Ha p Hp Hr. destruct (HS p) as [_ Hp'].
      specialize (Hp' Ha Hp). simplify_eq. apply andb_true_iff in Er as [E1 E2].
      destruct Hr as [->|Hr]; [done|]. by rewrite bool_decide_eq_true_2 in E2.
    + split_and!; [|intros Ha p Hp _; destruct (HS p) as [_ Hp']; by apply Hp'|done].
      intros p [= <-]. split; [done|]. apply andb_false_iff in Er as [Er|Er]; apply negb_false_iff in Er.
      * left. by apply String.eqb_eq in Er.
      * right. by apply bool_decide_eq_true in Er.
Qed.

(** C37: Revocation is final. After a call that revoked a credential, whatever calls
    are made, no key that names the credential is accepted, and it is neither rotated
    nor enabled or disabled again. *)
Theorem revocation_is_final id actor t1 t2 s w c x g calls :
  SetState (W := W) id StateRevoked actor t1 t2 (s, w) = (inr c, x) ->
  let x' := (run calls (x, g)).1 in
  (forall role values apiKey now, bearerToken values = inr apiKey -> credentialIDFromAPIKey apiKey = Some id ->
     (Authenticate role values now x').1 = inl ErrInvalidCredentials) /\
  (forall actor' t1' t2', exists err, (Rotate rand_Read id actor' t1' t2' x').1 = inl err) /\
  (forall state actor' t1' t2', state <> StateRevoked -> exists err, (SetState id state actor' t1' t2' x').1 = inl err).
Proof.
  intros HS. pose proof (SetState_table id StateRevoked actor t1 t2 s w) as HT. rewrite HS in HT.
  destruct HT as (r & Hr & _ & _ & Hx).
  assert (Hrev : revoked_row id (table x.1)) by (rewrite Hx; eexists; by rewrite lookup_insert_eq).
  clear Hx HS. pose proof (run_revoked calls x g id Hrev) as Hrev'. clear Hrev.
  destruct (run calls (x, g)) as [[s' w'] g'] eqn:Er. cbn in *. destruct Hrev' as (r' & Hr' & Hs').
  split_and!.
  - intros role values apiKey now Hb Hid. unfold Authenticate, mbind, M_bind. rewrite Hb.
    unfold AuthenticateBearer. rewrite Hid. pose proof (law_get id s') as HG.
    destruct (store_Get id s') as [[err|r''] s'']; [done|]. destruct HG as [_ HG].
    assert (r'' = r') as -> by congruence. rewrite Hs'. by rewrite orb_true_r.
  - intros actor' t1' t2'. pose proof (Rotate_table id actor' t1' t2' s' w') as HR.
    destruct (Rotate _ _ _ _ _ _) as [[err|issued] x']; [by eexists|].
    destruct HR as (r2 & _ & Hr2 & Hne & _). congruence.
  - intros state actor' t1' t2' Hne. pose proof (SetState_table id state actor' t1' t2' s' w') as HR.
    destruct (SetState _ _ _ _ _ _) as [[err|c'] x']; [by eexists|].
    destruct HR as (r2 & Hr2 & Him & _). exfalso. apply Hne, Him. congruence.
Qed.
End Refinement.

(** ** The store in SQLite keeps the promises of a store *)
#[export] Instance SqliteStoreLaws :
  StoreLaws database db_rows (fun db => Forall (fun fault => fault = None) (db_faults db)).
Proof.
  assert (Hm : forall id actor then_ change db,
    let '(res, db') := sqlite_mutate id actor then_ change db in
    match res with
    | inr c => exists r row action details, db_rows db !! id = Some r /\ change r = inr (row, action, details) /\
        db_rows db' = <[id := row]> (db_rows db) /\ c = rec_Credential row
    | inl _ => db_rows db' = db_rows db
    end).
  { intros id actor then_ change [rows audit next [|[err|] faults]]; unfold sqlite_mutate; cbn; try done.
    all: destruct (rows !! id) as [r|] eqn:Hr; [|done]; destruct (change r) as [err|[[row action] details]] eqn:Hc;
      [done|]; cbn; by exists r, row, action, details. }
  split.
  - intros r actor now [rows audit next [|[err|] faults]]; cbn; [|done|];
      destruct (rows !! cr_ID (rec_Credential r)) eqn:Hr; cbn; done.
  - intros id [rows audit next [|[err|] faults]]; cbn; (split; [done|]);
      try (destruct (rows !! id) as [r|] eqn:Hr; [done|]); try done.
    by intros [? _]%Forall_cons.
  - intros query [rows audit next [|[err|] faults]]; done.
  - intros id digest actor now then_ db. specialize (Hm id actor then_ (fun current =>
      if String.eqb (cr_State (rec_Credential current)) StateRevoked then inl ErrRevoked
      else inr (rotated digest actor now current, "rotated"%string, [])) db).
    cbn [store_Rotate SqliteStore]. unfold sqlite_Rotate. destruct (sqlite_mutate _ _ _ _ _) as [[err|c] db']; [done|].
    destruct Hm as (r & row & action & details & Hr & Hc & -> & ->).
    destruct (String.eqb_spec (cr_State (rec_Credential r)) StateRevoked) as [|Hne]; [done|].
    injection Hc as <- <- <-. by exists r.
  - intros id state actor now then_ db. cbn [store_SetState SqliteStore]. unfold sqlite_SetState.
    match goal with |- context [sqlite_mutate _ _ _ ?change _] => specialize (Hm id actor then_ change db) end.
    destruct (sqlite_mutate _ _ _ _ _) as [[err|c] db']; [done|].
    destruct Hm as (r & row & action & details & Hr & Hc & -> & ->).
    destruct (_ && _) eqn:Eb; [done|]. destruct (negb (valid_state state)); [done|].
    injection Hc as <- <- <-. exists r. split_and!; [done| |done|done].
    intros E. apply andb_false_iff in Eb as [Eb|Eb].
    + rewrite E in Eb. by rewrite String.eqb_refl in Eb.
    + apply negb_false_iff in Eb. by apply String.eqb_eq in Eb.
  - intros query [rows audit next [|[err|] faults]]; done.
Qed.

(** ** The audit log *)

(** The states that the log tells. *)
Definition audited_state (action : string) : string :=
  if String.eqb action "created" || String.eqb action "enabled" then StateActive else action.

Definition replay_event (states : gmap string string) (e : AuditEvent) : gmap string string :=
  if String.eqb (ae_Action e) "rotated" then states
  else <[ae_CredentialID e := audited_state (ae_Action e)]> states.

Definition states_of (rows : gmap string CredentialRecord) : gmap string string :=
  (fun r => cr_State (rec_Credential r)) <$> rows.

(** The log explains the rows: replayed it gives their states, its events are
    numbered in order and carry the tenant of their credential. *)
Definition explained (db : database) : Prop :=
  foldl replay_event ∅ (db_audit db) = states_of (db_rows db) /\
  ae_ID <$> db_audit db = seqZ 1 (Z.of_nat (length (db_audit db))) /\
  db_nextEvent db = Z.of_nat (length (db_audit db)) + 1 /\
  Forall (fun e => exists r, db_rows db !! ae_CredentialID e = Some r /\ ae_TenantID e = cr_TenantID (rec_Credential r))
    (db_audit db).

Lemma explained_commit id row action actor now details db :
  explained db ->
  (forall e, ae_CredentialID e = id -> ae_Action e = action ->
     replay_event (states_of (db_rows db)) e = <[id := cr_State (rec_Credential row)]> (states_of (db_rows db))) ->
  (forall r, db_rows db !! id = Some r -> cr_TenantID (rec_Credential r) = cr_TenantID (rec_Credential row)) ->
  explained (commit id row action actor now details db).
Proof.
  intros (E1 & E2 & E3 & E4) Hr Ht. unfold explained, commit. cbn. split_and!.
  - rewrite foldl_app, E1. cbn. rewrite Hr by done. unfold states_of. by rewrite fmap_insert.
  - rewrite fmap_app, E2, E3, length_app. cbn. rewrite Nat2Z.inj_add, seqZ_app by lia. f_equal. unfold seqZ.
    change (Z.to_nat (Z.of_nat 1)) with 1%nat. cbn [seq fmap list_fmap]. f_equal. lia.
  - rewrite length_app, E3. cbn. lia.
  - apply Forall_app. split; [|apply Forall_singleton; exists row; by rewrite lookup_insert_eq].
    eapply Forall_impl; [exact E4|]. cbn. intros e (r & Hre & Hte).
    destruct (decide (id = ae_CredentialID e)) as [->|Hne].
    + exists row. rewrite lookup_insert_eq, Hte. split; [done|]. exact (Ht r Hre).
    + exists r. by rewrite lookup_insert_ne.
Qed.

Lemma explained_fault db : explained db -> explained (next_fault db).2.
Proof. by destruct db as [rows audit next [|]]. Qed.

Lemma explained_create r actor now db :
  explained db -> cr_State (rec_Credential r) = StateActive -> explained (sqlite_Create r actor now db).2.
Proof.
  intros Hd%explained_fault Hs. unfold sqlite_Create. destruct (next_fault db) as [[err|] db']; [done|]. cbn in Hd.
  destruct (db_rows db' !! cr_ID (rec_Credential r)) eqn:Hr; [done|]. apply explained_commit; [done| |congruence].
  intros e <- Ha. unfold replay_event. by rewrite Ha, Hs.
Qed.

Lemma explained_mutate id actor then_ change db :
  explained db ->
  (forall db' r row action details, db_rows db' !! id = Some r -> change r = inr (row, action, details) ->
     cr_TenantID (rec_Credential r) = cr_TenantID (rec_Credential row) /\
     (if String.eqb action "rotated" then cr_State (rec_Credential row) = cr_State (rec_Credential r)
      else audited_state action = cr_State (rec_Credential row))) ->
  explained (sqlite_mutate id actor then_ change db).2.
Proof.
  intros Hd%explained_fault Hc. unfold sqlite_mutate. destruct (next_fault db) as [[err|] db']; [done|]. cbn in Hd.
  destruct (db_rows db' !! id) as [r|] eqn:Hr; [|done].
  destruct (change r) as [err|[[row action] details]] eqn:Hcr; [done|].
  destruct (Hc db' r row action details Hr Hcr) as [Ht Hs]. apply explained_commit; [done| |congruence].
  intros e <- Ha. unfold replay_event. rewrite Ha. destruct (String.eqb action "rotated").
  - symmetry. apply insert_id. unfold states_of. by rewrite lookup_fmap, Hr, Hs.
  - by rewrite Hs.
Qed.

Lemma explained_rotate id digest actor now then_ db :
  explained db -> explained (sqlite_Rotate id digest actor now then_ db).2.
Proof.
  intros Hd. apply explained_mutate; [done|]. intros db' r row action details _.
  destruct (String.eqb _ _); [done|]. by intros [= <- <- <-].
Qed.

Lemma explained_state id state actor now then_ db :
  explained db -> explained (sqlite_SetState id state actor now then_ db).2.
Proof.
  intros Hd. apply explained_mutate; [done|]. intros db' r row action details _. cbv beta zeta.
  destruct (_ && _); [done|]. destruct (valid_state state) eqn:Hv; [|done]. intros [= <- <- <-]. split; [done|].
  apply orb_true_iff in Hv as [[->%String.eqb_eq| ->%String.eqb_eq]%orb_true_iff| ->%String.eqb_eq]; reflexivity.
Qed.

(** The store after a call of the manager is that of its call of the store. *)
Lemma run_call_explained `{UnicodeTables} `{UnicodeFields} {W} rand_Read visit inputPolicy call db (w : W) g :
  explained db -> explained (run_call rand_Read visit inputPolicy call ((db, w), g)).1.1.
Proof.
  intros Hd. pose proof (explained_fault db Hd) as Hf.
  assert (Hget : forall id, explained (sqlite_Get id db).2).
  { intros id. unfold sqlite_Get. by destruct (next_fault db) as [[err|] db']. }
  destruct call as [input actor n1 n2 n3|query|id|id actor now then_|id state actor now then_|query|role values now];
    unfold run_call.
  - unfold Create, checked. destruct (match inputPolicy with Some policy => _ | None => _ end) as [err|input']; [done|].
    destruct (validateCreateInput _ _ _ _); [done|]. unfold mbind, M_bind.
    destruct (randomComponent rand_Read 18 (db, w)) as [[err|i] [d1 w1]] eqn:E1; apply randomComponent_store in E1 as ->; [done|].
    destruct (randomComponent rand_Read 32 (db, w1)) as [[err|secret] [d2 w2]] eqn:E2; apply randomComponent_store in E2 as ->; [done|].
    unfold store_create. cbn [store_Create SqliteStore]. match goal with |- context [sqlite_Create ?r _ _ _] => pose proof (explained_create r actor n3 db Hd eq_refl) as HC end.
    by destruct (sqlite_Create _ _ _ _) as [[err|] d3].
  - unfold List, checked. destruct (validateListQuery _); [done|]. unfold on_store. cbn [store_List SqliteStore].
    unfold sqlite_List. by destruct (next_fault db) as [[err|] db'].
  - unfold Get, checked. destruct (validateCredentialID _); [done|]. unfold mbind, M_bind, on_store.
    cbn [store_Get SqliteStore]. specialize (Hget id). by destruct (sqlite_Get id db) as [[err|r] db'].
  - unfold Rotate, checked. destruct (validateMutation _ _); [done|]. unfold mbind, M_bind.
    destruct (randomComponent rand_Read 32 (db, w)) as [[err|secret] [d1 w1]] eqn:E1; apply randomComponent_store in E1 as ->; [done|].
    unfold on_store. cbn [store_Rotate SqliteStore].
    match goal with |- context [sqlite_Rotate _ ?d _ _ _ _] => pose proof (explained_rotate id d actor now then_ db Hd) as HC end.
    by destruct (sqlite_Rotate _ _ _ _ _ _) as [[err|c] d2].
  - unfold SetState, checked. destruct (validateMutation _ _); [done|]. destruct (fail_if _ _); [done|].
    unfold on_store. cbn [store_SetState SqliteStore]. pose proof (explained_state id state actor now then_ db Hd) as HC.
    by destruct (sqlite_SetState _ _ _ _ _ _) as [[err|c] d2].
  - unfold ListAudit, checked. destruct (first_error _); [done|]. unfold on_store. cbn [store_ListAudit SqliteStore].
    unfold sqlite_ListAudit. by destruct (next_fault db) as [[err|] db'].
  - unfold Authenticate, mbind, M_bind. destruct (bearerToken values) as [err|apiKey]; [done|].
    unfold AuthenticateBearer. destruct (credentialIDFromAPIKey apiKey) as [id|]; [|done].
    cbn [store_Get SqliteStore]. specialize (Hget id). destruct (sqlite_Get id db) as [[err|r] db']; [done|].
    destruct (_ || _); [done|]. by destruct (_ && _).
Qed.

(** C38: The audit log explains the store. In every database that the calls of a
    manager produce from an empty one, whatever calls of the database fail, replaying
    the log gives the state of every credential and of no other, the events are
    numbered consecutively, and each carries the tenant of its credential. *)
Theorem audit_explains_store `{UnicodeTables} `{UnicodeFields} {W} rand_Read visit inputPolicy calls faults (w : W) g :
  explained (run_credentials rand_Read visit inputPolicy calls ((mkDatabase ∅ [] 1 faults, w), g)).1.1.
Proof.
  assert (Hd : explained (mkDatabase ∅ [] 1 faults, w).1).
  { by split_and!. }
  revert Hd. generalize (mkDatabase ∅ [] 1 faults, w) as x. revert g. clear w faults.
  induction calls as [|call calls IH]; intros g [db w] Hd; [done|]. unfold run_credentials in *. cbn [foldl].
  pose proof (run_call_explained rand_Read visit inputPolicy call db w g Hd) as Hc.
  destruct (run_call _ _ _ call _) as [x' g']. by apply IH.
Qed.

(** ** Concrete runs *)
#[local] Instance ascii_text : UnicodeTables := {|
  unicode_ToLower s := s;
  unicode_TrimSpace s := s;
|}.
#[local] Instance ascii_fields : UnicodeFields := {| unicode_Fields s := [s] |}.

(** A source whose [n]-th draw repeats [n]. *)
Definition counting_source (n : nat) (w : Z) : (string + list Z) * Z := (inr (repeat w n), w + 1).

Lemma counting_source_fills n w raw w' : counting_source n w = (inr raw, w') -> length raw = n.
Proof. intros [= <- <-]. apply repeat_length. Qed.

Definition batch_input : CreateInput :=
  mkCreateInput " batch " "acme" "svc-batch" "" "" ["inference"; "batch"; "inference"]%string [] ∅ (Some 1000).
Definition batch_id : string := "cc_AAAAAAAAAAAAAAAAAAAAAAAA".
Definition batch_key (secret : string) : string := api_key batch_id secret.

Definition issue_and_rotate : list credential_call :=
  [CallCreate batch_input "admin" 5 6 7; CallRotate batch_id "admin" 20 21].
Definition rotated_run : (database * Z) * keyring :=
  run_credentials counting_source map_to_list None issue_and_rotate ((mkDatabase ∅ [] 1 [], 0), ∅).

Definition batch_principal : Principal :=
  mkPrincipal "svc-batch" "machine" "acme" "svc-batch" ["batch"; "inference"]%string [] ∅.

Lemma keys_open_what_was_issued_witness :
  (Authenticate "inference" ["bearer llmgw_v1.cc_AAAAAAAAAAAAAAAAAAAAAAAA.AgICAgICAgICAgICAgICAgICAgICAgICAgICAgICAgI"%string]
     999 rotated_run.1).1 = inr batch_principal.
Proof.
  apply (proj1 (proj2 (keys_open_what_was_issued db_rows _ counting_source map_to_list None counting_source_fills
    issue_and_rotate (mkDatabase ∅ [] 1 []) 0 "inference"
    ["bearer llmgw_v1.cc_AAAAAAAAAAAAAAAAAAAAAAAA.AgICAgICAgICAgICAgICAgICAgICAgICAgICAgICAgI"%string]
    (batch_key "AgICAgICAgICAgICAgICAgICAgICAgICAgICAgICAgI") 999 eq_refl
    ltac:(vm_compute; reflexivity) ltac:(apply (bool_decide_unpack _); vm_compute; exact I)))).
  - vm_compute. constructor.
  - exists batch_id. eexists. split; [vm_compute; reflexivity|]. split_and!; [reflexivity|reflexivity| |reflexivity].
    intros t [= <-]. reflexivity.
  - right. apply (bool_decide_unpack _). vm_compute. exact I.
Defined.

(** The key from before the rotation, the expired key and a missing role are refused. *)
Example refused_keys :
  (Authenticate "inference" ["Bearer llmgw_v1.cc_AAAAAAAAAAAAAAAAAAAAAAAA.AQEBAQEBAQEBAQEBAQEBAQEBAQEBAQEBAQEBAQEBAQE"%string]
     999 rotated_run.1).1 = inl ErrInvalidCredentials /\
  (Authenticate "inference" ["Bearer llmgw_v1.cc_AAAAAAAAAAAAAAAAAAAAAAAA.AgICAgICAgICAgICAgICAgICAgICAgICAgICAgICAgI"%string]
     1000 rotated_run.1).1 = inl ErrInvalidCredentials /\
  (Authenticate "credentials_write" ["Bearer llmgw_v1.cc_AAAAAAAAAAAAAAAAAAAAAAAA.AgICAgICAgICAgICAgICAgICAgICAgICAgICAgICAgI"%string]
     999 rotated_run.1).1 = inl ErrInvalidCredentials.
Proof. vm_compute. done. Qed.

Definition revoke_result : (credential_error + Credential) * (database * Z) :=
  SetState batch_id StateRevoked "admin" 30 31 rotated_run.1.

Definition revoked_credential : Credential :=
  match revoke_result.1 with inr c => c | inl _ => new_credential batch_input "" "" 0 end.

Lemma revoke_result_eq :
  SetState batch_id StateRevoked "admin" 30 31 (rotated_run.1.1, rotated_run.1.2) = (inr revoked_credential, revoke_result.2).
Proof. vm_compute. reflexivity. Qed.

Lemma revocation_is_final_witness :
  (Authenticate "" ["Bearer llmgw_v1.cc_AAAAAAAAAAAAAAAAAAAAAAAA.AgICAgICAgICAgICAgICAgICAgICAgICAgICAgICAgI"%string] 40
     (run_credentials counting_source map_to_list None
        [CallSetState batch_id StateActive "admin" 32 33; CallRotate batch_id "admin" 34 35] (revoke_result.2, ∅)).1).1 =
    inl ErrInvalidCredentials.
Proof.
  apply (proj1 (revocation_is_final db_rows _ counting_source map_to_list None counting_source_fills
    batch_id "admin" 30 31 rotated_run.1.1 rotated_run.1.2
    revoked_credential revoke_result.2 ∅
    [CallSetState batch_id StateActive "admin" 32 33; CallRotate batch_id "admin" 34 35] revoke_result_eq)
    _ _ (batch_key "AgICAgICAgICAgICAgICAgICAgICAgICAgICAgICAgI")).
  - vm_compute. reflexivity.
  - vm_compute. reflexivity.
Defined.

(** What the log tells of the run. *)
Example revoked_log :
  (fun e => (ae_ID e, ae_Action e, ae_TenantID e)) <$> db_audit revoke_result.2.1 =
    [(1, "created", "acme"); (2, "rotated", "acme"); (3, "revoked", "acme")]%string.
Proof. vm_compute. reflexivity. Qed.
