(* ===== verification/SecretSources.v ===== *)
(** * Resolution of provider credentials ([pkg/credentials])

    The registry dispatches references of secrets to the source of their scheme and
    remembers how each tracked reference fared; its status counts them per scheme.
    The sources themselves (environment, files, vaults) are a parameter: what
    [Source.Resolve] answers is an argument.  References are checked by
    [Ref_Validate] (Fields.v). *)

From stdpp Require Import base gmap list strings sorting.
From Stdlib Require Import Ascii ZArith Lia.
From S2P Require Import Prelude GoStrings Sha256 Fields.

Local Open Scope Z_scope.
Local Open Scope go_scope.

Record Material := mkMaterial {
  ma_Value : list Z;
  ma_Version : string;
}.

Definition ResolutionHealthy : string := "healthy".
Definition ResolutionDegraded : string := "degraded".
Definition ResolutionUnavailable : string := "unavailable".
Definition ResolutionUnknown : string := "unknown".
Definition ResolutionUnused : string := "unused".

Record SourceStatus := mkSourceStatus {
  ss_Scheme : string;
  ss_Status : string;
  ss_ConfiguredReferences : Z;
  ss_ResolvedReferences : Z;
  ss_FailingReferences : Z;
  ss_UnresolvedReferences : Z;
  ss_ResolutionAttempts : Z;
  ss_ResolutionFailures : Z;
  ss_Rotations : Z;
  ss_LastResolvedAt : option Z;
  ss_LastFailedAt : option Z;
  ss_LastRotatedAt : option Z;
}.

Record ResolutionReport := mkResolutionReport {
  st_ObservedAt : Z;
  st_Status : string;
  st_ConfiguredReferences : Z;
  st_ResolvedReferences : Z;
  st_FailingReferences : Z;
  st_UnresolvedReferences : Z;
  st_Sources : list SourceStatus;
}.

Inductive referenceResolutionStatus := referenceUnresolved | referenceResolved | referenceFailing.

#[export] Instance referenceResolutionStatus_eq_dec : EqDecision referenceResolutionStatus.
Proof. solve_decision. Defined.

(** [rs_fingerprint] is [fingerprint] when [hasFingerprint]. *)
Record referenceStatus := mkReferenceStatus {
  rs_scheme : string;
  rs_status : referenceResolutionStatus;
  rs_fingerprint : option (list Z);
  rs_resolutionAttempts : Z;
  rs_resolutionFailures : Z;
  rs_rotations : Z;
  rs_lastResolvedAt : Z;
  rs_lastFailedAt : Z;
  rs_lastRotatedAt : Z;
}.

(** ** Summaries *)
Definition resolutionStatus (configured resolved failing unresolved : Z) : string :=
  if configured =? 0 then ResolutionUnused
  else if failing =? configured then ResolutionUnavailable
  else if 0 <? failing then ResolutionDegraded
  else if 0 <? unresolved then ResolutionUnknown
  else if resolved =? configured then ResolutionHealthy
  else ResolutionUnknown.

(** A [time.Time] that is zero stands for an absent one ([valueTime]). *)
Definition valueTime (value : option Z) : Z := default 0 value.

Definition setNewestTime (destination : option Z) (candidate : Z) : option Z :=
  if time_IsZero candidate || match destination with Some t => negb (t <? candidate) | None => false end
  then destination else Some candidate.

Definition empty_source (scheme : string) : SourceStatus :=
  mkSourceStatus scheme "" 0 0 0 0 0 0 0 None None None.

(** The last part of both [CredentialStatus] methods: [sources] in the order in
    which [range] visits them. *)
Definition resolved_source (s : SourceStatus) : SourceStatus :=
  mkSourceStatus (ss_Scheme s)
    (resolutionStatus (ss_ConfiguredReferences s) (ss_ResolvedReferences s) (ss_FailingReferences s)
       (ss_UnresolvedReferences s))
    (ss_ConfiguredReferences s) (ss_ResolvedReferences s) (ss_FailingReferences s) (ss_UnresolvedReferences s)
    (ss_ResolutionAttempts s) (ss_ResolutionFailures s) (ss_Rotations s)
    (ss_LastResolvedAt s) (ss_LastFailedAt s) (ss_LastRotatedAt s).

Definition add_source (totals : Z * Z * Z * Z * list SourceStatus) (item : SourceStatus)
  : Z * Z * Z * Z * list SourceStatus :=
  let '(configured, resolved, failing, unresolved, result) := totals in
  (configured + ss_ConfiguredReferences item, resolved + ss_ResolvedReferences item,
   failing + ss_FailingReferences item, unresolved + ss_UnresolvedReferences item, result ++ [resolved_source item]).

Definition report_of (observedAt : Z) (sources : list SourceStatus) : ResolutionReport :=
  let '(configured, resolved, failing, unresolved, result) := foldl add_source (0, 0, 0, 0, []) sources in
  mkResolutionReport observedAt (resolutionStatus configured resolved failing unresolved)
    configured resolved failing unresolved
    (stable_sort (fun x y => String.ltb (ss_Scheme x) (ss_Scheme y)) result).

(** ** The combined status of several registries *)

(** One [item] of a source, added to the combined status of its scheme. *)
Definition combine_item (item combined : SourceStatus) : SourceStatus :=
  mkSourceStatus (ss_Scheme combined) (ss_Status combined)
    (ss_ConfiguredReferences combined + ss_ConfiguredReferences item)
    (ss_ResolvedReferences combined + ss_ResolvedReferences item)
    (ss_FailingReferences combined + ss_FailingReferences item)
    (ss_UnresolvedReferences combined + ss_UnresolvedReferences item)
    (uint64 (ss_ResolutionAttempts combined + ss_ResolutionAttempts item))
    (uint64 (ss_ResolutionFailures combined + ss_ResolutionFailures item))
    (uint64 (ss_Rotations combined + ss_Rotations item))
    (setNewestTime (ss_LastResolvedAt combined) (valueTime (ss_LastResolvedAt item)))
    (setNewestTime (ss_LastFailedAt combined) (valueTime (ss_LastFailedAt item)))
    (setNewestTime (ss_LastRotatedAt combined) (valueTime (ss_LastRotatedAt item))).

Definition combine_into (byScheme : gmap string SourceStatus) (item : SourceStatus) : gmap string SourceStatus :=
  <[ss_Scheme item := combine_item item (default (empty_source (ss_Scheme item)) (byScheme !! ss_Scheme item))]> byScheme.

(** One answer, with the newest observation. *)
Definition add_answer (total : Z * gmap string SourceStatus) (current : ResolutionReport)
  : Z * gmap string SourceStatus :=
  let '(observedAt, byScheme) := total in
  (if observedAt <? st_ObservedAt current then st_ObservedAt current else observedAt,
   foldl combine_into byScheme (st_Sources current)).

(** [aggregateStatusSource.CredentialStatus] of the answers of the sources; the
    clock is read when no answer is dated. *)
Definition aggregateCredentialStatus (visit : gmap string SourceStatus -> list SourceStatus)
    (answers : list ResolutionReport) (now : Z) : ResolutionReport :=
  let '(observedAt, byScheme) := foldl add_answer (0, ∅) answers in
  report_of (if time_IsZero observedAt then now else observedAt) (visit byScheme).

(** ** The registry *)
Section Registry.
Context `{UnicodeTables} {Source : Type}.

Record Registry := mkRegistry {
  re_sources : gmap string Source;
  re_references : gmap string referenceStatus;
  re_hmacKey : list Z;
}.

(** [NewRegistry], with the key that [rand.Read] drew. *)
Definition NewRegistry (hmacKey : list Z) : Registry := mkRegistry ∅ ∅ hmacKey.

(** [strings.ToLower(scheme)] of a reference. *)
Definition scheme_of (ref : string) : string :=
  match cut_scheme [] (bytes ref) with
  | Some (scheme, _) => ToLower (of_bytes scheme)
  | None => ToLower ref
  end.

Definition Register (scheme : string) (source : option Source) (r : Registry) : string + Registry :=
  match source with
  | None => inl "credential source is required"%string
  | Some source =>
      if String.eqb scheme "" || bool_decide (is_Some (cut_scheme [] (bytes scheme)))
      then inl "credential scheme must not be empty or contain ://"%string
      else
        match wrap "credential scheme: " (Ref_Validate (scheme +:+ "://registered")) with
        | Some err => inl err
        | None =>
            match re_sources r !! ToLower scheme with
            | Some _ => inl "credential scheme %q is already registered"%string
            | None => inr (mkRegistry (<[ToLower scheme := source]> (re_sources r)) (re_references r) (re_hmacKey r))
            end
        end
  end.

Definition new_reference (scheme : string) : referenceStatus :=
  mkReferenceStatus scheme referenceUnresolved None 0 0 0 0 0 0.

Definition TrackReferences (references : list string) (r : Registry) : string + Registry :=
  match check_all (fun ref => wrap "credential reference: " (Ref_Validate ref)) references with
  | Some err => inl err
  | None =>
      inr (mkRegistry (re_sources r)
             (foldl (fun tracked ref => <[ref := new_reference (scheme_of ref)]> tracked) ∅ references)
             (re_hmacKey r))
  end.

Definition credentialFingerprint (key : list Z) (material : Material) : list Z :=
  hmac_sha256 key (string_bytes (ma_Version material) ++ [0] ++ ma_Value material).

(** [recordResolution] on the status of a tracked reference. *)
Definition record_status (key : list Z) (result : string + Material) (now : Z) (s : referenceStatus) : referenceStatus :=
  let attempts := uint64 (rs_resolutionAttempts s + 1) in
  match result with
  | inl _ =>
      mkReferenceStatus (rs_scheme s) referenceFailing (rs_fingerprint s) attempts
        (uint64 (rs_resolutionFailures s + 1)) (rs_rotations s) (rs_lastResolvedAt s) now (rs_lastRotatedAt s)
  | inr material =>
      let fingerprint := credentialFingerprint key material in
      let changed := match rs_fingerprint s with Some old => negb (bool_decide (old = fingerprint)) | None => false end in
      mkReferenceStatus (rs_scheme s) referenceResolved (Some fingerprint) attempts (rs_resolutionFailures s)
        (if changed then uint64 (rs_rotations s + 1) else rs_rotations s) now (rs_lastFailedAt s)
        (if changed then now else rs_lastRotatedAt s)
  end.

Definition recordResolution (ref : string) (result : string + Material) (now : Z) (r : Registry) : Registry :=
  match re_references r !! ref with
  | None => r
  | Some s =>
      mkRegistry (re_sources r) (<[ref := record_status (re_hmacKey r) result now s]> (re_references r)) (re_hmacKey r)
  end.

(** [Registry.Resolve]; [source_Resolve] is the method of the source. *)
Definition Resolve {W} (source_Resolve : Source -> string -> W -> (string + Material) * W) (ref : string) (now : Z)
  : M (Registry * W) string Material :=
  fun '(r, w) =>
    match Ref_Validate ref with
    | Some err => (inl err, (r, w))
    | None =>
        match re_sources r !! scheme_of ref with
        | None => (inl "credential scheme %q is not configured"%string, (r, w))
        | Some source =>
            let '(result, w) := source_Resolve source ref w in
            (result, (recordResolution ref result now r, w))
        end
    end.

(** A tracked reference, added to the status of its scheme. *)
Definition count_reference (reference : referenceStatus) (s : SourceStatus) : SourceStatus :=
  let one (status : referenceResolutionStatus) := if decide (rs_status reference = status) then 1 else 0 in
  mkSourceStatus (ss_Scheme s) (ss_Status s) (ss_ConfiguredReferences s + 1)
    (ss_ResolvedReferences s + one referenceResolved) (ss_FailingReferences s + one referenceFailing)
    (ss_UnresolvedReferences s + one referenceUnresolved)
    (uint64 (ss_ResolutionAttempts s + rs_resolutionAttempts reference))
    (uint64 (ss_ResolutionFailures s + rs_resolutionFailures reference))
    (uint64 (ss_Rotations s + rs_rotations reference))
    (setNewestTime (ss_LastResolvedAt s) (rs_lastResolvedAt reference))
    (setNewestTime (ss_LastFailedAt s) (rs_lastFailedAt reference))
    (setNewestTime (ss_LastRotatedAt s) (rs_lastRotatedAt reference)).

Definition count_into (byScheme : gmap string SourceStatus) (reference : referenceStatus) : gmap string SourceStatus :=
  <[rs_scheme reference :=
      count_reference reference (default (empty_source (rs_scheme reference)) (byScheme !! rs_scheme reference))]> byScheme.

(** [Registry.CredentialStatus]; [visitReferences] and [visit] are the orders in
    which [range] visits the two maps. *)
Definition CredentialStatus (visitReferences : gmap string referenceStatus -> list referenceStatus)
    (visit : gmap string SourceStatus -> list SourceStatus) (now : Z) (r : Registry) : ResolutionReport :=
  let byScheme := map_imap (fun scheme _ => Some (empty_source scheme)) (re_sources r) in
  report_of now (visit (foldl count_into byScheme (visitReferences (re_references r)))).
End Registry.
#[global] Arguments Registry : clear implicits.

(** ** Sums over sources *)
Lemma zsum_map {A} (f : A -> Z) (m : gmap string A) : zsum f (map_to_list m).*2 = sum_map f m.
Proof.
  unfold sum_map. rewrite map_fold_foldr. induction (map_to_list m) as [|[k x] l IH]; cbn; [done|]. by rewrite IH.
Qed.

(** The newest of the times that are not zero. *)
Definition newest (l : list Z) : option Z :=
  match List.filter (fun t => negb (time_IsZero t)) l with
  | [] => None
  | t :: ts => Some (foldr Z.max t ts)
  end.

Lemma newest_snoc l c : newest (l ++ [c]) = setNewestTime (newest l) c.
Proof.
  unfold newest, setNewestTime. rewrite List.filter_app. cbn. destruct (time_IsZero c); cbn; [by rewrite app_nil_r|].
  destruct (List.filter _ l) as [|t ts]; cbn; [done|]. rewrite foldr_app. cbn.
  assert (E : forall m, foldr Z.max m ts = Z.max (foldr Z.max t ts) m \/ m < t).
  { intros m. destruct (Z.lt_ge_cases m t) as [|Hm]; [by right|left].
    induction ts as [|u ts IH]; cbn; [lia|]. rewrite IH. lia. }
  destruct (E (Z.max c t)) as [->|]; [|lia].
  assert (t <= foldr Z.max t ts) by (clear; induction ts; cbn; lia).
  destruct (Z.ltb_spec (foldr Z.max t ts) c); cbn; f_equal; lia.
Qed.

(** What a source owes to its items, and the sources of a list of items. *)
Definition summary (scheme : string) (items : list SourceStatus) : SourceStatus :=
  let total f := zsum f items in
  mkSourceStatus scheme
    (resolutionStatus (total ss_ConfiguredReferences) (total ss_ResolvedReferences) (total ss_FailingReferences)
       (total ss_UnresolvedReferences))
    (total ss_ConfiguredReferences) (total ss_ResolvedReferences) (total ss_FailingReferences)
    (total ss_UnresolvedReferences)
    (uint64 (total ss_ResolutionAttempts)) (uint64 (total ss_ResolutionFailures)) (uint64 (total ss_Rotations))
    (newest (valueTime ∘ ss_LastResolvedAt <$> items)) (newest (valueTime ∘ ss_LastFailedAt <$> items))
    (newest (valueTime ∘ ss_LastRotatedAt <$> items)).

Definition items_of (scheme : string) (items : list SourceStatus) : list SourceStatus :=
  List.filter (fun item => String.eqb (ss_Scheme item) scheme) items.

Definition report_spec (observedAt : Z) (schemes : list string) (items : list SourceStatus) : ResolutionReport :=
  let total f := zsum f items in
  mkResolutionReport observedAt
    (resolutionStatus (total ss_ConfiguredReferences) (total ss_ResolvedReferences) (total ss_FailingReferences)
       (total ss_UnresolvedReferences))
    (total ss_ConfiguredReferences) (total ss_ResolvedReferences) (total ss_FailingReferences)
    (total ss_UnresolvedReferences)
    ((fun scheme => summary scheme (items_of scheme items)) <$> sort_Strings schemes).

Definition combine_all (s : SourceStatus) (items : list SourceStatus) : SourceStatus :=
  foldl (fun s item => combine_item item s) s items.

Lemma uint64_0 : uint64 0 = 0.
Proof. reflexivity. Qed.

Lemma combine_all_summary scheme items :
  resolved_source (combine_all (empty_source scheme) items) = summary scheme items.
Proof.
  enough (E : combine_all (empty_source scheme) items =
    mkSourceStatus scheme "" (zsum ss_ConfiguredReferences items) (zsum ss_ResolvedReferences items)
      (zsum ss_FailingReferences items) (zsum ss_UnresolvedReferences items)
      (uint64 (zsum ss_ResolutionAttempts items)) (uint64 (zsum ss_ResolutionFailures items))
      (uint64 (zsum ss_Rotations items))
      (newest (valueTime ∘ ss_LastResolvedAt <$> items)) (newest (valueTime ∘ ss_LastFailedAt <$> items))
      (newest (valueTime ∘ ss_LastRotatedAt <$> items))) by by rewrite E.
  induction items as [|item items IH] using rev_ind; [done|].
  assert (Hn : forall f : SourceStatus -> Z,
    newest (f <$> items ++ [item]) = setNewestTime (newest (f <$> items)) (f item)).
  { intros f. rewrite fmap_app. apply newest_snoc. }
  unfold combine_all in *. rewrite foldl_app, IH, !Hn, !zsum_app. cbn [foldl zsum]. unfold combine_item.
  cbn -[newest setNewestTime]. by rewrite !uint64_add, !Z.add_0_r.
Qed.

(** The order of the items does not matter. *)
Lemma setNewestTime_nonzero d c :
  c <> 0 -> setNewestTime d c = Some match d with Some t => Z.max t c | None => c end.
Proof.
  intros Hc. unfold setNewestTime, time_IsZero. destruct (Z.eqb_spec c 0) as [|_]; [done|]. cbn.
  destruct d as [t|]; [|done]. destruct (Z.ltb_spec t c); cbn; f_equal; lia.
Qed.

Lemma setNewestTime_comm d a b : setNewestTime (setNewestTime d a) b = setNewestTime (setNewestTime d b) a.
Proof.
  destruct (decide (a = 0)) as [->|Ha]; [done|]. destruct (decide (b = 0)) as [->|Hb]; [done|].
  rewrite !setNewestTime_nonzero by done. destruct d; f_equal; lia.
Qed.

Lemma uint64_add_comm x a b : uint64 (uint64 (x + a) + b) = uint64 (uint64 (x + b) + a).
Proof. rewrite !uint64_add. f_equal. lia. Qed.

Lemma combine_item_comm a b s : combine_item a (combine_item b s) = combine_item b (combine_item a s).
Proof.
  unfold combine_item. cbn. f_equal; try lia; first [apply uint64_add_comm|apply setNewestTime_comm].
Qed.

#[export] Instance combine_all_perm : Proper ((=) ==> (≡ₚ) ==> (=)) combine_all.
Proof.
  intros s _ <- l k Hlk. revert s. induction Hlk as [|x l k _ IH|x y l|l k j _ IH1 _ IH2]; intros s; cbn.
  - done.
  - apply IH.
  - by rewrite combine_item_comm.
  - by rewrite IH1.
Qed.

(** Combining by scheme. *)
Lemma combine_into_lookup items m scheme :
  foldl combine_into m items !! scheme =
    match items_of scheme items with
    | [] => m !! scheme
    | own => Some (combine_all (default (empty_source scheme) (m !! scheme)) own)
    end.
Proof.
  revert m. induction items as [|item items IH]; intros m; cbn; [done|]. rewrite IH. unfold combine_into.
  destruct (String.eqb_spec (ss_Scheme item) scheme) as [<-|Hne].
  - rewrite lookup_insert_eq. change (List.filter _ items) with (items_of (ss_Scheme item) items).
    by destruct (items_of _ items).
  - by rewrite lookup_insert_ne.
Qed.

Lemma combine_into_sum (f : SourceStatus -> Z) items m :
  (forall scheme, f (empty_source scheme) = 0) -> (forall item s, f (combine_item item s) = f s + f item) ->
  sum_map f (foldl combine_into m items) = sum_map f m + zsum f items.
Proof.
  intros H0 Hf. revert m. induction items as [|item items IH]; intros m; cbn; [lia|]. rewrite IH.
  unfold combine_into. destruct (m !! ss_Scheme item) as [s|] eqn:Hm; cbn [from_option id].
  - rewrite (sum_map_update f m (ss_Scheme item) _ s Hm), Hf. lia.
  - rewrite (sum_map_insert f m (ss_Scheme item) _ Hm), Hf, H0. lia.
Qed.

(** Sorted names do not depend on the order they came in. *)
Lemma sort_Strings_perm l k : l ≡ₚ k -> sort_Strings l = sort_Strings k.
Proof.
  intros Hlk. apply (StronglySorted_unique_strong (fun x y => String.ltb y x = false)).
  - intros x y _ _ Hx Hy. unfold String.ltb in *. rewrite String.compare_antisym in Hx.
    destruct (String.compare x y) eqn:Hc; [by apply String.compare_eq_iff|done|done].
  - apply (stable_sort_sorted String.ltb).
  - apply (stable_sort_sorted String.ltb).
  - by rewrite !sort_Strings_Permutation.
Qed.

Lemma report_of_eq observedAt l :
  report_of observedAt l =
    mkResolutionReport observedAt
      (resolutionStatus (zsum ss_ConfiguredReferences l) (zsum ss_ResolvedReferences l) (zsum ss_FailingReferences l)
         (zsum ss_UnresolvedReferences l))
      (zsum ss_ConfiguredReferences l) (zsum ss_ResolvedReferences l) (zsum ss_FailingReferences l)
      (zsum ss_UnresolvedReferences l)
      (stable_sort (fun x y => String.ltb (ss_Scheme x) (ss_Scheme y)) (resolved_source <$> l)).
Proof.
  unfold report_of. enough (E : foldl add_source (0, 0, 0, 0, []) l =
    (zsum ss_ConfiguredReferences l, zsum ss_ResolvedReferences l, zsum ss_FailingReferences l,
     zsum ss_UnresolvedReferences l, resolved_source <$> l)) by by rewrite E.
  induction l as [|x l IH] using rev_ind; [done|].
  rewrite foldl_app, IH, !zsum_app, fmap_app. cbn [foldl zsum fmap list_fmap]. unfold add_source.
  repeat f_equal; lia.
Qed.

Lemma combine_all_scheme items s : ss_Scheme (combine_all s items) = ss_Scheme s.
Proof. revert s. induction items as [|item items IH]; intros s; [done|]. exact (IH (combine_item item s)). Qed.

Lemma items_of_nil scheme items : items_of scheme items = [] <-> scheme ∉ (ss_Scheme <$> items).
Proof.
  induction items as [|item items IH]; cbn; [by split; [intros _ []%elem_of_nil|]|].
  destruct (String.eqb_spec (ss_Scheme item) scheme) as [<-|Hne].
  - split; [done|]. intros []. by left.
  - change (List.filter _ items) with (items_of scheme items). rewrite IH, not_elem_of_cons.
    split; [|tauto]. split; [congruence|done].
Qed.

(** The report of sources combined from items, in whatever order they are visited. *)
Lemma report_of_items observedAt (start : gmap string SourceStatus) items l :
  (forall scheme s, start !! scheme = Some s -> s = empty_source scheme) ->
  l ≡ₚ (map_to_list (foldl combine_into start items)).*2 ->
  report_of observedAt l =
    report_spec observedAt (elements (dom start ∪ list_to_set (ss_Scheme <$> items))) items.
Proof.
  intros Hstart Hl. set (m := foldl combine_into start items) in *.
  assert (Hm : forall scheme s, m !! scheme = Some s -> s = combine_all (empty_source scheme) (items_of scheme items)).
  { intros scheme s. unfold m. rewrite combine_into_lookup. destruct (items_of scheme items) as [|i own]; [apply Hstart|].
    intros [= <-]. destruct (start !! scheme) as [s0|] eqn:E; [|done]. by rewrite (Hstart _ _ E). }
  assert (Hsum : forall f : SourceStatus -> Z, (forall scheme, f (empty_source scheme) = 0) ->
    (forall item s, f (combine_item item s) = f s + f item) -> zsum f l = zsum f items).
  { intros f H0 Hf. rewrite Hl, zsum_map. unfold m. rewrite (combine_into_sum f items start H0 Hf).
    enough (sum_map f start = 0) by lia. clear -Hstart H0.
    induction start as [|i x start Hi IH] using map_ind; [done|]. rewrite sum_map_insert by done.
    rewrite (Hstart i x (lookup_insert_eq _ _ _)), H0, IH; [done|]. intros scheme s Hs. apply Hstart.
    rewrite lookup_insert_ne; [done|]. by intros ->; rewrite Hi in Hs. }
  rewrite report_of_eq, !Hsum by done. unfold report_spec. f_equal.
  assert (Hres : resolved_source <$> l = (fun k => summary k (items_of k items)) <$> (ss_Scheme <$> l)).
  { rewrite <- list_fmap_compose. apply list_fmap_ext. intros i s Hs. cbn.
    apply list_elem_of_lookup_2 in Hs. rewrite Hl in Hs.
    apply list_elem_of_fmap in Hs as ([k s'] & -> & Hk%elem_of_map_to_list). cbn. apply Hm in Hk as ->.
    by rewrite combine_all_scheme, combine_all_summary. }
  rewrite Hres, (stable_sort_fmap String.ltb); [|done]. f_equal. apply sort_Strings_perm. rewrite Hl.
  assert (ss_Scheme <$> (map_to_list m).*2 = (map_to_list m).*1) as ->.
  { rewrite <- list_fmap_compose. apply list_fmap_ext. intros i [k s] Hk. cbn.
    apply list_elem_of_lookup_2, elem_of_map_to_list, Hm in Hk as ->. apply combine_all_scheme. }
  apply NoDup_Permutation; [apply NoDup_fst_map_to_list|apply NoDup_elements|]. intros k.
  rewrite elem_of_elements, elem_of_union, elem_of_list_to_set, elem_of_dom.
  assert (k ∈ (map_to_list m).*1 <-> is_Some (m !! k)) as ->.
  { rewrite list_elem_of_fmap. split; [intros ([k' s] & -> & Hs%elem_of_map_to_list); by eexists|].
    intros [s Hs]. exists (k, s). by rewrite elem_of_map_to_list. }
  unfold m at 1. rewrite combine_into_lookup.
  destruct (items_of k items) as [|i own] eqn:E.
  - apply items_of_nil in E. tauto.
  - split; [|by eexists]. intros _. right. destruct (decide (k ∈ ss_Scheme <$> items)) as [|Hn]; [done|].
    apply items_of_nil in Hn. by rewrite Hn in E.
Qed.

(** ** The status of a registry *)

(** What one tracked reference adds to its source. *)
Definition reference_item (reference : referenceStatus) : SourceStatus :=
  let one (status : referenceResolutionStatus) := if decide (rs_status reference = status) then 1 else 0 in
  let dated (t : Z) := if t =? 0 then None else Some t in
  mkSourceStatus (rs_scheme reference) "" 1 (one referenceResolved) (one referenceFailing) (one referenceUnresolved)
    (rs_resolutionAttempts reference) (rs_resolutionFailures reference) (rs_rotations reference)
    (dated (rs_lastResolvedAt reference)) (dated (rs_lastFailedAt reference)) (dated (rs_lastRotatedAt reference)).

Lemma count_into_item m reference : count_into m reference = combine_into m (reference_item reference).
Proof.
  unfold count_into, combine_into, count_reference, combine_item, valueTime. cbn. do 2 f_equal.
  all: match goal with |- context [rs_lastResolvedAt] => idtac | _ => try done end.
  all: repeat match goal with |- context [if ?t =? 0 then None else Some ?t] => destruct (Z.eqb_spec t 0) as [->|]; cbn end; done.
Qed.

Lemma count_all_items l m : foldl count_into m l = foldl combine_into m (reference_item <$> l).
Proof. revert m. induction l as [|x l IH]; intros m; cbn; [done|]. by rewrite count_into_item, IH. Qed.

#[export] Instance items_of_perm scheme : Proper ((≡ₚ) ==> (≡ₚ)) (items_of scheme).
Proof. intros l k Hlk. by apply filter_Permutation. Qed.

#[export] Instance combine_into_perm m : Proper ((≡ₚ) ==> (=)) (foldl combine_into m).
Proof.
  intros l k Hlk. apply map_eq. intros scheme. rewrite !combine_into_lookup.
  pose proof (items_of_perm scheme l k Hlk) as Hp. destruct (items_of scheme l) as [|x own].
  - apply Permutation_nil in Hp as ->. done.
  - destruct (items_of scheme k) as [|y own']; [by apply symmetry, Permutation_nil in Hp|]. by rewrite Hp.
Qed.

(** The status of a registry counts its references. In whatever order the maps
    are visited, [CredentialStatus] lists each scheme that is registered or tracked
    once, sorted, with the counts, the sums of the counters and the newest times of
    the references of that scheme; the totals are those of all tracked references. *)
Theorem credential_status_counts {Source} visitReferences visit now (r : Registry Source) :
  (forall m, visitReferences m ≡ₚ (map_to_list m).*2) -> (forall m, visit m ≡ₚ (map_to_list m).*2) ->
  CredentialStatus visitReferences visit now r =
    report_spec now
      (elements (dom (re_sources r) ∪ list_to_set (rs_scheme <$> (map_to_list (re_references r)).*2)))
      (reference_item <$> (map_to_list (re_references r)).*2).
Proof.
  intros HvR Hv. unfold CredentialStatus. set (start := map_imap _ (re_sources r)).
  set (items := reference_item <$> (map_to_list (re_references r)).*2).
  assert (Hd : dom start = dom (re_sources r)).
  { apply set_eq. intros k. rewrite !elem_of_dom. unfold start. rewrite map_lookup_imap.
    destruct (re_sources r !! k) as [x|]; cbn; [by split; eexists|by split; intros []]. }
  assert (rs_scheme <$> (map_to_list (re_references r)).*2 = ss_Scheme <$> items) as ->.
  { exact (list_fmap_compose reference_item ss_Scheme (map_to_list (re_references r)).*2). }
  rewrite <- Hd. apply report_of_items.
  - intros scheme s. unfold start. rewrite map_lookup_imap. destruct (re_sources r !! scheme); [|done]. by intros [= <-].
  - rewrite Hv, count_all_items. unfold items. by rewrite (HvR (re_references r)).
Qed.

(** The combined status counts the items of all the answers. *)
Theorem aggregate_status_counts visit answers now :
  (forall m, visit m ≡ₚ (map_to_list m).*2) ->
  exists observedAt,
    aggregateCredentialStatus visit answers now =
      report_spec observedAt (elements (list_to_set (ss_Scheme <$> (answers ≫= st_Sources)) : gset string))
        (answers ≫= st_Sources).
Proof.
  intros Hv. unfold aggregateCredentialStatus.
  assert (E : forall t m, (foldl add_answer (t, m) answers).2 = foldl combine_into m (answers ≫= st_Sources)).
  { induction answers as [|a answers IH]; intros t m; [done|]. cbn [foldl add_answer]. rewrite IH.
    by rewrite bind_cons, foldl_app. }
  specialize (E 0 ∅). destruct (foldl add_answer (0, ∅) answers) as [t m]. cbn in E. subst m. eexists.
  rewrite (report_of_items _ ∅ (answers ≫= st_Sources)); [|done|apply Hv]. by rewrite dom_empty_L, left_id_L by apply _.
Qed.

(** ** The history of a reference *)
Definition outcome : Type := ((string + Material) * Z).

Definition fingerprinted (key : list Z) (o : outcome) : option (list Z * Z) :=
  match o.1 with inr material => Some (credentialFingerprint key material, o.2) | inl _ => None end.
Definition failed_at (o : outcome) : option Z := match o.1 with inl _ => Some o.2 | inr _ => None end.

(** When the material resolved differs from that resolved before. *)
Fixpoint change_times (previous : option (list Z)) (l : list (list Z * Z)) : list Z :=
  match l with
  | [] => []
  | (fingerprint, t) :: l =>
      match previous with
      | Some old => if decide (old = fingerprint) then change_times (Some fingerprint) l
                    else t :: change_times (Some fingerprint) l
      | None => change_times (Some fingerprint) l
      end
  end.

Definition status_of_history (key : list Z) (scheme : string) (h : list outcome) : referenceStatus :=
  let resolved := omap (fingerprinted key) h in
  let failed := omap failed_at h in
  let changes := change_times None resolved in
  mkReferenceStatus scheme
    match last h with
    | None => referenceUnresolved
    | Some o => match o.1 with inl _ => referenceFailing | inr _ => referenceResolved end
    end
    (fst <$> last resolved) (uint64 (Z.of_nat (length h))) (uint64 (Z.of_nat (length failed)))
    (uint64 (Z.of_nat (length changes)))
    (default 0 (snd <$> last resolved)) (default 0 (last failed)) (default 0 (last changes)).

Lemma change_times_snoc l f t previous :
  change_times previous (l ++ [(f, t)]) =
    change_times previous l ++
      match match last l with Some (old, _) => Some old | None => previous end with
      | Some old => if decide (old = f) then [] else [t]
      | None => []
      end.
Proof.
  revert previous. induction l as [|[g u] l IH]; intros previous.
  - cbn. destruct previous as [old|]; [|done]. by destruct (decide (old = f)).
  - rewrite last_cons. cbn [app change_times]. destruct previous as [old|]; [destruct (decide (old = g))|];
      rewrite IH; by destruct (last l) as [[]|].
Qed.

Lemma record_status_history key scheme h result now :
  record_status key result now (status_of_history key scheme h) = status_of_history key scheme (h ++ [(result, now)]).
Proof.
  unfold status_of_history. rewrite !omap_app, last_snoc, length_app. cbn [omap list_omap fingerprinted failed_at fst snd].
  unfold record_status. cbn [rs_scheme rs_status rs_fingerprint rs_resolutionAttempts rs_resolutionFailures rs_rotations
    rs_lastResolvedAt rs_lastFailedAt rs_lastRotatedAt].
  destruct result as [err|material]; cbn [fingerprinted failed_at fst snd].
  - rewrite app_nil_r, length_app, last_snoc, !uint64_add, !Nat2Z.inj_add. done.
  - rewrite app_nil_r, last_snoc, change_times_snoc, length_app, uint64_add, !Nat2Z.inj_add.
    destruct (last (omap (fingerprinted key) h)) as [[old t]|]; cbn [fmap option_fmap option_map fst snd].
    + destruct (decide (old = credentialFingerprint key material)) as [E|E].
      * rewrite bool_decide_eq_true_2 by done. by rewrite app_nil_r, Z.add_0_r.
      * rewrite bool_decide_eq_false_2 by done. by rewrite last_snoc, uint64_add.
    + by rewrite app_nil_r, Z.add_0_r.
Qed.

(** The critical sections of a registry, one call each; [EvRecord] is the end of a
    [Resolve], whose source answered [result]. *)
Inductive registry_event (Source : Type) :=
  | EvRegister (scheme : string) (source : option Source)
  | EvTrack (references : list string)
  | EvRecord (ref : string) (result : string + Material) (now : Z).
#[global] Arguments EvRegister {Source}.
#[global] Arguments EvTrack {Source}.
#[global] Arguments EvRecord {Source}.

Section History.
Context `{UnicodeTables} {Source : Type}.

Definition run_event (r : Registry Source) (ev : registry_event Source) : Registry Source :=
  match ev with
  | EvRegister scheme source => match Register scheme source r with inr r => r | inl _ => r end
  | EvTrack references => match TrackReferences references r with inr r => r | inl _ => r end
  | EvRecord ref result now => recordResolution ref result now r
  end.

(** What each tracked reference has seen since it was declared. *)
Definition remember (m : gmap string (list outcome)) (ev : registry_event Source) : gmap string (list outcome) :=
  match ev with
  | EvRegister _ _ => m
  | EvTrack references =>
      if forallb (fun ref => bool_decide (Ref_Validate ref = None)) references
      then foldl (fun tracked ref => <[ref := []]> tracked) ∅ references else m
  | EvRecord ref result now => alter (fun h => h ++ [(result, now)]) ref m
  end.

Definition remembered (key : list Z) (m : gmap string (list outcome)) : gmap string referenceStatus :=
  map_imap (fun ref h => Some (status_of_history key (scheme_of ref) h)) m.

Lemma remembered_insert key m ref h :
  remembered key (<[ref := h]> m) = <[ref := status_of_history key (scheme_of ref) h]> (remembered key m).
Proof. unfold remembered. by rewrite map_imap_insert. Qed.

Lemma remembered_lookup key m ref :
  remembered key m !! ref = status_of_history key (scheme_of ref) <$> m !! ref.
Proof. unfold remembered. rewrite map_lookup_imap. by destruct (m !! ref). Qed.

Lemma run_event_remembers key m r ev :
  re_hmacKey r = key -> re_references r = remembered key m ->
  re_hmacKey (run_event r ev) = key /\ re_references (run_event r ev) = remembered key (remember m ev).
Proof.
  intros <- Hr. destruct ev as [scheme source|references|ref result now]; cbn.
  - unfold Register. destruct source; [|done]. destruct (_ || _); [done|]. destruct (wrap _ _); [done|].
    by destruct (re_sources r !! _).
  - unfold TrackReferences.
    assert (Hc : check_all (fun ref => wrap "credential reference: " (Ref_Validate ref)) references = None <->
      forallb (fun ref => bool_decide (Ref_Validate ref = None)) references = true).
    { rewrite check_all_None, forallb_forall, Forall_forall.
      setoid_rewrite wrap_None. setoid_rewrite bool_decide_eq_true. by setoid_rewrite list_elem_of_In. }
    destruct (check_all _ _) as [err|]; destruct (forallb _ _); try done; [by destruct Hc as [_ Hc]; discriminate Hc|..].
    2: by destruct Hc as [Hc _]; discriminate Hc.
    split; [done|]. cbn. assert (E : (∅ : gmap string referenceStatus) = remembered (re_hmacKey r) ∅) by done.
    rewrite E. generalize (∅ : gmap string (list outcome)) as m0. clear.
    induction references as [|ref references IH]; intros m0; [done|]. cbn [foldl].
    by rewrite <- IH, remembered_insert.
  - unfold recordResolution. rewrite Hr, remembered_lookup.
    destruct (m !! ref) as [h|] eqn:Hm; cbn [fmap option_fmap option_map].
    + cbn [re_references re_hmacKey]. split; [done|]. rewrite record_status_history, <- remembered_insert. f_equal. apply map_eq. intros i.
      destruct (decide (i = ref)) as [->|Hne]; [by rewrite lookup_insert_eq, lookup_alter_eq, Hm|].
      by rewrite lookup_insert_ne, lookup_alter_ne.
    + split; [done|]. rewrite Hr. f_equal. symmetry. apply map_eq. intros i.
      destruct (decide (i = ref)) as [->|Hne]; [by rewrite lookup_alter_eq, Hm|by rewrite lookup_alter_ne].
Qed.

(** A registry remembers exactly what its tracked references resolved to. After
    any sequence of its critical sections the references are those of the last
    declaration that was accepted, and the status of each is determined by the
    outcomes recorded since: the last one decides it, and the attempts, the failures,
    the rotations (changes of the fingerprint between resolutions that follow each
    other) and their newest times are those of the history. *)
Theorem registry_remembers_history key events :
  re_references (foldl run_event (NewRegistry key) events) = remembered key (foldl remember ∅ events).
Proof.
  enough (Hg : forall r m, re_hmacKey r = key -> re_references r = remembered key m ->
    re_references (foldl run_event r events) = remembered key (foldl remember m events)) by by apply Hg.
  induction events as [|ev events IH]; intros r m Hk Hr; [done|]. cbn [foldl].
  destruct (run_event_remembers key m r ev Hk Hr). by apply IH.
Qed.

(** The status tells what happened. After any sequence of the critical sections
    of a registry, in whatever order the maps are visited, [CredentialStatus] lists
    each scheme that is registered or tracked once, sorted, and reports of its
    references what their histories since the last accepted declaration say: how many
    resolved, failed or were never tried last, the attempts, failures and rotations,
    and the newest times; the totals are those of all tracked references. *)
Theorem credential_status_tells_history key events visitReferences visit now :
  (forall m, visitReferences m ≡ₚ (map_to_list m).*2) -> (forall m, visit m ≡ₚ (map_to_list m).*2) ->
  let registry := foldl run_event (NewRegistry key) events in
  let tracked := (map_to_list (remembered key (foldl remember ∅ events))).*2 in
  CredentialStatus visitReferences visit now registry =
    report_spec now (elements (dom (re_sources registry) ∪ list_to_set (rs_scheme <$> tracked)))
      (reference_item <$> tracked).
Proof.
  intros HvR Hv. cbn zeta. rewrite <- registry_remembers_history. by apply credential_status_counts.
Qed.
End History.

(** ** A concrete registry *)
#[local] Instance ascii_text : UnicodeTables := {|
  unicode_ToLower s := s;
  unicode_TrimSpace s := s;
|}.

Definition secret (version : string) : string + Material := inr (mkMaterial [1; 2; 3] version).

Definition vault_events : list (registry_event unit) :=
  [EvRegister "Vault" (Some tt); EvRegister "file" (Some tt);
   EvTrack ["vault://a"; "vault://b"; "env://C"]%string;
   EvRecord "vault://a" (secret "1") 10; EvRecord "vault://b" (inl "timeout"%string) 11;
   EvRecord "vault://a" (secret "2") 12; EvRecord "vault://other" (secret "9") 13].

Definition vault_registry : Registry unit := foldl run_event (NewRegistry [7]) vault_events.
Definition all_values {A} (m : gmap string A) : list A := (map_to_list m).*2.

Example vault_status :
  CredentialStatus all_values all_values 20 vault_registry =
    mkResolutionReport 20 ResolutionDegraded 3 1 1 1
      [mkSourceStatus "env" ResolutionUnknown 1 0 0 1 0 0 0 None None None;
       mkSourceStatus "file" ResolutionUnused 0 0 0 0 0 0 0 None None None;
       mkSourceStatus "vault" ResolutionDegraded 2 1 1 0 3 1 1 (Some 12) (Some 11) (Some 12)].
Proof. vm_compute. reflexivity. Qed.

Lemma credential_status_tells_history_witness :
  CredentialStatus all_values (fun m => reverse (all_values m)) 20 vault_registry =
    report_spec 20
      (elements (dom (re_sources vault_registry) ∪
         list_to_set (rs_scheme <$> (map_to_list (remembered [7] (foldl remember ∅ vault_events))).*2)))
      (reference_item <$> (map_to_list (remembered [7] (foldl remember ∅ vault_events))).*2).
Proof.
  apply (credential_status_tells_history [7] vault_events all_values (fun m => reverse (all_values m)) 20).
  - intros m. reflexivity.
  - intros m. apply reverse_Permutation.
Defined.
