(* ===== verification/Health.v ===== *)
(** * Health of the process ([pkg/gateway/health.go])

    What the operations listener answers: liveness, readiness, the state of the
    targets and that of the credential sources.  A source is anything that can be
    asked for its statuses; asking the target manager advances its circuits. *)

From stdpp Require Import base gmap list strings sorting.
From Stdlib Require Import Ascii ZArith Lia.
From S2P Require Import Prelude GoStrings Policies Capabilities Config Targets SecretSources.
From S2P Require Import Fixtures TargetFacts TargetSystem TargetTheorems.

Local Open Scope Z_scope.
Local Open Scope go_scope.

Definition TargetHealthHealthy : string := "healthy".
Definition TargetHealthDegraded : string := "degraded".
Definition TargetHealthUnavailable : string := "unavailable".

Record TargetHealthEntry := mkTargetHealthEntry {
  te_Deployment : string;
  te_CircuitState : CircuitState;
  te_AdmissionAvailable : bool;
  te_ActiveRequests : Z;
  te_MaxConcurrency : Z;
  te_EjectedUntil : option Z;
  te_HalfOpenProbeActive : bool;
}.

Record TargetHealth := mkTargetHealth {
  th_Status : string;
  th_Total : Z;
  th_Available : Z;
  th_Saturated : Z;
  th_Ejected : Z;
  th_HalfOpen : Z;
  th_Deployments : list TargetHealthEntry;
}.

(** ** The summary of the targets *)
Definition entry_of (status : TargetStatus) : TargetHealthEntry :=
  mkTargetHealthEntry (ts_Deployment status) (ts_CircuitState status) (AdmissionAvailable status)
    (ts_ActiveRequests status) (ts_MaxConcurrency status)
    (if time_IsZero (ts_EjectedUntil status) then None else Some (ts_EjectedUntil status))
    (ts_HalfOpenProbeActive status).

(** The body of the loop. *)
Definition count_status (result : TargetHealth) (status : TargetStatus) : TargetHealth :=
  let one (b : bool) := if b then 1 else 0 in
  mkTargetHealth (th_Status result) (th_Total result)
    (th_Available result + one (AdmissionAvailable status))
    (th_Saturated result + one (AtCapacity status))
    (th_Ejected result + one (is_open (ts_CircuitState status)))
    (th_HalfOpen result + one (is_half_open (ts_CircuitState status)))
    (th_Deployments result ++ [entry_of status]).

Definition with_health (status : string) (h : TargetHealth) : TargetHealth :=
  mkTargetHealth status (th_Total h) (th_Available h) (th_Saturated h) (th_Ejected h) (th_HalfOpen h)
    (th_Deployments h).

(** [Health.TargetHealth] of the statuses of the source, if there is one. *)
Definition summarize (statuses : option (list TargetStatus)) : TargetHealth :=
  match statuses with
  | None => mkTargetHealth TargetHealthUnavailable 0 0 0 0 0 []
  | Some statuses =>
      let statuses := stable_sort (fun x y => String.ltb (ts_Deployment x) (ts_Deployment y)) statuses in
      let result :=
        foldl count_status
          (mkTargetHealth TargetHealthHealthy (Z.of_nat (length statuses)) 0 0 0 0 []) statuses in
      if (th_Total result =? 0) || (th_Available result =? 0) then with_health TargetHealthUnavailable result
      else if (0 <? th_Ejected result) || (0 <? th_HalfOpen result) || (0 <? th_Saturated result)
      then with_health TargetHealthDegraded result else result
  end.

(** ** The listener *)

(** The bodies that are written as JSON. *)
Inductive health_body :=
  | BodyStatus (status : string)
  | BodyError (message : string)
  | BodyTargets (health : TargetHealth)
  | BodyCredentials (report : ResolutionReport).

Record health_response := mkHealthResponse {
  hr_Code : Z;
  hr_Allow : option string;
  hr_Body : health_body;
}.

Definition writeJSON (status : Z) (value : health_body) : health_response := mkHealthResponse status None value.

Definition allowGET (httpMethod : string) : option health_response :=
  if String.eqb httpMethod "GET" || String.eqb httpMethod "HEAD" then None
  else Some (mkHealthResponse 405 (Some "GET, HEAD"%string) (BodyError "method not allowed")).

Section Listener.
Context {W TS CS : Type}.
Context (source_Statuses : TS -> W -> list TargetStatus * W).
Context (source_CredentialStatus : CS -> W -> ResolutionReport * W).

(** [Health]: three atomics. *)
Record Health := mkHealth {
  h_ready : bool;
  h_targets : option TS;
  h_credentialSources : option CS;
}.

Definition NewHealth : Health := mkHealth false None None.
Definition SetReady (ready : bool) (h : Health) : Health := mkHealth ready (h_targets h) (h_credentialSources h).
Definition SetTargetStatusSource (source : option TS) (h : Health) : Health :=
  mkHealth (h_ready h) source (h_credentialSources h).
Definition SetCredentialStatusSource (source : option CS) (h : Health) : Health :=
  mkHealth (h_ready h) (h_targets h) source.

Definition Health_TargetHealth (h : Health) (w : W) : TargetHealth * W :=
  match h_targets h with
  | None => (summarize None, w)
  | Some source => let '(statuses, w) := source_Statuses source w in (summarize (Some statuses), w)
  end.

Definition Health_CredentialStatus (h : Health) (now : Z) (w : W) : ResolutionReport * W :=
  match h_credentialSources h with
  | None => (mkResolutionReport now ResolutionUnavailable 0 0 0 0 [], w)
  | Some source => source_CredentialStatus source w
  end.

(** The handlers of [Health.Handler], by path. *)
Definition serve_live (httpMethod : string) : health_response :=
  default (writeJSON 200 (BodyStatus "live")) (allowGET httpMethod).

Definition serve_ready (httpMethod : string) (h : Health) : health_response :=
  match allowGET httpMethod with
  | Some refused => refused
  | None => if h_ready h then writeJSON 200 (BodyStatus "ready") else writeJSON 503 (BodyStatus "not_ready")
  end.

Definition serve_targets (httpMethod : string) (h : Health) (w : W) : health_response * W :=
  match allowGET httpMethod with
  | Some refused => (refused, w)
  | None =>
      let '(status, w) := Health_TargetHealth h w in
      (writeJSON (if String.eqb (th_Status status) TargetHealthUnavailable then 503 else 200) (BodyTargets status), w)
  end.

Definition serve_credentials (httpMethod : string) (h : Health) (now : Z) (w : W) : health_response * W :=
  match allowGET httpMethod with
  | Some refused => (refused, w)
  | None =>
      let '(status, w) := Health_CredentialStatus h now w in
      (writeJSON (if String.eqb (st_Status status) ResolutionUnavailable then 503 else 200) (BodyCredentials status), w)
  end.
End Listener.
#[global] Arguments Health : clear implicits.

(** The target manager as a source; [now name] is the clock when [name] is read. *)
Definition manager_Statuses (now : string -> Z) (m : TargetManager) : list TargetStatus * TargetManager :=
  (Statuses m now).1.

(** ** The statuses of a manager *)
Lemma Status_ext m m' now name :
  tm_targets m !! name = tm_targets m' !! name -> (Status m now name).1.1 = (Status m' now name).1.1.
Proof.
  unfold Status. intros ->. destruct (tm_targets m' !! name) as [t|]; [|done]. by destruct (advance t now).
Qed.

Lemma Status_frame m now name other :
  name <> other -> tm_targets (Status m now name).1.2 !! other = tm_targets m !! other.
Proof.
  intros Hne. unfold Status. destruct (tm_targets m !! name) as [t0|]; [|done].
  destruct (advance t0 now) as [t1 tr]. cbn. by rewrite lookup_insert_ne.
Qed.

(** Reading one status does not change another. *)
Lemma statuses_loop_eq names m now :
  NoDup names -> (statuses_loop m now names).1.1 = omap (fun name => (Status m (now name) name).1.1) names.
Proof.
  intros Hnd.
  enough (Hg : forall m', (forall name, name ∈ names -> tm_targets m' !! name = tm_targets m !! name) ->
    (statuses_loop m' now names).1.1 = omap (fun name => (Status m (now name) name).1.1) names) by by apply Hg.
  induction Hnd as [|name names Hn _ IH]; intros m' Hm; [done|]. cbn [statuses_loop omap list_omap].
  rewrite <- (Status_ext m' m (now name) name) by (apply Hm; by left).
  pose proof (Status_frame m' (now name) name) as Hf.
  destruct (Status m' (now name) name) as [[st m1] ev]. cbn [fst snd] in *.
  specialize (IH m1). destruct (statuses_loop m1 now names) as [[sts m2] ev']. cbn [fst] in *.
  rewrite IH; [by destruct st|]. intros other Ho. rewrite Hf by (by intros ->). apply Hm. by right.
Qed.

(** ** Counting *)
Definition count_true {A} (P : A -> bool) (l : list A) : Z := zsum (fun x => if P x then 1 else 0) l.

Lemma count_true_nonneg {A} (P : A -> bool) l : 0 <= count_true P l.
Proof. unfold count_true. induction l as [|x l IH]; cbn; [lia|]. destruct (P x); lia. Qed.

Lemma count_true_zero {A} (P : A -> bool) l : count_true P l = 0 <-> Forall (fun x => P x = false) l.
Proof.
  induction l as [|x l IH]; [by split|]. rewrite Forall_cons, <- IH. pose proof (count_true_nonneg P l) as Hp.
  unfold count_true in *. cbn. destruct (P x); intuition lia.
Qed.

Lemma foldl_count_status l h :
  foldl count_status h l =
    mkTargetHealth (th_Status h) (th_Total h) (th_Available h + count_true AdmissionAvailable l)
      (th_Saturated h + count_true AtCapacity l)
      (th_Ejected h + count_true (fun s => is_open (ts_CircuitState s)) l)
      (th_HalfOpen h + count_true (fun s => is_half_open (ts_CircuitState s)) l)
      (th_Deployments h ++ (entry_of <$> l)).
Proof.
  revert h. induction l as [|x l IH]; intros h; cbn [foldl].
  - destruct h. cbn. by rewrite !Z.add_0_r, app_nil_r.
  - rewrite IH. unfold count_status, count_true. cbn [zsum th_Status th_Total th_Available th_Saturated th_Ejected
      th_HalfOpen th_Deployments fmap list_fmap]. rewrite <- !Z.add_assoc, <- app_assoc. done.
Qed.

(** The summary of a list of statuses. *)
Lemma summarize_spec statuses :
  let h := summarize (Some statuses) in
  th_Total h = Z.of_nat (length statuses) /\ th_Available h = count_true AdmissionAvailable statuses /\
  th_Saturated h = count_true AtCapacity statuses /\
  th_Ejected h = count_true (fun s => is_open (ts_CircuitState s)) statuses /\
  th_HalfOpen h = count_true (fun s => is_half_open (ts_CircuitState s)) statuses /\
  te_Deployment <$> th_Deployments h = sort_Strings (ts_Deployment <$> statuses) /\
  th_Status h =
    if (Z.of_nat (length statuses) =? 0) || (count_true AdmissionAvailable statuses =? 0) then TargetHealthUnavailable
    else if (0 <? count_true (fun s => is_open (ts_CircuitState s)) statuses) ||
            (0 <? count_true (fun s => is_half_open (ts_CircuitState s)) statuses) ||
            (0 <? count_true AtCapacity statuses)
    then TargetHealthDegraded else TargetHealthHealthy.
Proof.
  set (less := fun x y => String.ltb (ts_Deployment x) (ts_Deployment y)).
  assert (Hp : stable_sort less statuses ≡ₚ statuses) by apply stable_sort_Permutation.
  assert (Hc : forall P, count_true P (stable_sort less statuses) = count_true P statuses).
  { intros P. unfold count_true. by rewrite Hp. }
  assert (Hn : te_Deployment <$> (entry_of <$> stable_sort less statuses) = sort_Strings (ts_Deployment <$> statuses)).
  { unfold sort_Strings. rewrite (stable_sort_fmap less) by done.
    symmetry. exact (list_fmap_compose entry_of te_Deployment (stable_sort less statuses)). }
  unfold summarize. fold less. rewrite foldl_count_status, (Permutation_length Hp).
  cbn [th_Status th_Total th_Available th_Saturated th_Ejected th_HalfOpen th_Deployments app]. rewrite !Hc, !Z.add_0_l.
  destruct (_ || _); [by split_and!|]. by destruct (_ || _); split_and!.
Qed.

(** ** The health of a manager *)
Definition eligible (m : TargetManager) (now : string -> Z) (name : string) : bool := (Eligible m (now name) name).1.1.

Lemma count_true_omap {A B} (P : A -> bool) (Q : B -> bool) (f : A -> option B) (l : list A) :
  (forall x, x ∈ l -> exists y, f x = Some y /\ Q y = P x) -> count_true Q (omap f l) = count_true P l.
Proof.
  unfold count_true. induction l as [|x l IH]; intros Hf; [done|]. cbn.
  destruct (Hf x ltac:(left)) as (y & -> & Hy). cbn. rewrite Hy, IH; [done|]. intros z Hz. apply Hf. by right.
Qed.

Lemma omap_fmap_id {A B} (f : A -> option B) (g : B -> A) (l : list A) :
  (forall x, x ∈ l -> exists y, f x = Some y /\ g y = x) -> g <$> omap f l = l.
Proof.
  induction l as [|x l IH]; intros Hf; [done|]. cbn. destruct (Hf x ltac:(left)) as (y & -> & Hy).
  cbn. rewrite Hy, IH; [done|]. intros z Hz. apply Hf. by right.
Qed.

Lemma new_manager_names ds observed m :
  NewTargetManager ds observed = inr m ->
  NoDup (dep_Name <$> ds) /\ forall name, is_Some (tm_targets m !! name) <-> name ∈ dep_Name <$> ds.
Proof.
  unfold NewTargetManager. destruct (add_targets ∅ ds) as [|targets] eqn:E; [done|]. intros [= <-].
  destruct (add_targets_accepts ds ∅) as [[Hn _] _]; [by exists targets|]. split; [done|]. intros name. cbn.
  rewrite (add_targets_dom _ _ _ E), lookup_empty, list_elem_of_In. split; [by intros [[? ?]|?]|by right].
Qed.

(** The targets of a reachable manager. *)
Lemma reachable_names ds observed m0 n s :
  NewTargetManager ds observed = inr m0 -> reach m0 n s -> Z.of_nat n < two64 ->
  (map_to_list (tm_targets (s_manager s))).*1 ≡ₚ dep_Name <$> ds /\
  forall name t, tm_targets (s_manager s) !! name = Some t -> t_deployment t = name.
Proof.
  intros Hm Hr Hb. destruct (new_manager_names _ _ _ Hm) as [Hnd Hnames].
  destruct (reach_conf _ _ _ _ _ Hm Hr Hb) as [Hconf _].
  assert (Hdom : forall name, is_Some (tm_targets (s_manager s) !! name) <-> is_Some (tm_targets m0 !! name)).
  { intros name. pose proof (f_equal (fun c => c !! name) Hconf) as E. unfold conf in E. cbn in E.
    rewrite !lookup_fmap in E. destruct (tm_targets (s_manager s) !! name), (tm_targets m0 !! name);
      try discriminate E; split; intros []; eauto. }
  split.
  - apply NoDup_Permutation; [apply NoDup_fst_map_to_list|done|]. intros name. rewrite <- Hnames, <- Hdom.
    rewrite list_elem_of_fmap. split; [intros ([k t] & -> & Ht%elem_of_map_to_list); by eexists|].
    intros [t Ht]. exists (name, t). by rewrite elem_of_map_to_list.
  - intros name t Ht. assert (Hin : name ∈ dep_Name <$> ds) by (apply Hnames, Hdom; by eexists).
    apply list_elem_of_fmap in Hin as (d & -> & Hd%list_elem_of_In).
    destruct (reachable_deployment _ _ _ _ _ _ Hm Hr Hb Hd) as (t' & Ht' & Ec & _).
    assert (t' = t) as -> by congruence. by injection Ec.
Qed.

(** What one status says. *)
Lemma Status_tells m now name t :
  tm_targets m !! name = Some t -> t_deployment t = name ->
  exists st, (Status m now name).1.1 = Some st /\ ts_Deployment st = name /\
    AdmissionAvailable st = (Eligible m now name).1.1.
Proof.
  intros Ht Hn. destruct (status_previews_admission m now name t Ht) as (st & Hs & Ha & _).
  exists st. split_and!; [done| |done]. unfold Status in Hs. rewrite Ht in Hs.
  pose proof (frame_conf _ _ (advance_frame t now)) as Hf. destruct (advance t now) as [t1 tr]. cbn in Hs.
  injection Hs as <-. unfold conf_of in Hf. cbn in *. congruence.
Qed.

(** The statuses of a reachable manager, one for each deployment. *)
Lemma reachable_statuses ds observed m0 n s now :
  NewTargetManager ds observed = inr m0 -> reach m0 n s -> Z.of_nat n < two64 ->
  let statuses := (Statuses (s_manager s) now).1.1 in
  ts_Deployment <$> statuses ≡ₚ dep_Name <$> ds /\
  count_true AdmissionAvailable statuses = count_true (fun d => eligible (s_manager s) now (dep_Name d)) ds.
Proof.
  intros Hm Hr Hb. destruct (reachable_names _ _ _ _ _ Hm Hr Hb) as [Hp Hd]. cbn zeta. unfold Statuses.
  set (names := sort_Strings _). assert (Hnames : names ≡ₚ (map_to_list (tm_targets (s_manager s))).*1)
    by apply sort_Strings_Permutation.
  assert (Hin : forall name, name ∈ names -> exists st, (Status (s_manager s) (now name) name).1.1 = Some st /\
    ts_Deployment st = name /\ AdmissionAvailable st = eligible (s_manager s) now name).
  { intros name Hn. rewrite Hnames in Hn. apply list_elem_of_fmap in Hn as ([k t] & -> & Ht%elem_of_map_to_list).
    eapply Status_tells; eauto. }
  rewrite statuses_loop_eq by (rewrite Hnames; apply NoDup_fst_map_to_list). split.
  - rewrite omap_fmap_id; [by rewrite Hnames|]. intros name Hn. destruct (Hin name Hn) as (st & ? & ? & _). eauto.
  - rewrite (count_true_omap (eligible (s_manager s) now)).
    + unfold count_true. rewrite Hnames, Hp. apply zsum_fmap.
    + intros name Hn. destruct (Hin name Hn) as (st & ? & _ & ?). eauto.
Qed.

(** The target listing previews admission. In every reachable state of the
    targets, with requests in flight and circuits open or probing, a read of
    [/health/targets] lists every configured deployment once, in order of its name;
    [available] is the number of deployments that would admit a request at that
    moment, and the answer is 503, with the status unavailable, exactly when none
    would; it is healthy exactly when some would, no circuit is open or half open
    and no deployment is at its limit. *)
Theorem target_health_previews_admission {CS} ds observed m0 n s now ready (credentials : option CS) :
  NewTargetManager ds observed = inr m0 -> reach m0 n s -> Z.of_nat n < two64 ->
  let h := mkHealth ready (Some now) credentials in
  let response := (serve_targets manager_Statuses "GET" h (s_manager s)).1 in
  exists health, hr_Body response = BodyTargets health /\
    te_Deployment <$> th_Deployments health = sort_Strings (dep_Name <$> ds) /\
    th_Total health = Z.of_nat (length ds) /\
    th_Available health = count_true (fun d => eligible (s_manager s) now (dep_Name d)) ds /\
    (hr_Code response = 503 <-> Forall (fun d => eligible (s_manager s) now (dep_Name d) = false) ds) /\
    (hr_Code response = 503 <-> th_Status health = TargetHealthUnavailable) /\
    (th_Status health = TargetHealthHealthy <->
       0 < th_Available health /\ th_Ejected health = 0 /\ th_HalfOpen health = 0 /\ th_Saturated health = 0).
Proof.
  intros Hm Hr Hb. cbn zeta. destruct (reachable_statuses ds observed m0 n s now Hm Hr Hb) as [Hp Hc].
  unfold serve_targets, allowGET. cbn [String.eqb]. cbn -[summarize Statuses writeJSON].
  set (statuses := (Statuses (s_manager s) now).1.1) in *.
  assert (Hst : manager_Statuses now (s_manager s) = (statuses, (Statuses (s_manager s) now).1.2)).
  { unfold manager_Statuses, statuses. by destruct (Statuses (s_manager s) now) as [[]]. }
  unfold Health_TargetHealth. cbn [h_targets]. rewrite Hst. cbn [fst hr_Code hr_Body writeJSON].
  exists (summarize (Some statuses)). split; [done|].
  destruct (summarize_spec statuses) as (E1 & E2 & E3 & E4 & E5 & E6 & E7).
  assert (Hlen : length statuses = length ds) by (pose proof (Permutation_length Hp) as E; by rewrite !length_fmap in E).
  assert (Hun : th_Status (summarize (Some statuses)) = TargetHealthUnavailable <->
    count_true AdmissionAvailable statuses = 0).
  { rewrite E7. destruct (Z.eqb_spec (Z.of_nat (length statuses)) 0) as [E0|E0]; cbn [orb].
    - split; [|done]. intros _. destruct statuses; [done|]. cbn in E0. lia.
    - destruct (Z.eqb_spec (count_true AdmissionAvailable statuses) 0) as [|Hne]; [done|].
      match goal with |- context [if ?b then _ else _] => destruct b end; (split; [discriminate|intros Hz; by destruct Hne]). }
  assert (Hcode : (if String.eqb (th_Status (summarize (Some statuses))) TargetHealthUnavailable then 503 else 200) = 503 <->
    th_Status (summarize (Some statuses)) = TargetHealthUnavailable).
  { destruct (String.eqb_spec (th_Status (summarize (Some statuses))) TargetHealthUnavailable); split; done. }
  split; [rewrite E6; by apply sort_Strings_perm|]. split; [by rewrite E1, Hlen|]. split; [by rewrite E2|].
  split; [|split].
  - by rewrite Hcode, Hun, Hc, count_true_zero.
  - done.
  - rewrite E2, E3, E4, E5. clear Hun Hcode. rewrite E7.
    pose proof (count_true_nonneg AdmissionAvailable statuses). pose proof (count_true_nonneg AtCapacity statuses).
    pose proof (count_true_nonneg (fun s => is_open (ts_CircuitState s)) statuses).
    pose proof (count_true_nonneg (fun s => is_half_open (ts_CircuitState s)) statuses).
    destruct (Z.eqb_spec (Z.of_nat (length statuses)) 0) as [E0|E0]; cbn [orb].
    { destruct statuses; [|cbn in E0; lia]. split; [done|]. by intros [? _]. }
    repeat match goal with |- context [Z.eqb ?a ?b] => destruct (Z.eqb_spec a b); cbn [orb] end;
    repeat match goal with |- context [Z.ltb ?a ?b] => destruct (Z.ltb_spec a b); cbn [orb] end;
      split; try done; intros; lia.
Qed.

(** After a failure trips the circuit of ["a"], it is listed as ejected, and later
    as half open with its probe in flight. *)
Definition listed (m : TargetManager) (t : Z) : health_response :=
  (serve_targets manager_Statuses "GET" (mkHealth (CS := unit) true (Some (fun _ => t)) None) m).1.

Example ejected_is_listed :
  match hr_Body (listed (s_manager w3) (6 * Second)) with
  | BodyTargets h => (hr_Code (listed (s_manager w3) (6 * Second)), th_Status h, th_Total h, th_Available h, th_Ejected h)
  | _ => (0, ""%string, 0, 0, 0)
  end = (200, TargetHealthDegraded, 2, 1, 1).
Proof. vm_compute. reflexivity. Qed.

Lemma target_health_previews_admission_witness :
  exists health,
    hr_Body (listed (s_manager w4) (21 * Second)) = BodyTargets health /\
    te_Deployment <$> th_Deployments health = sort_Strings (dep_Name <$> fleet) /\
    th_Total health = Z.of_nat (length fleet) /\
    th_Available health = count_true (fun d => eligible (s_manager w4) (fun _ => 21 * Second) (dep_Name d)) fleet /\
    (hr_Code (listed (s_manager w4) (21 * Second)) = 503 <->
       Forall (fun d => eligible (s_manager w4) (fun _ => 21 * Second) (dep_Name d) = false) fleet) /\
    (hr_Code (listed (s_manager w4) (21 * Second)) = 503 <-> th_Status health = TargetHealthUnavailable) /\
    (th_Status health = TargetHealthHealthy <->
       0 < th_Available health /\ th_Ejected health = 0 /\ th_HalfOpen health = 0 /\ th_Saturated health = 0).
Proof.
  apply (target_health_previews_admission (CS := unit) fleet true fresh 4 w4 (fun _ => 21 * Second) true None fresh_new reach_w4).
  reflexivity.
Defined.
