(* ===== verification/ModelRouter.v ===== *)
(** * Selecting a model ([pkg/modelrouter])

    A request names a selector or a model; the policy engine plans the candidates
    ([Plan]), a strategy chooses one ([choose], [chooseStageRoute]), and [Route]
    answers the gateway ([native.go], [stage_signals.go]).  Outcomes of requests
    are averaged per model ([observations.go]).

    A selection is one step: it plans on one immutable snapshot, and its only
    write is one increment under [counterMu].  The hyperbolic tangent and the draws
    of [crypto/rand] are parameters. *)

From stdpp Require Import base gmap list strings pretty.
From Stdlib Require Import Ascii ZArith Lia SpecFloat.
From S2P Require Import Prelude GoStrings RouterPolicy.

Local Open Scope Z_scope.
Local Open Scope go_scope.

(** ** Requests and decisions *)
Inductive StageToolCategory := StageToolWrite | StageToolEdit | StageToolRead | StageToolPlan | StageToolOther.

Record StageEvent := mkStageEvent {
  sv_Category : StageToolCategory;
  sv_Severity : float64;
  sv_TestsPassed : bool;
}.

Record StageHistory := mkStageHistory {
  sh_Events : list StageEvent;
  sh_TurnDepth : Z;
  sh_Compacted : bool;
}.

Record StageDimensions := mkStageDimensions {
  sd_Severity : float64;
  sd_Spinning : float64;
  sd_Exploring : float64;
  sd_ProductionIntensity : float64;
}.

Record StageRouteTrace := mkStageRouteTrace {
  sx_Tier : string;
  sx_DecisionSource : string;
  sx_Score : float64;
  sx_Confidence : float64;
  sx_Dimensions : StageDimensions;
}.

(** [NormalizedRequest] *)
Record NormalizedRequest := mkNormalizedRequest {
  nr_Text : string;
  nr_StageHistory : StageHistory;
}.

Record CandidateTrace := mkCandidateTrace {
  ct_Model : string;
  ct_Eligible : bool;
  ct_Reason : string;
  ct_Score : option float64;
}.

Record RoutePlan := mkRoutePlan {
  pl_RequestedModel : string;
  pl_VirtualModel : string;
  pl_VirtualAlias : string;
  pl_RoutingPreset : string;
  pl_RouterKwargs : kwargs;
  pl_ProviderPriority : list string;
  pl_Strategy : string;
  pl_MatchedRule : string;
  pl_Revision : Z;
  pl_Candidates : list CandidateTrace;
  pl_Eligible : list string;
  pl_Models : gmap string ModelMetadata;
  pl_StageRouter : option StageRouterPolicy;
  pl_StageHistory : StageHistory;
  pl_MMProjection : option MMProjectionPolicy;
  pl_Explicit : bool;
}.

Record RouteDecision := mkRouteDecision {
  rd_RequestedModel : string;
  rd_ResolvedModel : string;
  rd_VirtualModel : string;
  rd_VirtualAlias : string;
  rd_RoutingPreset : string;
  rd_RouterKwargs : kwargs;
  rd_ProviderPriority : list string;
  rd_Strategy : string;
  rd_MatchedRule : string;
  rd_Reason : string;
  rd_Revision : Z;
  rd_Candidates : list CandidateTrace;
  rd_Stage : option StageRouteTrace;
  rd_projectionPolicy : option MMProjectionPolicy;
}.

Record ProviderStatePin := mkProviderStatePin {
  ps_VirtualModel : string;
  ps_Kind : string;
}.

(** [Input], with what a router reads of it. *)
Record Input := mkInput {
  in_RequestedModel : string;
  in_ResolvedVirtualModel : string;
  in_ProviderStatePin : option ProviderStatePin;
  in_Candidates : list string;
  in_RoutingText : string;
  in_StageHistory : StageHistory;
}.

Record Decision := mkDecision {
  de_VirtualModel : string;
  de_Router : string;
  de_Version : string;
  de_Reason : string;
  de_ProviderPriority : list string;
  de_MMProjection : option MMProjectionPolicy;
  de_Annotations : gmap string string;
  de_Stage : option StageRouteTrace;
}.

(** ** Constants and [math] *)
Definition f64_decimal (numerator denominator : Z) : float64 := f64_div (f64_of_int numerator) (f64_of_int denominator).
Definition stageStallTurnDepth : Z := 8.
Definition stageHardSeverity : float64 := f64_decimal 7 10.
Definition stageCriticalSeverity : float64 := f64_of_int 1.

Definition f64_sub (x y : float64) : float64 := f64_add x (f64_neg y).
Definition f64_infinity : float64 := S754_infinity false.
Definition f64_abs (x : float64) : float64 := SFabs x.

(** [math.Max] *)
Definition math_Max (x y : float64) : float64 :=
  if f64_eq x f64_infinity || f64_eq y f64_infinity then f64_infinity
  else if is_nan x || is_nan y then S754_nan
  else
    match x, y with
    | S754_zero sign, S754_zero _ => if sign then y else x
    | _, _ => if f64_lt y x then x else y
    end.

(** ** Observations *)
Definition average (previous ms : float64) : float64 :=
  if f64_eq previous f64_zero then ms
  else f64_add (f64_mul (f64_decimal 8 10) previous) (f64_mul (f64_decimal 2 10) ms).

Definition milliseconds (latency : Z) : float64 := f64_div (f64_of_int latency) (f64_of_int Millisecond).

(** The common part of [Observe] and [ObserveRoute]. *)
Definition observed_outcome (latency status inflight requests : Z) (o : ModelObservation) : ModelObservation :=
  mkModelObservation inflight requests
    (if (400 <=? status) || (status =? 0) then uint64 (ob_Errors o + 1) else ob_Errors o)
    (average (ob_EWMALatencyMS o) (milliseconds latency)) status.

Definition model_observation (r : RouterManager) (model : string) : ModelObservation :=
  default no_observation (rm_observations r !! model).

(** [Begin] *)
Definition Begin (model : string) (r : RouterManager) : RouterManager :=
  let o := model_observation r model in
  with_observations (<[model := mkModelObservation (int64 (ob_Inflight o + 1)) (uint64 (ob_Requests o + 1))
      (ob_Errors o) (ob_EWMALatencyMS o) (ob_LastStatus o)]> (rm_observations r)) r.

Definition Observe (model : string) (latency status : Z) (r : RouterManager) : RouterManager :=
  let o := model_observation r model in
  let inflight := if 0 <? ob_Inflight o then ob_Inflight o - 1 else ob_Inflight o in
  with_observations (<[model := observed_outcome latency status inflight (ob_Requests o) o]> (rm_observations r)) r.

Definition ObserveRoute (model : string) (latency status : Z) (r : RouterManager) : RouterManager :=
  let o := model_observation r model in
  with_observations (<[model := observed_outcome latency status (ob_Inflight o) (uint64 (ob_Requests o + 1)) o]>
    (rm_observations r)) r.

(** ** Stage routing *)
Definition stageDefaultTier (picker : string) : string :=
  if String.eqb picker StagePickerCapableFirst then "capable" else "efficient".

Definition count_category (P : StageToolCategory -> bool) (events : list StageEvent) : Z :=
  Z.of_nat (length (List.filter (fun e => P (sv_Category e)) events)).

Definition boolFloat (value : bool) : float64 := if value then f64_of_int 1 else f64_zero.

(** [stageDimensions]: the dimensions, whether tests passed, and whether there are
    signals. *)
Definition stageDimensions (history : StageHistory) (window : Z) : StageDimensions * bool * bool :=
  match sh_Events history with
  | [] => (mkStageDimensions f64_zero f64_zero f64_zero f64_zero, false, false)
  | events =>
      let window := if window <=? 0 then 3 else window in
      let recent := drop (length events - Z.to_nat window) events in
      let severity := foldl (fun severity e => math_Max severity (sv_Severity e)) f64_zero recent in
      let testsPassed := existsb sv_TestsPassed recent in
      let production := count_category (fun c => match c with StageToolWrite | StageToolEdit => true | _ => false end) recent in
      let inspection := count_category (fun c => match c with StageToolRead | StageToolPlan => true | _ => false end) recent in
      let known := production + inspection in
      let stalled := (stageStallTurnDepth <=? sh_TurnDepth history) && (production =? 0) in
      let intensity := if 0 <? known then f64_div (f64_of_int production) (f64_of_int known) else f64_zero in
      (mkStageDimensions severity (boolFloat (stalled && (inspection =? 0))) (boolFloat (stalled && (0 <? inspection)))
         intensity, testsPassed, true)
  end.

Section Stage.
Context (math_Tanh : float64 -> float64).

Definition stage_score (d : StageDimensions) : float64 :=
  math_Tanh (f64_mul f64_half
    (f64_sub (f64_add (f64_add (f64_div (sd_Severity d) stageHardSeverity) (sd_Spinning d)) (sd_Exploring d))
       (sd_ProductionIntensity d))).

(** The tier, its source, the score and the confidence. *)
Definition stage_tier (policy : StageRouterPolicy) (history : StageHistory)
  : string * string * float64 * float64 * StageDimensions :=
  let '(dimensions, testsPassed, hasSignals) := stageDimensions history (effectiveWindow policy) in
  let score := stage_score dimensions in
  let confidence := f64_abs score in
  if sh_Compacted history || f64_le stageCriticalSeverity (sd_Severity dimensions)
  then ("capable", "override", f64_zero, f64_of_int 1, dimensions)%string
  else if negb hasSignals
  then (stageDefaultTier (effectivePicker policy), "fall_open", f64_zero, f64_zero, dimensions)%string
  else if testsPassed && f64_lt f64_zero (sd_ProductionIntensity dimensions) && f64_eq (sd_Severity dimensions) f64_zero
  then ("efficient", "tests_passed", f64_zero, f64_of_int 1, dimensions)%string
  else if f64_le confidence (effectiveThreshold policy)
  then (stageDefaultTier (effectivePicker policy), "fall_open", score, confidence, dimensions)%string
  else if f64_lt f64_zero score then ("capable", "dimensions", score, confidence, dimensions)%string
  else ("efficient", "dimensions", score, confidence, dimensions)%string.

Definition tier_target (policy : StageRouterPolicy) (tier : string) : string :=
  if String.eqb tier "capable" then sr_CapableModel policy else sr_EfficientModel policy.
Definition other_tier (tier : string) : string := if String.eqb tier "capable" then "efficient" else "capable".

(** [chooseStageRoute]; [None] stands for an empty target. *)
Definition chooseStageRoute (plan : RoutePlan) : option (string * StageRouteTrace) :=
  policy ← pl_StageRouter plan;
  let '(tier, source, score, confidence, dimensions) := stage_tier policy (pl_StageHistory plan) in
  if bool_decide (tier_target policy tier ∈ pl_Eligible plan)
  then Some (tier_target policy tier, mkStageRouteTrace tier source score confidence dimensions)
  else
    let fallbackTier := other_tier tier in
    if bool_decide (tier_target policy fallbackTier ∈ pl_Eligible plan)
    then Some (tier_target policy fallbackTier,
               mkStageRouteTrace fallbackTier "tier_unavailable" score confidence dimensions)
    else None.
End Stage.

(** ** Planning *)
Section Planning.
Context `{UnicodeTables}.

Definition routingProviderPriority (args : kwargs) : list string :=
  match args !! "provider_priority"%string with
  | None => []
  | Some raw =>
      match routingStringList (Some raw) true with
      | None => []
      | Some providers =>
          foldl (fun out provider =>
              let provider := ToLower (TrimSpace provider) in
              if validBackendID provider && negb (bool_decide (provider ∈ out)) then out ++ [provider] else out)
            [] providers
      end
  end.

(** The first rule that matches, with its position. *)
Fixpoint first_match (i : nat) (text : string) (rules : list compiledKeywordRule) : option (nat * KeywordRule) :=
  match rules with
  | [] => None
  | rule :: rules => if rule_matches rule text then Some (i, ck_rule rule) else first_match (S i) text rules
  end.

(** What a selector or a rule routes to. *)
Record selected_route := mkSelectedRoute {
  se_Strategy : string;
  se_Models : list string;
  se_Stage : option StageRouterPolicy;
  se_Projection : option MMProjectionPolicy;
  se_Matched : string;
}.

Definition no_virtual : VirtualModel := mkVirtualModel "" [] [] ∅ None None.

Definition select_rule (compiled : compiledRoutingPolicy) (text : string) (selected : selected_route) : selected_route :=
  match first_match 0 text (cp_rules compiled) with
  | None => selected
  | Some (i, rule) =>
      let matched := if String.eqb (kr_Name rule) "" then "rule[" +:+ pretty (N.of_nat i) +:+ "]" else kr_Name rule in
      if negb (String.eqb (kr_VirtualModel rule) "") then
        let x := default no_virtual (rp_VirtualModels (cp_policy compiled) !! kr_VirtualModel rule) in
        mkSelectedRoute (vm_Strategy x) (vm_Models x) (vm_StageRouter x) (vm_MMProjection x) matched
      else mkSelectedRoute (kr_Strategy rule) (kr_Models rule) None None matched
  end.

Definition candidate_trace (models : gmap string ModelMetadata) (available : list string) (n : string) : CandidateTrace :=
  let reason :=
    if match models !! n with Some m => negb (md_Enabled m) | None => false end then "disabled"%string
    else if negb (bool_decide (n ∈ available)) then "unavailable"%string else ""%string in
  mkCandidateTrace n (String.eqb reason "") reason None.

(** The candidates of a selector that lists none. *)
Definition wildcard (compiled : compiledRoutingPolicy) (available : list string) : list string :=
  sort_Strings (List.filter (fun n => negb (ownsVirtualRequest compiled n) || isIdentityVirtualModel compiled n)
    (remove_dups available)).

Definition explicit_plan (p : RoutingPolicy) (requested : string) : RoutePlan :=
  mkRoutePlan requested "" "" "" ∅ [] "explicit" "" (rp_Revision p) [mkCandidateTrace requested true "" None] [requested]
    (rp_Models p) None (mkStageHistory [] 0 false) None true.

Definition requested_name (p : RoutingPolicy) (requested : string) : string :=
  let requested := TrimSpace requested in
  let requested := if String.eqb requested "" then rp_DefaultVirtualModel p else requested in
  if String.eqb requested "" then "auto" else requested.

(** The rest of [Plan] for a selector. *)
Definition virtual_plan (compiled : compiledRoutingPolicy) (requested : string) (vmatch : virtualRequestMatch)
    (req : NormalizedRequest) (available : list string) : string + RoutePlan :=
  let p := cp_policy compiled in
  let vm := vr_Virtual vmatch in
  let args := vr_Kwargs vmatch in
  let text := if bool_decide (cp_rules compiled = []) then ""%string else ToLower (nr_Text req) in
  let selected :=
    select_rule compiled text
      (mkSelectedRoute (vm_Strategy vm) (virtualModelsWithOverrides vm args) (vm_StageRouter vm) (vm_MMProjection vm) "") in
  let strategy :=
    match args !! "strategy"%string with
    | Some (JString override) => if known_strategy override then override else se_Strategy selected
    | _ => se_Strategy selected
    end in
  let names := if bool_decide (se_Models selected = []) then wildcard compiled available else se_Models selected in
  let traces := candidate_trace (rp_Models p) available <$> names in
  let eligible := ct_Model <$> List.filter ct_Eligible traces in
  if bool_decide (eligible = []) then inl "no eligible models for %q"%string
  else
    inr (mkRoutePlan requested (vr_Name vmatch) (vr_Alias vmatch) (vr_Preset vmatch) args (routingProviderPriority args)
           strategy (se_Matched selected) (rp_Revision p) traces eligible (rp_Models p) (se_Stage selected)
           (nr_StageHistory req) (se_Projection selected) false).

Definition Plan (requested : string) (req : NormalizedRequest) (available : list string) (r : RouterManager)
  : string + RoutePlan :=
  let compiled := rm_runtime r in
  let p := cp_policy compiled in
  let requested := requested_name p requested in
  match resolveVirtualRequest compiled requested with
  | inl err => inl err
  | inr (Some vmatch) => virtual_plan compiled requested vmatch req available
  | inr None =>
      if bool_decide (requested ∈ available) then
        if match rp_Models p !! requested with Some m => negb (md_Enabled m) | None => false end
        then inl "explicit model %q is disabled"%string
        else inr (explicit_plan p requested)
      else inl "unknown or unavailable explicit model %q"%string
  end.
End Planning.

(** ** Choosing *)
Definition metadata_of (models : gmap string ModelMetadata) (n : string) : ModelMetadata :=
  default no_metadata (models !! n).

Definition random_weight (models : gmap string ModelMetadata) (n : string) : Z :=
  if md_Weight (metadata_of models n) <=? 0 then 1 else md_Weight (metadata_of models n).

Definition robin_weight (strategy : string) (models : gmap string ModelMetadata) (n : string) : Z :=
  if String.eqb strategy "weighted_round_robin" && (0 <? md_Weight (metadata_of models n))
  then md_Weight (metadata_of models n) else 1.

Definition robin_total (weight : string -> Z) (names : list string) : Z :=
  foldl (fun total n => uint64 (total + weight n)) 0 names.

(** The loops that find the model of a draw. *)
Fixpoint drawn (weight : string -> Z) (pick : Z) (names : list string) : option string :=
  match names with
  | [] => None
  | n :: names => if pick <? weight n then Some n else drawn weight (pick - weight n) names
  end.

Fixpoint cumulated (weight : string -> Z) (idx cumulative : Z) (names : list string) : option string :=
  match names with
  | [] => None
  | n :: names =>
      let cumulative := uint64 (cumulative + weight n) in
      if idx <? cumulative then Some n else cumulated weight idx cumulative names
  end.

(** The maxima over the candidates. *)
Record maxima := mkMaxima {
  mx_Size : float64;
  mx_Cost : float64;
  mx_Latency : float64;
}.

Definition cost_of (m : ModelMetadata) : float64 := f64_add (md_InputPrice m) (md_OutputPrice m).

Definition maxima_step (models : gmap string ModelMetadata) (latency : string -> float64) (mx : maxima) (n : string)
  : maxima :=
  let m := metadata_of models n in
  mkMaxima (math_Max (mx_Size mx) (md_SizeB m)) (math_Max (mx_Cost mx) (cost_of m)) (math_Max (mx_Latency mx) (latency n)).

Definition score_of (strategy : string) (models : gmap string ModelMetadata) (latency : string -> float64)
    (mx : maxima) (n : string) : float64 :=
  let m := metadata_of models n in
  if String.eqb strategy "smallest" then md_SizeB m
  else if String.eqb strategy "largest" then f64_neg (md_SizeB m)
  else if String.eqb strategy "lowest_cost" then cost_of m
  else if String.eqb strategy "fastest" then
    if f64_eq (latency n) f64_zero && f64_lt f64_zero (mx_Latency mx) then mx_Latency mx else latency n
  else if String.eqb strategy "balanced" then
    let size := f64_div (md_SizeB m) (math_Max (mx_Size mx) (f64_of_int 1)) in
    let cost := f64_div (cost_of m) (math_Max (mx_Cost mx) (f64_of_int 1)) in
    let lat := f64_div (latency n) (math_Max (mx_Latency mx) (f64_of_int 1)) in
    f64_sub (f64_sub (f64_add cost lat) (f64_mul size (f64_decimal 25 100)))
      (f64_mul (f64_of_int (md_Priority m)) (f64_decimal 1 100))
  else f64_zero.

Definition best_step (best : string * float64) (scored : string * float64) : string * float64 :=
  let '(n, s) := scored in
  if String.eqb best.1 "" || f64_lt s best.2 || (f64_eq s best.2 && String.ltb n best.1) then (n, s) else best.

Section Choosing.

(** [cryptorand.Int] below a bound, [None] when it fails, and the clock that stands
    in for it. *)
Context (rand_Int : Z -> option Z) (unixNano : Z).

Definition scored_choice (strategy : string) (names : list string) (models : gmap string ModelMetadata) (r : RouterManager)
  : string * gmap string float64 :=
  let latency n :=
    if String.eqb strategy "fastest" || String.eqb strategy "balanced"
    then ob_EWMALatencyMS (model_observation r n) else f64_zero in
  let mx := foldl (maxima_step models latency) (mkMaxima f64_zero f64_zero f64_zero) names in
  let scored := (fun n => (n, score_of strategy models latency mx n)) <$> names in
  ((foldl best_step (""%string, f64_infinity) scored).1,
   foldl (fun scores ns => <[ns.1 := ns.2]> scores) ∅ scored).

(** [choose] *)
Definition choose (strategy : string) (names : list string) (models : gmap string ModelMetadata) (key : string)
    (dry : bool) (r : RouterManager) : (string * gmap string float64) * RouterManager :=
  let sorted := sort_Strings names in
  if String.eqb strategy "random" then
    let total := foldl (fun total n => total + random_weight models n) 0 sorted in
    let pick := match rand_Int total with Some n => n | None => Z.rem unixNano total end in
    match drawn (random_weight models) pick sorted with
    | Some n => ((n, ∅), r)
    | None => (scored_choice strategy sorted models r, r)
    end
  else if String.eqb strategy "round_robin" || String.eqb strategy "weighted_round_robin" then
    let counter := default 0 (rm_counters r !! key) in
    let idx := counter mod robin_total (robin_weight strategy models) sorted in
    let r := if dry then r else with_counters (<[key := uint64 (counter + 1)]> (rm_counters r)) r in
    match cumulated (robin_weight strategy models) idx 0 sorted with
    | Some n => ((n, ∅), r)
    | None => (scored_choice strategy sorted models r, r)
    end
  else (scored_choice strategy sorted models r, r).

Context (math_Tanh : float64 -> float64).

Definition resolvedMMProjectionPolicy (plan : RoutePlan) (model : string) : option MMProjectionPolicy :=
  match pl_Models plan !! model with
  | Some metadata =>
      if md_MMProjectionDisabled metadata then None
      else match md_MMProjection metadata with Some policy => Some policy | None => pl_MMProjection plan end
  | None => pl_MMProjection plan
  end.

(** The traces with the scores of the choice. *)
Definition with_score (scores : gmap string float64) (t : CandidateTrace) : CandidateTrace :=
  match scores !! ct_Model t with
  | Some s => mkCandidateTrace (ct_Model t) (ct_Eligible t) (ct_Reason t) (Some s)
  | None => t
  end.

Definition decision_of (plan : RoutePlan) (chosen strategy matched reason : string) (traces : list CandidateTrace)
    (stage : option StageRouteTrace) : RouteDecision :=
  mkRouteDecision (pl_RequestedModel plan) chosen (pl_VirtualModel plan) (pl_VirtualAlias plan) (pl_RoutingPreset plan)
    (pl_RouterKwargs plan) (pl_ProviderPriority plan) strategy matched reason (pl_Revision plan) traces stage
    (resolvedMMProjectionPolicy plan chosen).

Definition selection_key (plan : RoutePlan) : string :=
  pl_VirtualModel plan +:+ "|" +:+ pl_RoutingPreset plan +:+ "|" +:+ pl_MatchedRule plan +:+ "|" +:+ pl_Strategy plan.

Definition selection_reason (plan : RoutePlan) (stage : option StageRouteTrace) : string :=
  match stage with
  | Some _ => "stage_router selected %s tier via %s (confidence %.3f)"
  | None =>
      let reason := "selected by " +:+ pl_Strategy plan in
      if String.eqb (pl_MatchedRule plan) "" then reason else "matched " +:+ pl_MatchedRule plan +:+ "; " +:+ reason
  end.

Definition resolveNative (plan : RoutePlan) (dryRun : bool) (r : RouterManager) : (string + RouteDecision) * RouterManager :=
  match pl_Eligible plan with
  | [] => (inl "route plan has no eligible models"%string, r)
  | first :: _ =>
      if pl_Explicit plan
      then (inr (decision_of plan first "explicit" "" "explicit physical model" (pl_Candidates plan) None), r)
      else if String.eqb (pl_Strategy plan) "stage_router" then
        match chooseStageRoute math_Tanh plan with
        | None => (inl "stage_router has no eligible tier target"%string, r)
        | Some (chosen, trace) =>
            (inr (decision_of plan chosen (pl_Strategy plan) (pl_MatchedRule plan) (selection_reason plan (Some trace))
                    (with_score {[chosen := f64_of_int 1]} <$> pl_Candidates plan) (Some trace)), r)
        end
      else
        let '((chosen, scores), r) :=
          choose (pl_Strategy plan) (pl_Eligible plan) (pl_Models plan) (selection_key plan) dryRun r in
        (inr (decision_of plan chosen (pl_Strategy plan) (pl_MatchedRule plan) (selection_reason plan None)
                (with_score scores <$> pl_Candidates plan) None), r)
  end.

Context `{UnicodeTables}.

Definition Select (requested : string) (req : NormalizedRequest) (available : list string) (dryRun : bool) (r : RouterManager)
  : (string + RouteDecision) * RouterManager :=
  match Plan requested req available r with
  | inl err => (inl err, r)
  | inr plan => resolveNative plan dryRun r
  end.

(** ** The answer to the gateway *)

(** [fmt.Sprintf("%.6f", x)] *)
Context (format6 : float64 -> string).

Definition set_when (b : bool) (name value : string) (m : gmap string string) : gmap string string :=
  if b then <[name := value]> m else m.

Definition stage_annotations (stage : option StageRouteTrace) (m : gmap string string) : gmap string string :=
  match stage with
  | None => m
  | Some t =>
      let d := sx_Dimensions t in
      foldl (fun m kv => <[kv.1 := kv.2]> m) m
        [("decision_source", sx_DecisionSource t); ("routing_tier", sx_Tier t); ("stage_score", format6 (sx_Score t));
         ("stage_confidence", format6 (sx_Confidence t)); ("stage_severity", format6 (sd_Severity d));
         ("stage_spinning", format6 (sd_Spinning d)); ("stage_exploring", format6 (sd_Exploring d));
         ("stage_production_intensity", format6 (sd_ProductionIntensity d))]%string
  end.

(** The name that is routed. *)
Definition routed_name (input : Input) (r : RouterManager) : string :=
  match in_ProviderStatePin input with
  | Some pin => ps_VirtualModel pin
  | None =>
      if negb (OwnsVirtualRequest (in_RequestedModel input) r) && negb (String.eqb (in_ResolvedVirtualModel input) "")
      then in_ResolvedVirtualModel input else in_RequestedModel input
  end.

Definition Route (ctx_Err : option string) (input : Input) (r : RouterManager) : (string + Decision) * RouterManager :=
  match ctx_Err with
  | Some err => (inl err, r)
  | None =>
      let '(res, r) :=
        Select (routed_name input r) (mkNormalizedRequest (in_RoutingText input) (in_StageHistory input))
          (in_Candidates input) false r in
      match res with
      | inl err => (inl err, r)
      | inr decision =>
          if negb (bool_decide (rd_ResolvedModel decision ∈ in_Candidates input))
          then (inl "routing policy selected virtual model %q outside the candidate set"%string, r)
          else
            let annotations :=
              stage_annotations (rd_Stage decision)
                (set_when (negb (String.eqb (rd_RoutingPreset decision) "")) "routing_preset" (rd_RoutingPreset decision)
                (set_when (negb (String.eqb (rd_MatchedRule decision) "")) "matched_rule" (rd_MatchedRule decision)
                (set_when (negb (String.eqb (rd_VirtualModel decision) "")) "selector" (rd_VirtualModel decision)
                   {["strategy"%string := rd_Strategy decision]}))) in
            let '(annotations, reason) :=
              match in_ProviderStatePin input with
              | Some pin =>
                  (<["state_affinity_kind"%string := ps_Kind pin]> (<["selector"%string := in_RequestedModel input]> annotations),
                   "provider_state_pin"%string)
              | None => (annotations, rd_Reason decision)
              end in
            (inr (mkDecision (rd_ResolvedModel decision) "fox-sparkroute-native"
                    ("policy-v" +:+ pretty RoutingPolicyVersion +:+ "-revision-" +:+ pretty (rd_Revision decision))
                    reason (rd_ProviderPriority decision) (rd_projectionPolicy decision) annotations (rd_Stage decision)), r)
      end
  end.

(** [ProjectionCapabilities] *)
Definition ProjectionCapabilities (ctx_Err : option string) (input : Input) (r : RouterManager)
  : string + gmap string (list string) :=
  match ctx_Err with
  | Some err => inl err
  | None =>
      let requested :=
        match in_ProviderStatePin input with Some pin => ps_VirtualModel pin | None => in_RequestedModel input end in
      match Plan requested (mkNormalizedRequest (in_RoutingText input) (in_StageHistory input)) (in_Candidates input) r with
      | inl err => inl err
      | inr plan =>
          inr (foldl (fun result candidate =>
                 match resolvedMMProjectionPolicy plan candidate with
                 | Some _ => <[candidate := ["vision"; "audio_input"]%string]> result
                 | None => result
                 end) ∅ (pl_Eligible plan))
      end
  end.
End Choosing.

(** [ProjectionAnalyzerModels] *)
Definition ProjectionAnalyzerModels `{UnicodeTables} (visit : forall A, gmap string A -> list (string * A))
    (r : RouterManager) : list string :=
  let p := cp_policy (rm_runtime r) in
  let policies :=
    (md_MMProjection ∘ snd <$> visit _ (rp_Models p)) ++ (vm_MMProjection ∘ snd <$> visit _ (rp_VirtualModels p)) in
  let analyzers := omap (fun policy => TrimSpace ∘ pr_AnalyzerModel <$> policy) policies in
  sort_Strings (remove_dups (List.filter (fun model => negb (String.eqb model "")) analyzers)).

(** ** [Passthrough.Route] *)
Definition Passthrough_Route (ctx_Err : option string) (input : Input) : string + Decision :=
  match ctx_Err with
  | Some err => inl err
  | None =>
      match in_ProviderStatePin input with
      | Some pin =>
          if bool_decide (ps_VirtualModel pin ∈ in_Candidates input)
          then inr (mkDecision (ps_VirtualModel pin) "passthrough" "v1" "provider_state_pin" [] None
                      (<["state_affinity_kind"%string := ps_Kind pin]> {["selector"%string := in_RequestedModel input]}) None)
          else inl "provider-state virtual model %q is not an allowed candidate"%string
      | None =>
          if String.eqb (in_ResolvedVirtualModel input) "" then inl "resolved virtual model is required"%string
          else if bool_decide (in_ResolvedVirtualModel input ∈ in_Candidates input)
          then inr (mkDecision (in_ResolvedVirtualModel input) "passthrough" "v1" "configured_model" [] None ∅ None)
          else inl "resolved virtual model %q is not an allowed candidate"%string
      end
  end.
