(* ===== verification/RouterTheorems.v ===== *)
(** * What the model router guarantees ([pkg/modelrouter])

    The strategies ([choose]), the decisions ([Select], [Route]) and the manager
    of RouterPolicy.v and ModelRouter.v. *)

From stdpp Require Import base gmap list strings pretty.
From Stdlib Require Import Ascii ZArith Lia SpecFloat.
From S2P Require Import Prelude GoStrings Fixtures RouterPolicy ModelRouter.

Local Open Scope Z_scope.
Local Open Scope go_scope.

(** ** Turns

    The cumulated weights cut the counters below the total into one interval per
    model. *)
Section Turns.
Context (weight : string -> Z).

Definition positive (names : list string) : Prop := Forall (fun n => 0 < weight n) names.

Lemma zsum_positive names : positive names -> 0 <= zsum weight names.
Proof. induction 1; cbn; lia. Qed.

Lemma robin_total_sum names :
  positive names -> is_uint64 (zsum weight names) -> robin_total weight names = zsum weight names.
Proof.
  unfold robin_total. intros Hpos Hfit.
  assert (G : forall acc, 0 <= acc -> is_uint64 (acc + zsum weight names) ->
    foldl (fun total n => uint64 (total + weight n)) acc names = acc + zsum weight names).
  { clear Hfit. induction Hpos as [|n names Hn Hpos IH]; intros acc Hacc Hfit; cbn in *; [lia|].
    pose proof (zsum_positive names Hpos). unfold is_uint64 in *.
    rewrite uint64_id by (unfold is_uint64; lia). rewrite IH; unfold is_uint64; lia. }
  rewrite G; [lia|lia|done].
Qed.

Definition turns (names : list string) : list string :=
  names ≫= fun n => replicate (Z.to_nat (weight n)) n.

Lemma cumulated_turns names : positive names ->
  forall c, 0 <= c -> is_uint64 (c + zsum weight names) ->
  (fun i => cumulated weight i c names) <$> seqZ c (zsum weight names) = Some <$> turns names.
Proof.
  induction 1 as [|n names Hn Hpos IH]; intros c Hc Hfit; [done|].
  pose proof (zsum_positive names Hpos) as Hsum. unfold is_uint64 in Hfit. cbn [zsum] in *.
  rewrite seqZ_app, fmap_app by lia. unfold turns. rewrite bind_cons, fmap_app. fold (turns names).
  f_equal.
  - apply list_eq_same_length with (n := Z.to_nat (weight n));
      [by rewrite !length_fmap, length_replicate|by rewrite length_fmap, length_seqZ|].
    intros i x y Hi Hx Hy. apply list_lookup_fmap_Some in Hx as (z & -> & Hz).
    apply lookup_seqZ in Hz as [-> ?]. apply list_lookup_fmap_Some in Hy as (z & -> & Hz).
    apply lookup_replicate in Hz as [-> ?]. cbn [cumulated]. cbn zeta.
    rewrite uint64_id by (unfold is_uint64; lia). rewrite (proj2 (Z.ltb_lt _ _)) by lia. done.
  - rewrite <- (IH (c + weight n)) by (unfold is_uint64; lia). apply list_fmap_ext.
    intros i x Hx. apply lookup_seqZ in Hx as [-> Hi]. cbn [cumulated]. cbn zeta.
    rewrite uint64_id by (unfold is_uint64; lia). rewrite (proj2 (Z.ltb_ge _ _)) by lia. done.
Qed.

(** The remainders of [total] consecutive numbers. *)
Lemma seqZ_mod_perm start total : 0 < total ->
  (fun i => i mod total) <$> seqZ start total ≡ₚ seqZ 0 total.
Proof.
  intros Ht. set (r := start mod total). pose proof (Z.mod_pos_bound start total Ht) as Hr. fold r in Hr.
  assert (Hq : start = total * (start / total) + r) by (apply Z.div_mod; lia).
  generalize dependent (start / total). generalize dependent r. intros r Hr q ->.
  replace (seqZ (total * q + r) total) with (seqZ (total * q + r) (total - r) ++ seqZ (total * q + r + (total - r)) r)
    by (rewrite <- seqZ_app by lia; f_equal; lia).
  rewrite fmap_app.
  replace (seqZ 0 total) with (seqZ 0 r ++ seqZ (0 + r) (total - r)) by (rewrite <- seqZ_app by lia; f_equal; lia).
  rewrite (Permutation_app_comm (seqZ 0 r)). match goal with |- ?l ≡ₚ ?k => enough (l = k) as -> by done end.
  f_equal.
  - replace (seqZ (0 + r) (total - r)) with ((Z.add (- (total * q))) <$> seqZ (total * q + r) (total - r))
      by (rewrite fmap_add_seqZ; f_equal; lia).
    apply list_fmap_ext. intros i x Hx. apply lookup_seqZ in Hx as [-> Hi].
    symmetry. apply Z.mod_unique with q; lia.
  - replace (seqZ 0 r) with ((Z.add (- (total * (q + 1)))) <$> seqZ (total * q + r + (total - r)) r)
      by (rewrite fmap_add_seqZ; f_equal; lia).
    apply list_fmap_ext. intros i x Hx. apply lookup_seqZ in Hx as [-> Hi].
    symmetry. apply Z.mod_unique with (q + 1); lia.
Qed.
End Turns.

Lemma turns_perm weight names names' : names ≡ₚ names' -> turns weight names ≡ₚ turns weight names'.
Proof. intros Hp. unfold turns. by rewrite Hp. Qed.

(** ** The best score *)

(** A model goes before another with a smaller score, or with the same score and a
    smaller name. *)
Definition before : string * float64 -> string * float64 -> bool :=
  lex_less (fun x y => lex_lt (f64_key x.2) (f64_key y.2)) (fun x y => String.ltb x.1 y.1).

#[export] Instance before_order : StrictWeakOrder before.
Proof.
  apply lex_order; [apply (preimage_order (fun x => f64_key x.2) lex_lt)|apply (preimage_order fst String.ltb)]; apply _.
Qed.

Definition ranked_entry (x : string * float64) : Prop := x.1 <> ""%string /\ is_nan x.2 = false.

Lemma best_step_before best x : ranked_entry best -> ranked_entry x -> best_step best x = if before x best then x else best.
Proof.
  destruct best as [b v], x as [n s]. unfold ranked_entry, best_step, before, lex_less. cbn [fst snd]. intros [Hb Hv] [Hn Hs].
  apply String.eqb_neq in Hb. rewrite Hb, f64_lt_key, f64_eq_key by done. cbn [orb].
  destruct (lex_lt (f64_key s) (f64_key v)), (lex_lt (f64_key v) (f64_key s)); done.
Qed.

Lemma best_step_in best x : best_step best x = best \/ best_step best x = x.
Proof.
  destruct best as [b v], x as [n s]. unfold best_step. cbn [fst snd].
  match goal with |- context [if ?b then _ else _] => destruct b end; eauto.
Qed.

Lemma best_in l best : foldl best_step best l ∈ best :: l.
Proof.
  revert best. induction l as [|x l IH]; intros best; cbn [foldl]; [by left|].
  specialize (IH (best_step best x)). destruct (best_step_in best x) as [E|E]; rewrite E in *; set_solver.
Qed.

(** The first of a list with a model replaces the start. *)
Lemma best_start l : l <> [] -> foldl best_step (""%string, f64_infinity) l ∈ l.
Proof. destruct l as [|[n s] l]; [done|]. intros _. apply (best_in l (n, s)). Qed.

Lemma best_minimal l : Forall ranked_entry l ->
  forall x, x ∈ l -> before x (foldl best_step (""%string, f64_infinity) l) = false.
Proof.
  destruct l as [|y l]; [set_solver|]. intros [Hy Hl]%Forall_cons.
  change (foldl best_step (""%string, f64_infinity) (y :: l)) with
    (foldl best_step (best_step (""%string, f64_infinity) y) l).
  replace (best_step (""%string, f64_infinity) y) with y by (by destruct y).
  assert (G : forall seen best, ranked_entry best -> (forall x, x ∈ seen -> before x best = false) ->
    forall x, x ∈ seen ++ l -> before x (foldl best_step best l) = false).
  { clear y Hy. induction Hl as [|z l Hz Hl IH]; intros seen best Hbest Hseen.
    { rewrite app_nil_r. apply Hseen. }
    cbn [foldl]. rewrite best_step_before by done. replace (seen ++ z :: l) with ((seen ++ [z]) ++ l) by (by rewrite <- app_assoc).
    apply IH; [by destruct (before z best)|]. intros x Hx. destruct (before z best) eqn:E.
    - apply elem_of_app in Hx as [Hx|Hx].
      + apply (less_neg_trans z best x); [by apply less_asym|by apply Hseen].
      + apply list_elem_of_singleton in Hx as ->. destruct (before z z) eqn:E'; [|done]. by rewrite (less_asym _ _ E') in E'.
    - apply elem_of_app in Hx as [Hx|Hx]; [by apply Hseen|]. by apply list_elem_of_singleton in Hx as ->. }
  intros x Hx. apply (G [y] y Hy); [|done]. intros z Hz. apply list_elem_of_singleton in Hz as ->.
  destruct (before y y) eqn:E; [|done]. by rewrite (less_asym _ _ E) in E.
Qed.

Section Choices.
Context (rand_Int : Z -> option Z) (unixNano : Z).

(** What is chosen is one of the names, and only the counters change. *)
Lemma scored_choice_in strategy names models r :
  names <> [] -> (scored_choice strategy names models r).1 ∈ names.
Proof.
  intros Hn. unfold scored_choice. cbn [fst].
  match goal with |- (foldl best_step _ ?l).1 ∈ _ => assert (Hb : foldl best_step (""%string, f64_infinity) l ∈ l) end.
  { apply best_start. by destruct names. }
  apply list_elem_of_fmap in Hb as (n & -> & Hin). done.
Qed.

Lemma drawn_in weight pick names n : drawn weight pick names = Some n -> n ∈ names.
Proof.
  revert pick. induction names as [|m names IH]; intros pick; cbn; [done|].
  destruct (pick <? weight m); [intros [= ->]; by left|]. intros E%IH. by right.
Qed.

Lemma cumulated_in weight idx c names n : cumulated weight idx c names = Some n -> n ∈ names.
Proof.
  revert c. induction names as [|m names IH]; intros c; cbn; [done|].
  destruct (idx <? uint64 (c + weight m)); [intros [= ->]; by left|]. intros E%IH. by right.
Qed.

Lemma choose_in strategy names models key dry r :
  names <> [] -> (choose rand_Int unixNano strategy names models key dry r).1.1 ∈ names.
Proof.
  intros Hn. apply (elem_of_Permutation_proper _ _ _ (sort_Strings_Permutation names)).
  assert (Hs : sort_Strings names <> []).
  { intros E. apply Hn, Permutation_nil. rewrite <- E. apply sort_Strings_Permutation. }
  unfold choose. generalize dependent (sort_Strings names). intros sorted Hs.
  destruct (String.eqb strategy "random").
  { match goal with |- context [drawn ?w ?p ?l] => destruct (drawn w p l) eqn:E end; cbn [fst];
      [by eapply drawn_in|by apply scored_choice_in]. }
  destruct (_ || _)%bool; [|by apply scored_choice_in].
  match goal with |- context [cumulated ?w ?p ?c ?l] => destruct (cumulated w p c l) eqn:E end; cbn [fst];
    [by eapply cumulated_in|by apply scored_choice_in].
Qed.

Lemma choose_state strategy names models key dry r :
  exists counters, (choose rand_Int unixNano strategy names models key dry r).2 = with_counters counters r /\
    (dry = true -> counters = rm_counters r).
Proof.
  unfold choose. generalize (sort_Strings names). intros sorted.
  destruct (String.eqb strategy "random").
  { exists (rm_counters r). destruct r. by destruct (drawn _ _ _). }
  destruct (_ || _)%bool; [|exists (rm_counters r); by destruct r].
  destruct dry.
  - exists (rm_counters r). destruct r. by destruct (cumulated _ _ _ _).
  - eexists. destruct (cumulated _ _ _ _); done.
Qed.
End Choices.

(** ** Decisions *)
Section Decisions.
Context `{UnicodeTables}.
Context (rand_Int : Z -> option Z) (unixNano : Z) (math_Tanh : float64 -> float64) (format6 : float64 -> string).

(** A model that the policy in force does not disable. *)
Definition allowed_model (r : RouterManager) (n : string) : Prop :=
  forall m, rp_Models (cp_policy (rm_runtime r)) !! n = Some m -> md_Enabled m = true.

Lemma enabled_allowed r n :
  match rp_Models (cp_policy (rm_runtime r)) !! n with Some m => negb (md_Enabled m) | None => false end = false ->
  allowed_model r n.
Proof. intros E m Hm. rewrite Hm in E. by apply negb_false_iff. Qed.

Lemma candidate_trace_eligible models available n :
  ct_Eligible (candidate_trace models available n) = true ->
  n ∈ available /\ match models !! n with Some m => negb (md_Enabled m) | None => false end = false.
Proof.
  unfold candidate_trace. destruct (match models !! n with Some m => _ | None => _ end) eqn:E; [done|].
  destruct (bool_decide_reflect (n ∈ available)); done.
Qed.

Lemma virtual_plan_eligible compiled requested vmatch req available plan :
  virtual_plan compiled requested vmatch req available = inr plan ->
  pl_Eligible plan <> [] /\ pl_Explicit plan = false /\
  forall n, n ∈ pl_Eligible plan -> n ∈ available /\
    match rp_Models (cp_policy compiled) !! n with Some m => negb (md_Enabled m) | None => false end = false.
Proof.
  unfold virtual_plan. cbn zeta.
  match goal with |- context [candidate_trace _ _ <$> ?l] => generalize l end. intros names.
  case_bool_decide as He; [done|]. intros [= <-]. cbn [pl_Eligible pl_Explicit]. split; [done|]. split; [done|].
  intros n Hn. apply list_elem_of_fmap in Hn as (t & -> & Ht). apply list_elem_of_In, filter_In in Ht as [Ht Hel].
  apply list_elem_of_In, list_elem_of_fmap in Ht as (k & -> & _). by apply candidate_trace_eligible.
Qed.

Lemma Plan_eligible requested req available r plan :
  Plan requested req available r = inr plan ->
  pl_Eligible plan <> [] /\ forall n, n ∈ pl_Eligible plan -> n ∈ available /\ allowed_model r n.
Proof.
  unfold Plan. cbn zeta. destruct (resolveVirtualRequest _ _) as [err|[vmatch|]]; [done| |].
  - intros (Hn & _ & Hel)%virtual_plan_eligible. split; [done|]. intros n Hin. destruct (Hel n Hin).
    split; [done|]. by apply enabled_allowed.
  - case_bool_decide as Ha; [|done]. destruct (match rp_Models _ !! _ with Some m => _ | None => _ end) eqn:E; [done|].
    intros [= <-]. cbn [pl_Eligible explicit_plan]. split; [done|]. intros n ->%list_elem_of_singleton.
    split; [done|]. by apply enabled_allowed.
Qed.

Lemma chooseStageRoute_eligible plan chosen trace :
  chooseStageRoute math_Tanh plan = Some (chosen, trace) -> chosen ∈ pl_Eligible plan.
Proof.
  unfold chooseStageRoute. destruct (pl_StageRouter plan) as [policy|]; [|done]. cbn [mbind option_bind].
  destruct (stage_tier _ _ _) as [[[[tier source] score] confidence] dimensions].
  case_bool_decide; [by intros [= <- _]|]. case_bool_decide; [by intros [= <- _]|done].
Qed.

Lemma with_counters_id r : with_counters (rm_counters r) r = r.
Proof. by destruct r. Qed.

Lemma resolveNative_result plan dry r :
  pl_Eligible plan <> [] ->
  exists counters, (resolveNative rand_Int unixNano math_Tanh plan dry r).2 = with_counters counters r /\
  ((dry = true \/ pl_Explicit plan = true) -> counters = rm_counters r) /\
  match (resolveNative rand_Int unixNano math_Tanh plan dry r).1 with
  | inr d => rd_ResolvedModel d ∈ pl_Eligible plan
  | inl err => err = "stage_router has no eligible tier target"%string
  end.
Proof.
  intros Hn. unfold resolveNative. destruct (pl_Eligible plan) as [|first rest] eqn:E; [done|].
  destruct (pl_Explicit plan) eqn:Hx.
  { exists (rm_counters r). rewrite with_counters_id. do 2 (split; [done|]). by left. }
  destruct (String.eqb (pl_Strategy plan) "stage_router").
  { exists (rm_counters r). rewrite with_counters_id. destruct (chooseStageRoute math_Tanh plan) as [[chosen trace]|] eqn:C.
    - do 2 (split; [done|]). cbn. rewrite <- E. by eapply chooseStageRoute_eligible.
    - done. }
  pose proof (choose_in rand_Int unixNano (pl_Strategy plan) (first :: rest) (pl_Models plan) (selection_key plan) dry r Hn) as Hin.
  destruct (choose_state rand_Int unixNano (pl_Strategy plan) (first :: rest) (pl_Models plan) (selection_key plan) dry r)
    as (counters & Hr & Hdry).
  destruct (choose rand_Int unixNano _ _ _ _ _ _) as [[chosen scores] r']. cbn [fst snd] in *.
  exists counters. split; [done|]. split; [|done]. intros [Hd|Hd]; [by apply Hdry|done].
Qed.

Lemma Select_result requested req available dry r :
  exists counters, (Select rand_Int unixNano math_Tanh requested req available dry r).2 = with_counters counters r /\
  (dry = true -> counters = rm_counters r) /\
  forall d, (Select rand_Int unixNano math_Tanh requested req available dry r).1 = inr d ->
    rd_ResolvedModel d ∈ available /\ allowed_model r (rd_ResolvedModel d).
Proof.
  unfold Select. destruct (Plan requested req available r) as [err|plan] eqn:E.
  { exists (rm_counters r). by rewrite with_counters_id. }
  destruct (Plan_eligible _ _ _ _ _ E) as [Hn Hel].
  destruct (resolveNative_result plan dry r Hn) as (counters & Hr & Hdry & Hres).
  exists counters. split; [done|]. split; [auto|]. intros d Hd. rewrite Hd in Hres. by apply Hel.
Qed.
End Decisions.

(** ** The answer to the gateway *)
Section Answer.
Context `{UnicodeTables}.
Context (rand_Int : Z -> option Z) (unixNano : Z) (math_Tanh : float64 -> float64) (format6 : float64 -> string).
Notation Select := (Select rand_Int unixNano math_Tanh).
Notation Route := (Route rand_Int unixNano math_Tanh format6).

Definition requested_of (input : Input) : NormalizedRequest :=
  mkNormalizedRequest (in_RoutingText input) (in_StageHistory input).

Definition outside_error : string := "routing policy selected virtual model %q outside the candidate set".

(** C12: the policy narrows the candidates of the gateway and never escapes them:
    whatever a request names, asks for or is pinned to, a route is one of the
    candidates, and a model that the policy in force does not disable; it reports
    the revision of that policy; the second check of [Route], that the choice is a
    candidate, never fails, so each error is the error of the plan or a stage
    router without an eligible target; and nothing of the manager changes but the
    round-robin counters, which a failing plan leaves as they are. *)
Theorem routing_narrows_candidates input r res r' :
  Route None input r = (res, r') ->
  (exists counters, r' = with_counters counters r) /\
  match res with
  | inr d =>
      de_VirtualModel d ∈ in_Candidates input /\
      allowed_model r (de_VirtualModel d) /\
      exists decision,
        (Select (routed_name input r) (requested_of input) (in_Candidates input) false r).1 = inr decision /\
        de_VirtualModel d = rd_ResolvedModel decision /\ de_MMProjection d = rd_projectionPolicy decision
  | inl err =>
      (Plan (routed_name input r) (requested_of input) (in_Candidates input) r = inl err /\ r' = r) \/
      err = "stage_router has no eligible tier target"%string
  end.
Proof.
  destruct (Select_result rand_Int unixNano math_Tanh (routed_name input r) (requested_of input)
              (in_Candidates input) false r) as (counters & Hr & _ & Hres).
  unfold ModelRouter.Route. fold (requested_of input).
  destruct (Select _ _ _ _ r) as [[err|decision] r1] eqn:E; cbn [fst snd] in *.
  - intros [= <- <-]. split; [by exists counters|].
    unfold ModelRouter.Select in E. destruct (Plan _ _ _ _) as [err'|plan] eqn:P.
    { left. by injection E as -> ->. }
    right. destruct (Plan_eligible _ _ _ _ _ P) as [Hn _].
    destruct (resolveNative_result rand_Int unixNano math_Tanh plan false r Hn) as (? & _ & _ & Herr).
    by rewrite E in Herr.
  - destruct (Hres decision eq_refl) as [Hin Hallowed]. rewrite bool_decide_eq_true_2 by done. cbn [negb].
    destruct (in_ProviderStatePin input); intros [= <- <-]; cbn [de_VirtualModel de_MMProjection];
      (split; [by exists counters|split; [done|split; [done|by exists decision]]]).
Qed.

Lemma requested_name_id p name : TrimSpace name = name -> name <> ""%string -> requested_name p name = name.
Proof.
  intros Ht Hn. unfold requested_name. rewrite Ht. apply String.eqb_neq in Hn. by rewrite !Hn.
Qed.

(** C13: a request that provider-owned state pins to a model is routed to that
    model and nowhere else, without advancing a counter, as long as the model's
    name is not also a selector, an alias or a preset of one; when the model is no
    candidate or is disabled the request fails. *)
Theorem pin_is_kept input r pin :
  in_ProviderStatePin input = Some pin ->
  TrimSpace (ps_VirtualModel pin) = ps_VirtualModel pin -> ps_VirtualModel pin <> ""%string ->
  resolveVirtualRequest (rm_runtime r) (ps_VirtualModel pin) = inr None ->
  (Route None input r).2 = r /\
  match (Route None input r).1 with
  | inr d =>
      de_VirtualModel d = ps_VirtualModel pin /\ ps_VirtualModel pin ∈ in_Candidates input /\
      de_Reason d = "provider_state_pin"%string /\
      de_Annotations d !! "selector"%string = Some (in_RequestedModel input) /\
      de_Annotations d !! "state_affinity_kind"%string = Some (ps_Kind pin)
  | inl err => ~ (ps_VirtualModel pin ∈ in_Candidates input /\ allowed_model r (ps_VirtualModel pin))
  end.
Proof.
  intros Hpin Ht Hn Hv. unfold ModelRouter.Route, routed_name, ModelRouter.Select, Plan. rewrite Hpin. cbn zeta.
  rewrite (requested_name_id _ _ Ht Hn), Hv.
  case_bool_decide as Hin; [|split; [done|]; cbn; naive_solver].
  destruct (match rp_Models _ !! _ with Some m => _ | None => _ end) eqn:E.
  { split; [done|]. cbn. intros [_ Hal]. destruct (rp_Models _ !! _) as [m|] eqn:Hm; [|done].
    rewrite (Hal m Hm) in E. done. }
  cbn [resolveNative explicit_plan pl_Eligible pl_Explicit decision_of rd_ResolvedModel pl_RequestedModel].
  rewrite bool_decide_eq_true_2 by done. cbn [negb fst snd de_VirtualModel de_Reason de_Annotations].
  split; [done|]. split; [done|]. split; [done|]. split; [done|]. split.
  - rewrite lookup_insert_ne by done. by rewrite lookup_insert_eq.
  - by rewrite lookup_insert_eq.
Qed.

(** ** Round robin *)

Lemma Some_perm {A} (l k : list A) : Some <$> l ≡ₚ Some <$> k -> l ≡ₚ k.
Proof.
  intros Hp. assert (E : forall l : list A, omap id (Some <$> l) = l) by (induction l0; cbn; f_equal; done).
  rewrite <- (E l), <- (E k). by rewrite Hp.
Qed.

(** The models of the next [n] choices. *)
Fixpoint choices (n : nat) (strategy : string) (names : list string) (models : gmap string ModelMetadata) (key : string)
    (r : RouterManager) : list string :=
  match n with
  | O => []
  | S n =>
      let '((chosen, _), r) := choose rand_Int unixNano strategy names models key false r in
      chosen :: choices n strategy names models key r
  end.

Definition is_robin (strategy : string) : Prop := strategy = "round_robin"%string \/ strategy = "weighted_round_robin"%string.

Lemma robin_weight_positive strategy models n : 0 < robin_weight strategy models n.
Proof. unfold robin_weight. destruct (_ && _)%bool eqn:E; lia. Qed.

Lemma choose_robin strategy names models key dry r :
  is_robin strategy ->
  let sorted := sort_Strings names in
  let counter := default 0 (rm_counters r !! key) in
  let weight := robin_weight strategy models in
  choose rand_Int unixNano strategy names models key dry r =
  (match cumulated weight (counter mod robin_total weight sorted) 0 sorted with
   | Some n => (n, ∅)
   | None => scored_choice strategy sorted models (if dry then r else with_counters (<[key := uint64 (counter + 1)]> (rm_counters r)) r)
   end, if dry then r else with_counters (<[key := uint64 (counter + 1)]> (rm_counters r)) r).
Proof.
  intros [->| ->]; cbn zeta; unfold choose; cbn [String.eqb Ascii.eqb Bool.eqb orb];
    by destruct (cumulated _ _ _ _).
Qed.

Section Fair.
Context (strategy : string) (names : list string) (models : gmap string ModelMetadata) (key : string).
Let weight := robin_weight strategy models.
Let sorted := sort_Strings names.

Hypothesis robin : is_robin strategy.
Hypothesis some_model : names <> [].
Hypothesis weights : Forall (fun n => weight n <= 10000) names.
Hypothesis models_bound : Z.of_nat (length names) <= maxRoutingCandidateModels.

Lemma sum_bounds : 0 < zsum weight names <= 40960000.
Proof.
  split.
  - clear weights models_bound. destruct names as [|n ns]; [done|]. cbn [zsum].
    pose proof (robin_weight_positive strategy models n) as Hw. fold weight in Hw.
    assert (Hp : positive weight ns) by (apply Forall_true; intros; apply robin_weight_positive).
    pose proof (zsum_positive weight ns Hp). lia.
  - enough (zsum weight names <= 10000 * Z.of_nat (length names)) by (unfold maxRoutingCandidateModels in *; lia).
    clear -weights. induction weights as [|n ns Hn Hns IH]; [done|]. cbn beta in Hn. cbn [zsum length].
    specialize (IH Hns). lia.
Qed.

Lemma sorted_sum : zsum weight sorted = zsum weight names.
Proof. unfold sorted. by rewrite sort_Strings_Permutation. Qed.

Lemma sorted_positive : positive weight sorted.
Proof. apply Forall_true. intros. apply robin_weight_positive. Qed.

Lemma sorted_total : robin_total weight sorted = zsum weight names.
Proof.
  pose proof sum_bounds. rewrite robin_total_sum, sorted_sum; [done|apply sorted_positive|].
  rewrite sorted_sum. unfold is_uint64. lia.
Qed.

Lemma turn_of_counter i : 0 <= i < zsum weight names ->
  is_Some (cumulated weight i 0 sorted).
Proof.
  intros Hi. pose proof sum_bounds.
  pose proof (cumulated_turns weight sorted sorted_positive 0 ltac:(lia)) as Ht.
  rewrite sorted_sum in Ht. specialize (Ht ltac:(unfold is_uint64; lia)).
  assert (Hl : ((fun i => cumulated weight i 0 sorted) <$> seqZ 0 (zsum weight names)) !! Z.to_nat i
               = Some (cumulated weight i 0 sorted)).
  { rewrite list_lookup_fmap, lookup_seqZ_lt by lia. cbn. do 2 f_equal. lia. }
  rewrite Ht, list_lookup_fmap in Hl. destruct (_ !! _); [|done]. injection Hl as <-. by eexists.
Qed.

Lemma choices_turns n r :
  let counter := default 0 (rm_counters r !! key) in
  0 <= counter -> is_uint64 (counter + Z.of_nat n) ->
  Some <$> choices n strategy names models key r =
  (fun i => cumulated weight (i mod zsum weight names) 0 sorted) <$> seqZ counter (Z.of_nat n).
Proof.
  revert r. induction n as [|n IH]; intros r; cbn zeta; intros Hc Hfit; [done|].
  cbn [choices]. rewrite choose_robin by done. cbn zeta. fold weight sorted. rewrite sorted_total.
  destruct (turn_of_counter (default 0 (rm_counters r !! key) mod zsum weight names)) as [m Hm].
  { apply Z.mod_pos_bound, sum_bounds. }
  rewrite Hm, fmap_cons, IH; cbn [rm_counters with_counters]; rewrite lookup_insert_eq; cbn [default from_option id];
    unfold is_uint64 in Hfit; rewrite uint64_id by (unfold is_uint64; lia); [|lia|unfold is_uint64; lia].
  rewrite (seqZ_cons _ (Z.of_nat (S n))) by lia. rewrite fmap_cons, Hm.
  replace (Z.succ _) with (default 0 (rm_counters r !! key) + 1) by lia.
  by replace (Z.pred (Z.of_nat (S n))) with (Z.of_nat n) by lia.
Qed.
End Fair.

(** round robin is fair: from any counter that does not wrap, over as many
    consecutive selections as the weights add up to, every candidate is chosen
    exactly as often as its weight says (once, when the strategy is not weighted or
    the weight is zero), and a preview of the next choice agrees with it and
    changes nothing. *)
Theorem round_robin_fair strategy names models key r :
  is_robin strategy -> names <> [] ->
  Forall (fun n => robin_weight strategy models n <= 10000) names ->
  Z.of_nat (length names) <= maxRoutingCandidateModels ->
  let total := robin_total (robin_weight strategy models) names in
  0 <= default 0 (rm_counters r !! key) -> is_uint64 (default 0 (rm_counters r !! key) + total) ->
  choices (Z.to_nat total) strategy names models key r ≡ₚ turns (robin_weight strategy models) names /\
  (choose rand_Int unixNano strategy names models key true r).2 = r /\
  (choose rand_Int unixNano strategy names models key true r).1 =
    (choose rand_Int unixNano strategy names models key false r).1.
Proof.
  intros Hs Hn Hw Hl. cbn zeta. set (weight := robin_weight strategy models).
  pose proof (sum_bounds strategy names models Hn Hw Hl) as Hsum. fold weight in Hsum.
  assert (Hpos : positive weight names) by (apply Forall_true; intros n; apply robin_weight_positive).
  assert (Hu : is_uint64 (zsum weight names)) by (unfold is_uint64; lia).
  rewrite (robin_total_sum weight names Hpos Hu). intros Hc Hfit.
  pose proof (sorted_total strategy names models Hn Hw Hl) as Htot.
  pose proof (turn_of_counter strategy names models Hn Hw Hl) as Hturn. fold weight in Htot, Hturn.
  split; [|rewrite !choose_robin by done; cbn zeta; fold weight; rewrite Htot; split; [done|];
           destruct (Hturn (default 0 (rm_counters r !! key) mod zsum weight names)) as [m ->];
             [apply Z.mod_pos_bound; lia|done]].
  apply Some_perm.
  rewrite (choices_turns strategy names models key Hs Hn Hw Hl) by (rewrite ?Z2Nat.id by lia; done).
  fold weight. rewrite Z2Nat.id by lia.
  change (fun i => cumulated weight (i mod zsum weight names) 0 (sort_Strings names)) with
    ((fun i => cumulated weight i 0 (sort_Strings names)) ∘ (fun i => i mod zsum weight names)).
  rewrite list_fmap_compose, seqZ_mod_perm by lia.
  pose proof (sorted_sum strategy names models) as Hsorted. fold weight in Hsorted.
  rewrite <- Hsorted, cumulated_turns; [by rewrite (turns_perm _ _ _ (sort_Strings_Permutation names))
    |apply (sorted_positive strategy)|lia|by rewrite Hsorted].
Qed.
End Answer.

(** ** The best candidate *)
Section Best.
Context (rand_Int : Z -> option Z) (unixNano : Z).

Definition scores_step (scores : gmap string float64) (ns : string * float64) : gmap string float64 :=
  <[ns.1 := ns.2]> scores.

Lemma scores_kept (l : list (string * float64)) acc n (f : string -> float64) :
  Forall (fun ns => ns.2 = f ns.1) l -> acc !! n = Some (f n) -> foldl scores_step acc l !! n = Some (f n).
Proof.
  intros Hf. revert acc. induction Hf as [|[k s] l Hk Hf IH]; intros acc Hacc; [done|]. apply IH.
  unfold scores_step. cbn in *. destruct (decide (k = n)) as [->|]; [by rewrite lookup_insert_eq, Hk|by rewrite lookup_insert_ne].
Qed.

Lemma scores_lookup (l : list (string * float64)) acc n (f : string -> float64) :
  Forall (fun ns => ns.2 = f ns.1) l -> n ∈ l.*1 -> foldl scores_step acc l !! n = Some (f n).
Proof.
  intros Hf. revert acc. induction Hf as [|[k s] l Hk Hf IH]; intros acc Hin; cbn in *; [set_solver|].
  apply elem_of_cons in Hin as [->|Hin]; [|by apply IH].
  apply scores_kept; [done|]. unfold scores_step. cbn. by rewrite lookup_insert_eq, Hk.
Qed.

(** A strategy other than random and round robin chooses the best candidate:
    every candidate is given a score, no candidate has a smaller score than the
    chosen one, and among equal scores the chosen name comes first; nothing is
    recorded.  The score is the size, its opposite or the sum of the prices for
    [smallest], [largest] and [lowest_cost]. *)
Theorem scored_choice_is_best strategy names models key dry r chosen scores r' :
  choose rand_Int unixNano strategy names models key dry r = ((chosen, scores), r') ->
  strategy <> "random"%string -> ~ is_robin strategy ->
  names <> [] -> Forall (fun n => n <> ""%string) names ->
  Forall (fun n => default S754_nan (scores !! n) <> S754_nan) names ->
  r' = r /\ chosen ∈ names /\
  forall n, n ∈ names -> exists s best, scores !! n = Some s /\ scores !! chosen = Some best /\
    f64_lt s best = false /\ (f64_eq s best = true -> String.ltb n chosen = false) /\
    (strategy = "smallest"%string -> s = md_SizeB (metadata_of models n)) /\
    (strategy = "largest"%string -> s = f64_neg (md_SizeB (metadata_of models n))) /\
    (strategy = "lowest_cost"%string -> s = f64_add (md_InputPrice (metadata_of models n)) (md_OutputPrice (metadata_of models n))).
Proof.
  unfold choose, is_robin. intros Heq Hr Hw Hn Hne Hnan.
  rewrite (proj2 (String.eqb_neq _ _) Hr) in Heq.
  rewrite (proj2 (String.eqb_neq strategy "round_robin")), (proj2 (String.eqb_neq strategy "weighted_round_robin")) in Heq by tauto.
  cbn [orb] in Heq. unfold scored_choice in Heq. injection Heq as Hchosen Hscores <-. split; [done|].
  match type of Hscores with context [score_of strategy models ?l ?m] =>
    set (score := score_of strategy models l m) in * end.
  set (scored := (fun n => (n, score n)) <$> sort_Strings names) in *.
  assert (Hin : forall n, n ∈ names <-> n ∈ sort_Strings names)
    by (intros n; apply elem_of_Permutation_proper; symmetry; apply sort_Strings_Permutation).
  assert (Hscore : forall n, n ∈ names -> scores !! n = Some (score n)).
  { intros n Hn'. rewrite <- Hscores. apply (scores_lookup scored).
    - apply Forall_fmap, Forall_true. done.
    - unfold scored. rewrite <- list_fmap_compose. cbn. rewrite list_fmap_id. by apply Hin. }
  assert (Hranked : Forall ranked_entry scored).
  { apply Forall_fmap. rewrite Forall_forall in *. intros n Hn'%Hin. split; cbn; [by apply Hne|].
    specialize (Hnan n Hn'). rewrite Hscore in Hnan by done. cbn in Hnan. by destruct (score n). }
  assert (Hbest : foldl best_step (""%string, f64_infinity) scored ∈ scored).
  { apply best_start. unfold scored. intros E%fmap_nil_inv. apply Hn, Permutation_nil. rewrite <- E.
    apply sort_Strings_Permutation. }
  pose proof (best_minimal scored Hranked) as Hmin.
  apply list_elem_of_fmap in Hbest as (b & Hb & Hbin%Hin). rewrite Hb in Hchosen, Hmin. cbn in Hchosen. subst chosen.
  split; [done|]. intros n Hn'. exists (score n), (score b). rewrite !Hscore by done. do 2 (split; [done|]).
  specialize (Hmin (n, score n)). unfold before, lex_less in Hmin. cbn in Hmin.
  rewrite Forall_forall in Hranked.
  destruct (Hranked (n, score n)) as [_ Hs]; [apply list_elem_of_fmap; exists n; by rewrite <- Hin|].
  destruct (Hranked (b, score b)) as [_ Hsb]; [apply list_elem_of_fmap; exists b; by rewrite <- Hin|]. cbn in Hs, Hsb.
  rewrite f64_lt_key, f64_eq_key by done.
  apply orb_false_iff in Hmin as [H1 H2]; [|apply list_elem_of_fmap; exists n; by rewrite <- Hin].
  split; [done|]. split.
  { rewrite H1. cbn. intros E. apply negb_true_iff in E. by rewrite E in H2. }
  unfold score, score_of, cost_of. split; [by intros ->|]. split; by intros ->.
Qed.
End Best.

(** ** Discovered metadata *)

(** A loop over the entries of a map that changes one key at a time. *)
Section Keyed.
Context {A B : Type} (step : gmap string B -> string * A -> gmap string B) (f : option B -> A -> option B).
Hypothesis step_key : forall m k a n, step m (k, a) !! n = if decide (k = n) then f (m !! n) a else m !! n.

Lemma foldl_keyed l m n : NoDup l.*1 ->
  foldl step m l !! n = match list_to_map (M := gmap string A) l !! n with Some a => f (m !! n) a | None => m !! n end.
Proof.
  revert m. induction l as [|[k a] l IH]; intros m; cbn; [done|]. intros [Hk Hl]%NoDup_cons.
  rewrite IH, step_key by done. destruct (decide (k = n)) as [->|Hn].
  - rewrite lookup_insert_eq. by rewrite not_elem_of_list_to_map_1.
  - by rewrite lookup_insert_ne.
Qed.

Lemma foldl_keyed_map (entries : list (string * A)) (ms : gmap string A) m n : entries ≡ₚ map_to_list ms ->
  foldl step m entries !! n = match ms !! n with Some a => f (m !! n) a | None => m !! n end.
Proof.
  intros Hp. assert (Hnd : NoDup entries.*1) by (rewrite Hp; apply NoDup_fst_map_to_list).
  rewrite foldl_keyed by done. by rewrite (list_to_map_proper _ _ Hnd Hp), list_to_map_to_list.
Qed.
End Keyed.

Section Discovered.
Context `{UnicodeTables}.
Context (visit : forall A, gmap string A -> list (string * A)).
Hypothesis visit_all : forall A m, visit A m ≡ₚ map_to_list m.

Definition aggregate_one (acc : option DiscoveredModelMetadata) (m : DiscoveredModelMetadata)
  : option DiscoveredModelMetadata := Some (reduceDiscoveredModelMetadata (default no_discovery acc) m).

Lemma aggregate_lookup sources n :
  aggregateDiscoveredMetadata visit sources !! n =
  foldl (fun acc s => match ds_Models s !! n with Some m => aggregate_one acc m | None => acc end) None sources.
Proof.
  unfold aggregateDiscoveredMetadata. rewrite <- (lookup_empty n) at 1. generalize (∅ : gmap string DiscoveredModelMetadata).
  induction sources as [|s sources IH]; intros acc; cbn; [done|]. rewrite IH.
  erewrite (foldl_keyed_map aggregate_step aggregate_one).
  - done.
  - intros m k a n'. unfold aggregate_step, aggregate_one. cbn. destruct (decide (k = n')) as [->|];
      [by rewrite lookup_insert_eq|by rewrite lookup_insert_ne].
  - unfold by_name. rewrite stable_sort_Permutation. apply visit_all.
Qed.

(** What the sources report of a model, field by field. *)
Definition reports {T} (p : DiscoveredModelMetadata -> option T) (n : string) (sources : list DiscoveredMetadataSnapshot)
  : list T := omap (fun s => ds_Models s !! n ≫= p) sources.

Section Field.
Context {T : Type} (p : DiscoveredModelMetadata -> option T) (reduce : option T -> option T -> option T)
  (least : T -> T -> Prop) (good : T -> Prop).
Hypothesis p_empty : p no_discovery = None.
Hypothesis p_reduce : forall acc m, p (reduceDiscoveredModelMetadata acc m) = reduce (p acc) (p m).
Hypothesis reduce_none : forall o, reduce o None = o.
Hypothesis reduce_first : forall v, reduce None (Some v) = Some v.
Hypothesis reduce_some : forall x v, good x -> good v ->
  exists y, reduce (Some x) (Some v) = Some y /\ (y = x \/ y = v) /\ least y x /\ least y v.
Hypothesis least_refl : forall x, good x -> least x x.
Hypothesis least_trans : forall x y z, good x -> good y -> good z -> least x y -> least y z -> least x z.

Lemma aggregate_field sources n :
  aggregateDiscoveredMetadata visit sources !! n ≫= p = foldl (fun o v => reduce o (Some v)) None (reports p n sources).
Proof.
  rewrite aggregate_lookup. change (None : option T) with ((None : option DiscoveredModelMetadata) ≫= p) at 2.
  generalize (None : option DiscoveredModelMetadata). unfold reports.
  induction sources as [|s sources IH]; intros acc; cbn [foldl]; [done|]. rewrite IH. cbn [omap list_omap].
  destruct (ds_Models s !! n) as [m|]; unfold aggregate_one; cbn [mbind option_bind]; [|done].
  rewrite p_reduce. assert (E : p (default no_discovery acc) = acc ≫= p) by (by destruct acc). rewrite E.
  by destruct (p m); [|rewrite reduce_none].
Qed.

Lemma field_least l : Forall good l ->
  match foldl (fun o v => reduce o (Some v)) None l with
  | Some x => x ∈ l /\ Forall (least x) l
  | None => l = []
  end.
Proof.
  intros Hl. destruct Hl as [|v l Hv Hl]; [done|]. cbn [foldl]. rewrite reduce_first.
  assert (G : forall seen x, good x -> x ∈ seen -> Forall good seen -> Forall (least x) seen ->
    match foldl (fun o v => reduce o (Some v)) (Some x) l with
    | Some x => x ∈ seen ++ l /\ Forall (least x) (seen ++ l)
    | None => seen ++ l = []
    end).
  { clear v Hv. induction Hl as [|v l Hv Hl IH]; intros seen x Hx Hin Hgood Hleast; cbn [foldl]; [by rewrite app_nil_r|].
    destruct (reduce_some x v Hx Hv) as (y & -> & Hy & Hyx & Hyv).
    assert (Hgy : good y) by (destruct Hy as [->| ->]; done).
    replace (seen ++ v :: l) with ((seen ++ [v]) ++ l) by (by rewrite <- app_assoc). apply IH.
    - done.
    - destruct Hy as [->| ->]; set_solver.
    - apply Forall_app. split; [done|by constructor].
    - apply Forall_app. split; [|by constructor]. rewrite Forall_forall in *. intros z Hz.
      apply (least_trans y x z); auto. }
  specialize (G [v] v Hv). cbn [app] in G. apply G; [by left|by constructor|]. constructor; [by apply least_refl|done].
Qed.

(** The value of a field that discovery may fill. *)
Definition fills (unset : bool) (configured : T) (reported : list T) (effective : T) : Prop :=
  if unset
  then match reported with [] => effective = configured | _ => effective ∈ reported /\ Forall (least effective) reported end
  else effective = configured.

Lemma fills_aggregate sources n unset configured : Forall good (reports p n sources) ->
  fills unset configured (reports p n sources)
    (if unset then default configured (aggregateDiscoveredMetadata visit sources !! n ≫= p) else configured).
Proof.
  intros Hg. unfold fills. destruct unset; [|done]. rewrite aggregate_field. pose proof (field_least _ Hg) as Hl.
  destruct (foldl _ _ _) as [x|]; [|by rewrite Hl]. cbn [default from_option id].
  destruct (reports p n sources); [set_solver|done].
Qed.
End Field.

Lemma fills_perm {T} (least : T -> T -> Prop) unset configured l k effective : l ≡ₚ k ->
  fills least unset configured l effective -> fills least unset configured k effective.
Proof.
  intros Hp. unfold fills. destruct unset; [|done].
  destruct l as [|x l], k as [|y k]; [done|by apply Permutation_nil_cons in Hp
    |by apply symmetry, Permutation_nil_cons in Hp|]. by rewrite Hp.
Qed.

(** The order of sizes and prices: not less than. *)
Definition covers (x y : float64) : Prop := f64_lt x y = false.
Definition number (x : float64) : Prop := is_nan x = false.

Lemma covers_refl x : number x -> covers x x.
Proof.
  unfold number, covers. intros Hx. rewrite f64_lt_key by done.
  destruct (lex_lt (f64_key x) (f64_key x)) eqn:E; [|done]. by rewrite (less_asym _ _ E) in E.
Qed.

Lemma fills_context sources n unset configured :
  fills Z.le unset configured (reports dm_Context n sources)
    (if unset then default configured (aggregateDiscoveredMetadata visit sources !! n ≫= dm_Context) else configured).
Proof.
  apply (fills_aggregate dm_Context reduce_min Z.le (fun _ => True)); try done; try (intros; lia).
  - intros x v _ _. unfold reduce_min. destruct (Z.ltb_spec v x); eexists; (split; [done|]); split; try lia; auto.
  - by apply Forall_true.
Qed.

Lemma fills_number p sources n unset configured :
  p no_discovery = None -> (forall acc m, p (reduceDiscoveredModelMetadata acc m) = reduce_max (p acc) (p m)) ->
  Forall number (reports p n sources) ->
  fills covers unset configured (reports p n sources)
    (if unset then default configured (aggregateDiscoveredMetadata visit sources !! n ≫= p) else configured).
Proof.
  intros He Hp. apply (fills_aggregate p reduce_max covers number); try done.
  - intros x v Hx Hv. unfold reduce_max. destruct (f64_lt x v) eqn:E.
    + exists v. split; [done|]. split; [auto|]. split; [|by apply covers_refl].
      unfold covers. rewrite f64_lt_key in * by done. by apply (less_asym (less := lex_lt)).
    + exists x. split; [done|]. split; [auto|]. by split; [apply covers_refl|].
  - apply covers_refl.
  - unfold number, covers. intros x y z Hx Hy Hz. rewrite !f64_lt_key by done. intros H1 H2.
    by apply (less_neg_trans (f64_key z) (f64_key y) (f64_key x)).
Qed.

Definition merge_one (o : option ModelMetadata) (d : DiscoveredModelMetadata) : option ModelMetadata :=
  let m := default no_metadata o in
  if md_DiscoveryDisabled m then o
  else
    Some (mkModelMetadata (md_Enabled m || negb (bool_decide (is_Some o))) (md_Weight m) (md_Priority m)
      (or_discovered (md_SizeB m) (dm_SizeB d)) (or_discovered (md_InputPrice m) (dm_InputPrice d))
      (or_discovered (md_OutputPrice m) (dm_OutputPrice d))
      (if md_Context m =? 0 then default (md_Context m) (dm_Context d) else md_Context m)
      (if bool_decide (md_Tags m = []) then dm_Tags d else md_Tags m)
      (md_MMProjection m) (md_MMProjectionDisabled m) (md_DiscoveryDisabled m)).

Lemma merge_lookup policy sources n :
  rp_Models (mergeDiscoveredMetadata visit policy sources) !! n =
  match aggregateDiscoveredMetadata visit (by_source (visit _ sources).*2) !! n with
  | Some d => merge_one (rp_Models policy !! n) d
  | None => rp_Models policy !! n
  end.
Proof.
  unfold mergeDiscoveredMetadata. cbn [rp_Models with_models].
  apply (foldl_keyed_map merge_step merge_one); [|apply visit_all].
  intros m k a n'. unfold merge_step, merge_one. destruct (md_DiscoveryDisabled (default no_metadata (m !! k))) eqn:E.
  - destruct (decide (k = n')) as [->|]; [by rewrite E|done].
  - destruct (decide (k = n')) as [->|]; [by rewrite lookup_insert_eq, E|by rewrite lookup_insert_ne].
Qed.

Lemma reports_perm {T} (p : DiscoveredModelMetadata -> option T) n sources :
  reports p n (by_source (visit _ sources).*2) ≡ₚ reports p n (map_to_list sources).*2.
Proof. unfold reports, by_source. by rewrite stable_sort_Permutation, visit_all. Qed.

Lemma aggregate_reported sources n :
  is_Some (aggregateDiscoveredMetadata visit (by_source (visit _ sources).*2) !! n) <->
  exists source s, sources !! source = Some s /\ is_Some (ds_Models s !! n).
Proof.
  rewrite aggregate_lookup.
  assert (G : forall l acc, is_Some (foldl (fun acc s => match ds_Models s !! n with Some m => aggregate_one acc m | None => acc end) acc l)
    <-> is_Some acc \/ exists s, s ∈ l /\ is_Some (ds_Models s !! n)).
  { induction l as [|s l IH]; intros acc; cbn [foldl]; [set_solver|]. rewrite IH.
    destruct (ds_Models s !! n) as [m|] eqn:E.
    - unfold aggregate_one. split; [intros _|intros _; left; by eexists]. right. exists s. rewrite E. split; [by left|by eexists].
    - split; [set_solver|]. intros [?|(s' & [->|]%elem_of_cons & Hs)]; [by left| |set_solver].
      rewrite E in Hs. by destruct Hs. }
  rewrite G. split.
  - intros [[]|(s & Hs & Hn)]; [done|]. unfold by_source in Hs. rewrite stable_sort_Permutation, visit_all in Hs.
    apply list_elem_of_fmap in Hs as ([source s'] & -> & Hs%elem_of_map_to_list). by exists source, s'.
  - intros (source & s & Hs & Hn). right. exists s. split; [|done]. unfold by_source.
    rewrite stable_sort_Permutation, visit_all. apply list_elem_of_fmap. exists (source, s). by rewrite elem_of_map_to_list.
Qed.

(** C16: discovery only fills what the configuration leaves open, and does so
    conservatively.  A model that opts out of discovery, or that no source reports,
    keeps its configured metadata; any other keeps whether it is enabled, its
    weight, priority and projection, and every field that is configured; a field
    that is not takes a reported value, the least context and the greatest size and
    prices of all the sources, whatever the order the maps are visited in.  A model
    that only discovery knows is enabled. *)
Theorem discovery_fills_gaps policy (sources : gmap string DiscoveredMetadataSnapshot) n :
  let effective := rp_Models (mergeDiscoveredMetadata visit policy sources) in
  let m := metadata_of (rp_Models policy) n in
  let reported {T} (p : DiscoveredModelMetadata -> option T) := reports p n (map_to_list sources).*2 in
  Forall number (reported dm_SizeB) -> Forall number (reported dm_InputPrice) -> Forall number (reported dm_OutputPrice) ->
  let known := exists source s, sources !! source = Some s /\ is_Some (ds_Models s !! n) in
  (~ known \/ md_DiscoveryDisabled m = true -> effective !! n = rp_Models policy !! n) /\
  (known -> md_DiscoveryDisabled m = false ->
    exists m', effective !! n = Some m' /\
      md_Enabled m' = (if rp_Models policy !! n then md_Enabled m else true) /\
      md_Weight m' = md_Weight m /\ md_Priority m' = md_Priority m /\
      md_MMProjection m' = md_MMProjection m /\ md_MMProjectionDisabled m' = md_MMProjectionDisabled m /\
      (md_Tags m <> [] -> md_Tags m' = md_Tags m) /\
      fills Z.le (md_Context m =? 0) (md_Context m) (reported dm_Context) (md_Context m') /\
      fills covers (f64_eq (md_SizeB m) f64_zero) (md_SizeB m) (reported dm_SizeB) (md_SizeB m') /\
      fills covers (f64_eq (md_InputPrice m) f64_zero) (md_InputPrice m) (reported dm_InputPrice) (md_InputPrice m') /\
      fills covers (f64_eq (md_OutputPrice m) f64_zero) (md_OutputPrice m) (reported dm_OutputPrice) (md_OutputPrice m')).
Proof.
  cbn zeta. intros Hs Hi Ho. rewrite merge_lookup. pose proof (aggregate_reported sources n) as Hknown.
  set (ordered := by_source (visit _ sources).*2) in *.
  assert (Hp : forall T (p : DiscoveredModelMetadata -> option T), reports p n ordered ≡ₚ reports p n (map_to_list sources).*2)
    by (intros; apply reports_perm).
  split.
  { intros Hor. destruct (aggregateDiscoveredMetadata visit ordered !! n) as [d|]; [|done].
    unfold merge_one. destruct Hor as [Hno|Hd]; [destruct Hno; apply Hknown; by eexists|].
    unfold metadata_of in Hd. by rewrite Hd. }
  intros [d Hd]%Hknown Hm. rewrite Hd. unfold merge_one. unfold metadata_of in Hm. rewrite Hm. fold (metadata_of (rp_Models policy) n).
  eexists. split; [done|]. cbn [md_Enabled md_Weight md_Priority md_MMProjection md_MMProjectionDisabled md_Tags md_Context
    md_SizeB md_InputPrice md_OutputPrice].
  split. { unfold metadata_of. destruct (rp_Models policy !! n); [apply orb_false_r|done]. }
  do 4 (split; [done|]). split; [intros Ht; by rewrite bool_decide_eq_false_2|].
  assert (Hfield : forall p (configured : float64), p no_discovery = None ->
    (forall acc m, p (reduceDiscoveredModelMetadata acc m) = reduce_max (p acc) (p m)) ->
    Forall number (reports p n (map_to_list sources).*2) ->
    fills covers (f64_eq configured f64_zero) configured (reports p n (map_to_list sources).*2) (or_discovered configured (p d))).
  { intros p configured He Hred Hnum. apply (fills_perm _ _ _ _ _ _ (Hp _ p)).
    pose proof (fills_number p ordered n (f64_eq configured f64_zero) configured He Hred) as Hf.
    rewrite Hd in Hf. apply Hf. by rewrite Hp. }
  split; [|split; [by apply Hfield|split; by apply Hfield]].
  apply (fills_perm _ _ _ _ _ _ (Hp _ dm_Context)).
  pose proof (fills_context ordered n (md_Context (metadata_of (rp_Models policy) n) =? 0)
    (md_Context (metadata_of (rp_Models policy) n))) as Hf. by rewrite Hd in Hf.
Qed.
End Discovered.

(** ** The manager *)
Section Manager.
Context `{UnicodeTables}.
Context (visit : forall A, gmap string A -> list (string * A)).
Context (json_size : kwargs -> option Z).
Notation Valid := (ValidateRoutingPolicy visit json_size).

Lemma valid_with_revision revision p : Valid (with_revision revision p) = Valid p.
Proof. done. Qed.

Definition next_revision (r : RouterManager) : Z := uint64 (rp_Revision (rm_policy r) + 1).

Lemma next_revision_differs r : is_uint64 (rp_Revision (rm_policy r)) -> rp_Revision (rm_policy r) <> next_revision r.
Proof.
  unfold next_revision. generalize (rp_Revision (rm_policy r)). intros v Hv E.
  destruct (decide (is_uint64 (v + 1))) as [Hu|Hu]; [rewrite uint64_id in E by done; lia|].
  assert (v = 18446744073709551615) as -> by (unfold is_uint64 in *; lia). vm_compute in E. done.
Qed.

(** C15: a publication is atomic and fenced by the revision its author read: it
    succeeds exactly when the policy is valid, the revision is current and the file
    was written; it then serves that policy, compiled with what was discovered,
    under the next revision, with fresh counters, and the file holds what is
    served; otherwise neither the manager nor the file changes.  Of two authors who
    read the same revision, the second to publish is refused. *)
Theorem publish_is_fenced write p expected r file err r' file' :
  Publish visit json_size write p expected r file = (err, r', file') ->
  let published := with_revision (next_revision r) p in
  let written := forall w, write = Some w -> w published = None in
  (err = None <-> Valid p = None /\ expected = rp_Revision (rm_policy r) /\ written) /\
  (err <> None -> r' = r /\ file' = file) /\
  (err = None ->
    r' = mkRouterManager published (runtime_of visit published (rm_metadata r) (rm_deploymentMetadata r)) (rm_metadata r)
           (rm_metadataGeneration r) (rm_deploymentMetadata r) ∅ (rm_observations r) /\
    file' = (if write then Some (rm_policy r') else file) /\
    (is_uint64 (rp_Revision (rm_policy r)) ->
     forall write2 p2, (Publish visit json_size write2 p2 expected r' file').1.1 <> None)).
Proof.
  assert (Hsecond : forall r2 write2 p2 file2, expected <> rp_Revision (rm_policy r2) ->
    (Publish visit json_size write2 p2 expected r2 file2).1.1 <> None).
  { intros r2 write2 p2 file2 Hne. unfold Publish. destruct (Valid p2); [done|].
    apply Z.eqb_neq in Hne. by rewrite Hne. }
  cbn zeta. unfold Publish. fold (next_revision r). destruct (Valid p) as [e|] eqn:V.
  { intros [= <- <- <-]. split; [by split; [|intros [? _]]|done]. }
  destruct (Z.eqb_spec expected (rp_Revision (rm_policy r))) as [E|E]; cbn [negb].
  2:{ intros [= <- <- <-]. split; [by split; [|intros (_ & ? & _)]|done]. }
  assert (Hafter : forall file2, is_uint64 (rp_Revision (rm_policy r)) -> forall write2 p2,
    (Publish visit json_size write2 p2 expected (installPolicyLocked visit (with_revision (next_revision r) p) r) file2).1.1 <> None).
  { intros file2 Hu write2 p2. apply Hsecond. rewrite E. by apply next_revision_differs. }
  destruct write as [w|].
  - destruct (w (with_revision (next_revision r) p)) as [e|] eqn:W; intros [= <- <- <-].
    + split; [|done]. split; [done|]. intros (_ & _ & Hw). by rewrite (Hw w eq_refl) in W.
    + split; [|split; [done|]]; [split; [|done]|].
      * intros _. split; [done|]. split; [done|]. by intros w' [= <-].
      * intros _. split; [done|]. split; [done|]. apply Hafter.
  - intros [= <- <- <-]. split; [|split; [done|]]; [split; [|done]|].
    + intros _. split; [done|]. by split.
    + intros _. split; [done|]. split; [done|]. apply Hafter.
Qed.

(** Everything that changes a manager. *)
Inductive manager_step : RouterManager -> RouterManager -> Prop :=
  | step_SetPolicy p expected r : manager_step r (SetPolicy visit json_size p expected r).2
  | step_Publish write p expected r file : manager_step r (Publish visit json_size write p expected r file).1.2
  | step_ReplaceDiscoveredMetadata now snapshot r : manager_step r (ReplaceDiscoveredMetadata visit now snapshot r).2
  | step_RemoveDiscoveredMetadata source r : manager_step r (RemoveDiscoveredMetadata visit source r).2
  | step_ReplaceDeploymentMetadata now models r : manager_step r (ReplaceDeploymentMetadata visit now models r).2
  | step_Begin model r : manager_step r (Begin model r)
  | step_Observe model latency status r : manager_step r (Observe model latency status r)
  | step_ObserveRoute model latency status r : manager_step r (ObserveRoute model latency status r)
  | step_Route rand_Int unixNano math_Tanh format6 err input r :
      manager_step r (Route rand_Int unixNano math_Tanh format6 err input r).2.

(** Discovered metadata without NaN or nonsense. *)
Definition sane (m : DiscoveredModelMetadata) : Prop :=
  from_option number True (dm_SizeB m) /\ from_option number True (dm_InputPrice m) /\
  from_option number True (dm_OutputPrice m) /\ from_option (fun c => 0 < c) True (dm_Context m).

Definition sane_models (models : gmap string DiscoveredModelMetadata) : Prop :=
  forall n m, models !! n = Some m -> sane m.

Record manager_ok (r : RouterManager) : Prop := {
  ok_valid : Valid (rm_policy r) = None;
  ok_runtime : rm_runtime r = runtime_of visit (rm_policy r) (rm_metadata r) (rm_deploymentMetadata r);
  ok_bounded : Z.of_nat (size (rm_metadata r)) <= maxDiscoveredMetadataSources;
  ok_sources : forall source s, rm_metadata r !! source = Some s -> ds_Source s = source /\ sane_models (ds_Models s);
  ok_deployments : sane_models (rm_deploymentMetadata r);
}.

Lemma validated_sane m : validateDiscoveredModelMetadata m = None -> sane m.
Proof.
  unfold validateDiscoveredModelMetadata. rewrite !first_error_cons, !fail_if_None. intros (Hn & Hc & _).
  apply orb_false_iff in Hn as [[Hs Hi]%orb_false_iff Ho].
  assert (G : forall minimum o, invalid_discovered minimum o = false -> from_option number True o).
  { intros minimum [x|]; [|done]. cbn. intros [_ Hf]%orb_false_iff. by destruct x. }
  repeat split; eauto. destruct (dm_Context m); cbn; [lia|done].
Qed.

Lemma normalized_sane now snapshot normalized :
  normalizeDiscoveredMetadataSnapshot visit now snapshot = inr normalized -> sane_models (ds_Models normalized).
Proof.
  unfold normalizeDiscoveredMetadataSnapshot. destruct (invalid_source _); [done|]. destruct (_ <? _); [done|].
  destruct (scan normalize_model ∅ _) as [err|models] eqn:E; [done|]. intros [= <-]. cbn [ds_Models].
  revert E. apply (scan_invariant _ (fun _ => sane_models)); [intros n m; by rewrite lookup_empty|].
  intros _ [model metadata] models0 models1 Hs. unfold normalize_model. destruct (_ || _)%bool; [done|].
  destruct (validateDiscoveredModelMetadata metadata) eqn:V; [done|]. intros [= <-] n m.
  rewrite lookup_insert_Some. intros [[_ <-]|[_ Hm]]; [|by apply (Hs n)]. exact (validated_sane _ V).
Qed.

Lemma ok_with_counters counters r : manager_ok r -> manager_ok (with_counters counters r).
Proof. intros []. by split. Qed.

Lemma ok_with_observations observations r : manager_ok r -> manager_ok (with_observations observations r).
Proof. intros []. by split. Qed.

Lemma ok_install p r : Valid p = None -> manager_ok r -> manager_ok (installPolicyLocked visit p r).
Proof. intros Hp []. by split. Qed.

Lemma ok_with_metadata metadata generation r :
  manager_ok r -> Z.of_nat (size metadata) <= maxDiscoveredMetadataSources ->
  (forall source s, metadata !! source = Some s -> ds_Source s = source /\ sane_models (ds_Models s)) ->
  manager_ok (with_metadata visit metadata generation r).
Proof. intros [] Hb Hs. by split. Qed.

Lemma step_ok r r' : manager_step r r' -> manager_ok r -> manager_ok r'.
Proof.
  intros Hstep Hok. destruct Hstep as [p expected r|write p expected r file|now snapshot r|source r|now models r|model r
    |model latency status r|model latency status r|rand_Int unixNano math_Tanh format6 err input r].
  - unfold SetPolicy. destruct (Valid p) eqn:V; [done|]. destruct (negb _); [done|]. by apply ok_install.
  - destruct (Publish _ _ _ _ _ _ _) as [[err r'] file'] eqn:E. cbn. revert E. unfold Publish.
    destruct (Valid p) eqn:V; [by intros [= _ <- _]|]. destruct (negb _); [by intros [= _ <- _]|].
    assert (Hi : manager_ok (installPolicyLocked visit (with_revision (uint64 (rp_Revision (rm_policy r) + 1)) p) r))
      by (by apply ok_install).
    destruct write as [w|]; [destruct (w _)|]; by intros [= _ <- _].
  - unfold ReplaceDiscoveredMetadata.
    destruct (normalizeDiscoveredMetadataSnapshot _ _ _) as [e|normalized] eqn:N; [done|].
    destruct (_ && _)%bool eqn:F; [done|]. apply ok_with_metadata; [done| |].
    + apply andb_false_iff in F as [F|F].
      * apply negb_false_iff, bool_decide_eq_true in F. rewrite map_size_insert_Some by done. apply Hok.
      * rewrite map_size_insert. pose proof (ok_bounded r Hok). destruct (rm_metadata r !! _); unfold id; lia.
    + intros source s. rewrite lookup_insert_Some. intros [[<- <-]|[_ Hs]]; [|by apply (ok_sources r Hok)].
      split; [done|]. by eapply normalized_sane.
  - unfold RemoveDiscoveredMetadata. destruct (invalid_source _); [done|].
    destruct (rm_metadata r !! _) eqn:E; [|done]. apply ok_with_metadata; [done| |].
    + rewrite map_size_delete. pose proof (ok_bounded r Hok). destruct (rm_metadata r !! _); unfold id; lia.
    + intros s x [_ Hx]%lookup_delete_Some. by apply (ok_sources r Hok).
  - unfold ReplaceDeploymentMetadata. destruct (normalizeDiscoveredMetadataSnapshot _ _ _) as [e|normalized] eqn:N; [done|].
    destruct Hok. split; try done. by eapply normalized_sane.
  - by apply ok_with_observations.
  - by apply ok_with_observations.
  - by apply ok_with_observations.
  - destruct err as [err|]; [done|].
    destruct (Route _ _ _ _ None input r) as [res r'] eqn:E. cbn.
    destruct (Select_result rand_Int unixNano math_Tanh (routed_name input r) (requested_of input)
              (in_Candidates input) false r) as (counters & Hr & _).
    unfold Route in E. fold (requested_of input) in E.
    destruct (Select _ _ _ _ _ _ _ r) as [[e|decision] r1]; cbn [fst snd] in *; subst r1;
      [injection E as _ <-|destruct (negb _); [injection E as _ <-|
         destruct (in_ProviderStatePin input); injection E as _ <-]]; by apply ok_with_counters.
Qed.

(** C14: whatever is published, discovered, routed and observed, in whatever order,
    a router keeps serving a valid policy; what it routes by is always the
    compilation of that policy with the metadata it holds now, never a stale one; it
    holds the metadata of at most 64 sources, each under its own name; and no NaN
    gets into a discovered size or price, which is what the choice of the least and
    the greatest needs. *)
Theorem router_serves_valid_policy p r0 r :
  NewRouterManager visit json_size p = inr r0 -> rtc manager_step r0 r ->
  Valid (rm_policy r) = None /\
  rm_runtime r = runtime_of visit (rm_policy r) (rm_metadata r) (rm_deploymentMetadata r) /\
  Z.of_nat (size (rm_metadata r)) <= maxDiscoveredMetadataSources /\
  (forall source s, rm_metadata r !! source = Some s -> ds_Source s = source) /\
  forall n, let reported p := reports p n (map_to_list (rm_metadata r)).*2 in
    Forall number (reported dm_SizeB) /\ Forall number (reported dm_InputPrice) /\ Forall number (reported dm_OutputPrice).
Proof.
  intros Hnew Hsteps.
  assert (Hok : manager_ok r).
  { assert (H0 : manager_ok r0).
    { unfold NewRouterManager in Hnew. cbn zeta in Hnew.
      destruct (Valid _) eqn:V in Hnew; [done|]. injection Hnew as <-. split; try done.
      all: intros ? ? ; cbn; by rewrite lookup_empty. }
    clear Hnew. induction Hsteps; eauto using step_ok. }
  destruct Hok as [Hv Hr Hb Hs _]. do 3 (split; [done|]). split; [intros source s Hl; by apply (Hs source)|].
  assert (G : forall n (f : DiscoveredModelMetadata -> option float64), (forall m, sane m -> from_option number True (f m)) ->
    Forall number (reports f n (map_to_list (rm_metadata r)).*2)).
  { intros n f Hf. apply Forall_forall. intros x Hx. unfold reports in Hx.
    apply list_elem_of_omap in Hx as (s & Hin & Hx). apply list_elem_of_fmap in Hin as ([source s'] & -> & Hin%elem_of_map_to_list).
    destruct (Hs source s' Hin) as [_ Hsane]. cbn in Hx. destruct (ds_Models s' !! n) as [m|] eqn:E; [|done].
    specialize (Hf m (Hsane n m E)). cbn in Hx. by rewrite Hx in Hf. }
  intros n. split; [|split]; apply G; by intros m (? & ? & ? & ?).
Qed.
End Manager.

(** ** A router *)

(** Selectors [auto], over models [a] and [b], and [b], which bears the name of a
    model but routes over both. *)
Definition model_weighing (weight : Z) (size : Z) : ModelMetadata :=
  mkModelMetadata true weight 0 (f64_of_int size) f64_zero f64_zero 0 [] None false false.

Definition selector (strategy : string) (models : list string) : VirtualModel :=
  mkVirtualModel strategy models [] ∅ None None.

Definition small_policy : RoutingPolicy :=
  mkRoutingPolicy 2 1 "auto"
    (<["auto" := selector "weighted_round_robin" ["a"; "b"]]> {["b" := selector "round_robin" ["a"; "b"]]})%string
    (<["a" := model_weighing 2 7]> {["b" := model_weighing 1 3]})%string [].

Definition in_key_order {A : Type} (m : gmap string A) : list (string * A) := map_to_list m.
Definition visit_in_order (A : Type) : gmap string A -> list (string * A) := in_key_order.
Definition small_size (k : kwargs) : option Z := Some 2.

Definition router_of (p : RoutingPolicy) : RouterManager :=
  match NewRouterManager (H := plain_tables) visit_in_order small_size p with
  | inr r => r
  | inl _ => mkRouterManager p (mkCompiledRoutingPolicy p ∅ []) ∅ 0 ∅ ∅ ∅
  end.
Definition small_router : RouterManager := router_of small_policy.

Example small_router_new : NewRouterManager (H := plain_tables) visit_in_order small_size small_policy = inr small_router.
Proof. vm_compute. reflexivity. Qed.

Example default_router_new :
  is_Some (NewDefaultRouterManager (H := plain_tables) visit_in_order small_size).
Proof. vm_compute. by eexists. Qed.

Definition no_draw (n : Z) : option Z := None.
Definition no_tanh (x : float64) : float64 := x.
Definition no_format (x : float64) : string := "0.000000".

Definition small_input (requested : string) (pin : option ProviderStatePin) : Input :=
  mkInput requested "" pin ["a"; "b"]%string "" (mkStageHistory [] 0 false).

Definition small_Route (requested : string) (pin : option ProviderStatePin) (r : RouterManager)
  : (string + Decision) * RouterManager :=
  Route (H := plain_tables) no_draw 0 no_tanh no_format None (small_input requested pin) r.

Definition routed_model (res : string + Decision) : string :=
  match res with inr d => de_VirtualModel d | inl err => err end.

Lemma routing_narrows_candidates_witness :
  routed_model (small_Route "auto" None small_router).1 = "a"%string /\
  allowed_model small_router "a" /\ "a"%string ∈ ["a"; "b"]%string.
Proof.
  pose proof (routing_narrows_candidates (H := plain_tables) no_draw 0 no_tanh no_format (small_input "auto" None) small_router
    (small_Route "auto" None small_router).1 (small_Route "auto" None small_router).2
    (surjective_pairing (small_Route "auto" None small_router))) as [_ Hres].
  destruct (small_Route "auto" None small_router).1 as [err|d] eqn:E; [exfalso; vm_compute in E; discriminate|].
  destruct Hres as (Hin & Hallowed & _).
  assert (Hd : de_VirtualModel d = "a"%string).
  { assert (G : routed_model (small_Route "auto" None small_router).1 = "a"%string) by (vm_compute; reflexivity).
    rewrite E in G. exact G. }
  rewrite Hd in Hallowed, Hin. split; [exact Hd|]. split; [exact Hallowed|exact Hin].
Defined.

Definition pin_on (model : string) : ProviderStatePin := mkProviderStatePin model "responses".

Lemma pin_is_kept_witness :
  routed_model (small_Route "auto" (Some (pin_on "a")) small_router).1 = "a"%string /\
  (small_Route "auto" (Some (pin_on "a")) small_router).2 = small_router.
Proof.
  pose proof (pin_is_kept (H := plain_tables) no_draw 0 no_tanh no_format (small_input "auto" (Some (pin_on "a"))) small_router
    (pin_on "a") eq_refl ltac:(vm_compute; reflexivity) ltac:(discriminate) ltac:(vm_compute; reflexivity)) as [Hr Hres].
  fold (small_Route "auto" (Some (pin_on "a")) small_router) in Hr, Hres. split; [|exact Hr].
  destruct (small_Route "auto" (Some (pin_on "a")) small_router).1 as [err|d] eqn:E; [exfalso; vm_compute in E; discriminate|].
  destruct Hres as [Hd _]. exact Hd.
Defined.

(** The pin of a model that shares its name with a selector re-runs the selector: it
    advances the counters, and here leaves the pinned model [b] for [a]. *)
Example pinned_selector_reroutes :
  OwnsVirtualRequest (H := plain_tables) "b" small_router = true /\
  routed_model (small_Route "auto" (Some (pin_on "b")) small_router).1 = "a"%string /\
  rm_counters (small_Route "auto" (Some (pin_on "b")) small_router).2 !! "b|||round_robin"%string = Some 1.
Proof. vm_compute. done. Qed.

Lemma round_robin_fair_witness :
  choices no_draw 0 3 "weighted_round_robin" ["a"; "b"] (rp_Models small_policy) "k" small_router
    ≡ₚ ["a"; "a"; "b"]%string.
Proof.
  destruct (round_robin_fair no_draw 0 "weighted_round_robin" ["a"; "b"]%string (rp_Models small_policy) "k" small_router)
    as [Hp _].
  - right. reflexivity.
  - discriminate.
  - apply (bool_decide_unpack _). vm_compute. exact I.
  - vm_compute. discriminate.
  - vm_compute. discriminate.
  - vm_compute. split; [discriminate|reflexivity].
  - revert Hp. vm_compute. intros Hp. exact Hp.
Defined.

Definition smallest_choice : (string * gmap string float64) * RouterManager :=
  choose no_draw 0 "smallest" ["a"; "b"]%string (rp_Models small_policy) "k" false small_router.

Lemma scored_choice_is_best_witness :
  smallest_choice.1.1 = "b"%string /\ smallest_choice.2 = small_router /\ "b"%string ∈ ["a"; "b"]%string.
Proof.
  destruct (scored_choice_is_best no_draw 0 "smallest" ["a"; "b"]%string (rp_Models small_policy) "k" false small_router
    "b" smallest_choice.1.2 smallest_choice.2) as (Hr & Hin & _).
  - unfold smallest_choice. vm_compute. reflexivity.
  - discriminate.
  - intros [E|E]; discriminate.
  - discriminate.
  - repeat constructor; discriminate.
  - repeat constructor; vm_compute; discriminate.
  - split; [vm_compute; reflexivity|]. split; [exact Hr|exact Hin].
Defined.

Definition reported_b : DiscoveredModelMetadata :=
  mkDiscoveredModelMetadata (Some (f64_of_int 4)) None None (Some 4096) ["vision"]%string.
Definition one_source : gmap string DiscoveredMetadataSnapshot :=
  {["probe" := mkDiscoveredMetadataSnapshot "probe" 1 {["b" := reported_b]}]}%string.

Lemma discovery_fills_gaps_witness :
  exists m', rp_Models (mergeDiscoveredMetadata (H := plain_tables) visit_in_order small_policy one_source) !! "b"%string = Some m' /\
    md_Weight m' = 1 /\ md_SizeB m' = f64_of_int 3 /\ md_Context m' ∈ [4096].
Proof.
  destruct (discovery_fills_gaps (H := plain_tables) visit_in_order (fun A m => reflexivity _) small_policy one_source "b")
    as [_ Hf].
  - vm_compute. repeat constructor.
  - vm_compute. repeat constructor.
  - vm_compute. repeat constructor.
  - destruct Hf as (m' & Hm & _ & Hw & _ & _ & _ & _ & Hc & Hs & _).
    + exists "probe"%string, (mkDiscoveredMetadataSnapshot "probe" 1 {["b" := reported_b]})%string. split; [reflexivity|].
      exists reported_b. reflexivity.
    + reflexivity.
    + assert (Er : reports dm_Context "b" (map_to_list one_source).*2 = [4096]) by (vm_compute; reflexivity).
      assert (E0 : (md_Context (metadata_of (rp_Models small_policy) "b") =? 0) = true) by (vm_compute; reflexivity).
      assert (E1 : f64_eq (md_SizeB (metadata_of (rp_Models small_policy) "b")) f64_zero = false) by (vm_compute; reflexivity).
      assert (E2 : md_SizeB (metadata_of (rp_Models small_policy) "b") = f64_of_int 3) by (vm_compute; reflexivity).
      assert (E3 : md_Weight (metadata_of (rp_Models small_policy) "b") = 1) by (vm_compute; reflexivity).
      rewrite Er, E0 in Hc. rewrite E1, E2 in Hs. rewrite E3 in Hw. cbn [fills] in Hc, Hs.
      exists m'. split; [exact Hm|]. split; [exact Hw|]. split; [exact Hs|exact (proj1 Hc)].
Defined.

Definition published : option string * RouterManager * option RoutingPolicy :=
  Publish (H := plain_tables) visit_in_order small_size None small_policy 1 small_router None.

Lemma publish_is_fenced_witness :
  published.1.1 = None /\ rp_Revision (rm_policy published.1.2) = 2 /\
  (Publish (H := plain_tables) visit_in_order small_size None small_policy 1 published.1.2 None).1.1 <> None.
Proof.
  destruct (publish_is_fenced (H := plain_tables) visit_in_order small_size None small_policy 1 small_router None
    published.1.1 published.1.2 published.2) as (_ & _ & Hok); [unfold published; vm_compute; reflexivity|].
  assert (E : published.1.1 = None) by (vm_compute; reflexivity).
  destruct (Hok E) as (_ & Hfile & Hsecond). split; [exact E|]. split; [vm_compute; reflexivity|].
  assert (Hf : published.2 = None) by (vm_compute; reflexivity). rewrite Hf in Hsecond.
  apply Hsecond. vm_compute. split; [discriminate|reflexivity].
Defined.

Lemma router_serves_valid_policy_witness :
  ValidateRoutingPolicy (H := plain_tables) visit_in_order small_size (rm_policy (Begin "a" small_router)) = None /\
  Z.of_nat (size (rm_metadata (Begin "a" small_router))) <= maxDiscoveredMetadataSources.
Proof.
  destruct (router_serves_valid_policy (H := plain_tables) visit_in_order small_size small_policy small_router
    (Begin "a" small_router) small_router_new) as (Hv & _ & Hb & _).
  - apply rtc_once. constructor.
  - split; [exact Hv|exact Hb].
Defined.
