(* ===== verification/Responses.v ===== *)
(** * Affinity of provider-owned resources ([pkg/responsesstate])

    Which route a response, a conversation, an item or a file of a provider is
    bound to ([store.go]), and the list of a caller's files ([file_index.go]): the
    bounded store in memory, whose entries expire lazily and are evicted least
    recently used first.

    The linked list of keys is the list of its values, from front to back.  A
    critical section reads the clock once; [None] is a Go panic. *)

From stdpp Require Import base gmap list strings sorting.
From Stdlib Require Import Ascii ZArith Lia.
From S2P Require Import Prelude GoStrings Json Fixtures.

Local Open Scope Z_scope.
Local Open Scope go_scope.

Definition MaxResponseIDBytes : Z := 512.
Definition MaxResourceIDBytes : Z := 512.
Definition MaxScopeBytes : Z := 128.
Definition MaxNameBytes : Z := 256.
Definition DefaultMaxEntries : Z := 100000.
Definition DefaultFileListLimit : Z := 100.
Definition MaxFileListLimit : Z := 1000.
Definition MaxFilenameBytes : Z := 1024.
Definition MaxPurposeBytes : Z := 256.

Definition ErrConflict : string := "resource affinity conflicts with an existing binding".
Definition ErrNotFound : string := "resource affinity was not found".
Definition ErrInvalidFileCursor : string := "invalid file list cursor".

Definition ResourceResponse : string := "response".
Definition ResourceConversation : string := "conversation".
Definition ResourceItem : string := "item".
Definition ResourceFile : string := "file".
Definition ResourcePrompt : string := "prompt".

(** ** Data *)
Record ResourceKey := mkResourceKey {
  rk_Scope : string;
  rk_Kind : string;
  rk_ResourceID : string;
}.

#[export] Instance ResourceKey_eq_dec : EqDecision ResourceKey.
Proof. solve_decision. Defined.

Record ResourceAffinity := mkResourceAffinity {
  ra_Key : ResourceKey;
  ra_VirtualModel : string;
  ra_Provider : string;
  ra_Deployment : string;
  ra_UpstreamModel : string;
  ra_BoundAt : Z;
  ra_DeletedAt : Z;
  ra_ExpiresAt : Z;
}.

Record Affinity := mkAffinity {
  af_Scope : string;
  af_ResponseID : string;
  af_VirtualModel : string;
  af_Provider : string;
  af_Deployment : string;
  af_UpstreamModel : string;
  af_BoundAt : Z;
  af_ExpiresAt : Z;
}.

Record FileRecord := mkFileRecord {
  fr_Scope : string;
  fr_ID : string;
  fr_Object : string;
  fr_Bytes : Z;
  fr_CreatedAt : Z;
  fr_ExpiresAt : Z;
  fr_Filename : string;
  fr_Purpose : string;
}.

#[export] Instance FileRecord_eq_dec : EqDecision FileRecord.
Proof. solve_decision. Defined.

Inductive FileOrder := FileOrderNone | FileOrderAscending | FileOrderDescending | FileOrderOther.

Record FileQuery := mkFileQuery {
  fq_Scope : string;
  fq_Purpose : string;
  fq_Limit : Z;
  fq_Order : FileOrder;
  fq_After : string;
}.

Record FilePage := mkFilePage {
  fp_Records : list FileRecord;
  fp_HasMore : bool;
}.

(** ** Validation *)

(** [value <= 0x20 || value == 0x7f] for a rune of a valid text. *)
Definition blank_or_control (s : string) : bool :=
  existsb (fun c => (byte_of c <=? 32)%nat || (byte_of c =? 127)%nat) (bytes s).

Definition ValidateScope (scope : string) : option string :=
  first_error
    [fail_if (String.eqb scope "" || negb (ValidString scope) || (MaxScopeBytes <? zlen scope))
       "scope must be valid UTF-8 and between 1 and %d bytes";
     fail_if (blank_or_control scope) "scope must not contain whitespace or control characters"].

Definition ValidateResponseID (responseID : string) : option string :=
  first_error
    [fail_if (String.eqb responseID "") "response ID is required";
     fail_if (negb (ValidString responseID) || (MaxResponseIDBytes <? zlen responseID))
       "response ID must be valid UTF-8 and at most %d bytes";
     fail_if (blank_or_control responseID) "response ID must not contain whitespace or control characters"].

Definition ValidateResourceID (resourceID : string) : option string :=
  first_error
    [fail_if (String.eqb resourceID "") "resource ID is required";
     fail_if (negb (ValidString resourceID) || (MaxResourceIDBytes <? zlen resourceID))
       "resource ID must be valid UTF-8 and at most %d bytes";
     fail_if (blank_or_control resourceID) "resource ID must not contain whitespace or control characters"].

Definition resource_kinds : list string :=
  [ResourceResponse; ResourceConversation; ResourceItem; ResourceFile; ResourcePrompt].

Definition ValidateResourceKind (kind : string) : option string :=
  fail_if (negb (bool_decide (kind ∈ resource_kinds))) "unsupported resource kind %q".

Definition ResourceKey_Validate (k : ResourceKey) : option string :=
  first_error [ValidateScope (rk_Scope k); ValidateResourceKind (rk_Kind k); ValidateResourceID (rk_ResourceID k)].

Definition Deleted (a : ResourceAffinity) : bool := negb (time_IsZero (ra_DeletedAt a)).

Definition validateFileString (value : string) (maxBytes : Z) : option string :=
  first_error
    [fail_if (negb (ValidString value) || (maxBytes <? zlen value)) "%s must be valid UTF-8 and at most %d bytes";
     fail_if (existsb (fun c => (byte_of c =? 0)%nat) (bytes value)) "%s must not contain NUL"].

Definition FileRecord_Validate (r : FileRecord) : option string :=
  first_error
    [ValidateScope (fr_Scope r);
     ValidateResourceID (fr_ID r);
     fail_if (negb (String.eqb (fr_Object r) "file")) "file object must be %q";
     fail_if (fr_Bytes r <? 0) "file bytes must not be negative";
     fail_if (fr_CreatedAt r <? 0) "file creation time must not be negative";
     fail_if (negb (fr_ExpiresAt r =? 0) && (fr_ExpiresAt r <=? fr_CreatedAt r)) "file expiry must be after creation time";
     validateFileString (fr_Filename r) MaxFilenameBytes;
     validateFileString (fr_Purpose r) MaxPurposeBytes].

Definition NormalizeFileQuery (query : FileQuery) : string + FileQuery :=
  ValidateScope (fq_Scope query) ?;
  validateFileString (fq_Purpose query) MaxPurposeBytes ?;
  let limit := if fq_Limit query =? 0 then DefaultFileListLimit else fq_Limit query in
  fail_if ((limit <? 1) || (MaxFileListLimit <? limit)) "file list limit must be between 1 and %d" ?;
  let order := match fq_Order query with FileOrderNone => FileOrderDescending | order => order end in
  fail_if match order with FileOrderOther => true | _ => false end "file list order must be asc or desc" ?;
  (if String.eqb (fq_After query) "" then None
   else if bool_decide (ValidateResourceID (fq_After query) = None) then None else Some ErrInvalidFileCursor) ?;
  inr (mkFileQuery (fq_Scope query) (fq_Purpose query) limit order (fq_After query)).

Section Names.
Context `{UnicodeTables}.

Definition required_name (value : string) : option string :=
  first_error
    [fail_if (String.eqb (TrimSpace value) "") "%s is required";
     fail_if (negb (ValidString value) || (MaxNameBytes <? zlen value)) "%s must be valid UTF-8 and at most %d bytes"].

(** The names are checked in the order of a map, which an error only shows in its
    text. *)
Definition ResourceAffinity_Validate (a : ResourceAffinity) : option string :=
  first_error
    [ResourceKey_Validate (ra_Key a);
     check_all required_name [ra_VirtualModel a; ra_Provider a; ra_Deployment a; ra_UpstreamModel a];
     fail_if (time_IsZero (ra_BoundAt a)) "bound time is required";
     fail_if (negb (time_IsZero (ra_ExpiresAt a)) && (ra_ExpiresAt a <=? ra_BoundAt a)) "expiry must be after bound time";
     if Deleted a then
       first_error
         [fail_if (ra_DeletedAt a <? ra_BoundAt a) "deleted time must not be before bound time";
          fail_if (time_IsZero (ra_ExpiresAt a) || (ra_ExpiresAt a <=? ra_DeletedAt a))
            "deleted resource expiry must be after deleted time"]
     else None].

Definition Affinity_Validate (a : Affinity) : option string :=
  first_error
    [ValidateScope (af_Scope a);
     ValidateResponseID (af_ResponseID a);
     check_all required_name [af_VirtualModel a; af_Provider a; af_Deployment a; af_UpstreamModel a];
     fail_if (time_IsZero (af_BoundAt a)) "bound time is required";
     fail_if (time_IsZero (af_ExpiresAt a) || (af_ExpiresAt a <=? af_BoundAt a)) "expiry must be after bound time"].
End Names.

(** ** The store *)
Record MemoryStore := mkMemoryStore {
  ms_entries : gmap string ResourceAffinity;
  ms_files : gmap string FileRecord;
  ms_order : list string;
  ms_maxEntries : Z;
}.

Definition NewMemoryStore (maxEntries : Z) : MemoryStore :=
  mkMemoryStore ∅ ∅ [] (if maxEntries <=? 0 then DefaultMaxEntries else maxEntries).

Definition separator : string := of_bytes [ascii_of_nat 0].

Definition memoryKey (key : ResourceKey) : string :=
  rk_Kind key +:+ separator +:+ rk_Scope key +:+ separator +:+ rk_ResourceID key.

Definition resourceExpired (a : ResourceAffinity) (now : Z) : bool :=
  negb (time_IsZero (ra_ExpiresAt a)) && negb (time_Before now (ra_ExpiresAt a)).

Definition sameResourceRoute (left right : ResourceAffinity) : bool :=
  bool_decide (ra_Key left = ra_Key right) && String.eqb (ra_VirtualModel left) (ra_VirtualModel right) &&
  String.eqb (ra_Provider left) (ra_Provider right) && String.eqb (ra_Deployment left) (ra_Deployment right) &&
  String.eqb (ra_UpstreamModel left) (ra_UpstreamModel right).

Definition MergeResourceExpiry (left right : Z) : Z :=
  if time_IsZero left || time_IsZero right then 0 else if left <? right then right else left.

Definition with_expiry (deletedAt expiresAt : Z) (a : ResourceAffinity) : ResourceAffinity :=
  mkResourceAffinity (ra_Key a) (ra_VirtualModel a) (ra_Provider a) (ra_Deployment a) (ra_UpstreamModel a) (ra_BoundAt a)
    deletedAt expiresAt.

Definition list_remove (key : string) (order : list string) : list string :=
  List.filter (fun k => negb (String.eqb k key)) order.

(** [order.MoveToBack] of the element of a key. *)
Definition touch (key : string) (s : MemoryStore) : MemoryStore :=
  mkMemoryStore (ms_entries s) (ms_files s) (list_remove key (ms_order s) ++ [key]) (ms_maxEntries s).

(** An assignment through the pointer of an entry. *)
Definition set_entry (key : string) (a : ResourceAffinity) (s : MemoryStore) : MemoryStore :=
  mkMemoryStore (<[key := a]> (ms_entries s)) (ms_files s) (ms_order s) (ms_maxEntries s).

Definition remove (a : ResourceAffinity) (s : MemoryStore) : MemoryStore :=
  let key := memoryKey (ra_Key a) in
  mkMemoryStore (delete key (ms_entries s)) (delete key (ms_files s)) (list_remove key (ms_order s)) (ms_maxEntries s).

Definition set_file (key : string) (record : FileRecord) (s : MemoryStore) : MemoryStore :=
  mkMemoryStore (ms_entries s) (<[key := record]> (ms_files s)) (ms_order s) (ms_maxEntries s).

(** The loop that makes room for an entry; each turn takes the front away, so that
    the length of the list and one turn suffice. *)
Fixpoint make_room (fuel : nat) (s : MemoryStore) : option MemoryStore :=
  match fuel with
  | O => Some s
  | S fuel =>
      if ms_maxEntries s <=? Z.of_nat (size (ms_entries s)) then
        match ms_order s with
        | [] => Some s
        | front :: _ =>
            match ms_entries s !! front with
            | None => None
            | Some a => make_room fuel (remove a s)
            end
        end
      else Some s
  end.

Definition push_entry (a : ResourceAffinity) (s : MemoryStore) : option (option string * MemoryStore) :=
  let key := memoryKey (ra_Key a) in
  s ← make_room (S (length (ms_order s))) s;
  Some (None, mkMemoryStore (<[key := a]> (ms_entries s)) (ms_files s) (ms_order s ++ [key]) (ms_maxEntries s)).

Definition bindResourceLocked (now : Z) (a : ResourceAffinity) (s : MemoryStore) : option (option string * MemoryStore) :=
  let key := memoryKey (ra_Key a) in
  match ms_entries s !! key with
  | Some existing =>
      if resourceExpired existing now then push_entry a (remove existing s)
      else if Deleted existing then Some (Some ErrConflict, s)
      else if sameResourceRoute existing a then
        Some (None, touch key (set_entry key
          (with_expiry (ra_DeletedAt existing) (MergeResourceExpiry (ra_ExpiresAt existing) (ra_ExpiresAt a)) existing) s))
      else Some (Some ErrConflict, s)
  | None => push_entry a s
  end.

Definition ResolveResource (ctx_Err : option string) (now : Z) (key : ResourceKey) (s : MemoryStore)
  : (string + option ResourceAffinity) * MemoryStore :=
  match first_error [ctx_Err; ResourceKey_Validate key] with
  | Some err => (inl err, s)
  | None =>
      match ms_entries s !! memoryKey key with
      | None => (inr None, s)
      | Some a => if resourceExpired a now then (inr None, remove a s) else (inr (Some a), touch (memoryKey key) s)
      end
  end.

Definition TombstoneResource (ctx_Err : option string) (now : Z) (key : ResourceKey) (deletedAt expiresAt : Z) (s : MemoryStore)
  : option string * MemoryStore :=
  match first_error
      [ctx_Err; ResourceKey_Validate key;
       fail_if (time_IsZero deletedAt || time_IsZero expiresAt || (expiresAt <=? deletedAt))
         "tombstone expiry must be after deleted time"] with
  | Some err => (Some err, s)
  | None =>
      match ms_entries s !! memoryKey key with
      | None => (Some ErrNotFound, s)
      | Some a =>
          if resourceExpired a now then (Some ErrNotFound, remove a s)
          else
            (None, touch (memoryKey key)
                     (if Deleted a then s else set_entry (memoryKey key) (with_expiry deletedAt expiresAt a) s))
      end
  end.

Section Store.
Context `{UnicodeTables}.

Definition BindResource (ctx_Err : option string) (now : Z) (a : ResourceAffinity) (s : MemoryStore)
  : option (option string * MemoryStore) :=
  match first_error [ctx_Err; ResourceAffinity_Validate a] with
  | Some err => Some (Some err, s)
  | None => bindResourceLocked now a s
  end.

Definition resource_of (a : Affinity) : ResourceAffinity :=
  mkResourceAffinity (mkResourceKey (af_Scope a) ResourceResponse (af_ResponseID a)) (af_VirtualModel a) (af_Provider a)
    (af_Deployment a) (af_UpstreamModel a) (af_BoundAt a) 0 (af_ExpiresAt a).

Definition Bind (ctx_Err : option string) (now : Z) (a : Affinity) (s : MemoryStore) : option (option string * MemoryStore) :=
  match Affinity_Validate a with
  | Some err => Some (Some err, s)
  | None => BindResource ctx_Err now (resource_of a) s
  end.

Definition affinity_of (a : ResourceAffinity) : Affinity :=
  mkAffinity (rk_Scope (ra_Key a)) (rk_ResourceID (ra_Key a)) (ra_VirtualModel a) (ra_Provider a) (ra_Deployment a)
    (ra_UpstreamModel a) (ra_BoundAt a) (ra_ExpiresAt a).

Definition Resolve (ctx_Err : option string) (now : Z) (scope responseID : string) (s : MemoryStore)
  : (string + option Affinity) * MemoryStore :=
  let '(res, s) := ResolveResource ctx_Err now (mkResourceKey scope ResourceResponse responseID) s in
  (match res with
   | inl err => inl err
   | inr None => inr None
   | inr (Some a) => inr (if Deleted a then None else Some (affinity_of a))
   end, s).

Definition BindFile (ctx_Err : option string) (now : Z) (a : ResourceAffinity) (record : FileRecord) (s : MemoryStore)
  : option (option string * MemoryStore) :=
  match first_error
      [ctx_Err; ResourceAffinity_Validate a;
       fail_if (negb (String.eqb (rk_Kind (ra_Key a)) ResourceFile)) "file affinity must use resource kind %q";
       FileRecord_Validate record;
       fail_if (negb (String.eqb (fr_Scope record) (rk_Scope (ra_Key a))) ||
                negb (String.eqb (fr_ID record) (rk_ResourceID (ra_Key a))))
         "file metadata does not match routing affinity"] with
  | Some err => Some (Some err, s)
  | None =>
      let key := memoryKey (ra_Key a) in
      if match ms_files s !! key with Some existing => negb (bool_decide (existing = record)) | None => false end
      then Some (Some ErrConflict, s)
      else
        '(err, s) ← bindResourceLocked now a s;
        match err with
        | Some err => Some (Some err, s)
        | None => Some (None, set_file key record s)
        end
  end.
End Store.

(** ** Listing files *)
Definition fileBefore (order : FileOrder) (left right : FileRecord) : bool :=
  let ascending := match order with FileOrderAscending => true | _ => false end in
  if fr_CreatedAt left =? fr_CreatedAt right
  then if ascending then String.ltb (fr_ID left) (fr_ID right) else String.ltb (fr_ID right) (fr_ID left)
  else if ascending then fr_CreatedAt left <? fr_CreatedAt right else fr_CreatedAt right <? fr_CreatedAt left.

(** [time.Time.Unix] *)
Definition Unix (t : Z) : Z := t / Second - 62135596800.

(** The record of an entry that the query without its cursor selects. *)
Definition selected_file (now : Z) (query : FileQuery) (files : gmap string FileRecord) (entry : string * ResourceAffinity)
  : option FileRecord :=
  let '(key, a) := entry in
  if negb (String.eqb (rk_Scope (ra_Key a)) (fq_Scope query)) || negb (String.eqb (rk_Kind (ra_Key a)) ResourceFile) ||
     Deleted a || resourceExpired a now
  then None
  else
    match files !! key with
    | None => None
    | Some record =>
        if (negb (String.eqb (fq_Purpose query) "") && negb (String.eqb (fr_Purpose record) (fq_Purpose query))) ||
           (negb (fr_ExpiresAt record =? 0) && (fr_ExpiresAt record <=? Unix now))
        then None else Some record
    end.

Section Listing.
Context (visit : gmap string ResourceAffinity -> list (string * ResourceAffinity)).

Definition file_cursor (query : FileQuery) (s : MemoryStore) : string + option FileRecord :=
  if String.eqb (fq_After query) "" then inr None
  else
    match ms_files s !! memoryKey (mkResourceKey (fq_Scope query) ResourceFile (fq_After query)) with
    | None => inl ErrInvalidFileCursor
    | Some cursor =>
        if negb (String.eqb (fq_Purpose query) "") && negb (String.eqb (fr_Purpose cursor) (fq_Purpose query))
        then inl ErrInvalidFileCursor else inr (Some cursor)
    end.

Definition file_page (limit : Z) (records : list FileRecord) : FilePage :=
  if limit <? Z.of_nat (length records) then mkFilePage (take (Z.to_nat limit) records) true else mkFilePage records false.

Definition ListFiles (ctx_Err : option string) (now : Z) (query : FileQuery) (s : MemoryStore) : string + FilePage :=
  ctx_Err ?;
  match NormalizeFileQuery query with
  | inl err => inl err
  | inr query =>
      match file_cursor query s with
      | inl err => inl err
      | inr cursor =>
          let after record := match cursor with Some c => fileBefore (fq_Order query) c record | None => true end in
          let records := omap (selected_file now query (ms_files s)) (visit (ms_entries s)) in
          inr (file_page (fq_Limit query) (stable_sort (fileBefore (fq_Order query)) (List.filter after records)))
      end
  end.
End Listing.

(** ** Keys *)
Definition nul : ascii := ascii_of_nat 0.

Lemma app_cons_inj (z : ascii) (a a' b b' : list ascii) :
  z ∉ a -> z ∉ a' -> a ++ z :: b = a' ++ z :: b' -> a = a' /\ b = b'.
Proof.
  revert a'. induction a as [|c a IH]; intros [|c' a'] Ha Ha' E; cbn in E.
  - by injection E as ->.
  - injection E as -> _. set_solver.
  - injection E as <- _. set_solver.
  - injection E as -> E. destruct (IH a') as [-> ->]; [set_solver|set_solver|done|done].
Qed.

Definition valid_key (k : ResourceKey) : Prop := ResourceKey_Validate k = None.

Lemma no_nul s : blank_or_control s = false -> nul ∉ bytes s.
Proof.
  unfold blank_or_control. intros E Hin. rewrite <- not_true_iff_false in E. apply E.
  apply existsb_exists. exists nul. split; [by apply list_elem_of_In|done].
Qed.

Lemma valid_key_nul k : valid_key k -> nul ∉ bytes (rk_Kind k) /\ nul ∉ bytes (rk_Scope k).
Proof.
  unfold valid_key, ResourceKey_Validate. rewrite !first_error_cons. intros (Hs & Hk & _). split.
  - unfold ValidateResourceKind in Hk. apply fail_if_None, negb_false_iff, bool_decide_eq_true in Hk.
    unfold resource_kinds in Hk. repeat (apply elem_of_cons in Hk as [->|Hk]; [apply (bool_decide_unpack _); vm_compute; exact I|]).
    by apply elem_of_nil in Hk.
  - unfold ValidateScope in Hs. rewrite !first_error_cons in Hs. destruct Hs as (_ & Hs & _).
    apply fail_if_None in Hs. by apply no_nul.
Qed.

(** Two resources share a key of the map only if they are the same. *)
Lemma memoryKey_inj k k' : valid_key k -> valid_key k' -> memoryKey k = memoryKey k' -> k = k'.
Proof.
  intros [Hk Hs]%valid_key_nul [Hk' Hs']%valid_key_nul E. apply (f_equal bytes) in E.
  unfold memoryKey in E. rewrite !bytes_app in E. unfold separator in E. rewrite !bytes_of_bytes in E. fold nul in E. cbn [app] in E.
  apply app_cons_inj in E as [E1 E]; [|done..]. apply app_cons_inj in E as [E2 E3]; [|done..].
  assert (Hinj : forall s t, bytes s = bytes t -> s = t)
    by (intros x y Exy; rewrite <- (of_bytes_bytes x), Exy; apply of_bytes_bytes).
  destruct k, k'; cbn [rk_Kind rk_Scope rk_ResourceID] in *. f_equal; by apply Hinj.
Qed.

(** ** The invariant *)
Record store_ok (s : MemoryStore) : Prop := {
  so_positive : 1 <= ms_maxEntries s;
  so_bound : Z.of_nat (size (ms_entries s)) <= ms_maxEntries s;
  so_keyed : forall key a, ms_entries s !! key = Some a -> memoryKey (ra_Key a) = key /\ valid_key (ra_Key a);
  so_nodup : NoDup (ms_order s);
  so_order : forall key, key ∈ ms_order s <-> is_Some (ms_entries s !! key);
  so_files : forall key f, ms_files s !! key = Some f -> FileRecord_Validate f = None /\
    exists a, ms_entries s !! key = Some a /\ rk_Kind (ra_Key a) = ResourceFile /\
      fr_Scope f = rk_Scope (ra_Key a) /\ fr_ID f = rk_ResourceID (ra_Key a);
}.

Lemma elem_of_list_remove k key order : k ∈ list_remove key order <-> k <> key /\ k ∈ order.
Proof.
  unfold list_remove. rewrite !list_elem_of_In, filter_In, negb_true_iff, String.eqb_neq. tauto.
Qed.

Lemma NoDup_list_remove key order : NoDup order -> NoDup (list_remove key order).
Proof.
  unfold list_remove. induction 1 as [|k order Hk Ho IH]; cbn; [constructor|].
  destruct (String.eqb k key); cbn; [done|]. constructor; [|done]. contradict Hk.
  apply list_elem_of_In, filter_In in Hk as [Hk _]. by apply list_elem_of_In.
Qed.

Lemma list_remove_app key order order' : list_remove key (order ++ order') = list_remove key order ++ list_remove key order'.
Proof. apply List.filter_app. Qed.

Lemma new_store_ok maxEntries : store_ok (NewMemoryStore maxEntries).
Proof.
  unfold NewMemoryStore, DefaultMaxEntries. split; cbn; try done.
  - destruct (Z.leb_spec maxEntries 0); lia.
  - rewrite map_size_empty. destruct (Z.leb_spec maxEntries 0); lia.
  - constructor.
  - intros key. rewrite lookup_empty. split; [by intros ?%elem_of_nil|by intros []].
Qed.

Lemma remove_ok a s : store_ok s -> store_ok (remove a s).
Proof.
  intros []. split; cbn; try done.
  - rewrite map_size_delete. destruct (ms_entries s !! _); cbn in *; lia.
  - intros key b [_ Hb]%lookup_delete_Some. by apply so_keyed0.
  - by apply NoDup_list_remove.
  - intros key. rewrite elem_of_list_remove, so_order0, lookup_delete_is_Some. naive_solver.
  - intros key f [Hk Hf]%lookup_delete_Some. destruct (so_files0 key f Hf) as (Hv & b & Hb & ?). split; [done|].
    exists b. by rewrite lookup_delete_ne.
Qed.

Lemma touch_ok key s : is_Some (ms_entries s !! key) -> store_ok s -> store_ok (touch key s).
Proof.
  intros Hk []. split; cbn; try done.
  - apply NoDup_app. split; [by apply NoDup_list_remove|]. split; [|apply NoDup_singleton].
    intros k [? _]%elem_of_list_remove. by intros ->%list_elem_of_singleton.
  - intros k. rewrite elem_of_app, elem_of_list_remove, list_elem_of_singleton, so_order0.
    destruct (decide (k = key)) as [->|]; tauto.
Qed.

Lemma set_entry_ok key a b s :
  ms_entries s !! key = Some a -> ra_Key b = ra_Key a -> store_ok s -> store_ok (set_entry key b s).
Proof.
  intros Ha Hab []. destruct (so_keyed0 key a Ha) as [Hkey Hvalid]. split; cbn; try done.
  - rewrite map_size_insert_Some by done. exact so_bound0.
  - intros k c [[<- <-]|[_ Hc]]%lookup_insert_Some; [by rewrite Hab|by apply so_keyed0].
  - intros k. rewrite so_order0, lookup_insert_is_Some. destruct (decide (k = key)) as [->|Hn]; [|naive_solver].
    rewrite Ha. naive_solver.
  - intros k f Hf. destruct (so_files0 k f Hf) as (Hv & c & Hc & Hrest). split; [done|].
    destruct (decide (k = key)) as [->|Hn]; [|exists c; by rewrite lookup_insert_ne].
    exists b. rewrite lookup_insert_eq. simplify_eq. by rewrite Hab.
Qed.

Lemma full_front s : store_ok s -> ms_maxEntries s <= Z.of_nat (size (ms_entries s)) ->
  exists front rest a, ms_order s = front :: rest /\ ms_entries s !! front = Some a /\ memoryKey (ra_Key a) = front.
Proof.
  intros [] Hfull. destruct (ms_order s) as [|front rest] eqn:E.
  - assert (Hn : size (ms_entries s) <> 0%nat) by lia. apply map_size_non_empty_iff, map_choose in Hn as (k & a & Ha).
    assert (Hk : k ∈ ([] : list string)) by (apply so_order0; by eexists). by apply elem_of_nil in Hk.
  - destruct (proj1 (so_order0 front)) as [a Ha]; [by left|]. exists front, rest, a. split; [done|]. split; [done|].
    by apply so_keyed0.
Qed.

Lemma make_room_spec s : store_ok s ->
  exists s', make_room (S (length (ms_order s))) s = Some s' /\ store_ok s' /\
    ms_maxEntries s' = ms_maxEntries s /\ Z.of_nat (size (ms_entries s')) < ms_maxEntries s /\
    forall key a, ms_entries s !! key = Some a -> ms_entries s' !! key = Some a \/
      (ms_maxEntries s <= Z.of_nat (size (ms_entries s)) /\ exists rest, ms_order s = key :: rest).
Proof.
  intros Hs. cbn [make_room]. destruct (Z.leb_spec (ms_maxEntries s) (Z.of_nat (size (ms_entries s)))) as [Hfull|Hfree].
  2:{ exists s. split; [done|]. split; [done|]. split; [done|]. split; [done|]. auto. }
  destruct (full_front s Hs Hfull) as (front & rest & a & Ho & Ha & Hk). rewrite Ho, Ha. cbn [length].
  assert (Hsize : Z.of_nat (size (delete front (ms_entries s))) < ms_maxEntries s).
  { rewrite map_size_delete_Some by done. pose proof (so_bound s Hs).
    assert (size (ms_entries s) <> 0%nat) by (pose proof (so_positive s Hs); lia). lia. }
  exists (remove a s). cbn [make_room]. unfold remove at 1 2. cbn [ms_maxEntries ms_entries]. rewrite Hk.
  rewrite (proj2 (Z.leb_gt _ _)) by done.
  split; [done|]. split; [by apply remove_ok|]. split; [done|].
  split; [unfold remove; cbn [ms_entries]; by rewrite Hk|].
  intros key b Hb. destruct (decide (key = front)) as [->|Hne]; [right; eauto|].
  left. unfold remove. cbn [ms_entries]. by rewrite Hk, lookup_delete_ne.
Qed.

Lemma push_entry_spec a s : store_ok s -> valid_key (ra_Key a) -> ms_entries s !! memoryKey (ra_Key a) = None ->
  exists s', push_entry a s = Some (None, s') /\ store_ok s' /\ ms_entries s' !! memoryKey (ra_Key a) = Some a /\
    forall key b, ms_entries s !! key = Some b -> ms_entries s' !! key = Some b \/
      (ms_maxEntries s <= Z.of_nat (size (ms_entries s)) /\ exists rest, ms_order s = key :: rest).
Proof.
  intros Hs Hv Hnone. destruct (make_room_spec s Hs) as (s1 & Hroom & Hs1 & Hmax & Hsize & Hkeep).
  unfold push_entry. rewrite Hroom. cbn [mbind option_bind]. eexists. split; [done|].
  assert (Hnone1 : ms_entries s1 !! memoryKey (ra_Key a) = None).
  { clear -Hroom Hnone. revert Hroom. generalize (S (length (ms_order s))). intros fuel. revert s Hnone.
    induction fuel as [|fuel IH]; intros s Hnone; cbn; [by intros [= <-]|].
    destruct (_ <=? _); [|by intros [= <-]]. destruct (ms_order s) as [|front rest]; [by intros [= <-]|].
    destruct (ms_entries s !! front) as [b|]; [|done]. apply IH. cbn. by apply lookup_delete_None; right. }
  split; [|split].
  - destruct Hs1. split; cbn; try done.
    + rewrite map_size_insert_None by done. lia.
    + intros key b [[<- <-]|[_ Hb]]%lookup_insert_Some; [done|by apply so_keyed0].
    + apply NoDup_app. split; [done|]. split; [|apply NoDup_singleton].
      intros k Hk ->%list_elem_of_singleton. apply so_order0 in Hk as [b Hb]. by rewrite Hb in Hnone1.
    + intros key. rewrite elem_of_app, list_elem_of_singleton, so_order0, lookup_insert_is_Some.
      destruct (decide (memoryKey (ra_Key a) = key)); naive_solver.
    + intros key f Hf. destruct (so_files0 key f Hf) as (Hvf & b & Hb & Hrest). split; [done|]. exists b. split; [|done].
      rewrite lookup_insert_ne; [done|]. intros <-. by rewrite Hb in Hnone1.
  - cbn. by rewrite lookup_insert_eq.
  - intros key b Hb. cbn. destruct (decide (memoryKey (ra_Key a) = key)) as [<-|Hn]; [by rewrite Hb in Hnone|].
    rewrite lookup_insert_ne by done. by apply Hkeep.
Qed.

(** ** Bindings are final *)
Section Bindings.
Context `{UnicodeTables}.

Inductive operation :=
  | OpResolve (key : ResourceKey)
  | OpBind (a : ResourceAffinity)
  | OpTombstone (key : ResourceKey) (deletedAt expiresAt : Z)
  | OpBindFile (a : ResourceAffinity) (record : FileRecord).

(** The error of an operation and what it found. *)
Definition answer : Type := option string * option ResourceAffinity.

Definition operate (ctx_Err : option string) (now : Z) (op : operation) (s : MemoryStore) : option (answer * MemoryStore) :=
  match op with
  | OpResolve key =>
      let '(res, s) := ResolveResource ctx_Err now key s in
      Some (match res with inl err => (Some err, None) | inr found => (None, found) end, s)
  | OpBind a => '(err, s) ← BindResource ctx_Err now a s; Some ((err, None), s)
  | OpTombstone key deletedAt expiresAt =>
      let '(err, s) := TombstoneResource ctx_Err now key deletedAt expiresAt s in Some ((err, None), s)
  | OpBindFile a record => '(err, s) ← BindFile ctx_Err now a record s; Some ((err, None), s)
  end.

(** Everything that can happen to a store; listing files changes nothing. *)
Inductive store_reachable : MemoryStore -> Prop :=
  | reachable_new maxEntries : store_reachable (NewMemoryStore maxEntries)
  | reachable_step ctx_Err now op s out s' :
      store_reachable s -> operate ctx_Err now op s = Some (out, s') -> store_reachable s'.

(** [b] lives at least as long as [a]. *)
Definition outlives (b a : ResourceAffinity) : Prop :=
  forall now, resourceExpired a now = false -> resourceExpired b now = false.

Definition tombstones (op : operation) (key : ResourceKey) : bool :=
  match op with OpTombstone key' _ _ => bool_decide (key' = key) | _ => false end.

Definition binds (op : operation) : option ResourceKey :=
  match op with OpBind a | OpBindFile a _ => Some (ra_Key a) | _ => None end.

(** The binding [a] goes on as [b]. *)
Definition goes_on (op : operation) (a b : ResourceAffinity) : Prop :=
  sameResourceRoute a b = true /\ ra_BoundAt b = ra_BoundAt a /\
  (Deleted a = true -> b = a) /\
  (tombstones op (ra_Key a) = false -> ra_DeletedAt b = ra_DeletedAt a /\ outlives b a).

Definition keeps (now : Z) (op : operation) (s s' : MemoryStore) : Prop :=
  forall key a, ms_entries s !! key = Some a -> resourceExpired a now = false ->
    (exists b, ms_entries s' !! key = Some b /\ goes_on op a b) \/
    (ms_maxEntries s <= Z.of_nat (size (ms_entries s)) /\ (exists rest, ms_order s = key :: rest) /\
     exists k, binds op = Some k /\ memoryKey k <> key).

Lemma sameResourceRoute_refl a : sameResourceRoute a a = true.
Proof. unfold sameResourceRoute. by rewrite bool_decide_eq_true_2, !String.eqb_refl. Qed.

Lemma goes_on_refl op a : goes_on op a a.
Proof. split; [apply sameResourceRoute_refl|]. split; [done|]. split; [done|]. intros _. split; [done|]. by intros now. Qed.

Lemma keeps_same now op s s' : (forall key a, ms_entries s !! key = Some a -> resourceExpired a now = false ->
  ms_entries s' !! key = Some a) -> keeps now op s s'.
Proof. intros Hs key a Ha He. left. exists a. split; [by apply Hs|apply goes_on_refl]. Qed.

Lemma keeps_remove now op s a : ms_entries s !! memoryKey (ra_Key a) = Some a -> resourceExpired a now = true ->
  keeps now op s (remove a s).
Proof.
  intros Ha He. apply keeps_same. intros key b Hb Hl. cbn. rewrite lookup_delete_ne; [done|].
  intros <-. rewrite Ha in Hb. injection Hb as <-. by rewrite He in Hl.
Qed.

Lemma MergeResourceExpiry_outlives a right :
  outlives (with_expiry (ra_DeletedAt a) (MergeResourceExpiry (ra_ExpiresAt a) right) a) a.
Proof.
  unfold outlives, resourceExpired, MergeResourceExpiry, time_IsZero, time_Before. cbn. intros now.
  rewrite !andb_false_iff, !negb_false_iff, !Z.eqb_eq, !Z.ltb_lt.
  destruct (Z.eqb_spec (ra_ExpiresAt a) 0), (Z.eqb_spec right 0); cbn; try lia.
  destruct (Z.ltb_spec (ra_ExpiresAt a) right); lia.
Qed.

Lemma bind_spec now a op s :
  store_ok s -> valid_key (ra_Key a) -> binds op = Some (ra_Key a) -> tombstones op (ra_Key a) = false ->
  exists err s', bindResourceLocked now a s = Some (err, s') /\ store_ok s' /\ keeps now op s s' /\
    (err = None -> exists b, ms_entries s' !! memoryKey (ra_Key a) = Some b /\ ra_Key b = ra_Key a) /\
    forall b, ms_entries s !! memoryKey (ra_Key a) = Some b -> resourceExpired b now = false ->
      err = if Deleted b || negb (sameResourceRoute b a) then Some ErrConflict else None.
Proof.
  intros Hs Hv Hop Htomb. unfold bindResourceLocked. destruct (ms_entries s !! memoryKey (ra_Key a)) as [b|] eqn:E.
  - destruct (so_keyed s Hs _ _ E) as [Hkey Hvb].
    assert (Hba : ra_Key b = ra_Key a) by (by apply memoryKey_inj).
    destruct (resourceExpired b now) eqn:Hexp.
    + assert (Hk : memoryKey (ra_Key a) = memoryKey (ra_Key b)) by done.
      destruct (push_entry_spec a (remove b s)) as (s' & -> & Hs' & Ha & Hkeep);
        [by apply remove_ok|done|cbn; rewrite Hkey; apply lookup_delete_eq|].
      exists None, s'. split; [done|]. split; [done|]. split.
      * apply keeps_same. intros key c Hc Hl. destruct (decide (memoryKey (ra_Key a) = key)) as [<-|Hn].
        { rewrite E in Hc. injection Hc as <-. by rewrite Hexp in Hl. }
        destruct (Hkeep key c) as [?|[Hfull _]]; [cbn; by rewrite Hkey, lookup_delete_ne|done|].
        exfalso. cbn in Hfull. rewrite Hkey, map_size_delete_Some in Hfull by done. pose proof (so_bound s Hs).
        assert (size (ms_entries s) <> 0%nat) by (apply (map_size_ne_0_lookup_2 _ _ (mk_is_Some _ _ E))). lia.
      * split; [intros _; by exists a|]. intros c Hc Hl. injection Hc as <-. by rewrite Hexp in Hl.
    + assert (Hans : forall err : option string, err = (if Deleted b || negb (sameResourceRoute b a) then Some ErrConflict else None) ->
        forall c, Some b = Some c -> resourceExpired c now = false ->
        err = if Deleted c || negb (sameResourceRoute c a) then Some ErrConflict else None) by (intros err -> c [= <-]; done).
      destruct (Deleted b) eqn:Hdel.
      { exists (Some ErrConflict), s. split; [done|]. split; [done|]. split; [by apply keeps_same|]. split; [done|].
        apply Hans. by rewrite ?Hdel. }
      destruct (sameResourceRoute b a) eqn:Hsame.
      2:{ exists (Some ErrConflict), s. split; [done|]. split; [done|]. split; [by apply keeps_same|]. split; [done|].
        apply Hans. by rewrite ?Hdel, ?Hsame. }
      set (b' := with_expiry _ _ b). exists None, (touch (memoryKey (ra_Key a)) (set_entry (memoryKey (ra_Key a)) b' s)).
      split; [done|]. split; [|split; [|split]].
      * apply touch_ok; [cbn; rewrite lookup_insert_eq; by eexists|]. by apply (set_entry_ok _ b).
      * intros key c Hc Hl. left. cbn. destruct (decide (memoryKey (ra_Key a) = key)) as [<-|Hn].
        -- rewrite E in Hc. injection Hc as <-. exists b'. rewrite lookup_insert_eq. split; [done|].
           split; [exact (sameResourceRoute_refl b)|]. split; [done|]. split; [by rewrite Hdel|].
           intros _. split; [done|]. apply MergeResourceExpiry_outlives.
        -- exists c. rewrite lookup_insert_ne by done. split; [done|apply goes_on_refl].
      * intros _. exists b'. cbn. by rewrite lookup_insert_eq.
      * apply Hans. by rewrite ?Hdel, ?Hsame.
  - destruct (push_entry_spec a s Hs Hv E) as (s' & -> & Hs' & Ha & Hkeep).
    exists None, s'. split; [done|]. split; [done|]. split.
    + intros key c Hc Hl. destruct (Hkeep key c Hc) as [Hc'|[Hfull Hfront]].
      * left. exists c. split; [done|apply goes_on_refl].
      * right. split; [done|]. split; [done|]. exists (ra_Key a). split; [done|]. intros Hk. by rewrite Hk, Hc in E.
    + split; [intros _; by exists a|done].
Qed.

Lemma set_file_ok key a f s :
  ms_entries s !! key = Some a -> FileRecord_Validate f = None -> rk_Kind (ra_Key a) = ResourceFile ->
  fr_Scope f = rk_Scope (ra_Key a) -> fr_ID f = rk_ResourceID (ra_Key a) -> store_ok s -> store_ok (set_file key f s).
Proof.
  intros Ha Hf Hkind Hscope Hid []. split; cbn; try done.
  intros k g [[<- <-]|[_ Hg]]%lookup_insert_Some; [|by apply so_files0]. split; [done|]. by exists a.
Qed.

Lemma valid_affinity_key a : ResourceAffinity_Validate a = None -> valid_key (ra_Key a).
Proof. unfold ResourceAffinity_Validate. rewrite first_error_cons. by intros [Hk _]. Qed.

Lemma resolve_spec ctx_Err now key s : store_ok s ->
  store_ok (ResolveResource ctx_Err now key s).2 /\ keeps now (OpResolve key) s (ResolveResource ctx_Err now key s).2.
Proof.
  intros Hs. unfold ResolveResource. destruct (first_error _) eqn:V; [split; [done|by apply keeps_same]|].
  destruct (ms_entries s !! memoryKey key) as [a|] eqn:E; [|split; [done|by apply keeps_same]].
  destruct (so_keyed s Hs _ _ E) as [Hk _].
  destruct (resourceExpired a now) eqn:Hexp; cbn [snd].
  - split; [by apply remove_ok|]. apply keeps_remove; [by rewrite Hk|done].
  - split; [apply touch_ok; [by eexists|done]|]. by apply keeps_same.
Qed.

Lemma tombstone_spec ctx_Err now key deletedAt expiresAt s : store_ok s ->
  let op := OpTombstone key deletedAt expiresAt in
  let s' := (TombstoneResource ctx_Err now key deletedAt expiresAt s).2 in
  store_ok s' /\ keeps now op s s'.
Proof.
  intros Hs. cbn zeta. unfold TombstoneResource. destruct (first_error _) eqn:V; [split; [done|by apply keeps_same]|].
  assert (Hv : valid_key key) by (rewrite !first_error_cons in V; tauto).
  destruct (ms_entries s !! memoryKey key) as [a|] eqn:E; [|split; [done|by apply keeps_same]].
  destruct (so_keyed s Hs _ _ E) as [Hk Hva].
  destruct (resourceExpired a now) eqn:Hexp; cbn [snd].
  { split; [by apply remove_ok|]. apply keeps_remove; [by rewrite Hk|done]. }
  destruct (Deleted a) eqn:Hdel.
  { split; [apply touch_ok; [by eexists|done]|]. by apply keeps_same. }
  split.
  - apply touch_ok; [cbn; rewrite lookup_insert_eq; by eexists|]. by apply (set_entry_ok _ a).
  - intros k b Hb Hl. left. cbn. destruct (decide (memoryKey key = k)) as [<-|Hn].
    + rewrite E in Hb. injection Hb as <-. eexists. rewrite lookup_insert_eq. split; [done|].
      split; [exact (sameResourceRoute_refl a)|]. split; [done|]. split; [by rewrite Hdel|].
      rewrite (memoryKey_inj _ _ Hva Hv Hk). cbn. by rewrite bool_decide_eq_true_2.
    + exists b. rewrite lookup_insert_ne by done. split; [done|apply goes_on_refl].
Qed.

Lemma operate_spec ctx_Err now op s : store_ok s ->
  exists out s', operate ctx_Err now op s = Some (out, s') /\ store_ok s' /\ keeps now op s s'.
Proof.
  intros Hs. destruct op as [key|a|key deletedAt expiresAt|a record]; cbn [operate].
  - pose proof (resolve_spec ctx_Err now key s Hs) as [Hs' Hkeep].
    destruct (ResolveResource ctx_Err now key s) as [res s']. eexists _, s'. by split.
  - unfold BindResource. destruct (first_error _) eqn:V; cbn [mbind option_bind].
    { eexists _, s. split; [done|]. split; [done|by apply keeps_same]. }
    assert (Hv : valid_key (ra_Key a)) by (rewrite !first_error_cons in V; apply valid_affinity_key; tauto).
    destruct (bind_spec now a (OpBind a) s Hs Hv eq_refl eq_refl) as (err & s' & -> & Hs' & Hkeep & _).
    cbn [mbind option_bind]. by eexists _, s'.
  - pose proof (tombstone_spec ctx_Err now key deletedAt expiresAt s Hs) as [Hs' Hkeep].
    destruct (TombstoneResource _ _ _ _ _ s) as [err s']. eexists _, s'. by split.
  - unfold BindFile. destruct (first_error _) eqn:V; cbn [mbind option_bind].
    { eexists _, s. split; [done|]. split; [done|by apply keeps_same]. }
    rewrite !first_error_cons, !fail_if_None in V. destruct V as (_ & Va & Vk & Vr & Vm & _).
    apply negb_false_iff, String.eqb_eq in Vk. apply orb_false_iff in Vm as [Vs Vi].
    apply negb_false_iff, String.eqb_eq in Vs, Vi.
    assert (Hv : valid_key (ra_Key a)) by (by apply valid_affinity_key).
    match goal with |- context [if ?b then _ else _] => destruct b end; cbn [mbind option_bind].
    { eexists _, s. split; [done|]. split; [done|by apply keeps_same]. }
    destruct (bind_spec now a (OpBindFile a record) s Hs Hv eq_refl eq_refl) as (err & s' & -> & Hs' & Hkeep & Hbound & _).
    cbn [mbind option_bind]. destruct err as [err|]; cbn [mbind option_bind]; [by eexists _, s'|].
    eexists _, _. split; [done|]. split; [|done]. destruct (Hbound eq_refl) as (b & Hb & Hkb).
    apply (set_file_ok _ b); rewrite ?Hkb; done.
Qed.

Lemma store_reachable_ok s : store_reachable s -> store_ok s.
Proof.
  induction 1 as [maxEntries|ctx_Err now op s out s' _ IH E]; [apply new_store_ok|].
  destruct (operate_spec ctx_Err now op s IH) as (out' & s1 & E' & Hs1 & _). rewrite E in E'. by injection E' as _ <-.
Qed.

(** C18: an affinity is never silently rebound.  In a store that any operations have
    led to, an operation cannot panic, and a resource that is bound and has not
    expired stays bound to the same route since the same time, with its deletion
    final and its life never shortened except by a tombstone for it; the only way
    to lose it is to be the least recently used entry of a full store when another
    resource is bound.  Resolving it gives that route; binding it to another route,
    or after its deletion, is a conflict, and binding it to the same route is not.
    The store stays within its bound, and a file has a record only as long as it is
    bound. *)
Theorem binding_is_final s ctx_Err now op :
  store_reachable s ->
  exists out s', operate ctx_Err now op s = Some (out, s') /\
    Z.of_nat (size (ms_entries s')) <= ms_maxEntries s' /\
    (forall key, is_Some (ms_files s' !! key) -> is_Some (ms_entries s' !! key)) /\
    keeps now op s s' /\
    forall a, ms_entries s !! memoryKey (ra_Key a) = Some a -> resourceExpired a now = false -> ctx_Err = None ->
      (op = OpResolve (ra_Key a) -> out = (None, Some a)) /\
      (forall b, op = OpBind b -> ra_Key b = ra_Key a -> ResourceAffinity_Validate b = None ->
         out = (if Deleted a || negb (sameResourceRoute a b) then Some ErrConflict else None, None)).
Proof.
  intros Hs%store_reachable_ok. destruct (operate_spec ctx_Err now op s Hs) as (out & s' & E & Hs' & Hkeep).
  exists out, s'. split; [done|]. split; [apply Hs'|]. split.
  { intros key [f Hf]. destruct (so_files s' Hs' key f Hf) as (_ & a & Ha & _). by eexists. }
  split; [done|]. intros a Ha Hl ->. destruct (so_keyed s Hs _ _ Ha) as [_ Hv]. split.
  - intros ->. cbn [operate] in E. unfold ResolveResource in E. cbn [first_error] in E.
    unfold valid_key in Hv. rewrite Hv, Ha, Hl in E. by injection E as <- _.
  - intros b -> Hk Hvb. cbn [operate] in E. unfold BindResource in E. cbn [first_error] in E. rewrite Hvb in E.
    rewrite <- Hk in Ha, Hv.
    destruct (bind_spec now b (OpBind b) s Hs Hv eq_refl eq_refl) as (err & s1 & E1 & _ & _ & _ & Hans).
    rewrite E1 in E. cbn [mbind option_bind] in E. injection E as <- _. by rewrite (Hans a Ha Hl).
Qed.
End Bindings.

(** ** Pages of files *)
Definition with_After (after : string) (query : FileQuery) : FileQuery :=
  mkFileQuery (fq_Scope query) (fq_Purpose query) (fq_Limit query) (fq_Order query) after.

#[export] Instance fileBefore_order order : StrictWeakOrder (fileBefore order).
Proof.
  pose proof (lex_order (fun x y : FileRecord => fr_CreatedAt x <? fr_CreatedAt y)
                (fun x y => String.ltb (fr_ID x) (fr_ID y)) _ (preimage_order fr_ID String.ltb _)) as [As Nt].
  assert (E : forall x y, fileBefore order x y =
    match order with
    | FileOrderAscending => lex_less (fun x y : FileRecord => fr_CreatedAt x <? fr_CreatedAt y)
                              (fun x y => String.ltb (fr_ID x) (fr_ID y)) x y
    | _ => lex_less (fun x y : FileRecord => fr_CreatedAt x <? fr_CreatedAt y)
                              (fun x y => String.ltb (fr_ID x) (fr_ID y)) y x
    end).
  { intros x y. unfold fileBefore, lex_less.
    destruct order; destruct (Z.eqb_spec (fr_CreatedAt x) (fr_CreatedAt y)) as [Exy|Exy];
      rewrite ?Exy, ?Z.ltb_irrefl; cbn [orb andb negb]; try done;
      destruct (Z.ltb_spec (fr_CreatedAt x) (fr_CreatedAt y)), (Z.ltb_spec (fr_CreatedAt y) (fr_CreatedAt x));
      cbn [orb andb negb]; done || lia. }
  split.
  - intros x y. rewrite !E. destruct order; apply As.
  - intros x y z. rewrite !E. destruct order; intros H1 H2; eauto.
Qed.

Lemma fileBefore_total order x y : fileBefore order y x = false -> fr_ID x <> fr_ID y -> fileBefore order x y = true.
Proof.
  unfold fileBefore. intros Hyx Hn.
  assert (Hltb : forall s t, s <> t -> String.ltb s t = false -> String.ltb t s = true).
  { intros s t Hst. unfold String.ltb. rewrite (String.compare_antisym s t).
    destruct (String.compare t s) eqn:E; [|done|done]. apply String.compare_eq_iff in E. by subst. }
  rewrite Z.eqb_sym in Hyx. destruct (Z.eqb_spec (fr_CreatedAt x) (fr_CreatedAt y)).
  - destruct order; apply Hltb; done.
  - destruct order; apply Z.ltb_lt; apply Z.ltb_ge in Hyx; lia.
Qed.

(** The elements of a sorted list after one of them. *)
Lemma filter_after {A} (less : A -> A -> bool) `{!StrictWeakOrder less} (l : list A) i c :
  StronglySorted (fun x y => less x y = true) l -> l !! i = Some c -> List.filter (less c) l = drop (S i) l.
Proof.
  intros Hs. revert i. induction Hs as [|x l Hs IH Hx]; intros i Hi; [done|].
  assert (Hrefl : forall a, less a a = false).
  { intros a. destruct (less a a) eqn:E; [|done]. by rewrite (less_asym _ _ E) in E. }
  destruct i as [|i]; cbn in Hi |- *.
  - injection Hi as ->. rewrite Hrefl. rewrite drop_0.
    clear IH Hs. induction Hx as [|y l Hy Hl IH]; cbn; [done|]. by rewrite Hy, IH.
  - rewrite Forall_forall in Hx. rewrite (less_asym x c); [by apply IH|]. apply Hx. by eapply list_elem_of_lookup_2.
Qed.

#[local] Arguments selected_file : simpl never.

Section Pages.
Context (visit : gmap string ResourceAffinity -> list (string * ResourceAffinity)).
Hypothesis visit_all : forall m, visit m ≡ₚ map_to_list m.
Context (now : Z) (s : MemoryStore).
Hypothesis ok : store_ok s.

(** The files that a query selects, in its order. *)
Definition file_listing (query : FileQuery) : list FileRecord :=
  stable_sort (fileBefore (fq_Order query)) (omap (selected_file now query (ms_files s)) (visit (ms_entries s))).

Definition in_listing (query : FileQuery) (f : FileRecord) : Prop :=
  exists key a, ms_entries s !! key = Some a /\ selected_file now query (ms_files s) (key, a) = Some f.

Lemma elem_of_file_listing query f : f ∈ file_listing query <-> in_listing query f.
Proof.
  unfold file_listing, in_listing. rewrite stable_sort_Permutation, visit_all, list_elem_of_omap. split.
  - intros ([key a] & Hin%elem_of_map_to_list & Hf). by exists key, a.
  - intros (key & a & Ha & Hf). exists (key, a). by rewrite elem_of_map_to_list.
Qed.

Lemma selected_file_spec query key a f :
  ms_entries s !! key = Some a -> selected_file now query (ms_files s) (key, a) = Some f ->
  key = memoryKey (mkResourceKey (fq_Scope query) ResourceFile (fr_ID f)) /\ ms_files s !! key = Some f /\
  FileRecord_Validate f = None /\ (fq_Purpose query = ""%string \/ fr_Purpose f = fq_Purpose query).
Proof.
  intros Ha. unfold selected_file. destruct (_ || _)%bool eqn:E; [done|].
  apply orb_false_iff in E as [E _]. apply orb_false_iff in E as [E _]. apply orb_false_iff in E as [Es Ek].
  apply negb_false_iff, String.eqb_eq in Es, Ek.
  destruct (ms_files s !! key) as [g|] eqn:Hg; [|done]. destruct (_ || _)%bool eqn:Ep; [done|]. intros [= ->].
  apply orb_false_iff in Ep as [Ep _]. apply andb_false_iff in Ep. rewrite !negb_false_iff, !String.eqb_eq in Ep.
  destruct (so_files s ok key f Hg) as (Hv & b & Hb & Hkind & Hscope & Hid). rewrite Ha in Hb. injection Hb as <-.
  destruct (so_keyed s ok key a Ha) as [Hkey _]. split; [|done]. rewrite <- Hkey. f_equal. rewrite Hid, <- Es, <- Hkind.
  by destruct (ra_Key a).
Qed.

Lemma file_listing_sorted query :
  StronglySorted (fun x y => fileBefore (fq_Order query) x y = true) (file_listing query).
Proof.
  assert (Hids : NoDup (fr_ID <$> file_listing query)).
  { unfold file_listing. rewrite stable_sort_Permutation.
    assert (Hall : forall key a, (key, a) ∈ visit (ms_entries s) -> ms_entries s !! key = Some a).
    { intros key a. rewrite visit_all. apply elem_of_map_to_list. }
    assert (Hn : NoDup (visit (ms_entries s)).*1) by (rewrite visit_all; apply NoDup_fst_map_to_list).
    revert Hall Hn. induction (visit (ms_entries s)) as [|[key a] l IH]; intros Hall; cbn; [constructor|].
    intros [Hk Hn]%NoDup_cons.
    assert (IH' : NoDup (fr_ID <$> omap (selected_file now query (ms_files s)) l))
      by (apply IH; [intros k b Hb; apply Hall; by right|done]).
    change (omap (selected_file now query (ms_files s)) ((key, a) :: l)) with
      (match selected_file now query (ms_files s) (key, a) with
       | Some f => f :: omap (selected_file now query (ms_files s)) l
       | None => omap (selected_file now query (ms_files s)) l
       end).
    destruct (selected_file now query (ms_files s) (key, a)) as [f|] eqn:E; [|exact IH'].
    rewrite fmap_cons. apply NoDup_cons. split; [|exact IH']. intros (g & Eid & Hg)%list_elem_of_fmap.
    apply list_elem_of_omap in Hg as ([key' b] & Hin & Hg).
    destruct (selected_file_spec query key a f) as [-> _]; [apply Hall; by left|done|].
    destruct (selected_file_spec query key' b g) as [-> _]; [apply Hall; by right|done|].
    apply Hk. rewrite Eid. by apply (list_elem_of_fmap_2 fst) in Hin. }
  pose proof (stable_sort_sorted (fileBefore (fq_Order query)) (omap (selected_file now query (ms_files s)) (visit (ms_entries s)))) as Hs.
  fold (file_listing query) in Hs. unfold sorted_by in Hs. clear visit_all.
  induction Hs as [|x l Hl IH Hx]; [constructor|]. rewrite fmap_cons in Hids. apply NoDup_cons in Hids as [Hx' Hids].
  constructor; [by apply IH|]. apply Forall_forall. intros y Hy. rewrite Forall_forall in Hx.
  apply fileBefore_total; [by apply Hx|]. intros E. apply Hx'. rewrite E. by apply list_elem_of_fmap_2.
Qed.

(** A client that follows the last ID of each page. *)
Fixpoint list_files (fuel : nat) (query : FileQuery) : option (list FileRecord) :=
  match fuel with
  | O => None
  | S fuel =>
      match ListFiles visit None now query s with
      | inl _ => None
      | inr page =>
          if fp_HasMore page then
            f ← last (fp_Records page);
            rest ← list_files fuel (with_After (fr_ID f) query);
            Some (fp_Records page ++ rest)
          else Some (fp_Records page)
      end
  end.

Lemma normalized_after query query' id :
  NormalizeFileQuery query = inr query' -> ValidateResourceID id = None ->
  NormalizeFileQuery (with_After id query) = inr (with_After id query').
Proof.
  unfold NormalizeFileQuery. rewrite !check_then_inr. intros (Hs & Hp & Hl & Ho & _ & [= <-]) Hid.
  split_and!; [done..| |done]. cbn [fq_After with_After]. rewrite bool_decide_eq_true_2 by done.
  by destruct (String.eqb id "").
Qed.

(** The query continues after the first [k] files of the listing. *)
Definition at_file (query : FileQuery) (k : nat) : Prop :=
  (k = O /\ fq_After query = ""%string) \/
  exists j f, k = S j /\ file_listing query !! j = Some f /\ fq_After query = fr_ID f.

Lemma ListFiles_page query query' k : NormalizeFileQuery query = inr query' -> at_file query' k ->
  ListFiles visit None now query s = inr (file_page (fq_Limit query') (drop k (file_listing query'))).
Proof.
  intros Hn Hk. unfold ListFiles. rewrite Hn. cbn [check_then]. unfold file_cursor.
  destruct Hk as [[-> ->]|(j & f & -> & Hf & Hafter)].
  - cbn [String.eqb]. rewrite drop_0. do 2 f_equal. unfold file_listing. f_equal.
    induction (omap _ _) as [|x l IH]; cbn; [done|]. by rewrite IH.
  - assert (Hin : in_listing query' f) by (apply elem_of_file_listing; by eapply list_elem_of_lookup_2).
    destruct Hin as (key & a & Ha & Hsel). destruct (selected_file_spec query' key a f Ha Hsel) as (-> & Hfile & Hv & Hp).
    assert (Hne : fr_ID f <> ""%string).
    { unfold FileRecord_Validate, ValidateResourceID in Hv. rewrite !first_error_cons, !fail_if_None in Hv.
      destruct Hv as (_ & (Hv & _) & _). by apply String.eqb_neq. }
    rewrite Hafter, (proj2 (String.eqb_neq _ _) Hne), Hfile.
    assert (Ep : (negb (String.eqb (fq_Purpose query') "") && negb (String.eqb (fr_Purpose f) (fq_Purpose query')))%bool = false).
    { apply andb_false_iff. rewrite !negb_false_iff, !String.eqb_eq. done. }
    rewrite Ep. do 2 f_equal. rewrite <- stable_sort_filter by apply _.
    apply filter_after; [apply _|apply file_listing_sorted|done].
Qed.

Lemma list_files_from fuel query query' k : NormalizeFileQuery query = inr query' -> at_file query' k ->
  (length (drop k (file_listing query')) < fuel)%nat ->
  list_files fuel query = Some (drop k (file_listing query')).
Proof.
  revert query query' k. induction fuel as [|fuel IH]; intros query query' k Hn Hk Hfuel; [lia|].
  cbn [list_files]. rewrite (ListFiles_page query query' k Hn Hk).
  assert (Hlimit : 1 <= fq_Limit query').
  { unfold NormalizeFileQuery in Hn. rewrite !check_then_inr, !fail_if_None in Hn.
    destruct Hn as (_ & _ & Hl & _ & _ & [= <-]). cbn. lia. }
  set (l := drop k (file_listing query')) in *. unfold file_page.
  destruct (Z.ltb_spec (fq_Limit query') (Z.of_nat (length l))) as [Hlt|Hge]; [|done]. cbn [fp_HasMore fp_Records].
  set (n := Z.to_nat (fq_Limit query')). assert (Hnl : (1 <= n < length l)%nat) by lia.
  destruct (lookup_lt_is_Some_2 l (n - 1)) as [f Hf]; [lia|].
  assert (El : last (take n l) = Some f).
  { rewrite last_lookup, length_take. rewrite lookup_take_lt by lia. by replace (Nat.pred (n `min` length l)) with (n - 1)%nat by lia. }
  rewrite El. cbn [mbind option_bind].
  assert (Hl : file_listing query' !! (k + (n - 1))%nat = Some f) by (unfold l in Hf; by rewrite lookup_drop in Hf).
  assert (Hv : FileRecord_Validate f = None).
  { assert (Hin : in_listing query' f) by (apply elem_of_file_listing; by eapply list_elem_of_lookup_2).
    destruct Hin as (key & a & Ha & Hsel). by destruct (selected_file_spec query' key a f Ha Hsel) as (_ & _ & Hv & _). }
  assert (Hid : ValidateResourceID (fr_ID f) = None).
  { unfold FileRecord_Validate in Hv. rewrite !first_error_cons in Hv. tauto. }
  rewrite (IH _ (with_After (fr_ID f) query') (k + n)%nat).
  - cbn [mbind option_bind]. f_equal. change (file_listing (with_After (fr_ID f) query')) with (file_listing query').
    unfold l. rewrite <- drop_drop. apply take_drop.
  - by apply normalized_after.
  - right. exists (k + (n - 1))%nat, f. split; [lia|]. done.
  - change (file_listing (with_After (fr_ID f) query')) with (file_listing query').
    unfold l in *. rewrite length_drop in *. lia.
Qed.
End Pages.

(** C20: following the last ID of each page of [ListFiles] from the first one ends,
    after at most one page per stored resource, and lists every file that the
    caller may see (bound, not deleted, not expired, of the purpose asked for)
    exactly once, in the order of its creation, whatever the page size. *)
Theorem file_pages_cover `{UnicodeTables} visit now s query query' :
  (forall m, visit m ≡ₚ map_to_list m) ->
  store_reachable s -> NormalizeFileQuery query = inr query' -> fq_After query = ""%string ->
  exists l, list_files visit now s (S (size (ms_entries s))) query = Some l /\
    StronglySorted (fun x y => fileBefore (fq_Order query') x y = true) l /\
    forall f, f ∈ l <-> in_listing now s query' f.
Proof.
  intros Hvisit Hs%store_reachable_ok Hn Hafter. exists (file_listing visit now s query').
  split; [|split; [by apply file_listing_sorted|intros f; by apply elem_of_file_listing]].
  rewrite <- (drop_0 (file_listing visit now s query')). apply list_files_from; [done|done|done| |].
  - left. split; [done|]. unfold NormalizeFileQuery in Hn. rewrite !check_then_inr in Hn.
    destruct Hn as (_ & _ & _ & _ & _ & [= <-]). done.
  - rewrite drop_0. unfold file_listing. rewrite stable_sort_Permutation, Hvisit, <- length_map_to_list.
    apply Nat.lt_succ_r. induction (map_to_list (ms_entries s)) as [|x l IH]; cbn; [done|].
    destruct (selected_file _ _ _ _); cbn; lia.
Qed.

(** ** A store of two files *)
Definition file_key (id : string) : ResourceKey := mkResourceKey "tenant" ResourceFile id.
Definition file_affinity (id provider : string) : ResourceAffinity :=
  mkResourceAffinity (file_key id) "chat" provider "node" "m1" 10 0 0.
Definition file_record (id : string) (created : Z) : FileRecord :=
  mkFileRecord "tenant" id "file" 3 created 0 "notes.txt" "assistants".

(** The store after some operations at one time. *)
Definition operated (now : Z) (ops : list operation) (s : MemoryStore) : MemoryStore :=
  foldl (fun s op => match operate (H := plain_tables) None now op s with Some (_, s) => s | None => s end) s ops.

Lemma operated_reachable now ops s :
  store_reachable (H := plain_tables) s -> store_reachable (H := plain_tables) (operated now ops s).
Proof.
  revert s. induction ops as [|op ops IH]; intros s Hs; [done|]. cbn [operated foldl]. apply IH.
  destruct (operate None now op s) as [[out s']|] eqn:E; [|done]. by eapply reachable_step.
Qed.

Definition two_files : MemoryStore :=
  operated 20 [OpBindFile (file_affinity "f1" "openai") (file_record "f1" 5);
               OpBindFile (file_affinity "f2" "openai") (file_record "f2" 7)] (NewMemoryStore 2).

Lemma two_files_reachable : store_reachable (H := plain_tables) two_files.
Proof. apply operated_reachable. constructor. Qed.

Lemma binding_is_final_witness :
  exists out s', operate (H := plain_tables) None 30 (OpBind (file_affinity "f1" "azure")) two_files = Some (out, s') /\
    out = (Some ErrConflict, None).
Proof.
  destruct (binding_is_final (H := plain_tables) two_files None 30 (OpBind (file_affinity "f1" "azure")) two_files_reachable)
    as (out & s' & E & _ & _ & _ & Hans).
  exists out, s'. split; [exact E|].
  destruct (Hans (file_affinity "f1" "openai")) as [_ Hbind];
    [vm_compute; reflexivity|vm_compute; reflexivity|reflexivity|].
  rewrite (Hbind (file_affinity "f1" "azure")); vm_compute; reflexivity.
Defined.

(** A third resource takes the place of the least recently used one. *)
Example full_store_evicts :
  (fun s => (ms_order s, bool_decide (is_Some (ms_files s !! memoryKey (file_key "f1")))))
    (operated 30 [OpBind (file_affinity "f3" "openai")] two_files)
  = ([memoryKey (file_key "f2"); memoryKey (file_key "f3")], false).
Proof. vm_compute. reflexivity. Qed.

Definition newest_first : FileQuery := mkFileQuery "tenant" "" 1 FileOrderNone "".

Lemma file_pages_cover_witness :
  exists l, list_files map_to_list 30 two_files 3 newest_first = Some l /\
    StronglySorted (fun x y => fileBefore FileOrderDescending x y = true) l.
Proof.
  destruct (file_pages_cover (H := plain_tables) map_to_list 30 two_files newest_first
    (mkFileQuery "tenant" "" 1 FileOrderDescending "") (fun m => reflexivity _) two_files_reachable)
    as (l & Hl & Hsorted & _).
  - vm_compute. reflexivity.
  - reflexivity.
  - exists l. split; [|exact Hsorted]. rewrite <- Hl. vm_compute. reflexivity.
Defined.

Example two_pages :
  option_map (List.map fr_ID) (list_files map_to_list 30 two_files 3 newest_first) = Some ["f2"; "f1"]%string.
Proof. vm_compute. reflexivity. Qed.

(** The record of a binding that has expired still refuses another record for its
    file, until something looks the binding up. *)
Definition expiring (id : string) : ResourceAffinity := with_expiry 0 25 (file_affinity id "openai").
Definition expired_file : MemoryStore :=
  operated 20 [OpBindFile (expiring "f1") (file_record "f1" 5)] (NewMemoryStore 2).

Example expired_record_conflicts :
  let bind_again s := fst <$> operate (H := plain_tables) None 30
    (OpBindFile (file_affinity "f1" "openai") (file_record "f1" 28)) s in
  bind_again expired_file = Some (Some ErrConflict, None) /\
  bind_again (operated 30 [OpResolve (file_key "f1")] expired_file) = Some (None, None).
Proof. vm_compute. done. Qed.
