(* ===== verification/ProviderState.v ===== *)
(** * Requests that use state kept by a provider ([pkg/gateway])

    A request may name a stored response, a conversation, items and files.  Before
    the model is selected, [resolveProviderStateSelectorPin] finds the model all of
    them belong to ([provider_state_selector.go]); before the plan,
    [chatCompletionsHandler.ServeHTTP] resolves them again and pins the target
    ([chatcompletions.go], [provider_items.go], [provider_files.go]); afterwards
    the answer is bound to its route ([responses.go], [provider_items.go]).

    The store is the interface of [pkg/responsesstate]; Responses.v is one.  What a
    request names is read out of its JSON elsewhere and is an argument here. *)

From stdpp Require Import base gmap list strings.
From Stdlib Require Import Ascii ZArith Lia.
From S2P Require Import Prelude GoStrings Json Sha256 Config Fixtures Plan Identity Gateway Ledger Responses ModelRouter.

Local Open Scope Z_scope.
Local Open Scope go_scope.

Definition StatusConflict : Z := 409.

(** ** The store *)
Class AffinityStore (S : Type) := {
  (** whether the store is a [responsesstate.ResourceStore] *)
  supportsResources : bool;
  store_Resolve : string -> string -> M S string (option Affinity);
  store_ResolveResource : ResourceKey -> M S string (option ResourceAffinity);
  store_Bind : Affinity -> S -> option (option string * S);
  store_BindResource : ResourceAffinity -> S -> option (option string * S);
}.

(** The store in memory at the reading [now] of its clock. *)
Definition memory_store `{UnicodeTables} (now : Z) : AffinityStore Responses.MemoryStore := {|
  supportsResources := true;
  store_Resolve scope responseID s := Responses.Resolve None now scope responseID s;
  store_ResolveResource key s := ResolveResource None now key s;
  store_Bind a s := Responses.Bind None now a s;
  store_BindResource a s := BindResource None now a s;
|}.

(** ** What a request names *)
Record responsesRequestState := mkResponsesRequestState {
  rs_ownerScope : string;
  rs_previousResponseID : string;
  rs_conversationID : string;
  rs_fileIDs : list string;
  rs_itemIDs : list string;
  rs_itemExpiresAt : Z;
  rs_durableItems : bool;
  rs_storesResponse : bool;
  rs_background : bool;
  rs_providerHostedTool : bool;
  rs_embeddingDimensions : Z;
  rs_embeddingInputCount : Z;
}.

Definition bindsResponse (s : responsesRequestState) : bool :=
  rs_storesResponse s || rs_background s || negb (String.eqb (rs_conversationID s) "").

Definition singleAttempt (s : responsesRequestState) : bool :=
  negb (String.eqb (rs_previousResponseID s) "") || negb (String.eqb (rs_conversationID s) "") ||
  negb (bool_decide (rs_fileIDs s = [])) || negb (bool_decide (rs_itemIDs s = [])) || bindsResponse s ||
  rs_providerHostedTool s.

(** [DefaultTTL] *)
Definition DefaultTTL : Z := 30 * 24 * Hour.

Definition returnedItemExpiry (now : Z) (s : responsesRequestState) : Z :=
  if rs_durableItems s || negb (String.eqb (rs_conversationID s) "") then 0
  else if negb (time_IsZero (rs_itemExpiresAt s)) then rs_itemExpiresAt s else time_Add now DefaultTTL.

(** [hex.EncodeToString] *)
Definition hex_EncodeToString (digest : list Z) : string :=
  of_bytes (digest ≫= fun b => [hex_digit (Z.shiftr b 4); hex_digit b]).

Definition responsesCallerScope (caller : Identity) : string :=
  let principal := id_Principal caller in
  hex_EncodeToString (Sum256 (string_bytes ("v1" +:+ NUL +:+ pr_Tenant principal +:+ NUL +:+ pr_ID principal))).

(** ** Failures *)
Record stateFailure := mkStateFailure {
  sf_status : Z;
  sf_outcome : string;
  sf_code : string;
  sf_message : string;
}.

Definition selectorStoreFailure (message : string) : stateFailure :=
  mkStateFailure StatusServiceUnavailable OutcomeConfigError "state_affinity_unavailable" message.
Definition selectorMissingFailure (message : string) : stateFailure :=
  mkStateFailure StatusConflict OutcomeRejected "state_affinity_not_found" message.
Definition mismatchFailure (message : string) : stateFailure :=
  mkStateFailure StatusConflict OutcomeRejected "state_affinity_model_mismatch" message.
Definition conflictFailure (message : string) : stateFailure :=
  mkStateFailure StatusConflict OutcomeRejected "state_affinity_conflict" message.

Section State.
Context {S : Type} `{AffinityStore S}.

Definition fail_with {E E' A} (f : E -> E') (m : M S E A) : M S E' A := fun s =>
  match m s with (inl e, s) => (inl (f e), s) | (inr a, s) => (inr a, s) end.

Definition lift {E A} (r : E + A) : M S E A := fun s => (r, s).

(** [resolveResponsesAffinity], with whether the affinity is durable. *)
Definition resolveResponsesAffinity (ownerScope responseID : string) : M S string (option (Affinity * bool)) :=
  resource ← (if supportsResources then store_ResolveResource (mkResourceKey ownerScope ResourceResponse responseID)
              else mret None);
  match resource with
  | Some resource => mret (Some (affinity_of resource, time_IsZero (ra_ExpiresAt resource)))
  | None => a ← store_Resolve ownerScope responseID; mret ((fun a => (a, false)) <$> a)
  end.

(** ** The pin of the selector *)
Definition selected_state : Type := option (ResourceAffinity * string).

Definition same_target (left right : ResourceAffinity) : bool :=
  String.eqb (ra_Provider left) (ra_Provider right) && String.eqb (ra_Deployment left) (ra_Deployment right) &&
  String.eqb (ra_UpstreamModel left) (ra_UpstreamModel right).

Definition accept (selected : selected_state) (a : ResourceAffinity) (candidateKind : string)
  : stateFailure + selected_state :=
  match selected with
  | None => inr (Some (a, candidateKind))
  | Some (first, kind) =>
      if negb (String.eqb (ra_VirtualModel first) (ra_VirtualModel a)) then
        inl (mismatchFailure "provider-owned state references belong to different virtual models")
      else if negb (same_target first a) then
        inl (conflictFailure "provider-owned state references belong to different provider targets")
      else inr (Some (first, if String.eqb kind candidateKind then kind else "mixed"%string))
  end.

(** [resolveResource] *)
Definition select_resource (key : ResourceKey) (missing unavailable candidateKind : string) (selected : selected_state)
  : M S stateFailure selected_state :=
  a ← fail_with (fun _ => selectorStoreFailure unavailable) (store_ResolveResource key);
  match a with
  | None => throw (selectorMissingFailure missing)
  | Some a => if Deleted a then throw (selectorMissingFailure missing) else lift (accept selected a candidateKind)
  end.

Definition select_response (ownerScope responseID : string) (selected : selected_state) : M S stateFailure selected_state :=
  a ← fail_with (fun _ => selectorStoreFailure "provider-owned response state could not be resolved")
        (resolveResponsesAffinity ownerScope responseID);
  match a with
  | None => throw (selectorMissingFailure "previous_response_id is unknown or expired at this gateway")
  | Some (a, _) => lift (accept selected (resource_of a) "response")
  end.

Definition select_conversation (ownerScope conversationID : string) (selected : selected_state) : M S stateFailure selected_state :=
  select_resource (mkResourceKey ownerScope ResourceConversation conversationID)
    "conversation is unknown or deleted at this gateway" "provider-owned conversation state could not be resolved"
    "conversation" selected.

Definition select_item (ownerScope : string) (selected : selected_state) (itemID : string) : M S stateFailure selected_state :=
  select_resource (mkResourceKey ownerScope ResourceItem itemID)
    "provider-owned item is unknown or deleted at this gateway" "provider-owned item routing state could not be resolved"
    "item" selected.

Definition select_file (ownerScope : string) (selected : selected_state) (fileID : string) : M S stateFailure selected_state :=
  select_resource (mkResourceKey ownerScope ResourceFile fileID)
    "file_id is unknown or deleted at this gateway" "provider file routing state could not be resolved" "file" selected.

Definition needsResourceStore (state : responsesRequestState) : bool :=
  negb (String.eqb (rs_conversationID state) "") || negb (bool_decide (rs_itemIDs state = [])) ||
  negb (bool_decide (rs_fileIDs state = [])).

(** [resolveProviderStateSelectorPin] after what the request names was read. *)
Definition resolveProviderStateSelectorPin (ownerScope : string) (state : responsesRequestState)
  : M S stateFailure (option ProviderStatePin) :=
  selected ← (if String.eqb (rs_previousResponseID state) "" then mret None
              else select_response ownerScope (rs_previousResponseID state) None);
  if needsResourceStore state && negb supportsResources
  then throw (selectorStoreFailure "provider-owned resource state storage is not configured")
  else
    selected ← (if String.eqb (rs_conversationID state) "" then mret selected
                else select_conversation ownerScope (rs_conversationID state) selected);
    selected ← for_each (select_item ownerScope) selected (rs_itemIDs state);
    selected ← for_each (select_file ownerScope) selected (rs_fileIDs state);
    mret ((fun '(a, kind) => mkProviderStatePin (ra_VirtualModel a) kind) <$> selected).

(** ** The pin of the plan *)
Inductive affinityResult := AffinityNotFound | AffinityModelMismatch | AffinityTargetMismatch.

(** One turn of the loop of [resolveItemAffinities] and [resolveFileAffinities];
    nothing is resolved before the first. *)
Definition affinity_step (kind ownerScope virtualModel : string) (resolved : option ResourceAffinity) (id : string)
  : M S (string + affinityResult) (option ResourceAffinity) :=
  a ← fail_with inl (store_ResolveResource (mkResourceKey ownerScope kind id));
  match a with
  | None => throw (inr AffinityNotFound)
  | Some a =>
      if Deleted a then throw (inr AffinityNotFound)
      else if negb (String.eqb (ra_VirtualModel a) virtualModel) then throw (inr AffinityModelMismatch)
      else
        match resolved with
        | None => mret (Some a)
        | Some first => if negb (same_target a first) then throw (inr AffinityTargetMismatch) else mret (Some first)
        end
  end.

Definition resolveItemAffinities (ownerScope virtualModel : string) (itemIDs : list string)
  : M S (string + affinityResult) (option ResourceAffinity) :=
  for_each (affinity_step ResourceItem ownerScope virtualModel) None itemIDs.

Definition resolveFileAffinities (ownerScope virtualModel : string) (fileIDs : list string)
  : M S (string + affinityResult) (option ResourceAffinity) :=
  for_each (affinity_step ResourceFile ownerScope virtualModel) None fileIDs.

(** The variables [pinnedDeployment], [pinnedProvider] and [pinnedUpstreamModel]. *)
Record pinnedTarget := mkPinnedTarget {
  pt_Deployment : string;
  pt_Provider : string;
  pt_UpstreamModel : string;
}.

#[export] Instance pinnedTarget_eq_dec : EqDecision pinnedTarget.
Proof. solve_decision. Defined.

Definition no_target : pinnedTarget := mkPinnedTarget "" "" "".
Definition resource_target (a : ResourceAffinity) : pinnedTarget :=
  mkPinnedTarget (ra_Deployment a) (ra_Provider a) (ra_UpstreamModel a).

(** The branches for [previous_response_id] and [conversation]. *)
Definition pin_response (ownerScope responseID model : string) : M S stateFailure pinnedTarget :=
  a ← fail_with (fun _ => selectorStoreFailure "provider-owned response state could not be resolved")
        (resolveResponsesAffinity ownerScope responseID);
  match a with
  | None => throw (selectorMissingFailure "previous_response_id is unknown or expired at this gateway")
  | Some (a, _) =>
      if negb (String.eqb (af_VirtualModel a) model)
      then throw (mismatchFailure "previous_response_id belongs to a different virtual model")
      else mret (mkPinnedTarget (af_Deployment a) (af_Provider a) (af_UpstreamModel a))
  end.

Definition pin_conversation (ownerScope conversationID model : string) : M S stateFailure pinnedTarget :=
  if negb supportsResources
  then throw (selectorStoreFailure "provider-owned conversation state storage is not configured")
  else
    a ← fail_with (fun _ => selectorStoreFailure "provider-owned conversation state could not be resolved")
          (store_ResolveResource (mkResourceKey ownerScope ResourceConversation conversationID));
    match a with
    | None => throw (selectorMissingFailure "conversation is unknown or deleted at this gateway")
    | Some a =>
        if Deleted a then throw (selectorMissingFailure "conversation is unknown or deleted at this gateway")
        else if negb (String.eqb (ra_VirtualModel a) model)
        then throw (mismatchFailure "conversation belongs to a different virtual model")
        else mret (resource_target a)
    end.

(** The messages of the branches for items and for files. *)
Record resourceMessages := mkResourceMessages {
  rm_unsupported : string;
  rm_unavailable : string;
  rm_missing : string;
  rm_mismatch : string;
  rm_conflict : string;
  rm_others : string;
}.

Definition affinity_failure (messages : resourceMessages) (e : string + affinityResult) : stateFailure :=
  match e with
  | inl _ => selectorStoreFailure (rm_unavailable messages)
  | inr AffinityNotFound => selectorMissingFailure (rm_missing messages)
  | inr AffinityModelMismatch => mismatchFailure (rm_mismatch messages)
  | inr AffinityTargetMismatch => conflictFailure (rm_conflict messages)
  end.

Definition pin_resources (resolve : M S (string + affinityResult) (option ResourceAffinity)) (messages : resourceMessages)
    (ids : list string) (pinned : pinnedTarget) : M S stateFailure pinnedTarget :=
  if bool_decide (ids = []) then mret pinned
  else if negb supportsResources then throw (selectorStoreFailure (rm_unsupported messages))
  else
    a ← fail_with (affinity_failure messages) resolve;
    let target := match a with Some a => resource_target a | None => no_target end in
    if negb (String.eqb (pt_Deployment pinned) "") && negb (bool_decide (pinned = target))
    then throw (conflictFailure (rm_others messages))
    else mret target.

Definition item_messages : resourceMessages :=
  mkResourceMessages "provider-owned item routing state storage is not configured"
    "provider-owned item routing state could not be resolved" "provider-owned item is unknown or deleted at this gateway"
    "provider-owned item belongs to a different virtual model" "provider-owned items belong to different provider targets"
    "provider-owned item and other state belong to different targets".

Definition file_messages : resourceMessages :=
  mkResourceMessages "provider file routing state storage is not configured"
    "provider file routing state could not be resolved" "file_id is unknown or deleted at this gateway"
    "file_id belongs to a different virtual model" "file_id values belong to different provider targets"
    "file_id and other provider-owned state belong to different targets".

(** The part of [ServeHTTP] between the guardrails and the plan. *)
Definition pin_target (isResponses : bool) (state : responsesRequestState) (model : string) : M S stateFailure pinnedTarget :=
  let scope := rs_ownerScope state in
  pinned ←
    (if negb isResponses then mret no_target
     else if negb (String.eqb (rs_previousResponseID state) "") then pin_response scope (rs_previousResponseID state) model
     else if negb (String.eqb (rs_conversationID state) "") then pin_conversation scope (rs_conversationID state) model
     else mret no_target);
  pinned ← pin_resources (resolveItemAffinities scope model (rs_itemIDs state)) item_messages (rs_itemIDs state) pinned;
  pin_resources (resolveFileAffinities scope model (rs_fileIDs state)) file_messages (rs_fileIDs state) pinned.

(** ** Binding the answer *)
Definition bound_resource (ownerScope kind id : string) (selection : Plan.Selection) (boundAt expiresAt : Z) : ResourceAffinity :=
  mkResourceAffinity (mkResourceKey ownerScope kind id) (sel_VirtualModel selection) (prov_Name (sel_Provider selection))
    (dep_Name (sel_Deployment selection)) (dep_Model (sel_Deployment selection)) boundAt 0 expiresAt.

Fixpoint bind_items (ownerScope : string) (selection : Plan.Selection) (boundAt expiresAt : Z) (itemIDs : list string) (s : S)
  : option (option string * S) :=
  match itemIDs with
  | [] => Some (None, s)
  | itemID :: itemIDs =>
      '(err, s) ← store_BindResource (bound_resource ownerScope ResourceItem itemID selection boundAt expiresAt) s;
      match err with
      | Some err => Some (Some err, s)
      | None => bind_items ownerScope selection boundAt expiresAt itemIDs s
      end
  end.

(** [bindProviderItemAffinities]; [boundAt] is the clock. *)
Definition bindProviderItemAffinities (boundAt : Z) (ownerScope : string) (selection : Plan.Selection) (itemIDs : list string)
    (expiresAt : Z) (s : S) : option (option string * S) :=
  if bool_decide (itemIDs = []) then Some (None, s)
  else if negb (time_IsZero expiresAt) && (expiresAt <=? boundAt)
  then Some (Some "provider item affinity expired before it could be bound"%string, s)
  else bind_items ownerScope selection boundAt expiresAt itemIDs s.

Definition bindResponsesAffinity (now : Z) (ownerScope responseID : string) (selection : Plan.Selection) (durable : bool) (s : S)
  : option (option string * S) :=
  if durable then
    if negb supportsResources then Some (Some "durable response affinity storage is not configured"%string, s)
    else store_BindResource (bound_resource ownerScope ResourceResponse responseID selection now 0) s
  else
    store_Bind (mkAffinity ownerScope responseID (sel_VirtualModel selection) (prov_Name (sel_Provider selection))
      (dep_Name (sel_Deployment selection)) (dep_Model (sel_Deployment selection)) now (time_Add now DefaultTTL)) s.
End State.

(** ** What a store promises

    [inv] is the invariant of a store and [view] what it keeps for a key; to
    look a resource up fails, or answers the view, and leaves both. *)
Class AffinityStoreLaws (S : Type) `{AffinityStore S} := {
  inv : S -> Prop;
  view : S -> ResourceKey -> option ResourceAffinity;
  same_view (s s' : S) : Prop := inv s' /\ forall key, view s' key = view s key;
  law_ResolveResource key s : inv s ->
    wp (store_ResolveResource key) (fun _ => same_view s) (fun a s' => a = view s key /\ same_view s s') s;
  law_Resolve scope responseID s : inv s ->
    wp (store_Resolve scope responseID) (fun _ => same_view s)
      (fun a s' => a = (a ← view s (mkResourceKey scope ResourceResponse responseID);
                        if Deleted a then None else Some (affinity_of a)) /\ same_view s s') s;
}.

Section MemoryStore.
Context `{UnicodeTables} (now : Z).

Definition live_entry (s : Responses.MemoryStore) (key : ResourceKey) : option ResourceAffinity :=
  a ← ms_entries s !! memoryKey key; if resourceExpired a now then None else Some a.

Lemma resolve_answers key s : store_ok s ->
  wp (ResolveResource None now key) (fun _ s' => store_ok s' /\ forall key, live_entry s' key = live_entry s key)
    (fun a s' => a = live_entry s key /\ store_ok s' /\ forall key, live_entry s' key = live_entry s key) s.
Proof.
  intros Hs. pose proof (proj1 (resolve_spec None now key s Hs)) as Hok. revert Hok. unfold wp, ResolveResource, live_entry.
  destruct (first_error _); [done|]. destruct (ms_entries s !! memoryKey key) as [a|] eqn:E; [|done].
  cbn. destruct (resourceExpired a now) eqn:Hexp; cbn; [|done].
  intros Hok. do 2 (split; [done|]). intros key'. destruct (so_keyed s Hs _ _ E) as [-> _].
  destruct (decide (memoryKey key' = memoryKey key)) as [->|Hne]; [|by rewrite lookup_delete_ne].
  rewrite lookup_delete_eq, E. cbn. by rewrite Hexp.
Qed.

#[local] Instance memory_affinity_store : AffinityStore Responses.MemoryStore := memory_store now.

#[local] Program Instance memory_store_laws : AffinityStoreLaws Responses.MemoryStore := {|
  inv := store_ok; view := live_entry;
|}.
Next Obligation. exact resolve_answers. Qed.
Next Obligation.
  intros scope responseID s Hs. pose proof (resolve_answers (mkResourceKey scope ResourceResponse responseID) s Hs) as Hr.
  revert Hr. unfold wp. cbn [store_Resolve memory_affinity_store memory_store]. unfold Responses.Resolve.
  destruct (ResolveResource _ _ _ _) as [[e|[a|]] s']; [done|..]; intros [<- Hv]; by destruct Hv.
Qed.
End MemoryStore.

Section Pins.
Context {S : Type} `{AffinityStoreLaws S} (V : ResourceKey -> option ResourceAffinity).

Definition shows (s : S) : Prop := inv s /\ forall key, view s key = V key.

(** The resource of a reference, where the gateway honours it.  A response is
    honoured after its deletion when the store keeps resources. *)
Definition usable (key : ResourceKey) (a : ResourceAffinity) : Prop :=
  V key = Some a /\ (Deleted a = true -> rk_Kind key = ResourceResponse /\ supportsResources (S := S) = true).

Definition if_named (id : string) (l : list ResourceKey) : list ResourceKey := if String.eqb id "" then [] else l.

Definition first_references (scope : string) (state : responsesRequestState) : list ResourceKey :=
  if_named (rs_previousResponseID state) [mkResourceKey scope ResourceResponse (rs_previousResponseID state)] ++
  if_named (rs_conversationID state) [mkResourceKey scope ResourceConversation (rs_conversationID state)].

(** The references of a request, in the order they are looked up. *)
Definition references (scope : string) (state : responsesRequestState) : list ResourceKey :=
  first_references scope state ++ (mkResourceKey scope ResourceItem <$> rs_itemIDs state) ++
  (mkResourceKey scope ResourceFile <$> rs_fileIDs state).

(** Every reference is usable and leads to the model and the target. *)
Definition agreed (keys : list ResourceKey) (model : string) (target : pinnedTarget) : Prop :=
  forall key, key ∈ keys -> exists a, usable key a /\ ra_VirtualModel a = model /\ resource_target a = target.

Definition common_kind (keys : list ResourceKey) : string :=
  match keys with
  | [] => ""
  | key :: keys => if forallb (fun k => String.eqb (rk_Kind key) (rk_Kind k)) keys then rk_Kind key else "mixed"
  end.

Definition described (keys : list ResourceKey) (selected : selected_state) : Prop :=
  match selected with
  | None => keys = []
  | Some (a, kind) => keys <> [] /\ agreed keys (ra_VirtualModel a) (resource_target a) /\ kind = common_kind keys
  end.

(** The lookup of a reference returns an error. *)
Definition lookup_fails (key : ResourceKey) : Prop :=
  exists s e, shows s /\
    ((store_ResolveResource key s).1 = inl e \/
     rk_Kind key = ResourceResponse /\ (store_Resolve (rk_Scope key) (rk_ResourceID key) s).1 = inl e).

(** The store cannot answer for one of the references: it keeps no resources
    and the reference is to one, or its lookup fails. *)
Definition unanswered (keys : list ResourceKey) : Prop :=
  exists key, key ∈ keys /\
    (supportsResources (S := S) = false /\ rk_Kind key <> ResourceResponse \/ lookup_fails key).

(** A configuration error because the store cannot answer, or a conflict because
    the references of the request do not agree. *)
Definition refused (keys : list ResourceKey) (f : stateFailure) (_ : S) : Prop :=
  sf_outcome f = OutcomeConfigError /\ unanswered keys \/
  sf_status f = StatusConflict /\ ~ exists model target, agreed keys model target.

Lemma same_target_spec a b : same_target a b = bool_decide (resource_target a = resource_target b).
Proof.
  unfold same_target, resource_target. apply eq_bool_prop_intro. rewrite bool_decide_spec.
  destruct (String.eqb_spec (ra_Provider a) (ra_Provider b)), (String.eqb_spec (ra_Deployment a) (ra_Deployment b)),
    (String.eqb_spec (ra_UpstreamModel a) (ra_UpstreamModel b)); cbn; naive_solver congruence.
Qed.

Lemma usable_fun key a b : usable key a -> usable key b -> a = b.
Proof. intros [Ha _] [Hb _]. congruence. Qed.

Lemma agreed_app keys keys' model target :
  agreed (keys ++ keys') model target <-> agreed keys model target /\ agreed keys' model target.
Proof. unfold agreed. setoid_rewrite elem_of_app. naive_solver. Qed.

Lemma agreed_one key a : usable key a -> agreed [key] (ra_VirtualModel a) (resource_target a).
Proof. intros Ha k ->%list_elem_of_singleton. eauto. Qed.

Lemma not_agreed_missing keys key : key ∈ keys -> (forall a, ~ usable key a) ->
  ~ exists model target, agreed keys model target.
Proof. intros Hk Hno (model & target & Ha). destruct (Ha key Hk) as (a & Hu & _). by destruct (Hno a). Qed.

Lemma not_agreed_differ prefix keys key a model target : prefix ++ [key] ⊆ keys -> prefix <> [] ->
  agreed prefix model target -> usable key a -> ra_VirtualModel a <> model \/ resource_target a <> target ->
  ~ exists model target, agreed keys model target.
Proof.
  intros Hsub Hne Hp Hu Hd (model' & target' & Hall). destruct prefix as [|k prefix]; [done|].
  destruct (Hp k) as (b & Hb & ? & ?); [by left|].
  destruct (Hall k) as (b' & Hb' & ? & ?); [apply Hsub; by left|].
  destruct (Hall key) as (a' & Ha' & Hm & Ht); [apply Hsub, elem_of_app; right; by apply list_elem_of_singleton|].
  pose proof (usable_fun _ _ _ Hb Hb'). pose proof (usable_fun _ _ _ Hu Ha'). destruct Hd as [[]|[]]; congruence.
Qed.

Lemma common_kind_snoc keys key : keys <> [] -> rk_Kind key <> "mixed"%string ->
  common_kind (keys ++ [key]) = (if String.eqb (common_kind keys) (rk_Kind key) then common_kind keys else "mixed"%string).
Proof.
  intros Hne Hk. destruct keys as [|k keys]; [done|]. cbn. rewrite forallb_app. cbn. rewrite andb_true_r.
  destruct (forallb _ keys); cbn [andb]; [done|]. destruct (String.eqb_spec "mixed" (rk_Kind key)); congruence.
Qed.

(** [accept] joins a reference to those before it. *)
Lemma accept_spec keys prefix key a b selected (s : S) : prefix ++ [key] ⊆ keys -> rk_Kind key <> "mixed"%string ->
  described prefix selected -> usable key b -> ra_VirtualModel a = ra_VirtualModel b -> resource_target a = resource_target b ->
  match accept selected a (rk_Kind key) with
  | inl f => refused keys f s
  | inr selected => described (prefix ++ [key]) selected
  end.
Proof.
  intros Hsub Hmix Hsel Hu Hm Ht. destruct selected as [[first kind]|]; cbn in Hsel |- *.
  - destruct Hsel as (Hne & Hp & ->). destruct (String.eqb_spec (ra_VirtualModel first) (ra_VirtualModel a)) as [Em|Em]; cbn.
    + rewrite same_target_spec. case_bool_decide as Et; cbn.
      * split; [by destruct prefix|]. split; [|by rewrite common_kind_snoc].
        apply agreed_app. split; [done|]. rewrite Em, Et, Hm, Ht. by apply agreed_one.
      * right. split; [done|]. eapply not_agreed_differ; [done..|]. right. congruence.
    + right. split; [done|]. eapply not_agreed_differ; [done..|]. left. congruence.
  - subst prefix. cbn. split; [done|]. split; [|done]. rewrite Hm, Ht. by apply agreed_one.
Qed.

(** ** Looking references up *)
Lemma wp_fail_with {E E' A} (f : E -> E') (m : M S E A) QE Q s :
  wp m (fun e => QE (f e)) Q s -> wp (fail_with f m) QE Q s.
Proof. unfold wp, fail_with. by destruct (m s) as [[e|a] s']. Qed.

Lemma wp_lift {E A} (r : E + A) (QE : E -> S -> Prop) Q s :
  match r with inl e => QE e s | inr a => Q a s end -> wp (lift r) QE Q s.
Proof. by destruct r. Qed.

Lemma shows_same s s' : shows s -> same_view s s' -> shows s'.
Proof. intros [_ Hv] [Hi Hv']. split; [done|]. intros key. by rewrite Hv'. Qed.

Lemma lookup_spec key s (QE : string -> S -> Prop) (Q : option ResourceAffinity -> S -> Prop) : shows s ->
  (forall e s', lookup_fails key -> QE e s') -> (forall s', shows s' -> Q (V key) s') ->
  wp (store_ResolveResource key) QE Q s.
Proof.
  intros Hs HE HQ. pose proof (law_ResolveResource key s (proj1 Hs)) as Hl. revert Hl. unfold wp.
  destruct (store_ResolveResource key s) as [[e|a] s'] eqn:E.
  - intros _. apply HE. exists s, e. rewrite E. auto.
  - intros [-> Hl]. rewrite (proj2 Hs key). by eapply HQ, shows_same.
Qed.

Lemma response_spec scope id s (QE : string -> S -> Prop) (Q : option (Affinity * bool) -> S -> Prop) :
  let key := mkResourceKey scope ResourceResponse id in
  shows s -> (forall e s', lookup_fails key -> QE e s') ->
  (forall s', shows s' -> (forall a, ~ usable key a) -> Q None s') ->
  (forall a durable s', shows s' -> usable key a -> Q (Some (affinity_of a, durable)) s') ->
  wp (resolveResponsesAffinity scope id) QE Q s.
Proof.
  intros key Hs HE HNone HSome. unfold resolveResponsesAffinity.
  assert (Hlast : (supportsResources = true -> V key = None) -> forall s, shows s ->
    wp (a ← store_Resolve scope id; mret ((fun a => (a, false)) <$> a)) QE Q s).
  { clear s Hs. intros Hno s Hs. apply wp_bind. pose proof (law_Resolve scope id s (proj1 Hs)) as Hl.
    unfold wp in Hl. unfold wp at 1. revert Hl. destruct (store_Resolve scope id s) as [[e|a] s'] eqn:E.
    - intros _. apply HE. exists s, e. split; [done|]. right. cbn. by rewrite E.
    - intros [-> Hl]. apply wp_ret. fold key. rewrite (proj2 Hs key). pose proof (shows_same _ _ Hs Hl) as Hs'.
      destruct (V key) as [b|] eqn:Eb; cbn.
      + destruct (Deleted b) eqn:Ed; cbn.
        * apply HNone; [done|]. intros c [Hc Hd]. assert (c = b) as -> by congruence. destruct (Hd Ed) as [_ ?%Hno]. congruence.
        * apply HSome; [done|]. split; [done|]. by rewrite Ed.
      + apply HNone; [done|]. intros c [Hc _]. congruence. }
  apply wp_bind. destruct supportsResources eqn:Hr.
  - apply lookup_spec; [done|done|]. intros s' Hs'. fold key. destruct (V key) as [a|] eqn:Ea; [|by apply Hlast].
    apply wp_ret, HSome; [done|]. by split.
  - apply wp_ret. by apply Hlast.
Qed.
End Pins.

Section Agreement.
Context {S : Type} `{AffinityStoreLaws S} (V : ResourceKey -> option ResourceAffinity) (keys : list ResourceKey).
#[local] Notation shows := (shows V).
#[local] Notation usable := (usable V).
#[local] Notation agreed := (agreed V).
#[local] Notation described := (described V).
#[local] Notation refused := (refused V keys).

#[local] Notation unanswered := (unanswered V keys).

Lemma unanswered_lookup key : key ∈ keys -> lookup_fails V key -> unanswered.
Proof. intros ? ?. exists key. auto. Qed.

Lemma unanswered_unsupported key :
  key ∈ keys -> rk_Kind key <> ResourceResponse -> supportsResources (S := S) = false -> unanswered.
Proof. intros ? ? ?. exists key. auto. Qed.

Definition select_post (prefix : list ResourceKey) (selected : selected_state) (s : S) : Prop :=
  shows s /\ described prefix selected.

Lemma select_resource_spec prefix key missing unavailable selected s :
  prefix ++ [key] ⊆ keys -> rk_Kind key <> ResourceResponse -> rk_Kind key <> "mixed"%string ->
  select_post prefix selected s ->
  wp (select_resource key missing unavailable (rk_Kind key) selected) refused (select_post (prefix ++ [key])) s.
Proof.
  intros Hsub Hr Hmix [Hs Hsel]. assert (Hk : key ∈ keys) by (apply Hsub, elem_of_app; right; by apply list_elem_of_singleton).
  unfold select_resource. apply wp_bind, wp_fail_with, (lookup_spec V); [done| |].
  { intros e s' Hf. left. split; [done|]. by eapply unanswered_lookup. }
  intros s' Hs'.
  destruct (V key) as [a|] eqn:Ea.
  - destruct (Deleted a) eqn:Ed.
    + apply wp_throw. right. split; [done|]. apply (not_agreed_missing V _ key); [done|]. intros b [Hb Hd].
      assert (b = a) as -> by congruence. by destruct (Hd Ed).
    + apply wp_lift. assert (Hu : usable key a) by (split; [done|]; by rewrite Ed).
      pose proof (accept_spec V keys prefix key a a selected s' Hsub Hmix Hsel Hu eq_refl eq_refl) as Ha.
      destruct (accept _ _ _); [done|]. by split.
  - apply wp_throw. right. split; [done|]. apply (not_agreed_missing V _ key); [done|]. intros b [Hb _]. congruence.
Qed.

Lemma select_response_spec scope id s : mkResourceKey scope ResourceResponse id ∈ keys -> shows s ->
  wp (select_response scope id None) refused (select_post [mkResourceKey scope ResourceResponse id]) s.
Proof.
  intros Hk Hs. unfold select_response. apply wp_bind, wp_fail_with, (response_spec V); [done|..].
  - intros e s' Hf. left. split; [done|]. by eapply unanswered_lookup.
  - intros s' Hs' Hno. apply wp_throw. right. split; [done|]. by eapply not_agreed_missing.
  - intros a durable s' Hs' Hu. apply wp_lift.
    assert (Hsub : [] ++ [mkResourceKey scope ResourceResponse id] ⊆ keys) by (by intros k ->%list_elem_of_singleton).
    by pose proof (accept_spec V keys [] _ (resource_of (affinity_of a)) a None s' Hsub ltac:(done) eq_refl Hu eq_refl eq_refl).
Qed.

(** A loop over references of one kind. *)
Lemma select_loop_spec (select : selected_state -> string -> M S stateFailure selected_state) kind scope ids prefix selected s :
  (forall selected id, exists missing unavailable,
     select selected id = select_resource (mkResourceKey scope kind id) missing unavailable kind selected) ->
  kind <> ResourceResponse -> kind <> "mixed"%string -> prefix ++ (mkResourceKey scope kind <$> ids) ⊆ keys ->
  select_post prefix selected s ->
  wp (for_each select selected ids) refused (select_post (prefix ++ (mkResourceKey scope kind <$> ids))) s.
Proof.
  intros Hselect Hr Hmix Hsub Hsel.
  apply (wp_for_each refused (fun done => select_post (prefix ++ (mkResourceKey scope kind <$> done)))).
  { cbn. by rewrite app_nil_r. }
  intros before id after sel w -> Hpost. destruct (Hselect sel id) as (missing & unavailable & ->).
  rewrite fmap_app, app_assoc. cbn.
  apply (select_resource_spec _ (mkResourceKey scope kind id)); [|done..].
  rewrite <- Hsub, fmap_app. intros k. rewrite !elem_of_app. cbn. rewrite list_elem_of_singleton, elem_of_cons. tauto.
Qed.

(** A request that needs the store of resources refers to one. *)
Lemma needs_unsupported scope state : (forall k, k ∈ references scope state -> k ∈ keys) ->
  needsResourceStore state && negb supportsResources = true -> unanswered.
Proof.
  intros Hin [Hneeds Hno%negb_true_iff]%andb_true_iff.
  enough (exists key, key ∈ references scope state /\ rk_Kind key <> ResourceResponse) as (key & Hk & Hr)
    by (eapply unanswered_unsupported; eauto).
  unfold references, first_references, if_named. setoid_rewrite elem_of_app. setoid_rewrite elem_of_app.
  apply orb_true_iff in Hneeds as [[Hc|Hi]%orb_true_iff|Hf].
  - destruct (String.eqb (rs_conversationID state) ""); [done|].
    eexists. split; [left; right; left|done].
  - destruct (rs_itemIDs state) as [|id ids]; [done|]. eexists. split; [right; left; left|done].
  - destruct (rs_fileIDs state) as [|id ids]; [done|]. eexists. split; [right; right; left|done].
Qed.

Lemma selector_spec scope state s : keys = references scope state -> shows s ->
  wp (resolveProviderStateSelectorPin scope state) refused
    (fun pin s' => match pin with
                   | None => keys = []
                   | Some pin => keys <> [] /\ ps_Kind pin = common_kind keys /\
                       exists target, agreed keys (ps_VirtualModel pin) target
                   end) s.
Proof.
  intros Hkeys Hs. unfold resolveProviderStateSelectorPin.
  assert (Hin : forall k, k ∈ references scope state -> k ∈ keys) by (by rewrite Hkeys). unfold references, first_references in *.
  set (p1 := if_named _ [mkResourceKey scope ResourceResponse _]) in *.
  set (p2 := if_named _ [mkResourceKey scope ResourceConversation _]) in *.
  set (items := mkResourceKey scope ResourceItem <$> _) in *. set (files := mkResourceKey scope ResourceFile <$> _) in *.
  apply wp_bind. eapply (wp_mono _ _ (select_post p1)).
  { subst p1. unfold if_named in *. destruct (String.eqb (rs_previousResponseID state) ""); [by apply wp_ret|].
    apply select_response_spec; [|done]. apply Hin. rewrite !elem_of_app. do 2 left. by apply list_elem_of_singleton. }
  intros selected s1 H1. destruct (needsResourceStore state && negb supportsResources) eqn:Hneeds.
  { apply wp_throw. left. split; [done|]. by eapply (needs_unsupported scope state). }
  apply wp_bind. eapply (wp_mono _ _ (select_post (p1 ++ p2))).
  { subst p2. unfold if_named in *. destruct (String.eqb (rs_conversationID state) ""); [apply wp_ret; by rewrite app_nil_r|].
    apply (select_resource_spec p1 (mkResourceKey scope ResourceConversation _)); [|done..].
    intros k Hk. apply Hin. rewrite elem_of_app. by left. }
  intros selected2 s2 H2. apply wp_bind. eapply (wp_mono _ _ (select_post ((p1 ++ p2) ++ items))).
  { apply select_loop_spec; [by intros; do 2 eexists|done|done| |done].
    intros k Hk. apply Hin. revert Hk. rewrite !elem_of_app. tauto. }
  intros selected3 s3 H3. apply wp_bind. eapply (wp_mono _ _ (select_post (((p1 ++ p2) ++ items) ++ files))).
  { apply select_loop_spec; [by intros; do 2 eexists|done|done| |done].
    intros k Hk. apply Hin. revert Hk. rewrite !elem_of_app. tauto. }
  intros selected4 s4 [_ H4]. rewrite <- app_assoc, <- Hkeys in H4. apply wp_ret.
  destruct selected4 as [[a kind]|]; cbn in *; [|done]. destruct H4 as (? & ? & ?). eauto.
Qed.

(** ** The pin of the plan *)
Context (model : string) (target : pinnedTarget) (Hagreed : agreed keys model target).

Definition pin_error (f : stateFailure) (_ : S) : Prop := sf_outcome f = OutcomeConfigError /\ unanswered.
Definition pin_post (done : list ResourceKey) (pinned : pinnedTarget) (s : S) : Prop :=
  shows s /\ pinned = match done with [] => no_target | _ => target end.

Lemma pin_response_spec scope id s : mkResourceKey scope ResourceResponse id ∈ keys -> shows s ->
  wp (pin_response scope id model) pin_error (fun t s' => shows s' /\ t = target) s.
Proof.
  intros Hk Hs. destruct (Hagreed _ Hk) as (b & Hb & Hm & Ht).
  unfold pin_response. apply wp_bind, wp_fail_with, (response_spec V); [done|..].
  - intros e s' Hf. split; [done|]. by eapply unanswered_lookup.
  - intros s' Hs' Hno. by destruct (Hno b).
  - intros a durable s' Hs' Hu. rewrite (usable_fun V _ _ _ Hu Hb). cbn. rewrite Hm, String.eqb_refl. by apply wp_ret.
Qed.

Lemma pin_conversation_spec scope id s : mkResourceKey scope ResourceConversation id ∈ keys -> shows s ->
  wp (pin_conversation scope id model) pin_error (fun t s' => shows s' /\ t = target) s.
Proof.
  intros Hk Hs. destruct (Hagreed _ Hk) as (b & [Hb Hd] & Hm & Ht). unfold pin_conversation.
  destruct supportsResources eqn:Hsup; cbn [negb].
  2:{ apply wp_throw. split; [done|]. by eapply unanswered_unsupported. }
  apply wp_bind, wp_fail_with, (lookup_spec V); [done| |].
  { intros e s' Hf. split; [done|]. by eapply unanswered_lookup. }
  intros s' Hs'. rewrite Hb. destruct (Deleted b); [by destruct (Hd eq_refl)|]. rewrite Hm, String.eqb_refl. by apply wp_ret.
Qed.

Lemma resolve_loop_spec kind scope ids s : kind <> ResourceResponse -> (mkResourceKey scope kind <$> ids) ⊆ keys -> shows s ->
  wp (for_each (affinity_step kind scope model) None ids) (fun e _ => (exists err, e = inl err) /\ unanswered)
    (fun a s' => shows s' /\ match a with None => ids = [] | Some a => resource_target a = target end) s.
Proof.
  intros Hr Hsub Hs.
  apply (wp_for_each _ (fun done a s' => shows s' /\ match a with None => done = [] | Some a => resource_target a = target end)); [done|].
  intros before id after resolved w -> [Hw Hres].
  assert (Hk : mkResourceKey scope kind id ∈ keys) by (apply Hsub; rewrite fmap_app, elem_of_app; right; by left).
  destruct (Hagreed _ Hk) as (b & [Hb Hd] & Hm & Ht).
  unfold affinity_step. apply wp_bind, wp_fail_with, (lookup_spec V); [done| |].
  { intros e s' Hf. split; [eauto|]. by eapply unanswered_lookup. }
  intros s' Hs'. rewrite Hb.
  destruct (Deleted b); [by destruct (Hd eq_refl)|]. rewrite Hm, String.eqb_refl. cbn [negb].
  destruct resolved as [first|]; [|by apply wp_ret].
  rewrite same_target_spec, bool_decide_true by congruence. by apply wp_ret.
Qed.

Lemma pin_resources_spec kind scope ids messages prefix pinned s :
  kind <> ResourceResponse -> (mkResourceKey scope kind <$> ids) ⊆ keys -> pin_post prefix pinned s ->
  wp (pin_resources (for_each (affinity_step kind scope model) None ids) messages ids pinned) pin_error
    (pin_post (prefix ++ (mkResourceKey scope kind <$> ids))) s.
Proof.
  intros Hr Hsub [Hs Hpin]. unfold pin_resources. case_bool_decide as Hids.
  { subst ids. apply wp_ret. by rewrite app_nil_r. }
  destruct supportsResources eqn:Hsup; cbn [negb].
  2:{ apply wp_throw. split; [done|]. destruct ids as [|id ids]; [done|].
      apply (unanswered_unsupported (mkResourceKey scope kind id)); [apply Hsub; by left|done|done]. }
  apply wp_bind, wp_fail_with.
  pose proof (resolve_loop_spec kind scope ids s Hr Hsub Hs) as Hl. unfold wp in *.
  destruct (for_each _ _ _ s) as [[e|a] s']; [by destruct Hl as [[err ->] ?]|].
  destruct Hl as [Hs' Ha]. destruct a as [a|]; [|done]. rewrite Ha.
  assert (Hno : negb (String.eqb (pt_Deployment pinned) "") && negb (bool_decide (pinned = target)) = false).
  { destruct prefix; subst pinned; [done|]. by rewrite bool_decide_true, andb_false_r. }
  rewrite Hno. split; [done|]. by destruct prefix, ids.
Qed.

Lemma pin_target_spec state s : keys = references (rs_ownerScope state) state -> keys <> [] -> shows s ->
  wp (pin_target true state model) pin_error (fun t _ => t = target) s.
Proof.
  intros Hkeys Hne Hs. unfold pin_target. cbn [negb].
  assert (Hin : forall k, k ∈ references (rs_ownerScope state) state -> k ∈ keys) by (by rewrite Hkeys). unfold references in *.
  apply wp_bind. eapply (wp_mono _ _ (pin_post (first_references (rs_ownerScope state) state))).
  { assert (Hfirst : forall k, k ∈ first_references (rs_ownerScope state) state -> k ∈ keys)
      by (intros k Hk; apply Hin; rewrite elem_of_app; by left).
    clear Hkeys Hin. unfold first_references, if_named in *. destruct (String.eqb (rs_previousResponseID state) ""); cbn [negb].
    - destruct (String.eqb (rs_conversationID state) ""); cbn [negb]; [by apply wp_ret|].
      apply pin_conversation_spec; [|done]. apply Hfirst. by apply list_elem_of_singleton.
    - apply pin_response_spec; [|done]. apply Hfirst. by left. }
  intros pinned s1 H1. apply wp_bind. eapply (wp_mono _ _ (pin_post _)).
  { apply pin_resources_spec; [done| |exact H1]. intros k Hk. apply Hin. rewrite !elem_of_app. tauto. }
  intros pinned2 s2 H2. eapply (wp_mono _ _ (pin_post _)).
  { apply pin_resources_spec; [done| |exact H2]. intros k Hk. apply Hin. rewrite !elem_of_app. tauto. }
  intros t s3 [_ ->]. rewrite <- app_assoc, <- Hkeys. by destruct keys.
Qed.
End Agreement.

(** C19: What the selector and the plan make of the stored state a request
    names.  [resolveProviderStateSelectorPin] pins nothing exactly when the
    request names nothing; it pins a model when every reference is held for the
    caller, is not deleted (a response may be), and all lead to one model and one
    target, and the kind it reports is the one they share or [mixed].  It refuses
    otherwise: with a conflict only when the references do not agree, and as a
    configuration error only when the store cannot answer for one of them, because
    it keeps no resources or because a lookup returns an error.  [ServeHTTP]
    resolves the references again, with the model pinned: as long as the store
    shows the same it pins the target they agree on, or fails as a configuration
    error because the store cannot answer for one of them; never because of the
    references. *)
Theorem state_pin_agrees {S} `{AffinityStoreLaws S} (scope : string) (state : responsesRequestState) (s : S) :
  inv s ->
  let keys := references scope state in
  match (resolveProviderStateSelectorPin scope state s).1 with
  | inl failure => refused (view s) keys failure s
  | inr None => keys = []
  | inr (Some pin) =>
      keys <> [] /\ ps_Kind pin = common_kind keys /\
      exists target,
        agreed (view s) keys (ps_VirtualModel pin) target /\
        forall s', same_view s s' -> rs_ownerScope state = scope ->
          match (pin_target true state (ps_VirtualModel pin) s').1 with
          | inl failure => sf_outcome failure = OutcomeConfigError /\ unanswered (view s) keys
          | inr pinned => pinned = target
          end
  end.
Proof.
  intros Hs keys. assert (Hshow : shows (view s) s) by done.
  pose proof (selector_spec (view s) keys scope state s eq_refl Hshow) as Hsel. unfold wp in Hsel.
  destruct (resolveProviderStateSelectorPin scope state s) as [[f|[pin|]] s1]; cbn [fst]; [exact Hsel| |exact Hsel].
  destruct Hsel as (Hne & Hkind & target & Hagreed). do 2 (split; [done|]). exists target. split; [done|].
  intros s' Hs' <-.
  pose proof (pin_target_spec (view s) keys _ _ Hagreed state s' eq_refl Hne Hs') as Hpin. unfold wp in Hpin.
  by destruct (pin_target true state (ps_VirtualModel pin) s') as [[f|t] s2].
Qed.

(** ** A response and three files *)
Definition response_affinity (id provider : string) : ResourceAffinity :=
  mkResourceAffinity (mkResourceKey "tenant" ResourceResponse id) "chat" provider "node" "m1" 10 0 0.
Definition state_of (responseID conversationID : string) (files : list string) : responsesRequestState :=
  mkResponsesRequestState "tenant" responseID conversationID files [] 0 false false false false 0 0.

Definition response_and_files : Responses.MemoryStore :=
  operated 20 [OpBind (response_affinity "r1" "openai"); OpBind (file_affinity "f1" "openai");
               OpBind (file_affinity "f2" "openai"); OpBind (file_affinity "f3" "azure")] (NewMemoryStore 8).

Lemma response_and_files_ok : store_ok response_and_files.
Proof. apply (store_reachable_ok (H := plain_tables)), operated_reachable. constructor. Qed.

#[local] Instance store_at_30 : AffinityStore Responses.MemoryStore := memory_store (H := plain_tables) 30.
#[local] Instance store_at_30_laws : AffinityStoreLaws Responses.MemoryStore := memory_store_laws (H := plain_tables) 30.

Definition named_response : responsesRequestState := state_of "r1" "" ["f1"; "f2"]%string.

Lemma selected_named : (resolveProviderStateSelectorPin "tenant" named_response response_and_files).1 =
  inr (Some (mkProviderStatePin "chat" "mixed")).
Proof. vm_compute. reflexivity. Qed.

Lemma state_pin_agrees_witness :
  (resolveProviderStateSelectorPin "tenant" named_response response_and_files).1 =
    inr (Some (mkProviderStatePin "chat" "mixed")) /\
  exists target,
    agreed (view response_and_files) (references "tenant" named_response) "chat" target /\
    match (pin_target true named_response "chat" response_and_files).1 with
    | inl failure => sf_outcome failure = OutcomeConfigError /\
        unanswered (view response_and_files) (references "tenant" named_response)
    | inr pinned => pinned = target
    end.
Proof.
  split; [exact selected_named|].
  pose proof (state_pin_agrees "tenant" named_response response_and_files response_and_files_ok) as Hpin.
  cbv zeta in Hpin. rewrite selected_named in Hpin.
  destruct Hpin as (_ & _ & target & Hagreed & Hplan).
  exists target. split; [exact Hagreed|].
  apply Hplan; [|reflexivity]. split; [exact response_and_files_ok|intros; reflexivity].
Defined.

(** Files of two providers are a conflict, and the target of those of one is
    theirs. *)
Example pins :
  (pin_target true named_response "chat" response_and_files).1 = inr (mkPinnedTarget "node" "openai" "m1") /\
  (resolveProviderStateSelectorPin "tenant" (state_of "" "" ["f1"; "f3"]%string) response_and_files).1 =
    inl (conflictFailure "provider-owned state references belong to different provider targets").
Proof. vm_compute. done. Qed.

(** A deleted file is refused; a deleted response is followed as long as its
    tombstone is kept. *)
Definition tombstoned : Responses.MemoryStore :=
  operated 20 [OpTombstone (mkResourceKey "tenant" ResourceResponse "r1") 20 1000; OpTombstone (file_key "f1") 20 1000]
    response_and_files.

Example deleted_response_is_followed :
  (resolveProviderStateSelectorPin "tenant" (state_of "r1" "" []) tombstoned).1 =
    inr (Some (mkProviderStatePin "chat" "response")) /\
  (Responses.Resolve None 30 "tenant" "r1" tombstoned).1 = inr None /\
  (resolveProviderStateSelectorPin "tenant" (state_of "" "" ["f1"]%string) tombstoned).1 =
    inl (selectorMissingFailure "file_id is unknown or deleted at this gateway").
Proof. vm_compute. done. Qed.
