(* ===== verification/UpstreamHeaders.v ===== *)
(** * Configured headers of upstream requests ([pkg/headers])

    Providers and deployments configure headers, as values or as references to
    secrets; [Resolve] merges them for a request and [ApplyAuthentication] adds the
    credential of the provider.  The secrets are those of a [credentials.Source]. *)

From stdpp Require Import base gmap list strings.
From Stdlib Require Import Ascii ZArith Lia.
From S2P Require Import Prelude GoStrings Policies Capabilities Config Fields Sha256 Fixtures Gateway SecretSources.

Local Open Scope Z_scope.
Local Open Scope go_scope.

Definition maxResolvedValueBytes : Z := 8192.

Definition PurposeInference : string := "inference".
Definition PurposeHealth : string := "health".

(** ** Names of headers

    [http.CanonicalHeaderKey]: a letter is a capital at the beginning and after a
    hyphen; a name that is not a token stays as it is. *)
Fixpoint canonical_bytes (upper : bool) (l : list ascii) : list ascii :=
  match l with
  | [] => []
  | c :: l => (if upper then upper_byte c else lower_byte c) :: canonical_bytes (Ascii.eqb c "-") l
  end.

Definition CanonicalHeaderKey (name : string) : string :=
  if forallb isTokenChar (bytes name) then of_bytes (canonical_bytes true (bytes name)) else name.

(** ** Values *)
Definition applies (scope purpose : string) : bool :=
  if mem scope [""; "both"]%string then true
  else if String.eqb scope "inference" then String.eqb purpose PurposeInference
  else if String.eqb scope "health" then String.eqb purpose PurposeHealth
  else false.

(** [strings.ContainsAny(value, "\r\n")] *)
Definition has_newline (value : string) : bool :=
  existsb (fun c => Nat.eqb (byte_of c) 13 || Nat.eqb (byte_of c) 10) (bytes value).

Definition validateResolvedValue (value : string) : option string :=
  first_error [
    fail_if (maxResolvedValueBytes <? zlen value) "resolved value exceeds %d bytes";
    fail_if (has_newline value) "resolved value contains a newline"].

(** [string(material.Value)] *)
Definition material_string (m : Material) : string := of_bytes ((fun b => ascii_of_nat (Z.to_nat b)) <$> ma_Value m).

Section Headers.
Context `{UnicodeTables} {W : Type}.

(** A [credentials.Source] with the context of the request; [None] is [nil]. *)
Variable secrets : option (string -> M W string Material).
(** The order of [range] over a map. *)
Variable visit : gmap string HeaderValue -> list (string * HeaderValue).

Definition wrapping {A} (prefix : string) (m : M W string A) : M W string A := fun w =>
  match m w with (inl err, w) => (inl (prefix +:+ err), w) | ok => ok end.

Definition check (err : option string) : M W string () :=
  match err with Some err => throw err | None => mret () end.

(** The value of a header. *)
Definition header_value (value : HeaderValue) : M W string string :=
  if String.eqb (hv_ValueFrom value) "" then mret (hv_Value value)
  else
    match secrets with
    | None => throw "%s: credential source is required"%string
    | Some secrets_Resolve =>
        material ← wrapping "%s: resolve value_from: " (secrets_Resolve (hv_ValueFrom value));
        mret (material_string material)
    end.

Definition apply_step (purpose : string) (target : Header) (entry : string * HeaderValue) : M W string Header :=
  if negb (applies (hv_Scope entry.2) purpose) then mret target
  else
    resolved ← header_value entry.2;
    _ ← check (wrap "%s: " (validateResolvedValue resolved));
    mret (Header_Set target (CanonicalHeaderKey entry.1) resolved).

(** The order of [sort.Slice]. *)
Definition by_lower_name (x y : string * HeaderValue) : bool := String.ltb (ToLower x.1) (ToLower y.1).

(** [apply] *)
Definition apply_headers (purpose : string) (target : Header) (values : gmap string HeaderValue) : M W string Header :=
  for_each (apply_step purpose) target (stable_sort by_lower_name (visit values)).

(** [Resolve] *)
Definition ResolveHeaders (provider deployment : gmap string HeaderValue) (purpose : string) : M W string Header :=
  result ← wrapping "provider headers: " (apply_headers purpose ∅ provider);
  wrapping "deployment headers: " (apply_headers purpose result deployment).

Definition ApplyAuthentication (target : Header) (auth : ProviderAuth) (deploymentCredential : string) : M W string Header :=
  if String.eqb (auth_Type auth) AuthNone then mret target
  else
    let ref := if String.eqb deploymentCredential "" then auth_Credential auth else deploymentCredential in
    match secrets with
    | None => throw "credential source is required"%string
    | Some secrets_Resolve =>
        material ← wrapping "resolve provider credential: " (secrets_Resolve ref);
        let value := material_string material in
        _ ← check (wrap "provider credential: " (validateResolvedValue value));
        if String.eqb (auth_Type auth) AuthBearer then mret (Header_Set target "Authorization" ("Bearer " +:+ value))
        else if String.eqb (auth_Type auth) AuthHeader
        then mret (Header_Set target (CanonicalHeaderKey (auth_Header auth)) (auth_Prefix auth +:+ value))
        else throw "unsupported provider auth type %q"%string
    end.
(** The headers of a request for a stored response, up to [telemetry.Inject]. *)
Definition gateway_headers (streaming : bool) (userAgent requestID : string) : Header -> Header := fun h =>
  let h := Header_Set h "Accept" (if streaming then "text/event-stream" else "application/json") in
  Header_Set (Header_Set h "User-Agent" userAgent) "X-Request-Id" requestID.

Definition resource_headers (streaming : bool) (userAgent requestID : string) (provider deployment : gmap string HeaderValue)
    (auth : ProviderAuth) (credential : string) : M W string Header :=
  resolvedHeaders ← ResolveHeaders provider deployment PurposeInference;
  ApplyAuthentication (gateway_headers streaming userAgent requestID resolvedHeaders) auth credential.
End Headers.

(** ** Names and texts *)
Lemma token_ascii c : isTokenChar c = true -> non_ascii c = false.
Proof. destruct c as [[] [] [] [] [] [] [] []]; vm_compute; congruence. Qed.

Lemma lower_upper_byte c : lower_byte (upper_byte c) = lower_byte c.
Proof. destruct c as [[] [] [] [] [] [] [] []]; reflexivity. Qed.

Lemma canonical_ascii upper l : existsb non_ascii l = false -> existsb non_ascii (canonical_bytes upper l) = false.
Proof.
  revert upper. induction l as [|c l IH]; intros upper; [done|]. cbn. rewrite !orb_false_iff. intros [Hc Hl].
  split; [|by apply IH]. revert Hc. clear. destruct upper, c as [[] [] [] [] [] [] [] []]; vm_compute; congruence.
Qed.

Lemma lower_canonical_bytes upper l : lower_byte <$> canonical_bytes upper l = lower_byte <$> l.
Proof.
  revert upper. induction l as [|c l IH]; intros upper; [done|]. rewrite !fmap_cons. cbn [canonical_bytes].
  rewrite !fmap_cons, IH. f_equal. destruct upper; [apply lower_upper_byte|apply lower_byte_idem].
Qed.

(** The canonical form of a name only changes the case of its letters. *)
Lemma lower_canonical `{UnicodeTables} name : ToLower (CanonicalHeaderKey name) = ToLower name.
Proof.
  unfold CanonicalHeaderKey. destruct (forallb _ _) eqn:Htok; [|done].
  assert (Hn : existsb non_ascii (bytes name) = false).
  { rewrite forallb_forall in Htok. apply not_true_is_false. intros (c & Hc & Hnc)%existsb_exists.
    rewrite (token_ascii c) in Hnc; [done|by apply Htok]. }
  unfold ToLower. rewrite bytes_of_bytes, Hn, canonical_ascii by done. by rewrite lower_canonical_bytes.
Qed.

Lemma lead_byte_range a n lo hi : lead_byte a = Some (n, lo, hi) -> 128 <= lo.
Proof. unfold lead_byte. intros E. repeat (destruct (in_range _ _ _) in E; [injection E as _ <- _; lia|]). done. Qed.

Lemma in_range_non_ascii lo hi c : 128 <= lo -> in_range lo hi c = true -> non_ascii c = true.
Proof. unfold in_range, non_ascii. rewrite andb_true_iff, !Z.leb_le, Nat.leb_le. lia. Qed.

(** An ASCII byte of a text is one of its runes. *)
Lemma decode_ascii c l : non_ascii c = false -> c ∈ l -> Z.of_nat (byte_of c) ∈ decode l.
Proof.
  intros Hc. assert (Hskip : forall lo hi b k, 128 <= lo -> negb (in_range lo hi b) = false -> c ∈ b :: k -> c ∈ k).
  { intros lo hi b k Hlo Hb [->|]%elem_of_cons; [|done]. apply negb_false_iff in Hb.
    apply in_range_non_ascii in Hb; [congruence|done]. }
  induction l as [l IH] using (induction_ltof1 _ length). unfold ltof in IH.
  destruct l as [|a l1]; [by rewrite elem_of_nil|]. intros Hin.
  destruct (non_ascii a) eqn:Ha; cbn [decode]; rewrite Ha; cbn [negb].
  2:{ apply elem_of_cons in Hin as [->|Hin]; [by left|]. right. apply IH; [cbn; lia|done]. }
  apply elem_of_cons in Hin as [->|Hin]; [congruence|].
  assert (Hnext : Z.of_nat (byte_of c) ∈ rune_error :: decode l1) by (right; apply IH; [cbn; lia|done]).
  destruct (lead_byte a) as [[[n lo] hi]|] eqn:Hlead; [|by destruct l1]. apply lead_byte_range in Hlead.
  destruct l1 as [|b l2]; [done|]. destruct (negb (in_range lo hi b)) eqn:Hb; [done|].
  apply (Hskip _ _ _ _ Hlead Hb) in Hin. destruct (Nat.eqb n 2).
  { right. apply IH; [cbn; lia|done]. }
  destruct l2 as [|d l3]; [done|]. destruct (negb (in_range 128 191 d)) eqn:Hd; [done|].
  apply (Hskip _ _ _ _ (Z.le_refl _) Hd) in Hin. destruct (Nat.eqb n 3).
  { right. apply IH; [cbn; lia|done]. }
  destruct l3 as [|e l4]; [done|]. destruct (negb (in_range 128 191 e)) eqn:He; [done|].
  apply (Hskip _ _ _ _ (Z.le_refl _) He) in Hin. right. apply IH; [cbn; lia|done].
Qed.

Lemma header_text_one_line value : validateHeaderValue value = None -> has_newline value = false.
Proof.
  unfold validateHeaderValue. rewrite !first_error_cons, !fail_if_None. intros (_ & Hr & _).
  apply not_true_is_false. intros (c & Hc & Hnl)%existsb_exists. rewrite <- not_true_iff_false in Hr. apply Hr.
  apply existsb_exists. exists (Z.of_nat (byte_of c)). split.
  - apply list_elem_of_In, decode_ascii; [|by apply list_elem_of_In].
    unfold non_ascii. apply orb_true_iff in Hnl as [E%Nat.eqb_eq|E%Nat.eqb_eq]; rewrite E; done.
  - apply orb_true_iff in Hnl as [E%Nat.eqb_eq|E%Nat.eqb_eq]; rewrite E; done.
Qed.

Lemma has_newline_app a b : has_newline (a +:+ b) = has_newline a || has_newline b.
Proof. unfold has_newline. by rewrite bytes_app, existsb_app. Qed.

Lemma Header_Set_eq (h : Header) key value : Header_Set h key value !! key = Some [value].
Proof. apply (lookup_insert_eq (M := gmap string)). Qed.

Lemma Header_Set_ne (h : Header) key key' value : key <> key' -> Header_Set h key value !! key' = h !! key'.
Proof. apply (lookup_insert_ne (M := gmap string)). Qed.

(** ** What the headers are *)
Section Specification.
Context `{UnicodeTables} {W : Type} (secrets : option (string -> M W string Material)) (answer : string -> string + Material)
  (purpose : string).

(** The source gives the same answers throughout. *)
Definition steady : Prop :=
  forall secrets_Resolve, secrets = Some secrets_Resolve -> forall ref w, (secrets_Resolve ref w).1 = answer ref.

Definition usable_value (value : string) : option string :=
  match validateResolvedValue value with Some _ => None | None => Some value end.

Definition secret_value (ref : string) : option string :=
  _ ← secrets; match answer ref with inl _ => None | inr material => usable_value (material_string material) end.

(** The text a configured header stands for. *)
Definition text_of (value : HeaderValue) : option string :=
  if String.eqb (hv_ValueFrom value) "" then usable_value (hv_Value value) else secret_value (hv_ValueFrom value).

(** A header of the configuration, for the purpose, under its canonical name. *)
Definition configures (values : gmap string HeaderValue) (key : string) (value : HeaderValue) : Prop :=
  exists name, values !! name = Some value /\ applies (hv_Scope value) purpose = true /\ CanonicalHeaderKey name = key.

Definition credential_key (auth : ProviderAuth) : option string :=
  if String.eqb (auth_Type auth) AuthNone then None
  else if String.eqb (auth_Type auth) AuthBearer then Some "Authorization"%string
  else Some (CanonicalHeaderKey (auth_Header auth)).

Definition credential_text (auth : ProviderAuth) (deploymentCredential : string) : option string :=
  value ← secret_value (if String.eqb deploymentCredential "" then auth_Credential auth else deploymentCredential);
  if String.eqb (auth_Type auth) AuthBearer then Some ("Bearer " +:+ value)
  else if String.eqb (auth_Type auth) AuthHeader then Some (auth_Prefix auth +:+ value)
  else None.

(** Where a header of a request comes from: the credential, the gateway, the
    deployment, or the provider, in this order. *)
Inductive origin (provider deployment : gmap string HeaderValue) (gateway : Header) (auth : ProviderAuth)
    (credential key : string) : list string -> Prop :=
  | origin_credential text :
      credential_key auth = Some key -> credential_text auth credential = Some text ->
      origin provider deployment gateway auth credential key [text]
  | origin_gateway texts :
      credential_key auth <> Some key -> gateway !! key = Some texts ->
      origin provider deployment gateway auth credential key texts
  | origin_deployment value text :
      credential_key auth <> Some key -> gateway !! key = None ->
      configures deployment key value -> text_of value = Some text ->
      origin provider deployment gateway auth credential key [text]
  | origin_provider value text :
      credential_key auth <> Some key -> gateway !! key = None -> (forall value, ~ configures deployment key value) ->
      configures provider key value -> text_of value = Some text ->
      origin provider deployment gateway auth credential key [text].

Context (Hsteady : steady).

Lemma wp_wrapping {A} prefix (m : M W string A) (QE : Prop) Q w :
  wp m (fun _ _ => QE) Q w -> wp (wrapping prefix m) (fun _ _ => QE) Q w.
Proof. unfold wp, wrapping. by destruct (m w) as [[e|a] w']. Qed.

Lemma wp_check prefix value (QE : Prop) Q w :
  (usable_value value = None -> QE) -> (usable_value value = Some value -> Q () w) ->
  wp (W := W) (check (wrap prefix (validateResolvedValue value))) (fun _ _ => QE) Q w.
Proof. unfold usable_value, check, wp, wrap. destruct (validateResolvedValue value); cbn; auto. Qed.

Lemma secret_spec prefix ref secrets_Resolve (QE : Prop) Q w : secrets = Some secrets_Resolve ->
  (secret_value ref = None -> QE) ->
  (forall material w', answer ref = inr material -> Q material w') ->
  wp (wrapping prefix (secrets_Resolve ref)) (fun _ _ => QE) Q w.
Proof.
  intros Hs HE HQ. apply wp_wrapping. pose proof (Hsteady _ Hs ref w) as Ha. unfold wp, secret_value in *. rewrite Hs in HE.
  destruct (secrets_Resolve ref w) as [[e|m] w']; cbn in Ha; [|by apply HQ]. apply HE. cbn. by rewrite <- Ha.
Qed.

Lemma apply_step_spec target entry w :
  wp (apply_step secrets purpose target entry)
    (fun _ _ => applies (hv_Scope entry.2) purpose = true /\ text_of entry.2 = None)
    (fun target' _ =>
       if applies (hv_Scope entry.2) purpose
       then exists text, text_of entry.2 = Some text /\ target' = Header_Set target (CanonicalHeaderKey entry.1) text
       else target' = target) w.
Proof.
  unfold apply_step. destruct (applies _ purpose); cbn [negb]; [|by apply wp_ret].
  assert (Hset : forall value (w : W), text_of entry.2 = usable_value value ->
    wp (_ ← check (wrap "%s: " (validateResolvedValue value)); mret (Header_Set target (CanonicalHeaderKey entry.1) value))
      (fun _ _ => true = true /\ text_of entry.2 = None)
      (fun target' _ => exists text, text_of entry.2 = Some text /\ target' = Header_Set target (CanonicalHeaderKey entry.1) text) w).
  { intros value w' Hv. apply wp_bind, wp_check; intros E; rewrite Hv; [done|]. apply wp_ret. eauto. }
  apply wp_bind. unfold header_value. destruct (String.eqb (hv_ValueFrom entry.2) "") eqn:Hfrom.
  - apply wp_ret, Hset. unfold text_of. by rewrite Hfrom.
  - assert (Ht : text_of entry.2 = secret_value (hv_ValueFrom entry.2)) by (unfold text_of; by rewrite Hfrom).
    destruct secrets as [secrets_Resolve|] eqn:Hs.
    + apply wp_bind. eapply (secret_spec _ _ _ _ _ _ Hs); [by rewrite Ht|].
      intros material w' Ha. apply wp_ret, Hset. rewrite Ht. unfold secret_value. by rewrite Hs, Ha.
    + apply wp_throw. rewrite Ht. unfold secret_value. by rewrite Hs.
Qed.

(** The loop over headers whose canonical names differ. *)
Definition applied (target : Header) (l : list (string * HeaderValue)) (target' : Header) (_ : W) : Prop :=
  (forall e, e ∈ l -> applies (hv_Scope e.2) purpose = true ->
     exists text, text_of e.2 = Some text /\ target' !! CanonicalHeaderKey e.1 = Some [text]) /\
  (forall key, (forall e, e ∈ l -> applies (hv_Scope e.2) purpose = true -> CanonicalHeaderKey e.1 <> key) ->
     target' !! key = target !! key).

Lemma apply_loop_spec target l w : NoDup ((fun e => CanonicalHeaderKey e.1) <$> l) ->
  wp (for_each (apply_step secrets purpose) target l)
    (fun _ _ => exists e, e ∈ l /\ applies (hv_Scope e.2) purpose = true /\ text_of e.2 = None) (applied target l) w.
Proof.
  intros Hnd. apply (wp_for_each _ (applied target)).
  { split; [by intros e ?%elem_of_nil|done]. }
  intros before e after target' w' -> [Hin Hout].
  rewrite fmap_app, fmap_cons in Hnd. apply NoDup_app in Hnd as (_ & Hnew & _).
  pose proof (apply_step_spec target' e w') as Hstep. unfold wp in *.
  destruct (apply_step secrets purpose target' e w') as [[err|target''] w''].
  { exists e. split; [rewrite elem_of_app; right; by left|done]. }
  destruct (applies (hv_Scope e.2) purpose) eqn:Happ.
  - destruct Hstep as (text & Htext & ->). split.
    + intros e' [He'| ->%list_elem_of_singleton]%elem_of_app Happ'.
      * destruct (Hin e' He' Happ') as (t & Ht & Hl). exists t. split; [done|].
        rewrite Header_Set_ne; [done|]. intros E. apply (Hnew (CanonicalHeaderKey e.1)); [|by left].
        rewrite E. by apply (list_elem_of_fmap_2 (fun e => CanonicalHeaderKey e.1)).
      * exists text. split; [done|]. apply Header_Set_eq.
    + intros key Hkey. rewrite Header_Set_ne.
      * apply Hout. intros e' He'. apply Hkey. rewrite elem_of_app. by left.
      * apply Hkey; [|done]. rewrite elem_of_app. right. by apply list_elem_of_singleton.
  - subst target''. split.
    + intros e' [He'| ->%list_elem_of_singleton]%elem_of_app; [by apply Hin|congruence].
    + intros key Hkey. apply Hout. intros e' He'. apply Hkey. rewrite elem_of_app. by left.
Qed.

Context (visit : gmap string HeaderValue -> list (string * HeaderValue)) (Hvisit : forall m, visit m ≡ₚ map_to_list m).

Lemma valid_names values : validateHeaders values = None -> NoDup ((fun e => CanonicalHeaderKey e.1) <$> map_to_list values).
Proof.
  unfold validateHeaders. rewrite !first_error_cons, validate_header_entries_spec. intros (_ & (_ & Hnd) & _).
  apply (NoDup_fmap_1 ToLower). rewrite <- list_fmap_compose.
  rewrite (list_fmap_ext _ (fun e : string * HeaderValue => ToLower e.1)); [done|].
  intros _ e _. apply lower_canonical.
Qed.

Lemma apply_headers_spec target values w : validateHeaders values = None ->
  wp (apply_headers secrets visit purpose target values)
    (fun _ _ => exists key value, configures values key value /\ text_of value = None)
    (fun target' _ =>
       (forall key value, configures values key value ->
          exists text, text_of value = Some text /\ target' !! key = Some [text]) /\
       (forall key, (forall value, ~ configures values key value) -> target' !! key = target !! key)) w.
Proof.
  intros Hv. unfold apply_headers. set (l := stable_sort _ _).
  assert (Hl : l ≡ₚ map_to_list values) by (unfold l; by rewrite stable_sort_Permutation, Hvisit).
  assert (Hin : forall e, e ∈ l <-> values !! e.1 = Some e.2).
  { intros e. rewrite Hl. destruct e. apply elem_of_map_to_list. }
  pose proof (apply_loop_spec target l w) as Hloop. rewrite Hl in Hloop at 1. specialize (Hloop (valid_names values Hv)).
  unfold wp in *. destruct (for_each _ _ _ w) as [[err|target'] w'].
  - destruct Hloop as (e & He & Happ & Ht). apply Hin in He. exists (CanonicalHeaderKey e.1), e.2. split; [by exists e.1|done].
  - destruct Hloop as [Hset Hkeep]. split.
    + intros key value (name & Hname & Happ & <-). apply (Hset (name, value)); [by apply Hin|done].
    + intros key Hno. apply Hkeep. intros e He Happ Hkey. apply (Hno e.2). exists e.1. by apply Hin in He.
Qed.
End Specification.

Section Merge.
Context `{UnicodeTables} {W : Type} (secrets : option (string -> M W string Material)) (answer : string -> string + Material).
Context (visit : gmap string HeaderValue -> list (string * HeaderValue)).

Lemma gateway_lookup streaming userAgent requestID (h : Header) key :
  gateway_headers streaming userAgent requestID h !! key =
  match gateway_headers streaming userAgent requestID (∅ : Header) !! key with Some texts => Some texts | None => h !! key end.
Proof.
  unfold gateway_headers.
  destruct (decide ("X-Request-Id"%string = key)) as [<-|]; [by rewrite !Header_Set_eq|rewrite !(Header_Set_ne _ "X-Request-Id") by done].
  destruct (decide ("User-Agent"%string = key)) as [<-|]; [by rewrite !Header_Set_eq|rewrite !(Header_Set_ne _ "User-Agent") by done].
  destruct (decide ("Accept"%string = key)) as [<-|]; [by rewrite !Header_Set_eq|rewrite !(Header_Set_ne _ "Accept") by done].
  done.
Qed.

Lemma configures_or_not purpose values key :
  (exists value, configures purpose values key value) \/ (forall value, ~ configures purpose values key value).
Proof.
  destruct (decide (Exists (fun e => applies (hv_Scope e.2) purpose = true /\ CanonicalHeaderKey e.1 = key) (map_to_list values)))
    as [Hyes|Hno].
  - left. apply Exists_exists in Hyes as ([name value] & Hin & Happ & Hk). apply elem_of_map_to_list in Hin.
    exists value, name. done.
  - right. intros value (name & Hin & Happ & Hk). apply Hno, Exists_exists. exists (name, value).
    split; [by apply elem_of_map_to_list|done].
Qed.

(** Something of the configuration does not resolve. *)
Definition unresolved (provider deployment : gmap string HeaderValue) (auth : ProviderAuth) (credential : string) : Prop :=
  (exists key value, (configures PurposeInference provider key value \/ configures PurposeInference deployment key value) /\
     text_of secrets answer value = None) \/
  (exists key, credential_key auth = Some key /\ credential_text secrets answer auth credential = None).

Lemma authentication_spec target auth credential w : steady secrets answer ->
  wp (ApplyAuthentication secrets target auth credential)
    (fun _ _ => exists key, credential_key auth = Some key /\ credential_text secrets answer auth credential = None)
    (fun h _ =>
       match credential_key auth with
       | None => h = target
       | Some key => exists text, credential_text secrets answer auth credential = Some text /\ h = Header_Set target key text
       end) w.
Proof.
  intros Hsteady. unfold ApplyAuthentication, credential_key, credential_text.
  destruct (String.eqb (auth_Type auth) AuthNone) eqn:Hnone; [by apply wp_ret|].
  set (ref := if String.eqb credential "" then _ else _). set (bearer := String.eqb (auth_Type auth) AuthBearer).
  assert (Hsome : exists key, (if bearer then Some "Authorization"%string else Some (CanonicalHeaderKey (auth_Header auth))) = Some key)
    by (destruct bearer; eauto).
  destruct secrets as [secrets_Resolve|] eqn:Hs.
  2:{ apply wp_throw. destruct Hsome as [key Hk]. rewrite Hk. by exists key. }
  rewrite <- Hs in *. apply wp_bind. eapply (secret_spec secrets answer Hsteady _ ref _ _ _ _ Hs).
  { intros E. destruct Hsome as [key ->]. exists key. by rewrite E. }
  intros material w' Ha. assert (Hv : secret_value secrets answer ref = usable_value (material_string material)).
  { unfold secret_value. by rewrite Hs, Ha. }
  apply wp_bind, wp_check; intros E.
  { destruct Hsome as [key ->]. exists key. by rewrite Hv, E. }
  rewrite Hv, E. cbn. destruct bearer; [apply wp_ret; eauto|].
  destruct (String.eqb (auth_Type auth) AuthHeader); [apply wp_ret; eauto|apply wp_throw; eauto].
Qed.

Lemma resource_headers_spec streaming userAgent requestID provider deployment auth credential w :
  (forall m, visit m ≡ₚ map_to_list m) -> steady secrets answer ->
  validateHeaders provider = None -> validateHeaders deployment = None ->
  wp (resource_headers secrets visit streaming userAgent requestID provider deployment auth credential)
    (fun _ _ => unresolved provider deployment auth credential)
    (fun h _ => ~ unresolved provider deployment auth credential /\
       forall key texts, h !! key = Some texts <->
         origin secrets answer PurposeInference provider deployment
           (gateway_headers streaming userAgent requestID (∅ : Header)) auth credential key texts) w.
Proof.
  intros Hvisit Hsteady Hp Hd. unfold resource_headers, ResolveHeaders.
  pose proof (apply_headers_spec secrets answer PurposeInference Hsteady visit Hvisit) as Happly.
  apply wp_bind, wp_bind, wp_wrapping.
  pose proof (Happly (∅ : Header) provider w Hp) as H1. unfold wp at 1. unfold wp in H1.
  destruct (apply_headers _ _ _ _ provider w) as [[e|h1] w1].
  { destruct H1 as (key & value & ? & ?). left. eauto. }
  apply wp_wrapping. pose proof (Happly h1 deployment w1 Hd) as H2. unfold wp at 1. unfold wp in H2.
  destruct (apply_headers _ _ _ _ deployment w1) as [[e|h2] w2].
  { destruct H2 as (key & value & ? & ?). left. eauto. }
  pose proof (authentication_spec (gateway_headers streaming userAgent requestID h2) auth credential w2 Hsteady) as H3.
  unfold wp in *. destruct (ApplyAuthentication _ _ _ _ w2) as [[e|h] w3]; [by right|].
  destruct H1 as [P1 P2], H2 as [D1 D2].
  assert (Hcred : forall key, credential_key auth = Some key -> exists text,
    credential_text secrets answer auth credential = Some text /\ h !! key = Some [text]).
  { intros key Hk. rewrite Hk in H3. destruct H3 as (text & Ht & ->). exists text. by rewrite Header_Set_eq. }
  assert (Hrest : forall key, credential_key auth <> Some key ->
    h !! key = match gateway_headers streaming userAgent requestID (∅ : Header) !! key with Some t => Some t | None => h2 !! key end).
  { intros key Hk. rewrite <- gateway_lookup. destruct (credential_key auth) as [key'|]; [|by subst].
    destruct H3 as (text & _ & ->). apply Header_Set_ne. congruence. }
  split.
  - intros [(key & value & [Hc|Hc] & Ht)|(key & Hk & Ht)].
    + destruct (P1 _ _ Hc) as (? & ? & _). congruence.
    + destruct (D1 _ _ Hc) as (? & ? & _). congruence.
    + destruct (Hcred key Hk) as (? & ? & _). congruence.
  - intros key texts. split.
    + intros Hh. destruct (decide (credential_key auth = Some key)) as [Hk|Hk].
      { destruct (Hcred key Hk) as (text & Ht & E). rewrite E in Hh. injection Hh as <-. by constructor. }
      rewrite (Hrest key Hk) in Hh. destruct (gateway_headers _ _ _ _ !! key) as [t|] eqn:Hg.
      { injection Hh as <-. by apply origin_gateway. }
      destruct (configures_or_not PurposeInference deployment key) as [[v Hv]|Hno].
      { destruct (D1 _ _ Hv) as (text & Ht & E). rewrite E in Hh. injection Hh as <-. by eapply origin_deployment. }
      rewrite (D2 key Hno) in Hh. destruct (configures_or_not PurposeInference provider key) as [[v Hv]|Hno'].
      { destruct (P1 _ _ Hv) as (text & Ht & E). rewrite E in Hh. injection Hh as <-. by eapply origin_provider. }
      rewrite (P2 key Hno') in Hh. discriminate (eq_trans (eq_sym (lookup_empty (M := gmap string) key)) Hh).
    + destruct 1 as [text Hk Ht|texts Hk Hg|v text Hk Hg Hv Ht|v text Hk Hg Hno Hv Ht].
      * destruct (Hcred key Hk) as (text' & Ht' & ->). congruence.
      * by rewrite (Hrest key Hk), Hg.
      * rewrite (Hrest key Hk), Hg. destruct (D1 _ _ Hv) as (text' & Ht' & ->). congruence.
      * rewrite (Hrest key Hk), Hg, (D2 key Hno). destruct (P1 _ _ Hv) as (text' & Ht' & ->). congruence.
Qed.
End Merge.

(** ** What the headers cannot be *)
Section Safety.
Context `{UnicodeTables} {W : Type} (secrets : option (string -> M W string Material)) (answer : string -> string + Material).

Lemma usable_one_line value text : usable_value value = Some text -> has_newline text = false.
Proof.
  unfold usable_value. destruct (validateResolvedValue value) eqn:E; [done|]. intros [= <-].
  unfold validateResolvedValue in E. rewrite !first_error_cons, !fail_if_None in E. tauto.
Qed.

Lemma secret_one_line ref text : secret_value secrets answer ref = Some text -> has_newline text = false.
Proof. unfold secret_value. intros (? & _ & E)%bind_Some. destruct (answer ref); [done|]. by apply usable_one_line in E. Qed.

Lemma text_one_line value text : text_of secrets answer value = Some text -> has_newline text = false.
Proof. unfold text_of. destruct (String.eqb _ _); [apply usable_one_line|apply secret_one_line]. Qed.

Lemma header_auth_valid auth : validateAuth auth = None -> String.eqb (auth_Type auth) AuthHeader = true ->
  mem (ToLower (auth_Header auth)) transportHeaders = false /\ validateHeaderValue (auth_Prefix auth) = None.
Proof.
  unfold validateAuth. intros Hv Hh. apply String.eqb_eq in Hh as Ht. rewrite Hh in Hv.
  assert (Hn : String.eqb (auth_Type auth) AuthNone = false) by (by rewrite Ht).
  assert (Hb : String.eqb (auth_Type auth) AuthBearer = false) by (by rewrite Ht).
  rewrite Hn, Hb, !first_error_cons, !wrap_None, fail_if_None in Hv. tauto.
Qed.

Lemma credential_one_line auth credential text : validateAuth auth = None ->
  credential_text secrets answer auth credential = Some text -> has_newline text = false.
Proof.
  unfold credential_text. intros Hv (value & Hval%secret_one_line & E)%bind_Some.
  destruct (String.eqb (auth_Type auth) AuthBearer) eqn:Hb.
  { injection E as <-. by rewrite has_newline_app, Hval. }
  destruct (String.eqb (auth_Type auth) AuthHeader) eqn:Hh; [|done]. injection E as <-.
  rewrite has_newline_app, Hval, orb_false_r. apply header_text_one_line. by apply header_auth_valid.
Qed.

Lemma credential_key_not_transport auth credential key text : validateAuth auth = None ->
  credential_key auth = Some key -> credential_text secrets answer auth credential = Some text ->
  ToLower key ∉ transportHeaders.
Proof.
  unfold credential_key, credential_text. intros Hv Hk (value & _ & E)%bind_Some.
  destruct (String.eqb (auth_Type auth) AuthNone); [done|].
  destruct (String.eqb (auth_Type auth) AuthBearer) eqn:Hb.
  { injection Hk as <-. by apply mem_false. }
  destruct (String.eqb (auth_Type auth) AuthHeader) eqn:Hh; [|done]. injection Hk as <-. rewrite lower_canonical.
  apply mem_false. by apply header_auth_valid.
Qed.

Lemma configured_not_protected purpose values key value : validateHeaders values = None ->
  configures purpose values key value -> ToLower key ∉ protectedHeaders.
Proof.
  unfold validateHeaders. rewrite !first_error_cons, validate_header_entries_spec. intros (_ & (Hall & _) & _).
  intros (name & Hin & _ & <-). rewrite lower_canonical. rewrite Forall_forall in Hall.
  specialize (Hall (name, value)). cbn [fst snd] in Hall. unfold validate_header in Hall.
  rewrite !first_error_cons, fail_if_None in Hall. apply mem_false. apply Hall. by apply elem_of_map_to_list.
Qed.

Lemma transport_protected name : name ∈ transportHeaders -> name ∈ protectedHeaders.
Proof. rewrite <- !mem_spec. unfold mem. rewrite !existsb_exists. intros (x & Hx & ->%String.eqb_eq).
  exists x. split; [|apply String.eqb_refl]. revert Hx. rewrite <- !list_elem_of_In. unfold transportHeaders, protectedHeaders.
  rewrite !elem_of_cons, !elem_of_nil. tauto. Qed.

Lemma gateway_texts streaming userAgent requestID key texts :
  gateway_headers streaming userAgent requestID (∅ : Header) !! key = Some texts ->
  mem (ToLower key) transportHeaders = false /\ (mem (ToLower key) protectedHeaders = true -> key = "X-Request-Id"%string) /\
  (has_newline userAgent = false -> has_newline requestID = false -> forall text, text ∈ texts -> has_newline text = false).
Proof.
  unfold gateway_headers.
  destruct (decide ("X-Request-Id"%string = key)) as [<-|].
  { rewrite Header_Set_eq. intros [= <-]. split_and!; [done|done|]. by intros ? ? ? ->%list_elem_of_singleton. }
  rewrite (Header_Set_ne _ "X-Request-Id") by done. destruct (decide ("User-Agent"%string = key)) as [<-|].
  { rewrite Header_Set_eq. intros [= <-]. split_and!; [done|done|]. by intros ? ? ? ->%list_elem_of_singleton. }
  rewrite (Header_Set_ne _ "User-Agent") by done. destruct (decide ("Accept"%string = key)) as [<-|].
  { rewrite Header_Set_eq. intros [= <-]. split_and!; [done|done|]. intros _ _ ? ->%list_elem_of_singleton. by destruct streaming. }
  rewrite (Header_Set_ne _ "Accept") by done. intros E.
  discriminate (eq_trans (eq_sym (lookup_empty (M := gmap string) key)) E).
Qed.
End Safety.

(** C17: The headers of an upstream request.  Configured headers were validated,
    and the source of secrets gives the same answers throughout; the order in
    which Go visits the maps does not matter.  The request is built exactly when
    every header that applies and the credential resolve.  Its headers are then
    exactly those of [origin]: the credential of the deployment, else of the
    provider, wins over what the gateway sets, which wins over the headers of the
    deployment, which win over those of the provider, names being compared without
    regard to case.  No value spans lines, so that none can smuggle a header in;
    no header of the transport is set, and a name the gateway protects only by the
    gateway or as the credential. *)
Theorem upstream_headers_merge `{UnicodeTables} {W} (secrets : option (string -> M W string Material)) answer visit
    streaming userAgent requestID provider deployment auth credential (w : W) :
  (forall m, visit m ≡ₚ map_to_list m) -> steady secrets answer ->
  validateHeaders provider = None -> validateHeaders deployment = None -> validateAuth auth = None ->
  has_newline userAgent = false -> has_newline requestID = false ->
  match (resource_headers secrets visit streaming userAgent requestID provider deployment auth credential w).1 with
  | inl _ => unresolved secrets answer provider deployment auth credential
  | inr h =>
      ~ unresolved secrets answer provider deployment auth credential /\
      (forall key texts, h !! key = Some texts <->
         origin secrets answer PurposeInference provider deployment
           (gateway_headers streaming userAgent requestID (∅ : Header)) auth credential key texts) /\
      (forall key texts text, h !! key = Some texts -> text ∈ texts -> has_newline text = false) /\
      (forall key, is_Some (h !! key) -> ToLower key ∉ transportHeaders /\
         (ToLower key ∈ protectedHeaders -> credential_key auth = Some key \/ key = "X-Request-Id"%string))
  end.
Proof.
  intros Hvisit Hsteady Hp Hd Ha Hua Hrid.
  pose proof (resource_headers_spec secrets answer visit streaming userAgent requestID provider deployment auth credential w
    Hvisit Hsteady Hp Hd) as Hspec. unfold wp in Hspec.
  destruct (resource_headers _ _ _ _ _ _ _ _ _ w) as [[e|h] w']; [exact Hspec|]. destruct Hspec as [Hno Hiff].
  do 2 (split; [done|]). split.
  - intros key texts text Ho%Hiff. destruct Ho as [t Hk Ht|ts Hk Hg|v t Hk Hg Hv Ht|v t Hk Hg _ Hv Ht].
    + intros ->%list_elem_of_singleton. by eapply credential_one_line.
    + intros Hin. by eapply (proj2 (proj2 (gateway_texts _ _ _ _ _ Hg))).
    + intros ->%list_elem_of_singleton. by eapply text_one_line.
    + intros ->%list_elem_of_singleton. by eapply text_one_line.
  - intros key [texts Ho%Hiff]. destruct Ho as [t Hk Ht|ts Hk Hg|v t Hk Hg Hv Ht|v t Hk Hg _ Hv Ht].
    + split; [by eapply credential_key_not_transport|]. by left.
    + destruct (gateway_texts _ _ _ _ _ Hg) as (Htr & Hprot & _). split; [by apply mem_false|].
      intros Hin. right. by apply Hprot, mem_spec.
    + pose proof (configured_not_protected _ _ _ _ Hd Hv) as Hn. split; [|done]. intros Hin. by apply Hn, transport_protected.
    + pose proof (configured_not_protected _ _ _ _ Hp Hv) as Hn. split; [|done]. intros Hin. by apply Hn, transport_protected.
Qed.

(** ** A request with headers of three origins *)
Definition team_headers : gmap string HeaderValue :=
  {["x-team" := mkHeaderValue "research" "" ""; "x-cache-token" := mkHeaderValue "" "env://CACHE" "inference";
    "x-probe" := mkHeaderValue "1" "" "health"]}.
Definition node_headers : gmap string HeaderValue := {["X-TEAM" := mkHeaderValue "serving" "" "both"]}.
Definition bearer_auth : ProviderAuth := mkProviderAuth "bearer" "" "" "env://PROVIDER".

Definition env_answer (ref : string) : string + Material :=
  if mem ref ["env://CACHE"; "env://NODE"]%string then inr (mkMaterial (string_bytes ref) "1") else inl "not set"%string.
Definition env_secrets : option (string -> M () string Material) := Some (fun ref w => (env_answer ref, w)).

Lemma env_steady : steady env_secrets env_answer.
Proof. by intros ? [= <-] ref w. Qed.

Definition node_request (credential : string) : M () string Header :=
  resource_headers (H := plain_tables) env_secrets map_to_list false "sparkroute" "req_1" team_headers node_headers bearer_auth credential.

Definition node_result : Header :=
  match (node_request "env://NODE" tt).1 with inr h => h | inl _ => (∅ : Header) end.

Lemma node_request_headers : (node_request "env://NODE" tt).1 = inr node_result.
Proof. vm_compute. reflexivity. Qed.

Lemma upstream_headers_merge_witness :
  origin env_secrets env_answer PurposeInference team_headers node_headers
    (gateway_headers false "sparkroute" "req_1" (∅ : Header)) bearer_auth "env://NODE" "X-Team" ["serving"%string] /\
  credential_key bearer_auth = Some "Authorization"%string.
Proof.
  split; [|reflexivity].
  pose proof (upstream_headers_merge (H := plain_tables) env_secrets env_answer map_to_list false "sparkroute" "req_1"
    team_headers node_headers bearer_auth "env://NODE" tt (fun m => reflexivity _) env_steady
    ltac:(vm_compute; reflexivity) ltac:(vm_compute; reflexivity) ltac:(vm_compute; reflexivity)
    ltac:(vm_compute; reflexivity) ltac:(vm_compute; reflexivity)) as Hm.
  fold (node_request "env://NODE") in Hm. rewrite node_request_headers in Hm.
  destruct Hm as (_ & Hiff & _). apply Hiff. vm_compute. reflexivity.
Defined.

Example node_request_example :
  map_to_list node_result =
    [("User-Agent", ["sparkroute"]); ("Accept", ["application/json"]); ("Authorization", ["Bearer env://NODE"]);
     ("X-Cache-Token", ["env://CACHE"]); ("X-Request-Id", ["req_1"]); ("X-Team", ["serving"])]%string.
Proof. vm_compute. reflexivity. Qed.

(** Without a credential of its own the deployment uses that of the provider,
    which is not set. *)
Example unset_credential :
  (node_request "" tt).1 = inl "resolve provider credential: not set"%string.
Proof. vm_compute. reflexivity. Qed.
